(* ===== verification/_CoqProject ===== *)
-Q . S2P
Prelude.v
Words.v
Murmur.v
BloomFilter.v
Text.v
Slice.v
Coding.v
Crc32cTables.v
Crc32c.v
Log.v
LogSpec.v
DbFormat.v
BlockHash.v
BlockBuilder.v
Block.v
BlockLayout.v
BlockSeek.v
BlockKinds.v
BlockBuild.v
BlockSpec.v
BlockGet.v
BlockMain.v
SkipList.v
SkipInv.v
SkipLogic.v
SkipFind.v
SkipSplice.v
SkipInsert.v
SkipFinish.v
SkipSystem.v
SkipInit.v
SkipRead.v
SkipMain.v
SkipWait.v
Workload.v
MicroBench.v
KVStore.v
MqssdOptions.v
Mqssd.v
MqssdSpec.v
Universal.v
UniversalSpec.v
LruTable.v
LruCache.v
LruList.v
LruInv.v
LruSpec.v
LruFrame.v
LruMain.v
LruPools.v
BPlusTree.v
BPlusList.v
BPlusOps.v
BPlusView.v
BPlusNode.v
BPlusEdit.v
BPlusEditIns.v
BPlusEditSplit.v
BPlusEditDel.v
BPlusLevels.v
BPlusInv.v
BPlusSearch.v
BPlusClimb.v
BPlusInsert.v
BPlusPut.v
BPlusRemove.v
BPlusSibling.v
BPlusDelClimb.v
BPlusShrink.v
BPlusDelete.v
BPlusRange.v
BPlusSpec.v
BPlusMain.v
BPlusLevel.v
BPlusAbsent.v
BPlusDump.v
BPlusBoot.v
