(* ===== verification/Prelude.v ===== *)
(** * A verification development for MQSSD_Model

    The repository measures data structures on solid-state disks: a B+ tree in
    an index file (bplustree/), a Bloom filter in a mapped file (filter_exps/),
    raw reads and writes (micro_benchmarks/), and RocksDB with leveled and
    universal compaction (rocksdb_exp/), driven by programs of its own
    (rocksdb-8.6.7/mqssd/) over key files it generates (workload_gen.cc).  This
    library translates these programs, and the parts of RocksDB their results
    turn on, into definitions that compute, and proves what they do.

    ** Conventions

    C and C++ integers are [Z]; arithmetic wraps where the type is unsigned and
    narrow ([Words.wrap]).  Stateful C code is written in the monad [M], a state
    transformer that may fail; code without state returns a [result].  A
    failure is a value of [error]: an [assert] that does not hold, an access
    outside an array, a null or freed pointer, a division by zero, a call of
    [exit].  [EFuel] means that the fuel of a loop ran out; the theorems below
    prove that the fuel a caller passes is enough, so that statements of the
    form [f x = Ok y] include termination.  Doubles are [SpecFloat] numbers of
    53 bits.  Memory that is allocated and freed is a finite map from pointers
    to objects; reading a pointer that is not there fails.

    ** The files

    This file: errors, monads, [wp] (total correctness), [frames] (what a
    computation leaves alone, with the hint database of that name), arrays, and
    the tactics for equalities of arrays cell by cell.  [Words] has machine
    words and little-endian bytes, [Text] decimal numbers in text files as
    [std::to_string], [operator>>], [strtoull] and [atoi] treat them.

    B+ tree, src/bplustree/lib/bplustree.{c,h}:
    - [BPlusTree]: nodes, the five cache buffers with their [used] flags, the
      index file as a map from offsets to blocks, allocation;
    - [BPlusOps]: every operation of the tree, function by function;
    - [BPlusView] to [BPlusDelete]: a program logic for code that works in the
      buffers ([awp]), the effect of every node operation, the tree as a list of
      levels ([BPlusLevels], [BPlusInv]), search, insertion with its chain of
      splits and deletion with its chain of merges;
    - [BPlusRange], [BPlusSpec], [BPlusMain]: range queries, the relation "the
      tree stores the map" and the theorems C1 to C4 and C7: [bplus_tree_put] and
      [bplus_tree_get] refine a finite map, any sequence of calls is safe, no
      block is lost, the leaves are chained in order, the height is
      logarithmic, and range queries that begin at a key are exact;
    - [BPlusLevel]: no operation reads the level count of the tree;
    - [BPlusAbsent]: what a range query answers whose lower bound is not a key,
      C8;
    - [BPlusDump]: [bplus_tree_dump], whose explicit stack makes it print the
      preorder of a tree of at most ten levels, C9;
    - [BPlusList]: the doubly linked list of the free blocks, C10;
    - [BPlusBoot]: [bplus_tree_init], [bplus_tree_deinit] and the boot file with
      its hexadecimal numbers, C12 to C15: which block sizes are accepted and
      that the nodes fill them, what survives closing and opening, and the free
      blocks of an earlier session that come back.

    Hashing and the Bloom filter, src/filter_exps/:
    - [Murmur]: MurmurHash3.cpp; seeds and one-block keys never collide (C17);
    - [BloomFilter]: bf.hpp; what a query answers, with no false negatives (C19),
      and the filter sizes that overrun the file (C21).

    Workloads and micro benchmark:
    - [Workload]: src/workload_gen.cc; what is written is what is read (C22);
    - [MicroBench]: src/micro_benchmarks/micro_bench.c, for an environment of
      [getrandom], [open] and a stack size; every access lies in the file, and
      the runs that exit (C23).

    The RocksDB experiments, src/rocksdb_exp/rocksdb-8.6.7/mqssd/:
    - [KVStore]: what the programs rely on in RocksDB, as a class of operations
      and a class of laws, with finite maps as an instance;
    - [MqssdOptions]: the command lines and options of mqssd.cc and dbb.cc;
    - [Mqssd], [MqssdSpec]: key encoding, value generator, workloads, the wait
      for background work, reader.cc (C26, C28 to C30), proved against the
      classes of [KVStore].

    RocksDB itself, src/rocksdb_exp/rocksdb-8.6.7/:
    - [Slice]: include/rocksdb/slice.h and the bytewise comparator of
      util/comparator.cc (C40);
    - [Coding]: util/coding.{h,cc} and coding_lean.h, the encodings of numbers and
      strings in files; each writer and its parser form a round trip (C16);
    - [Crc32cTables], [Crc32c]: util/crc32c.{h,cc}; the portable implementation is
      the division of polynomials (C18), and the checksum of a concatenation is
      computed from those of its parts (C24).  The reference works bit by bit;
      linearity over exclusive or reduces the proofs to checks of single bits;
    - [Log], [LogSpec]: db/log_writer.{h,cc} and db/log_reader.{h,cc}, the
      write-ahead log: recovery from any prefix of a log (C31), and the recovery
      mode in which a recycled file is read for ever (C25).  The CRC is used
      through the class [Extender], files through [WritableFile] and
      [SequentialFile], each with a class of laws and an instance;
    - [DbFormat]: db/dbformat.{h,cc}, internal keys, their order and the treatment
      of timestamps that are not stored;
    - [BlockHash], [BlockBuilder], [Block]: blocks as table files hold them,
      table/block_based/{data_block_hash_index,block_builder,data_block_footer,
      block}.{h,cc}: building with shared prefixes and a hash index, opening,
      data and meta iterators.  A kind of iterator is an instance of the class
      [IterKind], and [KindOk] is what the shared operations need of it;
    - [BlockLayout] the bytes of a well-formed block and what parsing them gives,
      [BlockSeek] the operations all iterators share, [BlockKinds] the two kinds,
      [BlockBuild] what the builder builds, [BlockSpec] a cursor over a sorted
      list and the proof that iterators follow it, [BlockGet] lookups through the
      hash index; [BlockMain] puts them together: what is put into a data block
      or a meta block is read from it by any sequence of seeks and steps (C11,
      C27), lookups through the hash index find what a seek finds (C34), and what
      corrupted blocks get away with;
    - [SkipList]: memtable/inlineskiplist.h, the list of a memtable, which many
      threads read and extend without a lock, and the generator of util/random.h.
      Its routines are programs of atomic actions ([prog]) on a memory of nodes;
    - [SkipInv] the levels as sorted chains, [SkipLogic] a program logic in which
      the other threads may act between any two actions ([swp], by rely and
      guarantee, with a ghost answer), [SkipFind] searches, [SkipSplice] the
      brackets insertions work with, [SkipInsert] and [SkipFinish] insertion with
      compare and swap and with plain stores, [SkipSystem] threads, schedules and
      the sorted set that is the specification, [SkipInit] the constructor and
      allocation, [SkipRead] iterators, random entries and the self-check;
      [SkipMain] puts them together: every interleaving is one of atomic calls on
      a set (C5), and what readers see (C20); [SkipWait] bounds the steps of a
      call whatever the other threads do (C6);
    - [Universal], [UniversalSpec]: db/compaction/compaction_picker_universal.cc
      with the change the repository makes to it, and the test against
      compactions in progress of compaction_picker.cc and compaction.cc: what is
      compacted and when (C32, C33), and the run documented in mqssd.cc;
    - [LruTable]: the hash table of the block cache, cache/lru_cache.{h,cc}; it
      is a finite map (C35);
    - [LruCache]: a shard of the cache: handles in memory, the list with its
      three pools, every operation; [LruList] the list, [LruInv] the states an
      entry can be in and the moves between them, [LruSpec] the operations,
      [LruFrame] what they leave alone, [LruMain] the states a client can reach:
      no assertion fails (C36), usage is accounted for (C37), what [Insert]
      evicts and [Lookup] finds (C38); reference counters have 32 bits, and the
      contract of these theorems keeps them from wrapping.  [LruPools] is the
      failure that lowering the capacity leads to when there is a low-priority
      pool (C39).

    ** Fuel

    Loops over a list or a counter are structural.  The others get fuel where
    they are called: descents in the tree as much as the caller says (C1 to C3
    show that more than the height is enough, and that the number of
    operations bounds the height); the loop over free blocks as much as the
    caller says (C14); loops over a text or a buffer one step per character;
    the loops of the cache one step per entry of the list, which shrinks; a
    record of the log at most two steps per byte and four more (C31); the loops
    over a block one step per byte and one more ([Block.rounds]), those over its
    restart points one step per point (C11, C27, C34); the loops of the skip list
    one step per node and level, retries after a failed swap included (C5); C6
    shows that more fuel changes no step, and counts the steps.
    The wait for background work is given a number of rounds; C30 shows that it
    ends if there are two quiet ones.

    ** Not modelled

    Timing and measurement; threads, but for those of the skip list: the worker
    threads of the micro benchmark
    are independent lists of accesses, and a shard of the cache is locked
    during every operation, so its operations are taken one after the other.
    The demo and the tests of the B+ tree, the statistics that
    are only printed, and the scripts that plot results.  Of RocksDB the storage
    engine (memtables around the skip list, table files, versions, threads) is
    behind the interface of [KVStore]; of the skip list the arena that hands out
    memory, the layout of a node in bytes, and memory models weaker than
    interleaving (its loads acquire and its stores release, except where the
    node is not yet published): the theorems on the skip list are about
    sequentially consistent interleavings; of blocks the iterator over index blocks, the checksums of single
    entries, the record of which bytes were read and the reuse of an iterator
    for another block; of the log the compression of records, which calls ZSTD, the
    checksums of whole records and the reader that buffers fragments; of the CRC
    the variants for machine instructions; in the compaction picker the
    incremental and delete-triggered picks are parameters; in the cache the sharding in front of the
    shards.  The invariant of the cache is proved for shards without a
    low-priority pool, which is what [NewLRUCache(capacity)] makes. *)

From stdpp Require Export prelude list gmap.
From Stdlib Require Export ZArith Lia.

Declare Scope mq_scope.
Delimit Scope mq_scope with mq.
Open Scope mq_scope.
Open Scope Z_scope.

(** ** Failing computations

    The ways a routine of the repository stops without a result: a failed
    [assert], an access outside an array, a null dereference, an integer
    division by zero, a call of [exit], a conversion of a floating-point number
    that does not fit, a read of memory that was never written; [EFuel] is the
    model's own: the fuel given to a loop ran out. *)
Inductive error : Type :=
  | EAssert
  | EBounds
  | ENull
  | EDivZero
  | EExit
  | ERange
  | EUninit
  | EFuel.

Inductive result (A : Type) : Type :=
  | Ok (a : A)
  | Err (e : error).
Arguments Ok {A} a.
Arguments Err {A} e.

#[export] Instance error_eq_dec : EqDecision error.
Proof. solve_decision. Defined.

Definition is_ok {A} (r : result A) : bool :=
  match r with Ok _ => true | Err _ => false end.

(** Sequencing of computations that may fail and have no state. *)
Definition rbind {A B} (r : result A) (k : A -> result B) : result B :=
  match r with Ok a => k a | Err e => Err e end.

Notation "'let?' x := r 'in' k" := (rbind r (fun x => k))
  (at level 200, x pattern, r at level 100, k at level 200, right associativity) : mq_scope.

(** Integer division and remainder of unsigned operands, which trap on zero. *)
Definition udiv (x y : Z) : result Z := if y =? 0 then Err EDivZero else Ok (x / y).
Definition umod (x y : Z) : result Z := if y =? 0 then Err EDivZero else Ok (x mod y).

(** ** The state-and-error monad stateful C code is written in *)
Definition M (S A : Type) : Type := S -> result (A * S).

Definition ret {S A} (a : A) : M S A := fun s => Ok (a, s).

Definition bind {S A B} (m : M S A) (k : A -> M S B) : M S B :=
  fun s => match m s with
           | Ok (a, s') => k a s'
           | Err e => Err e
           end.

Definition fail {S A} (e : error) : M S A := fun _ => Err e.

Definition gets {S A} (f : S -> A) : M S A := fun s => Ok (f s, s).

Definition modify {S} (f : S -> S) : M S unit := fun s => Ok (tt, f s).

Definition lift {S A} (r : result A) : M S A :=
  fun s => match r with Ok a => Ok (a, s) | Err e => Err e end.

(** [assert(b)] of C. *)
Definition assert {S} (b : bool) : M S unit :=
  if b then ret tt else fail EAssert.

Notation "x <- m ;; k" := (bind m (fun x => k))
  (at level 85, m at next level, right associativity) : mq_scope.
Notation "m ;;; k" := (bind m (fun _ => k))
  (at level 85, right associativity) : mq_scope.

(** [wp m Q s]: from [s], [m] returns a value and a state that satisfy [Q].
    It is a total-correctness statement: [m] neither fails nor runs out of
    fuel. *)
Definition wp {S A} (m : M S A) (Q : A -> S -> Prop) (s : S) : Prop :=
  exists a s', m s = Ok (a, s') /\ Q a s'.

Section wp.
Context {S : Type}.
Implicit Types s : S.

Lemma wp_ret {A} (a : A) (Q : A -> S -> Prop) s : Q a s -> wp (ret a) Q s.
Proof. intros H. exists a, s. split; [reflexivity | exact H]. Qed.

Lemma wp_bind {A B} (m : M S A) (k : A -> M S B) Q s :
  wp m (fun a s' => wp (k a) Q s') s -> wp (bind m k) Q s.
Proof.
  intros (a & s' & Hm & b & s'' & Hk & HQ). exists b, s''. split; [| exact HQ].
  unfold bind. rewrite Hm. exact Hk.
Qed.

Lemma wp_mono {A} (m : M S A) (P Q : A -> S -> Prop) s :
  wp m P s -> (forall a s', P a s' -> Q a s') -> wp m Q s.
Proof. intros (a & s' & Hm & HP) HPQ. exists a, s'. eauto. Qed.

Lemma wp_gets {A} (f : S -> A) (Q : A -> S -> Prop) s : Q (f s) s -> wp (gets f) Q s.
Proof. intros H. exists (f s), s. split; [reflexivity | exact H]. Qed.

Lemma wp_modify (f : S -> S) (Q : unit -> S -> Prop) s : Q tt (f s) -> wp (modify f) Q s.
Proof. intros H. exists tt, (f s). split; [reflexivity | exact H]. Qed.

Lemma wp_lift {A} (r : result A) (a : A) (Q : A -> S -> Prop) s :
  r = Ok a -> Q a s -> wp (lift r) Q s.
Proof. intros -> H. exists a, s. split; [reflexivity | exact H]. Qed.

Lemma wp_assert (b : bool) (Q : unit -> S -> Prop) s :
  b = true -> Q tt s -> wp (assert b) Q s.
Proof. intros -> H. exists tt, s. split; [reflexivity | exact H]. Qed.

Lemma wp_det {A} (m : M S A) Q s a s' :
  wp m Q s -> m s = Ok (a, s') -> Q a s'.
Proof. intros (b & t & Hm & HQ) H. rewrite Hm in H. by simplify_eq. Qed.

End wp.

(** [frames R m]: whatever [m] does to the state is a step of [R].  The hints of
    the database [frames] follow the structure of a computation; a component
    adds those of its primitive steps. *)
Definition frames {S A} (R : relation S) (m : M S A) : Prop := forall s a s', m s = Ok (a, s') -> R s s'.

Section frames.
Context {S : Type} (R : relation S) `{!PreOrder R}.

Lemma frames_ret {A} (a : A) : frames R (ret a).
Proof. intros s b s' [= _ <-]. reflexivity. Qed.

Lemma frames_gets {A} (f : S -> A) : frames R (gets f).
Proof. intros s b s' [= _ <-]. reflexivity. Qed.

Lemma frames_fail {A} e : frames R (fail e : M S A).
Proof. by intros s b s'. Qed.

Lemma frames_lift {A} (r : result A) : frames R (lift r).
Proof. intros s b s'. unfold lift. destruct r; [intros [= _ <-]; reflexivity|done]. Qed.

Lemma frames_assert b : frames R (assert b).
Proof. destruct b; [apply frames_ret|apply frames_fail]. Qed.

Lemma frames_bind {A B} (m : M S A) (k : A -> M S B) : frames R m -> (forall a, frames R (k a)) -> frames R (bind m k).
Proof.
  intros Hm Hk s b s'. unfold bind. destruct (m s) as [[a s1]|] eqn:E; [|done]. intros Hb.
  etransitivity; [exact (Hm _ _ _ E)|exact (Hk a _ _ _ Hb)].
Qed.

End frames.

Create HintDb frames.
#[export] Hint Resolve frames_ret frames_gets frames_fail frames_lift frames_assert frames_bind : frames.

(** Case analysis on the tests and matches of a computation, hints between. *)
Ltac frame :=
  repeat first
    [ progress auto with frames typeclass_instances
    | apply frames_bind; [apply _| |intros ?]
    | match goal with
      | |- frames _ (if ?b then _ else _) => destruct b
      | |- frames _ (match ?x with _ => _ end) => destruct x
      end ].

(** ** Arrays

    A C array is a list of its cells; an access outside it is [EBounds]. *)
Definition rd {A} (l : list A) (cap i : Z) : result A :=
  if (0 <=? i) && (i <? cap) then
    match l !! Z.to_nat i with Some x => Ok x | None => Err EBounds end
  else Err EBounds.

Definition wr {A} (l : list A) (cap i : Z) (x : A) : result (list A) :=
  if (0 <=? i) && (i <? cap) && (Z.to_nat i <? length l)%nat
  then Ok (<[Z.to_nat i := x]> l) else Err EBounds.

(** [splice d i u]: the cells of [d] from index [i] on overwritten by [u]. *)
Definition splice {A} (d : list A) (i : nat) (u : list A) : list A :=
  take i d ++ u ++ drop (i + length u) d.

(** [memmove(&dst[di], &src[si], n * sizeof)]: the [n] cells are read before
    any is written, so the two arrays may be the same one. *)
Definition memmove {A} (dst : list A) (dcap di : Z) (src : list A) (scap si n : Z)
  : result (list A) :=
  if (0 <=? n) && (0 <=? di) && (di + n <=? dcap) && (0 <=? si) && (si + n <=? scap)
     && (Z.to_nat (di + n) <=? length dst)%nat && (Z.to_nat (si + n) <=? length src)%nat
  then Ok (splice dst (Z.to_nat di) (take (Z.to_nat n) (drop (Z.to_nat si) src)))
  else Err EBounds.

(** [mm d i s j n]: the [n] cells of [s] from [j] on copied over [d] from [i]. *)
Definition mm {A} (d : list A) (i : nat) (s : list A) (j n : nat) : list A :=
  splice d i (take n (drop j s)).

(** Insertion and removal at an index. *)
Definition list_ins {A} (i : nat) (x : A) (l : list A) : list A := take i l ++ x :: drop i l.
Definition list_del {A} (i : nat) (l : list A) : list A := take i l ++ drop (S i) l.

(** ** Lists by lookup

    Equalities between lists built by [take], [drop], [mm], [list_ins] and
    updates are proved cell by cell: [list_ext] reduces the goal to an
    equality of lookups, splits on the index ranges and closes the cases with
    [lia]. *)
Section lists.
Context {A : Type}.
Implicit Types l d u : list A.

Lemma lookup_take_if l n i : take n l !! i = if decide (i < n)%nat then l !! i else None.
Proof. case_decide; [by apply lookup_take_lt | apply lookup_take_ge; lia]. Qed.

Lemma lookup_app_if l u i :
  (l ++ u) !! i = if decide (i < length l)%nat then l !! i else u !! (i - length l)%nat.
Proof. case_decide; [by apply lookup_app_l | apply lookup_app_r; lia]. Qed.

Lemma lookup_insert_if l j x i :
  (j < length l)%nat -> <[j := x]> l !! i = if decide (i = j) then Some x else l !! i.
Proof.
  intros Hj. case_decide; subst; [by apply list_lookup_insert_eq | by rewrite list_lookup_insert_ne].
Qed.

Lemma lookup_cons_if x l i :
  (x :: l) !! i = if decide (i = 0)%nat then Some x else l !! (i - 1)%nat.
Proof. destruct i as [|i]; simpl; [done|]. by rewrite Nat.sub_0_r. Qed.

Lemma length_mm d i u j n :
  (i + n <= length d)%nat -> (j + n <= length u)%nat -> length (mm d i u j n) = length d.
Proof.
  intros H1 H2. unfold mm, splice.
  repeat (rewrite ?length_app, ?length_take, ?length_drop). lia.
Qed.

Lemma lookup_mm d i u j n k :
  (i + n <= length d)%nat -> (j + n <= length u)%nat ->
  mm d i u j n !! k = if decide (i <= k < i + n)%nat then u !! (j + (k - i))%nat else d !! k.
Proof.
  intros H1 H2. unfold mm, splice.
  rewrite !lookup_app_if, !lookup_take_if, !lookup_drop.
  repeat (rewrite ?length_take, ?length_drop).
  repeat case_decide; try lia; try done; f_equal; lia.
Qed.

Lemma length_ins i x l : (i <= length l)%nat -> length (list_ins i x l) = S (length l).
Proof. intros H. unfold list_ins. rewrite length_app, length_take. simpl. rewrite length_drop. lia. Qed.

Lemma lookup_ins i x l k :
  (i <= length l)%nat ->
  list_ins i x l !! k =
    if decide (k < i)%nat then l !! k else if decide (k = i) then Some x else l !! (k - 1)%nat.
Proof.
  intros H. unfold list_ins. rewrite lookup_app_if, length_take, lookup_take_if, lookup_cons_if, lookup_drop.
  repeat case_decide; try lia; try done; f_equal; lia.
Qed.

Lemma length_del i l : (i < length l)%nat -> length (list_del i l) = (length l - 1)%nat.
Proof. intros H. unfold list_del. rewrite length_app, length_take, length_drop. lia. Qed.

Lemma lookup_del i l k :
  (i < length l)%nat -> list_del i l !! k = if decide (k < i)%nat then l !! k else l !! (S k).
Proof.
  intros H. unfold list_del. rewrite lookup_app_if, length_take, lookup_take_if, lookup_drop.
  repeat case_decide; try lia; try done; f_equal; lia.
Qed.

Lemma length_take_le l n : (n <= length l)%nat -> length (take n l) = n.
Proof. intros H. rewrite length_take. lia. Qed.

Lemma rd_ok l cap i x :
  0 <= i < cap -> l !! Z.to_nat i = Some x -> rd l cap i = Ok x.
Proof.
  intros [H1 H2] Hx. unfold rd.
  apply Z.leb_le in H1. apply Z.ltb_lt in H2. by rewrite H1, H2, Hx.
Qed.

Lemma wr_ok l cap i x :
  0 <= i < cap -> (Z.to_nat i < length l)%nat -> wr l cap i x = Ok (<[Z.to_nat i := x]> l).
Proof.
  intros [H1 H2] H3. unfold wr.
  apply Z.leb_le in H1. apply Z.ltb_lt in H2. apply Nat.ltb_lt in H3. by rewrite H1, H2, H3.
Qed.

Lemma memmove_ok d dcap di u scap si n :
  0 <= n -> 0 <= di -> di + n <= dcap -> 0 <= si -> si + n <= scap ->
  (Z.to_nat (di + n) <= length d)%nat -> (Z.to_nat (si + n) <= length u)%nat ->
  memmove d dcap di u scap si n = Ok (mm d (Z.to_nat di) u (Z.to_nat si) (Z.to_nat n)).
Proof.
  intros H1 H2 H3 H4 H5 H6 H7. unfold memmove.
  apply Z.leb_le in H1, H2, H3, H4, H5. apply Nat.leb_le in H6, H7.
  by rewrite H1, H2, H3, H4, H5, H6, H7.
Qed.

End lists.

(** [lia] without the quantified hypotheses, which slow it down. *)
Ltac drop_quantified := repeat match goal with H : forall _, _ |- _ => clear H end.
Ltac drop_distinct :=
  repeat match goal with H : ?a <> ?b |- _ => is_var a; is_var b; clear H end.
Ltac arith := drop_quantified; first [drop_distinct; lia | lia].

(** [lia] over expressions with [/] and [mod]. *)
Ltac div_lia := Z.to_euclidean_division_equations; lia.

(** Lengths of array expressions whose indices are in range. *)
Ltac len :=
  repeat first
    [ rewrite length_mm by len | rewrite length_ins by len | rewrite length_del by len
    | rewrite length_take_le by len
    | rewrite length_insert | rewrite length_drop | rewrite length_app | rewrite length_cons
    | rewrite length_nil | rewrite length_replicate | rewrite length_fmap ];
  first [ arith | done ].

(** Split the first index test of the goal, dropping the cases [lia] refutes. *)
Ltac split_range :=
  match goal with
  | |- context [if decide ?P then _ else _] =>
      let H := fresh "Hr" in
      destruct (decide P) as [H | H]; try (exfalso; clear -H; lia); try (exfalso; arith)
  end.

(** Name the natural-number indices of the goal. *)
Ltac name_indices :=
  repeat match goal with
  | |- context [Z.to_nat ?e] =>
      let n := fresh "ix" in let E := fresh "Eix" in let E' := fresh "Eix" in
      remember (Z.to_nat e) as n eqn:E;
      assert (Z.of_nat n = e) as E' by (clear -E E; lia) || assert (Z.of_nat n = e) as E' by lia;
      clear E
  end.

(** Equality of two lookups in array expressions, case by case. *)
Ltac lookup_cases :=
  repeat first
    [ rewrite lookup_mm by len | rewrite lookup_ins by len | rewrite lookup_del by len
    | rewrite lookup_insert_if by len
    | rewrite lookup_take_if | rewrite lookup_drop | rewrite lookup_app_if
    | rewrite lookup_cons_if ];
  repeat first
    [ rewrite length_mm by len | rewrite length_ins by len | rewrite length_del by len
    | rewrite length_take_le by len | rewrite length_insert | rewrite length_drop
    | rewrite length_app | rewrite length_cons | rewrite length_nil ];
  repeat split_range;
  first [ reflexivity
        | f_equal; lia
        | rewrite !lookup_ge_None_2 by len; reflexivity
        | apply lookup_ge_None_2; len
        | symmetry; apply lookup_ge_None_2; len
        | match goal with
          | H : ?l !! _ = Some ?v |- Some ?v = ?l !! _ => rewrite <- H; f_equal; lia
          | H : ?l !! _ = Some ?v |- ?l !! _ = Some ?v => rewrite <- H; f_equal; lia
          end
        | idtac ].

Ltac list_ext :=
  drop_quantified; repeat match goal with H : _ <> _ |- _ => clear H end;
  name_indices; apply list_eq; let j := fresh "j" in intros j; lookup_cases.

