(* ===== verification/Words.v ===== *)
(** * Machine words and bytes

    Unsigned words of [w] bits as integers in [0, 2^w); little-endian bytes.
    Shared by the hash functions, the Bloom filter and the storage formats. *)

From S2P Require Import Prelude.

(** ** Words *)

Definition word (w x : Z) : Prop := 0 <= x < 2 ^ w.

(** [x] modulo [2^w], as an unsigned conversion does. *)
Definition wrap (w x : Z) : Z := x mod 2 ^ w.
Definition wadd (w x y : Z) : Z := wrap w (x + y).
Definition wsub (w x y : Z) : Z := wrap w (x - y).
Definition wmul (w x y : Z) : Z := wrap w (x * y).
Definition wshl (w x r : Z) : Z := wrap w (Z.shiftl x r).
Definition wrotl (w x r : Z) : Z := Z.lor (wshl w x r) (Z.shiftr x (w - r)).

Lemma wrap_word w x : 0 <= w -> word w (wrap w x).
Proof. intros. apply Z.mod_pos_bound. lia. Qed.

Lemma wrap_id w x : word w x -> wrap w x = x.
Proof. apply Z.mod_small. Qed.

Lemma word_bits w x : 0 <= w -> (word w x <-> 0 <= x /\ forall i, w <= i -> Z.testbit x i = false).
Proof.
  intros Hw. split.
  - intros [H0 H1]. split; [done|]. intros i Hi. destruct (Z.eq_dec x 0) as [->|]; [apply Z.bits_0|].
    apply Z.bits_above_log2; [done|]. apply Z.lt_le_trans with w; [|done]. apply Z.log2_lt_pow2; lia.
  - intros [H0 H1]. split; [done|]. destruct (Z.eq_dec x 0) as [->|]; [apply Z.pow_pos_nonneg; lia|].
    apply Z.log2_lt_pow2; [lia|]. destruct (Z.lt_ge_cases (Z.log2 x) w) as [|Hge]; [done|].
    pose proof (H1 _ Hge) as Hb. rewrite Z.bit_log2 in Hb by lia. done.
Qed.

Lemma lxor_word w x y : 0 <= w -> word w x -> word w y -> word w (Z.lxor x y).
Proof.
  intros Hw Hx Hy. apply word_bits in Hx as [Hx Hbx]; [|done]. apply word_bits in Hy as [Hy Hby]; [|done].
  apply word_bits; [done|]. split; [by apply Z.lxor_nonneg|]. intros i Hi. by rewrite Z.lxor_spec, Hbx, Hby.
Qed.

Lemma lor_word w x y : 0 <= w -> word w x -> word w y -> word w (Z.lor x y).
Proof.
  intros Hw Hx Hy. apply word_bits in Hx as [Hx Hbx]; [|done]. apply word_bits in Hy as [Hy Hby]; [|done].
  apply word_bits; [done|]. split; [by apply Z.lor_nonneg|]. intros i Hi. by rewrite Z.lor_spec, Hbx, Hby.
Qed.

Lemma shiftr_word w x r : 0 <= w -> 0 <= r -> word w x -> word w (Z.shiftr x r).
Proof.
  intros Hw Hr [H0 H1]. split; [by apply Z.shiftr_nonneg|]. rewrite Z.shiftr_div_pow2 by done.
  apply Z.le_lt_trans with x; [|done]. apply Z.div_le_upper_bound; [lia|].
  assert (1 <= 2 ^ r) by (change 1 with (2 ^ 0); apply Z.pow_le_mono_r; lia). nia.
Qed.

Lemma land_word w x y : 0 <= w -> word w x -> 0 <= y -> word w (Z.land x y).
Proof.
  intros Hw Hx Hy. apply word_bits in Hx as [Hx Hbx]; [|done]. apply word_bits; [done|].
  split; [apply Z.land_nonneg; by left|]. intros i Hi. by rewrite Z.land_spec, Hbx.
Qed.

Lemma wrotl_word w x r : 0 <= r <= w -> word w x -> word w (wrotl w x r).
Proof. intros Hr Hx. apply lor_word; [lia|apply wrap_word; lia|apply shiftr_word; [lia|lia|done]]. Qed.

(** ** Injective operations *)

Lemma wadd_inj w x y c : 0 <= w -> word w x -> word w y -> wadd w x c = wadd w y c -> x = y.
Proof.
  intros Hw Hx Hy H. unfold wadd, wrap in H. assert (0 < 2 ^ w) by (apply Z.pow_pos_nonneg; lia).
  assert ((x + c - c) mod 2 ^ w = (y + c - c) mod 2 ^ w) as E.
  { rewrite <- Zminus_mod_idemp_l, H, Zminus_mod_idemp_l. done. }
  rewrite !Z.add_simpl_r, !Z.mod_small in E by done. done.
Qed.

Lemma wmul_inj w x y c c' : 0 <= w -> (c * c') mod 2 ^ w = 1 mod 2 ^ w -> word w x -> word w y -> wmul w x c = wmul w y c -> x = y.
Proof.
  intros Hw Hc Hx Hy H. unfold wmul, wrap in H. assert (0 < 2 ^ w) by (apply Z.pow_pos_nonneg; lia).
  assert (forall z, word w z -> ((z * c) mod 2 ^ w * c') mod 2 ^ w = z) as Hinv.
  { intros z Hz. rewrite Zmult_mod_idemp_l, <- Z.mul_assoc, <- Zmult_mod_idemp_r, Hc, Zmult_mod_idemp_r, Z.mul_1_r.
    by apply Z.mod_small. }
  rewrite <- (Hinv x Hx), <- (Hinv y Hy). by rewrite H.
Qed.

Lemma lxor_inj x y c : Z.lxor x c = Z.lxor y c -> x = y.
Proof.
  intros H. assert (Z.lxor (Z.lxor x c) c = Z.lxor (Z.lxor y c) c) as E by (by rewrite H).
  by rewrite !Z.lxor_assoc, !Z.lxor_nilpotent, !Z.lxor_0_r in E.
Qed.

(** [x ^ (x >> s)] determines [x]. *)
Lemma xorshift_inj x y s :
  0 <= x -> 0 <= y -> 0 < s -> Z.lxor x (Z.shiftr x s) = Z.lxor y (Z.shiftr y s) -> x = y.
Proof.
  intros Hx Hy Hs H. apply Z.lxor_eq. set (z := Z.lxor x y).
  assert (Z.shiftr z s = z) as Hz.
  { apply Z.lxor_eq. transitivity (Z.lxor (Z.lxor x (Z.shiftr x s)) (Z.lxor y (Z.shiftr y s))); [|by rewrite H, Z.lxor_nilpotent].
    unfold z. rewrite Z.shiftr_lxor. apply Z.bits_inj'. intros n _. rewrite !Z.lxor_spec.
    by destruct (Z.testbit x n), (Z.testbit y n), (Z.testbit (Z.shiftr x s) n), (Z.testbit (Z.shiftr y s) n). }
  assert (0 <= z) as Hz0 by (by apply Z.lxor_nonneg). destruct (Z.eq_dec z 0) as [|Hne]; [done|]. exfalso.
  rewrite Z.shiftr_div_pow2 in Hz by lia. assert (2 <= 2 ^ s) by (change 2 with (2 ^ 1) at 1; apply Z.pow_le_mono_r; lia).
  assert (z / 2 ^ s < z) by (apply Z.div_lt; lia). lia.
Qed.

(** A rotation moves bit [i] to [i + r], around the word. *)
Lemma wrotl_bit w x r i :
  0 < r < w -> word w x -> 0 <= i < w ->
  Z.testbit (wrotl w x r) i = Z.testbit x (if i <? r then i - r + w else i - r).
Proof.
  intros Hr Hx Hi. apply word_bits in Hx as [H0 Hb]; [|lia]. unfold wrotl, wshl, wrap.
  rewrite Z.lor_spec, Z.mod_pow2_bits_low, Z.shiftr_spec, Z.shiftl_spec by lia. destruct (Z.ltb_spec i r) as [Hlt|Hge].
  - rewrite (Z.testbit_neg_r x (i - r)) by lia. simpl. f_equal. lia.
  - rewrite (Hb (i + (w - r))) by lia. by rewrite orb_false_r.
Qed.

Lemma wrotl_inj w x y r : 0 < r < w -> word w x -> word w y -> wrotl w x r = wrotl w y r -> x = y.
Proof.
  intros Hr Hx Hy H. apply Z.bits_inj'. intros n Hn. destruct (Z.lt_ge_cases n w) as [Hlt|Hge].
  - assert (exists i, 0 <= i < w /\ (if i <? r then i - r + w else i - r) = n) as (i & Hi & Hin).
    { destruct (Z.lt_ge_cases (n + r) w).
      - exists (n + r). split; [lia|]. rewrite (proj2 (Z.ltb_ge _ _)) by lia. lia.
      - exists (n + r - w). split; [lia|]. rewrite (proj2 (Z.ltb_lt _ _)) by lia. lia. }
    rewrite <- Hin, <- !wrotl_bit by done. by rewrite H.
  - apply word_bits in Hx as [_ Hx]; [|lia]. apply word_bits in Hy as [_ Hy]; [|lia]. by rewrite Hx, Hy.
Qed.

(** ** Bytes *)

Definition byte_ok (b : Z) : Prop := 0 <= b < 256.

(** The number whose little-endian bytes are [bs]. *)
Fixpoint le_value (bs : list Z) : Z :=
  match bs with
  | [] => 0
  | b :: bs => b + 256 * le_value bs
  end.

(** The [n] little-endian bytes of [v]. *)
Fixpoint le_bytes (n : nat) (v : Z) : list Z :=
  match n with
  | O => []
  | S n => v mod 256 :: le_bytes n (v / 256)
  end.

Lemma length_le_bytes n v : length (le_bytes n v) = n.
Proof. revert v. induction n as [|n IH]; intros v; simpl; [done|]. by rewrite IH. Qed.

Lemma le_bytes_ok n v : Forall byte_ok (le_bytes n v).
Proof. revert v. induction n as [|n IH]; intros v; simpl; constructor; [apply Z.mod_pos_bound; lia|apply IH]. Qed.

Lemma le_value_bound bs : Forall byte_ok bs -> word (8 * Z.of_nat (length bs)) (le_value bs).
Proof.
  induction 1 as [|b bs Hb _ IH]; [simpl; split; simpl; lia|]. cbn [le_value length]. unfold word, byte_ok in *.
  replace (8 * Z.of_nat (S (length bs))) with (8 + 8 * Z.of_nat (length bs)) by lia. rewrite Z.pow_add_r by lia. change (2 ^ 8) with 256. nia.
Qed.

Lemma le_value_bytes n v : word (8 * Z.of_nat n) v -> le_value (le_bytes n v) = v.
Proof.
  revert v. induction n as [|n IH]; intros v Hv; unfold word in *; simpl le_bytes; cbn [le_value]; [simpl in Hv; lia|].
  rewrite IH; [pose proof (Z.div_mod v 256); lia|]. split; [apply Z.div_pos; lia|]. apply Z.div_lt_upper_bound; [lia|].
  replace (8 * Z.of_nat (S n)) with (8 + 8 * Z.of_nat n) in Hv by lia. rewrite Z.pow_add_r in Hv by lia. change (2 ^ 8) with 256 in Hv. lia.
Qed.

Lemma le_bytes_value bs : Forall byte_ok bs -> le_bytes (length bs) (le_value bs) = bs.
Proof.
  induction 1 as [|b bs Hb _ IH]; [done|]. unfold byte_ok in Hb. cbn [length le_bytes le_value]. f_equal.
  - rewrite Z.mul_comm, Z_mod_plus_full. apply Z.mod_small. lia.
  - rewrite Z.mul_comm, Z.div_add, Z.div_small by lia. apply IH.
Qed.

Lemma le_bytes_inj n x y : word (8 * Z.of_nat n) x -> word (8 * Z.of_nat n) y -> le_bytes n x = le_bytes n y -> x = y.
Proof. intros Hx Hy H. rewrite <- (le_value_bytes n x Hx), <- (le_value_bytes n y Hy). by rewrite H. Qed.

Lemma le_value_inj bs bs' : Forall byte_ok bs -> Forall byte_ok bs' -> length bs = length bs' -> le_value bs = le_value bs' -> bs = bs'.
Proof. intros H H' Hl Hv. rewrite <- (le_bytes_value bs H), <- (le_bytes_value bs' H'). by rewrite Hl, Hv. Qed.

(** A fact about a byte, by trying all of them. *)
Lemma byte_forallb (P : Z -> bool) b : forallb P (Z.of_nat <$> seq 0 256) = true -> byte_ok b -> P b = true.
Proof.
  intros H Hb. rewrite forallb_forall in H. apply H, list_elem_of_In, list_elem_of_fmap. unfold byte_ok in Hb.
  exists (Z.to_nat b). split; [lia|]. apply elem_of_seq. lia.
Qed.

(** ** Bits *)

(** Exclusive or with all ones. *)
Lemma lxor_ones w x : 0 <= w -> word w x -> Z.lxor x (2 ^ w - 1) = 2 ^ w - 1 - x.
Proof.
  intros Hw Hx. pose proof Hx as [H0 H1]. pose proof (proj1 (word_bits w x Hw) Hx) as [_ Hb].
  replace (2 ^ w - 1) with (Z.ones w) by (rewrite Z.ones_equiv; lia). rewrite Z.sub_nocarry_ldiff.
  - apply Z.bits_inj'. intros n Hn. rewrite Z.lxor_spec, Z.ldiff_spec, Z.testbit_ones_nonneg by lia.
    destruct (Z.ltb_spec n w); [by destruct (Z.testbit x n)|]. by rewrite Hb.
  - apply Z.bits_inj'. intros n Hn. rewrite Z.ldiff_spec, Z.testbit_ones_nonneg, Z.bits_0 by lia.
    destruct (Z.ltb_spec n w); [by rewrite andb_false_r|]. by rewrite Hb.
Qed.

(** Bits that do not overlap add up. *)
Lemma land_shifted s acc x : 0 <= s -> word s acc -> Z.land acc (x * 2 ^ s) = 0.
Proof.
  intros Hs Ha. apply word_bits in Ha as [_ Ha]; [|done]. apply Z.bits_inj'. intros n Hn. rewrite Z.land_spec, Z.bits_0.
  destruct (Z.lt_ge_cases n s); [by rewrite Z.mul_pow2_bits_low, andb_false_r|]. by rewrite Ha.
Qed.

Lemma lor_wshl w acc x s : 0 <= s -> word s acc -> word w (x * 2 ^ s) -> Z.lor acc (wshl w x s) = acc + x * 2 ^ s.
Proof.
  intros Hs Ha Hx. unfold wshl. rewrite Z.shiftl_mul_pow2, wrap_id by done. symmetry. by apply Z.add_nocarry_lor, land_shifted.
Qed.
