(* ===== verification/Murmur.v ===== *)
(** * MurmurHash3 (filter_exps/MurmurHash3.cpp)

    The three hash functions on a key given as its bytes.  The 32-bit variant
    is the one the Bloom filter of [filter_exps] uses.  A read of
    [getblock32(blocks, i)] is little-endian, as on the machines the
    repository targets. *)

From S2P Require Import Prelude Words.

(** ** The macros and helpers *)

Definition rotl32 (x r : Z) : Z := wrotl 32 x r.
Definition rotl64 (x r : Z) : Z := wrotl 64 x r.

(** [off] is the byte offset of the pointer into the key. *)
Definition getblock32 (key : list Z) (off i : Z) : Z :=
  le_value (take 4 (drop (Z.to_nat (off + 4 * i)) key)).
Definition getblock64 (key : list Z) (off i : Z) : Z :=
  le_value (take 8 (drop (Z.to_nat (off + 8 * i)) key)).

Definition fmix32 (h : Z) : Z :=
  let h := Z.lxor h (Z.shiftr h 16) in
  let h := wmul 32 h 0x85ebca6b in
  let h := Z.lxor h (Z.shiftr h 13) in
  let h := wmul 32 h 0xc2b2ae35 in
  let h := Z.lxor h (Z.shiftr h 16) in
  h.

Definition fmix64 (k : Z) : Z :=
  let k := Z.lxor k (Z.shiftr k 33) in
  let k := wmul 64 k 0xff51afd7ed558ccd in
  let k := Z.lxor k (Z.shiftr k 33) in
  let k := wmul 64 k 0xc4ceb9fe1a85ec53 in
  let k := Z.lxor k (Z.shiftr k 33) in
  k.

(** [tail[i] << s], converted to a word of [w] bits. *)
Definition tail_at (w : Z) (tail : list Z) (i : nat) (s : Z) : Z := wshl w (nth i tail 0) s.

(** ** [MurmurHash3_x86_32] *)

Definition x86_32_c1 : Z := 0xcc9e2d51.
Definition x86_32_c2 : Z := 0x1b873593.

(** The two halves of a round: the block is scrambled, then mixed in. *)
Definition x86_32_scramble (k1 : Z) : Z :=
  let k1 := wmul 32 k1 x86_32_c1 in
  let k1 := rotl32 k1 15 in
  wmul 32 k1 x86_32_c2.

Definition x86_32_round (h1 k1 : Z) : Z :=
  let h1 := Z.lxor h1 (x86_32_scramble k1) in
  let h1 := rotl32 h1 13 in
  wadd 32 (wmul 32 h1 5) 0xe6546b64.

(** [for (int i = -nblocks; i; i++)]: [n] blocks are left, [i = -n]. *)
Fixpoint x86_32_body (n : nat) (key : list Z) (off h1 : Z) : Z :=
  match n with
  | O => h1
  | S n' => x86_32_body n' key off (x86_32_round h1 (getblock32 key off (- Z.of_nat n)))
  end.

Definition x86_32_tail (tail : list Z) (n h1 : Z) : Z :=
  let k1 := 0 in
  let k1 := if 3 <=? n then Z.lxor k1 (tail_at 32 tail 2 16) else k1 in
  let k1 := if 2 <=? n then Z.lxor k1 (tail_at 32 tail 1 8) else k1 in
  if 1 <=? n then Z.lxor h1 (x86_32_scramble (Z.lxor k1 (tail_at 32 tail 0 0))) else h1.

Definition MurmurHash3_x86_32 (key : list Z) (seed : Z) : Z :=
  let len := Z.of_nat (length key) in
  let nblocks := len / 4 in
  let h1 := seed in
  let h1 := x86_32_body (Z.to_nat nblocks) key (nblocks * 4) h1 in
  let tail := drop (Z.to_nat (nblocks * 4)) key in
  let h1 := x86_32_tail tail (Z.land len 3) h1 in
  let h1 := Z.lxor h1 (wrap 32 len) in
  fmix32 h1.

(** ** [MurmurHash3_x86_128] *)

Definition x86_128_c1 : Z := 0x239b961b.
Definition x86_128_c2 : Z := 0xab0e9789.
Definition x86_128_c3 : Z := 0x38b34ae5.
Definition x86_128_c4 : Z := 0xa1e38b93.

Definition x86_128_k1 (k1 : Z) : Z := wmul 32 (rotl32 (wmul 32 k1 x86_128_c1) 15) x86_128_c2.
Definition x86_128_k2 (k2 : Z) : Z := wmul 32 (rotl32 (wmul 32 k2 x86_128_c2) 16) x86_128_c3.
Definition x86_128_k3 (k3 : Z) : Z := wmul 32 (rotl32 (wmul 32 k3 x86_128_c3) 17) x86_128_c4.
Definition x86_128_k4 (k4 : Z) : Z := wmul 32 (rotl32 (wmul 32 k4 x86_128_c4) 18) x86_128_c1.

(** The four words of the state. *)
Definition quad : Type := Z * Z * Z * Z.

Definition x86_128_round (h k : quad) : quad :=
  let '(h1, h2, h3, h4) := h in
  let '(k1, k2, k3, k4) := k in
  let h1 := Z.lxor h1 (x86_128_k1 k1) in
  let h1 := rotl32 h1 19 in
  let h1 := wadd 32 h1 h2 in
  let h1 := wadd 32 (wmul 32 h1 5) 0x561ccd1b in
  let h2 := Z.lxor h2 (x86_128_k2 k2) in
  let h2 := rotl32 h2 17 in
  let h2 := wadd 32 h2 h3 in
  let h2 := wadd 32 (wmul 32 h2 5) 0x0bcaa747 in
  let h3 := Z.lxor h3 (x86_128_k3 k3) in
  let h3 := rotl32 h3 15 in
  let h3 := wadd 32 h3 h4 in
  let h3 := wadd 32 (wmul 32 h3 5) 0x96cd1c35 in
  let h4 := Z.lxor h4 (x86_128_k4 k4) in
  let h4 := rotl32 h4 13 in
  let h4 := wadd 32 h4 h1 in
  let h4 := wadd 32 (wmul 32 h4 5) 0x32ac3b17 in
  (h1, h2, h3, h4).

Fixpoint x86_128_body (n : nat) (key : list Z) (off : Z) (h : quad) : quad :=
  match n with
  | O => h
  | S n' =>
      let i := - Z.of_nat n in
      let k := (getblock32 key off (i * 4 + 0), getblock32 key off (i * 4 + 1),
                getblock32 key off (i * 4 + 2), getblock32 key off (i * 4 + 3)) in
      x86_128_body n' key off (x86_128_round h k)
  end.

(** The [switch], whose cases fall through to the next. *)
Definition x86_128_tail (tail : list Z) (n : Z) (h : quad) : quad :=
  let '(h1, h2, h3, h4) := h in
  let k1 := 0 in let k2 := 0 in let k3 := 0 in let k4 := 0 in
  let k4 := if 15 <=? n then Z.lxor k4 (tail_at 32 tail 14 16) else k4 in
  let k4 := if 14 <=? n then Z.lxor k4 (tail_at 32 tail 13 8) else k4 in
  let h4 := if 13 <=? n then Z.lxor h4 (x86_128_k4 (Z.lxor k4 (tail_at 32 tail 12 0))) else h4 in
  let k3 := if 12 <=? n then Z.lxor k3 (tail_at 32 tail 11 24) else k3 in
  let k3 := if 11 <=? n then Z.lxor k3 (tail_at 32 tail 10 16) else k3 in
  let k3 := if 10 <=? n then Z.lxor k3 (tail_at 32 tail 9 8) else k3 in
  let h3 := if 9 <=? n then Z.lxor h3 (x86_128_k3 (Z.lxor k3 (tail_at 32 tail 8 0))) else h3 in
  let k2 := if 8 <=? n then Z.lxor k2 (tail_at 32 tail 7 24) else k2 in
  let k2 := if 7 <=? n then Z.lxor k2 (tail_at 32 tail 6 16) else k2 in
  let k2 := if 6 <=? n then Z.lxor k2 (tail_at 32 tail 5 8) else k2 in
  let h2 := if 5 <=? n then Z.lxor h2 (x86_128_k2 (Z.lxor k2 (tail_at 32 tail 4 0))) else h2 in
  let k1 := if 4 <=? n then Z.lxor k1 (tail_at 32 tail 3 24) else k1 in
  let k1 := if 3 <=? n then Z.lxor k1 (tail_at 32 tail 2 16) else k1 in
  let k1 := if 2 <=? n then Z.lxor k1 (tail_at 32 tail 1 8) else k1 in
  let h1 := if 1 <=? n then Z.lxor h1 (x86_128_k1 (Z.lxor k1 (tail_at 32 tail 0 0))) else h1 in
  (h1, h2, h3, h4).

(** [h1 += h2; h1 += h3; h1 += h4; h2 += h1; h3 += h1; h4 += h1]. *)
Definition x86_128_sum (h : quad) : quad :=
  let '(h1, h2, h3, h4) := h in
  let h1 := wadd 32 h1 h2 in
  let h1 := wadd 32 h1 h3 in
  let h1 := wadd 32 h1 h4 in
  (h1, wadd 32 h2 h1, wadd 32 h3 h1, wadd 32 h4 h1).

Definition MurmurHash3_x86_128 (key : list Z) (seed : Z) : quad :=
  let len := Z.of_nat (length key) in
  let nblocks := len / 16 in
  let h := x86_128_body (Z.to_nat nblocks) key (nblocks * 16) (seed, seed, seed, seed) in
  let tail := drop (Z.to_nat (nblocks * 16)) key in
  let '(h1, h2, h3, h4) := x86_128_tail tail (Z.land len 15) h in
  let l := wrap 32 len in
  let '(h1, h2, h3, h4) := x86_128_sum (Z.lxor h1 l, Z.lxor h2 l, Z.lxor h3 l, Z.lxor h4 l) in
  x86_128_sum (fmix32 h1, fmix32 h2, fmix32 h3, fmix32 h4).

(** ** [MurmurHash3_x64_128] *)

Definition x64_128_c1 : Z := 0x87c37b91114253d5.
Definition x64_128_c2 : Z := 0x4cf5ad432745937f.

Definition x64_128_k1 (k1 : Z) : Z := wmul 64 (rotl64 (wmul 64 k1 x64_128_c1) 31) x64_128_c2.
Definition x64_128_k2 (k2 : Z) : Z := wmul 64 (rotl64 (wmul 64 k2 x64_128_c2) 33) x64_128_c1.

Definition x64_128_round (h k : Z * Z) : Z * Z :=
  let '(h1, h2) := h in
  let '(k1, k2) := k in
  let h1 := Z.lxor h1 (x64_128_k1 k1) in
  let h1 := rotl64 h1 27 in
  let h1 := wadd 64 h1 h2 in
  let h1 := wadd 64 (wmul 64 h1 5) 0x52dce729 in
  let h2 := Z.lxor h2 (x64_128_k2 k2) in
  let h2 := rotl64 h2 31 in
  let h2 := wadd 64 h2 h1 in
  let h2 := wadd 64 (wmul 64 h2 5) 0x38495ab5 in
  (h1, h2).

(** [for (int i = 0; i < nblocks; i++)], with [n] blocks left. *)
Fixpoint x64_128_body (n : nat) (i : Z) (key : list Z) (h : Z * Z) : Z * Z :=
  match n with
  | O => h
  | S n => x64_128_body n (i + 1) key (x64_128_round h (getblock64 key 0 (i * 2 + 0), getblock64 key 0 (i * 2 + 1)))
  end.

Definition x64_128_tail (tail : list Z) (n : Z) (h : Z * Z) : Z * Z :=
  let '(h1, h2) := h in
  let k1 := 0 in let k2 := 0 in
  let k2 := if 15 <=? n then Z.lxor k2 (tail_at 64 tail 14 48) else k2 in
  let k2 := if 14 <=? n then Z.lxor k2 (tail_at 64 tail 13 40) else k2 in
  let k2 := if 13 <=? n then Z.lxor k2 (tail_at 64 tail 12 32) else k2 in
  let k2 := if 12 <=? n then Z.lxor k2 (tail_at 64 tail 11 24) else k2 in
  let k2 := if 11 <=? n then Z.lxor k2 (tail_at 64 tail 10 16) else k2 in
  let k2 := if 10 <=? n then Z.lxor k2 (tail_at 64 tail 9 8) else k2 in
  let h2 := if 9 <=? n then Z.lxor h2 (x64_128_k2 (Z.lxor k2 (tail_at 64 tail 8 0))) else h2 in
  let k1 := if 8 <=? n then Z.lxor k1 (tail_at 64 tail 7 56) else k1 in
  let k1 := if 7 <=? n then Z.lxor k1 (tail_at 64 tail 6 48) else k1 in
  let k1 := if 6 <=? n then Z.lxor k1 (tail_at 64 tail 5 40) else k1 in
  let k1 := if 5 <=? n then Z.lxor k1 (tail_at 64 tail 4 32) else k1 in
  let k1 := if 4 <=? n then Z.lxor k1 (tail_at 64 tail 3 24) else k1 in
  let k1 := if 3 <=? n then Z.lxor k1 (tail_at 64 tail 2 16) else k1 in
  let k1 := if 2 <=? n then Z.lxor k1 (tail_at 64 tail 1 8) else k1 in
  let h1 := if 1 <=? n then Z.lxor h1 (x64_128_k1 (Z.lxor k1 (tail_at 64 tail 0 0))) else h1 in
  (h1, h2).

Definition x64_128_sum (h : Z * Z) : Z * Z :=
  let '(h1, h2) := h in
  let h1 := wadd 64 h1 h2 in
  (h1, wadd 64 h2 h1).

Definition MurmurHash3_x64_128 (key : list Z) (seed : Z) : Z * Z :=
  let len := Z.of_nat (length key) in
  let nblocks := len / 16 in
  let h := x64_128_body (Z.to_nat nblocks) 0 key (seed, seed) in
  let tail := drop (Z.to_nat (nblocks * 16)) key in
  let '(h1, h2) := x64_128_tail tail (Z.land len 15) h in
  let l := wrap 64 len in
  let '(h1, h2) := x64_128_sum (Z.lxor h1 l, Z.lxor h2 l) in
  x64_128_sum (fmix64 h1, fmix64 h2).

(** ** Every step determines its input *)

Ltac word_solve := repeat first
  [ assumption | apply lxor_word | apply wrap_word | apply wrotl_word | apply shiftr_word | lia ].

Lemma xorshift_word_inj w x y s :
  0 < s -> 0 <= w -> word w x -> word w y -> Z.lxor x (Z.shiftr x s) = Z.lxor y (Z.shiftr y s) -> x = y.
Proof. intros Hs Hw [Hx _] [Hy _]. by apply xorshift_inj. Qed.

Lemma fmix32_word h : word 32 h -> word 32 (fmix32 h).
Proof. intros H. unfold fmix32. word_solve. Qed.

Lemma fmix32_inj x y : word 32 x -> word 32 y -> fmix32 x = fmix32 y -> x = y.
Proof.
  intros Hx Hy H. unfold fmix32 in H.
  apply (xorshift_word_inj 32) in H; [|lia|lia|word_solve|word_solve].
  apply (wmul_inj 32 _ _ _ 2127672349) in H; [|lia|reflexivity|word_solve|word_solve].
  apply (xorshift_word_inj 32) in H; [|lia|lia|word_solve|word_solve].
  apply (wmul_inj 32 _ _ _ 2781581891) in H; [|lia|reflexivity|word_solve|word_solve].
  by apply (xorshift_word_inj 32) in H; [|lia|lia|word_solve|word_solve].
Qed.

Lemma fmix64_word h : word 64 h -> word 64 (fmix64 h).
Proof. intros H. unfold fmix64. word_solve. Qed.

Lemma fmix64_inj x y : word 64 x -> word 64 y -> fmix64 x = fmix64 y -> x = y.
Proof.
  intros Hx Hy H. unfold fmix64 in H.
  apply (xorshift_word_inj 64) in H; [|lia|lia|word_solve|word_solve].
  apply (wmul_inj 64 _ _ _ 11291846944257947611) in H; [|lia|reflexivity|word_solve|word_solve].
  apply (xorshift_word_inj 64) in H; [|lia|lia|word_solve|word_solve].
  apply (wmul_inj 64 _ _ _ 5725274745694666757) in H; [|lia|reflexivity|word_solve|word_solve].
  by apply (xorshift_word_inj 64) in H; [|lia|lia|word_solve|word_solve].
Qed.

Lemma x86_32_scramble_word k : word 32 (x86_32_scramble k).
Proof. unfold x86_32_scramble. word_solve. Qed.

Lemma x86_32_scramble_inj x y : word 32 x -> word 32 y -> x86_32_scramble x = x86_32_scramble y -> x = y.
Proof.
  intros Hx Hy H. unfold x86_32_scramble, rotl32 in H.
  apply (wmul_inj 32 _ _ _ 1458385051) in H; [|lia|reflexivity|word_solve|word_solve].
  apply (wrotl_inj 32) in H; [|lia|word_solve|word_solve].
  by apply (wmul_inj 32 _ _ _ 3739302833) in H; [|lia|reflexivity|done|done].
Qed.

Lemma x86_32_round_word h k : word 32 (x86_32_round h k).
Proof. unfold x86_32_round. word_solve. Qed.

(** The second half of a round. *)
Lemma mix5_inj x y r c :
  0 < r < 32 -> word 32 x -> word 32 y ->
  wadd 32 (wmul 32 (rotl32 x r) 5) c = wadd 32 (wmul 32 (rotl32 y r) 5) c -> x = y.
Proof.
  intros Hr Hx Hy H. unfold rotl32 in H. apply (wadd_inj 32) in H; [|lia|word_solve|word_solve].
  apply (wmul_inj 32 _ _ _ 3435973837) in H; [|lia|reflexivity|word_solve|word_solve].
  by apply (wrotl_inj 32) in H.
Qed.

Lemma x86_32_round_inj_h h h' k : word 32 h -> word 32 h' -> x86_32_round h k = x86_32_round h' k -> h = h'.
Proof.
  intros Hh Hh' H. pose proof (x86_32_scramble_word k). unfold x86_32_round in H.
  apply mix5_inj in H; [|lia|word_solve|word_solve]. by apply lxor_inj in H.
Qed.

Lemma x86_32_round_inj_k h k k' : word 32 h -> word 32 k -> word 32 k' -> x86_32_round h k = x86_32_round h k' -> k = k'.
Proof.
  intros Hh Hk Hk' H. pose proof (x86_32_scramble_word k). pose proof (x86_32_scramble_word k'). unfold x86_32_round in H.
  apply mix5_inj in H; [|lia|word_solve|word_solve]. rewrite !(Z.lxor_comm h) in H. apply lxor_inj in H. by apply x86_32_scramble_inj in H.
Qed.

Lemma x86_32_body_word n key off h : word 32 h -> word 32 (x86_32_body n key off h).
Proof. revert h. induction n as [|n IH]; intros h Hh; [done|]. cbn [x86_32_body]. apply IH, x86_32_round_word. Qed.

Lemma x86_32_body_inj n key off h h' :
  word 32 h -> word 32 h' -> x86_32_body n key off h = x86_32_body n key off h' -> h = h'.
Proof.
  revert h h'. induction n as [|n IH]; intros h h' Hh Hh' H; [done|]. cbn [x86_32_body] in H.
  apply IH in H; [|apply x86_32_round_word|apply x86_32_round_word]. by apply x86_32_round_inj_h in H.
Qed.

Lemma x86_32_tail_word tail n h : word 32 h -> word 32 (x86_32_tail tail n h).
Proof. intros Hh. unfold x86_32_tail. destruct (1 <=? n); [|done]. apply lxor_word; [lia|done|apply x86_32_scramble_word]. Qed.

Lemma x86_32_tail_inj tail n h h' : x86_32_tail tail n h = x86_32_tail tail n h' -> h = h'.
Proof. unfold x86_32_tail. destruct (1 <=? n); [|done]. apply lxor_inj. Qed.

Lemma x86_32_seed_inj key s s' :
  word 32 s -> word 32 s' -> MurmurHash3_x86_32 key s = MurmurHash3_x86_32 key s' -> s = s'.
Proof.
  intros Hs Hs' H. unfold MurmurHash3_x86_32 in H. set (nb := Z.of_nat (length key) / 4) in *.
  pose proof (x86_32_body_word (Z.to_nat nb) key (nb * 4) s Hs) as Hb. pose proof (x86_32_body_word (Z.to_nat nb) key (nb * 4) s' Hs') as Hb'.
  set (tl := drop _ _) in *. set (n := Z.land _ _) in *.
  pose proof (x86_32_tail_word tl n _ Hb). pose proof (x86_32_tail_word tl n _ Hb').
  apply fmix32_inj in H; [|word_solve|word_solve]. apply lxor_inj, x86_32_tail_inj, x86_32_body_inj in H; done.
Qed.

Lemma x86_32_word key seed : word 32 seed -> word 32 (MurmurHash3_x86_32 key seed).
Proof.
  intros Hs. unfold MurmurHash3_x86_32. apply fmix32_word, lxor_word; [lia| |word_solve].
  by apply x86_32_tail_word, x86_32_body_word.
Qed.

(** Four bytes are one block. *)
Lemma x86_32_block_inj key key' seed :
  Forall byte_ok key -> Forall byte_ok key' -> length key = 4%nat -> length key' = 4%nat -> word 32 seed ->
  MurmurHash3_x86_32 key seed = MurmurHash3_x86_32 key' seed -> key = key'.
Proof.
  intros Hk Hk' Hl Hl' Hs H. unfold MurmurHash3_x86_32 in H. rewrite Hl, Hl' in H.
  assert (forall bs, length bs = 4%nat -> Forall byte_ok bs -> getblock32 bs 4 (-1) = le_value bs /\ word 32 (le_value bs)) as Hget.
  { intros bs Hb Hok. unfold getblock32. simpl (Z.to_nat _). rewrite drop_0, take_ge by lia. split; [done|].
    pose proof (le_value_bound bs Hok) as Hbd. by rewrite Hb in Hbd. }
  destruct (Hget key Hl Hk) as [Hg Hw]. destruct (Hget key' Hl' Hk') as [Hg' Hw'].
  change (Z.to_nat (Z.of_nat 4 / 4)) with 1%nat in H. change (Z.of_nat 4 / 4 * 4) with 4 in H. change (Z.land (Z.of_nat 4) 3) with 0 in H.
  cbn [x86_32_body] in H. change (- Z.of_nat 1) with (-1) in H. rewrite Hg, Hg' in H. unfold x86_32_tail in H. cbn iota beta zeta in H.
  change (1 <=? 0) with false in H. cbn iota in H.
  pose proof (x86_32_round_word seed (le_value key)). pose proof (x86_32_round_word seed (le_value key')).
  apply fmix32_inj in H; [|word_solve|word_solve]. apply lxor_inj, x86_32_round_inj_k in H; [|done..].
  apply le_value_inj in H; [done|done|done|lia].
Qed.

(** ** The 64-bit variant *)

Lemma x64_128_k1_inj x y : word 64 x -> word 64 y -> x64_128_k1 x = x64_128_k1 y -> x = y.
Proof.
  intros Hx Hy H. unfold x64_128_k1, rotl64 in H.
  apply (wmul_inj 64 _ _ _ 12114143059468233855) in H; [|lia|reflexivity|word_solve|word_solve].
  apply (wrotl_inj 64) in H; [|lia|word_solve|word_solve].
  by apply (wmul_inj 64 _ _ _ 12214898983567248765) in H; [|lia|reflexivity|done|done].
Qed.

Lemma x64_128_k2_inj x y : word 64 x -> word 64 y -> x64_128_k2 x = x64_128_k2 y -> x = y.
Proof.
  intros Hx Hy H. unfold x64_128_k2, rotl64 in H.
  apply (wmul_inj 64 _ _ _ 12214898983567248765) in H; [|lia|reflexivity|word_solve|word_solve].
  apply (wrotl_inj 64) in H; [|lia|word_solve|word_solve].
  by apply (wmul_inj 64 _ _ _ 12114143059468233855) in H; [|lia|reflexivity|done|done].
Qed.

Lemma x64_128_half_inj x y r a c :
  0 < r < 64 -> word 64 x -> word 64 y ->
  wadd 64 (wmul 64 (wadd 64 (rotl64 x r) a) 5) c = wadd 64 (wmul 64 (wadd 64 (rotl64 y r) a) 5) c -> x = y.
Proof.
  intros Hr Hx Hy H. unfold rotl64 in H. apply (wadd_inj 64) in H; [|lia|word_solve|word_solve].
  apply (wmul_inj 64 _ _ _ 14757395258967641293) in H; [|lia|reflexivity|word_solve|word_solve].
  apply (wadd_inj 64) in H; [|lia|word_solve|word_solve]. by apply (wrotl_inj 64) in H.
Qed.

Lemma x64_128_round_inj_k h k k' :
  word 64 (fst h) -> word 64 (snd h) -> word 64 (fst k) -> word 64 (snd k) -> word 64 (fst k') -> word 64 (snd k') ->
  x64_128_round h k = x64_128_round h k' -> k = k'.
Proof.
  destruct h as [h1 h2], k as [k1 k2], k' as [k1' k2']. simpl. intros Hh1 Hh2 Hk1 Hk2 Hk1' Hk2' H.
  unfold x64_128_round in H. injection H as H1 H2.
  assert (forall k, word 64 (x64_128_k1 k)) as W1 by (intros; unfold x64_128_k1; word_solve).
  assert (forall k, word 64 (x64_128_k2 k)) as W2 by (intros; unfold x64_128_k2; word_solve).
  apply x64_128_half_inj in H1; [|lia|apply lxor_word; auto; lia|apply lxor_word; auto; lia].
  rewrite !(Z.lxor_comm h1) in H1. apply lxor_inj, x64_128_k1_inj in H1; [|done..]. subst k1'.
  apply x64_128_half_inj in H2; [|lia|apply lxor_word; auto; lia|apply lxor_word; auto; lia].
  rewrite !(Z.lxor_comm h2) in H2. by apply lxor_inj, x64_128_k2_inj in H2; subst.
Qed.

Lemma x64_128_sum_inj h h' :
  word 64 (fst h) -> word 64 (snd h) -> word 64 (fst h') -> word 64 (snd h') -> x64_128_sum h = x64_128_sum h' -> h = h'.
Proof.
  destruct h as [a b], h' as [a' b']. simpl. intros Ha Hb Ha' Hb' H. unfold x64_128_sum in H. injection H as H1 H2.
  rewrite H1 in H2. apply (wadd_inj 64) in H2; [|lia|done|done]. subst b'. by apply (wadd_inj 64) in H1; [subst|lia|done|done].
Qed.

Lemma x64_128_block_inj key key' seed :
  Forall byte_ok key -> Forall byte_ok key' -> length key = 16%nat -> length key' = 16%nat -> word 32 seed ->
  MurmurHash3_x64_128 key seed = MurmurHash3_x64_128 key' seed -> key = key'.
Proof.
  intros Hk Hk' Hl Hl' Hs H.
  assert (word 64 seed) as Hs64 by (destruct Hs; split; [done|]; transitivity (2 ^ 32); [done|by vm_compute]).
  assert (forall bs, length bs = 16%nat -> Forall byte_ok bs ->
    getblock64 bs 0 0 = le_value (take 8 bs) /\ getblock64 bs 0 1 = le_value (drop 8 bs) /\
    word 64 (le_value (take 8 bs)) /\ word 64 (le_value (drop 8 bs))) as Hget.
  { intros bs Hb Hok. unfold getblock64. simpl (Z.to_nat _). rewrite drop_0, (take_ge (drop 8 bs)) by (rewrite length_drop; lia).
    split_and!; [done|done| |].
    - pose proof (le_value_bound (take 8 bs) (Forall_take _ 8 _ Hok)) as Hbd. rewrite length_take, Hb in Hbd. exact Hbd.
    - pose proof (le_value_bound (drop 8 bs) (Forall_drop _ 8 _ Hok)) as Hbd. rewrite length_drop, Hb in Hbd. exact Hbd. }
  destruct (Hget key Hl Hk) as (G1 & G2 & W1 & W2). destruct (Hget key' Hl' Hk') as (G1' & G2' & W1' & W2').
  unfold MurmurHash3_x64_128 in H. rewrite Hl, Hl' in H.
  change (Z.to_nat (Z.of_nat 16 / 16)) with 1%nat in H. change (Z.land (Z.of_nat 16) 15) with 0 in H.
  cbn [x64_128_body] in H. change (0 * 2 + 0) with 0 in H. change (0 * 2 + 1) with 1 in H. rewrite G1, G2, G1', G2' in H.
  set (q := x64_128_round (seed, seed) (le_value (take 8 key), le_value (drop 8 key))) in *.
  set (q' := x64_128_round (seed, seed) (le_value (take 8 key'), le_value (drop 8 key'))) in *.
  assert (word 64 (fst q) /\ word 64 (snd q) /\ word 64 (fst q') /\ word 64 (snd q')) as (Q1 & Q2 & Q1' & Q2').
  { unfold q, q', x64_128_round. cbn [fst snd]. split_and!; word_solve. }
  assert (q = q') as Hq.
  { destruct q as [a b], q' as [a' b']. unfold x64_128_tail in H. cbn iota beta zeta in H. change (1 <=? 0) with false in H.
    change (9 <=? 0) with false in H. cbn iota in H. cbn [fst snd] in *.
    assert (forall u, word 64 u -> word 64 (Z.lxor u (wrap 64 (Z.of_nat 16)))) as Wx by (intros; word_solve).
    destruct (x64_128_sum (Z.lxor a _, _)) as [c d] eqn:E1. destruct (x64_128_sum (Z.lxor a' _, _)) as [c' d'] eqn:E2.
    assert (word 64 c /\ word 64 d /\ word 64 c' /\ word 64 d') as (C1 & C2 & C3 & C4).
    { unfold x64_128_sum in E1, E2. injection E1 as <- <-. injection E2 as <- <-. split_and!; word_solve. }
    apply x64_128_sum_inj in H; [|cbn [fst snd]; by apply fmix64_word..]. injection H as H1 H2.
    apply fmix64_inj in H1, H2; [|done..]. subst c' d'. rewrite <- E2 in E1.
    apply x64_128_sum_inj in E1; [|cbn [fst snd]; by apply Wx..]. injection E1 as E1 E2'. apply lxor_inj in E1, E2'. by subst. }
  apply x64_128_round_inj_k in Hq; [|done..]. injection Hq as H1 H2.
  apply le_value_inj in H1; [|by apply Forall_take|by apply Forall_take|rewrite !length_take; lia].
  apply le_value_inj in H2; [|by apply Forall_drop|by apply Forall_drop|rewrite !length_drop; lia].
  rewrite <- (take_drop 8 key), <- (take_drop 8 key'). by rewrite H1, H2.
Qed.

(** ** The properties *)

(** C17. For a fixed key, distinct seeds give distinct 32-bit hashes: the
    hash functions of the Bloom filter differ on every key.  For a fixed seed,
    distinct keys of the size of one block never collide: four bytes in the
    32-bit variant, sixteen in the 64-bit one. *)
Theorem MurmurHash3_injective key key' seed seed' :
  Forall byte_ok key -> Forall byte_ok key' -> word 32 seed -> word 32 seed' ->
  (seed <> seed' -> MurmurHash3_x86_32 key seed <> MurmurHash3_x86_32 key seed') /\
  (length key = 4%nat -> length key' = 4%nat -> key <> key' -> MurmurHash3_x86_32 key seed <> MurmurHash3_x86_32 key' seed) /\
  (length key = 16%nat -> length key' = 16%nat -> key <> key' -> MurmurHash3_x64_128 key seed <> MurmurHash3_x64_128 key' seed).
Proof.
  intros Hk Hk' Hs Hs'. split_and!.
  - intros Hne Heq. by apply Hne, (x86_32_seed_inj key).
  - intros Hl Hl' Hne Heq. by apply Hne, (x86_32_block_inj key key' seed).
  - intros Hl Hl' Hne Heq. by apply Hne, (x64_128_block_inj key key' seed).
Qed.

(** The published test vectors, for ["hello"]. *)
Definition hello : list Z := [104; 101; 108; 108; 111].

Example MurmurHash3_hello :
  MurmurHash3_x86_32 hello 0 = 0x248bfa47 /\ MurmurHash3_x64_128 hello 0 = (0xcbd8a7b341bd9b02, 0x5b1e906a48ae1d19).
Proof. vm_compute. done. Qed.

Lemma MurmurHash3_injective_witness :
  (MurmurHash3_x86_32 [1; 2; 3; 4] 3 =? MurmurHash3_x86_32 [1; 2; 3; 4] 4) = false /\
  (MurmurHash3_x86_32 [1; 2; 3; 4] 3 =? MurmurHash3_x86_32 [1; 2; 3; 5] 3) = false.
Proof.
  destruct (MurmurHash3_injective [1; 2; 3; 4] [1; 2; 3; 5] 3 4) as (H1 & H2 & _);
    [repeat constructor; vm_compute; congruence|repeat constructor; vm_compute; congruence|split; vm_compute; congruence|split; vm_compute; congruence|].
  split; apply Z.eqb_neq; [apply H1; lia|apply H2; [reflexivity|reflexivity|congruence]].
Defined.
