(* ===== verification/BloomFilter.v ===== *)
(** * The Bloom filter of filter_exps/bf.hpp

    The filter lives in a file mapped into memory: a header with the seeds
    and the number of bits, then the bits, most significant first in each
    byte. *)

From Stdlib Require Import SpecFloat.
From S2P Require Import Prelude Words Murmur.

Definition mod8 (a : Z) : Z := Z.land a 7.
Definition div8 (a : Z) : Z := Z.shiftr a 3.

Record BloomFilter := mkBF {
  data_ : list Z;
  nmod_ : Z;
  seeds_ : list Z;
  mdlen_ : Z;
  len_ : Z
}.

(** ** The number of hash functions

    [round(M_LN2 * nmod_ / nkeys)] on [double]s: the integers are converted,
    product and quotient are rounded to 53 bits, and [round] goes to the
    nearest integer, halves away from zero. *)

Definition M_LN2 : spec_float := S754_finite false 6243314768165359 (-53).
Definition double_of (n : Z) : spec_float := binary_normalize 53 1024 n 0 false.

Definition round (x : spec_float) : Z :=
  match x with
  | S754_finite false m e =>
      if 0 <=? e then Z.pos m * 2 ^ e else (Z.pos m + 2 ^ (- e - 1)) / 2 ^ (- e)
  | _ => 0
  end.

Definition num_hashes (nmod nkeys : Z) : Z :=
  let nhf := wrap 32 (round (SFdiv 53 1024 (SFmul 53 1024 M_LN2 (double_of nmod)) (double_of nkeys))) in
  if nhf =? 0 then 1 else nhf.

(** ** The seeds: [std::mt19937 gen(1337)]

    The generator's words satisfy a recurrence on the last 624 of them; the
    results are tempered words. *)

Fixpoint mt_seed (n : nat) (i x : Z) : list Z :=
  match n with
  | O => []
  | S n => x :: mt_seed n (i + 1) (wrap 32 (1812433253 * Z.lxor x (Z.shiftr x 30) + (i + 1)))
  end.

Definition mt_next (w : list Z) : Z :=
  let y := Z.lor (Z.land (nth 0 w 0) 0x80000000) (Z.land (nth 1 w 0) 0x7fffffff) in
  Z.lxor (Z.lxor (nth 397 w 0) (Z.shiftr y 1)) (if Z.testbit y 0 then 0x9908b0df else 0).

Definition mt_temper (y : Z) : Z :=
  let y := Z.lxor y (Z.shiftr y 11) in
  let y := Z.lxor y (Z.land (wshl 32 y 7) 0x9d2c5680) in
  let y := Z.lxor y (Z.land (wshl 32 y 15) 0xefc60000) in
  Z.lxor y (Z.shiftr y 18).

Fixpoint mt_outputs (n : nat) (w : list Z) : list Z :=
  match n with
  | O => []
  | S n => let x := mt_next w in wrap 32 (mt_temper x) :: mt_outputs n (tail w ++ [x])
  end.

Definition mt19937 (seed : Z) (n : nat) : list Z := mt_outputs n (mt_seed 624 0 seed).

(** ** The constructor

    [None]: the constructor throws, or the file cannot be mapped and the
    program exits ([mapped] is whether [mmap] succeeds). *)
Definition BloomFilter_new (nbits nkeys : Z) (mapped : bool) : option BloomFilter :=
  let nmod := Z.min 0xffffffff (wrap 64 (wrap 64 (nbits + 7) / 8 * 8)) in
  if (nbits =? 0) || (nkeys =? 0) then None
  else
    let nhf := num_hashes nmod nkeys in
    let seeds := mt19937 1337 (Z.to_nat nhf) in
    let header := le_bytes 4 (wrap 32 (Z.of_nat (length seeds))) ++ concat (le_bytes 4 <$> seeds) ++ le_bytes 8 nmod in
    let mdlen := Z.of_nat (length header) in
    let file := header ++ replicate (Z.to_nat (div8 (wrap 32 nmod))) 0 in
    if mapped then Some (mkBF file nmod seeds mdlen (Z.of_nat (length file))) else None.

(** ** Bits

    [div8] and [mod8] take a [uint32_t]. *)
Definition get (bf : BloomFilter) (i : Z) : result bool :=
  match data_ bf !! Z.to_nat (div8 (wrap 32 i) + mdlen_ bf) with
  | Some b => Ok (Z.land (Z.shiftr b (7 - mod8 (wrap 32 i))) 1 =? 1)
  | None => Err EBounds
  end.

Definition set (bf : BloomFilter) (i : Z) (v : bool) : result BloomFilter :=
  match get bf i with
  | Err e => Err e
  | Ok g =>
      if eqb g v then Ok bf
      else
        let p := Z.to_nat (div8 (wrap 32 i) + mdlen_ bf) in
        match data_ bf !! p with
        | Some b => Ok (mkBF (<[p := Z.lxor b (wshl 8 1 (7 - mod8 (wrap 32 i)))]> (data_ bf))
                             (nmod_ bf) (seeds_ bf) (mdlen_ bf) (len_ bf))
        | None => Err EBounds
        end
  end.

(** ** Keys *)

(** The key is hashed as the eight bytes of its representation. *)
Definition hash (bf : BloomFilter) (k seed : Z) : Z :=
  MurmurHash3_x86_32 (le_bytes 8 k) seed mod nmod_ bf.
Arguments hash : simpl never.

(** [for (i = 0; i < seeds_.size() && out; ++i)]. *)
Fixpoint query_loop (bf : BloomFilter) (key : Z) (seeds : list Z) (out : bool) : result bool :=
  match seeds with
  | [] => Ok out
  | s :: seeds =>
      if out then
        match get bf (hash bf key s) with
        | Ok g => query_loop bf key seeds (out && g)
        | Err e => Err e
        end
      else Ok out
  end.

Definition query (bf : BloomFilter) (key : Z) : result bool := query_loop bf key (seeds_ bf) true.

Fixpoint insert_loop (bf : BloomFilter) (key : Z) (seeds : list Z) : result BloomFilter :=
  match seeds with
  | [] => Ok bf
  | s :: seeds =>
      match set bf (hash bf key s) true with
      | Ok bf' => insert_loop bf' key seeds
      | Err e => Err e
      end
  end.

Definition insert_key (bf : BloomFilter) (key : Z) : result BloomFilter := insert_loop bf key (seeds_ bf).

(** ** Well-formed filters *)

Record wf (bf : BloomFilter) : Prop := {
  wf_mod : 0 < nmod_ bf <= 0xffffffff;
  wf_bytes : 8 * (len_ bf - mdlen_ bf) = nmod_ bf;
  wf_md : 0 <= mdlen_ bf;
  wf_len : len_ bf = Z.of_nat (length (data_ bf))
}.

(** Bit [i] of the filter. *)
Definition bit (bf : BloomFilter) (i : Z) : bool :=
  Z.testbit (default 0 (data_ bf !! Z.to_nat (i / 8 + mdlen_ bf))) (7 - i mod 8).
Arguments bit : simpl never.

(** The same filter with other bits. *)
Definition same_shape (bf bf' : BloomFilter) : Prop :=
  nmod_ bf' = nmod_ bf /\ seeds_ bf' = seeds_ bf /\ mdlen_ bf' = mdlen_ bf /\ len_ bf' = len_ bf /\
  length (data_ bf') = length (data_ bf).

Lemma wf_shape bf bf' : wf bf -> same_shape bf bf' -> wf bf'.
Proof. intros [] (H1 & _ & H3 & H4 & H5). split; rewrite ?H1, ?H3, ?H4, ?H5; done. Qed.

Lemma same_shape_trans a b c : same_shape a b -> same_shape b c -> same_shape a c.
Proof. unfold same_shape. intros (? & ? & ? & ? & ?) (? & ? & ? & ? & ?). split_and!; congruence. Qed.

Lemma div8_div i : 0 <= i <= 0xffffffff -> div8 (wrap 32 i) = i / 8 /\ mod8 (wrap 32 i) = i mod 8.
Proof.
  intros Hi. unfold div8, mod8, wrap. rewrite Z.mod_small by lia. split.
  - by rewrite Z.shiftr_div_pow2.
  - change 7 with (Z.ones 3). by rewrite Z.land_ones.
Qed.

Lemma cell bf i : wf bf -> 0 <= i < nmod_ bf -> exists b, data_ bf !! Z.to_nat (i / 8 + mdlen_ bf) = Some b.
Proof.
  intros [H1 H2 H3 H4] Hi. apply lookup_lt_is_Some_2. assert (i / 8 < len_ bf - mdlen_ bf) by (apply Z.div_lt_upper_bound; lia).
  assert (0 <= i / 8) by (apply Z.div_pos; lia). lia.
Qed.

Lemma bit_land b k : 0 <= k -> (Z.land (Z.shiftr b k) 1 =? 1) = Z.testbit b k.
Proof.
  intros Hk. change 1 with (Z.ones 1) at 1. rewrite Z.land_ones by lia. rewrite <- (Z.add_0_l k) at 2. rewrite <- Z.shiftr_spec by lia.
  rewrite Z.bit0_odd, Zmod_odd. by destruct (Z.odd _).
Qed.

Lemma get_ok bf i : wf bf -> 0 <= i < nmod_ bf -> get bf i = Ok (bit bf i).
Proof.
  intros Hw Hi. destruct (cell bf i Hw Hi) as [b Hb]. pose proof (wf_mod _ Hw). destruct (div8_div i) as [Hd Hm]; [lia|].
  unfold get, bit. rewrite Hd, Hm, Hb. simpl. pose proof (Z.mod_pos_bound i 8). rewrite bit_land by lia. done.
Qed.

Lemma set_ok bf i v :
  wf bf -> 0 <= i < nmod_ bf ->
  exists bf', set bf i v = Ok bf' /\ same_shape bf bf' /\
    forall j, 0 <= j < nmod_ bf -> bit bf' j = if j =? i then v else bit bf j.
Proof.
  intros Hw Hi. unfold set. rewrite (get_ok _ _ Hw Hi). destruct (cell bf i Hw Hi) as [b Hb].
  pose proof (wf_mod _ Hw). destruct (div8_div i) as [Hd Hm]; [lia|]. rewrite Hd, Hm, Hb.
  destruct (eqb (bit bf i) v) eqn:E.
  - apply eqb_prop in E. exists bf. split_and!; [done|by unfold same_shape|]. intros j Hj. destruct (Z.eqb_spec j i) as [->|]; done.
  - eexists. split; [done|]. split; [unfold same_shape; simpl; by rewrite length_insert|]. intros j Hj. unfold bit. simpl.
    pose proof (lookup_lt_Some _ _ _ Hb) as Hlt. pose proof (Z.mod_pos_bound i 8). pose proof (Z.mod_pos_bound j 8).
    pose proof (Z.div_pos i 8). pose proof (Z.div_pos j 8). pose proof (wf_md _ Hw).
    assert (wshl 8 1 (7 - i mod 8) = 2 ^ (7 - i mod 8)) as ->.
    { unfold wshl, wrap. rewrite Z.shiftl_mul_pow2, Z.mul_1_l by lia. apply Z.mod_small. split; [apply Z.pow_nonneg; lia|apply Z.pow_lt_mono_r; lia]. }
    destruct (decide (j / 8 = i / 8)) as [Hq|Hq].
    + rewrite Hq, list_lookup_insert_eq by done. simpl. rewrite Z.lxor_spec, Z.pow2_bits_eqb by lia.
      destruct (Z.eqb_spec j i) as [->|Hne].
      * rewrite Z.eqb_refl, xorb_true_r. unfold bit in E. rewrite Hb in E. simpl in E. by destruct (Z.testbit b _), v.
      * rewrite Hb. simpl. rewrite (proj2 (Z.eqb_neq _ _)); [by rewrite xorb_false_r|]. intros Hmod.
        apply Hne. rewrite (Z.div_mod j 8), (Z.div_mod i 8) by lia. rewrite Hq. f_equal. lia.
    + rewrite list_lookup_insert_ne by lia. destruct (Z.eqb_spec j i) as [->|]; done.
Qed.

(** ** Insertions and queries *)

Definition hashes (bf : BloomFilter) (key : Z) : list Z := hash bf key <$> seeds_ bf.

Lemma hash_bound bf k s : wf bf -> 0 <= hash bf k s < nmod_ bf.
Proof. intros Hw. pose proof (wf_mod _ Hw). apply Z.mod_pos_bound. lia. Qed.

Lemma hash_shape bf bf' k s : same_shape bf bf' -> hash bf' k s = hash bf k s.
Proof. intros (H & _). unfold hash. by rewrite H. Qed.

Lemma query_loop_ok bf key ss :
  wf bf -> query_loop bf key ss true = Ok (forallb (bit bf) (hash bf key <$> ss)).
Proof.
  intros Hw. induction ss as [|s ss IH]; [done|]. cbn [query_loop]. rewrite get_ok by (done || by apply hash_bound).
  cbn [fmap list_fmap forallb andb]. destruct (bit bf (hash bf key s)); cbn [andb]; [exact IH|]. by destruct ss.
Qed.

Lemma bf_insert_loop_ok bf key ss :
  wf bf ->
  exists bf', insert_loop bf key ss = Ok bf' /\ same_shape bf bf' /\
    forall j, 0 <= j < nmod_ bf -> bit bf' j = bool_decide (j ∈ hash bf key <$> ss) || bit bf j.
Proof.
  revert bf. induction ss as [|s ss IH]; intros bf Hw; cbn [insert_loop].
  - exists bf. split_and!; [done|by unfold same_shape|]. intros j _. rewrite bool_decide_false by apply not_elem_of_nil. done.
  - destruct (set_ok bf (hash bf key s) true Hw (hash_bound _ _ _ Hw)) as (bf1 & -> & Hsh & Hb1).
    destruct (IH bf1 (wf_shape _ _ Hw Hsh)) as (bf2 & -> & Hsh2 & Hb2). exists bf2. split_and!; [done|by eapply same_shape_trans|].
    intros j Hj. rewrite Hb2 by (by rewrite (proj1 Hsh)). rewrite Hb1 by done.
    assert (hash bf1 key <$> ss = hash bf key <$> ss) as -> by (apply list_fmap_ext; intros; by apply hash_shape).
    cbn [fmap list_fmap]. destruct (Z.eqb_spec j (hash bf key s)) as [->|Hne].
    + rewrite orb_true_r. symmetry. apply orb_true_intro. left. apply bool_decide_eq_true. by left.
    + f_equal. apply bool_decide_ext. rewrite elem_of_cons. tauto.
Qed.

Lemma query_ok bf key : wf bf -> query bf key = Ok (forallb (bit bf) (hashes bf key)).
Proof. intros Hw. by apply query_loop_ok. Qed.

Lemma bf_insert_ok bf key :
  wf bf ->
  exists bf', insert_key bf key = Ok bf' /\ same_shape bf bf' /\
    forall j, 0 <= j < nmod_ bf -> bit bf' j = bool_decide (j ∈ hashes bf key) || bit bf j.
Proof. intros Hw. by apply bf_insert_loop_ok. Qed.

Lemma hashes_shape bf bf' key : same_shape bf bf' -> hashes bf' key = hashes bf key.
Proof.
  intros Hsh. unfold hashes. destruct Hsh as (H1 & H2 & _). rewrite H2. apply list_fmap_ext. intros. unfold hash. by rewrite H1.
Qed.

Fixpoint insert_all (bf : BloomFilter) (keys : list Z) : result BloomFilter :=
  match keys with
  | [] => Ok bf
  | k :: keys => match insert_key bf k with Ok bf' => insert_all bf' keys | Err e => Err e end
  end.

(** The bits after inserting [keys]. *)
Lemma insert_all_ok bf keys :
  wf bf ->
  exists bf', insert_all bf keys = Ok bf' /\ same_shape bf bf' /\
    forall j, 0 <= j < nmod_ bf -> bit bf' j = existsb (fun k => bool_decide (j ∈ hashes bf k)) keys || bit bf j.
Proof.
  revert bf. induction keys as [|k keys IH]; intros bf Hw; simpl.
  - exists bf. split_and!; [done|by unfold same_shape|done].
  - destruct (bf_insert_ok bf k Hw) as (bf1 & -> & Hsh & Hb1). destruct (IH bf1 (wf_shape _ _ Hw Hsh)) as (bf2 & -> & Hsh2 & Hb2).
    exists bf2. split_and!; [done|by eapply same_shape_trans|]. intros j Hj. rewrite Hb2 by (by rewrite (proj1 Hsh)). rewrite Hb1 by done.
    rewrite orb_assoc. f_equal. rewrite (orb_comm (bool_decide _)). f_equal.
    assert (forall k', hashes bf1 k' = hashes bf k') as E by (intros; by apply hashes_shape). clear -E.
    induction keys as [|k' keys IH]; simpl; [done|]. by rewrite E, IH.
Qed.

(** ** The constructor *)

Lemma num_hashes_pos nmod nkeys : 0 < num_hashes nmod nkeys.
Proof.
  unfold num_hashes. set (n := wrap 32 _). assert (0 <= n) by (apply wrap_word; lia). destruct (Z.eqb_spec n 0); lia.
Qed.

Definition header_of (nmod : Z) (seeds : list Z) : list Z :=
  le_bytes 4 (wrap 32 (Z.of_nat (length seeds))) ++ concat (le_bytes 4 <$> seeds) ++ le_bytes 8 nmod.

(** The filter a successful constructor leaves, for [nmod] bits. *)
Definition fresh_filter (nmod nkeys : Z) : BloomFilter :=
  let seeds := mt19937 1337 (Z.to_nat (num_hashes nmod nkeys)) in
  let file := header_of nmod seeds ++ replicate (Z.to_nat (div8 (wrap 32 nmod))) 0 in
  mkBF file nmod seeds (Z.of_nat (length (header_of nmod seeds))) (Z.of_nat (length file)).

Lemma new_ok nbits nkeys :
  nbits <> 0 -> nkeys <> 0 ->
  BloomFilter_new nbits nkeys true = Some (fresh_filter (Z.min 0xffffffff (wrap 64 (wrap 64 (nbits + 7) / 8 * 8))) nkeys).
Proof.
  intros Hb Hk. unfold BloomFilter_new. rewrite (proj2 (Z.eqb_neq _ _) Hb), (proj2 (Z.eqb_neq _ _) Hk). done.
Qed.

Lemma rounded_bits nbits :
  0 < nbits <= 0xfffffff8 ->
  let nmod := Z.min 0xffffffff (wrap 64 (wrap 64 (nbits + 7) / 8 * 8)) in
  nmod = (nbits + 7) / 8 * 8 /\ 0 < nmod <= 0xfffffff8 /\ nmod mod 8 = 0.
Proof.
  intros Hb. cbn zeta. unfold wrap. rewrite (Z.mod_small (nbits + 7)) by lia.
  pose proof (Z.div_mod (nbits + 7) 8 ltac:(lia)). pose proof (Z.mod_pos_bound (nbits + 7) 8 ltac:(lia)).
  assert ((nbits + 7) / 8 <= 0x1fffffff) by (apply Z.lt_succ_r, Z.div_lt_upper_bound; lia).
  rewrite Z.mod_small by lia. rewrite Z.min_r by lia. split_and!; [done|lia|lia|]. apply Z.mod_mul. lia.
Qed.

Lemma fresh_ok nmod nkeys :
  0 < nmod <= 0xfffffff8 -> nmod mod 8 = 0 ->
  wf (fresh_filter nmod nkeys) /\ forall j, 0 <= j < nmod -> bit (fresh_filter nmod nkeys) j = false.
Proof.
  intros Hn H8. unfold fresh_filter. set (seeds := mt19937 _ _). generalize seeds. clear seeds. intros seeds.
  destruct (div8_div nmod) as [Hd _]; [lia|]. rewrite Hd. assert (nmod = 8 * (nmod / 8)) as Hn8 by (pose proof (Z.div_mod nmod 8 ltac:(lia)); lia).
  assert (0 < nmod / 8) by lia. split.
  - split; cbn [nmod_ len_ mdlen_ data_]; [lia| |lia|done]. rewrite length_app, length_replicate. lia.
  - intros j Hj. unfold bit. cbn [data_ mdlen_]. assert (0 <= j / 8 < nmod / 8).
    { split; [apply Z.div_pos; lia|]. apply Z.div_lt_upper_bound; lia. }
    rewrite lookup_app_r by lia. rewrite lookup_replicate_2 by lia. apply Z.bits_0.
Qed.

Lemma forallb_ext_in {A} (f g : A -> bool) l : (forall x, x ∈ l -> f x = g x) -> forallb f l = forallb g l.
Proof.
  intros H. induction l as [|x l IH]; [done|]. cbn [forallb]. rewrite (H x) by (by left). f_equal.
  apply IH. intros y Hy. apply H. by right.
Qed.

(** ** The properties *)

(** C19. What a filter of at most 2^32 - 8 bits answers, whatever keys it was
    filled with; nothing fails on the way.  A query is answered true exactly
    when every position its key hashes to is also a position of some inserted
    key; in particular there are no false negatives. *)
Theorem bloom_query_exact nbits nkeys keys :
  0 < nbits <= 0xfffffff8 -> nkeys <> 0 ->
  exists bf bf', BloomFilter_new nbits nkeys true = Some bf /\ insert_all bf keys = Ok bf' /\
    (forall key, query bf' key = Ok (forallb (fun h => existsb (fun k => bool_decide (h ∈ hashes bf k)) keys) (hashes bf key))) /\
    (forall key, key ∈ keys -> query bf' key = Ok true).
Proof.
  intros Hb Hk. pose proof (rounded_bits nbits Hb) as (Hm & Hr & H8). set (nmod := Z.min _ _) in *.
  destruct (fresh_ok nmod nkeys Hr H8) as [Hw H0]. destruct (insert_all_ok _ keys Hw) as (bf' & Hi & Hsh & Hbits).
  assert (Hq : forall key, query bf' key =
    Ok (forallb (fun h => existsb (fun k => bool_decide (h ∈ hashes (fresh_filter nmod nkeys) k)) keys) (hashes (fresh_filter nmod nkeys) key))).
  { intros key. rewrite (query_ok _ _ (wf_shape _ _ Hw Hsh)), (hashes_shape _ _ _ Hsh). f_equal. apply forallb_ext_in.
    intros h Hh. assert (0 <= h < nmod) as Hr'.
    { unfold hashes in Hh. apply list_elem_of_fmap in Hh as (s & -> & _). by apply (hash_bound (fresh_filter nmod nkeys)). }
    rewrite Hbits, H0, orb_false_r by done. done. }
  exists (fresh_filter nmod nkeys), bf'. split_and!; [apply new_ok; lia|done|done|].
  intros key Hin. rewrite Hq. f_equal. apply forallb_forall. intros h Hh. apply list_elem_of_In in Hh. apply existsb_exists. exists key.
  split; [by apply list_elem_of_In|by apply bool_decide_eq_true].
Qed.

(** C21. More than 2^32 - 8 bits: the number of bits is capped at 2^32 - 1,
    which is not a multiple of eight, and the file has no byte for the last
    seven of them: reading one goes behind the end of the mapped file. *)
Theorem bloom_capped_out_of_bounds nbits nkeys i :
  0xfffffff8 < nbits < 2 ^ 64 - 7 -> nkeys <> 0 -> 0xfffffff8 <= i < 0xffffffff ->
  exists bf, BloomFilter_new nbits nkeys true = Some bf /\ nmod_ bf = 0xffffffff /\ get bf i = Err EBounds.
Proof.
  intros Hb Hk Hi. eexists. split; [apply new_ok; lia|].
  assert (Z.min 0xffffffff (wrap 64 (wrap 64 (nbits + 7) / 8 * 8)) = 0xffffffff) as ->.
  { unfold wrap. rewrite (Z.mod_small (nbits + 7)) by lia. pose proof (Z.div_mod (nbits + 7) 8 ltac:(lia)). pose proof (Z.mod_pos_bound (nbits + 7) 8 ltac:(lia)).
    rewrite Z.mod_small by lia. lia. }
  split; [done|]. unfold get. destruct (div8_div i) as [-> _]; [lia|]. unfold fresh_filter. set (seeds := mt19937 _ _).
  generalize (header_of 0xffffffff seeds). intros hd. cbn [data_ mdlen_]. destruct (div8_div 0xffffffff) as [-> _]; [lia|].
  rewrite (proj2 (lookup_ge_None _ _)); [done|]. rewrite length_app, length_replicate.
  assert (0x1fffffff <= i / 8) by (apply Z.div_le_lower_bound; lia). change (Z.to_nat (0xffffffff / 8)) with (Z.to_nat 0x1fffffff). lia.
Qed.

(** A filter of 64 bits for 10 keys. *)
Lemma bloom_query_exact_witness :
  exists bf bf', BloomFilter_new 64 10 true = Some bf /\ insert_all bf [5; 7] = Ok bf' /\ query bf' 7 = Ok true.
Proof.
  destruct (bloom_query_exact 64 10 [5; 7]) as (bf & bf' & Hn & Hi & _ & Hq); [lia|lia|].
  exists bf, bf'. split_and!; [done|done|]. apply Hq. right. by left.
Defined.

Lemma bloom_capped_out_of_bounds_witness :
  exists bf, BloomFilter_new (2 ^ 33) 10 true = Some bf /\ nmod_ bf = 0xffffffff /\ get bf 0xfffffffc = Err EBounds.
Proof. apply (bloom_capped_out_of_bounds (2 ^ 33) 10 0xfffffffc); lia. Defined.
