(* ===== verification/Text.v ===== *)
(** * Decimal text

    What the programs use of the C and C++ libraries to write and read
    numbers: [operator<<] and [operator>>] of [uint64_t], [std::to_string],
    [strtoull] and [atoi] in base ten.  Characters are ASCII codes. *)

From S2P Require Import Prelude Words.

Definition is_digit (c : Z) : bool := (48 <=? c) && (c <=? 57).
(** [isspace] in the C locale. *)
Definition is_space (c : Z) : bool := (c =? 32) || ((9 <=? c) && (c <=? 13)).

(** ** Writing *)

Fixpoint digits_from (fuel : nat) (n : Z) (acc : list Z) : list Z :=
  match fuel with
  | O => acc
  | S fuel =>
      let acc := 48 + n mod 10 :: acc in
      if n <? 10 then acc else digits_from fuel (n / 10) acc
  end.

(** The decimal digits of a 64-bit number. *)
Definition to_string (n : Z) : list Z := digits_from 20 n [].

(** ** Reading *)

Fixpoint skip_space (s : list Z) : list Z :=
  match s with
  | c :: s' => if is_space c then skip_space s' else s
  | [] => []
  end.

(** The digits at the front, as a number, and what follows. *)
Fixpoint read_digits (acc : Z) (s : list Z) : Z * list Z :=
  match s with
  | c :: s' => if is_digit c then read_digits (10 * acc + (c - 48)) s' else (acc, s)
  | [] => (acc, [])
  end.

Definition starts_digit (s : list Z) : bool :=
  match s with c :: _ => is_digit c | [] => false end.

(** [stream >> v] for [uint64_t]: white space, an optional sign, digits;
    [None] when it fails, also on overflow.  A negative number is converted
    modulo 2^64. *)
Definition read_u64 (s : list Z) : option (Z * list Z) :=
  let s := skip_space s in
  let '(neg, s) := match s with
                   | c :: s' => if c =? 45 then (true, s') else if c =? 43 then (false, s') else (false, s)
                   | [] => (false, [])
                   end in
  if starts_digit s then
    let (v, s') := read_digits 0 s in
    if v <? 2 ^ 64 then Some (if neg : bool then wrap 64 (- v) else v, s') else None
  else None.

(** [strtoull(s, nullptr, 10)]: 0 without digits, the largest value on
    overflow. *)
Definition strtoull (s : list Z) : Z :=
  let s := skip_space s in
  let '(neg, s) := match s with
                   | c :: s' => if c =? 45 then (true, s') else if c =? 43 then (false, s') else (false, s)
                   | [] => (false, [])
                   end in
  let (v, _) := read_digits 0 s in
  if v <? 2 ^ 64 then (if neg : bool then wrap 64 (- v) else v) else 2 ^ 64 - 1.

(** [atoi]: [(int) strtol(s, NULL, 10)], the value saturated at the range of
    [long] and cut to 32 bits. *)
Definition int32_of (z : Z) : Z := let r := wrap 32 z in if r <? 2 ^ 31 then r else r - 2 ^ 32.
Definition atoi (s : list Z) : Z :=
  let s := skip_space s in
  let '(neg, s) := match s with
                   | c :: s' => if c =? 45 then (true, s') else if c =? 43 then (false, s') else (false, s)
                   | [] => (false, [])
                   end in
  let (v, _) := read_digits 0 s in
  int32_of (if neg : bool then Z.max (- v) (- 2 ^ 63) else Z.min v (2 ^ 63 - 1)).

(** [while (stream >> v)]: the numbers it reads. *)
Fixpoint read_all (fuel : nat) (s : list Z) : list Z :=
  match fuel with
  | O => []
  | S fuel => match read_u64 s with Some (v, s') => v :: read_all fuel s' | None => [] end
  end.

(** A file with one number per line. *)
Definition lines_of (ns : list Z) : list Z := concat ((fun n => to_string n ++ [10]) <$> ns).

(** ** Reading back what was written *)

Lemma is_digit_48 d : 0 <= d < 10 -> is_digit (48 + d) = true.
Proof. intros. unfold is_digit. apply andb_true_intro. split; apply Z.leb_le; lia. Qed.

Lemma read_digits_app acc ds s :
  Forall (fun c => is_digit c = true) ds -> starts_digit s = false ->
  read_digits acc (ds ++ s) = (fold_left (fun a c => 10 * a + (c - 48)) ds acc, s).
Proof.
  intros Hd Hs. revert acc. induction Hd as [|c ds Hc _ IH]; intros acc; simpl.
  - destruct s as [|c s]; [done|]. simpl in *. by rewrite Hs.
  - rewrite Hc. apply IH.
Qed.

(** The digits accumulate the number. *)
Lemma digits_from_spec fuel n acc :
  0 <= n < 10 ^ Z.of_nat fuel -> (0 < fuel)%nat ->
  exists ds, digits_from fuel n acc = ds ++ acc /\ ds <> [] /\ Forall (fun c => is_digit c = true) ds /\
    fold_left (fun a c => 10 * a + (c - 48)) ds 0 = n.
Proof.
  revert n acc. induction fuel as [|fuel IH]; intros n acc Hn Hf; [lia|]. cbn [digits_from].
  pose proof (Z.mod_pos_bound n 10 ltac:(lia)) as Hm. pose proof (Z.div_mod n 10 ltac:(lia)) as Hdm.
  destruct (Z.ltb_spec n 10) as [Hlt|Hge].
  - exists [48 + n mod 10]. split_and!; [done|done|by repeat constructor; apply is_digit_48|]. simpl. rewrite Z.mod_small in * by lia. lia.
  - rewrite Nat2Z.inj_succ, Z.pow_succ_r in Hn by lia.
    destruct fuel as [|fuel]; [simpl in Hn; lia|].
    destruct (IH (n / 10) (48 + n mod 10 :: acc)) as (ds & -> & Hne & Hd & Hv); [|lia|].
    { split; [apply Z.div_pos; lia|apply Z.div_lt_upper_bound; lia]. }
    exists (ds ++ [48 + n mod 10]). split_and!.
    + by rewrite <- app_assoc.
    + by destruct ds.
    + apply Forall_app. split; [done|]. repeat constructor. by apply is_digit_48.
    + rewrite fold_left_app, Hv. simpl. lia.
Qed.

Lemma to_string_spec n :
  0 <= n < 2 ^ 64 -> to_string n <> [] /\ Forall (fun c => is_digit c = true) (to_string n) /\
    fold_left (fun a c => 10 * a + (c - 48)) (to_string n) 0 = n.
Proof.
  intros Hn. destruct (digits_from_spec 20 n []) as (ds & Hds & Hne & Hd & Hv); [|lia|].
  - split; [lia|]. apply Z.lt_le_trans with (2 ^ 64); [lia|]. by vm_compute.
  - unfold to_string. rewrite Hds, app_nil_r. done.
Qed.

Lemma digit_not_space c : is_digit c = true -> is_space c = false /\ c <> 45 /\ c <> 43.
Proof.
  unfold is_digit, is_space. rewrite andb_true_iff, !Z.leb_le. intros [? ?]. split; [|lia].
  apply orb_false_intro; [apply Z.eqb_neq; lia|]. apply andb_false_iff. right. apply Z.leb_gt. lia.
Qed.

Lemma read_u64_line n s :
  0 <= n < 2 ^ 64 -> starts_digit s = false -> read_u64 (to_string n ++ s) = Some (n, s).
Proof.
  intros Hn Hs. destruct (to_string_spec n Hn) as (Hne & Hd & Hv). unfold read_u64.
  destruct (to_string n) as [|c ds] eqn:E; [done|]. pose proof (Forall_inv Hd) as Hc.
  destruct (digit_not_space c Hc) as (Hsp & H1 & H2). simpl. rewrite Hsp.
  rewrite (proj2 (Z.eqb_neq _ _) H1), (proj2 (Z.eqb_neq _ _) H2). cbn [starts_digit]. rewrite Hc.
  pose proof (read_digits_app 0 (c :: ds) s Hd Hs) as Hr. simpl in Hr. rewrite Hc in Hr. cbn [read_digits]. rewrite Hc. rewrite Hr.
  simpl in Hv. rewrite Hv. rewrite (proj2 (Z.ltb_lt _ _)) by lia. done.
Qed.

Lemma read_u64_newline n s : 0 <= n < 2 ^ 64 -> starts_digit s = false -> read_u64 (10 :: to_string n ++ s) = Some (n, s).
Proof. intros Hn Hs. rewrite <- (read_u64_line n s Hn Hs). done. Qed.

(** The numbers of a file with one per line. *)
Lemma read_all_lines fuel ns :
  Forall (fun n => 0 <= n < 2 ^ 64) ns -> (length ns < fuel)%nat ->
  forall s, (s = [] \/ s = [10]) -> read_all fuel (s ++ lines_of ns) = ns.
Proof.
  intros Hns. revert fuel. induction Hns as [|n ns Hn Hns IH]; intros fuel Hf s Hs; (destruct fuel as [|fuel]; [simpl in Hf; lia|]); cbn [read_all].
  - destruct Hs as [->| ->]; done.
  - assert (lines_of (n :: ns) = to_string n ++ [10] ++ lines_of ns) as -> by (unfold lines_of; simpl; by rewrite <- app_assoc).
    assert (read_u64 (s ++ to_string n ++ [10] ++ lines_of ns) = Some (n, [10] ++ lines_of ns)) as ->.
    { destruct Hs as [->| ->]; [by apply read_u64_line|by apply read_u64_newline]. }
    f_equal. apply IH; [simpl in Hf; lia|by right].
Qed.

(** ** A number read takes at least one character *)

Lemma length_skip_space s : (length (skip_space s) <= length s)%nat.
Proof. induction s as [|c s IH]; simpl; [done|]. destruct (is_space c); simpl; lia. Qed.

Lemma length_read_digits acc s : (length (read_digits acc s).2 <= length s)%nat.
Proof. revert acc. induction s as [|c s IH]; intros acc; simpl; [done|]. destruct (is_digit c); simpl; [|lia]. specialize (IH (10 * acc + (c - 48))). lia. Qed.

Lemma read_u64_shorter s v s' : read_u64 s = Some (v, s') -> (length s' < length s)%nat.
Proof.
  unfold read_u64. pose proof (length_skip_space s) as Hs. revert Hs. generalize (skip_space s). intros t Ht.
  assert (forall (b : bool) u, (length u <= length s)%nat ->
    (if starts_digit u then let (v, s') := read_digits 0 u in if v <? 2 ^ 64 then Some (if b then wrap 64 (- v) else v, s') else None else None)
      = Some (v, s') -> (length s' < length s)%nat) as Hu.
  { intros b [|c u] Hu; [done|]. cbn [starts_digit]. destruct (is_digit c) eqn:Hc; [|done]. cbn [read_digits]. rewrite Hc.
    pose proof (length_read_digits (10 * 0 + (c - 48)) u) as Hr. destruct (read_digits _ u) as [w u']. destruct (w <? 2 ^ 64); [|done].
    intros [= _ <-]. simpl in *. lia. }
  destruct t as [|c t]; [done|]. destruct (c =? 45); [apply (Hu true); simpl in *; lia|].
  destruct (c =? 43); [apply (Hu false); simpl in *; lia|]. by apply (Hu false).
Qed.

Lemma read_u64_word s v s' : read_u64 s = Some (v, s') -> word 64 v.
Proof.
  unfold read_u64. destruct (match skip_space s with [] => _ | _ :: _ => _ end) as [b u]. destruct (starts_digit u); [|done].
  destruct (read_digits 0 u) as [w u'] eqn:E. destruct (Z.ltb_spec w (2 ^ 64)) as [Hw|]; [|done]. intros [= <- _].
  destruct b; [by apply wrap_word|]. split; [|done].
  assert (forall a t, 0 <= a -> 0 <= (read_digits a t).1) as Hpos.
  { intros a t. revert a. induction t as [|c t IH]; intros a Ha; simpl; [done|]. destruct (is_digit c) eqn:Hc; [|done].
    apply IH. unfold is_digit in Hc. apply andb_prop in Hc as [Hc%Z.leb_le _]. lia. }
  specialize (Hpos 0 u). rewrite E in Hpos. apply Hpos. lia.
Qed.

(** Enough fuel reads everything. *)
Lemma read_all_fuel n m s : (length s < n)%nat -> (length s < m)%nat -> read_all n s = read_all m s.
Proof.
  revert m s. induction n as [|n IH]; intros [|m] s Hn Hm; try lia. simpl.
  destruct (read_u64 s) as [[v s']|] eqn:E; [|done]. apply read_u64_shorter in E. f_equal. apply IH; lia.
Qed.

(** The numbers of a text. *)
Definition numbers (s : list Z) : list Z := read_all (S (length s)) s.

Lemma numbers_cons s v s' : read_u64 s = Some (v, s') -> numbers s = v :: numbers s'.
Proof. intros E. unfold numbers. cbn [read_all]. rewrite E. f_equal. apply read_u64_shorter in E. apply (read_all_fuel (length s) (S (length s'))); lia. Qed.

Lemma numbers_nil s : read_u64 s = None -> numbers s = [].
Proof. intros E. unfold numbers. simpl. by rewrite E. Qed.
