(* ===== verification/Slice.v ===== *)
(** * Byte strings and their order

    [rocksdb::Slice] (include/rocksdb/slice.h) and the bytewise comparator
    (util/comparator.cc) by which every key of the experiments is ordered:
    comparison, the first difference, and the shortened keys of index blocks.
    A slice is the list of its bytes. *)

From S2P Require Import Prelude Words.

(** [memcmp(a, b, n)], the first [n] bytes of both. *)
Fixpoint memcmp (n : nat) (a b : list Z) : comparison :=
  match n, a, b with
  | S n, x :: a, y :: b => match x ?= y with Eq => memcmp n a b | c => c end
  | _, _, _ => Eq
  end.

Definition slice_compare (a b : list Z) : comparison :=
  let min_len := if (length a <? length b)%nat then length a else length b in
  match memcmp min_len a b with
  | Eq => if (length a <? length b)%nat then Lt else if (length b <? length a)%nat then Gt else Eq
  | r => r
  end.

Definition slice_eqb (a b : list Z) : bool :=
  (length a =? length b)%nat && (match memcmp (length a) a b with Eq => true | _ => false end).

Definition starts_with (a x : list Z) : bool :=
  (length x <=? length a)%nat && (match memcmp (length x) a x with Eq => true | _ => false end).

(** The loop of [difference_offset]: how many bytes agree from the front. *)
Fixpoint difference_offset (a b : list Z) : nat :=
  match a, b with
  | x :: a, y :: b => if x =? y then S (difference_offset a b) else O
  | _, _ => O
  end.

(** ** The bytewise comparator *)

(** The loop over the bytes after the first difference: increment the first
    one that is not 0xff and cut there. *)
Fixpoint separator_loop (fuel : nat) (start : list Z) (diff_index : nat) : list Z :=
  match fuel with
  | O => start
  | S fuel =>
      match start !! diff_index with
      | Some b => if b <? 255 then take (S diff_index) (<[diff_index := b + 1]> start)
                  else separator_loop fuel start (S diff_index)
      | None => start
      end
  end.

(** The result is the new value of [*start]. *)
Definition FindShortestSeparator (start limit : list Z) : result (list Z) :=
  let min_length := Nat.min (length start) (length limit) in
  let diff_index := difference_offset start limit in
  if (min_length <=? diff_index)%nat then Ok start
  else match start !! diff_index, limit !! diff_index with
       | Some start_byte, Some limit_byte =>
           if limit_byte <=? start_byte then Ok start
           else
             let start' :=
               if (diff_index <? length limit - 1)%nat || (start_byte + 1 <? limit_byte)
               then take (S diff_index) (<[diff_index := wrap 8 (start_byte + 1)]> start)
               else separator_loop (length start) start (S diff_index) in
             match slice_compare start' limit with Lt => Ok start' | _ => Err EAssert end
       | _, _ => Err EBounds
       end.

(** The result is the new value of [*key]. *)
Fixpoint FindShortSuccessor (key : list Z) : list Z :=
  match key with
  | [] => []
  | byte :: key' => if byte =? 255 then byte :: FindShortSuccessor key' else [wrap 8 (byte + 1)]
  end.

Definition IsSameLengthImmediateSuccessor (s t : list Z) : bool :=
  if negb (length s =? length t)%nat || (length s =? 0)%nat then false
  else
    let diff_ind := difference_offset s t in
    match s !! diff_ind, t !! diff_ind with
    | Some byte_s, Some byte_t =>
        if negb (byte_s =? 255) && (byte_s + 1 =? byte_t) then
          forallb (fun p => (p.1 =? 255) && (p.2 =? 0)) (zip (drop (S diff_ind) s) (drop (S diff_ind) t))
        else false
    | _, _ => false
    end.

(** ** The order: lexicographic *)

Fixpoint bytes_cmp (a b : list Z) : comparison :=
  match a, b with
  | [], [] => Eq
  | [], _ => Lt
  | _, [] => Gt
  | x :: a, y :: b => match x ?= y with Eq => bytes_cmp a b | c => c end
  end.

Definition bytes_le (a b : list Z) : Prop := bytes_cmp a b <> Gt.

Lemma slice_compare_lex a b : slice_compare a b = bytes_cmp a b.
Proof.
  revert b. unfold slice_compare. induction a as [|x a IH]; intros [|y b]; try done. cbn [length bytes_cmp].
  specialize (IH b). change (S (length a) <? S (length b))%nat with (length a <? length b)%nat.
  change (S (length b) <? S (length a))%nat with (length b <? length a)%nat.
  destruct (length a <? length b)%nat; cbn [memcmp]; destruct (x ?= y); auto.
Qed.

Lemma bytes_cmp_refl a : bytes_cmp a a = Eq.
Proof. induction a as [|x a IH]; simpl; [done|]. by rewrite Z.compare_refl. Qed.

Lemma bytes_cmp_eq a b : bytes_cmp a b = Eq -> a = b.
Proof.
  revert b. induction a as [|x a IH]; intros [|y b]; simpl; try done.
  destruct (Z.compare_spec x y) as [->| |]; try done. intros H. f_equal. by apply IH.
Qed.

Lemma bytes_cmp_anti a b : bytes_cmp b a = CompOpp (bytes_cmp a b).
Proof.
  revert b. induction a as [|x a IH]; intros [|y b]; simpl; try done.
  rewrite (Z.compare_antisym x y). destruct (x ?= y); simpl; auto.
Qed.

Lemma bytes_cmp_app p a b : bytes_cmp (p ++ a) (p ++ b) = bytes_cmp a b.
Proof. induction p as [|x p IH]; simpl; [done|]. by rewrite Z.compare_refl. Qed.

Lemma bytes_lt_trans a b c : bytes_cmp a b = Lt -> bytes_cmp b c = Lt -> bytes_cmp a c = Lt.
Proof.
  revert b c. induction a as [|x a IH]; intros [|y b] [|z c]; simpl; try done.
  destruct (Z.compare_spec x y), (Z.compare_spec y z), (Z.compare_spec x z); try done; try lia. intros. by eapply IH.
Qed.

(** Strings of the same length are ordered as the numbers they are in
    big-endian notation. *)
Definition be_value (bs : list Z) : Z := le_value (rev bs).

Lemma be_value_cons x bs : be_value (x :: bs) = x * 2 ^ (8 * Z.of_nat (length bs)) + be_value bs.
Proof.
  unfold be_value. simpl. rewrite <- (length_rev bs). generalize (rev bs). intros l.
  induction l as [|y l IH]; [simpl; lia|]. cbn [app le_value length].
  rewrite IH, Nat2Z.inj_succ. replace (8 * Z.succ (Z.of_nat (length l))) with (8 + 8 * Z.of_nat (length l)) by lia.
  rewrite Z.pow_add_r by lia. lia.
Qed.

Lemma be_value_bound bs : Forall byte_ok bs -> 0 <= be_value bs < 2 ^ (8 * Z.of_nat (length bs)).
Proof. intros H. unfold be_value. rewrite <- (length_rev bs). apply le_value_bound. by apply Forall_rev. Qed.

Lemma bytes_cmp_be a b :
  Forall byte_ok a -> Forall byte_ok b -> length a = length b -> bytes_cmp a b = (be_value a ?= be_value b).
Proof.
  intros Ha. revert b. induction Ha as [|x a Hx Ha IH]; intros b Hb Hl; destruct b as [|y b]; try done.
  inversion Hb as [|? ? Hy Hb']; subst. injection Hl as Hl. cbn [bytes_cmp]. rewrite !be_value_cons, Hl, IH by done.
  pose proof (be_value_bound a Ha) as Ba. pose proof (be_value_bound b Hb') as Bb. rewrite Hl in Ba.
  set (P := 2 ^ (8 * Z.of_nat (length b))) in *. clearbody P. symmetry.
  destruct (Z.compare_spec x y) as [->|Hc|Hc].
  - destruct (Z.compare_spec (be_value a) (be_value b)); [apply Z.compare_eq_iff|apply Z.compare_lt_iff|apply Z.compare_gt_iff]; lia.
  - apply Z.compare_lt_iff. assert (P * (x + 1) <= P * y) by (apply Z.mul_le_mono_nonneg_l; lia). lia.
  - apply Z.compare_gt_iff. assert (P * (y + 1) <= P * x) by (apply Z.mul_le_mono_nonneg_l; lia). lia.
Qed.

(** ** Shortened keys *)

(** Where two strings first differ. *)
Lemma difference_split a b :
  exists p a' b', a = p ++ a' /\ b = p ++ b' /\ difference_offset a b = length p /\
    (a' = [] \/ b' = [] \/ exists x y a'' b'', a' = x :: a'' /\ b' = y :: b'' /\ x <> y).
Proof.
  revert b. induction a as [|x a IH]; intros b; [exists [], [], b; by auto|].
  destruct b as [|y b]; [exists [], (x :: a), []; by auto 10|]. simpl. destruct (Z.eqb_spec x y) as [->|Hne].
  - destruct (IH b) as (p & a' & b' & -> & -> & -> & H). by exists (y :: p), a', b'.
  - exists [], (x :: a), (y :: b). split_and!; auto. right. right. by exists x, y, a, b.
Qed.

(** What the loop of the separator makes of the bytes it looks at. *)
Fixpoint bump (r : list Z) : list Z :=
  match r with
  | [] => []
  | b :: r => if b <? 255 then [b + 1] else b :: bump r
  end.

Lemma cut_at p (x y : Z) r : take (S (length p)) (<[length p := y]> (p ++ x :: r)) = p ++ [y].
Proof.
  rewrite insert_app_r_alt, Nat.sub_diag by done. simpl.
  rewrite take_app_ge by lia. by rewrite Nat.sub_succ_l, Nat.sub_diag.
Qed.

Lemma separator_loop_bump fuel q r : (length r <= fuel)%nat -> separator_loop fuel (q ++ r) (length q) = q ++ bump r.
Proof.
  revert q r. induction fuel as [|fuel IH]; intros q r Hr.
  - destruct r; [done|simpl in Hr; lia].
  - destruct r as [|b r]; cbn [separator_loop bump].
    + by rewrite app_nil_r, (lookup_ge_None_2 q) by lia.
    + rewrite list_lookup_middle by done. destruct (b <? 255); [by rewrite cut_at|].
      replace (q ++ b :: r) with ((q ++ [b]) ++ r) by by rewrite <- app_assoc.
      replace (S (length q)) with (length (q ++ [b])) by (rewrite length_app, Nat.add_comm; done).
      rewrite IH by (simpl in Hr; lia). by rewrite <- app_assoc.
Qed.

Lemma bytes_cmp_cons_lt x y a b : x < y -> bytes_cmp (x :: a) (y :: b) = Lt.
Proof. intros H. simpl. by rewrite (proj2 (Z.compare_lt_iff x y) H). Qed.

Lemma bump_le r : bytes_le r (bump r).
Proof.
  unfold bytes_le. induction r as [|b r IH]; [done|]. cbn [bump]. destruct (b <? 255).
  - rewrite bytes_cmp_cons_lt by lia. done.
  - simpl. by rewrite Z.compare_refl.
Qed.

Lemma length_bump r : (length (bump r) <= length r)%nat.
Proof. induction r as [|b r IH]; simpl; [lia|]. destruct (b <? 255); simpl; lia. Qed.

Lemma bytes_le_app p a b : bytes_le a b -> bytes_le (p ++ a) (p ++ b).
Proof. unfold bytes_le. by rewrite bytes_cmp_app. Qed.

Lemma FindShortestSeparator_ok start limit :
  Forall byte_ok start -> Forall byte_ok limit -> bytes_cmp start limit = Lt ->
  exists s, FindShortestSeparator start limit = Ok s /\ bytes_le start s /\ bytes_cmp s limit = Lt /\
    (length s <= length start)%nat.
Proof.
  intros Hs Hl Hlt. destruct (difference_split start limit) as (p & a & b & -> & -> & Hd & Hab).
  unfold FindShortestSeparator. rewrite Hd, !length_app.
  assert (bytes_le (p ++ a) (p ++ a)) as Hrefl by (unfold bytes_le; by rewrite bytes_cmp_refl).
  destruct Hab as [->|[->|(x & y & a' & b' & -> & -> & Hne)]].
  { rewrite (proj2 (Nat.leb_le _ _)) by (simpl; lia). eexists. split_and!; [done|done|done|rewrite length_app; lia]. }
  { rewrite (proj2 (Nat.leb_le _ _)) by (simpl; lia). eexists. split_and!; [done|done|done|rewrite length_app; lia]. }
  rewrite (proj2 (Nat.leb_gt _ _)) by (simpl; lia). rewrite !list_lookup_middle by done.
  rewrite bytes_cmp_app in Hlt. simpl in Hlt. destruct (Z.compare_spec x y) as [|Hxy|]; try done; [].
  rewrite (proj2 (Z.leb_gt _ _)) by lia.
  apply Forall_app in Hl as [_ Hy]. inversion Hy as [|? ? [Hy0 Hy1] _]; subst.
  apply Forall_app in Hs as [_ Hx]. inversion Hx as [|? ? [Hx0 Hx1] _]; subst.
  destruct (((length p <? length p + length (y :: b') - 1)%nat || (x + 1 <? y))) eqn:Hc.
  - rewrite cut_at. assert (wrap 8 (x + 1) = x + 1) as -> by (apply wrap_id; split; lia).
    assert (bytes_cmp (p ++ [x + 1]) (p ++ y :: b') = Lt) as HL.
    { rewrite bytes_cmp_app. destruct (Z.lt_ge_cases (x + 1) y); [by apply bytes_cmp_cons_lt|].
      apply orb_prop in Hc as [Hc|Hc]; [|apply Z.ltb_lt in Hc; lia]. apply Nat.ltb_lt in Hc. simpl in Hc.
      assert (x + 1 = y) as -> by lia. simpl. rewrite Z.compare_refl. destruct b'; [simpl in Hc; lia|done]. }
    rewrite slice_compare_lex, HL. exists (p ++ [x + 1]). split_and!; [done| |done|rewrite length_app; simpl; lia].
    apply bytes_le_app. unfold bytes_le. rewrite bytes_cmp_cons_lt by lia. done.
  - replace (p ++ x :: a') with ((p ++ [x]) ++ a') by by rewrite <- app_assoc.
    replace (S (length p)) with (length (p ++ [x])) by (rewrite length_app; simpl; lia).
    rewrite separator_loop_bump by (simpl; lia).
    assert (bytes_cmp ((p ++ [x]) ++ bump a') (p ++ y :: b') = Lt) as HL.
    { rewrite <- app_assoc, bytes_cmp_app. by apply bytes_cmp_cons_lt. }
    rewrite slice_compare_lex, HL. exists ((p ++ [x]) ++ bump a'). split_and!; [done| |done|].
    + apply bytes_le_app, bump_le.
    + rewrite !length_app. pose proof (length_bump a'). simpl. lia.
Qed.

Lemma FindShortSuccessor_ok key :
  Forall byte_ok key -> bytes_le key (FindShortSuccessor key) /\ (length (FindShortSuccessor key) <= length key)%nat.
Proof.
  induction 1 as [|b key [H0 H1] _ [IH1 IH2]]; simpl; [done|]. destruct (Z.eqb_spec b 255); simpl.
  - split; [|lia]. unfold bytes_le in *. simpl. by rewrite Z.compare_refl.
  - split; [|lia]. rewrite wrap_id by (split; lia). unfold bytes_le. rewrite bytes_cmp_cons_lt by lia. done.
Qed.

(** ** Immediate successors *)

Lemma be_value_app p a : be_value (p ++ a) = be_value p * 2 ^ (8 * Z.of_nat (length a)) + be_value a.
Proof.
  induction p as [|x p IH]; [done|]. cbn [app]. rewrite !be_value_cons, IH, length_app, Nat2Z.inj_add, Z.mul_add_distr_l, Z.pow_add_r by lia. lia.
Qed.

(** All bytes 0xff, all bytes 0: the largest and the smallest tail. *)
Lemma run_tails a b :
  Forall byte_ok a -> Forall byte_ok b -> length a = length b ->
  forallb (fun p => (p.1 =? 255) && (p.2 =? 0)) (zip a b) = true <->
  be_value a = 2 ^ (8 * Z.of_nat (length a)) - 1 /\ be_value b = 0.
Proof.
  intros Ha. revert b. induction Ha as [|x a [Hx0 Hx1] Ha IH]; intros b Hb Hl; (destruct b as [|y b]; try done).
  inversion Hb as [|? ? [Hy0 Hy1] Hb']; subst. injection Hl as Hl. cbn [zip zip_with forallb fst snd].
  change (zip_with pair a b) with (zip a b).
  rewrite andb_true_iff, IH, andb_true_iff, !Z.eqb_eq, !be_value_cons by done.
  pose proof (be_value_bound a Ha). pose proof (be_value_bound b Hb') as HB. rewrite <- Hl in *. cbn [length].
  rewrite Nat2Z.inj_succ. replace (8 * Z.succ (Z.of_nat (length a))) with (8 + 8 * Z.of_nat (length a)) by lia.
  rewrite Z.pow_add_r by lia. change (2 ^ 8) with 256. set (P := 2 ^ (8 * Z.of_nat (length a))) in *. clearbody P.
  split; [intros [[-> ->] [-> ->]]; lia|intros [H1 H2]]. assert (x = 255) by nia. assert (y = 0) by nia. subst. lia.
Qed.

Lemma IsSameLengthImmediateSuccessor_ok s t :
  Forall byte_ok s -> Forall byte_ok t ->
  IsSameLengthImmediateSuccessor s t = true <-> length s = length t /\ be_value t = be_value s + 1.
Proof.
  intros Hs Ht. unfold IsSameLengthImmediateSuccessor.
  destruct (Nat.eqb_spec (length s) (length t)) as [Hl|Hl]; [|by split; [done|intros []]]. cbn [negb orb].
  destruct (Nat.eqb_spec (length s) 0) as [H0|H0].
  { destruct s, t; try done. split; [done|]. intros [_ H]. done. }
  destruct (difference_split s t) as (p & a & b & -> & -> & -> & Hab).
  rewrite !length_app in Hl. assert (length a = length b) as Hab' by lia. rewrite !be_value_app, !length_app, <- Hab'.
  apply Forall_app in Hs as [_ Ha]. apply Forall_app in Ht as [_ Hb].
  destruct Hab as [->|[->|(x & y & a' & b' & -> & -> & Hne)]].
  { destruct b; [|done]. rewrite app_nil_r, (lookup_ge_None_2 p) by lia. split; [done|]. intros [_ H]. lia. }
  { destruct a; [|done]. rewrite app_nil_r, (lookup_ge_None_2 p) by lia. split; [done|]. intros [_ H]. lia. }
  rewrite !list_lookup_middle by done. inversion Ha as [|? ? [Hx0 Hx1] Ha']; subst. inversion Hb as [|? ? [Hy0 Hy1] Hb']; subst.
  injection Hab' as Hab'. rewrite !be_value_cons, <- Hab'.
  pose proof (be_value_bound a' Ha') as Ba. pose proof (be_value_bound b' Hb') as Bb. rewrite <- Hab' in Bb.
  rewrite !drop_app_ge by lia. rewrite !Nat.sub_succ_l, !Nat.sub_diag by lia. simpl drop. rewrite !drop_0.
  pose proof (run_tails a' b' Ha' Hb' Hab') as Hrun. set (P := 2 ^ (8 * Z.of_nat (length a'))) in *. clearbody P.
  destruct (negb (x =? 255) && (x + 1 =? y)) eqn:Hc.
  - apply andb_prop in Hc as [_ Hc]. apply Z.eqb_eq in Hc as <-. rewrite Hrun. split; [intros [-> ->]; lia|]. intros [_ H]. lia.
  - split; [done|]. intros [_ H]. exfalso. apply andb_false_iff in Hc as [Hc|Hc].
    + apply negb_false_iff, Z.eqb_eq in Hc as ->. assert (y < 255) by lia. nia.
    + apply Z.eqb_neq in Hc. destruct (Z.lt_ge_cases x y); nia.
Qed.

(** ** Index keys *)

(** C40. The shortened keys of index blocks: the separator [FindShortestSeparator]
    puts between two keys is at least the first, below the second and not
    longer than the first, and its assertion holds; the key
    [FindShortSuccessor] gives is at least its argument and not longer; and
    [IsSameLengthImmediateSuccessor] recognises exactly the keys of one length
    that are consecutive as big-endian numbers. *)
Theorem comparator_shortens start limit :
  Forall byte_ok start -> Forall byte_ok limit -> slice_compare start limit = Lt ->
  (exists s, FindShortestSeparator start limit = Ok s /\ slice_compare start s <> Gt /\ slice_compare s limit = Lt /\ (length s <= length start)%nat) /\
  slice_compare start (FindShortSuccessor start) <> Gt /\ (length (FindShortSuccessor start) <= length start)%nat /\
  (IsSameLengthImmediateSuccessor start limit = true <-> length start = length limit /\ be_value limit = be_value start + 1).
Proof.
  intros Hs Hl Hlt. rewrite slice_compare_lex in Hlt. destruct (FindShortestSeparator_ok start limit Hs Hl Hlt) as (s & Hrun & Hle & Hsl & Hlen).
  destruct (FindShortSuccessor_ok start Hs) as [Hsucc Hsl']. split_and!.
  - exists s. rewrite !slice_compare_lex. done.
  - by rewrite slice_compare_lex.
  - done.
  - by apply IsSameLengthImmediateSuccessor_ok.
Qed.

Lemma comparator_shortens_witness :
  exists s, FindShortestSeparator [1; 2; 3; 4] [1; 2; 9] = Ok s /\ slice_compare s [1; 2; 9] = Lt.
Proof.
  destruct (comparator_shortens [1; 2; 3; 4] [1; 2; 9]) as [(s & Hs & _ & Hl & _) _];
    [repeat constructor; vm_compute; congruence|repeat constructor; vm_compute; congruence|reflexivity|]. by exists s.
Defined.
