(* ===== verification/Coding.v ===== *)
(** * The encodings of RocksDB's files

    Fixed-width and variable-width numbers and length-prefixed strings, as
    util/coding_lean.h, util/coding.h and util/coding.cc write and parse them.
    A [std::string] or a [Slice] is the list of its bytes; a parser returns the
    value and the bytes behind it, [None] where the code returns [false] or a
    null pointer. *)

From S2P Require Import Prelude Words.

(** [port::kLittleEndian] of the machine the code is built for. *)
Class Port := kLittleEndian : bool.

(** The [w]-bit two's complement number of an unsigned one. *)
Definition to_signed (w x : Z) : Z := if x <? 2 ^ (w - 1) then x else x - 2 ^ w.

(** Bytes that are written into a [char buf[size]] on the stack. *)
Definition into_buf (size : nat) (bs : list Z) : result (list Z) :=
  if (length bs <=? size)%nat then Ok bs else Err EBounds.

Section coding.
Context {port : Port}.

(** ** Fixed width

    [memcpy] of an integer copies its bytes in the order of the machine, which
    is the little-endian one in the first branches. *)
Definition EncodeFixed16 (value : Z) : list Z :=
  if kLittleEndian then le_bytes 2 value
  else [Z.land value 0xff; Z.land (Z.shiftr value 8) 0xff].

Definition EncodeFixed32 (value : Z) : list Z :=
  if kLittleEndian then le_bytes 4 value
  else [Z.land value 0xff; Z.land (Z.shiftr value 8) 0xff; Z.land (Z.shiftr value 16) 0xff; Z.land (Z.shiftr value 24) 0xff].

Definition EncodeFixed64 (value : Z) : list Z :=
  if kLittleEndian then le_bytes 8 value
  else [Z.land value 0xff; Z.land (Z.shiftr value 8) 0xff; Z.land (Z.shiftr value 16) 0xff; Z.land (Z.shiftr value 24) 0xff;
        Z.land (Z.shiftr value 32) 0xff; Z.land (Z.shiftr value 40) 0xff; Z.land (Z.shiftr value 48) 0xff; Z.land (Z.shiftr value 56) 0xff].

(** [memcpy(&result, ptr, n)] on a little-endian machine. *)
Definition load_le (n : nat) (ptr : list Z) : result Z :=
  if (n <=? length ptr)%nat then Ok (le_value (take n ptr)) else Err EBounds.

Definition DecodeFixed16 (ptr : list Z) : result Z :=
  if kLittleEndian then load_le 2 ptr
  else match ptr with
       | p0 :: p1 :: _ => Ok (Z.lor p0 (wshl 16 p1 8))
       | _ => Err EBounds
       end.

Definition DecodeFixed32 (ptr : list Z) : result Z :=
  if kLittleEndian then load_le 4 ptr
  else match ptr with
       | p0 :: p1 :: p2 :: p3 :: _ => Ok (Z.lor (Z.lor (Z.lor p0 (wshl 32 p1 8)) (wshl 32 p2 16)) (wshl 32 p3 24))
       | _ => Err EBounds
       end.

Definition DecodeFixed64 (ptr : list Z) : result Z :=
  if kLittleEndian then load_le 8 ptr
  else let? lo := DecodeFixed32 ptr in
       let? hi := DecodeFixed32 (drop 4 ptr) in
       Ok (Z.lor (wshl 64 hi 32) lo).

Definition PutFixed16 (dst : list Z) (value : Z) : list Z :=
  if kLittleEndian then dst ++ le_bytes 2 value else dst ++ EncodeFixed16 value.
Definition PutFixed32 (dst : list Z) (value : Z) : list Z :=
  if kLittleEndian then dst ++ le_bytes 4 value else dst ++ EncodeFixed32 value.
Definition PutFixed64 (dst : list Z) (value : Z) : list Z :=
  if kLittleEndian then dst ++ le_bytes 8 value else dst ++ EncodeFixed64 value.

Definition GetFixed64 (input : list Z) : option (Z * list Z) :=
  if (length input <? 8)%nat then None
  else match DecodeFixed64 input with Ok value => Some (value, drop 8 input) | Err _ => None end.
Definition GetFixed32 (input : list Z) : option (Z * list Z) :=
  if (length input <? 4)%nat then None
  else match DecodeFixed32 input with Ok value => Some (value, drop 4 input) | Err _ => None end.
Definition GetFixed16 (input : list Z) : option (Z * list Z) :=
  if (length input <? 2)%nat then None
  else match DecodeFixed16 input with Ok value => Some (value, drop 2 input) | Err _ => None end.

End coding.

(** ** Variable width: seven bits a byte, the highest bit on all but the last *)

(** The store of an integer into an [unsigned char]. *)
Definition uchar (v : Z) : Z := wrap 8 v.

Definition EncodeVarint32 (v : Z) : list Z :=
  let B := 128 in
  if v <? Z.shiftl 1 7 then [uchar v]
  else if v <? Z.shiftl 1 14 then [uchar (Z.lor v B); uchar (Z.shiftr v 7)]
  else if v <? Z.shiftl 1 21 then [uchar (Z.lor v B); uchar (Z.lor (Z.shiftr v 7) B); uchar (Z.shiftr v 14)]
  else if v <? Z.shiftl 1 28 then
    [uchar (Z.lor v B); uchar (Z.lor (Z.shiftr v 7) B); uchar (Z.lor (Z.shiftr v 14) B); uchar (Z.shiftr v 21)]
  else [uchar (Z.lor v B); uchar (Z.lor (Z.shiftr v 7) B); uchar (Z.lor (Z.shiftr v 14) B); uchar (Z.lor (Z.shiftr v 21) B);
        uchar (Z.shiftr v 28)].

(** The loop of [EncodeVarint64]. *)
Fixpoint EncodeVarint64_loop (fuel : nat) (v : Z) : result (list Z) :=
  match fuel with
  | O => Err EFuel
  | S fuel =>
      if 128 <=? v then
        let? bs := EncodeVarint64_loop fuel (Z.shiftr v 7) in
        Ok (uchar (Z.lor (Z.land v 127) 128) :: bs)
      else Ok [uchar v]
  end.

(** Every round shifts out seven of the 64 bits. *)
Definition EncodeVarint64 (v : Z) : result (list Z) := EncodeVarint64_loop 10 v.

Definition kMaxVarint64Length : nat := 10.

Definition PutVarint32 (dst : list Z) (v : Z) : result (list Z) :=
  let? buf := into_buf 5 (EncodeVarint32 v) in Ok (dst ++ buf).
Definition PutVarint32Varint32 (dst : list Z) (v1 v2 : Z) : result (list Z) :=
  let? buf := into_buf 10 (EncodeVarint32 v1 ++ EncodeVarint32 v2) in Ok (dst ++ buf).
Definition PutVarint32Varint32Varint32 (dst : list Z) (v1 v2 v3 : Z) : result (list Z) :=
  let? buf := into_buf 15 (EncodeVarint32 v1 ++ EncodeVarint32 v2 ++ EncodeVarint32 v3) in Ok (dst ++ buf).
Definition PutVarint64 (dst : list Z) (v : Z) : result (list Z) :=
  let? b := EncodeVarint64 v in
  let? buf := into_buf kMaxVarint64Length b in Ok (dst ++ buf).
Definition PutVarint64Varint64 (dst : list Z) (v1 v2 : Z) : result (list Z) :=
  let? b1 := EncodeVarint64 v1 in let? b2 := EncodeVarint64 v2 in
  let? buf := into_buf 20 (b1 ++ b2) in Ok (dst ++ buf).
Definition PutVarint32Varint64 (dst : list Z) (v1 v2 : Z) : result (list Z) :=
  let? b2 := EncodeVarint64 v2 in
  let? buf := into_buf 15 (EncodeVarint32 v1 ++ b2) in Ok (dst ++ buf).
Definition PutVarint32Varint32Varint64 (dst : list Z) (v1 v2 v3 : Z) : result (list Z) :=
  let? b3 := EncodeVarint64 v3 in
  let? buf := into_buf 20 (EncodeVarint32 v1 ++ EncodeVarint32 v2 ++ b3) in Ok (dst ++ buf).

(** Signed numbers: zigzag. *)
Definition i64ToZigzag (l : Z) : Z := Z.lxor (wshl 64 (wrap 64 l) 1) (wrap 64 (Z.shiftr l 63)).
Definition zigzagToI64 (n : Z) : Z := to_signed 64 (Z.lxor (Z.shiftr n 1) (wrap 64 (- Z.land n 1))).

Definition PutVarsignedint64 (dst : list Z) (v : Z) : result (list Z) :=
  let? b := EncodeVarint64 (i64ToZigzag v) in
  let? buf := into_buf kMaxVarint64Length b in Ok (dst ++ buf).

(** The parsing loops, for a word of [w] bits: the next byte is shifted by
    [shift], and [n] rounds are to go until the shift passes its limit. *)
Fixpoint varint_loop (w : Z) (n : nat) (p : list Z) (shift acc : Z) : option (Z * list Z) :=
  match n, p with
  | S n, byte :: p =>
      if negb (Z.land byte 128 =? 0) then varint_loop w n p (shift + 7) (Z.lor acc (wshl w (Z.land byte 127) shift))
      else Some (Z.lor acc (wshl w byte shift), p)
  | _, _ => None
  end.

(** Shifts 0, 7, ..., 28. *)
Definition GetVarint32PtrFallback (p : list Z) : option (Z * list Z) := varint_loop 32 5 p 0 0.
(** Shifts 0, 7, ..., 63. *)
Definition GetVarint64Ptr (p : list Z) : option (Z * list Z) := varint_loop 64 10 p 0 0.

Definition GetVarint32Ptr (p : list Z) : option (Z * list Z) :=
  match p with
  | byte :: p' => if Z.land byte 128 =? 0 then Some (byte, p') else GetVarint32PtrFallback p
  | [] => GetVarint32PtrFallback p
  end.

(** The value is stored also when parsing fails; then it is that of 0. *)
Definition GetVarsignedint64Ptr (p : list Z) : Z * option (list Z) :=
  match GetVarint64Ptr p with
  | Some (u, q) => (zigzagToI64 u, Some q)
  | None => (zigzagToI64 0, None)
  end.

Definition GetVarint32 (input : list Z) : option (Z * list Z) := GetVarint32Ptr input.
Definition GetVarint64 (input : list Z) : option (Z * list Z) := GetVarint64Ptr input.
Definition GetVarsignedint64 (input : list Z) : option (Z * list Z) :=
  match GetVarsignedint64Ptr input with
  | (value, Some q) => Some (value, q)
  | (_, None) => None
  end.

(** The loop of [VarintLength]. *)
Fixpoint VarintLength_loop (fuel : nat) (v len : Z) : result Z :=
  match fuel with
  | O => Err EFuel
  | S fuel => if 128 <=? v then VarintLength_loop fuel (Z.shiftr v 7) (len + 1) else Ok len
  end.
Definition VarintLength (v : Z) : result Z := VarintLength_loop 10 v 1.

(** ** Strings behind their length *)

Definition PutLengthPrefixedSlice (dst value : list Z) : result (list Z) :=
  let? dst := PutVarint32 dst (wrap 32 (Z.of_nat (length value))) in
  Ok (dst ++ value).

(** [total_bytes] counts the bytes the caller is going to append. *)
Definition PutLengthPrefixedSliceParts_from (dst : list Z) (total_bytes : Z) (parts : list (list Z)) : result (list Z) :=
  let total_bytes := foldl (fun t part => wadd 64 t (Z.of_nat (length part))) total_bytes parts in
  let? dst := PutVarint32 dst (wrap 32 total_bytes) in
  Ok (foldl app dst parts).
Definition PutLengthPrefixedSliceParts (dst : list Z) (parts : list (list Z)) : result (list Z) :=
  PutLengthPrefixedSliceParts_from dst 0 parts.
Definition PutLengthPrefixedSlicePartsWithPadding (dst : list Z) (parts : list (list Z)) (pad_sz : nat) : result (list Z) :=
  let? dst := PutLengthPrefixedSliceParts_from dst (Z.of_nat pad_sz) parts in
  Ok (dst ++ replicate pad_sz 0).

(** The slice read and the rest of the input. *)
Definition GetLengthPrefixedSlice (input : list Z) : option (list Z * list Z) :=
  match GetVarint32 input with
  | Some (len, input) =>
      if len <=? Z.of_nat (length input) then Some (take (Z.to_nat len) input, drop (Z.to_nat len) input) else None
  | None => None
  end.

(** The variant for data that is known to be well-formed, which looks at five
    bytes and does not know where the data ends. *)
Definition GetLengthPrefixedSlice_raw (data : list Z) : result (list Z) :=
  match GetVarint32Ptr (take 5 data) with
  | Some (len, q) =>
      let p := drop (length (take 5 data) - length q) data in
      if (Z.to_nat len <=? length p)%nat then Ok (take (Z.to_nat len) p) else Err EBounds
  | None => if (5 <=? length data)%nat then Ok [] else Err EBounds
  end.

(** The loop of [GetSliceUntil]: the position of the delimiter or the end. *)
Fixpoint until_loop (delimiter : Z) (data : list Z) : nat :=
  match data with
  | [] => O
  | c :: data => if c =? delimiter then O else S (until_loop delimiter data)
  end.
Definition GetSliceUntil (slice : list Z) (delimiter : Z) : list Z * list Z :=
  let len := until_loop delimiter slice in
  (take len slice, drop (len + (if (len <? length slice)%nat then 1 else 0)) slice).

(** ** Numbers in base 128 *)

(** The canonical variable-width encoding, of at most [n] bytes. *)
Fixpoint varint (n : nat) (v : Z) : list Z :=
  match n with
  | O => []
  | S n => if v <? 128 then [v] else v mod 128 + 128 :: varint n (v / 128)
  end.

Lemma continued v : uchar (Z.lor v 128) = v mod 128 + 128.
Proof.
  unfold uchar, wrap. rewrite <- (Z.land_ones (Z.lor v 128) 8), Z.land_lor_distr_l, Z.land_ones by lia.
  change (2 ^ 8) with 256. change (Z.land 128 (Z.ones 8)) with 128.
  pose proof (byte_forallb (fun b => Z.lor b 128 =? b mod 128 + 128) (v mod 256) eq_refl (Z.mod_pos_bound v 256 ltac:(lia))) as H.
  apply Z.eqb_eq in H. rewrite H. div_lia.
Qed.

Lemma last_byte v : 0 <= v < 128 -> uchar v = v.
Proof. intros H. apply Z.mod_small. change (2 ^ 8) with 256. lia. Qed.

Lemma marked b : byte_ok b -> (Z.land b 128 =? 0) = (b <? 128).
Proof. intros Hb. apply Bool.eqb_prop. by apply (byte_forallb (fun b => Bool.eqb (Z.land b 128 =? 0) (b <? 128)) b). Qed.

Lemma EncodeVarint64_loop_ok n v : (0 < n)%nat -> word (7 * Z.of_nat n) v -> EncodeVarint64_loop n v = Ok (varint n v).
Proof.
  revert v. induction n as [|n IH]; intros v Hn Hv; [lia|]. unfold word in *. cbn [EncodeVarint64_loop varint].
  destruct (Z.leb_spec 128 v), (Z.ltb_spec v 128); try lia; [|rewrite last_byte by lia; done].
  replace (7 * Z.of_nat (S n)) with (7 + 7 * Z.of_nat n) in Hv by lia. rewrite Z.pow_add_r in Hv by lia. change (2 ^ 7) with 128 in Hv.
  rewrite Z.shiftr_div_pow2 by lia. change (2 ^ 7) with 128. rewrite IH.
  - simpl. do 2 f_equal. change 127 with (Z.ones 7). rewrite Z.land_ones, continued by lia. change (2 ^ 7) with 128. by rewrite Z.mod_mod.
  - destruct n; [simpl in Hv; lia|lia].
  - split; [apply Z.div_pos; lia|]. apply Z.div_lt_upper_bound; lia.
Qed.

(** More room does not change the encoding. *)
Lemma varint_more n m v : (0 < n <= m)%nat -> word (7 * Z.of_nat n) v -> varint m v = varint n v.
Proof.
  revert m v. induction n as [|n IH]; intros m v Hn Hv; [lia|]. destruct m as [|m]; [lia|]. unfold word in *. cbn [varint].
  destruct (Z.ltb_spec v 128); [done|]. f_equal.
  replace (7 * Z.of_nat (S n)) with (7 + 7 * Z.of_nat n) in Hv by lia. rewrite Z.pow_add_r in Hv by lia. change (2 ^ 7) with 128 in Hv.
  apply IH; [destruct n; [simpl in Hv; lia|lia]|]. split; [apply Z.div_pos; lia|]. apply Z.div_lt_upper_bound; lia.
Qed.

Lemma EncodeVarint32_ok v : word 32 v -> EncodeVarint32 v = varint 5 v.
Proof.
  intros [H0 H1]. change (2 ^ 32) with 4294967296 in H1. unfold EncodeVarint32. rewrite !continued, !Z.shiftr_div_pow2 by lia.
  change (2 ^ 7) with 128. replace (v / 2 ^ 14) with (v / 128 / 128) by (by rewrite Z.div_div).
  replace (v / 2 ^ 21) with (v / 128 / 128 / 128) by (by rewrite !Z.div_div).
  replace (v / 2 ^ 28) with (v / 128 / 128 / 128 / 128) by (by rewrite !Z.div_div).
  change (Z.shiftl 1 7) with 128. change (Z.shiftl 1 14) with 16384. change (Z.shiftl 1 21) with 2097152. change (Z.shiftl 1 28) with 268435456.
  cbn [varint]. repeat case_match; rewrite ?Z.ltb_lt, ?Z.ltb_ge in *; try (exfalso; div_lia); rewrite last_byte by div_lia; done.
Qed.

Lemma length_varint n v : (length (varint n v) <= n)%nat.
Proof. revert v. induction n as [|n IH]; intros v; simpl; [lia|]. destruct (v <? 128); simpl; [lia|]. specialize (IH (v / 128)). lia. Qed.

Lemma varint_bytes n v : 0 <= v -> Forall byte_ok (varint n v).
Proof.
  revert v. induction n as [|n IH]; intros v Hv; simpl; [constructor|]. unfold byte_ok. destruct (Z.ltb_spec v 128).
  - repeat constructor; lia.
  - constructor; [pose proof (Z.mod_pos_bound v 128); lia|]. apply IH, Z.div_pos; lia.
Qed.

Lemma varint_loop_ok w n v shift acc rest :
  (0 < n)%nat -> word (7 * Z.of_nat n) v -> 0 <= shift -> word shift acc -> word w (v * 2 ^ shift) ->
  varint_loop w n (varint n v ++ rest) shift acc = Some (acc + v * 2 ^ shift, rest).
Proof.
  revert v shift acc. induction n as [|n IH]; intros v shift acc Hn Hv Hs Ha Hw; [lia|]. cbn [varint].
  assert (0 < 2 ^ shift) as Hp by (apply Z.pow_pos_nonneg; lia). unfold word in *.
  pose proof (Z.mod_pos_bound v 128 ltac:(lia)) as Hm. pose proof (Z.div_mod v 128 ltac:(lia)) as Hd.
  destruct (Z.ltb_spec v 128); cbn [app varint_loop]; rewrite marked by (unfold byte_ok; lia).
  - rewrite (proj2 (Z.ltb_lt _ _)) by lia. cbn [negb]. by rewrite lor_wshl.
  - rewrite (proj2 (Z.ltb_ge _ _)) by lia. cbn [negb].
    replace (Z.land (v mod 128 + 128) 127) with (v mod 128) by (change 127 with (Z.ones 7); rewrite Z.land_ones by lia; div_lia).
    assert (word w (v mod 128 * 2 ^ shift)) as Hw' by (split; nia). rewrite lor_wshl by done.
    replace (7 * Z.of_nat (S n)) with (7 + 7 * Z.of_nat n) in Hv by lia. rewrite Z.pow_add_r in Hv by lia. change (2 ^ 7) with 128 in Hv.
    rewrite IH.
    + rewrite Z.pow_add_r by lia. change (2 ^ 7) with 128. do 2 f_equal. nia.
    + destruct n; [simpl in Hv; lia|lia].
    + split; [apply Z.div_pos; lia|]. apply Z.div_lt_upper_bound; lia.
    + lia.
    + rewrite Z.pow_add_r by lia. change (2 ^ 7) with 128. nia.
    + rewrite Z.pow_add_r by lia. change (2 ^ 7) with 128. split; nia.
Qed.

(** A proper prefix of an encoding is refused. *)
Lemma varint_loop_short w n m v shift acc k : 0 <= v -> (k < length (varint n v))%nat -> varint_loop w m (take k (varint n v)) shift acc = None.
Proof.
  revert m v shift acc k. induction n as [|n IH]; intros m v shift acc k Hv Hk; [simpl in Hk; lia|].
  destruct m as [|m]; [done|]. destruct k as [|k]; [done|]. cbn [varint] in *. destruct (Z.ltb_spec v 128); [simpl in Hk; lia|].
  cbn [take varint_loop]. pose proof (Z.mod_pos_bound v 128 ltac:(lia)). rewrite marked by (unfold byte_ok; lia).
  rewrite (proj2 (Z.ltb_ge _ _)) by lia. apply IH; [apply Z.div_pos; lia|]. simpl in Hk. lia.
Qed.

Lemma VarintLength_ok v : word 64 v -> VarintLength v = Ok (Z.of_nat (length (varint 10 v))).
Proof.
  intros Hv. unfold VarintLength.
  assert (forall n v len, (0 < n)%nat -> word (7 * Z.of_nat n) v -> VarintLength_loop n v len = Ok (len - 1 + Z.of_nat (length (varint n v)))) as H.
  { intros n. induction n as [|n IH]; intros x len Hn Hx; [lia|]. unfold word in *. cbn [VarintLength_loop varint].
    destruct (Z.leb_spec 128 x), (Z.ltb_spec x 128); try lia; [|simpl; f_equal; lia].
    replace (7 * Z.of_nat (S n)) with (7 + 7 * Z.of_nat n) in Hx by lia. rewrite Z.pow_add_r in Hx by lia. change (2 ^ 7) with 128 in Hx.
    rewrite Z.shiftr_div_pow2 by lia. change (2 ^ 7) with 128. rewrite IH; [simpl length; f_equal; lia| |].
    - destruct n; [simpl in Hx; lia|lia].
    - split; [apply Z.div_pos; lia|]. apply Z.div_lt_upper_bound; lia. }
  rewrite H; [f_equal; lia|lia|]. unfold word in *. change (2 ^ (7 * Z.of_nat 10)) with (2 ^ 70). assert (2 ^ 64 < 2 ^ 70) by reflexivity. lia.
Qed.

(** ** What a pair of a writer and a parser promises *)

(** [put] appends some bytes for [a]; [get] reads [a] back whatever follows,
    and refuses the bytes when some are missing at the end. *)
Definition round_trips {A} (put : list Z -> A -> result (list Z)) (get : list Z -> option (A * list Z)) (a : A) : Prop :=
  exists bs, Forall byte_ok bs /\ (forall dst, put dst a = Ok (dst ++ bs)) /\
    (forall rest, get (bs ++ rest) = Some (a, rest)) /\ (forall k, (k < length bs)%nat -> get (take k bs) = None).

Lemma into_buf_ok size bs : (length bs <= size)%nat -> into_buf size bs = Ok bs.
Proof. intros H. unfold into_buf. by rewrite (proj2 (Nat.leb_le _ _) H). Qed.

Lemma EncodeVarint64_ok v : word 64 v -> EncodeVarint64 v = Ok (varint 10 v).
Proof.
  intros Hv. apply EncodeVarint64_loop_ok; [lia|]. unfold word in *. change (7 * Z.of_nat 10) with 70.
  assert (2 ^ 64 < 2 ^ 70) by reflexivity. lia.
Qed.

Lemma PutVarint32_ok dst v : word 32 v -> PutVarint32 dst v = Ok (dst ++ varint 5 v).
Proof. intros Hv. unfold PutVarint32. rewrite EncodeVarint32_ok, into_buf_ok by (done || apply length_varint). done. Qed.

Lemma PutVarint64_ok dst v : word 64 v -> PutVarint64 dst v = Ok (dst ++ varint 10 v).
Proof. intros Hv. unfold PutVarint64. rewrite EncodeVarint64_ok by done. cbn [rbind]. rewrite into_buf_ok by apply length_varint. done. Qed.

Lemma word32_35 v : word 32 v -> word (7 * Z.of_nat 5) v.
Proof. unfold word. change (7 * Z.of_nat 5) with 35. assert (2 ^ 32 < 2 ^ 35) by reflexivity. lia. Qed.

Lemma word64_70 v : word 64 v -> word (7 * Z.of_nat 10) v.
Proof. unfold word. change (7 * Z.of_nat 10) with 70. assert (2 ^ 64 < 2 ^ 70) by reflexivity. lia. Qed.

(** The short cut for one byte agrees with the loop. *)
Lemma GetVarint32_fallback p : (forall b, head p = Some b -> byte_ok b) -> GetVarint32 p = varint_loop 32 5 p 0 0.
Proof.
  intros Hp. unfold GetVarint32, GetVarint32Ptr, GetVarint32PtrFallback. destruct p as [|b p]; [done|].
  specialize (Hp b eq_refl) as Hb. destruct (Z.land b 128 =? 0) eqn:E; [|done]. cbn [varint_loop]. rewrite E. cbn [negb]. do 2 f_equal.
  unfold wshl. rewrite Z.shiftl_0_r, wrap_id, Z.lor_0_l; [done|]. unfold byte_ok in Hb. split; [lia|]. change (2 ^ 32) with 4294967296. lia.
Qed.

Lemma varint_head n v rest b : 0 <= v -> head (varint (S n) v ++ rest) = Some b -> byte_ok b.
Proof.
  intros Hv. pose proof (varint_bytes (S n) v Hv) as H. destruct (varint (S n) v) as [|x l] eqn:E.
  - simpl in E. by destruct (v <? 128).
  - intros [= <-]. by apply Forall_cons in H as [? _].
Qed.

Lemma varint_take_head n v k b : 0 <= v -> head (take k (varint n v)) = Some b -> byte_ok b.
Proof.
  intros Hv Hb. destruct n as [|n]; [by destruct k|]. apply (varint_head n v [] b Hv). rewrite app_nil_r.
  destruct k, (varint (S n) v); done.
Qed.

Lemma varint32_roundtrip v : word 32 v -> round_trips PutVarint32 GetVarint32 v.
Proof.
  intros Hv. pose proof (proj1 Hv) as H0. exists (varint 5 v). split_and!.
  - by apply varint_bytes.
  - intros dst. by apply PutVarint32_ok.
  - intros rest. rewrite GetVarint32_fallback by (intros b; by apply varint_head).
    rewrite varint_loop_ok; [do 2 f_equal; lia|lia|by apply word32_35|lia|split; simpl; lia|]. by rewrite Z.mul_1_r.
  - intros k Hk. rewrite GetVarint32_fallback by (intros b; by apply varint_take_head). by apply varint_loop_short.
Qed.

Lemma varint64_roundtrip v : word 64 v -> round_trips PutVarint64 GetVarint64 v.
Proof.
  intros Hv. pose proof (proj1 Hv) as H0. exists (varint 10 v). split_and!.
  - by apply varint_bytes.
  - intros dst. by apply PutVarint64_ok.
  - intros rest. unfold GetVarint64, GetVarint64Ptr.
    rewrite varint_loop_ok; [do 2 f_equal; lia|lia|by apply word64_70|lia|split; simpl; lia|]. by rewrite Z.mul_1_r.
  - intros k Hk. by apply varint_loop_short.
Qed.

(** Zigzag numbers the integers 0, -1, 1, -2, ... *)
Lemma i64ToZigzag_ok v : - 2 ^ 63 <= v < 2 ^ 63 -> i64ToZigzag v = if 0 <=? v then 2 * v else - 2 * v - 1.
Proof.
  intros Hv. change (2 ^ 63) with 9223372036854775808 in Hv. unfold i64ToZigzag, wshl, wrap. rewrite Z.shiftl_mul_pow2, Z.shiftr_div_pow2 by lia.
  destruct (Z.leb_spec 0 v).
  - rewrite (Z.div_small v) by (change (2 ^ 63) with 9223372036854775808; lia). rewrite Z.mod_0_l, Z.lxor_0_r by lia.
    change (2 ^ 64) with 18446744073709551616. change (2 ^ 1) with 2. div_lia.
  - replace (v / 2 ^ 63) with (-1) by (change (2 ^ 63) with 9223372036854775808; div_lia). change (-1 mod 2 ^ 64) with (2 ^ 64 - 1).
    rewrite lxor_ones by (try lia; apply wrap_word; lia). change (2 ^ 64) with 18446744073709551616. change (2 ^ 1) with 2. div_lia.
Qed.

Lemma i64ToZigzag_word v : - 2 ^ 63 <= v < 2 ^ 63 -> word 64 (i64ToZigzag v).
Proof.
  intros Hv. rewrite i64ToZigzag_ok by done. unfold word. change (2 ^ 63) with 9223372036854775808 in Hv. change (2 ^ 64) with 18446744073709551616.
  destruct (Z.leb_spec 0 v); lia.
Qed.

Lemma zigzag_roundtrip v : - 2 ^ 63 <= v < 2 ^ 63 -> zigzagToI64 (i64ToZigzag v) = v.
Proof.
  intros Hv. rewrite i64ToZigzag_ok by done. unfold zigzagToI64. change 1 with (Z.ones 1) at 4. rewrite Z.land_ones, Z.shiftr_div_pow2 by lia.
  change (2 ^ 1) with 2. change (2 ^ 63) with 9223372036854775808 in Hv. destruct (Z.leb_spec 0 v).
  - replace ((2 * v) mod 2) with 0 by div_lia. replace (2 * v / 2) with v by div_lia. change (wrap 64 (- 0)) with 0. rewrite Z.lxor_0_r.
    unfold to_signed. rewrite (proj2 (Z.ltb_lt _ _)); [done|]. change (2 ^ (64 - 1)) with 9223372036854775808. lia.
  - replace ((-2 * v - 1) mod 2) with 1 by div_lia. replace ((-2 * v - 1) / 2) with (- v - 1) by div_lia.
    change (wrap 64 (- (1))) with (2 ^ 64 - 1). rewrite lxor_ones; [|lia|split; [lia|change (2 ^ 64) with 18446744073709551616; lia]].
    unfold to_signed. change (2 ^ (64 - 1)) with 9223372036854775808. change (2 ^ 64) with 18446744073709551616.
    rewrite (proj2 (Z.ltb_ge _ _)); lia.
Qed.

Lemma varsigned_roundtrip v : - 2 ^ 63 <= v < 2 ^ 63 -> round_trips PutVarsignedint64 GetVarsignedint64 v.
Proof.
  intros Hv. destruct (varint64_roundtrip _ (i64ToZigzag_word v Hv)) as (bs & Hb & Hput & Hget & Hshort). exists bs. split_and!; [done| | |].
  - intros dst. exact (Hput dst).
  - intros rest. unfold GetVarsignedint64, GetVarsignedint64Ptr. specialize (Hget rest). unfold GetVarint64 in Hget. rewrite Hget.
    by rewrite zigzag_roundtrip.
  - intros k Hk. unfold GetVarsignedint64, GetVarsignedint64Ptr. specialize (Hshort k Hk). unfold GetVarint64 in Hshort. by rewrite Hshort.
Qed.

(** ** Both byte orders of the machine give the little-endian bytes *)
Section fixed.
Context {port : Port}.

Lemma shifted_byte v k : 0 <= k -> Z.land (Z.shiftr v k) 255 = v / 2 ^ k mod 256.
Proof. intros Hk. change 255 with (Z.ones 8). rewrite Z.land_ones, Z.shiftr_div_pow2 by lia. done. Qed.

Lemma low_byte v : Z.land v 255 = v mod 256.
Proof. change 255 with (Z.ones 8). by rewrite Z.land_ones by lia. Qed.

Ltac fixed_bytes :=
  destruct kLittleEndian; [done|]; rewrite low_byte, !shifted_byte by lia; cbn [le_bytes]; rewrite ?Z.div_div by lia; reflexivity.

Lemma EncodeFixed16_le v : EncodeFixed16 v = le_bytes 2 v.
Proof. unfold EncodeFixed16. fixed_bytes. Qed.
Lemma EncodeFixed32_le v : EncodeFixed32 v = le_bytes 4 v.
Proof. unfold EncodeFixed32. fixed_bytes. Qed.
Lemma EncodeFixed64_le v : EncodeFixed64 v = le_bytes 8 v.
Proof. unfold EncodeFixed64. fixed_bytes. Qed.

Lemma load_le_ok n bs rest : length bs = n -> load_le n (bs ++ rest) = Ok (le_value bs).
Proof.
  intros <-. unfold load_le. rewrite (proj2 (Nat.leb_le _ _)) by (rewrite length_app; lia). by rewrite take_app_length.
Qed.

Lemma DecodeFixed16_le bs rest : Forall byte_ok bs -> length bs = 2%nat -> DecodeFixed16 (bs ++ rest) = Ok (le_value bs).
Proof.
  intros Hb Hl. unfold DecodeFixed16. destruct kLittleEndian; [by apply load_le_ok|].
  destruct bs as [|b0 [|b1 [|]]]; try done. cbn [app]. repeat (apply Forall_cons in Hb as [? Hb]). unfold byte_ok in *.
  rewrite lor_wshl by (unfold word; change (2 ^ 8) with 256; change (2 ^ 16) with 65536; lia). cbn [le_value]. f_equal. lia.
Qed.

Lemma DecodeFixed32_le bs rest : Forall byte_ok bs -> length bs = 4%nat -> DecodeFixed32 (bs ++ rest) = Ok (le_value bs).
Proof.
  intros Hb Hl. unfold DecodeFixed32. destruct kLittleEndian; [by apply load_le_ok|].
  destruct bs as [|b0 [|b1 [|b2 [|b3 [|]]]]]; try done. cbn [app]. repeat (apply Forall_cons in Hb as [? Hb]). unfold byte_ok in *.
  assert (2 ^ 8 = 256 /\ 2 ^ 16 = 65536 /\ 2 ^ 24 = 16777216 /\ 2 ^ 32 = 4294967296) as (? & ? & ? & ?) by done.
  rewrite (lor_wshl 32 b0 b1 8), (lor_wshl 32 _ b2 16), (lor_wshl 32 _ b3 24) by (unfold word; lia). cbn [le_value]. f_equal. lia.
Qed.

Lemma le_value_app a b : le_value (a ++ b) = le_value a + 2 ^ (8 * Z.of_nat (length a)) * le_value b.
Proof.
  induction a as [|x a IH]; [simpl; lia|]. cbn [app le_value length]. rewrite IH.
  replace (8 * Z.of_nat (S (length a))) with (8 + 8 * Z.of_nat (length a)) by lia. rewrite Z.pow_add_r by lia. lia.
Qed.

Lemma DecodeFixed64_le bs rest : Forall byte_ok bs -> length bs = 8%nat -> DecodeFixed64 (bs ++ rest) = Ok (le_value bs).
Proof.
  intros Hb Hl. unfold DecodeFixed64. destruct kLittleEndian eqn:E; [by apply load_le_ok|].
  rewrite <- (take_drop 4 bs) in Hb |- *. apply Forall_app in Hb as [H1 H2]. set (lo := take 4 bs) in *. set (hi := drop 4 bs) in *.
  assert (length lo = 4%nat) as L1 by (unfold lo; rewrite length_take; lia). assert (length hi = 4%nat) as L2 by (unfold hi; rewrite length_drop; lia).
  rewrite <- app_assoc, DecodeFixed32_le by done. cbn [rbind]. rewrite <- L1 at 1. rewrite drop_app_length, DecodeFixed32_le by done.
  cbn [rbind]. pose proof (le_value_bound lo H1) as B1. pose proof (le_value_bound hi H2) as B2. rewrite L1 in B1. rewrite L2 in B2.
  change (8 * Z.of_nat 4) with 32 in *. f_equal. rewrite Z.lor_comm, lor_wshl, le_value_app, L1; [change (8 * Z.of_nat 4) with 32; lia|lia|done|].
  unfold word in *. change (2 ^ 32) with 4294967296 in *. change (2 ^ 64) with 18446744073709551616. lia.
Qed.

(** Both come from the decoding of the bytes written. *)
Lemma fixed_roundtrip n (put : list Z -> Z -> list Z) (decode : list Z -> result Z) (get : list Z -> option (Z * list Z)) v :
  (forall dst, put dst v = dst ++ le_bytes n v) ->
  (forall bs rest, Forall byte_ok bs -> length bs = n -> decode (bs ++ rest) = Ok (le_value bs)) ->
  (forall p, get p = if (length p <? n)%nat then None else match decode p with Ok x => Some (x, drop n p) | Err _ => None end) ->
  word (8 * Z.of_nat n) v -> round_trips (fun dst v => Ok (put dst v)) get v.
Proof.
  intros Hput Hdec Hget Hv. exists (le_bytes n v). split_and!.
  - apply le_bytes_ok.
  - intros dst. by rewrite Hput.
  - intros rest. rewrite Hget, length_app, length_le_bytes, (proj2 (Nat.ltb_ge _ _)) by lia.
    rewrite Hdec by (apply le_bytes_ok || apply length_le_bytes). rewrite le_value_bytes by done.
    by rewrite <- (length_le_bytes n v) at 1; rewrite drop_app_length.
  - intros k Hk. rewrite length_le_bytes in Hk. rewrite Hget, length_take, length_le_bytes, (proj2 (Nat.ltb_lt _ _)) by lia. done.
Qed.

Lemma PutFixed16_le dst v : PutFixed16 dst v = dst ++ le_bytes 2 v.
Proof. unfold PutFixed16. rewrite EncodeFixed16_le. by destruct kLittleEndian. Qed.
Lemma PutFixed32_le dst v : PutFixed32 dst v = dst ++ le_bytes 4 v.
Proof. unfold PutFixed32. rewrite EncodeFixed32_le. by destruct kLittleEndian. Qed.
Lemma PutFixed64_le dst v : PutFixed64 dst v = dst ++ le_bytes 8 v.
Proof. unfold PutFixed64. rewrite EncodeFixed64_le. by destruct kLittleEndian. Qed.

End fixed.

(** ** Strings *)

Lemma wrap32_length (value : list Z) : Z.of_nat (length value) < 2 ^ 32 -> wrap 32 (Z.of_nat (length value)) = Z.of_nat (length value).
Proof. intros H. apply wrap_id. split; lia. Qed.

Lemma length_prefixed_roundtrip value :
  Forall byte_ok value -> Z.of_nat (length value) < 2 ^ 32 -> round_trips PutLengthPrefixedSlice GetLengthPrefixedSlice value.
Proof.
  intros Hb Hl. destruct (varint32_roundtrip (Z.of_nat (length value)) ltac:(split; lia)) as (vi & Hvb & Hput & Hget & Hshort).
  exists (vi ++ value). split_and!.
  - by apply Forall_app.
  - intros dst. unfold PutLengthPrefixedSlice. rewrite wrap32_length, Hput by done. cbn [rbind]. by rewrite app_assoc.
  - intros rest. unfold GetLengthPrefixedSlice. rewrite <- app_assoc, Hget, Nat2Z.id, length_app, (proj2 (Z.leb_le _ _)) by lia.
    by rewrite take_app_length, drop_app_length.
  - intros k Hk. unfold GetLengthPrefixedSlice. destruct (Nat.lt_ge_cases k (length vi)) as [Hlt|Hge].
    + by rewrite take_app_le, Hshort by lia.
    + rewrite take_app_ge, Hget by lia. rewrite length_take. rewrite length_app in Hk. by rewrite (proj2 (Z.leb_gt _ _)) by lia.
Qed.

(** In a longer piece of memory the slice is found without knowing its end. *)
Lemma GetLengthPrefixedSlice_raw_ok value rest :
  Z.of_nat (length value) < 2 ^ 32 -> GetLengthPrefixedSlice_raw (varint 5 (Z.of_nat (length value)) ++ value ++ rest) = Ok value.
Proof.
  intros Hl. assert (word 32 (Z.of_nat (length value))) as Hw by (split; lia). pose proof (length_varint 5 (Z.of_nat (length value))) as H5.
  unfold GetLengthPrefixedSlice_raw. rewrite take_app_ge by lia. set (vi := varint 5 _) in *. set (q := take _ _).
  assert (GetVarint32Ptr (vi ++ q) = Some (Z.of_nat (length value), q)) as ->.
  { change (GetVarint32 (vi ++ q) = Some (Z.of_nat (length value), q)). rewrite GetVarint32_fallback by (intros b; apply varint_head; lia).
    unfold vi. rewrite varint_loop_ok; [do 2 f_equal; lia|lia|by apply word32_35|lia|split; simpl; lia|]. by rewrite Z.mul_1_r. }
  rewrite Nat2Z.id, length_app. replace (length vi + length q - length q)%nat with (length vi) by lia. rewrite drop_app_length, length_app.
  rewrite (proj2 (Nat.leb_le _ _)) by lia. by rewrite take_app_length.
Qed.

Lemma parts_total parts t : wrap 32 (foldl (fun t part => wadd 64 t (Z.of_nat (length part))) t parts) = wrap 32 (t + Z.of_nat (length (concat (A := Z) parts))).
Proof.
  revert t. induction parts as [|part parts IH]; intros t; simpl; [by rewrite Z.add_0_r|]. rewrite IH, length_app. unfold wadd, wrap.
  rewrite <- Zplus_mod_idemp_l, Z.mod_mod_divide, Zplus_mod_idemp_l by (by exists (2 ^ 32)). f_equal. lia.
Qed.

Lemma foldl_app_concat (dst : list Z) parts : foldl app dst parts = dst ++ concat parts.
Proof. revert dst. induction parts as [|part parts IH]; intros dst; simpl; [by rewrite app_nil_r|]. by rewrite IH, app_assoc. Qed.

(** A slice in parts is written as the concatenation; padding as zeros. *)
Lemma slice_parts dst parts pad :
  PutLengthPrefixedSliceParts dst parts = PutLengthPrefixedSlice dst (concat parts) /\
  PutLengthPrefixedSlicePartsWithPadding dst parts pad = PutLengthPrefixedSlice dst (concat parts ++ replicate pad 0).
Proof.
  unfold PutLengthPrefixedSlicePartsWithPadding, PutLengthPrefixedSliceParts, PutLengthPrefixedSliceParts_from, PutLengthPrefixedSlice.
  rewrite !parts_total, length_app, length_replicate, Z.add_0_l, Nat2Z.inj_add, (Z.add_comm (Z.of_nat pad)). split.
  - destruct (PutVarint32 _ _); cbn [rbind]; [|done]. by rewrite foldl_app_concat.
  - destruct (PutVarint32 _ _); cbn [rbind]; [|done]. by rewrite foldl_app_concat, app_assoc.
Qed.

Lemma until_loop_ok d s rest : d ∉ s -> until_loop d (s ++ rest) = match rest with [] => length s | _ => (length s + until_loop d rest)%nat end.
Proof.
  induction s as [|c s IH]; intros Hd; simpl; [by destruct rest|]. apply not_elem_of_cons in Hd as [Hne Hd].
  rewrite (proj2 (Z.eqb_neq _ _)) by done. rewrite IH by done. by destruct rest.
Qed.

(** What is read up to a delimiter, and where reading goes on. *)
Lemma GetSliceUntil_ok s d rest : d ∉ s -> GetSliceUntil (s ++ d :: rest) d = (s, rest) /\ GetSliceUntil s d = (s, []).
Proof.
  intros Hd. unfold GetSliceUntil. split.
  - rewrite until_loop_ok by done. cbn [until_loop]. rewrite Z.eqb_refl, Nat.add_0_r, length_app, (proj2 (Nat.ltb_lt _ _)) by (simpl; lia).
    rewrite take_app_length. f_equal. rewrite drop_app_ge by lia. by replace (length s + 1 - length s)%nat with 1%nat by lia.
  - pose proof (until_loop_ok d s [] Hd) as E. rewrite app_nil_r in E. rewrite E, Nat.ltb_irrefl, Nat.add_0_r, take_ge, drop_ge by lia. done.
Qed.

(** The routines that write several numbers at once write them in turn. *)
Lemma put_several dst v1 v2 v3 :
  word 32 v1 -> word 32 v2 ->
  (word 32 v3 -> PutVarint32Varint32Varint32 dst v1 v2 v3 = (let? dst := PutVarint32 dst v1 in let? dst := PutVarint32 dst v2 in PutVarint32 dst v3)) /\
  (word 64 v3 -> PutVarint32Varint32Varint64 dst v1 v2 v3 = (let? dst := PutVarint32 dst v1 in let? dst := PutVarint32 dst v2 in PutVarint64 dst v3)) /\
  (word 64 v3 -> PutVarint32Varint64 dst v1 v3 = (let? dst := PutVarint32 dst v1 in PutVarint64 dst v3)) /\
  PutVarint32Varint32 dst v1 v2 = (let? dst := PutVarint32 dst v1 in PutVarint32 dst v2).
Proof.
  intros H1 H2. pose proof (length_varint 5 v1). pose proof (length_varint 5 v2). pose proof (length_varint 5 v3). pose proof (length_varint 10 v3).
  unfold PutVarint32Varint32Varint32, PutVarint32Varint32Varint64, PutVarint32Varint64, PutVarint32Varint32.
  split_and!; intros; rewrite ?EncodeVarint64_ok, ?EncodeVarint32_ok by done; cbn [rbind]; rewrite into_buf_ok by (rewrite ?length_app; lia);
    rewrite (PutVarint32_ok _ v1) by done; cbn [rbind]; rewrite ?PutVarint32_ok by done; cbn [rbind];
    rewrite ?PutVarint32_ok, ?PutVarint64_ok by done; by rewrite !app_assoc.
Qed.

(** ** The property *)

(** C16. Everything the writers of this file append is read back by the parser
    of the same name whatever follows it, and refused when bytes are missing;
    no write leaves its buffer, [VarintLength] is the number of bytes written,
    and both encoders of a 32-bit number agree. *)
Theorem coding_roundtrip (port : Port) :
  (forall v, word 16 v -> round_trips (fun dst v => Ok (PutFixed16 dst v)) GetFixed16 v) /\
  (forall v, word 32 v -> round_trips (fun dst v => Ok (PutFixed32 dst v)) GetFixed32 v) /\
  (forall v, word 64 v -> round_trips (fun dst v => Ok (PutFixed64 dst v)) GetFixed64 v) /\
  (forall v, word 32 v -> round_trips PutVarint32 GetVarint32 v /\ EncodeVarint64 v = Ok (EncodeVarint32 v)) /\
  (forall v, word 64 v -> round_trips PutVarint64 GetVarint64 v /\
     exists bs, EncodeVarint64 v = Ok bs /\ VarintLength v = Ok (Z.of_nat (length bs))) /\
  (forall v, - 2 ^ 63 <= v < 2 ^ 63 -> round_trips PutVarsignedint64 GetVarsignedint64 v) /\
  (forall value, Forall byte_ok value -> Z.of_nat (length value) < 2 ^ 32 -> round_trips PutLengthPrefixedSlice GetLengthPrefixedSlice value).
Proof.
  split_and!.
  - intros v Hv. apply (fixed_roundtrip 2 _ DecodeFixed16); [intros dst; apply PutFixed16_le|apply DecodeFixed16_le|done|done].
  - intros v Hv. apply (fixed_roundtrip 4 _ DecodeFixed32); [intros dst; apply PutFixed32_le|apply DecodeFixed32_le|done|done].
  - intros v Hv. apply (fixed_roundtrip 8 _ DecodeFixed64); [intros dst; apply PutFixed64_le|apply DecodeFixed64_le|done|done].
  - intros v Hv. split; [by apply varint32_roundtrip|]. assert (word 64 v) as Hv' by (unfold word in *; assert (2 ^ 32 < 2 ^ 64) by done; lia).
    rewrite EncodeVarint64_ok, EncodeVarint32_ok by done. f_equal. apply varint_more; [lia|by apply word32_35].
  - intros v Hv. split; [by apply varint64_roundtrip|]. exists (varint 10 v). split; [by apply EncodeVarint64_ok|by apply VarintLength_ok].
  - apply varsigned_roundtrip.
  - apply length_prefixed_roundtrip.
Qed.

Lemma coding_roundtrip_witness :
  round_trips PutVarint32 GetVarint32 300 /\ PutVarint32 [] 300 = Ok [172; 2] /\
  round_trips PutVarsignedint64 GetVarsignedint64 (-3) /\ PutVarsignedint64 [] (-3) = Ok [5].
Proof.
  destruct (coding_roundtrip true) as (_ & _ & _ & H32 & _ & Hs & _).
  split; [apply (H32 300); split; vm_compute; congruence|]. split; [reflexivity|]. split; [apply (Hs (-3)); vm_compute; split; congruence|reflexivity].
Defined.
