(* ===== verification/Crc32c.v ===== *)
(** * CRC-32C

    util/crc32c.h and the portable part of util/crc32c.cc: extension of a
    checksum over a buffer with the four tables, masking, and the combination
    of the checksums of two strings.  The reference is the division of
    polynomials over the field of two elements, one bit at a time; the word
    [x] holds the coefficient of the lowest power in its highest bit. *)

From S2P Require Import Prelude Words Coding Crc32cTables.

(** ** The code *)

Section code.
Context {port : Port}.

Definition LE_LOAD32 (p : list Z) : result Z := DecodeFixed32 p.

(** Four bytes at a time; without the machine's own CRC instruction. *)
Definition crc_word (l : Z) (p : list Z) : result (Z * list Z) :=
  let? v := LE_LOAD32 p in
  let c := wrap 32 (Z.lxor l v) in
  let? t3 := rd table3_ 256 (Z.land c 0xff) in
  let? t2 := rd table2_ 256 (Z.land (Z.shiftr c 8) 0xff) in
  let? t1 := rd table1_ 256 (Z.land (Z.shiftr c 16) 0xff) in
  let? t0 := rd table0_ 256 (Z.shiftr c 24) in
  Ok (Z.lxor (Z.lxor (Z.lxor t3 t2) t1) t0, drop 4 p).

Definition DefaultCRC32 (l : Z) (p : list Z) : result (Z * list Z) :=
  let? (l, p) := crc_word l p in crc_word l p.

(** [STEP1]; the list is what lies between [p] and [e]. *)
Definition STEP1 (l : Z) (p : list Z) : result (Z * list Z) :=
  match p with
  | [] => Err EBounds
  | b :: p => let? t := rd table0_ 256 (Z.lxor (Z.land l 0xff) b) in
              Ok (Z.lxor t (Z.shiftr l 8), p)
  end.

(** [while (p != x) STEP1], [n] bytes before [x]. *)
Fixpoint step_loop (n : nat) (l : Z) (p : list Z) : result (Z * list Z) :=
  match n with
  | O => Ok (l, p)
  | S n => let? (l, p) := STEP1 l p in step_loop n l p
  end.

Definition ALIGN (n m : Z) : Z := Z.land (wadd 64 n (Z.shiftl 1 m - 1)) (wrap 64 (Z.lnot (Z.shiftl 1 m - 1))).

Section extend.
Context (CRC32 : Z -> list Z -> result (Z * list Z)).

(** [while ((e - p) >= 16)]. *)
Fixpoint sixteen_loop (fuel : nat) (l : Z) (p : list Z) : result (Z * list Z) :=
  if (16 <=? length p)%nat then
    match fuel with
    | O => Err EFuel
    | S fuel => let? (l, p) := CRC32 l p in let? (l, p) := CRC32 l p in sixteen_loop fuel l p
    end
  else Ok (l, p).

(** [while ((e - p) >= 8)]. *)
Fixpoint eight_loop (fuel : nat) (l : Z) (p : list Z) : result (Z * list Z) :=
  if (8 <=? length p)%nat then
    match fuel with
    | O => Err EFuel
    | S fuel => let? (l, p) := CRC32 l p in eight_loop fuel l p
    end
  else Ok (l, p).

(** [pval] is the address of the buffer. *)
Definition ExtendImpl (pval : Z) (crc : Z) (buf : list Z) : result Z :=
  let e := pval + Z.of_nat (length buf) in
  let l := Z.lxor crc 0xffffffff in
  let x := ALIGN pval 4 in
  let? (l, p) := (if x <=? e then step_loop (Z.to_nat (x - pval)) l buf else Ok (l, buf)) in
  let? (l, p) := sixteen_loop (length p) l p in
  let? (l, p) := eight_loop (length p) l p in
  let? (l, p) := step_loop (length p) l p in
  Ok (wrap 32 (Z.lxor l 0xffffffff)).

End extend.

End code.

(** [ChosenExtend], the implementation of [Extend] that the build selects. *)
Class Extender := Extend : Z -> list Z -> result Z.

Definition Value `{Extender} (data : list Z) : result Z := Extend 0 data.

Definition kMaskDelta : Z := 0xa282ead8.
Definition Mask (crc : Z) : Z := wadd 32 (Z.lor (Z.shiftr crc 15) (wshl 32 crc 17)) kMaskDelta.
Definition Unmask (masked_crc : Z) : Z :=
  let rot := wsub 32 masked_crc kMaskDelta in Z.lor (Z.shiftr rot 17) (wshl 32 rot 15).

(** *** Combining two checksums *)

(** [n] is [32 - i]. *)
Fixpoint gf_multiply_sw_1 (n : nat) (p a b m : Z) : Z :=
  match n with
  | O => p
  | S n => gf_multiply_sw_1 n
             (Z.lxor p (Z.land (wsub 32 0 (Z.land (Z.shiftr b 31) 1)) a))
             (Z.lxor (Z.shiftr a 1) (Z.land (wsub 32 0 (Z.land a 1)) m))
             (wshl 32 b 1) m
  end.
Definition gf_multiply_sw (a b m : Z) : Z := gf_multiply_sw_1 32 0 a b m.
Definition gf_square_sw (a m : Z) : Z := gf_multiply_sw a a m.

Fixpoint gf_powers_memo (i : nat) (m : Z) : Z :=
  match i with
  | O => m
  | S i => gf_square_sw (gf_powers_memo i m) m
  end.
Definition gf_powers_make (m : Z) (n : nat) : list Z := (fun i => gf_powers_memo i m) <$> seq 0 n.

Definition crc32c_m : Z := 0x82f63b78.
Definition crc32c_powers : list Z := gf_powers_make crc32c_m 62.

(** [__builtin_ctzll]. *)
Fixpoint trailing_zeros (p : positive) : Z :=
  match p with xO p => 1 + trailing_zeros p | _ => 0 end.
Definition CountTrailingZeroBits (v : Z) : result Z :=
  match v with Zpos p => Ok (trailing_zeros p) | _ => Err EAssert end.

(** The loop; [powers] is an index into [powers_array]. *)
Fixpoint append_loop (fuel : nat) (crc len_bits powers polynomial : Z) (powers_array : list Z) : result Z :=
  if len_bits =? 0 then Ok crc
  else match fuel with
       | O => Err EFuel
       | S fuel =>
           let? r := CountTrailingZeroBits len_bits in
           let len_bits := Z.shiftr len_bits r in
           let powers := powers + r in
           let? pw := rd powers_array 62 powers in
           append_loop fuel (gf_multiply_sw crc pw polynomial) (Z.shiftr len_bits 1) (powers + 1) polynomial powers_array
       end.

(** Every round shifts out one of the 64 bits at least. *)
Definition Crc32AppendZeroes (crc len_over_4 polynomial : Z) (powers_array : list Z) : result Z :=
  append_loop 64 crc len_over_4 0 polynomial powers_array.

Definition InvertedToPure (crc : Z) : Z := wrap 32 (Z.lnot crc).
Definition PureToInverted (crc : Z) : Z := wrap 32 (Z.lnot crc).

Definition PureExtend `{Extender} (crc : Z) (buf : list Z) : result Z :=
  let? r := Extend (PureToInverted crc) buf in Ok (InvertedToPure r).

Definition Crc32cCombine `{Extender} (crc1 crc2 crc2len : Z) : result Z :=
  let pure_crc1_with_init := InvertedToPure crc1 in
  let pure_crc2_with_init := InvertedToPure crc2 in
  let pure_crc2_init := wrap 32 (-1) in
  let zeros := [0; 0; 0; 0] in
  let len := Z.land crc2len 3 in
  let tmp := Z.lxor pure_crc1_with_init pure_crc2_init in
  let? tmp := (if len =? 0 then Ok tmp else PureExtend tmp (take (Z.to_nat len) zeros)) in
  let? r := Crc32AppendZeroes tmp (crc2len / 4) crc32c_m crc32c_powers in
  Ok (PureToInverted (Z.lxor r pure_crc2_with_init)).

(** ** The reference: one bit at a time *)

(** Multiplication by the indeterminate, modulo the polynomial. *)
Definition bit_step (x : Z) : Z := Z.lxor (Z.shiftr x 1) (if Z.odd x then crc32c_m else 0).

Fixpoint bits (n : nat) (x : Z) : Z :=
  match n with
  | O => x
  | S n => bits n (bit_step x)
  end.

Definition crc_byte (l b : Z) : Z := bits 8 (Z.lxor l b).
Definition crc_bytes (l : Z) (bs : list Z) : Z := foldl crc_byte l bs.

(** The checksum of what [crc] is the checksum of, followed by [buf]. *)
Definition crc32c (crc : Z) (buf : list Z) : Z := Z.lxor (crc_bytes (Z.lxor crc 0xffffffff) buf) 0xffffffff.

(** What every implementation of [Extend] promises. *)
Class ExtenderOk (ext : Extender) : Prop :=
  Extend_ok crc buf : word 32 crc -> Forall byte_ok buf -> Extend crc buf = Ok (crc32c crc buf).

(** ** Linear functions on words *)

Definition linear (f : Z -> Z) : Prop := f 0 = 0 /\ forall x y, f (Z.lxor x y) = Z.lxor (f x) (f y).

Lemma split_bit w x : 0 <= w -> word (w + 1) x ->
  x = Z.lxor (if Z.testbit x w then 2 ^ w else 0) (x mod 2 ^ w).
Proof.
  intros Hw Hx. apply word_bits in Hx as [H0 Hx]; [|lia]. apply Z.bits_inj'. intros n Hn. rewrite Z.lxor_spec.
  assert (Z.testbit (if Z.testbit x w then 2 ^ w else 0) n = (n =? w) && Z.testbit x w) as ->.
  { destruct (Z.testbit x w); [|by rewrite Z.bits_0, andb_false_r]. rewrite Z.pow2_bits_eqb, andb_true_r by lia. apply Z.eqb_sym. }
  destruct (Z.eqb_spec n w) as [->|Hne]; simpl.
  - rewrite Z.mod_pow2_bits_high by lia. by destruct (Z.testbit x w).
  - destruct (Z.lt_ge_cases n w); [by rewrite Z.mod_pow2_bits_low|]. rewrite Z.mod_pow2_bits_high, Hx by lia. done.
Qed.

(** Linear functions that agree on the powers of two are equal on words. *)
Lemma linear_ext f g (n : nat) x :
  linear f -> linear g -> (forall j, (j < n)%nat -> f (2 ^ Z.of_nat j) = g (2 ^ Z.of_nat j)) -> word (Z.of_nat n) x -> f x = g x.
Proof.
  intros [Hf0 Hf] [Hg0 Hg]. revert x. induction n as [|n IH]; intros x Hb Hx.
  - unfold word in Hx. simpl in Hx. by replace x with 0 by lia; rewrite Hf0, Hg0.
  - rewrite (split_bit (Z.of_nat n) x), Hf, Hg by (try lia; by replace (Z.of_nat n + 1) with (Z.of_nat (S n)) by lia).
    f_equal; [|apply IH; [auto with lia|apply wrap_word; lia]]. destruct (Z.testbit x (Z.of_nat n)); [apply Hb; lia|by rewrite Hf0, Hg0].
Qed.

Lemma linear_id : linear (fun x => x).
Proof. done. Qed.
Lemma linear_comp f g : linear f -> linear g -> linear (fun x => f (g x)).
Proof. intros [Hf0 Hf] [Hg0 Hg]. split; [by rewrite Hg0|]. intros x y. by rewrite Hg, Hf. Qed.
Lemma linear_xor f g : linear f -> linear g -> linear (fun x => Z.lxor (f x) (g x)).
Proof.
  intros [Hf0 Hf] [Hg0 Hg]. split; [by rewrite Hf0, Hg0|]. intros x y. rewrite Hf, Hg. apply Z.bits_inj'. intros n _. rewrite !Z.lxor_spec.
  by destruct (Z.testbit (f x) n), (Z.testbit (g x) n), (Z.testbit (f y) n), (Z.testbit (g y) n).
Qed.
Lemma linear_shiftr k : linear (fun x => Z.shiftr x k).
Proof. split; [apply Z.shiftr_0_l|]. intros x y. apply Z.shiftr_lxor. Qed.
Lemma linear_shl w k : 0 <= w -> 0 <= k -> linear (fun x => wshl w x k).
Proof.
  intros Hw Hk. unfold wshl, wrap. split; [by rewrite Z.shiftl_0_l, Zmod_0_l|]. intros x y. rewrite Z.shiftl_lxor, <- !Z.land_ones by done.
  apply Z.bits_inj'. intros n Hn. rewrite !Z.lxor_spec, !Z.land_spec, !Z.lxor_spec.
  by destruct (Z.testbit (Z.ones w) n), (Z.testbit (Z.shiftl x k) n), (Z.testbit (Z.shiftl y k) n).
Qed.
(** Choosing a word by a bit is linear in the bit and in the word. *)
Lemma linear_pick k m : linear (fun x => if Z.testbit x k then m else 0).
Proof.
  split; [by rewrite Z.bits_0|]. intros x y. rewrite Z.lxor_spec.
  destruct (Z.testbit x k), (Z.testbit y k); simpl; by rewrite ?Z.lxor_nilpotent, ?Z.lxor_0_r, ?Z.lxor_0_l.
Qed.
Lemma linear_if (b : bool) f : linear f -> linear (fun x => if b then f x else 0).
Proof. by destruct b. Qed.

Create HintDb gf.
#[export] Hint Resolve linear_id linear_xor linear_shiftr linear_pick linear_if : gf.

Lemma linear_bit_step : linear bit_step.
Proof.
  assert (linear (fun x => Z.lxor (Z.shiftr x 1) (if Z.testbit x 0 then crc32c_m else 0))) as [H0 H] by auto with gf.
  split; [done|]. intros x y. specialize (H x y). by rewrite !Z.bit0_odd in H.
Qed.

Lemma linear_bits n : linear (bits n).
Proof. induction n as [|n IH]; [done|]. apply (linear_comp (bits n) bit_step); [done|apply linear_bit_step]. Qed.
#[export] Hint Resolve linear_bit_step linear_bits : gf.

Lemma bits_add n m x : bits (n + m) x = bits m (bits n x).
Proof. revert x. induction n as [|n IH]; intros x; simpl; auto. Qed.

Lemma bit_step_word x : word 32 x -> word 32 (bit_step x).
Proof.
  intros Hx. apply lxor_word; [lia|by apply shiftr_word|]. destruct (Z.odd x); split; vm_compute; congruence.
Qed.
Lemma bits_word n x : word 32 x -> word 32 (bits n x).
Proof. revert x. induction n as [|n IH]; intros x Hx; simpl; [done|]. by apply IH, bit_step_word. Qed.

(** Two linear functions on words of 32 bits, compared bit by bit. *)
Lemma linear_ext32 f g x :
  linear f -> linear g -> forallb (fun j => f (2 ^ Z.of_nat j) =? g (2 ^ Z.of_nat j)) (seq 0 32) = true -> word 32 x -> f x = g x.
Proof.
  intros Hf Hg H. apply (linear_ext f g 32 x Hf Hg). intros j Hj. rewrite forallb_forall in H. apply Z.eqb_eq, H, in_seq. lia.
Qed.

Lemma linear_land m : linear (fun x => Z.land x m).
Proof.
  split; [done|]. intros x y. apply Z.bits_inj'. intros n _. rewrite !Z.lxor_spec, !Z.land_spec, !Z.lxor_spec.
  by destruct (Z.testbit x n), (Z.testbit y n), (Z.testbit m n).
Qed.
#[export] Hint Resolve linear_land : gf.

Lemma bits_xor n x y : bits n (Z.lxor x y) = Z.lxor (bits n x) (bits n y).
Proof. apply linear_bits. Qed.

(** ** The tables *)

(** [t] holds the remainders of the bytes shifted by [n] bits. *)
Definition table_ok (t : list Z) (n : nat) : Prop := forall c, byte_ok c -> rd t 256 c = Ok (bits n c).

Lemma table_check t n :
  forallb (fun c => match rd t 256 c with Ok x => x =? bits n c | Err _ => false end) (Z.of_nat <$> seq 0 256) = true -> table_ok t n.
Proof.
  intros H c Hc. pose proof (byte_forallb _ c H Hc) as E. simpl in E. destruct (rd t 256 c); [|done]. apply Z.eqb_eq in E. by subst.
Qed.

Lemma table0_ok : table_ok table0_ 8.
Proof. apply table_check. vm_compute. reflexivity. Qed.
Lemma table1_ok : table_ok table1_ 16.
Proof. apply table_check. vm_compute. reflexivity. Qed.
Lemma table2_ok : table_ok table2_ 24.
Proof. apply table_check. vm_compute. reflexivity. Qed.
Lemma table3_ok : table_ok table3_ 32.
Proof. apply table_check. vm_compute. reflexivity. Qed.

(** ** Bytes *)

Lemma byte_word b : byte_ok b -> word 32 b.
Proof. unfold byte_ok, word. change (2 ^ 32) with 4294967296. lia. Qed.

Lemma land_255_byte x : byte_ok (Z.land x 255).
Proof. rewrite low_byte. apply Z.mod_pos_bound. lia. Qed.

Lemma byte_lxor a b : byte_ok a -> byte_ok b -> byte_ok (Z.lxor a b).
Proof. apply (lxor_word 8 a b). lia. Qed.

Lemma crc_byte_eq l b : crc_byte l b = bits 8 (Z.lxor l b).
Proof. reflexivity. Qed.

Lemma crc_byte_word l b : word 32 l -> byte_ok b -> word 32 (crc_byte l b).
Proof. intros Hl Hb. apply bits_word, lxor_word; [lia|done|by apply byte_word]. Qed.

Lemma crc_bytes_word l bs : word 32 l -> Forall byte_ok bs -> word 32 (crc_bytes l bs).
Proof. intros Hl Hb. revert l Hl. induction Hb as [|b bs Hb _ IH]; intros l Hl; simpl; [done|]. by apply IH, crc_byte_word. Qed.

Lemma crc_bytes_cons l b bs : crc_bytes l (b :: bs) = crc_bytes (crc_byte l b) bs.
Proof. reflexivity. Qed.

Lemma crc_bytes_app l a b : crc_bytes l (a ++ b) = crc_bytes (crc_bytes l a) b.
Proof. apply foldl_app. Qed.

Lemma bits_shift n x : bits n (x * 2 ^ Z.of_nat n) = x.
Proof.
  revert x. induction n as [|n IH]; intros x; [apply Z.mul_1_r|]. cbn [bits].
  replace (bit_step (x * 2 ^ Z.of_nat (S n))) with (x * 2 ^ Z.of_nat n); [apply IH|].
  rewrite Nat2Z.inj_succ, Z.pow_succ_r by lia. unfold bit_step. rewrite Z.shiftr_div_pow2 by lia. change (2 ^ 1) with 2.
  replace (x * (2 * 2 ^ Z.of_nat n)) with (x * 2 ^ Z.of_nat n * 2) by lia. rewrite Z.odd_mul, andb_false_r, Z.lxor_0_r, Z.div_mul by lia. done.
Qed.

(** Bytes are divided as the little-endian number they are. *)
Lemma crc_bytes_value l bs : Forall byte_ok bs -> crc_bytes l bs = bits (8 * length bs) (Z.lxor l (le_value bs)).
Proof.
  intros Hb. revert l. induction Hb as [|b bs Hb _ IH]; intros l; [simpl; by rewrite Z.lxor_0_r|].
  rewrite crc_bytes_cons, IH.
  replace (8 * length (b :: bs))%nat with (8 + 8 * length bs)%nat by (simpl; lia). rewrite bits_add. f_equal. cbn [le_value].
  replace (b + 256 * le_value bs) with (Z.lxor b (le_value bs * 2 ^ 8)).
  - rewrite <- Z.lxor_assoc, bits_xor. f_equal. symmetry. apply (bits_shift 8).
  - rewrite <- Z.add_nocarry_lxor by (apply land_shifted; [lia|exact Hb]). change (2 ^ 8) with 256. lia.
Qed.

Lemma STEP1_ok l b p : word 32 l -> byte_ok b -> STEP1 l (b :: p) = Ok (crc_byte l b, p).
Proof.
  intros Hl Hb. unfold STEP1. rewrite table0_ok by (apply byte_lxor; [apply land_255_byte|done]). cbn [rbind]. do 2 f_equal.
  unfold crc_byte. rewrite !bits_xor.
  replace (bits 8 l) with (Z.lxor (bits 8 (Z.land l 255)) (Z.shiftr l 8)).
  - rewrite !Z.lxor_assoc. f_equal. apply Z.lxor_comm.
  - apply (linear_ext32 (fun l => Z.lxor (bits 8 (Z.land l 255)) (Z.shiftr l 8)) (bits 8)); [|auto with gf|vm_compute; reflexivity|done].
    apply linear_xor; [apply (linear_comp (bits 8)); auto with gf|auto with gf].
Qed.

Lemma step_loop_ok l bs p : word 32 l -> Forall byte_ok bs -> step_loop (length bs) l (bs ++ p) = Ok (crc_bytes l bs, p).
Proof.
  intros Hl Hb. revert l Hl. induction Hb as [|b bs Hb Hbs IH]; intros l Hl; [done|]. cbn [length step_loop app].
  rewrite STEP1_ok by done. cbn [rbind]. by apply IH, crc_byte_word.
Qed.

Lemma shiftr_byte c : word 32 c -> byte_ok (Z.shiftr c 24).
Proof.
  intros [H0 H1]. rewrite Z.shiftr_div_pow2 by lia. split; [apply Z.div_pos; lia|]. by apply Z.div_lt_upper_bound.
Qed.

(** The four table entries of a word, and its remainder. *)
Lemma word_tables c : word 32 c ->
  Z.lxor (Z.lxor (Z.lxor (bits 32 (Z.land c 255)) (bits 24 (Z.land (Z.shiftr c 8) 255))) (bits 16 (Z.land (Z.shiftr c 16) 255))) (bits 8 (Z.shiftr c 24))
  = bits 32 c.
Proof.
  assert (forall n k, linear (fun c => bits n (Z.land (Z.shiftr c k) 255))) as Hl.
  { intros n k. apply (linear_comp (bits n) (fun c => Z.land (Z.shiftr c k) 255)); [auto with gf|].
    apply (linear_comp (fun x => Z.land x 255)); auto with gf. }
  apply (linear_ext32 (fun c => Z.lxor (Z.lxor (Z.lxor (bits 32 (Z.land c 255)) (bits 24 (Z.land (Z.shiftr c 8) 255)))
    (bits 16 (Z.land (Z.shiftr c 16) 255))) (bits 8 (Z.shiftr c 24))) (bits 32)); [|auto with gf|vm_compute; reflexivity].
  apply linear_xor; [apply linear_xor; [apply linear_xor|]|]; [|exact (Hl 24%nat 8)|exact (Hl 16%nat 16)|].
  - apply (linear_comp (bits 32) (fun x => Z.land x 255)); [apply linear_bits|apply linear_land].
  - apply (linear_comp (bits 8) (fun x => Z.shiftr x 24)); [apply linear_bits|apply linear_shiftr].
Qed.

Section extend_ok.
Context {port : Port}.

Lemma crc_word_ok l bs p : word 32 l -> Forall byte_ok bs -> length bs = 4%nat -> crc_word l (bs ++ p) = Ok (crc_bytes l bs, p).
Proof.
  intros Hl Hb H4. unfold crc_word, LE_LOAD32. rewrite DecodeFixed32_le by done. cbn [rbind].
  pose proof (le_value_bound bs Hb) as Hv. rewrite H4 in Hv. change (8 * Z.of_nat 4) with 32 in Hv.
  rewrite wrap_id by (by apply lxor_word). assert (word 32 (Z.lxor l (le_value bs))) as Hc by (by apply lxor_word).
  rewrite table3_ok, table2_ok, table1_ok, table0_ok by (apply land_255_byte || by apply shiftr_byte). cbn [rbind].
  rewrite word_tables by exact Hc. rewrite crc_bytes_value, H4 by exact Hb. by rewrite (drop_app_length' bs p 4).
Qed.

(** An implementation of [DefaultCRC32] takes the next eight bytes. *)
Definition eats_eight (CRC32 : Z -> list Z -> result (Z * list Z)) : Prop :=
  forall l bs p, word 32 l -> Forall byte_ok bs -> length bs = 8%nat -> CRC32 l (bs ++ p) = Ok (crc_bytes l bs, p).

Lemma DefaultCRC32_ok : eats_eight DefaultCRC32.
Proof.
  intros l bs p Hl Hb H8. unfold DefaultCRC32. rewrite <- (take_drop 4 bs) in Hb |- *. apply Forall_app in Hb as [H1 H2].
  rewrite <- app_assoc, crc_word_ok by (try done; rewrite length_take; lia). cbn [rbind].
  rewrite crc_word_ok; [|by apply crc_bytes_word|done|rewrite length_drop; lia]. by rewrite crc_bytes_app.
Qed.

Section impl.
Context (CRC32 : Z -> list Z -> result (Z * list Z)) (HCRC : eats_eight CRC32).

(** A loop may stop anywhere: what is left has the remainder of the whole. *)
Definition left_over (l : Z) (p : list Z) (r : result (Z * list Z)) : Prop :=
  exists l' q, r = Ok (l', q) /\ word 32 l' /\ Forall byte_ok q /\ crc_bytes l' q = crc_bytes l p.

Lemma left_over_refl l p : word 32 l -> Forall byte_ok p -> left_over l p (Ok (l, p)).
Proof. intros Hl Hp. by exists l, p. Qed.

Lemma left_over_split l p n r : left_over (crc_bytes l (take n p)) (drop n p) r -> left_over l p r.
Proof. intros (l' & q & Hr & Hl & Hq & E). exists l', q. split_and!; [done..|]. by rewrite E, <- crc_bytes_app, take_drop. Qed.

Lemma crc_take l p n : word 32 l -> Forall byte_ok p -> word 32 (crc_bytes l (take n p)) /\ Forall byte_ok (drop n p).
Proof. intros Hl Hp. split; [by apply crc_bytes_word, Forall_take|by apply Forall_drop]. Qed.

Lemma eat_eight l p : word 32 l -> Forall byte_ok p -> (8 <= length p)%nat -> CRC32 l p = Ok (crc_bytes l (take 8 p), drop 8 p).
Proof.
  intros Hl Hp H8. rewrite <- (take_drop 8 p) at 1. apply HCRC; [done|by apply Forall_take|]. rewrite length_take. lia.
Qed.

Lemma eight_loop_ok fuel l p : word 32 l -> Forall byte_ok p -> (length p <= fuel)%nat -> left_over l p (eight_loop CRC32 fuel l p).
Proof.
  revert l p. induction fuel as [|fuel IH]; intros l p Hl Hp Hf; cbn [eight_loop]; destruct (Nat.leb_spec 8 (length p)); try lia;
    [by apply left_over_refl| |by apply left_over_refl].
  rewrite eat_eight by done. cbn [rbind]. apply (left_over_split l p 8). destruct (crc_take l p 8 Hl Hp). apply IH; [done|done|].
  rewrite length_drop. lia.
Qed.

Lemma sixteen_loop_ok fuel l p : word 32 l -> Forall byte_ok p -> (length p <= fuel)%nat -> left_over l p (sixteen_loop CRC32 fuel l p).
Proof.
  revert l p. induction fuel as [|fuel IH]; intros l p Hl Hp Hf; cbn [sixteen_loop]; destruct (Nat.leb_spec 16 (length p)); try lia;
    [by apply left_over_refl| |by apply left_over_refl].
  destruct (crc_take l p 8 Hl Hp) as [Hl1 Hp1]. destruct (crc_take _ _ 8 Hl1 Hp1) as [Hl2 Hp2].
  rewrite eat_eight by (done || lia). cbn [rbind]. rewrite eat_eight by (try done; rewrite length_drop; lia). cbn [rbind].
  apply (left_over_split l p 8), (left_over_split _ _ 8). apply IH; [done|done|]. rewrite !length_drop. lia.
Qed.

Lemma step_prefix n l p : word 32 l -> Forall byte_ok p -> (n <= length p)%nat -> left_over l p (step_loop n l p).
Proof.
  intros Hl Hp Hn. apply (left_over_split l p n). destruct (crc_take l p n Hl Hp).
  replace (step_loop n l p) with (Ok (crc_bytes l (take n p), drop n p)); [by apply left_over_refl|].
  rewrite <- (step_loop_ok l (take n p) (drop n p)) by (try done; by apply Forall_take). by rewrite take_drop, length_take_le.
Qed.

(** The next multiple of sixteen is not before the address. *)
Lemma ALIGN_ge pval : 0 <= pval -> pval + 16 <= 2 ^ 64 -> pval <= ALIGN pval 4.
Proof.
  intros H0 H1. unfold ALIGN, wadd. change (Z.shiftl 1 4 - 1) with 15. rewrite wrap_id by (split; lia).
  change (wrap 64 (Z.lnot 15)) with (Z.shiftl (Z.ones 60) 4). set (n := pval + 15).
  replace (Z.land n (Z.shiftl (Z.ones 60) 4)) with (Z.shiftl (Z.land (Z.shiftr n 4) (Z.ones 60)) 4).
  - rewrite Z.land_ones, Z.shiftl_mul_pow2, Z.shiftr_div_pow2 by lia. change (2 ^ 4) with 16.
    rewrite Z.mod_small; [unfold n; div_lia|]. split; [apply Z.div_pos; lia|]. apply Z.div_lt_upper_bound; [lia|]. change (16 * 2 ^ 60) with (2 ^ 64). lia.
  - apply Z.bits_inj'. intros i Hi. rewrite Z.land_spec, !Z.shiftl_spec, Z.land_spec by lia. destruct (Z.lt_ge_cases i 4).
    + by rewrite !(Z.testbit_neg_r _ (i - 4)), !andb_false_r by lia.
    + rewrite Z.shiftr_spec by lia. by replace (i - 4 + 4) with i by lia.
Qed.

Lemma ones_word : word 32 0xffffffff.
Proof. split; vm_compute; congruence. Qed.

Lemma ExtendImpl_ok pval crc buf :
  0 <= pval -> pval + 16 <= 2 ^ 64 -> word 32 crc -> Forall byte_ok buf -> ExtendImpl CRC32 pval crc buf = Ok (crc32c crc buf).
Proof.
  intros H0 H1 Hc Hb. pose proof (ALIGN_ge pval H0 H1) as Ha. unfold ExtendImpl, crc32c.
  assert (word 32 (Z.lxor crc 0xffffffff)) as Hl by (apply lxor_word; [lia|done|apply ones_word]). set (l := Z.lxor crc 0xffffffff) in *.
  assert (left_over l buf (if ALIGN pval 4 <=? pval + Z.of_nat (length buf) then step_loop (Z.to_nat (ALIGN pval 4 - pval)) l buf else Ok (l, buf)))
    as (l1 & p1 & -> & Hl1 & Hp1 & <-).
  { destruct (Z.leb_spec (ALIGN pval 4) (pval + Z.of_nat (length buf))); [apply step_prefix; [done|done|lia]|by apply left_over_refl]. }
  cbn [rbind]. destruct (sixteen_loop_ok (length p1) l1 p1) as (l2 & p2 & -> & Hl2 & Hp2 & <-); [done..|]. cbn [rbind].
  destruct (eight_loop_ok (length p2) l2 p2) as (l3 & p3 & -> & Hl3 & Hp3 & <-); [done..|]. cbn [rbind].
  pose proof (step_loop_ok l3 p3 [] Hl3 Hp3) as E. rewrite app_nil_r in E. rewrite E. cbn [rbind]. f_equal. apply wrap_id.
  apply lxor_word; [lia|by apply crc_bytes_word|apply ones_word].
Qed.

End impl.
End extend_ok.

(** The portable implementation, for a buffer at [pval]. *)
Definition PortableExtend {port : Port} (pval : Z) : Extender := ExtendImpl DefaultCRC32 pval.

Lemma portable_ok {port : Port} pval : 0 <= pval -> pval + 16 <= 2 ^ 64 -> ExtenderOk (PortableExtend pval).
Proof. intros H0 H1 crc buf Hc Hb. apply ExtendImpl_ok; [apply DefaultCRC32_ok|done..]. Qed.

(** ** Multiplication of remainders *)

(** The product as a sum: the rounds of [gf_multiply_sw_1] without masks. *)
Fixpoint product (n : nat) (a b : Z) : Z :=
  match n with
  | O => 0
  | S n => Z.lxor (if Z.testbit b 31 then a else 0) (product n (bit_step a) (wshl 32 b 1))
  end.

(** [0u - bit] is a mask of ones or of zeros. *)
Lemma mask_bit x m : word 32 m -> Z.land (wsub 32 0 (Z.land x 1)) m = if Z.odd x then m else 0.
Proof.
  intros Hm. change 1 with (Z.ones 1). rewrite Z.land_ones by lia. change (2 ^ 1) with 2. rewrite Zmod_odd. destruct (Z.odd x).
  - change (wsub 32 0 1) with (Z.ones 32). rewrite Z.land_comm, Z.land_ones by lia. by apply wrap_id.
  - done.
Qed.

Lemma gf_multiply_product n p a b : word 32 a -> gf_multiply_sw_1 n p a b crc32c_m = Z.lxor p (product n a b).
Proof.
  revert p a b. induction n as [|n IH]; intros p a b Ha; cbn [gf_multiply_sw_1 product]; [by rewrite Z.lxor_0_r|].
  assert (word 32 crc32c_m) as Hm by (split; vm_compute; congruence). rewrite !mask_bit by done.
  change (Z.lxor (Z.shiftr a 1) (if Z.odd a then crc32c_m else 0)) with (bit_step a). rewrite IH by (by apply bit_step_word).
  rewrite <- Z.bit0_odd, Z.shiftr_spec, Z.lxor_assoc by lia. done.
Qed.

Lemma linear_product_l n b : linear (fun a => product n a b).
Proof.
  revert b. induction n as [|n IH]; intros b; [done|]. cbn [product]. apply linear_xor; [by apply linear_if|].
  apply (linear_comp (fun a => product n a (wshl 32 b 1)) bit_step); [apply IH|apply linear_bit_step].
Qed.

Lemma linear_product_r n a : linear (product n a).
Proof.
  revert a. induction n as [|n IH]; intros a; [done|].
  apply (linear_xor (fun b => if Z.testbit b 31 then a else 0) (fun b => product n (bit_step a) (wshl 32 b 1))); [apply linear_pick|].
  apply (linear_comp (product n (bit_step a)) (fun b => wshl 32 b 1)); [apply IH|by apply linear_shl].
Qed.

(** Multiplying a factor by the indeterminate multiplies the product: both
    sides are linear in both factors, and agree on the 32 x 32 pairs of bits. *)
Lemma product_step a b : word 32 a -> word 32 b -> product 32 a (bit_step b) = bit_step (product 32 a b).
Proof.
  intros Ha Hb. apply (linear_ext (fun b => product 32 a (bit_step b)) (fun b => bit_step (product 32 a b)) 32 b).
  - apply (linear_comp (product 32 a) bit_step); [apply linear_product_r|apply linear_bit_step].
  - apply (linear_comp bit_step (product 32 a)); [apply linear_bit_step|apply linear_product_r].
  - intros j Hj. apply (linear_ext32 (fun a => product 32 a (bit_step (2 ^ Z.of_nat j))) (fun a => bit_step (product 32 a (2 ^ Z.of_nat j)))); [| | |done].
    + apply linear_product_l.
    + apply (linear_comp bit_step (fun a => product 32 a (2 ^ Z.of_nat j))); [apply linear_bit_step|apply linear_product_l].
    + assert (forallb (fun j => forallb (fun i => product 32 (2 ^ Z.of_nat i) (bit_step (2 ^ Z.of_nat j)) =?
        bit_step (product 32 (2 ^ Z.of_nat i) (2 ^ Z.of_nat j))) (seq 0 32)) (seq 0 32) = true) as H by (vm_compute; reflexivity).
      rewrite forallb_forall in H. apply H, in_seq. lia.
  - done.
Qed.

(** The polynomial 1, and its multiples by powers of the indeterminate. *)
Definition one : Z := 2 ^ 31.

Lemma one_word : word 32 one.
Proof. split; vm_compute; congruence. Qed.

Lemma bits_S n x : bits (S n) x = bit_step (bits n x).
Proof. revert x. induction n as [|n IH]; intros x; [done|]. cbn [bits] in *. by rewrite IH. Qed.

Lemma product_power a n : word 32 a -> product 32 a (bits n one) = bits n a.
Proof.
  intros Ha. induction n as [|n IH].
  - apply (linear_ext32 (fun a => product 32 a one) (fun a => a)); [apply linear_product_l|apply linear_id|vm_compute; reflexivity|done].
  - rewrite !bits_S, product_step by (try done; apply bits_word, one_word). by rewrite IH.
Qed.

Lemma gf_multiply_power a n : word 32 a -> gf_multiply_sw a (bits n one) crc32c_m = bits n a.
Proof. intros Ha. unfold gf_multiply_sw. by rewrite gf_multiply_product, Z.lxor_0_l, product_power. Qed.

(** [n] bits at once, for numbers too large to write in unary. *)
Definition zbits (n x : Z) : Z := bits (Z.to_nat n) x.

Lemma zbits_add n m x : 0 <= n -> 0 <= m -> zbits (n + m) x = zbits m (zbits n x).
Proof. intros Hn Hm. unfold zbits. by rewrite Z2Nat.inj_add, bits_add. Qed.

Lemma zbits_word n x : word 32 x -> word 32 (zbits n x).
Proof. apply bits_word. Qed.

Lemma gf_powers_memo_ok i : gf_powers_memo i crc32c_m = zbits (32 * 2 ^ Z.of_nat i) one.
Proof.
  induction i as [|i IH]; [vm_compute; reflexivity|]. cbn [gf_powers_memo]. unfold gf_square_sw. rewrite IH. unfold zbits at 2.
  rewrite gf_multiply_power by (apply zbits_word, one_word). fold (zbits (32 * 2 ^ Z.of_nat i) (zbits (32 * 2 ^ Z.of_nat i) one)).
  assert (0 < 2 ^ Z.of_nat i) by (apply Z.pow_pos_nonneg; lia). rewrite <- zbits_add by lia. f_equal. rewrite Nat2Z.inj_succ, Z.pow_succ_r; lia.
Qed.

Lemma crc32c_powers_ok i : 0 <= i < 62 -> rd crc32c_powers 62 i = Ok (zbits (32 * 2 ^ i) one).
Proof.
  intros Hi. apply rd_ok; [done|]. unfold crc32c_powers, gf_powers_make. rewrite list_lookup_fmap, lookup_seq_lt by lia. cbn [fmap option_fmap option_map].
  f_equal. rewrite gf_powers_memo_ok. by rewrite Nat.add_0_l, Z2Nat.id by lia.
Qed.

Lemma trailing_zeros_ok p : exists q, 0 <= q /\ 0 <= trailing_zeros p /\ Zpos p = 2 ^ trailing_zeros p * (2 * q + 1).
Proof.
  induction p as [p IH|p IH|]; [exists (Zpos p)| |by exists 0]; cbn [trailing_zeros].
  - split; [lia|]. split; [lia|]. lia.
  - destruct IH as (q & Hq & H0 & E). exists q. split; [done|]. split; [lia|]. rewrite Z.pow_add_r by lia. change (2 ^ 1) with 2. lia.
Qed.

(** Shifting out the bits of [n], the checksum is moved by [32 * 2^k * n] bits. *)
Lemma append_loop_ok fuel crc n k :
  word 32 crc -> 0 <= n < 2 ^ Z.of_nat fuel -> 0 <= k -> n * 2 ^ k < 2 ^ 62 ->
  append_loop fuel crc n k crc32c_m crc32c_powers = Ok (zbits (32 * 2 ^ k * n) crc).
Proof.
  revert crc n k. induction fuel as [|fuel IH]; intros crc n k Hc Hn Hk Hb; cbn [append_loop]; destruct (Z.eqb_spec n 0) as [->|Hne];
    try (by rewrite Z.mul_0_r); [simpl in Hn; lia|]. destruct n as [|p|p]; try lia. cbn [CountTrailingZeroBits rbind].
  destruct (trailing_zeros_ok p) as (q & Hq & Hr & E). set (r := trailing_zeros p) in *. rewrite E in *. clear E.
  assert (0 < 2 ^ k) by (apply Z.pow_pos_nonneg; lia). assert (0 < 2 ^ r) by (apply Z.pow_pos_nonneg; lia).
  replace (Z.shiftr (Z.shiftr (2 ^ r * (2 * q + 1)) r) 1) with q
    by (rewrite !Z.shiftr_div_pow2, (Z.mul_comm (2 ^ r)), Z.div_mul by lia; change (2 ^ 1) with 2; div_lia). rewrite Nat2Z.inj_succ, Z.pow_succ_r in Hn by lia.
  assert (k + r < 62) as Hkr.
  { apply (Z.pow_lt_mono_r_iff 2); [lia|lia|]. rewrite Z.pow_add_r by lia. nia. }
  rewrite crc32c_powers_ok by lia. cbn [rbind]. unfold zbits at 1. rewrite gf_multiply_power by done. fold (zbits (32 * 2 ^ (k + r)) crc).
  rewrite IH; [|by apply zbits_word|nia|lia|].
  - rewrite <- zbits_add; [|rewrite Z.pow_add_r by lia; lia|rewrite !Z.pow_add_r by lia; change (2 ^ 1) with 2; lia]. do 2 f_equal. rewrite !Z.pow_add_r by lia. change (2 ^ 1) with 2. lia.
  - rewrite !Z.pow_add_r by lia. change (2 ^ 1) with 2. nia.
Qed.

Lemma crc_bytes_zeros n l : crc_bytes l (replicate n 0) = bits (8 * n) l.
Proof.
  revert l. induction n as [|n IH]; intros l; [done|]. cbn [replicate]. rewrite crc_bytes_cons, IH. unfold crc_byte. rewrite Z.lxor_0_r. replace (8 * S n)%nat with (8 + 8 * n)%nat by lia. by rewrite bits_add.
Qed.

(** What is added to the register before the bytes passes through as zeros. *)
Lemma crc_bytes_xor l l' bs : crc_bytes (Z.lxor l l') bs = Z.lxor (bits (8 * length bs) l) (crc_bytes l' bs).
Proof.
  revert l l'. induction bs as [|b bs IH]; intros l l'; [done|].
  rewrite !crc_bytes_cons. unfold crc_byte. rewrite Z.lxor_assoc, bits_xor, IH.
  replace (8 * length (b :: bs))%nat with (8 + 8 * length bs)%nat by (simpl; lia). rewrite bits_add. reflexivity.
Qed.

(** [~x] on 32 bits. *)
Lemma lnot_ones x : word 32 x -> wrap 32 (Z.lnot x) = Z.lxor x 0xffffffff.
Proof.
  intros Hx. change 0xffffffff with (2 ^ 32 - 1). rewrite lxor_ones by (lia || done). unfold Z.lnot, wrap, word in *.
  change (2 ^ 32) with 4294967296 in *. div_lia.
Qed.

Lemma ones_twice x : Z.lxor (Z.lxor x 0xffffffff) 0xffffffff = x.
Proof. by rewrite Z.lxor_assoc, Z.lxor_nilpotent, Z.lxor_0_r. Qed.

Lemma xor_ones_word x : word 32 x -> word 32 (Z.lxor x 0xffffffff).
Proof. intros Hx. apply lxor_word; [lia|done|apply ones_word]. Qed.

Lemma crc32c_word crc buf : word 32 crc -> Forall byte_ok buf -> word 32 (crc32c crc buf).
Proof. intros Hc Hb. apply xor_ones_word, crc_bytes_word; [by apply xor_ones_word|done]. Qed.

Lemma crc32c_app crc a b : crc32c (crc32c crc a) b = crc32c crc (a ++ b).
Proof. unfold crc32c. by rewrite ones_twice, crc_bytes_app. Qed.

Section combine.
Context {ext : Extender} {Hext : ExtenderOk ext}.

Lemma PureExtend_ok crc buf : word 32 crc -> Forall byte_ok buf -> PureExtend crc buf = Ok (crc_bytes crc buf).
Proof.
  intros Hc Hb. unfold PureExtend, InvertedToPure, PureToInverted. rewrite lnot_ones, Extend_ok by (try done; by apply xor_ones_word). cbn [rbind].
  rewrite lnot_ones by (by apply crc32c_word; [apply xor_ones_word|]). unfold crc32c. by rewrite !ones_twice.
Qed.

Lemma Crc32cCombine_ok crc b : word 32 crc -> Forall byte_ok b -> Z.of_nat (length b) < 2 ^ 64 ->
  Crc32cCombine crc (crc32c 0 b) (Z.of_nat (length b)) = Ok (crc32c crc b).
Proof.
  intros Hc Hb Hlen. unfold Crc32cCombine, InvertedToPure, PureToInverted. change (wrap 32 (-1)) with 0xffffffff.
  assert (word 32 0) as H0 by (split; vm_compute; congruence). pose proof (crc32c_word 0 b H0 Hb) as H2. rewrite !lnot_ones by done. rewrite ones_twice.
  set (n := Z.of_nat (length b)) in *. set (len := Z.land n 3). assert (len = n mod 4) as Elen by (unfold len; change 3 with (Z.ones 2); by rewrite Z.land_ones).
  pose proof (Z.mod_pos_bound n 4 ltac:(lia)).
  assert ((if len =? 0 then Ok crc else PureExtend crc (take (Z.to_nat len) [0; 0; 0; 0])) = Ok (zbits (8 * len) crc)) as ->.
  { destruct (Z.eqb_spec len 0) as [->|Hne]; [done|]. change [0; 0; 0; 0] with (replicate 4 0). rewrite take_replicate, Nat.min_l by lia.
    rewrite PureExtend_ok by (try done; by apply Forall_replicate). rewrite crc_bytes_zeros. unfold zbits. do 2 f_equal. lia. }
  cbn [rbind]. unfold Crc32AppendZeroes. rewrite append_loop_ok; [|by apply zbits_word|split; [div_lia|]|lia|].
  - cbn [rbind]. assert (0 <= n / 4) by (apply Z.div_pos; lia). rewrite <- zbits_add by lia.
    rewrite lnot_ones by (apply lxor_word; [lia|by apply zbits_word|by apply xor_ones_word]).
    unfold crc32c. rewrite ones_twice, Z.lxor_0_l. do 2 f_equal.
    rewrite crc_bytes_xor. f_equal. unfold zbits. f_equal. change (2 ^ 0) with 1. rewrite Elen. unfold n. div_lia.
  - change (2 ^ Z.of_nat 64) with (2 ^ 64). div_lia.
  - change (2 ^ 0) with 1. change (2 ^ 62) with (2 ^ 64 / 4). div_lia.
Qed.

End combine.

(** ** Masking *)

Lemma rotate_back x : word 32 x -> wrotl 32 (wrotl 32 x 17) 15 = x.
Proof.
  intros Hx. assert (word 32 (wrotl 32 x 17)) as H1 by (apply wrotl_word; [lia|done]). assert (word 32 (wrotl 32 (wrotl 32 x 17) 15)) as H2 by (apply wrotl_word; [lia|done]).
  apply Z.bits_inj'. intros n Hn. destruct (Z.lt_ge_cases n 32) as [Hlt|Hge].
  - rewrite wrotl_bit by (lia || done). destruct (Z.ltb_spec n 15); rewrite wrotl_bit by (lia || done).
    + rewrite (proj2 (Z.ltb_ge _ _)) by lia. f_equal. lia.
    + destruct (Z.ltb_spec (n - 15) 17); f_equal; lia.
  - apply word_bits in H2 as [_ H2]; [|lia]. apply word_bits in Hx as [_ Hx]; [|lia]. by rewrite H2, Hx.
Qed.

Lemma Unmask_Mask crc : word 32 crc -> word 32 (Mask crc) /\ Unmask (Mask crc) = crc.
Proof.
  intros Hc. split; [apply wrap_word; lia|]. unfold Mask, Unmask. rewrite (Z.lor_comm (Z.shiftr crc 15)).
  change (Z.lor (wshl 32 crc 17) (Z.shiftr crc 15)) with (wrotl 32 crc 17). set (r := wrotl 32 crc 17).
  assert (word 32 r) as Hr by (apply wrotl_word; [lia|done]).
  replace (wsub 32 (wadd 32 r kMaskDelta) kMaskDelta) with r.
  - rewrite Z.lor_comm. change (Z.lor (wshl 32 r 15) (Z.shiftr r 17)) with (wrotl 32 r 15). by apply rotate_back.
  - unfold wsub, wadd, wrap. by rewrite Zminus_mod_idemp_l, Z.add_simpl_r, Z.mod_small.
Qed.

(** ** Errors a checksum detects *)

Lemma bit_step_inj x y : word 32 x -> word 32 y -> bit_step x = bit_step y -> x = y.
Proof.
  intros Hx Hy H. apply Z.lxor_eq. assert (word 32 (Z.lxor x y)) as [Hz0 Hz1] by (by apply lxor_word).
  assert (bit_step (Z.lxor x y) = 0) as E by (rewrite (proj2 linear_bit_step), H; apply Z.lxor_nilpotent). set (z := Z.lxor x y) in *.
  unfold bit_step in E. apply Z.lxor_eq in E. rewrite Z.shiftr_div_pow2 in E by lia. change (2 ^ 1) with 2 in E. change (2 ^ 32) with 4294967296 in Hz1.
  pose proof (Zmod_odd z) as Ho. destruct (Z.odd z); [unfold crc32c_m in E|]; div_lia.
Qed.

Lemma bits_inj n x y : word 32 x -> word 32 y -> bits n x = bits n y -> x = y.
Proof.
  revert x y. induction n as [|n IH]; intros x y Hx Hy H; [done|]. apply bit_step_inj; [done|done|]. apply IH; [by apply bit_step_word..|done].
Qed.

Lemma crc_bytes_inj l l' bs : word 32 l -> word 32 l' -> Forall byte_ok bs -> crc_bytes l bs = crc_bytes l' bs -> l = l'.
Proof.
  intros Hl Hl' Hb. revert l l' Hl Hl'. induction Hb as [|b bs Hb _ IH]; intros l l' Hl Hl' H; [done|].
  rewrite !crc_bytes_cons in H. apply IH in H; [|by apply crc_byte_word..]. pose proof (byte_word b Hb).
  rewrite !crc_byte_eq in H. apply bits_inj in H; [|by apply lxor_word..]. by apply lxor_inj in H.
Qed.

(** Four bytes at most: as many bits as the checksum has. *)
Lemma crc_bytes_burst l x x' : word 32 l -> Forall byte_ok x -> Forall byte_ok x' -> length x = length x' -> (length x <= 4)%nat ->
  crc_bytes l x = crc_bytes l x' -> x = x'.
Proof.
  intros Hl Hx Hx' He H4 H. rewrite !crc_bytes_value, <- He in H by done. apply le_value_inj; [done..|].
  assert (forall y, Forall byte_ok y -> (length y <= 4)%nat -> word 32 (le_value y)) as Hw.
  { intros y Hy Hn. pose proof (le_value_bound y Hy) as [? Hb]. split; [done|]. apply Z.lt_le_trans with (1 := Hb). apply Z.pow_le_mono_r; lia. }
  assert (word 32 (le_value x)) by (by apply Hw). assert (word 32 (le_value x')) by (apply Hw; [done|lia]).
  apply bits_inj in H; [|by apply lxor_word..]. rewrite !(Z.lxor_comm l) in H. by apply lxor_inj in H.
Qed.

(** ** The properties *)

(** C18. The portable implementation, which aligns its pointer and takes the
    bytes one, eight and sixteen at a time through four tables, computes the
    remainder of the polynomial division bit by bit, whatever the byte order of
    the machine and the address of the buffer; and two buffers that differ only
    within four consecutive bytes have different checksums. *)
Theorem ExtendImpl_crc32c (port : Port) pval crc a x x' b :
  0 <= pval -> pval + 16 <= 2 ^ 64 -> word 32 crc -> Forall (Forall byte_ok) [a; x; x'; b] ->
  ExtendImpl DefaultCRC32 pval crc (a ++ x ++ b) = Ok (crc32c crc (a ++ x ++ b)) /\
  (length x = length x' -> (length x <= 4)%nat -> x <> x' ->
   ExtendImpl DefaultCRC32 pval crc (a ++ x' ++ b) <> ExtendImpl DefaultCRC32 pval crc (a ++ x ++ b)).
Proof.
  rewrite !Forall_cons. intros H0 H1 Hc (Ha & Hx & Hx' & Hb & _). assert (word 32 (Z.lxor crc 0xffffffff)) as Hl by (by apply xor_ones_word).
  rewrite !(ExtendImpl_ok DefaultCRC32 DefaultCRC32_ok) by (try done; by rewrite !Forall_app). split; [done|]. intros Hlen H4 Hne [= H].
  apply Hne. symmetry. apply lxor_inj in H. rewrite !crc_bytes_app in H.
  assert (word 32 (crc_bytes (Z.lxor crc 0xffffffff) a)) as Hla by (by apply crc_bytes_word).
  apply crc_bytes_inj in H; [|by apply crc_bytes_word..|done]. by apply crc_bytes_burst in H; [|done|done|done|lia|lia].
Qed.

(** C24. [Crc32cCombine] computes the checksum of a concatenation from those of
    its parts with any correct [Extend], multiplying by powers of the
    indeterminate instead of reading the data; and masking is undone. *)
Theorem Crc32cCombine_app {ext : Extender} (Hext : ExtenderOk ext) a b :
  Forall byte_ok a -> Forall byte_ok b -> Z.of_nat (length b) < 2 ^ 64 ->
  exists c1 c2 c, Value a = Ok c1 /\ Value b = Ok c2 /\ Value (a ++ b) = Ok c /\
    Crc32cCombine c1 c2 (Z.of_nat (length b)) = Ok c /\ Unmask (Mask c) = c.
Proof.
  intros Ha Hb Hl. assert (word 32 0) as H0 by (split; vm_compute; congruence).
  exists (crc32c 0 a), (crc32c 0 b), (crc32c 0 (a ++ b)). unfold Value. rewrite !Extend_ok by (try done; by apply Forall_app).
  split_and!; [done..| |].
  - rewrite Crc32cCombine_ok, crc32c_app by (try done; by apply crc32c_word). done.
  - apply Unmask_Mask, crc32c_word; [done|by apply Forall_app].
Qed.

(** The check value of the standard: nine digits; and a short buffer that starts
    three bytes before a multiple of sixteen. *)
Definition digits : list Z := [49; 50; 51; 52; 53; 54; 55; 56; 57].

Example crc32c_check : ExtendImpl (DefaultCRC32 (port := true)) 4096 0 digits = Ok 0xe3069283.
Proof. vm_compute. reflexivity. Qed.

Lemma ExtendImpl_crc32c_witness :
  ExtendImpl (DefaultCRC32 (port := false)) 4109 0 digits = Ok (crc32c 0 digits) /\ crc32c 0 digits = 0xe3069283.
Proof.
  split; [|vm_compute; reflexivity].
  apply (ExtendImpl_crc32c false 4109 0 [] digits [] []); [lia|vm_compute; congruence|split; vm_compute; congruence|].
  repeat constructor; vm_compute; congruence.
Defined.

Lemma Crc32cCombine_app_witness :
  exists c1 c2 c, Value (H := PortableExtend (port := true) 4096) digits = Ok c1 /\ Value (H := PortableExtend (port := true) 4096) digits = Ok c2 /\
    Value (H := PortableExtend (port := true) 4096) (digits ++ digits) = Ok c /\
    Crc32cCombine (H := PortableExtend (port := true) 4096) c1 c2 9 = Ok c /\ Unmask (Mask c) = c.
Proof.
  apply (Crc32cCombine_app (ext := PortableExtend (port := true) 4096) (portable_ok (port := true) 4096 ltac:(lia) ltac:(vm_compute; congruence)) digits digits);
    [repeat constructor; vm_compute; congruence|repeat constructor; vm_compute; congruence|reflexivity].
Defined.
