(* ===== verification/Log.v ===== *)
(** * The write-ahead log

    db/log_format.h, db/log_writer.{h,cc} and db/log_reader.{h,cc}: records are
    cut into fragments that never cross a block of 32 KiB, each with a checksum,
    its length and its type; with recycled files also with the number of the
    log.  The model is that of a build without streaming compression, where
    [compress_] and [uncompress_] stay null and no checksum of whole records is
    asked for.  Files are used through the classes [WritableFile] and
    [SequentialFile]. *)

From S2P Require Import Prelude Words Coding Crc32c.

(** ** The format *)

Definition kZeroType : Z := 0.
Definition kFullType : Z := 1.
Definition kFirstType : Z := 2.
Definition kMiddleType : Z := 3.
Definition kLastType : Z := 4.
Definition kRecyclableFullType : Z := 5.
Definition kRecyclableFirstType : Z := 6.
Definition kRecyclableMiddleType : Z := 7.
Definition kRecyclableLastType : Z := 8.
Definition kSetCompressionType : Z := 9.
Definition kUserDefinedTimestampSizeType : Z := 10.
Definition kRecyclableUserDefinedTimestampSizeType : Z := 11.
Definition kMaxRecordType : Z := kRecyclableUserDefinedTimestampSizeType.

Definition kBlockSize : Z := 32768.
Definition kHeaderSize : Z := 4 + 2 + 1.
Definition kRecyclableHeaderSize : Z := 4 + 2 + 1 + 4.

(** ** Files *)

(** What the writer calls of [WritableFileWriter]; [true] is an OK status. *)
Class WritableFile (F : Type) := {
  Append : F -> list Z -> bool * F;
  Flush : F -> bool * F;
  Close : F -> bool * F;
  seen_error : F -> bool;
  contents : F -> list Z
}.

(** A failed [Append] may have written a part of the data. *)
Class WritableFileOk (F : Type) `{WritableFile F} : Prop := {
  Append_ok f data f' : Append f data = (true, f') -> contents f' = contents f ++ data;
  Append_failed f data f' : Append f data = (false, f') -> exists part, part `prefix_of` data /\ contents f' = contents f ++ part;
  Flush_contents f : contents (snd (Flush f)) = contents f;
  Close_contents f : contents (snd (Close f)) = contents f
}.

(** What the reader calls of [SequentialFileReader]. *)
Class SequentialFile (F : Type) := Read : F -> nat -> bool * list Z * F.

(** [serves f bs]: the bytes [bs] are still to be read from [f]. *)
Class SequentialFileOk (F : Type) `{SequentialFile F} := {
  serves : F -> list Z -> Prop;
  Read_ok f bs n : serves f bs -> exists f', Read f n = (true, take n bs, f') /\ serves f' (drop n bs)
}.

(** ** The writer *)

Record Writer (F : Type) : Type := mkWriter {
  dest_ : option F;
  block_offset_ : Z;
  w_log_number_ : Z;
  recycle_log_files_ : bool;
  type_crc_ : list Z;
  manual_flush_ : bool;
  w_recorded_cf_to_ts_sz_ : gmap Z Z
}.
Arguments mkWriter {F}.
Arguments dest_ {F}.
Arguments block_offset_ {F}.
Arguments w_log_number_ {F}.
Arguments recycle_log_files_ {F}.
Arguments type_crc_ {F}.
Arguments manual_flush_ {F}.
Arguments w_recorded_cf_to_ts_sz_ {F}.

Section writer.
Context {port : Port} {ext : Extender} {F : Type} `{WritableFile F}.

Definition set_dest (d : option F) (w : Writer F) : Writer F :=
  mkWriter d (block_offset_ w) (w_log_number_ w) (recycle_log_files_ w) (type_crc_ w) (manual_flush_ w) (w_recorded_cf_to_ts_sz_ w).
Definition set_block_offset (o : Z) (w : Writer F) : Writer F :=
  mkWriter (dest_ w) o (w_log_number_ w) (recycle_log_files_ w) (type_crc_ w) (manual_flush_ w) (w_recorded_cf_to_ts_sz_ w).
Definition set_recorded (r : gmap Z Z) (w : Writer F) : Writer F :=
  mkWriter (dest_ w) (block_offset_ w) (w_log_number_ w) (recycle_log_files_ w) (type_crc_ w) (manual_flush_ w) r.

(** The checksums of the record types, [i] to [i + n - 1]. *)
Fixpoint type_crcs (n : nat) (i : Z) : result (list Z) :=
  match n with
  | O => Ok []
  | S n => let? c := Value [i] in let? cs := type_crcs n (i + 1) in Ok (c :: cs)
  end.

Definition new_Writer (dest : F) (log_number : Z) (recycle_log_files manual_flush : bool) : result (Writer F) :=
  let? cs := type_crcs (Z.to_nat (kMaxRecordType + 1)) 0 in
  Ok (mkWriter (Some dest) 0 log_number recycle_log_files cs manual_flush ∅).

(** A call of a method of [*dest_]. *)
Definition on_dest (call : F -> bool * F) : M (Writer F) bool :=
  d <- gets dest_ ;;
  match d with
  | None => fail ENull
  | Some f => let r := call f in modify (set_dest (Some (snd r))) ;;; ret (fst r)
  end.

Definition WriteBuffer : M (Writer F) bool :=
  d <- gets dest_ ;;
  match d with
  | None => fail ENull
  | Some f => if seen_error f then ret false else on_dest Flush
  end.

Definition Writer_Close : M (Writer F) bool :=
  d <- gets dest_ ;;
  match d with
  | None => ret true
  | Some f => modify (set_dest None) ;;; ret (fst (Close f))
  end.

Definition EmitPhysicalRecord (t : Z) (data : list Z) : M (Writer F) bool :=
  let n := Z.of_nat (length data) in
  assert (n <=? 0xffff) ;;;
  w <- gets id ;;
  crc <- lift (rd (type_crc_ w) (kMaxRecordType + 1) t) ;;
  let legacy := (t <? kRecyclableFullType) || (t =? kSetCompressionType) || (t =? kUserDefinedTimestampSizeType) in
  let header_size := if legacy then kHeaderSize else kRecyclableHeaderSize in
  assert (block_offset_ w + header_size + n <=? kBlockSize) ;;;
  let log_number := if legacy then [] else EncodeFixed32 (wrap 32 (w_log_number_ w)) in
  crc <- (if legacy then ret crc else lift (Extend crc log_number)) ;;
  payload_crc <- lift (Value data) ;;
  crc <- lift (Crc32cCombine crc payload_crc n) ;;
  let buf := EncodeFixed32 (Mask crc) ++ [Z.land n 0xff; wrap 8 (Z.shiftr n 8); t] ++ log_number in
  s <- on_dest (fun f => Append f buf) ;;
  s <- (if (s : bool) then on_dest (fun f => Append f data) else ret false) ;;
  modify (set_block_offset (block_offset_ w + (header_size + n))) ;;;
  ret s.

(** The type of a fragment. *)
Definition fragment_type (recycle begin end_ : bool) : Z :=
  if begin && end_ then (if recycle then kRecyclableFullType else kFullType)
  else if begin then (if recycle then kRecyclableFirstType else kFirstType)
  else if end_ then (if recycle then kRecyclableLastType else kLastType)
  else (if recycle then kRecyclableMiddleType else kMiddleType).

(** The loop of [AddRecord]; [left] is what is not written yet. *)
Fixpoint add_loop (fuel : nat) (begin : bool) (left : list Z) : M (Writer F) bool :=
  match fuel with
  | O => fail EFuel
  | S fuel =>
      w <- gets id ;;
      let header_size := if recycle_log_files_ w then kRecyclableHeaderSize else kHeaderSize in
      let leftover := kBlockSize - block_offset_ w in
      assert (0 <=? leftover) ;;;
      s <- (if (leftover <? header_size) && (0 <? leftover) then
              assert (header_size <=? 11) ;;;
              on_dest (fun f => Append f (replicate (Z.to_nat leftover) 0))
            else ret true) ;;
      if negb s then ret false
      else
        (if leftover <? header_size then modify (set_block_offset 0) else ret tt) ;;;
        block_offset <- gets block_offset_ ;;
        assert (header_size <=? kBlockSize - block_offset) ;;;
        let avail := Z.to_nat (kBlockSize - block_offset - header_size) in
        let fragment_length := if (length left <? avail)%nat then length left else avail in
        let end_ := (length left =? fragment_length)%nat in
        s <- EmitPhysicalRecord (fragment_type (recycle_log_files_ w) begin end_) (take fragment_length left) ;;
        let left := drop fragment_length left in
        if s && (0 <? length left)%nat then add_loop fuel false left else ret s
  end.

(** Every round but the first writes at least a byte. *)
Definition AddRecord (slice : list Z) : M (Writer F) bool :=
  s <- add_loop (length slice + 2) true slice ;;
  if s then
    manual_flush <- gets manual_flush_ ;;
    if negb manual_flush then on_dest Flush else ret s
  else ret s.

(** The column families whose timestamp size is not recorded yet, in the order
    in which the map is iterated. *)
Fixpoint ts_sz_to_record (cf_to_ts_sz : list (Z * Z)) (recorded : gmap Z Z) : result (list (Z * Z) * gmap Z Z) :=
  match cf_to_ts_sz with
  | [] => Ok ([], recorded)
  | (cf_id, ts_sz) :: rest =>
      match recorded !! cf_id with
      | Some sz => if sz =? ts_sz then ts_sz_to_record rest recorded else Err EAssert
      | None =>
          if negb (ts_sz =? 0) then
            let? (l, r) := ts_sz_to_record rest (<[cf_id := ts_sz]> recorded) in Ok ((cf_id, ts_sz) :: l, r)
          else ts_sz_to_record rest recorded
      end
  end.

(** [UserDefinedTimestampSizeRecord::EncodeTo]. *)
Fixpoint ts_EncodeTo (dst : list Z) (cf_to_ts_sz : list (Z * Z)) : result (list Z) :=
  match cf_to_ts_sz with
  | [] => Ok dst
  | (cf_id, ts_sz) :: rest =>
      if ts_sz =? 0 then Err EAssert
      else ts_EncodeTo (PutFixed16 (PutFixed32 dst cf_id) (wrap 16 ts_sz)) rest
  end.

Definition MaybeAddUserDefinedTimestampSizeRecord (cf_to_ts_sz : list (Z * Z)) : M (Writer F) bool :=
  w <- gets id ;;
  lr <- lift (ts_sz_to_record cf_to_ts_sz (w_recorded_cf_to_ts_sz_ w)) ;;
  modify (set_recorded (snd lr)) ;;;
  match fst lr with
  | [] => ret true
  | l =>
      encoded <- lift (ts_EncodeTo [] l) ;;
      EmitPhysicalRecord (if recycle_log_files_ w then kRecyclableUserDefinedTimestampSizeType else kUserDefinedTimestampSizeType) encoded
  end.

End writer.

(** ** The reader *)

(** The results of [ReadPhysicalRecord] that are no types of records. *)
Definition kEof : Z := kMaxRecordType + 1.
Definition kBadRecord : Z := kMaxRecordType + 2.
Definition kBadHeader : Z := kMaxRecordType + 3.
Definition kOldRecord : Z := kMaxRecordType + 4.
Definition kBadRecordLen : Z := kMaxRecordType + 5.
Definition kBadRecordChecksum : Z := kMaxRecordType + 6.

Inductive WALRecoveryMode : Type :=
  | kTolerateCorruptedTailRecords
  | kAbsoluteConsistency
  | kPointInTimeRecovery
  | kSkipAnyCorruptedRecords.

#[export] Instance mode_eq_dec : EqDecision WALRecoveryMode.
Proof. solve_decision. Defined.

(** What is reported to the [Reporter]. *)
Inductive reason : Type :=
  | ReadFailed
  | PartialWithoutEnd
  | MissingStart
  | MultipleSetCompression
  | SetCompressionNotFirst
  | BadSetCompression
  | TimestampInterspersed
  | BadTimestampRecord
  | BadTimestampSize
  | TruncatedHeader
  | TrailingData
  | MiddleOfRecord
  | TruncatedBody
  | BadLength
  | ChecksumMismatch
  | UnknownType (t : Z).

Record Reader (F : Type) : Type := mkReader {
  file_ : F;
  checksum_ : bool;
  buffer_ : list Z;
  eof_ : bool;
  read_error_ : bool;
  eof_offset_ : Z;
  last_record_offset_ : Z;
  end_of_buffer_offset_ : Z;
  log_number_ : Z;
  recycled_ : bool;
  first_record_read_ : bool;
  recorded_cf_to_ts_sz_ : gmap Z Z;
  reports : list (Z * reason)
}.
Arguments mkReader {F}.
Arguments file_ {F}.
Arguments checksum_ {F}.
Arguments buffer_ {F}.
Arguments eof_ {F}.
Arguments read_error_ {F}.
Arguments eof_offset_ {F}.
Arguments last_record_offset_ {F}.
Arguments end_of_buffer_offset_ {F}.
Arguments log_number_ {F}.
Arguments recycled_ {F}.
Arguments first_record_read_ {F}.
Arguments recorded_cf_to_ts_sz_ {F}.
Arguments reports {F}.

Section reader.
Context {port : Port} {ext : Extender} {F : Type} `{SequentialFile F}.

Definition set_file (x : F) (r : Reader F) : Reader F :=
  mkReader x (checksum_ r) (buffer_ r) (eof_ r) (read_error_ r) (eof_offset_ r) (last_record_offset_ r) (end_of_buffer_offset_ r) (log_number_ r) (recycled_ r) (first_record_read_ r) (recorded_cf_to_ts_sz_ r) (reports r).
Definition set_buffer (x : list Z) (r : Reader F) : Reader F :=
  mkReader (file_ r) (checksum_ r) x (eof_ r) (read_error_ r) (eof_offset_ r) (last_record_offset_ r) (end_of_buffer_offset_ r) (log_number_ r) (recycled_ r) (first_record_read_ r) (recorded_cf_to_ts_sz_ r) (reports r).
Definition set_eof (x : bool) (r : Reader F) : Reader F :=
  mkReader (file_ r) (checksum_ r) (buffer_ r) x (read_error_ r) (eof_offset_ r) (last_record_offset_ r) (end_of_buffer_offset_ r) (log_number_ r) (recycled_ r) (first_record_read_ r) (recorded_cf_to_ts_sz_ r) (reports r).
Definition set_read_error (x : bool) (r : Reader F) : Reader F :=
  mkReader (file_ r) (checksum_ r) (buffer_ r) (eof_ r) x (eof_offset_ r) (last_record_offset_ r) (end_of_buffer_offset_ r) (log_number_ r) (recycled_ r) (first_record_read_ r) (recorded_cf_to_ts_sz_ r) (reports r).
Definition set_eof_offset (x : Z) (r : Reader F) : Reader F :=
  mkReader (file_ r) (checksum_ r) (buffer_ r) (eof_ r) (read_error_ r) x (last_record_offset_ r) (end_of_buffer_offset_ r) (log_number_ r) (recycled_ r) (first_record_read_ r) (recorded_cf_to_ts_sz_ r) (reports r).
Definition set_last_record_offset (x : Z) (r : Reader F) : Reader F :=
  mkReader (file_ r) (checksum_ r) (buffer_ r) (eof_ r) (read_error_ r) (eof_offset_ r) x (end_of_buffer_offset_ r) (log_number_ r) (recycled_ r) (first_record_read_ r) (recorded_cf_to_ts_sz_ r) (reports r).
Definition set_end_of_buffer_offset (x : Z) (r : Reader F) : Reader F :=
  mkReader (file_ r) (checksum_ r) (buffer_ r) (eof_ r) (read_error_ r) (eof_offset_ r) (last_record_offset_ r) x (log_number_ r) (recycled_ r) (first_record_read_ r) (recorded_cf_to_ts_sz_ r) (reports r).
Definition set_recycled (x : bool) (r : Reader F) : Reader F :=
  mkReader (file_ r) (checksum_ r) (buffer_ r) (eof_ r) (read_error_ r) (eof_offset_ r) (last_record_offset_ r) (end_of_buffer_offset_ r) (log_number_ r) x (first_record_read_ r) (recorded_cf_to_ts_sz_ r) (reports r).
Definition set_first_record_read (x : bool) (r : Reader F) : Reader F :=
  mkReader (file_ r) (checksum_ r) (buffer_ r) (eof_ r) (read_error_ r) (eof_offset_ r) (last_record_offset_ r) (end_of_buffer_offset_ r) (log_number_ r) (recycled_ r) x (recorded_cf_to_ts_sz_ r) (reports r).
Definition set_recorded_ts (x : gmap Z Z) (r : Reader F) : Reader F :=
  mkReader (file_ r) (checksum_ r) (buffer_ r) (eof_ r) (read_error_ r) (eof_offset_ r) (last_record_offset_ r) (end_of_buffer_offset_ r) (log_number_ r) (recycled_ r) (first_record_read_ r) x (reports r).
Definition set_reports (x : list (Z * reason)) (r : Reader F) : Reader F :=
  mkReader (file_ r) (checksum_ r) (buffer_ r) (eof_ r) (read_error_ r) (eof_offset_ r) (last_record_offset_ r) (end_of_buffer_offset_ r) (log_number_ r) (recycled_ r) (first_record_read_ r) (recorded_cf_to_ts_sz_ r) x.

Definition new_Reader (file : F) (checksum : bool) (log_num : Z) : Reader F :=
  mkReader file checksum [] false false 0 0 0 log_num false false ∅ [].

Definition ReportCorruption (bytes : Z) (why : reason) : M (Reader F) unit :=
  modify (fun r => set_reports (reports r ++ [(bytes, why)]) r).

Definition size (bs : list Z) : Z := Z.of_nat (length bs).

Definition LastRecordEnd (r : Reader F) : Z := end_of_buffer_offset_ r - size (buffer_ r).

(** [None] when there is more to look at, otherwise the value of [*error] and
    that of [*drop_size]. *)
Definition ReadMore : M (Reader F) (option (Z * Z)) :=
  r <- gets id ;;
  if negb (eof_ r) && negb (read_error_ r) then
    let '(status, bytes, file) := Read (file_ r) (Z.to_nat kBlockSize) in
    modify (set_file file) ;;;
    modify (set_end_of_buffer_offset (end_of_buffer_offset_ r + size bytes)) ;;;
    if negb status then
      modify (set_buffer []) ;;;
      ReportCorruption kBlockSize ReadFailed ;;;
      modify (set_read_error true) ;;;
      ret (Some (kEof, 0))
    else
      modify (set_buffer bytes) ;;;
      (if size bytes <? kBlockSize then modify (set_eof true) ;;; modify (set_eof_offset (size bytes)) else ret tt) ;;;
      ret None
  else if negb (size (buffer_ r) =? 0) then
    modify (set_buffer []) ;;; ret (Some (kBadHeader, size (buffer_ r)))
  else ret (Some (kEof, 0)).

(** [const unsigned int type = header[6]], from a signed [char]. *)
Definition char_type (b : Z) : Z := if b <? 128 then b else b + (2 ^ 32 - 256).

(** The value returned, [*result] and [*drop_size].  The loop goes round again
    only after it has read a block. *)
Fixpoint ReadPhysicalRecord (fuel : nat) : M (Reader F) (Z * list Z * Z) :=
  match fuel with
  | O => fail EFuel
  | S fuel =>
      let more := (e <- ReadMore ;; match e with Some (r, drop_size) => ret (r, [], drop_size) | None => ReadPhysicalRecord fuel end) in
      rd_ <- gets id ;;
      let header := buffer_ rd_ in
      if size header <? kHeaderSize then more
      else
        a <- lift (rd header (size header) 4) ;;
        b <- lift (rd header (size header) 5) ;;
        c <- lift (rd header (size header) 6) ;;
        let type := char_type c in
        let length_ := Z.lor a (Z.shiftl b 8) in
        let recyclable := ((kRecyclableFullType <=? type) && (type <=? kRecyclableLastType)) || (type =? kRecyclableUserDefinedTimestampSizeType) in
        let header_size := if recyclable then kRecyclableHeaderSize else kHeaderSize in
        (if recyclable && (end_of_buffer_offset_ rd_ - size header =? 0) then modify (set_recycled true) else ret tt) ;;;
        if recyclable && (size header <? kRecyclableHeaderSize) then more
        else
          log_num <- (if recyclable then lift (DecodeFixed32 (drop 7 header)) else ret (log_number_ rd_)) ;;
          if negb (log_num =? log_number_ rd_) then ret (kOldRecord, [], 0)
          else if size header <? header_size + length_ then
            modify (set_buffer []) ;;; ret (kBadRecordLen, [], size header)
          else if (type =? kZeroType) && (length_ =? 0) then
            modify (set_buffer []) ;;; ret (kBadRecord, [], 0)
          else
            bad <- (if checksum_ rd_ then
                      stored <- lift (DecodeFixed32 header) ;;
                      actual_crc <- lift (Value (take (Z.to_nat (length_ + header_size - 6)) (drop 6 header))) ;;
                      ret (negb (actual_crc =? Unmask stored))
                    else ret false) ;;
            if (bad : bool) then modify (set_buffer []) ;;; ret (kBadRecordChecksum, [], size header)
            else
              modify (set_buffer (drop (Z.to_nat (header_size + length_)) header)) ;;;
              ret (type, take (Z.to_nat length_) (drop (Z.to_nat header_size) header), 0)
  end.

(** [CompressionTypeRecord::DecodeFrom]: only [kNoCompression] is supported. *)
Definition compression_DecodeFrom (src : list Z) : option Z :=
  match GetFixed32 src with
  | Some (val, _) => if wrap 8 val =? 0 then Some (wrap 8 val) else None
  | None => None
  end.

(** [UserDefinedTimestampSizeRecord::DecodeFrom], the loop. *)
Fixpoint ts_entries (n : nat) (src : list Z) : option (list (Z * Z)) :=
  match n with
  | O => Some []
  | S n =>
      match GetFixed32 src with
      | Some (cf_id, src) =>
          match GetFixed16 src with
          | Some (ts_sz, src) => match ts_entries n src with Some l => Some ((cf_id, ts_sz) :: l) | None => None end
          | None => None
          end
      | None => None
      end
  end.
Definition ts_DecodeFrom (src : list Z) : option (list (Z * Z)) :=
  if negb (size src mod 6 =? 0) then None else ts_entries (Z.to_nat (size src / 6)) src.

(** [UpdateRecordedTimestampSize]: the map as far as it was updated, and whether
    the status is OK. *)
Fixpoint UpdateRecordedTimestampSize (l : list (Z * Z)) (recorded : gmap Z Z) : bool * gmap Z Z :=
  match l with
  | [] => (true, recorded)
  | (cf, ts_sz) :: l =>
      if ts_sz =? 0 then (false, recorded)
      else match recorded !! cf with
           | Some _ => (false, recorded)
           | None => UpdateRecordedTimestampSize l (<[cf := ts_sz]> recorded)
           end
  end.

(** Whether an incomplete record at the end is reported. *)
Definition strict (mode : WALRecoveryMode) : bool := bool_decide (mode = kAbsoluteConsistency) || bool_decide (mode = kPointInTimeRecovery).

(** [if (b) ReportCorruption(bytes, why)]. *)
Definition report_if (b : bool) (bytes : Z) (why : reason) : M (Reader F) unit :=
  if b then ReportCorruption bytes why else ret tt.

(** The end of a record of which [fragment] is the last piece. *)
Definition found (record : list Z) (offset : Z) : M (Reader F) (option (list Z)) :=
  modify (set_last_record_offset offset) ;;;
  modify (set_first_record_read true) ;;;
  ret (Some record).

(** One round of [ReadRecord] after the call of [ReadPhysicalRecord]; [again] is
    the next round, with the values of [in_fragmented_record], [*scratch] and
    [prospective_record_offset]. *)
Definition dispatch (again : bool -> list Z -> Z -> M (Reader F) (option (list Z))) (mode : WALRecoveryMode)
  (in_fragmented_record : bool) (scratch : list Z) (prospective physical : Z) (p : Z * list Z * Z) : M (Reader F) (option (list Z)) :=
  let '(record_type, fragment, drop_size) := p in
  if (record_type =? kFullType) || (record_type =? kRecyclableFullType) then
    report_if (in_fragmented_record && negb (size scratch =? 0)) (size scratch) PartialWithoutEnd ;;;
    found fragment physical
  else if (record_type =? kFirstType) || (record_type =? kRecyclableFirstType) then
    report_if (in_fragmented_record && negb (size scratch =? 0)) (size scratch) PartialWithoutEnd ;;;
    again true fragment physical
  else if (record_type =? kMiddleType) || (record_type =? kRecyclableMiddleType) then
    if negb in_fragmented_record then
      ReportCorruption (size fragment) MissingStart ;;; again false scratch prospective
    else again true (scratch ++ fragment) prospective
  else if (record_type =? kLastType) || (record_type =? kRecyclableLastType) then
    if negb in_fragmented_record then
      ReportCorruption (size fragment) MissingStart ;;; again false scratch prospective
    else found (scratch ++ fragment) prospective
  else if record_type =? kSetCompressionType then
    first <- gets first_record_read_ ;;
    report_if first (size fragment) SetCompressionNotFirst ;;;
    modify (set_last_record_offset physical) ;;;
    match compression_DecodeFrom fragment with
    | None =>
        (* what GetFixed32 leaves of the fragment *)
        let rest := match GetFixed32 fragment with Some (_, rest) => rest | None => fragment end in
        ReportCorruption (size rest) BadSetCompression ;;;
        again in_fragmented_record [] physical
    | Some _ => fail EAssert (* InitCompression: uncompress_ != nullptr *)
    end
  else if (record_type =? kUserDefinedTimestampSizeType) || (record_type =? kRecyclableUserDefinedTimestampSizeType) then
    report_if (in_fragmented_record && negb (size scratch =? 0)) (size scratch) TimestampInterspersed ;;;
    modify (set_last_record_offset physical) ;;;
    match ts_DecodeFrom fragment with
    | None => ReportCorruption (size fragment) BadTimestampRecord
    | Some l =>
        recorded <- gets recorded_cf_to_ts_sz_ ;;
        let s := UpdateRecordedTimestampSize l recorded in
        modify (set_recorded_ts (snd s)) ;;;
        report_if (negb (fst s)) 0 BadTimestampSize
    end ;;;
    again in_fragmented_record [] physical
  else if (record_type =? kBadHeader) || (record_type =? kEof) then
    report_if ((record_type =? kBadHeader) && strict mode) drop_size TruncatedHeader ;;;
    report_if (in_fragmented_record && strict mode) (size scratch) TrailingData ;;;
    ret None
  else if (record_type =? kOldRecord) && negb (bool_decide (mode = kSkipAnyCorruptedRecords)) then
    report_if (in_fragmented_record && strict mode) (size scratch) TrailingData ;;;
    ret None
  else if (record_type =? kOldRecord) || (record_type =? kBadRecord) then
    report_if in_fragmented_record (size scratch) MiddleOfRecord ;;;
    again false (if in_fragmented_record then [] else scratch) prospective
  else if (record_type =? kBadRecordLen) || (record_type =? kBadRecordChecksum) then
    r <- gets id ;;
    if (record_type =? kBadRecordLen) && eof_ r then
      report_if (strict mode) drop_size TruncatedBody ;;; ret None
    else if recycled_ r && bool_decide (mode = kTolerateCorruptedTailRecords) then ret None
    else
      ReportCorruption drop_size (if record_type =? kBadRecordLen then BadLength else ChecksumMismatch) ;;;
      report_if in_fragmented_record (size scratch) MiddleOfRecord ;;;
      again false (if in_fragmented_record then [] else scratch) prospective
  else
    ReportCorruption (size fragment + (if in_fragmented_record then size scratch else 0)) (UnknownType record_type) ;;;
    again false [] prospective.

(** The loop of [ReadRecord]. *)
Fixpoint read_loop (fuel : nat) (mode : WALRecoveryMode) (in_fragmented_record : bool) (scratch : list Z) (prospective : Z)
  : M (Reader F) (option (list Z)) :=
  match fuel with
  | O => fail EFuel
  | S fuel =>
      physical <- gets LastRecordEnd ;;
      p <- ReadPhysicalRecord 3 ;;
      dispatch (read_loop fuel mode) mode in_fragmented_record scratch prospective physical p
  end.

(** [None] is the result [false]. *)
Definition ReadRecord (fuel : nat) (mode : WALRecoveryMode) : M (Reader F) (option (list Z)) :=
  read_loop fuel mode false [] 0.

(** [backing_store_] holds the block that was read last; what is left of it in
    [buffer_] and the rest of the block are put together there. *)
Definition UnmarkEOFInternal : M (Reader F) unit :=
  r <- gets id ;;
  let remaining := kBlockSize - eof_offset_ r in
  let '(status, added, file) := Read (file_ r) (Z.to_nat remaining) in
  modify (set_file file) ;;;
  modify (set_end_of_buffer_offset (end_of_buffer_offset_ r + size added)) ;;;
  if negb status then
    report_if (0 <? size added) (size added) ReadFailed ;;;
    modify (set_read_error true)
  else
    modify (set_buffer (buffer_ r ++ added)) ;;;
    if size added <? remaining then modify (set_eof true) ;;; modify (set_eof_offset (eof_offset_ r + size added))
    else modify (set_eof_offset 0).

Definition UnmarkEOF : M (Reader F) unit :=
  r <- gets id ;;
  if read_error_ r then ret tt
  else
    modify (set_eof false) ;;;
    if eof_offset_ r =? 0 then ret tt else UnmarkEOFInternal.

End reader.

(** ** Files that are lists of bytes *)

#[export] Instance list_writable : WritableFile (list Z) :=
  {| Append f data := (true, f ++ data); Flush f := (true, f); Close f := (true, f); seen_error _ := false; contents f := f |}.

#[export] Instance list_writable_ok : WritableFileOk (list Z).
Proof. split; [by intros f data f' [= <-]|done|done|done]. Qed.

#[export] Instance list_sequential : SequentialFile (list Z) := fun f n => (true, take n f, drop n f).

#[export] Instance list_sequential_ok : SequentialFileOk (list Z).
Proof. refine {| serves := eq |}. intros f bs n ->. by exists (drop n bs). Defined.
