(* ===== verification/LogSpec.v ===== *)
(** * What the write-ahead log guarantees

    The layout of a log as a relation, the writer that produces it, the reader
    that takes it apart, and recovery: from any prefix of a log, as a crash or a
    failed write leaves it, exactly the records that are complete in it are read
    (C31).  A log that recycles a file makes the reader loop for ever in one of
    the recovery modes. *)

From S2P Require Import Prelude Words Coding Crc32c Log.

(** ** The layout *)

Definition header_size (rec : bool) : Z := if rec then kRecyclableHeaderSize else kHeaderSize.

Section layout.
Context (rec : bool) (num : Z).

(** The number of the log, as it stands in a header. *)
Definition number_bytes : list Z := if rec then le_bytes 4 num else [].

(** A fragment with its header. *)
Definition fragment (t : Z) (data : list Z) : list Z :=
  le_bytes 4 (Mask (crc32c 0 (t :: number_bytes ++ data))) ++ [size data mod 256; size data / 256; t] ++ number_bytes ++ data.

(** Where a fragment starts, coming from offset [off] of a block. *)
Definition start (off : Z) : Z := if kBlockSize - off <? header_size rec then 0 else off.
Definition padding (off : Z) : list Z := if kBlockSize - off <? header_size rec then replicate (Z.to_nat (kBlockSize - off)) 0 else [].
Definition avail (off : Z) : Z := kBlockSize - start off - header_size rec.

(** [laid begin off left bs off']: the bytes [bs] hold the record, or what is
    [left] of it, from offset [off] of a block to [off']. *)
Inductive laid : bool -> Z -> list Z -> list Z -> Z -> Prop :=
  | laid_end begin off left :
      size left <= avail off ->
      laid begin off left (padding off ++ fragment (fragment_type rec begin true) left) (start off + header_size rec + size left)
  | laid_more begin off left bs off' :
      avail off < size left ->
      laid false kBlockSize (drop (Z.to_nat (avail off)) left) bs off' ->
      laid begin off left (padding off ++ fragment (fragment_type rec begin false) (take (Z.to_nat (avail off)) left) ++ bs) off'.

(** The records of a log, the bytes of each of them, and where they end. *)
Inductive logged : Z -> list (list Z) -> list (list Z) -> Z -> Prop :=
  | logged_nil off : logged off [] [] off
  | logged_cons off r rs bs bss off' off'' : laid true off r bs off' -> logged off' rs bss off'' -> logged off (r :: rs) (bs :: bss) off''.

Lemma header_bounds : 7 <= header_size rec <= 11.
Proof. unfold header_size, kHeaderSize, kRecyclableHeaderSize. destruct rec; lia. Qed.

Lemma start_bounds off : 0 <= off <= kBlockSize -> 0 <= start off /\ 0 <= avail off < 65536.
Proof.
  intros H. pose proof header_bounds. unfold avail, start, kBlockSize in *. destruct (Z.ltb_spec (32768 - off) (header_size rec)); lia.
Qed.

Lemma avail_full : 0 < avail kBlockSize.
Proof. pose proof header_bounds. unfold avail, start, kBlockSize. destruct (Z.ltb_spec (32768 - 32768) (header_size rec)); lia. Qed.

Lemma laid_off begin off left bs off' : 0 <= off <= kBlockSize -> laid begin off left bs off' -> 0 <= off' <= kBlockSize.
Proof.
  intros Ho H. induction H as [begin off left Hs|begin off left bs off' Hs H IH].
  - pose proof (start_bounds off Ho). pose proof header_bounds. unfold avail in *. unfold size in *. lia.
  - apply IH. unfold kBlockSize. lia.
Qed.

(** Every record has its place. *)
Lemma laid_exists begin off left : 0 <= off <= kBlockSize -> exists bs off', laid begin off left bs off'.
Proof.
  intros Ho. assert (forall n begin left, (length left < n)%nat -> exists bs off', laid begin kBlockSize left bs off') as Hfull.
  { intros n. induction n as [|n IH]; intros b l Hl; [lia|]. destruct (Z.le_gt_cases (size l) (avail kBlockSize)) as [Hs|Hs]; [eexists _, _; by apply laid_end|].
    pose proof avail_full as Hav. destruct (IH false (drop (Z.to_nat (avail kBlockSize)) l)) as (bs & off' & H); [rewrite length_drop; unfold size in *; lia|].
    eexists _, _. by apply laid_more. }
  destruct (Z.le_gt_cases (size left) (avail off)) as [Hs|Hs]; [eexists _, _; by apply laid_end|].
  destruct (Hfull (S (length left)) false (drop (Z.to_nat (avail off)) left)) as (bs & off' & H); [rewrite length_drop; lia|].
  eexists _, _. by apply laid_more.
Qed.

Lemma logged_exists off rs : 0 <= off <= kBlockSize -> exists bss off'', logged off rs bss off''.
Proof.
  revert off. induction rs as [|r rs IH]; intros off Ho; [exists [], off; constructor|].
  destruct (laid_exists true off r Ho) as (bs & off' & H). destruct (IH off') as (bss & off'' & Hb); [by eapply laid_off|].
  exists (bs :: bss), off''. by econstructor.
Qed.

Lemma length_fragment t data : size (fragment t data) = header_size rec + size data.
Proof.
  unfold fragment, size, header_size, number_bytes. rewrite !length_app, length_le_bytes. simpl length.
  unfold kHeaderSize, kRecyclableHeaderSize. destruct rec; rewrite ?length_le_bytes; simpl; lia.
Qed.

Lemma length_padding off : 0 <= off <= kBlockSize -> size (padding off) = if kBlockSize - off <? header_size rec then kBlockSize - off else 0.
Proof. intros Ho. unfold padding, size. destruct (_ <? _); [|done]. rewrite length_replicate. lia. Qed.

Lemma laid_nonempty begin off left bs off' : 0 <= off <= kBlockSize -> laid begin off left bs off' -> header_size rec <= size bs.
Proof.
  intros Ho H. destruct H; unfold size; rewrite !length_app.
  - pose proof (length_fragment (fragment_type rec begin true) left). unfold size in *. lia.
  - pose proof (length_fragment (fragment_type rec begin false) (take (Z.to_nat (avail off)) left)). unfold size in *. lia.
Qed.

(** How many fragments a record has at most: only the first may be empty. *)
Definition rounds (off : Z) (left : list Z) : nat := Nat.add (length left) (if avail off =? 0 then 2%nat else 1%nat).

Lemma rounds_more off left : 0 <= avail off -> avail off < size left ->
  (S (rounds kBlockSize (drop (Z.to_nat (avail off)) left)) <= rounds off left)%nat.
Proof.
  intros Hav Hs. pose proof avail_full as Ha. unfold rounds. rewrite length_drop. destruct (Z.eqb_spec (avail kBlockSize) 0); [lia|].
  unfold size in Hs. destruct (Z.eqb_spec (avail off) 0); lia.
Qed.

End layout.

(** ** The writer *)

Section writer.
Context {port : Port} {ext : Extender} {Hext : ExtenderOk ext} {F : Type} {HF : WritableFile F} {HFok : WritableFileOk F}.
Context (rec : bool) (num : Z) (Hnum : word 32 num).

Definition type_ok (t : Z) : Prop := if rec then 5 <= t <= 8 else 1 <= t <= 4.

(** A writer of log [num] with offset [off] in the current block of [f]. *)
Record writer_at (w : Writer F) (f : F) (off : Z) : Prop := {
  wa_dest : dest_ w = Some f;
  wa_off : block_offset_ w = off;
  wa_rec : recycle_log_files_ w = rec;
  wa_num : wrap 32 (w_log_number_ w) = num;
  wa_crc : type_crc_ w = (fun i => crc32c 0 [Z.of_nat i]) <$> seq 0 12
}.

(** What a step did to the file: with an OK status all of [bs] was written, in
    any case a part of it. *)
Definition wrote (f : F) (bs : list Z) (off' : Z) (s : bool) (w' : Writer F) : Prop :=
  exists f', dest_ w' = Some f' /\ (s = true -> writer_at w' f' off' /\ contents f' = contents f ++ bs) /\
    exists part, part `prefix_of` bs /\ contents f' = contents f ++ part.

Lemma type_crcs_ok n i : (i + n <= 256)%nat -> type_crcs n (Z.of_nat i) = Ok ((fun i => crc32c 0 [Z.of_nat i]) <$> seq i n).
Proof.
  revert i. induction n as [|n IH]; intros i Hi; [done|]. cbn [type_crcs]. unfold Value.
  rewrite Extend_ok; [|split; vm_compute; congruence|repeat constructor; lia]. cbn [rbind].
  replace (Z.of_nat i + 1) with (Z.of_nat (S i)) by lia. rewrite IH by lia. done.
Qed.

Lemma new_Writer_ok f log_number manual :
  wrap 32 log_number = num -> exists w, new_Writer f log_number rec manual = Ok w /\ writer_at w f 0 /\ manual_flush_ w = manual.
Proof.
  intros Hn. unfold new_Writer. change (Z.to_nat (kMaxRecordType + 1)) with 12%nat. change 0 with (Z.of_nat 0) at 1. rewrite type_crcs_ok by lia.
  cbn [rbind]. eexists. split; [done|]. by split.
Qed.

Lemma wp_on_dest (call : F -> bool * F) (Q : bool -> Writer F -> Prop) w f : dest_ w = Some f -> Q (fst (call f)) (set_dest (Some (snd (call f))) w) -> wp (on_dest call) Q w.
Proof. intros Hd HQ. unfold on_dest. apply wp_bind, wp_gets. rewrite Hd. apply wp_bind, wp_modify, wp_ret. exact HQ. Qed.

Lemma type_legacy t : type_ok t -> (t <? kRecyclableFullType) || (t =? kSetCompressionType) || (t =? kUserDefinedTimestampSizeType) = negb rec.
Proof.
  unfold type_ok, kRecyclableFullType, kSetCompressionType, kUserDefinedTimestampSizeType. intros Ht.
  destruct rec; destruct (Z.ltb_spec t 5), (Z.eqb_spec t 9), (Z.eqb_spec t 10); simpl; lia || done.
Qed.

Lemma type_byte t : type_ok t -> byte_ok t /\ 1 <= t <= 8.
Proof. unfold type_ok, byte_ok. destruct rec; lia. Qed.

Lemma number_bytes_ok : Forall byte_ok (number_bytes rec num).
Proof. unfold number_bytes. destruct rec; [apply le_bytes_ok|constructor]. Qed.

(** The header [EmitPhysicalRecord] formats is that of the layout. *)
Lemma fragment_split t data : size data <= 65535 ->
  fragment rec num t data = (EncodeFixed32 (Mask (crc32c 0 (t :: number_bytes rec num ++ data))) ++
    [Z.land (size data) 0xff; wrap 8 (Z.shiftr (size data) 8); t] ++ number_bytes rec num) ++ data.
Proof.
  intros Hs. assert (0 <= size data) by (unfold size; lia). unfold fragment. rewrite EncodeFixed32_le, low_byte, Z.shiftr_div_pow2 by lia.
  unfold wrap. change (2 ^ 8) with 256. rewrite (Z.mod_small (size data / 256)) by div_lia. by rewrite <- !app_assoc.
Qed.

Lemma Emit_ok t data w f off :
  writer_at w f off -> type_ok t -> 0 <= off -> off + header_size rec + size data <= kBlockSize -> Forall byte_ok data ->
  wp (EmitPhysicalRecord t data) (wrote f (fragment rec num t data) (off + header_size rec + size data)) w.
Proof.
  intros [Hd Ho Hr Hn Hc] Ht H0 Hfit Hb. pose proof (header_bounds rec) as Hh. assert (0 <= size data) as Hsz by (unfold size; lia).
  pose proof (type_byte t Ht) as [Htb Ht8]. pose proof number_bytes_ok as Hnb. unfold EmitPhysicalRecord. fold (size data).
  assert (size data <= 65535) as H64 by (unfold kBlockSize in *; lia).
  apply wp_bind, wp_assert; [apply Z.leb_le; lia|]. apply wp_bind, wp_gets. unfold id.
  apply wp_bind. apply wp_lift with (crc32c 0 [t]).
  { rewrite Hc. apply rd_ok; [unfold kMaxRecordType, kRecyclableUserDefinedTimestampSizeType; lia|]. rewrite list_lookup_fmap, lookup_seq_lt by lia. simpl.
    do 3 f_equal. lia. }
  rewrite type_legacy by done. apply wp_bind, wp_assert.
  { apply Z.leb_le. unfold header_size in Hfit. destruct rec; simpl; lia. }
  assert ((if negb rec then [] else EncodeFixed32 (wrap 32 (w_log_number_ w))) = number_bytes rec num) as ->.
  { unfold number_bytes. rewrite EncodeFixed32_le, Hn. by destruct rec. }
  assert (word 32 0) as Hw0 by (split; vm_compute; congruence). assert (Forall byte_ok [t]) as Htt by (by apply Forall_singleton).
  apply wp_bind. apply wp_mono with (fun c w' => c = crc32c 0 (t :: number_bytes rec num) /\ w' = w).
  { destruct rec; simpl.
    - apply wp_lift with (crc32c 0 (t :: number_bytes true num)); [|done]. rewrite Extend_ok by (try done; by apply crc32c_word). by rewrite crc32c_app.
    - by apply wp_ret. }
  intros c w' [-> ->]. apply wp_bind. apply wp_lift with (crc32c 0 data); [by apply Extend_ok|]. apply wp_bind.
  apply wp_lift with (crc32c 0 (t :: number_bytes rec num ++ data)).
  { unfold size. rewrite Crc32cCombine_ok; [|by apply crc32c_word; [|constructor]|done|unfold size in *; lia]. by rewrite crc32c_app. }
  set (buf := EncodeFixed32 _ ++ _). pose proof (fragment_split t data H64) as Hsplit. fold buf in Hsplit. apply wp_bind.
  apply (wp_on_dest _ _ w f Hd). apply wp_bind. destruct (Append f buf) as [s f1] eqn:E1. simpl fst. simpl snd. destruct s.
  - apply (wp_on_dest _ _ _ f1); [done|]. destruct (Append f1 data) as [s f2] eqn:E2. simpl fst. simpl snd.
    apply wp_bind, wp_modify, wp_ret. apply Append_ok in E1. exists f2. split; [done|]. rewrite Hsplit. split.
    + intros ->. apply Append_ok in E2. split; [|by rewrite E2, E1, app_assoc]. split; try done. simpl. rewrite Ho. unfold header_size. destruct rec; simpl; lia.
    + destruct s; [apply Append_ok in E2; exists (buf ++ data); split; [done|]; by rewrite E2, E1, app_assoc|].
      apply Append_failed in E2 as (part & Hp & E2). exists (buf ++ part). split; [by apply prefix_app|]. by rewrite E2, E1, app_assoc.
  - apply wp_ret, wp_bind, wp_modify, wp_ret. apply Append_failed in E1 as (part & Hp & E1). exists f1. split; [done|]. rewrite Hsplit. split; [done|].
    exists part. split; [by apply prefix_app_r|done].
Qed.

Lemma fragment_type_ok begin end_ : type_ok (fragment_type rec begin end_).
Proof. unfold type_ok, fragment_type. destruct rec, begin, end_; vm_compute; split; congruence. Qed.

Lemma wrote_app f f1 b1 b2 off' s w' : contents f1 = contents f ++ b1 -> wrote f1 b2 off' s w' -> wrote f (b1 ++ b2) off' s w'.
Proof.
  intros E (f' & Hd & Ht & part & Hp & Hc). exists f'. split; [done|]. split.
  - intros Hs. destruct (Ht Hs) as [Hw Hc']. split; [done|]. by rewrite Hc', E, app_assoc.
  - exists (b1 ++ part). split; [by apply prefix_app|]. by rewrite Hc, E, app_assoc.
Qed.

Lemma wrote_failed f b1 b2 o off' w' : wrote f b1 o false w' -> wrote f (b1 ++ b2) off' false w'.
Proof. intros (f' & Hd & _ & part & Hp & Hc). exists f'. split; [done|]. split; [done|]. exists part. split; [by apply prefix_app_r|done]. Qed.

Lemma pad_ok w f off : writer_at w f off -> 0 <= off <= kBlockSize ->
  wp (if (kBlockSize - off <? header_size rec) && (0 <? kBlockSize - off) then
        assert (header_size rec <=? 11) ;;; on_dest (fun f => Append f (replicate (Z.to_nat (kBlockSize - off)) 0))
      else ret true) (wrote f (padding rec off) off) w.
Proof.
  intros Hw Ho. pose proof (header_bounds rec) as Hh. unfold padding. pose proof Hw as [Hd _ _ _ _].
  destruct (Z.ltb_spec (kBlockSize - off) (header_size rec)) as [Hlt|Hge]; simpl.
  - destruct (Z.ltb_spec 0 (kBlockSize - off)).
    + apply wp_bind, wp_assert; [apply Z.leb_le; lia|]. apply (wp_on_dest _ _ w f Hd). destruct (Append f _) as [s f1] eqn:E. simpl.
      destruct Hw. exists f1. split; [done|]. split; [intros ->; apply Append_ok in E; split; [by split|done]|].
      destruct s; [apply Append_ok in E; eexists; by split|]. by apply Append_failed in E.
    + apply wp_ret. replace (Z.to_nat (kBlockSize - off)) with 0%nat by lia. exists f. split; [done|]. rewrite app_nil_r. split; [done|]. exists []. by rewrite app_nil_r.
  - apply wp_ret. exists f. split; [done|]. rewrite app_nil_r. split; [done|]. exists []. by rewrite app_nil_r.
Qed.

Lemma writer_restart w f off : writer_at w f off ->
  wp (if kBlockSize - off <? header_size rec then modify (set_block_offset 0) else ret tt) (fun _ w' => writer_at w' f (start rec off)) w.
Proof.
  intros [Hd Ho Hr Hn Hc]. unfold start. destruct (kBlockSize - off <? header_size rec); [apply wp_modify|apply wp_ret]; by split.
Qed.

Lemma add_loop_ok begin off left bs off' :
  laid rec num begin off left bs off' -> forall fuel w f, writer_at w f off -> 0 <= off <= kBlockSize -> Forall byte_ok left ->
  (rounds rec off left <= fuel)%nat -> wp (add_loop fuel begin left) (wrote f bs off') w.
Proof.
  intros Hlaid. induction Hlaid as [begin off left Hs|begin off left bs off' Hs Hl IH]; intros fuel w f Hw Ho Hb Hf;
    (destruct fuel as [|fuel]; [unfold rounds in Hf; destruct (avail rec off =? 0); lia|]); cbn [add_loop]; apply wp_bind, wp_gets; unfold id;
    pose proof Hw as [_ Hoff Hrec _ _]; rewrite Hoff, Hrec; fold (header_size rec);
    (apply wp_bind, wp_assert; [apply Z.leb_le; lia|]); apply wp_bind; (eapply wp_mono; [by apply pad_ok|]);
    intros s w1 Hw1; (destruct s; simpl negb; cbv iota; [|apply wp_ret; by eapply wrote_failed]);
    destruct Hw1 as (f1 & _ & Ht & _); destruct (Ht eq_refl) as [Hw1 Hc1]; clear Ht; apply wp_bind;
    (eapply wp_mono; [by apply writer_restart|]); intros [] w2 Hw2; apply wp_bind, wp_gets; pose proof Hw2 as [_ Hoff2 _ _ _]; rewrite Hoff2;
    pose proof (start_bounds rec off Ho) as [Hst Hav]; pose proof (header_bounds rec) as Hh;
    (apply wp_bind, wp_assert; [apply Z.leb_le; unfold avail in Hav; lia|]); fold (avail rec off).
  - assert ((if (length left <? Z.to_nat (avail rec off))%nat then length left else Z.to_nat (avail rec off)) = length left) as ->.
    { unfold size in Hs. destruct (Nat.ltb_spec (length left) (Z.to_nat (avail rec off))); lia. }
    rewrite Nat.eqb_refl, take_ge, drop_ge by lia. apply wp_bind. eapply wp_mono.
    { apply (Emit_ok _ left w2 f1 (start rec off)); [done|apply fragment_type_ok|lia|unfold avail in Hs; lia|done]. }
    intros s w3 Hw3. simpl. rewrite andb_false_r. apply wp_ret. by eapply wrote_app.
  - assert ((if (length left <? Z.to_nat (avail rec off))%nat then length left else Z.to_nat (avail rec off)) = Z.to_nat (avail rec off)) as ->.
    { unfold size in Hs. destruct (Nat.ltb_spec (length left) (Z.to_nat (avail rec off))); lia. }
    rewrite (proj2 (Nat.eqb_neq _ _)) by (unfold size in Hs; lia). apply wp_bind. eapply wp_mono.
    { apply (Emit_ok _ (take (Z.to_nat (avail rec off)) left) w2 f1 (start rec off)); [done|apply fragment_type_ok|lia| |by apply Forall_take].
      unfold size in *. rewrite length_take. unfold avail in *. lia. }
    intros s w3 Hw3. destruct s; [|apply wp_ret; rewrite app_assoc; eapply wrote_failed; by eapply wrote_app].
    rewrite (proj2 (Nat.ltb_lt _ _)) by (rewrite length_drop; unfold size in Hs; lia). simpl andb. cbv iota.
    destruct Hw3 as (f3 & _ & Ht & _). destruct (Ht eq_refl) as [Hw3 Hc3]. eapply wp_mono; [apply (IH fuel w3 f3)|].
    + replace kBlockSize with (start rec off + header_size rec + size (take (Z.to_nat (avail rec off)) left)); [done|].
      unfold size in *. rewrite length_take. unfold avail in *. lia.
    + unfold kBlockSize. lia.
    + by apply Forall_drop.
    + pose proof (rounds_more rec off left (proj1 Hav) Hs). lia.
    + intros s w4 Hw4. rewrite app_assoc. eapply wrote_app; [|exact Hw4]. by rewrite Hc3, Hc1, app_assoc.
Qed.

Lemma AddRecord_ok off r bs off' w f :
  laid rec num true off r bs off' -> writer_at w f off -> 0 <= off <= kBlockSize -> Forall byte_ok r -> wp (AddRecord r) (wrote f bs off') w.
Proof.
  intros Hl Hw Ho Hb. unfold AddRecord. apply wp_bind. eapply wp_mono; [eapply add_loop_ok; [done..|unfold rounds; destruct (_ =? 0); lia]|].
  intros s w1 Hw1. destruct s; [|by apply wp_ret]. apply wp_bind, wp_gets. destruct (manual_flush_ w1); [by apply wp_ret|]. simpl negb. cbv iota.
  destruct Hw1 as (f1 & Hd & Ht & part & Hp & Hc). destruct (Ht eq_refl) as [Hw1 Hc1]. apply (wp_on_dest _ _ w1 f1 Hd).
  exists (snd (Flush f1)). split; [done|]. rewrite Flush_contents. split; [|by exists part]. intros _. split; [|done]. by destruct Hw1.
Qed.

(** Records written in turn until one of them fails; how many did not. *)
Fixpoint write_all (rs : list (list Z)) : M (Writer F) nat :=
  match rs with
  | [] => ret 0%nat
  | r :: rs => s <- AddRecord r ;; if (s : bool) then (n <- write_all rs ;; ret (S n)) else ret 0%nat
  end.

Lemma write_all_ok off rs bss off'' w f :
  logged rec num off rs bss off'' -> writer_at w f off -> 0 <= off <= kBlockSize -> Forall (Forall byte_ok) rs ->
  wp (write_all rs) (fun n w' => (n <= length rs)%nat /\ exists f' part, dest_ w' = Some f' /\ contents f' = contents f ++ part /\
    part `prefix_of` concat bss /\ concat (take n bss) `prefix_of` part) w.
Proof.
  intros Hlog. revert w f. induction Hlog as [off|off r rs bs bss off' off'' Hl Hlog IH]; intros w f Hw Ho Hb; cbn [write_all].
  - apply wp_ret. split; [lia|]. exists f, []. rewrite app_nil_r. split; [by destruct Hw|]. split; [done|]. by split.
  - apply Forall_cons in Hb as [Hb Hbs]. apply wp_bind. eapply wp_mono; [by eapply AddRecord_ok|]. intros s w1 (f1 & Hd & Ht & part & Hp & Hc).
    destruct s.
    + destruct (Ht eq_refl) as [Hw1 Hc1]. apply wp_bind. eapply wp_mono; [apply (IH w1 f1 Hw1); [by eapply laid_off|done]|].
      intros n w2 (Hn & f2 & p2 & Hd2 & Hc2 & Hp2 & Hn2). apply wp_ret. split; [simpl; lia|]. exists f2, (bs ++ p2). split; [done|].
      split; [by rewrite Hc2, Hc1, app_assoc|]. simpl. split; by apply prefix_app.
    + apply wp_ret. split; [lia|]. exists f1, part. split; [done|]. split; [done|]. simpl. split; [by apply prefix_app_r|]. apply prefix_nil.
Qed.

End writer.

(** ** The reader *)

Section reader.
Context {port : Port} {ext : Extender} {Hext : ExtenderOk ext} {F : Type} {HF : SequentialFile F} {HFok : SequentialFileOk F}.
Context (rec : bool) (num : Z) (Hnum : word 32 num).

(** The reader stands at offset [off] of a block with the bytes [R] of the log
    still to come; those of the block are in its buffer.  Before the first read
    it is at the end of a block. *)
Record at_pos (off : Z) (R : list Z) (r : Reader F) : Prop := {
  ap_off : 0 <= off <= kBlockSize;
  ap_buffer : buffer_ r = take (Z.to_nat (kBlockSize - off)) R;
  ap_file : serves (file_ r) (drop (Z.to_nat (kBlockSize - off)) R);
  ap_eof : eof_ r = (size R <? kBlockSize - off);
  ap_err : read_error_ r = false;
  ap_num : log_number_ r = num
}.

Lemma new_Reader_at f checksum R : serves f R -> at_pos kBlockSize R (new_Reader f checksum num).
Proof.
  intros Hf. split; rewrite ?Z.sub_diag; [unfold kBlockSize; lia|done|done| |done|done]. symmetry. apply Z.ltb_ge. unfold size. lia.
Qed.

Lemma size_take n R : 0 <= n -> size (take (Z.to_nat n) R) = Z.min n (size R).
Proof. intros Hn. unfold size. rewrite length_take. lia. Qed.

Lemma ReadMore_next off R r : at_pos off R r -> kBlockSize - off <= size R ->
  wp ReadMore (fun e r' => e = None /\ at_pos 0 (drop (Z.to_nat (kBlockSize - off)) R) r' /\ reports r' = reports r) r.
Proof.
  intros [Ho Hb Hf He Hr Hn] Hs. unfold ReadMore. apply wp_bind, wp_gets. unfold id. rewrite He, Hr, (proj2 (Z.ltb_ge _ _)) by lia. simpl andb. cbv iota.
  set (R' := drop _ R) in *. destruct (Read_ok (file_ r) R' (Z.to_nat kBlockSize) Hf) as (f' & -> & Hf'). cbv iota beta.
  apply wp_bind, wp_modify, wp_bind, wp_modify. simpl negb. cbv iota. apply wp_bind, wp_modify. rewrite size_take by (unfold kBlockSize; lia).
  destruct (Z.ltb_spec (Z.min kBlockSize (size R')) kBlockSize) as [Hlt|Hge].
  - apply wp_bind, wp_bind, wp_modify, wp_modify, wp_ret. split; [done|]. split; [|done].
    split; rewrite ?Z.sub_0_r; [unfold kBlockSize; lia|done|done| |done|done]. symmetry. apply Z.ltb_lt. lia.
  - apply wp_bind, wp_ret, wp_ret. split; [done|]. split; [|done].
    split; rewrite ?Z.sub_0_r; [unfold kBlockSize; lia|done|done| |done|done].
    change (eof_ r = (size R' <? kBlockSize)). rewrite He, !(proj2 (Z.ltb_ge _ _)) by lia. done.
Qed.

(** At the end of the log. *)
Definition ended (e : Z) : Prop := e = kBadHeader \/ e = kEof.

Lemma ReadMore_end off R r : at_pos off R r -> size R < kBlockSize - off ->
  wp ReadMore (fun e r' => exists c d, e = Some (c, d) /\ ended c /\ (R = [] -> c = kEof) /\ reports r' = reports r) r.
Proof.
  intros [Ho Hb Hf He Hr Hn] Hs. unfold ReadMore. apply wp_bind, wp_gets. unfold id. rewrite He, (proj2 (Z.ltb_lt _ _)) by lia. simpl andb. cbv iota.
  rewrite Hb, size_take by lia. destruct (Z.eqb_spec (Z.min (kBlockSize - off) (size R)) 0) as [E|E]; simpl negb; cbv iota.
  - apply wp_ret. eexists _, _. split; [done|]. split; [by right|]. done.
  - apply wp_bind, wp_modify, wp_ret. eexists _, _. split; [done|]. split; [by left|]. split; [|done]. intros ->. unfold size in *. simpl in E. lia.
Qed.

(** Less than a header is left: the next block, or the end. *)
Lemma phys_small off R r n (Q : Z * list Z * Z -> Reader F -> Prop) : at_pos off R r -> Z.min (kBlockSize - off) (size R) < kHeaderSize ->
  (kBlockSize - off <= size R -> forall r', at_pos 0 (drop (Z.to_nat (kBlockSize - off)) R) r' -> reports r' = reports r -> wp (ReadPhysicalRecord n) Q r') ->
  (size R < kBlockSize - off -> forall c d r', ended c -> (R = [] -> c = kEof) -> reports r' = reports r -> Q (c, [], d) r') ->
  wp (ReadPhysicalRecord (S n)) Q r.
Proof.
  intros Hat Hs Hnext Hend. pose proof Hat as [Ho Hb _ _ _ _]. cbn [ReadPhysicalRecord]. apply wp_bind, wp_gets. unfold id. rewrite Hb, size_take by lia.
  rewrite (proj2 (Z.ltb_lt _ _)) by lia. apply wp_bind. destruct (Z.le_gt_cases (kBlockSize - off) (size R)) as [Hle|Hgt].
  - eapply wp_mono; [by apply (ReadMore_next off R)|]. intros e r' (-> & Hat' & Hrep). by apply Hnext.
  - eapply wp_mono; [by apply (ReadMore_end off R)|]. intros e r' (c & d & -> & Hc & Hc' & Hrep). apply wp_ret. by apply Hend.
Qed.

(** The fields of a header. *)
Lemma header_fields (c4 : list Z) a b t T : length c4 = 4%nat -> let B := c4 ++ [a; b; t] ++ T in
  rd B (size B) 4 = Ok a /\ rd B (size B) 5 = Ok b /\ rd B (size B) 6 = Ok t /\ drop 6 B = t :: T /\ drop 7 B = T.
Proof.
  intros H4 B. assert (7 <= size B) by (unfold B, size; rewrite !length_app; simpl; lia).
  destruct c4 as [|c0 [|c1 [|c2 [|c3 [|]]]]]; try done. split_and!; try (apply rd_ok; [lia|done]); done.
Qed.

Lemma length_bytes n : 0 <= n < 65536 -> Z.lor (n mod 256) (Z.shiftl (n / 256) 8) = n.
Proof.
  intros Hn. rewrite Z.shiftl_mul_pow2 by lia. rewrite <- Z.add_nocarry_lor; [change (2 ^ 8) with 256; div_lia|].
  apply land_shifted; [lia|]. apply (Z.mod_pos_bound n 256). lia.
Qed.

Lemma type_recyclable t : type_ok rec t ->
  ((kRecyclableFullType <=? t) && (t <=? kRecyclableLastType)) || (t =? kRecyclableUserDefinedTimestampSizeType) = rec.
Proof.
  unfold type_ok, kRecyclableFullType, kRecyclableLastType, kRecyclableUserDefinedTimestampSizeType. intros Ht.
  destruct rec; destruct (Z.leb_spec 5 t), (Z.leb_spec t 8), (Z.eqb_spec t 11); simpl; lia || done.
Qed.

Lemma number_decoded T : rec = true -> DecodeFixed32 (number_bytes rec num ++ T) = Ok num.
Proof.
  intros ->. unfold number_bytes. rewrite DecodeFixed32_le by (apply le_bytes_ok || apply length_le_bytes). by rewrite le_value_bytes.
Qed.

Lemma checksum_decoded t d T : type_ok rec t -> Forall byte_ok d ->
  DecodeFixed32 (le_bytes 4 (Mask (crc32c 0 (t :: number_bytes rec num ++ d))) ++ T) = Ok (Mask (crc32c 0 (t :: number_bytes rec num ++ d))) /\
  Unmask (Mask (crc32c 0 (t :: number_bytes rec num ++ d))) = crc32c 0 (t :: number_bytes rec num ++ d) /\
  Value (t :: number_bytes rec num ++ d) = Ok (crc32c 0 (t :: number_bytes rec num ++ d)).
Proof.
  intros Ht Hd. assert (word 32 0) by (split; vm_compute; congruence). pose proof (type_byte rec t Ht) as [Htb _].
  assert (Forall byte_ok (t :: number_bytes rec num ++ d)) as Hall by (constructor; [done|]; apply Forall_app; split; [apply number_bytes_ok|done]).
  pose proof (Unmask_Mask _ (crc32c_word 0 _ H Hall)) as [Hm Hu]. split_and!; [|done|by apply Extend_ok].
  rewrite DecodeFixed32_le by (apply le_bytes_ok || apply length_le_bytes). by rewrite le_value_bytes.
Qed.

Lemma size_app (a b : list Z) : size (a ++ b) = size a + size b.
Proof. unfold size. rewrite length_app. lia. Qed.

Lemma fragment_header t d : exists hd, fragment rec num t d = hd ++ d /\ size hd = header_size rec.
Proof.
  eexists. split; [unfold fragment; by rewrite !app_assoc|]. pose proof (length_fragment rec num t d) as H. unfold fragment in H.
  rewrite !app_assoc, size_app in H. lia.
Qed.

(** A complete fragment is read, and the reader stands behind it. *)
Lemma phys_full off t d R r n : at_pos off (fragment rec num t d ++ R) r -> type_ok rec t -> off + header_size rec + size d <= kBlockSize -> Forall byte_ok d ->
  wp (ReadPhysicalRecord (S n)) (fun p r' => p = (t, d, 0) /\ at_pos (off + header_size rec + size d) R r' /\ reports r' = reports r) r.
Proof.
  intros [Ho Hb Hf He Hr Hn] Ht Hfit Hd. pose proof (header_bounds rec) as Hh. pose proof (length_fragment rec num t d) as Hlen.
  pose proof (type_byte rec t Ht) as [_ Ht8]. assert (0 <= size d) as Hd0 by (unfold size; lia).
  set (off' := off + header_size rec + size d) in *. set (R1 := take (Z.to_nat (kBlockSize - off')) R).
  destruct (fragment_header t d) as (hd & Hhd & Hhl).
  assert (buffer_ r = fragment rec num t d ++ R1) as HB.
  { rewrite Hb, take_app_ge by (unfold size in *; lia). f_equal. unfold R1. f_equal. unfold size in *. lia. }
  destruct (header_fields (le_bytes 4 (Mask (crc32c 0 (t :: number_bytes rec num ++ d)))) (size d mod 256) (size d / 256) t (number_bytes rec num ++ d ++ R1) (length_le_bytes _ _))
    as (H4 & H5 & H6 & Hd6 & Hd7). destruct (checksum_decoded t d ([size d mod 256; size d / 256; t] ++ number_bytes rec num ++ d ++ R1) Ht Hd) as (Hs1 & Hs2 & Hs3).
  replace (le_bytes 4 (Mask (crc32c 0 (t :: number_bytes rec num ++ d))) ++ [size d mod 256; size d / 256; t] ++ number_bytes rec num ++ d ++ R1)
    with (fragment rec num t d ++ R1) in * by (unfold fragment; by rewrite <- !app_assoc).
  set (B := fragment rec num t d ++ R1) in *. assert (size B = header_size rec + size d + size R1) as HsB by (unfold B; rewrite size_app; lia).
  assert (0 <= size R1) by (unfold size; lia). cbn [ReadPhysicalRecord]. apply wp_bind, wp_gets. unfold id. rewrite HB.
  rewrite (proj2 (Z.ltb_ge (size B) kHeaderSize)) by (unfold kHeaderSize; lia).
  apply wp_bind, (wp_lift _ _ _ _ H4), wp_bind, (wp_lift _ _ _ _ H5), wp_bind, (wp_lift _ _ _ _ H6).
  unfold char_type. rewrite (proj2 (Z.ltb_lt t 128)) by lia. rewrite type_recyclable, length_bytes by (done || unfold kBlockSize in *; lia). fold (header_size rec).
  apply wp_bind. apply wp_mono with (fun _ r' => exists b, r' = set_recycled b r).
  { destruct (rec && _); [apply wp_modify|apply wp_ret]; [by exists true|]. exists (recycled_ r). by destruct r. }
  intros [] r' [b ->].
  assert (rec && (size B <? kRecyclableHeaderSize) = false) as ->.
  { unfold header_size in *. destruct rec; [|done]. simpl. apply Z.ltb_ge. lia. }
  apply wp_bind. apply wp_mono with (fun x r' => x = num /\ r' = set_recycled b r).
  { rewrite Hd7. destruct rec eqn:Erec; [|by apply wp_ret]. apply wp_lift with num; [|done]. rewrite <- Erec. by apply number_decoded. }
  intros ? ? [-> ->]. rewrite Hn, Z.eqb_refl. simpl negb. cbv iota. rewrite (proj2 (Z.ltb_ge (size B) _)) by lia.
  replace ((t =? kZeroType) && (size d =? 0)) with false by (unfold kZeroType; by rewrite (proj2 (Z.eqb_neq t 0)) by lia). cbv iota.
  apply wp_bind. apply wp_mono with (fun bad r' => bad = false /\ r' = set_recycled b r).
  { destruct (checksum_ r); [|by apply wp_ret]. apply wp_bind, (wp_lift _ _ _ _ Hs1), wp_bind.
    apply wp_lift with (crc32c 0 (t :: number_bytes rec num ++ d)).
    - rewrite Hd6, <- Hs3. f_equal. change (t :: number_bytes rec num ++ d ++ R1) with ((t :: number_bytes rec num) ++ d ++ R1). rewrite app_assoc.
      apply take_app_length'. cbn [length app]. rewrite length_app. unfold size, header_size, number_bytes in *. simpl length. destruct rec; rewrite ?length_le_bytes; simpl; unfold kRecyclableHeaderSize, kHeaderSize; lia.
    - apply wp_ret. rewrite Hs2, Z.eqb_refl. done. }
  intros ? ? [-> ->]. apply wp_bind, wp_modify, wp_ret. split; [|split; [|done]].
  - do 2 f_equal. unfold B. rewrite Hhd, <- app_assoc, drop_app_length', take_app_length' by (unfold size in *; lia). done.
  - split; try done.
    + unfold off'. lia.
    + change (drop (Z.to_nat (header_size rec + size d)) B = R1). unfold B. apply drop_app_length'. unfold size in *. lia.
    + simpl. rewrite drop_app_ge in Hf by (unfold size in *; lia). replace (Z.to_nat (kBlockSize - off')) with (Z.to_nat (kBlockSize - off) - length (fragment rec num t d))%nat; [done|].
      unfold size in *. lia.
    + simpl. rewrite He, size_app, Hlen. unfold off'. apply eq_true_iff_eq. rewrite !Z.ltb_lt. lia.
Qed.

Lemma at_pos_recycled off R r b : at_pos off R r -> at_pos off R (set_recycled b r).
Proof. intros []. by split. Qed.

(** What the reader finds where the log was cut off. *)
Definition cut (R : list Z) (r : Reader F) (p : Z * list Z * Z) (r' : Reader F) : Prop :=
  exists c drop_size, p = (c, [], drop_size) /\ (ended c \/ (c = kBadRecordLen /\ eof_ r' = true)) /\ (R = [] -> c = kEof) /\ reports r' = reports r.

Lemma phys_end off R r n : at_pos off R r -> size R < kBlockSize - off -> size R < kHeaderSize -> wp (ReadPhysicalRecord (S n)) (cut R r) r.
Proof.
  intros Hat Hs H7. apply (phys_small off R); [done|lia|lia|]. intros _ c d r' Hc Hc' Hrep. exists c, d. split; [done|]. split; [by left|done].
Qed.

(** An incomplete fragment at the end of the log. *)
Lemma phys_cut off t d k r n : at_pos off (take k (fragment rec num t d)) r -> type_ok rec t -> off + header_size rec + size d <= kBlockSize ->
  (k < length (fragment rec num t d))%nat -> wp (ReadPhysicalRecord (S n)) (cut (take k (fragment rec num t d)) r) r.
Proof.
  intros Hat Ht Hfit Hk. pose proof Hat as [Ho Hb Hf He Hr Hn]. pose proof (header_bounds rec) as Hh. pose proof (length_fragment rec num t d) as Hlen.
  pose proof (type_byte rec t Ht) as [_ Ht8]. assert (0 <= size d) as Hd0 by (unfold size; lia). set (R := take k _) in *.
  assert (size R = Z.of_nat k) as HR by (unfold R, size; rewrite length_take; lia). assert (size R < kBlockSize - off) as Hsz by (unfold size in *; lia).
  destruct (Z.lt_ge_cases (size R) kHeaderSize) as [|H7]; [by apply (phys_end off)|]. rewrite take_ge in Hb by (unfold size in *; lia).
  set (T := take (k - 7) (number_bytes rec num ++ d)).
  destruct (header_fields (le_bytes 4 (Mask (crc32c 0 (t :: number_bytes rec num ++ d)))) (size d mod 256) (size d / 256) t T (length_le_bytes _ _))
    as (H4 & H5 & H6 & _ & Hd7).
  replace (le_bytes 4 (Mask (crc32c 0 (t :: number_bytes rec num ++ d))) ++ [size d mod 256; size d / 256; t] ++ T) with R in *.
  2: { unfold R, T, fragment, kHeaderSize in *. rewrite (take_app_ge (le_bytes _ _)), length_le_bytes by (rewrite length_le_bytes; lia). f_equal.
       rewrite take_app_ge by (simpl; lia). simpl length. by replace (k - 4 - 3)%nat with (k - 7)%nat by lia. }
  cbn [ReadPhysicalRecord]. apply wp_bind, wp_gets. unfold id. rewrite Hb, (proj2 (Z.ltb_ge (size R) kHeaderSize)) by lia.
  apply wp_bind, (wp_lift _ _ _ _ H4), wp_bind, (wp_lift _ _ _ _ H5), wp_bind, (wp_lift _ _ _ _ H6).
  unfold char_type. rewrite (proj2 (Z.ltb_lt t 128)) by lia. rewrite type_recyclable, length_bytes by (done || unfold kBlockSize in *; lia). fold (header_size rec).
  apply wp_bind. apply wp_mono with (fun _ r' => exists b, r' = set_recycled b r).
  { destruct (rec && _); [apply wp_modify|apply wp_ret]; [by exists true|]. exists (recycled_ r). by destruct r. }
  intros [] r' [b ->]. destruct (rec && (size R <? kRecyclableHeaderSize)) eqn:E11.
  { apply wp_bind. eapply wp_mono; [apply (ReadMore_end off R); [by apply at_pos_recycled|lia]|].
    intros e r' (c & dr & -> & Hc & Hc' & Hrep). apply wp_ret. exists c, dr. split; [done|]. split; [by left|done]. }
  apply wp_bind. apply wp_mono with (fun x r' => x = num /\ r' = set_recycled b r).
  { rewrite Hd7. destruct rec eqn:Erec; [|by apply wp_ret]. apply wp_lift with num; [|done]. simpl in E11. apply Z.ltb_ge in E11. unfold kRecyclableHeaderSize in E11.
    unfold T, number_bytes. rewrite take_app_ge by (rewrite length_le_bytes; lia). pose proof (number_decoded (take (k - 7 - length (le_bytes 4 num)) d) Erec) as Hnd.
    unfold number_bytes in Hnd. by rewrite Erec in Hnd. }
  intros ? ? [-> ->]. rewrite Hn, Z.eqb_refl. simpl negb. cbv iota. rewrite (proj2 (Z.ltb_lt (size R) _)) by (unfold size in *; lia).
  apply wp_bind, wp_modify, wp_ret. exists kBadRecordLen, (size R). split; [done|]. split; [right; split; [done|]|split; [|done]].
  - simpl. rewrite He. apply Z.ltb_lt. lia.
  - intros E. rewrite E in H7. unfold size, kHeaderSize in H7. simpl in H7. lia.
Qed.

(** Zeros where a header was expected are passed over. *)
Lemma phys_zeros off m R r n : at_pos off (replicate m 0 ++ R) r -> (7 <= m)%nat ->
  (Z.of_nat m = kBlockSize - off \/ (Z.of_nat m < kBlockSize - off /\ R = [])) ->
  wp (ReadPhysicalRecord (S n)) (fun p r' => p = (kBadRecord, [], 0) /\ reports r' = reports r /\
    at_pos (if Z.of_nat m =? kBlockSize - off then kBlockSize else off) R r') r.
Proof.
  intros Hat H7 Hm. pose proof Hat as [Ho Hb Hf He Hr Hn]. assert (buffer_ r = replicate m 0) as HB.
  { rewrite Hb. destruct Hm as [Hm|[Hm ->]]; [apply take_app_length'; rewrite length_replicate; lia|]. rewrite app_nil_r. apply take_ge. rewrite length_replicate. lia. }
  assert (size (replicate m 0) = Z.of_nat m) as Hsz by (unfold size; by rewrite length_replicate).
  cbn [ReadPhysicalRecord]. apply wp_bind, wp_gets. unfold id. rewrite HB, Hsz, (proj2 (Z.ltb_ge (Z.of_nat m) kHeaderSize)) by (unfold kHeaderSize; lia).
  assert (forall i, 0 <= i < Z.of_nat m -> rd (replicate m 0) (Z.of_nat m) i = Ok 0) as Hz.
  { intros i Hi. apply rd_ok; [done|]. apply lookup_replicate_2. lia. }
  apply wp_bind, (wp_lift _ _ _ _ (Hz 4 ltac:(lia))), wp_bind, (wp_lift _ _ _ _ (Hz 5 ltac:(lia))), wp_bind, (wp_lift _ _ _ _ (Hz 6 ltac:(lia))).
  change (char_type 0) with 0. change (Z.lor 0 (Z.shiftl 0 8)) with 0.
  change ((kRecyclableFullType <=? 0) && (0 <=? kRecyclableLastType) || (0 =? kRecyclableUserDefinedTimestampSizeType)) with false. cbv iota. simpl andb. cbv iota.
  apply wp_bind, wp_ret, wp_bind, wp_ret. rewrite Z.eqb_refl. simpl negb. cbv iota. rewrite (proj2 (Z.ltb_ge (Z.of_nat m) (kHeaderSize + 0))) by (unfold kHeaderSize; lia).
  change ((0 =? kZeroType) && (0 =? 0)) with true. cbv iota. apply wp_bind, wp_modify, wp_ret. split; [done|]. split; [done|].
  destruct Hm as [Hm|[Hm ->]].
  - rewrite Hm, Z.eqb_refl. split; rewrite ?Z.sub_diag; [unfold kBlockSize; lia|done| | |done|done].
    + simpl. rewrite drop_app_length' in Hf by (rewrite length_replicate; lia). exact Hf.
    + simpl. rewrite He, size_app, Hsz, !(proj2 (Z.ltb_ge _ _)) by (unfold size; lia). done.
  - rewrite (proj2 (Z.eqb_neq _ _)) by lia. split; [done|by rewrite take_nil| | |done|done].
    + simpl. rewrite app_nil_r, drop_ge in Hf by (rewrite length_replicate; lia). by rewrite drop_nil.
    + simpl. rewrite He, app_nil_r, Hsz, !(proj2 (Z.ltb_lt _ _)) by (unfold size; simpl; lia). done.
Qed.

Lemma wp_report_if (b : bool) n why (Q : unit -> Reader F -> Prop) r :
  (b = false -> Q tt r) -> (b = true -> Q tt (set_reports (reports r ++ [(n, why)]) r)) -> wp (report_if b n why) Q r.
Proof. intros H1 H2. destruct b; [apply wp_modify|apply wp_ret]; auto. Qed.

(** Padding of less than a header is skipped by [ReadPhysicalRecord]. *)
Lemma phys_start off X r n Q : at_pos off (padding rec off ++ X) r -> kBlockSize - off < 7 \/ header_size rec <= kBlockSize - off ->
  (forall n r', at_pos (start rec off) X r' -> reports r' = reports r -> wp (ReadPhysicalRecord (S n)) Q r') -> wp (ReadPhysicalRecord (S (S n))) Q r.
Proof.
  intros Hat Hoff HQ. pose proof (header_bounds rec) as Hh. pose proof (ap_off _ _ _ Hat) as Ho. pose proof (length_padding rec off Ho) as Hp.
  unfold start in HQ. unfold padding in *. destruct (Z.ltb_spec (kBlockSize - off) (header_size rec)).
  - apply (phys_small off _ _ (S n) Q Hat); [unfold kHeaderSize; lia| |].
    + intros _ r' Hat' Hrep. apply HQ; [|done]. by rewrite drop_app_length' in Hat' by (rewrite length_replicate; lia).
    + rewrite size_app. intros Hs. unfold size in *. lia.
  - by apply HQ.
Qed.

Lemma dispatch_bad (again : bool -> list Z -> Z -> M (Reader F) (option (list Z))) mode scratch prospective physical :
  dispatch again mode false scratch prospective physical (kBadRecord, [], 0) = (report_if false (size scratch) MiddleOfRecord ;;; again false scratch prospective).
Proof. done. Qed.

(** The reader gets to the fragment behind the padding, in two rounds if the
    padding is as long as a short header. *)
Lemma loop_start fuel mode infrag scratch prosp off X r Q :
  at_pos off (padding rec off ++ X) r -> (infrag = true -> off = kBlockSize) ->
  (forall n fuel' physical r', at_pos (start rec off) X r' -> reports r' = reports r -> (fuel <= fuel')%nat ->
     wp (ReadPhysicalRecord (S n)) (fun p r1 => wp (dispatch (read_loop fuel' mode) mode infrag scratch prosp physical p) Q r1) r') ->
  wp (read_loop (S (S fuel)) mode infrag scratch prosp) Q r.
Proof.
  intros Hat Hin HQ. pose proof (header_bounds rec) as Hh. pose proof (ap_off _ _ _ Hat) as Ho.
  remember (S fuel) as fuel1 eqn:Efuel. cbn [read_loop]. apply wp_bind, wp_gets, wp_bind.
  destruct (Z.lt_ge_cases (kBlockSize - off) 7) as [|H7]; [apply (phys_start off X); [done|by left|]; intros n r' Hat' Hrep; apply HQ; [done|done|lia]|].
  destruct (Z.le_gt_cases (header_size rec) (kBlockSize - off)) as [|H11]; [apply (phys_start off X); [done|by right|]; intros n r' Hat' Hrep; apply HQ; [done|done|lia]|].
  destruct infrag; [specialize (Hin eq_refl); lia|]. unfold padding, start in *. rewrite (proj2 (Z.ltb_lt _ _)) in * by lia.
  eapply wp_mono; [apply (phys_zeros off (Z.to_nat (kBlockSize - off)) X); [exact Hat|lia|left; lia]|]. intros p r1 (-> & Hrep1 & Hat1).
  rewrite Z2Nat.id, Z.eqb_refl in Hat1 by lia. rewrite dispatch_bad. apply wp_bind, wp_report_if; [intros _|done]. subst fuel1. cbn [read_loop].
  apply wp_bind, wp_gets, wp_bind. apply (phys_start kBlockSize X).
  - unfold padding. rewrite Z.sub_diag, (proj2 (Z.ltb_lt _ _)) by lia. exact Hat1.
  - left. lia.
  - intros n r' Hat' Hrep. unfold start in Hat'. rewrite Z.sub_diag, (proj2 (Z.ltb_lt _ _)) in Hat' by lia. apply HQ; [done|by rewrite Hrep|done].
Qed.

(** A fragment of each kind. *)
Lemma dispatch_fragment (again : bool -> list Z -> Z -> M (Reader F) (option (list Z))) mode begin end_ scratch prospective physical d :
  dispatch again mode (negb begin) scratch prospective physical (fragment_type rec begin end_, d, 0) =
  if begin then (if end_ then report_if false (size scratch) PartialWithoutEnd ;;; found d physical
                 else report_if false (size scratch) PartialWithoutEnd ;;; again true d physical)
  else (if end_ then found (scratch ++ d) prospective else again true (scratch ++ d) prospective).
Proof. by destruct rec, begin, end_. Qed.

Lemma record_found_ok d o off R r (r0 : Reader F) : at_pos off R r -> reports r = reports r0 ->
  wp (found d o) (fun x r' => x = Some d /\ at_pos off R r' /\ reports r' = reports r0) r.
Proof. intros [] Hrep. unfold found. apply wp_bind, wp_modify, wp_bind, wp_modify, wp_ret. split; [done|]. split; [by split|done]. Qed.

(** A record that is complete is read, and the reader stands behind it. *)
Lemma read_laid begin off left bs off' : laid rec num begin off left bs off' ->
  forall fuel mode scratch prosp R r, at_pos off (bs ++ R) r -> (begin = false -> off = kBlockSize) -> Forall byte_ok left -> (2 * rounds rec off left <= fuel)%nat ->
  wp (read_loop fuel mode (negb begin) scratch prosp)
     (fun o r' => o = Some ((if begin then [] else scratch) ++ left) /\ at_pos off' R r' /\ reports r' = reports r) r.
Proof.
  intros Hlaid. induction Hlaid as [begin off left Hs|begin off left bs off' Hs Hl IH]; intros fuel mode scratch prosp R r Hat Hbeg Hb Hf;
    (destruct fuel as [|[|fuel]]; [unfold rounds in Hf; destruct (avail rec off =? 0); lia..|]); rewrite <- ?app_assoc in Hat;
    pose proof (ap_off _ _ _ Hat) as Ho; pose proof (start_bounds rec off Ho) as [Hst Hav];
    (apply (loop_start _ _ _ _ _ off _ _ _ Hat); [destruct begin; [done|auto]|]); intros n fuel' physical r' Hat' Hrep Hfuel; (eapply wp_mono; [apply (phys_full (start rec off) _ _ _ _ _ Hat')|]).
  - apply fragment_type_ok.
  - unfold avail in Hs. lia.
  - done.
  - intros p r1 (-> & Hat1 & Hrep1). rewrite dispatch_fragment.
    destruct begin; [apply wp_bind, wp_report_if; [intros _|done]|]; apply record_found_ok; congruence || done.
  - apply fragment_type_ok.
  - rewrite size_take by lia. unfold avail in *. lia.
  - by apply Forall_take.
  - intros p r1 (-> & Hat1 & Hrep1). rewrite dispatch_fragment.
    assert (start rec off + header_size rec + size (take (Z.to_nat (avail rec off)) left) = kBlockSize) as Efull by (rewrite size_take by lia; unfold avail in *; lia).
    rewrite Efull in Hat1. assert (2 * rounds rec kBlockSize (drop (Z.to_nat (avail rec off)) left) <= fuel')%nat as Hf'
      by (pose proof (rounds_more rec off left (proj1 Hav) Hs); lia).
    destruct begin; [apply wp_bind, wp_report_if; [intros _|done]|];
      (eapply wp_mono; [apply (IH fuel' mode _ _ R r1 Hat1); [done|by apply Forall_drop|done]|]); intros o r2 (-> & Hat2 & Hrep2);
      (split; [|split; [done|congruence]]); simpl; by rewrite <- ?app_assoc, take_drop.
Qed.

(** What a recovery that meets the end of the log says: nothing, unless the mode
    is strict and something incomplete is there. *)
Definition stopped (mode : WALRecoveryMode) (clean : Prop) (r0 : Reader F) (o : option (list Z)) (r : Reader F) : Prop :=
  o = None /\ (strict mode = false \/ clean -> reports r = reports r0).

Lemma dispatch_cut (again : bool -> list Z -> Z -> M (Reader F) (option (list Z))) mode infrag scratch prosp physical R r r0 p r1 :
  cut R r p r1 -> reports r = reports r0 ->
  wp (dispatch again mode infrag scratch prosp physical p) (stopped mode (infrag = false /\ R = []) r0) r1.
Proof.
  intros (c & d & -> & Hc & HR & Hrep) Hr0. destruct Hc as [[-> | ->]|[-> Heof]].
  - change (wp (report_if (strict mode) d TruncatedHeader ;;; report_if (infrag && strict mode) (size scratch) TrailingData ;;; ret None)
      (stopped mode (infrag = false /\ R = []) r0) r1).
    apply wp_bind, wp_report_if; intros Hm; apply wp_bind, wp_report_if; intros Hi; apply wp_ret; (split; [done|]);
      (intros [Hs|[Hi' HR']]; [rewrite Hs in *; rewrite ?andb_false_r in Hi; congruence|by specialize (HR HR')]).
  - change (wp (report_if (infrag && strict mode) (size scratch) TrailingData ;;; ret None) (stopped mode (infrag = false /\ R = []) r0) r1).
    apply wp_bind, wp_report_if; intros Hi; apply wp_ret; (split; [done|]); intros [Hs|[Hi' HR']]; try congruence.
    + by rewrite Hs, andb_false_r in Hi.
    + by rewrite Hi' in Hi.
  - change (wp (r <- gets id ;; if eof_ r then report_if (strict mode) d TruncatedBody ;;; ret None
      else if recycled_ r && bool_decide (mode = kTolerateCorruptedTailRecords) then ret None
      else ReportCorruption d BadLength ;;; report_if infrag (size scratch) MiddleOfRecord ;;; again false (if infrag then [] else scratch) prosp)
      (stopped mode (infrag = false /\ R = []) r0) r1).
    apply wp_bind, wp_gets. unfold id. rewrite Heof. apply wp_bind, wp_report_if; intros Hm; apply wp_ret; (split; [done|]);
      (intros [Hs|[Hi' HR']]; [congruence|by specialize (HR HR')]).
Qed.

(** Where nothing is left. *)
Lemma loop_end fuel mode infrag scratch prosp off r : at_pos off [] r ->
  wp (read_loop (S fuel) mode infrag scratch prosp) (stopped mode (infrag = false) r) r.
Proof.
  intros Hat. pose proof (ap_off _ _ _ Hat) as Ho. cbn [read_loop]. apply wp_bind, wp_gets, wp_bind.
  apply wp_mono with (cut [] r).
  - apply (phys_small off [] _ 2); [done|unfold size, kHeaderSize; simpl; lia| |].
    + intros Hs r' Hat' Hrep. rewrite drop_nil in Hat'. eapply wp_mono; [apply (phys_end 0 []); [done|unfold size, kBlockSize; simpl; lia|unfold size, kHeaderSize; simpl; lia]|].
      intros p r1 (c & d & Hp & Hc & HR & Hrep1). exists c, d. split; [done|]. split; [done|]. split; [done|]. congruence.
    + intros _ c d r' Hc HR Hrep. exists c, d. split; [done|]. split; [by left|done].
  - intros p r1 Hcut. eapply wp_mono; [by eapply dispatch_cut|]. intros o r2 [Ho2 Hr2]. split; [done|]. intros [Hs|Hi]; apply Hr2; [by left|right; done].
Qed.

(** The log ends within the padding before a record. *)
Lemma cut_padding begin off left bs fuel mode scratch prosp k r :
  at_pos off (take k (padding rec off ++ bs)) r -> (begin = false -> off = kBlockSize) ->
  (2 * rounds rec off left <= fuel)%nat -> (k < length (padding rec off))%nat ->
  wp (read_loop fuel mode (negb begin) scratch prosp) (stopped mode (begin = true /\ k = 0%nat) r) r.
Proof.
  intros Hat Hbeg Hf Hk. pose proof (ap_off _ _ _ Hat) as Ho. pose proof (header_bounds rec) as Hh. rewrite take_app_le in Hat by lia. unfold padding in *.
  destruct (Z.ltb_spec (kBlockSize - off) (header_size rec)) as [Hlt|]; [|simpl in Hk; lia].
  rewrite length_replicate in Hk. rewrite take_replicate, Nat.min_l in Hat by lia. destruct begin; [|specialize (Hbeg eq_refl); lia]. simpl negb.
  destruct fuel as [|[|fuel]]; [unfold rounds in Hf; destruct (avail rec off =? 0); lia..|]. remember (S fuel) as fuel1 eqn:Ef. cbn [read_loop].
  assert (size (replicate k 0) = Z.of_nat k) as Hsz by (unfold size; by rewrite length_replicate).
  apply wp_bind, wp_gets, wp_bind. destruct (Nat.lt_ge_cases k 7).
  - eapply wp_mono; [apply (phys_end off); [done|lia|unfold kHeaderSize; lia]|]. intros p r1 Hcut. eapply wp_mono; [by eapply dispatch_cut|].
    intros o r2 [Ho2 Hr2]. split; [done|]. intros [Hs|[_ ->]]; apply Hr2; [by left|by right].
  - eapply wp_mono; [apply (phys_zeros off k []); [by rewrite app_nil_r|done|right; split; [lia|done]]|]. intros p r1 (-> & Hrep & Hat1).
    rewrite (proj2 (Z.eqb_neq _ _)) in Hat1 by lia. rewrite dispatch_bad. apply wp_bind, wp_report_if; [intros _|done]. subst fuel1.
    eapply wp_mono; [by apply (loop_end fuel mode false scratch prosp off)|]. intros o r2 [Ho2 Hr2]. split; [done|]. intros _. rewrite Hr2, Hrep by (by right). done.
Qed.

(** The log ends within a fragment. *)
Lemma cut_fragment fuel mode begin end_ scratch prosp physical off d k j r r0 n : at_pos off (take j (fragment rec num (fragment_type rec begin end_) d)) r ->
  off + header_size rec + size d <= kBlockSize -> (j < length (fragment rec num (fragment_type rec begin end_) d))%nat -> reports r = reports r0 -> (j <= k)%nat ->
  wp (ReadPhysicalRecord (S n)) (fun p r1 => wp (dispatch (read_loop fuel mode) mode (negb begin) scratch prosp physical p)
    (stopped mode (begin = true /\ k = 0%nat) r0) r1) r.
Proof.
  intros Hat Hfit Hj Hrep Hjk. eapply wp_mono; [apply (phys_cut off _ _ _ _ _ Hat); [apply fragment_type_ok|done|done]|]. intros p r1 Hcut.
  eapply wp_mono; [by eapply dispatch_cut|]. intros o r2 [Ho2 Hr2]. split; [done|]. intros [Hs|[-> ->]]; apply Hr2; [by left|right].
  split; [done|]. by replace j with 0%nat by lia.
Qed.

(** A record that is cut off is not read. *)
Lemma cut_laid begin off left bs off' : laid rec num begin off left bs off' ->
  forall fuel mode scratch prosp k r, at_pos off (take k bs) r -> (k < length bs)%nat -> (begin = false -> off = kBlockSize) -> Forall byte_ok left ->
  (2 * rounds rec off left <= fuel)%nat ->
  wp (read_loop fuel mode (negb begin) scratch prosp) (stopped mode (begin = true /\ k = 0%nat) r) r.
Proof.
  intros Hlaid. induction Hlaid as [begin off left Hs|begin off left bs off' Hs Hl IH]; intros fuel mode scratch prosp k r Hat Hk Hbeg Hb Hf;
    (destruct (Nat.lt_ge_cases k (length (padding rec off))) as [|Hge]; [by eapply cut_padding|]);
    (destruct fuel as [|[|fuel]]; [unfold rounds in Hf; destruct (avail rec off =? 0); lia..|]); rewrite take_app_ge in Hat by lia;
    pose proof (ap_off _ _ _ Hat) as Ho; pose proof (start_bounds rec off Ho) as [Hst Hav]; rewrite !length_app in Hk;
    (apply (loop_start _ _ _ _ _ off _ _ _ Hat); [destruct begin; [done|auto]|]); intros n fuel' physical r' Hat' Hrep Hfuel.
  - eapply cut_fragment; [exact Hat'|unfold avail in Hs; lia|lia|done|lia].
  - set (fr := fragment _ _ _ _) in *. assert (start rec off + header_size rec + size (take (Z.to_nat (avail rec off)) left) = kBlockSize) as Efull
      by (rewrite size_take by lia; unfold avail in *; lia). destruct (Nat.lt_ge_cases (k - length (padding rec off)) (length fr)) as [Hlt|Hge2].
    + rewrite take_app_le in Hat' by lia. eapply cut_fragment; [exact Hat'|lia|exact Hlt|done|lia].
    + rewrite take_app_ge in Hat' by lia. eapply wp_mono; [apply (phys_full (start rec off) _ _ _ _ _ Hat'); [apply fragment_type_ok|lia|by apply Forall_take]|].
      intros p r1 (-> & Hat1 & Hrep1). rewrite Efull in Hat1. rewrite dispatch_fragment.
      assert (2 * rounds rec kBlockSize (drop (Z.to_nat (avail rec off)) left) <= fuel')%nat as Hf'
        by (pose proof (rounds_more rec off left (proj1 Hav) Hs); lia).
      assert (0 < length fr)%nat as Hfr by (pose proof (length_fragment rec num (fragment_type rec begin false) (take (Z.to_nat (avail rec off)) left)) as Hl';
        pose proof (header_bounds rec); fold fr in Hl'; unfold size in Hl'; lia).
      destruct begin; [apply wp_bind, wp_report_if; [intros _|done]|];
        (eapply wp_mono; [apply (IH fuel' mode _ _ _ r1 Hat1); [lia|done|by apply Forall_drop|done]|]); intros o r2 [Ho2 Hr2];
        (split; [done|]); (intros [Hs'|[? ->]]; [rewrite Hr2 by (by left); congruence|lia]).
Qed.

(** Reading until the end, as recovery does; at most [n] records. *)
Fixpoint read_all (n fuel : nat) (mode : WALRecoveryMode) : M (Reader F) (list (list Z)) :=
  match n with
  | O => fail EFuel
  | S n =>
      o <- ReadRecord fuel mode ;;
      match o with
      | None => ret []
      | Some rc => rest <- read_all n fuel mode ;; ret (rc :: rest)
      end
  end.

Lemma rounds_bound off left : (2 * rounds rec off left <= 2 * length left + 4)%nat.
Proof. unfold rounds. destruct (avail rec off =? 0); lia. Qed.

(** From a prefix of a log exactly the records are read that are complete. *)
Lemma read_all_ok off rs bss off'' : logged rec num off rs bss off'' ->
  forall n fuel mode R r, at_pos off R r -> R `prefix_of` concat bss -> Forall (Forall byte_ok) rs -> (length rs < n)%nat ->
  Forall (fun rc => 2 * length rc + 4 <= fuel)%nat rs -> (0 < fuel)%nat ->
  wp (read_all n fuel mode) (fun out r' => exists k, out = take k rs /\ (k <= length rs)%nat /\ concat (take k bss) `prefix_of` R /\
    ((k < length rs)%nat -> ~ concat (take (S k) bss) `prefix_of` R) /\
    (strict mode = false \/ R = concat (take k bss) -> reports r' = reports r)) r.
Proof.
  intros Hlog. induction Hlog as [off|off rc rs bs bss off' off'' Hl Hlog IH]; intros n fuel mode R r Hat Hpre Hb Hn Hf Hf0; (destruct n as [|n]; [simpl in Hn; lia|]); cbn [read_all]; apply wp_bind.
  - apply prefix_nil_inv in Hpre as ->. destruct fuel as [|fuel]; [lia|]. eapply wp_mono; [by apply (loop_end fuel mode false [] 0 off)|]. intros o r' [-> Hr].
    apply wp_ret. exists 0%nat. split; [done|]. split; [simpl; lia|]. split; [done|]. split; [simpl; lia|]. intros _. apply Hr. by right.
  - apply Forall_cons in Hb as [Hb Hbs]. apply Forall_cons in Hf as [Hf Hfs]. pose proof (rounds_bound off rc) as Hrb. simpl in Hpre, Hn.
    destruct (decide (bs `prefix_of` R)) as [[R' ->]|Hno].
    + eapply wp_mono; [apply (read_laid _ _ _ _ _ Hl fuel mode [] 0 R' r Hat); [done|done|lia]|]. intros o r1 (-> & Hat1 & Hrep1). apply wp_bind.
      eapply wp_mono; [apply (IH n fuel mode R' r1 Hat1); [by apply prefix_app_inv in Hpre|done|lia|done|done]|].
      intros out r2 (k & -> & Hk & Hkp & Hkn & Hrep2). apply wp_ret. exists (S k). split; [done|]. split; [simpl; lia|].
      split; [by apply prefix_app|]. split.
      * intros Hlt Hp. apply Hkn; [simpl in Hlt; lia|]. change (concat (take (S (S k)) (bs :: bss))) with (bs ++ concat (take (S k) bss)) in Hp.
        by apply prefix_app_inv in Hp.
      * intros Hc. rewrite <- Hrep1. apply Hrep2. destruct Hc as [Hc|Hc]; [by left|right]. cbn [take concat] in Hc. by apply app_inv_head in Hc.
    + assert (exists j, (j < length bs)%nat /\ R = take j bs) as (j & Hj & ->).
      { destruct Hpre as [T HT]. assert (length R < length bs)%nat as Hlt.
        { destruct (Nat.lt_ge_cases (length R) (length bs)) as [|Hge]; [done|]. exfalso. apply Hno. exists (drop (length bs) R).
          rewrite <- (take_drop (length bs) R) at 1. f_equal. assert (take (length bs) (bs ++ concat bss) = take (length bs) (R ++ T)) as E by (by rewrite HT).
          rewrite take_app_length, take_app_le in E by lia. done. }
        exists (length R). split; [done|]. assert (take (length R) (bs ++ concat bss) = take (length R) (R ++ T)) as E by (by rewrite HT).
        rewrite take_app_length, take_app_le in E by lia. done. }
      eapply wp_mono; [apply (cut_laid _ _ _ _ _ Hl fuel mode [] 0 j r Hat Hj); [done|done|lia]|]. intros o r1 [-> Hr1]. apply wp_ret. exists 0%nat.
      split; [done|]. split; [lia|]. split; [apply prefix_nil|]. split; [intros _; simpl; by rewrite app_nil_r|].
      intros Hc. apply Hr1. destruct Hc as [Hc|Hc]; [by left|right]. split; [done|]. simpl in Hc. apply (f_equal length) in Hc. rewrite length_take in Hc. simpl in Hc. lia.
Qed.

End reader.

(** ** Recovery *)

(** The beginning of a file and the end of a block are the same place. *)
Lemma laid_start rec num begin left bs off' : laid rec num begin 0 left bs off' -> laid rec num begin kBlockSize left bs off'.
Proof.
  pose proof (header_bounds rec) as Hh.
  assert (start rec 0 = start rec kBlockSize /\ padding rec 0 = padding rec kBlockSize /\ avail rec 0 = avail rec kBlockSize) as (Hs & Hp & Ha).
  { assert (start rec 0 = start rec kBlockSize) as Hs.
    { unfold start. rewrite Z.sub_diag, (proj2 (Z.ltb_lt 0 _)), (proj2 (Z.ltb_ge _ _)) by (unfold kBlockSize; lia). done. }
    split; [done|]. split; [|unfold avail; by rewrite Hs].
    unfold padding. rewrite Z.sub_diag, (proj2 (Z.ltb_lt 0 _)), (proj2 (Z.ltb_ge _ _)) by (unfold kBlockSize; lia). done. }
  intros H. inversion H; subst; rewrite Hp, ?Ha, ?Hs in *; by constructor.
Qed.

Lemma logged_start rec num rs bss off'' : logged rec num 0 rs bss off'' -> exists off, logged rec num kBlockSize rs bss off.
Proof. intros H. inversion H; subst; [eexists; constructor|]. eexists. econstructor; [by apply laid_start|done]. Qed.

Lemma logged_length rec num off rs bss off'' : logged rec num off rs bss off'' -> length bss = length rs.
Proof. induction 1; simpl; lia. Qed.

Lemma concat_take_prefix (bss : list (list Z)) i j : (i <= j)%nat -> concat (take i bss) `prefix_of` concat (take j bss).
Proof.
  intros Hij. exists (concat (drop i (take j bss))). rewrite <- concat_app. f_equal. rewrite <- (take_drop i (take j bss)) at 1. by rewrite take_take, Nat.min_l.
Qed.

(** C31. Records are added to a new log until one of them fails; then the file
    is cut off anywhere, as a crash does.  Whatever the kind of log, the way the
    record failed and the recovery mode, reading what is left returns, and
    returns exactly the records that are complete in it, in order.  The
    acknowledged records are complete in the file, so all of them are read back
    exactly when the cut leaves their bytes, in particular when nothing is cut
    off; nothing is reported unless the mode is strict and the log is
    incomplete. *)
Theorem log_recovers {port : Port} {ext : Extender} (Hext : ExtenderOk ext) {FW FR : Type} {HFW : WritableFile FW} (HW : WritableFileOk FW)
  {HFR : SequentialFile FR} (HR : SequentialFileOk FR) rec manual log_number rs (f : FW) :
  contents f = [] -> word 32 log_number -> Forall (Forall byte_ok) rs ->
  exists w acked w' f' bss off, new_Writer f log_number rec manual = Ok w /\ write_all rs w = Ok (acked, w') /\ dest_ w' = Some f' /\
    logged rec log_number 0 rs bss off /\ contents f' `prefix_of` concat bss /\ (acked <= length rs)%nat /\ concat (take acked bss) `prefix_of` contents f' /\
    forall bs (g : FR) checksum mode n fuel, bs `prefix_of` contents f' -> serves g bs -> (length rs < n)%nat ->
      Forall (fun rc => 2 * length rc + 4 <= fuel)%nat rs -> (0 < fuel)%nat ->
      exists k r', read_all n fuel mode (new_Reader g checksum log_number) = Ok (take k rs, r') /\ (k <= length rs)%nat /\
        concat (take k bss) `prefix_of` bs /\ ((k < length rs)%nat -> ~ concat (take (S k) bss) `prefix_of` bs) /\
        ((acked <= k)%nat <-> concat (take acked bss) `prefix_of` bs) /\
        (strict mode = false \/ (bs = contents f' /\ acked = length rs) -> reports r' = []).
Proof.
  intros Hf Hnum Hb. destruct (new_Writer_ok rec log_number f log_number manual (wrap_id 32 _ Hnum)) as (w & Hw & Hat & _).
  destruct (logged_exists rec log_number 0 rs) as (bss & off & Hlog); [unfold kBlockSize; lia|].
  destruct (write_all_ok rec log_number 0 rs bss off w f Hlog Hat ltac:(unfold kBlockSize; lia) Hb) as (acked & w' & Hwr & Hack & f' & part & Hd & Hc & Hpart & Hap).
  rewrite Hf in Hc. simpl in Hc. subst part. exists w, acked, w', f', bss, off. split_and!; [done..|].
  intros bs g checksum mode n fuel Hbs Hg Hn Hfuel Hf0.
  destruct (logged_start _ _ _ _ _ Hlog) as [off2 Hlog2]. destruct (read_all_ok rec log_number Hnum kBlockSize rs bss off2 Hlog2 n fuel mode bs (new_Reader g checksum log_number))
    as (out & r' & Hrun & k & -> & Hk & Hkp & Hkn & Hrep); [by apply new_Reader_at|by etransitivity|done..|].
  exists k, r'. split; [done|]. split; [done|]. split; [done|]. split; [done|].
  assert ((acked <= k)%nat <-> concat (take acked bss) `prefix_of` bs) as Hacked.
  { split; [intros Hle; etransitivity; [by apply concat_take_prefix|done]|]. intros Hin. destruct (Nat.le_gt_cases acked k) as [|Hlt]; [done|]. exfalso.
    apply Hkn; [lia|]. etransitivity; [|exact Hin]. apply concat_take_prefix. lia. }
  split; [done|]. intros [Hs|[-> ->]]; [apply Hrep; by left|]. apply Hrep. right. pose proof (proj2 Hacked Hap) as Hall. pose proof (logged_length _ _ _ _ _ _ Hlog) as Hlen.
  rewrite take_ge in * by lia. apply (anti_symm prefix); done.
Qed.

(** ** Recycled files

    A recycled file holds records of an older log behind those of the new one. *)

Section recycled.
Context {port : Port} {ext : Extender} {Hext : ExtenderOk ext} {F : Type} {HF : SequentialFile F} {HFok : SequentialFileOk F}.
Context (num old : Z) (Hnum : word 32 num) (Hold : word 32 old) (Hne : old <> num) (t : Z) (d : list Z) (Ht : 5 <= t <= 8).

(** A record of the older log is recognised and not consumed. *)
Lemma phys_old off R (r : Reader F) n : at_pos num off (fragment true old t d ++ R) r -> off + kRecyclableHeaderSize <= kBlockSize ->
  wp (ReadPhysicalRecord (S n)) (fun p r' => p = (kOldRecord, [], 0) /\ at_pos num off (fragment true old t d ++ R) r' /\ reports r' = reports r) r.
Proof.
  intros Hat Hfit. pose proof Hat as [Ho Hb Hf He Hr Hn]. unfold kRecyclableHeaderSize in Hfit.
  set (T := take (Z.to_nat (kBlockSize - off) - 11) (d ++ R)). assert (buffer_ r = le_bytes 4 (Mask (crc32c 0 (t :: number_bytes true old ++ d))) ++
    [size d mod 256; size d / 256; t] ++ number_bytes true old ++ T) as HB.
  { rewrite Hb. unfold fragment. rewrite <- !app_assoc. change (number_bytes true old) with (le_bytes 4 old).
    rewrite take_app_ge, length_le_bytes by (rewrite length_le_bytes; lia). f_equal. rewrite take_app_ge by (simpl; lia). f_equal. simpl length.
    rewrite take_app_ge, length_le_bytes by (rewrite length_le_bytes; lia). f_equal. unfold T. f_equal. lia. }
  destruct (header_fields (le_bytes 4 (Mask (crc32c 0 (t :: number_bytes true old ++ d)))) (size d mod 256) (size d / 256) t (number_bytes true old ++ T) (length_le_bytes _ _))
    as (H4 & H5 & H6 & _ & Hd7). rewrite <- HB in *.
  assert (11 <= size (buffer_ r)) as H11 by (rewrite HB; unfold size; rewrite !length_app; change (number_bytes true old) with (le_bytes 4 old); rewrite !length_le_bytes; simpl; lia).
  cbn [ReadPhysicalRecord]. apply wp_bind, wp_gets. unfold id. rewrite (proj2 (Z.ltb_ge (size (buffer_ r)) kHeaderSize)) by (unfold kHeaderSize; lia).
  apply wp_bind, (wp_lift _ _ _ _ H4), wp_bind, (wp_lift _ _ _ _ H5), wp_bind, (wp_lift _ _ _ _ H6).
  unfold char_type. rewrite (proj2 (Z.ltb_lt t 128)) by lia. rewrite (type_recyclable true t Ht). apply wp_bind.
  apply wp_mono with (fun _ r' => exists b, r' = set_recycled b r).
  { destruct (true && _); [apply wp_modify|apply wp_ret]; [by exists true|]. exists (recycled_ r). by destruct r. }
  intros [] r' [b ->]. simpl andb. rewrite (proj2 (Z.ltb_ge (size (buffer_ r)) kRecyclableHeaderSize)) by (unfold kRecyclableHeaderSize; lia). cbv iota.
  apply wp_bind, wp_lift with old; [rewrite Hd7; by apply (number_decoded true old Hold)|]. rewrite Hn, (proj2 (Z.eqb_neq _ _)) by done. simpl negb. cbv iota.
  apply wp_ret. split; [done|]. split; [by apply at_pos_recycled|done].
Qed.

Lemma start_start off : 0 <= off <= kBlockSize -> padding true (start true off) = [] /\ start true (start true off) = start true off /\
  start true off + kRecyclableHeaderSize <= kBlockSize.
Proof.
  intros Ho. unfold padding. assert ((kBlockSize - start true off <? header_size true) = false) as E.
  { unfold start, header_size, kRecyclableHeaderSize. apply Z.ltb_ge. destruct (Z.ltb_spec (kBlockSize - off) (4 + 2 + 1 + 4)); unfold kBlockSize in *; lia. }
  rewrite E. split; [done|]. split; [unfold start at 1; by rewrite E|]. apply Z.ltb_ge in E. unfold header_size in E. lia.
Qed.

Lemma bind_ok {A B} (m : M (Reader F) A) (k : A -> M (Reader F) B) r a r' : m r = Ok (a, r') -> bind m k r = k a r'.
Proof. intros H. unfold bind. by rewrite H. Qed.

(** The reader, at a record of the older log: what [ReadPhysicalRecord] returns. *)
Lemma phys_to_old off R (r : Reader F) : at_pos num off (padding true off ++ fragment true old t d ++ R) r ->
  wp (ReadPhysicalRecord 3) (fun p r' => (p = (kOldRecord, [], 0) /\ reports r' = reports r /\ at_pos num (start true off) (fragment true old t d ++ R) r') \/
    (p = (kBadRecord, [], 0) /\ reports r' = reports r /\ at_pos num kBlockSize (fragment true old t d ++ R) r')) r.
Proof.
  intros Hat. pose proof (ap_off _ _ _ _ Hat) as Ho. destruct (start_start off Ho) as (_ & _ & Hfit). pose proof (header_bounds true) as Hh.
  assert (forall n r', at_pos num (start true off) (fragment true old t d ++ R) r' -> reports r' = reports r ->
    wp (ReadPhysicalRecord (S n)) (fun p r' => (p = (kOldRecord, [], 0) /\ reports r' = reports r /\ at_pos num (start true off) (fragment true old t d ++ R) r') \/
    (p = (kBadRecord, [], 0) /\ reports r' = reports r /\ at_pos num kBlockSize (fragment true old t d ++ R) r')) r') as Hthere.
  { intros n r' Hat' Hrep. eapply wp_mono; [by apply (phys_old (start true off) R)|]. intros p r1 (-> & Hat1 & Hrep1). left. split; [done|]. split; [congruence|done]. }
  destruct (Z.lt_ge_cases (kBlockSize - off) 7); [apply (phys_start true num off (fragment true old t d ++ R)); [done|by left|done]|].
  destruct (Z.le_gt_cases (header_size true) (kBlockSize - off)); [apply (phys_start true num off (fragment true old t d ++ R)); [done|by right|done]|].
  unfold padding in Hat. rewrite (proj2 (Z.ltb_lt _ _)) in Hat by lia.
  eapply wp_mono; [apply (phys_zeros num off (Z.to_nat (kBlockSize - off)) (fragment true old t d ++ R)); [exact Hat|lia|left; lia]|].
  intros p r1 (-> & Hrep & Hat1). rewrite Z2Nat.id, Z.eqb_refl in Hat1 by lia. by right.
Qed.

(** When corrupted records are to be skipped, it is looked at again and again. *)
Lemma old_hangs fuel off R infrag scratch prosp (r : Reader F) : at_pos num off (padding true off ++ fragment true old t d ++ R) r ->
  read_loop fuel kSkipAnyCorruptedRecords infrag scratch prosp r = Err EFuel.
Proof.
  revert off infrag scratch prosp r. induction fuel as [|fuel IH]; intros off infrag scratch prosp r Hat; [done|]. pose proof (ap_off _ _ _ _ Hat) as Ho.
  destruct (start_start off Ho) as (Hp & Hs & _). cbn [read_loop]. rewrite (bind_ok (gets LastRecordEnd) _ _ _ _ eq_refl).
  assert (forall c r1 off1, c = kOldRecord \/ c = kBadRecord -> at_pos num off1 (padding true off1 ++ fragment true old t d ++ R) r1 ->
    dispatch (read_loop fuel kSkipAnyCorruptedRecords) kSkipAnyCorruptedRecords infrag scratch prosp (LastRecordEnd r) (c, [], 0) r1 = Err EFuel) as Hd.
  { intros c r1 off1 Hc Hat1. replace (dispatch _ _ _ _ _ _ _) with (report_if infrag (size scratch) MiddleOfRecord ;;;
      read_loop fuel kSkipAnyCorruptedRecords false (if infrag then [] else scratch) prosp) by (by destruct Hc as [-> | ->]).
    destruct infrag; [rewrite (bind_ok (report_if true _ _) _ _ tt _ eq_refl)|rewrite (bind_ok (report_if false _ _) _ _ tt _ eq_refl)]; apply (IH off1); [|done].
    destruct Hat1. by split. }
  destruct (phys_to_old off R r Hat) as (p & r1 & Hrun & Hpost). rewrite (bind_ok _ _ _ _ _ Hrun). destruct Hpost as [(-> & _ & Hat1)|(-> & _ & Hat1)].
  - apply (Hd kOldRecord r1 (start true off)); [by left|]. by rewrite Hp.
  - apply (Hd kBadRecord r1 kBlockSize); [by right|]. unfold padding. rewrite Z.sub_diag. exact Hat1.
Qed.

(** In the other modes it is the end of the log. *)
Lemma old_ends fuel mode off R scratch prosp (r : Reader F) : mode <> kSkipAnyCorruptedRecords -> at_pos num off (padding true off ++ fragment true old t d ++ R) r ->
  wp (read_loop (S (S fuel)) mode false scratch prosp) (fun o r' => o = None /\ reports r' = reports r) r.
Proof.
  intros Hm Hat. apply (loop_start true num fuel mode false scratch prosp off _ r _ Hat); [done|]. intros n fuel' physical r' Hat' Hrep _.
  pose proof (ap_off _ _ _ _ Hat) as Ho. destruct (start_start off Ho) as (_ & _ & Hfit).
  eapply wp_mono; [by apply (phys_old (start true off) R)|]. intros p r1 (-> & Hat1 & Hrep1).
  replace (dispatch _ _ _ _ _ _ _) with (report_if false (size scratch) TrailingData ;;; ret (S := Reader F) (None (A := list Z))) by (by destruct mode).
  apply wp_bind, wp_report_if; [intros _|done]. apply wp_ret. split; [done|]. congruence.
Qed.

(** The records of the new log are read; then the modes differ. *)
Lemma read_all_recycled off rs bss off'' : logged true num off rs bss off'' ->
  forall n fuel R (r : Reader F), at_pos num off (concat bss ++ padding true off'' ++ fragment true old t d ++ R) r -> Forall (Forall byte_ok) rs ->
  Forall (fun rc => 2 * length rc + 4 <= fuel)%nat rs ->
  read_all n fuel kSkipAnyCorruptedRecords r = Err EFuel /\
  (forall mode, mode <> kSkipAnyCorruptedRecords -> (length rs < n)%nat -> (2 <= fuel)%nat -> wp (read_all n fuel mode) (fun out r' => out = rs /\ reports r' = reports r) r).
Proof.
  intros Hlog. induction Hlog as [off|off rc rs bs bss off' off'' Hl Hlog IH]; intros n fuel R r Hat Hb Hf; (destruct n as [|n]; [split; [done|intros; simpl in *; lia]|]); cbn [read_all].
  - split; [unfold bind, ReadRecord; by rewrite (old_hangs fuel off R)|]. intros mode Hm _ Hf2. destruct fuel as [|[|fuel]]; [lia..|]. apply wp_bind.
    eapply wp_mono; [by apply (old_ends fuel mode off R)|]. intros o r' [-> Hrep]. by apply wp_ret.
  - apply Forall_cons in Hb as [Hb Hbs]. apply Forall_cons in Hf as [Hf Hfs]. pose proof (rounds_bound true off rc) as Hrb. cbn [concat] in Hat. rewrite <- app_assoc in Hat.
    assert (forall mode, wp (ReadRecord fuel mode) (fun o r' => o = Some rc /\ at_pos num off' (concat bss ++ padding true off'' ++ fragment true old t d ++ R) r' /\
      reports r' = reports r) r) as Hrec by (intros mode; apply (read_laid true num Hnum _ _ _ _ _ Hl fuel mode [] 0 _ r Hat); [done|done|lia]).
    split.
    + destruct (Hrec kSkipAnyCorruptedRecords) as (o & r1 & Hrun & -> & Hat1 & _). rewrite (bind_ok _ _ _ _ _ Hrun). unfold bind. by rewrite (proj1 (IH n fuel R r1 Hat1 Hbs Hfs)).
    + intros mode Hm Hn Hf2. apply wp_bind. eapply wp_mono; [apply Hrec|]. intros o r1 (-> & Hat1 & Hrep1). apply wp_bind. simpl in Hn.
      eapply wp_mono; [apply (proj2 (IH n fuel R r1 Hat1 Hbs Hfs) mode Hm); lia|]. intros out r2 (-> & Hrep2). apply wp_ret. split; [done|congruence].
Qed.

End recycled.

(** C25. A log that reuses a file of an older log is followed there by records
    of the older one.  In the recovery mode that skips corrupted records, the
    only one in which RocksDB recycles log files, reading such a file never
    ends, however much fuel there is: the record of the older log is recognised
    but not consumed.  In the other modes exactly the new records are read. *)
Theorem recycled_log_hangs {port : Port} {ext : Extender} (Hext : ExtenderOk ext) {F : Type} {HF : SequentialFile F} (HFok : SequentialFileOk F)
  num old t d R rs bss off (g : F) checksum :
  word 32 num -> word 32 old -> old <> num -> 5 <= t <= 8 -> logged true num 0 rs bss off -> Forall (Forall byte_ok) rs -> rs <> [] ->
  serves g (concat bss ++ padding true off ++ fragment true old t d ++ R) ->
  (forall n fuel, Forall (fun rc => 2 * length rc + 4 <= fuel)%nat rs ->
     read_all n fuel kSkipAnyCorruptedRecords (new_Reader g checksum num) = Err EFuel) /\
  (forall mode fuel, mode <> kSkipAnyCorruptedRecords -> (2 <= fuel)%nat -> Forall (fun rc => 2 * length rc + 4 <= fuel)%nat rs ->
     exists r', read_all (S (length rs)) fuel mode (new_Reader g checksum num) = Ok (rs, r') /\ reports r' = []).
Proof.
  intros Hnum Hold Hne Ht Hlog Hb Hrs Hg. assert (logged true num kBlockSize rs bss off) as Hlog'.
  { inversion Hlog; subst; [done|]. econstructor; [by apply laid_start|done]. }
  pose proof (new_Reader_at num g checksum _ Hg) as Hat. split.
  - intros n fuel Hf. by apply (read_all_recycled num old Hnum Hold Hne t d Ht _ _ _ _ Hlog' n fuel R).
  - intros mode fuel Hm Hf2 Hf. destruct (proj2 (read_all_recycled num old Hnum Hold Hne t d Ht _ _ _ _ Hlog' (S (length rs)) fuel R _ Hat Hb Hf) mode Hm ltac:(lia) Hf2)
      as (out & r' & Hrun & -> & Hrep). by exists r'.
Qed.

(** ** The theorems at concrete logs *)

Definition sample_records : list (list Z) := [[1; 2; 3]; []; [7]].
Definition sample_extend : Extender := PortableExtend (port := true) 4096.
Lemma sample_extend_ok : ExtenderOk sample_extend.
Proof. apply portable_ok; [lia|vm_compute; congruence]. Qed.

Lemma sample_bytes : Forall (Forall byte_ok) sample_records.
Proof. repeat constructor; vm_compute; congruence. Qed.

(** Three records, the file of 25 bytes cut off one byte before its end. *)
Lemma log_recovers_witness :
  exists w acked w' f', new_Writer (ext := sample_extend) ([] : list Z) 5 false true = Ok w /\ write_all (port := true) (ext := sample_extend) sample_records w = Ok (acked, w') /\
    dest_ w' = Some f' /\ exists k r', read_all (port := true) (ext := sample_extend) 4 10 kPointInTimeRecovery (new_Reader (take 24 f') true 5) = Ok (take k sample_records, r').
Proof.
  destruct (log_recovers (port := true) (ext := sample_extend) sample_extend_ok (FW := list Z) (FR := list Z) list_writable_ok list_sequential_ok
    false true 5 sample_records [] eq_refl ltac:(split; vm_compute; congruence) sample_bytes)
    as (w & acked & w' & f' & bss & off & Hw & Hwr & Hd & _ & _ & _ & _ & H).
  exists w, acked, w', f'. split; [exact Hw|]. split; [exact Hwr|]. split; [exact Hd|].
  destruct (H (take 24 f') (take 24 f') true kPointInTimeRecovery 4%nat 10%nat) as (k & r' & Hrun & _);
    [apply prefix_take|reflexivity|simpl; lia|repeat constructor; simpl; lia|lia|]. exists k, r'. exact Hrun.
Defined.

(** A log with number 7 in a file that was log 6 before. *)
Lemma recycled_log_hangs_witness :
  exists bss off, logged true 7 0 [[1]] bss off /\
    read_all (port := true) (ext := sample_extend) 5 100 kSkipAnyCorruptedRecords
      (new_Reader (concat bss ++ padding true off ++ fragment true 6 5 [2]) true 7) = Err EFuel.
Proof.
  destruct (logged_exists true 7 0 [[1]]) as (bss & off & Hlog); [vm_compute; split; congruence|]. exists bss, off. split; [exact Hlog|].
  apply (recycled_log_hangs (port := true) (ext := sample_extend) sample_extend_ok (F := list Z) list_sequential_ok 7 6 5 [2] [] [[1]] bss off);
    [split; vm_compute; congruence|split; vm_compute; congruence|lia|lia|exact Hlog|repeat constructor; vm_compute; congruence|done|by rewrite app_nil_r|repeat constructor; simpl; lia].
Defined.
