(* ===== verification/DbFormat.v ===== *)
(** * Internal keys

    db/dbformat.{h,cc}: an internal key is a user key with eight bytes behind
    it, the sequence number and the type of the entry.  Internal keys are
    ordered by user key and then from the youngest to the oldest.  User keys may
    end in a timestamp, which files need not store.  The order of user keys is
    that of a [Comparator] (include/rocksdb/comparator.h), a class here. *)

From S2P Require Import Prelude Words Slice Coding.

(** ** Value types *)

Definition kTypeDeletion : Z := 0x0.
Definition kTypeValue : Z := 0x1.
Definition kTypeMerge : Z := 0x2.
Definition kTypeSingleDeletion : Z := 0x7.
Definition kTypeRangeDeletion : Z := 0xF.
Definition kTypeBlobIndex : Z := 0x11.
Definition kTypeDeletionWithTimestamp : Z := 0x14.
Definition kTypeWideColumnEntity : Z := 0x16.
Definition kTypeMaxValid : Z := 0x18.

Definition IsValueType (t : Z) : bool :=
  (t <=? kTypeMerge) || (kTypeSingleDeletion =? t) || (kTypeBlobIndex =? t) ||
  (kTypeDeletionWithTimestamp =? t) || (kTypeWideColumnEntity =? t).

Definition IsExtendedValueType (t : Z) : bool :=
  IsValueType t || (t =? kTypeRangeDeletion) || (t =? kTypeMaxValid).

Definition kMaxSequenceNumber : Z := Z.shiftl 1 56 - 1.
Definition kNumInternalBytes : nat := 8.

(** ** Comparators *)

Class Comparator := ucmp : list Z -> list Z -> comparison.

(** A total order up to the keys it does not tell apart. *)
Class CompareOk (cmp : list Z -> list Z -> comparison) : Prop := {
  cmp_anti a b : cmp b a = CompOpp (cmp a b);
  cmp_trans a b c : cmp a b = Lt -> cmp b c = Lt -> cmp a c = Lt;
  cmp_eq a b c : cmp a b = Eq -> cmp a c = cmp b c
}.
Arguments cmp_anti cmp {_}.
Arguments cmp_trans cmp {_}.
Arguments cmp_eq cmp {_}.

#[export] Instance BytewiseComparator : Comparator | 100 := slice_compare.

Section dbformat.
Context {port : Port} `{Comparator}.

(** ** Parts of a key *)

(** [seq << 8 | t]. *)
Definition PackSequenceAndType (seq t : Z) : result Z :=
  if seq <=? kMaxSequenceNumber then
    if IsExtendedValueType t || (t =? kTypeMaxValid) then Ok (Z.lor (wshl 64 seq 8) t) else Err EAssert
  else Err EAssert.

Definition UnPackSequenceAndType (packed : Z) : Z * Z := (Z.shiftr packed 8, Z.land packed 0xff).

Definition ExtractUserKey (internal_key : list Z) : result (list Z) :=
  if (kNumInternalBytes <=? length internal_key)%nat
  then Ok (take (length internal_key - kNumInternalBytes) internal_key) else Err EAssert.

Definition ExtractInternalKeyFooter (internal_key : list Z) : result Z :=
  if (kNumInternalBytes <=? length internal_key)%nat
  then DecodeFixed64 (drop (length internal_key - kNumInternalBytes) internal_key) else Err EAssert.

Definition ExtractValueType (internal_key : list Z) : result Z :=
  let? num := ExtractInternalKeyFooter internal_key in Ok (Z.land num 0xff).

(** [IterKey::SetInternalKey] of a user key. *)
Definition SetInternalKey (user_key : list Z) (s value_type : Z) : result (list Z) :=
  let? footer := PackSequenceAndType s value_type in
  Ok (user_key ++ EncodeFixed64 footer).

(** ** The order *)

Definition by_footer (anum bnum : Z) : comparison :=
  if bnum <? anum then Lt else if anum <? bnum then Gt else Eq.

Definition InternalKeyComparator_Compare (akey bkey : list Z) : result comparison :=
  let? ua := ExtractUserKey akey in
  let? ub := ExtractUserKey bkey in
  match ucmp ua ub with
  | Eq =>
      let? anum := DecodeFixed64 (drop (length akey - kNumInternalBytes) akey) in
      let? bnum := DecodeFixed64 (drop (length bkey - kNumInternalBytes) bkey) in
      Ok (by_footer anum bnum)
  | r => Ok r
  end.

(** The footer of a key whose sequence number is overridden; [None] is
    [kDisableGlobalSequenceNumber]. *)
Definition footer_with (global_seqno : option Z) (k : list Z) : result Z :=
  match global_seqno with
  | None => ExtractInternalKeyFooter k
  | Some s => let? t := ExtractValueType k in PackSequenceAndType s t
  end.

Definition Compare_with_seqno (a : list Z) (a_global_seqno : option Z) (b : list Z) (b_global_seqno : option Z) : result comparison :=
  let? ua := ExtractUserKey a in
  let? ub := ExtractUserKey b in
  match ucmp ua ub with
  | Eq =>
      let? a_footer := footer_with a_global_seqno a in
      let? b_footer := footer_with b_global_seqno b in
      Ok (by_footer a_footer b_footer)
  | r => Ok r
  end.

End dbformat.

(** ** Timestamps *)

Definition AppendKeyWithMinTimestamp (result_ key : list Z) (ts_sz : nat) : result (list Z) :=
  if (0 <? ts_sz)%nat then Ok (result_ ++ key ++ replicate ts_sz 0) else Err EAssert.

(** The subtraction wraps on a key without a footer; the append then fails. *)
Definition PadInternalKeyWithMinTimestamp (result_ key : list Z) (ts_sz : nat) : result (list Z) :=
  if (0 <? ts_sz)%nat then
    if (kNumInternalBytes <=? length key)%nat then
      let user_key_size := (length key - kNumInternalBytes)%nat in
      Ok (result_ ++ take user_key_size key ++ replicate ts_sz 0 ++ drop user_key_size key)
    else Err EBounds
  else Err EAssert.

Definition StripTimestampFromInternalKey (result_ key : list Z) (ts_sz : nat) : result (list Z) :=
  if (ts_sz + kNumInternalBytes <=? length key)%nat then
    Ok (result_ ++ take (length key - kNumInternalBytes - ts_sz) key ++ drop (length key - kNumInternalBytes) key)
  else Err EAssert.

(** ** A key decoded behind a key with a timestamp *)

(** [len] bytes of a buffer from [off] on. *)
Definition slice_at (data : list Z) (off len : Z) : result (list Z) :=
  if (0 <=? off) && (0 <=? len) && (off + len <=? Z.of_nat (length data))
  then Ok (take (Z.to_nat len) (drop (Z.to_nat off) data)) else Err EBounds.

Definition MaybeAddKeyPartsWithTimestamp (slice : list Z) (add_timestamp : bool) (left_sz : Z) (min_timestamp : list Z)
    (key_parts : list (list Z)) (ts_added : bool) : result (list (list Z) * bool) :=
  if add_timestamp && negb ts_added then
    if left_sz <=? Z.of_nat (length slice) then
      Ok (key_parts ++ [take (Z.to_nat left_sz) slice; min_timestamp; drop (Z.to_nat left_sz) slice], true)
    else Err EAssert
  else Ok (key_parts ++ [slice], ts_added).

(** [IterKey::TrimAppendWithTimestamp]: the bytes of the new key; [key] are those
    of the old one. *)
Definition TrimAppendWithTimestamp (is_user_key : bool) (key : list Z) (shared_len : Z) (non_shared : list Z) (ts_sz : nat) : result (list Z) :=
  let kTsMin := replicate ts_sz 0 in
  let non_shared_len := Z.of_nat (length non_shared) in
  let n := Z.of_nat kNumInternalBytes in
  if is_user_key then
    let? shared := slice_at key 0 shared_len in
    Ok (concat [shared; non_shared; kTsMin])
  else if n <=? shared_len + non_shared_len then
    let user_key_len := wsub 64 (Z.of_nat (length key)) n in
    let sharable_user_key_len := wsub 64 user_key_len (Z.of_nat ts_sz) in
    let shared_user_key_len := Z.min shared_len sharable_user_key_len in
    let shared_internal_bytes_len := wsub 64 shared_len shared_user_key_len in
    let? shared_user_key := slice_at key 0 shared_user_key_len in
    let? (parts, ts_added) :=
      MaybeAddKeyPartsWithTimestamp shared_user_key (shared_internal_bytes_len + non_shared_len <? n)
        (wsub 64 (shared_len + non_shared_len) n) kTsMin [] false in
    let? shared_internal := slice_at key user_key_len shared_internal_bytes_len in
    let? (parts, ts_added) :=
      MaybeAddKeyPartsWithTimestamp shared_internal (non_shared_len <? n)
        (wsub 64 (shared_internal_bytes_len + non_shared_len) n) kTsMin parts ts_added in
    let? (parts, ts_added) :=
      MaybeAddKeyPartsWithTimestamp non_shared (n <=? non_shared_len) (wsub 64 non_shared_len n) kTsMin parts ts_added in
    if ts_added : bool then Ok (concat parts) else Err EAssert
  else Err EAssert.

(** ** The order is total *)

#[export] Instance slice_compare_order : CompareOk slice_compare.
Proof.
  split; intros *; rewrite !slice_compare_lex; [apply bytes_cmp_anti|apply bytes_lt_trans|].
  intros E. by rewrite (bytes_cmp_eq _ _ E).
Qed.

Section order.
Context (cmp : list Z -> list Z -> comparison) `{!CompareOk cmp}.

Lemma cmp_refl a : cmp a a = Eq.
Proof. pose proof (cmp_anti cmp a a) as E. by destruct (cmp a a). Qed.

Lemma cmp_lt_le a b c : cmp a b = Lt -> cmp b c <> Gt -> cmp a c = Lt.
Proof.
  intros H1 H2. destruct (cmp b c) eqn:E; [|by eapply cmp_trans|done].
  pose proof (cmp_eq cmp _ _ a E) as E'. rewrite (cmp_anti cmp a c), (cmp_anti cmp a b), H1 in E'. by destruct (cmp a c).
Qed.

Lemma cmp_le_lt a b c : cmp a b <> Gt -> cmp b c = Lt -> cmp a c = Lt.
Proof. intros H1 H2. destruct (cmp a b) eqn:E; [|by eapply cmp_trans|done]. by rewrite (cmp_eq cmp _ _ c E). Qed.

Lemma cmp_gt_lt a b : cmp a b = Gt <-> cmp b a = Lt.
Proof. rewrite (cmp_anti cmp a b). by destruct (cmp a b). Qed.

End order.

(** The parts of an internal key, its order, and the key with a timestamp of
    zeros or without its timestamp. *)
Definition user_part (k : list Z) : list Z := take (length k - kNumInternalBytes) k.
Definition footer_part (k : list Z) : list Z := drop (length k - kNumInternalBytes) k.
Definition footer (k : list Z) : Z := le_value (footer_part k).
Definition pad_ts (ts_sz : nat) (k : list Z) : list Z := user_part k ++ replicate ts_sz 0 ++ footer_part k.
Definition strip_ts (ts_sz : nat) (k : list Z) : list Z := take (length k - kNumInternalBytes - ts_sz) k ++ footer_part k.
Definition ikey (k : list Z) : Prop := (kNumInternalBytes <= length k)%nat /\ Forall byte_ok k.

Lemma key_parts k : user_part k ++ footer_part k = k.
Proof. apply take_drop. Qed.

Lemma length_footer_part k : (kNumInternalBytes <= length k)%nat -> length (footer_part k) = kNumInternalBytes.
Proof. intros Hk. unfold footer_part. rewrite length_drop. unfold kNumInternalBytes in *. lia. Qed.

Lemma user_part_app u f : length f = kNumInternalBytes -> user_part (u ++ f) = u.
Proof. intros Hf. unfold user_part. rewrite length_app, Hf. apply take_app_length'. lia. Qed.

Lemma footer_part_app u f : length f = kNumInternalBytes -> footer_part (u ++ f) = f.
Proof. intros Hf. unfold footer_part. rewrite length_app, Hf. apply drop_app_length'. lia. Qed.

Section ikeys.
Context {port : Port} `{Comparator}.

Definition ikcmp (a b : list Z) : comparison :=
  match ucmp (user_part a) (user_part b) with
  | Eq => by_footer (footer a) (footer b)
  | r => r
  end.

Lemma by_footer_opp x y : by_footer x y = (y ?= x).
Proof. unfold by_footer. destruct (Z.ltb_spec y x), (Z.ltb_spec x y); symmetry; [lia|by apply Z.compare_lt_iff|by apply Z.compare_gt_iff|apply Z.compare_eq_iff; lia]. Qed.

#[export] Instance ikcmp_order `{!CompareOk ucmp} : CompareOk ikcmp.
Proof.
  split; unfold ikcmp; intros a b; [|intros c..].
  - rewrite (cmp_anti ucmp (user_part a) (user_part b)). destruct (ucmp (user_part a) (user_part b)); try done. simpl. rewrite !by_footer_opp. apply Z.compare_antisym.
  - destruct (ucmp (user_part a) (user_part b)) eqn:E1; try done.
    + rewrite (cmp_eq ucmp _ _ (user_part c) E1). destruct (ucmp (user_part b) (user_part c)); try done. rewrite !by_footer_opp, !Z.compare_lt_iff. lia.
    + destruct (ucmp (user_part b) (user_part c)) eqn:E2; try done; intros _ _; rewrite (cmp_lt_le ucmp _ _ _ E1); done || by rewrite E2.
  - destruct (ucmp (user_part a) (user_part b)) eqn:E1; try done. rewrite by_footer_opp, Z.compare_eq_iff. intros ->.
    by rewrite (cmp_eq ucmp _ _ (user_part c) E1).
Qed.

Lemma ExtractUserKey_ok k : ikey k -> ExtractUserKey k = Ok (user_part k).
Proof. intros [Hk _]. unfold ExtractUserKey. by rewrite (proj2 (Nat.leb_le _ _) Hk). Qed.

Lemma footer_decodes k : ikey k -> DecodeFixed64 (drop (length k - kNumInternalBytes) k) = Ok (footer k).
Proof.
  intros [Hk Hb]. rewrite <- (app_nil_r (drop _ k)). unfold footer, footer_part. apply DecodeFixed64_le; [by apply Forall_drop|]. by apply (length_footer_part k).
Qed.

Lemma ExtractInternalKeyFooter_ok k : ikey k -> ExtractInternalKeyFooter k = Ok (footer k).
Proof. intros Hk. unfold ExtractInternalKeyFooter. rewrite (proj2 (Nat.leb_le _ _) (proj1 Hk)). by apply footer_decodes. Qed.

Lemma InternalKeyComparator_Compare_ok a b : ikey a -> ikey b -> InternalKeyComparator_Compare a b = Ok (ikcmp a b).
Proof.
  intros Ha Hb. unfold InternalKeyComparator_Compare, ikcmp. rewrite !ExtractUserKey_ok by done. cbn [rbind].
  destruct (ucmp _ _); [|done..]. by rewrite !footer_decodes by done.
Qed.

(** The key as users see it when a sequence number is imposed on the file. *)
Definition with_seqno (global_seqno : option Z) (k : list Z) : list Z :=
  match global_seqno with
  | None => k
  | Some s => user_part k ++ le_bytes 8 (Z.lor (wshl 64 s 8) (Z.land (footer k) 0xff))
  end.

(** The key may be shown with that number. *)
Definition seqno_ok (global_seqno : option Z) (k : list Z) : Prop :=
  match global_seqno with
  | None => True
  | Some s => 0 <= s <= kMaxSequenceNumber /\ IsExtendedValueType (Z.land (footer k) 0xff) = true
  end.

Lemma with_seqno_ikey g k : ikey k -> ikey (with_seqno g k).
Proof.
  intros [Hk Hb]. destruct g as [s|]; [|done]. unfold with_seqno. split.
  - rewrite length_app, length_le_bytes. unfold kNumInternalBytes. lia.
  - apply Forall_app. split; [by apply Forall_take|apply le_bytes_ok].
Qed.

Lemma seqno_pack s k : seqno_ok (Some s) k -> PackSequenceAndType s (Z.land (footer k) 0xff) = Ok (Z.lor (wshl 64 s 8) (Z.land (footer k) 0xff)).
Proof. intros [Hs Ht]. unfold PackSequenceAndType. by rewrite (proj2 (Z.leb_le _ _)), Ht by lia. Qed.

Lemma with_seqno_footer s k : word 64 (Z.lor (wshl 64 s 8) (Z.land (footer k) 0xff)) -> footer (with_seqno (Some s) k) = Z.lor (wshl 64 s 8) (Z.land (footer k) 0xff).
Proof.
  intros Hw. unfold footer at 1, with_seqno. rewrite footer_part_app by apply length_le_bytes.
  by apply le_value_bytes.
Qed.

Lemma packed_word s f : 0 <= f -> word 64 (Z.lor (wshl 64 s 8) (Z.land f 0xff)).
Proof.
  intros Hf. apply lor_word; [lia|apply wrap_word; lia|]. change 0xff with (Z.ones 8). rewrite Z.land_ones by lia.
  pose proof (Z.mod_pos_bound f (2 ^ 8) ltac:(lia)). assert (2 ^ 8 < 2 ^ 64) by done. unfold word. lia.
Qed.

Lemma footer_nonneg k : ikey k -> 0 <= footer k.
Proof. intros [_ Hb]. apply le_value_bound. by apply Forall_drop. Qed.

Lemma Compare_with_seqno_ok a g b :
  ikey a -> ikey b -> seqno_ok g a -> Compare_with_seqno a g b None = Ok (ikcmp (with_seqno g a) b).
Proof.
  intros Ha Hb Hg. unfold Compare_with_seqno, ikcmp. rewrite !ExtractUserKey_ok by done. cbn [rbind].
  destruct g as [s|].
  - unfold with_seqno at 1. rewrite user_part_app by apply length_le_bytes. destruct (ucmp _ _); [|done..].
    unfold footer_with, ExtractValueType. rewrite !ExtractInternalKeyFooter_ok by done. cbn [rbind]. rewrite seqno_pack by done. cbn [rbind].
    by rewrite with_seqno_footer by (by apply packed_word, footer_nonneg).
  - cbn [with_seqno]. destruct (ucmp _ _); [|done..]. cbn [footer_with]. by rewrite !ExtractInternalKeyFooter_ok by done.
Qed.

End ikeys.

(** ** Keys without their timestamps *)

Lemma slice_at_ok data off len : 0 <= off -> 0 <= len -> off + len <= Z.of_nat (length data) ->
  slice_at data off len = Ok (take (Z.to_nat len) (drop (Z.to_nat off) data)).
Proof. intros H1 H2 H3. unfold slice_at. by rewrite (proj2 (Z.leb_le 0 off)), (proj2 (Z.leb_le 0 len)), (proj2 (Z.leb_le _ _) H3) by lia. Qed.

Lemma slice_at_mid a b c : slice_at (a ++ b ++ c) (Z.of_nat (length a)) (Z.of_nat (length b)) = Ok b.
Proof.
  rewrite slice_at_ok by (rewrite ?length_app; lia). rewrite !Nat2Z.id, drop_app_length, take_app_length. done.
Qed.

Lemma pad_ts_app ts u f : length f = kNumInternalBytes -> pad_ts ts (u ++ f) = u ++ replicate ts 0 ++ f.
Proof. intros Hf. unfold pad_ts. by rewrite user_part_app, footer_part_app. Qed.

Lemma MaybeAdd_skip slice left ts parts b : MaybeAddKeyPartsWithTimestamp slice b left ts parts true = Ok (parts ++ [slice], true).
Proof. unfold MaybeAddKeyPartsWithTimestamp. by rewrite andb_false_r. Qed.

Lemma MaybeAdd_plain slice left ts parts : MaybeAddKeyPartsWithTimestamp slice false left ts parts false = Ok (parts ++ [slice], false).
Proof. done. Qed.

Lemma MaybeAdd_ts slice left ts parts : 0 <= left <= Z.of_nat (length slice) ->
  MaybeAddKeyPartsWithTimestamp slice true left ts parts false =
  Ok (parts ++ [take (Z.to_nat left) slice; ts; drop (Z.to_nat left) slice], true).
Proof. intros H. unfold MaybeAddKeyPartsWithTimestamp. cbn [andb negb]. by rewrite (proj2 (Z.leb_le _ _)) by lia. Qed.

Lemma wsub64 x y : 0 <= x - y < 2 ^ 64 -> wsub 64 x y = x - y.
Proof. intros Hx. by apply wrap_id. Qed.

(** The timestamp goes eight bytes before the end, in whichever of the three
    parts that is. *)
Lemma pad_ts_parts ts a b c (k := (length a + length b + length c - kNumInternalBytes)%nat) :
  (kNumInternalBytes <= length a + length b + length c)%nat ->
  pad_ts ts (a ++ b ++ c) =
    if decide (length b + length c < kNumInternalBytes)%nat then take k a ++ replicate ts 0 ++ drop k a ++ b ++ c
    else if decide (length c < kNumInternalBytes)%nat then a ++ take (k - length a) b ++ replicate ts 0 ++ drop (k - length a) b ++ c
    else a ++ b ++ take (k - length a - length b) c ++ replicate ts 0 ++ drop (k - length a - length b) c.
Proof.
  intros Hk. unfold pad_ts, user_part, footer_part. rewrite !length_app. replace (length a + (length b + length c))%nat with (length a + length b + length c)%nat by lia.
  fold k. repeat case_decide.
  - rewrite take_app_le, drop_app_le by lia. by rewrite <- ?app_assoc.
  - rewrite take_app_ge, drop_app_ge by lia. rewrite take_app_le, drop_app_le by lia. by rewrite <- ?app_assoc.
  - rewrite !take_app_ge, !drop_app_ge by lia. by rewrite <- ?app_assoc.
Qed.

Lemma TrimAppendWithTimestamp_ok ts p shared ns :
  (kNumInternalBytes <= length p)%nat -> (shared <= length p)%nat -> (kNumInternalBytes <= shared + length ns)%nat ->
  Z.of_nat (length p + length ns + ts) < 2 ^ 64 ->
  TrimAppendWithTimestamp false (pad_ts ts p) (Z.of_nat shared) ns ts = Ok (pad_ts ts (take shared p ++ ns)).
Proof.
  intros Hp Hs Hn Hlt. rewrite <- (key_parts p) in Hs |- *. pose proof (length_footer_part p Hp) as Hf.
  set (u := user_part p) in *. set (f := footer_part p) in *.
  assert (length p = length u + length f)%nat as Elen by (rewrite <- length_app; unfold u, f; by rewrite key_parts).
  rewrite pad_ts_app by done. rewrite length_app in Hs. unfold kNumInternalBytes in *.
  unfold TrimAppendWithTimestamp. change (Z.of_nat kNumInternalBytes) with 8. rewrite (proj2 (Z.leb_le 8 _)) by lia.
  rewrite !length_app, length_replicate, Hf. rewrite (wsub64 _ 8) by lia. rewrite (wsub64 _ (Z.of_nat ts)) by lia.
  replace (Z.of_nat (length u + (ts + 8)) - 8 - Z.of_nat ts) with (Z.of_nat (length u)) by lia.
  replace (Z.min (Z.of_nat shared) (Z.of_nat (length u))) with (Z.of_nat (Nat.min shared (length u))) by lia.
  set (su := Nat.min shared (length u)). rewrite (wsub64 (Z.of_nat shared)) by lia. set (si := (shared - su)%nat).
  replace (Z.of_nat shared - Z.of_nat su) with (Z.of_nat si) by lia.
  set (a := take su u). set (b := take si f).
  assert (length a = su) as Ha by (unfold a; rewrite length_take; lia). assert (length b = si) as Hb by (unfold b; rewrite length_take; lia).
  assert (take shared (u ++ f) = a ++ b) as ->.
  { unfold a, b, si, su. destruct (Nat.le_gt_cases shared (length u)).
    - rewrite Nat.min_l, Nat.sub_diag, take_0, app_nil_r by lia. by rewrite take_app_le by lia.
    - rewrite Nat.min_r, take_app_ge by lia. by rewrite (take_ge u) by lia. }
  rewrite (slice_at_ok _ 0) by (rewrite ?length_app; lia). rewrite Nat2Z.id, Z2Nat.inj_0, drop_0, take_app_le by lia. fold a. cbn [rbind].
  rewrite (slice_at_ok _ _ (Z.of_nat si)) by (rewrite ?length_app, ?length_replicate; lia).
  replace (Z.to_nat (Z.of_nat (length u + (ts + 8)) - 8)) with (length u + ts)%nat by lia. rewrite Nat2Z.id.
  rewrite app_assoc, drop_app_length' by (rewrite length_app, length_replicate; lia). fold b.
  rewrite <- app_assoc, pad_ts_parts by (unfold kNumInternalBytes; lia). unfold kNumInternalBytes. rewrite Ha, Hb.
  destruct (Z.ltb_spec (Z.of_nat si + Z.of_nat (length ns)) 8); [|destruct (Z.ltb_spec (Z.of_nat (length ns)) 8)].
  - rewrite decide_True by lia. rewrite (wsub64 _ 8) by lia. rewrite MaybeAdd_ts by lia. cbn [rbind]. rewrite MaybeAdd_skip. cbn [rbind].
    rewrite MaybeAdd_skip. cbn [rbind app concat]. rewrite app_nil_r. do 2 f_equal; [f_equal; lia|]. do 3 f_equal. lia.
  - rewrite decide_False, decide_True by lia. rewrite MaybeAdd_plain. cbn [rbind].
    rewrite (wsub64 (Z.of_nat si + _) 8) by lia. rewrite MaybeAdd_ts by lia. cbn [rbind]. rewrite MaybeAdd_skip.
    cbn [rbind app concat]. rewrite app_nil_r. do 3 f_equal; [f_equal; lia|]. do 2 f_equal. f_equal. lia.
  - rewrite !decide_False by lia. rewrite MaybeAdd_plain. cbn [rbind]. rewrite MaybeAdd_plain. cbn [rbind].
    rewrite (proj2 (Z.leb_le 8 _)) by lia. rewrite (wsub64 (Z.of_nat (length ns)) 8) by lia. rewrite MaybeAdd_ts by lia.
    cbn [rbind app concat]. rewrite app_nil_r. do 4 f_equal; [f_equal; lia|]. f_equal. f_equal. lia.
Qed.
