(* ===== verification/BlockHash.v ===== *)
(** * The hash index of a data block

    table/block_based/data_block_hash_index.{h,cc} and the hash function of
    util/hash.{h,cc}: a table of one byte per bucket, appended to a data block,
    that gives for a user key the restart interval to look into.  Numbers of
    type [double] are those of the standard library's [SpecFloat], binary64
    without its hardware. *)

From Stdlib Require Import SpecFloat.
From S2P Require Import Prelude Words Coding.

(** ** [double] *)

Definition f_add : spec_float -> spec_float -> spec_float := SFadd 53 1024.
Definition f_div : spec_float -> spec_float -> spec_float := SFdiv 53 1024.
Definition f_leb (x y : spec_float) : bool := match SFcompare x y with Some Lt | Some Eq => true | _ => false end.
Definition f_ltb (x y : spec_float) : bool := match SFcompare x y with Some Lt => true | _ => false end.
Definition f_zero : spec_float := S754_zero false.
Definition f_one : spec_float := S754_finite false 4503599627370496 (-52).
Definition f_minus_one : spec_float := S754_finite true 4503599627370496 (-52).

(** [static_cast<uint16_t>]: towards zero, undefined where it does not fit. *)
Definition f_uint16 (x : spec_float) : result Z :=
  match x with
  | S754_zero _ => Ok 0
  | S754_finite s m e =>
      let t := if 0 <=? e then Z.pos m * 2 ^ e else Z.pos m / 2 ^ (- e) in
      let t := if s then - t else t in
      if (0 <=? t) && (t <? 65536) then Ok t else Err ERange
  | _ => Err ERange
  end.

(** ** MurmurHash1 *)

Section hash.
Context {port : Port}.

Definition hash_m : Z := 0xc6a4a793.
Definition hash_r : Z := 24.

(** [static_cast<uint32_t>(static_cast<int8_t>(c))]. *)
Definition sign_extend (c : Z) : Z := wrap 32 (to_signed 8 c).

(** The switch over the bytes that do not fill a word. *)
Definition hash_tail (h : Z) (data : list Z) : Z :=
  let last (h d0 : Z) := let h := wmul 32 (wadd 32 h (sign_extend d0)) hash_m in Z.lxor h (Z.shiftr h hash_r) in
  match data with
  | [d0; d1; d2] =>
      let h := wadd 32 h (wshl 32 (sign_extend d2) 16) in
      let h := wadd 32 h (wshl 32 (sign_extend d1) 8) in
      last h d0
  | [d0; d1] => let h := wadd 32 h (wshl 32 (sign_extend d1) 8) in last h d0
  | [d0] => last h d0
  | _ => h
  end.

Fixpoint hash_loop (h : Z) (data : list Z) : result Z :=
  match data with
  | _ :: _ :: _ :: _ :: rest =>
      let? w := DecodeFixed32 data in
      let h := wmul 32 (wadd 32 h w) hash_m in
      hash_loop (Z.lxor h (Z.shiftr h 16)) rest
  | _ => Ok (hash_tail h data)
  end.

Definition Hash (data : list Z) (seed : Z) : result Z :=
  hash_loop (wrap 32 (Z.lxor seed (wmul 64 (Z.of_nat (length data)) hash_m))) data.

Definition GetSliceHash (s : list Z) : result Z := Hash s 397.

(** ** Building the index *)

Definition kNoEntry : Z := 255.
Definition kCollision : Z := 254.
Definition kMaxRestartSupportedByHashIndex : Z := 253.
Definition kMaxBlockSizeSupportedByHashIndex : Z := Z.shiftl 1 16.
(** 0.75. *)
Definition kDefaultUtilRatio : spec_float := S754_finite false 6755399441055744 (-53).

Record DataBlockHashIndexBuilder : Type := mkHashBuilder {
  bucket_per_key_ : spec_float;
  estimated_num_buckets_ : spec_float;
  valid_ : bool;
  hash_and_restart_pairs_ : list (Z * Z)
}.

Definition new_DataBlockHashIndexBuilder : DataBlockHashIndexBuilder := mkHashBuilder f_minus_one f_zero false [].

Definition hb_Initialize (util_ratio : spec_float) (b : DataBlockHashIndexBuilder) : DataBlockHashIndexBuilder :=
  let util_ratio := if f_leb util_ratio f_zero then kDefaultUtilRatio else util_ratio in
  mkHashBuilder (f_div f_one util_ratio) (estimated_num_buckets_ b) true (hash_and_restart_pairs_ b).

Definition hb_Valid (b : DataBlockHashIndexBuilder) : bool := valid_ b && f_ltb f_zero (bucket_per_key_ b).

Definition hb_Add (key : list Z) (restart_index : Z) (b : DataBlockHashIndexBuilder) : result DataBlockHashIndexBuilder :=
  if hb_Valid b then
    if kMaxRestartSupportedByHashIndex <? restart_index then
      Ok (mkHashBuilder (bucket_per_key_ b) (estimated_num_buckets_ b) false (hash_and_restart_pairs_ b))
    else
      let? hash_value := GetSliceHash key in
      Ok (mkHashBuilder (bucket_per_key_ b) (f_add (estimated_num_buckets_ b) (bucket_per_key_ b)) (valid_ b)
            (hash_and_restart_pairs_ b ++ [(hash_value, wrap 8 restart_index)]))
  else Err EAssert.

(** One pair into the table. *)
Definition place (num_buckets : Z) (buckets : list Z) (entry : Z * Z) : result (list Z) :=
  let (hash_value, restart_index) := entry in
  let? m := umod hash_value num_buckets in
  let buck_idx := wrap 16 m in
  let? x := rd buckets num_buckets buck_idx in
  if x =? kNoEntry then wr buckets num_buckets buck_idx restart_index
  else if negb (x =? restart_index) then wr buckets num_buckets buck_idx kCollision
  else Ok buckets.

Fixpoint place_all (num_buckets : Z) (buckets : list Z) (pairs : list (Z * Z)) : result (list Z) :=
  match pairs with
  | [] => Ok buckets
  | e :: pairs => let? buckets := place num_buckets buckets e in place_all num_buckets buckets pairs
  end.

Definition hb_Finish (buffer : list Z) (b : DataBlockHashIndexBuilder) : result (list Z) :=
  if hb_Valid b then
    let? num_buckets := f_uint16 (estimated_num_buckets_ b) in
    let num_buckets := if num_buckets =? 0 then 1 else num_buckets in
    let num_buckets := Z.lor num_buckets 1 in
    let? buckets := place_all num_buckets (replicate (Z.to_nat num_buckets) kNoEntry) (hash_and_restart_pairs_ b) in
    let buffer := PutFixed16 (buffer ++ buckets) num_buckets in
    if Z.of_nat (length buffer) <=? kMaxBlockSizeSupportedByHashIndex then Ok buffer else Err EAssert
  else Err EAssert.

Definition hb_Reset (b : DataBlockHashIndexBuilder) : DataBlockHashIndexBuilder := mkHashBuilder (bucket_per_key_ b) f_zero true [].

Definition hb_EstimateSize (b : DataBlockHashIndexBuilder) : result Z :=
  let? estimated_num_buckets := f_uint16 (estimated_num_buckets_ b) in
  Ok (2 + Z.lor estimated_num_buckets 1).

(** ** Reading it *)

(** The number of buckets and [*map_offset]. *)
Definition hi_Initialize (data : list Z) (size : Z) : result (Z * Z) :=
  if 2 <=? size then
    let? num_buckets := DecodeFixed16 (drop (Z.to_nat (size - 2)) data) in
    if (0 <? num_buckets) && (num_buckets <? size) then Ok (num_buckets, wrap 16 (size - 2 - num_buckets)) else Err EAssert
  else Err EAssert.

Definition hi_Lookup (num_buckets : Z) (data : list Z) (map_offset : Z) (key : list Z) : result Z :=
  let? hash_value := GetSliceHash key in
  let? m := umod hash_value num_buckets in
  rd data (Z.of_nat (length data)) (map_offset + wrap 16 m).

End hash.
