(* ===== verification/BlockBuilder.v ===== *)
(** * Building a block

    table/block_based/block_builder.{h,cc} and data_block_footer.{h,cc}: the
    entries of a block with the prefix each key shares with the key before it
    left out, except at restart points; behind them the offsets of the restart
    points, the hash index if there is one, and the footer. *)

From Stdlib Require Import SpecFloat.
From S2P Require Import Prelude Words Slice Coding DbFormat BlockHash.

(** ** The footer *)

Inductive DataBlockIndexType : Type := kDataBlockBinarySearch | kDataBlockBinaryAndHash.

Definition kDataBlockIndexTypeBitShift : Z := 31.
Definition kMaxNumRestarts : Z := Z.shiftl 1 kDataBlockIndexTypeBitShift - 1.
Definition kNumRestartsMask : Z := Z.shiftl 1 kDataBlockIndexTypeBitShift - 1.

Definition PackIndexTypeAndNumRestarts (index_type : DataBlockIndexType) (num_restarts : Z) : result Z :=
  if kMaxNumRestarts <? num_restarts then Err EAssert
  else match index_type with
       | kDataBlockBinaryAndHash => Ok (Z.lor num_restarts (Z.shiftl 1 kDataBlockIndexTypeBitShift))
       | kDataBlockBinarySearch => Ok num_restarts
       end.

Definition UnPackIndexTypeAndNumRestarts (block_footer : Z) : result (DataBlockIndexType * Z) :=
  let index_type :=
    if negb (Z.land block_footer (Z.shiftl 1 kDataBlockIndexTypeBitShift) =? 0) then kDataBlockBinaryAndHash else kDataBlockBinarySearch in
  let num_restarts := Z.land block_footer kNumRestartsMask in
  if num_restarts <=? kMaxNumRestarts then Ok (index_type, num_restarts) else Err EAssert.

(** ** The builder *)

(** The constant members. *)
Record BuilderOptions : Type := mkBuilderOptions {
  block_restart_interval_ : Z;
  use_delta_encoding_ : bool;
  use_value_delta_encoding_ : bool;
  strip_ts_sz_ : nat;
  is_user_key_ : bool
}.

Record BlockBuilder : Type := mkBlockBuilder {
  options_ : BuilderOptions;
  buffer_ : list Z;
  restarts_ : list Z;
  estimate_ : Z;
  counter_ : Z;
  finished_ : bool;
  last_key_ : list Z;
  data_block_hash_index_builder_ : DataBlockHashIndexBuilder;
  add_with_last_key_called_ : bool
}.

Definition new_BlockBuilder (block_restart_interval : Z) (use_delta_encoding use_value_delta_encoding : bool)
    (index_type : DataBlockIndexType) (data_block_hash_table_util_ratio : spec_float) (ts_sz : nat)
    (persist_user_defined_timestamps is_user_key : bool) : result BlockBuilder :=
  let o := mkBuilderOptions block_restart_interval use_delta_encoding use_value_delta_encoding
             (if persist_user_defined_timestamps then 0%nat else ts_sz) is_user_key in
  let h := match index_type with
           | kDataBlockBinarySearch => new_DataBlockHashIndexBuilder
           | kDataBlockBinaryAndHash => hb_Initialize data_block_hash_table_util_ratio new_DataBlockHashIndexBuilder
           end in
  if 1 <=? block_restart_interval then Ok (mkBlockBuilder o [] [0] (4 + 4) 0 false [] h false) else Err EAssert.

Section builder.
Context {port : Port}.

(** [restarts_.resize(1)] keeps the first restart point. *)
Definition Reset : M BlockBuilder unit :=
  b <- gets id ;;
  assert (match restarts_ b with r :: _ => r =? 0 | [] => false end) ;;;
  modify (fun b =>
    mkBlockBuilder (options_ b) [] (take 1 (restarts_ b)) (4 + 4) 0 false []
      (if hb_Valid (data_block_hash_index_builder_ b) then hb_Reset (data_block_hash_index_builder_ b) else data_block_hash_index_builder_ b)
      false).

Definition set_buffer (buffer : list Z) (b : BlockBuilder) : BlockBuilder :=
  mkBlockBuilder (options_ b) buffer (restarts_ b) (estimate_ b) (counter_ b) (finished_ b) (last_key_ b) (data_block_hash_index_builder_ b) (add_with_last_key_called_ b).
Definition set_finished (b : BlockBuilder) : BlockBuilder :=
  mkBlockBuilder (options_ b) (buffer_ b) (restarts_ b) (estimate_ b) (counter_ b) true (last_key_ b) (data_block_hash_index_builder_ b) (add_with_last_key_called_ b).
Definition set_last_key (k : list Z) (b : BlockBuilder) : BlockBuilder :=
  mkBlockBuilder (options_ b) (buffer_ b) (restarts_ b) (estimate_ b) (counter_ b) (finished_ b) k (data_block_hash_index_builder_ b) (add_with_last_key_called_ b).
Definition set_called (c : bool) (b : BlockBuilder) : BlockBuilder :=
  mkBlockBuilder (options_ b) (buffer_ b) (restarts_ b) (estimate_ b) (counter_ b) (finished_ b) (last_key_ b) (data_block_hash_index_builder_ b) c.
Definition set_hash_builder (h : DataBlockHashIndexBuilder) (b : BlockBuilder) : BlockBuilder :=
  mkBlockBuilder (options_ b) (buffer_ b) (restarts_ b) (estimate_ b) (counter_ b) (finished_ b) (last_key_ b) h (add_with_last_key_called_ b).
(** A restart point at the offset [o]. *)
Definition restart_at (o : Z) (b : BlockBuilder) : BlockBuilder :=
  mkBlockBuilder (options_ b) (buffer_ b) (restarts_ b ++ [o]) (estimate_ b + 4) 0 (finished_ b) (last_key_ b) (data_block_hash_index_builder_ b) (add_with_last_key_called_ b).
(** One more entry, of [n] bytes. *)
Definition count_entry (n : Z) (b : BlockBuilder) : BlockBuilder :=
  mkBlockBuilder (options_ b) (buffer_ b) (restarts_ b) (estimate_ b + n) (counter_ b + 1) (finished_ b) (last_key_ b) (data_block_hash_index_builder_ b) (add_with_last_key_called_ b).

(** The contents the caller's string gets. *)
Definition SwapAndReset (buffer : list Z) : M BlockBuilder (list Z) :=
  contents <- gets buffer_ ;;
  modify (set_buffer buffer) ;;; Reset ;;; ret contents.

Definition CurrentSizeEstimate (b : BlockBuilder) : result Z :=
  if hb_Valid (data_block_hash_index_builder_ b) then
    let? n := hb_EstimateSize (data_block_hash_index_builder_ b) in Ok (estimate_ b + n)
  else Ok (estimate_ b).

Definition EstimateSizeAfterKV (b : BlockBuilder) (key value : list Z) : result Z :=
  let o := options_ b in
  let size (l : list Z) := Z.of_nat (length l) in
  let? estimate := CurrentSizeEstimate b in
  let restart := block_restart_interval_ o <=? counter_ b in
  let estimate := wadd 64 estimate (size key) in
  let estimate := if (0 <? strip_ts_sz_ o)%nat then wsub 64 estimate (Z.of_nat (strip_ts_sz_ o)) else estimate in
  let estimate := wadd 64 estimate (if negb (use_value_delta_encoding_ o) || restart then size value else size value / 2) in
  let estimate := if restart then wadd 64 estimate 4 else estimate in
  let estimate := wadd 64 estimate 4 in
  let? l := VarintLength (size key) in
  let estimate := wadd 64 estimate l in
  if negb (use_value_delta_encoding_ o) || restart then let? l := VarintLength (size value) in Ok (wadd 64 estimate l) else Ok estimate.

Definition empty (b : BlockBuilder) : bool := (length (buffer_ b) =? 0)%nat.

Definition Finish : M BlockBuilder (list Z) :=
  b <- gets id ;;
  modify (set_buffer (foldl PutFixed32 (buffer_ b) (restarts_ b))) ;;;
  let num_restarts := wrap 32 (Z.of_nat (length (restarts_ b))) in
  let h := data_block_hash_index_builder_ b in
  small <- (if hb_Valid h then n <- lift (CurrentSizeEstimate b) ;; ret (n <=? kMaxBlockSizeSupportedByHashIndex) else ret false) ;;
  index_type <- (if small : bool then
                   buffer <- gets buffer_ ;; buffer <- lift (hb_Finish buffer h) ;;
                   modify (set_buffer buffer) ;;; ret kDataBlockBinaryAndHash
                 else ret kDataBlockBinarySearch) ;;
  block_footer <- lift (PackIndexTypeAndNumRestarts index_type num_restarts) ;;
  buffer <- gets buffer_ ;;
  modify (set_buffer (PutFixed32 buffer block_footer)) ;;;
  modify set_finished ;;;
  gets buffer_.

Definition MaybeStripTimestampFromKey (o : BuilderOptions) (key : list Z) : result (list Z) :=
  if (0 <? strip_ts_sz_ o)%nat then
    if is_user_key_ o then
      if (strip_ts_sz_ o <=? length key)%nat then Ok (take (length key - strip_ts_sz_ o) key) else Err EAssert
    else StripTimestampFromInternalKey [] key (strip_ts_sz_ o)
  else Ok key.

Definition AddWithLastKeyImpl (key value last_key : list Z) (delta_value : option (list Z)) (buffer_size : Z) : M BlockBuilder unit :=
  b <- gets id ;;
  let o := options_ b in
  assert (negb (finished_ b)) ;;;
  assert (counter_ b <=? block_restart_interval_ o) ;;;
  assert (negb (use_value_delta_encoding_ o) || bool_decide (is_Some delta_value)) ;;;
  key_to_persist <- lift (MaybeStripTimestampFromKey o key) ;;
  last_key_persisted <- (if (length last_key =? 0)%nat then ret last_key else lift (MaybeStripTimestampFromKey o last_key)) ;;
  shared <- (if block_restart_interval_ o <=? counter_ b then modify (restart_at (wrap 32 buffer_size)) ;;; ret 0%nat
             else ret (if use_delta_encoding_ o then difference_offset key_to_persist last_key_persisted else 0%nat)) ;;
  let non_shared := (length key_to_persist - shared)%nat in
  let size32 (n : nat) := wrap 32 (Z.of_nat n) in
  buffer <- gets buffer_ ;;
  buffer <- lift (if use_value_delta_encoding_ o then PutVarint32Varint32 buffer (size32 shared) (size32 non_shared)
                  else PutVarint32Varint32Varint32 buffer (size32 shared) (size32 non_shared) (size32 (length value))) ;;
  let buffer := buffer ++ drop shared key_to_persist in
  buffer <- (if negb (shared =? 0)%nat && use_value_delta_encoding_ o then
               match delta_value with Some d => ret (buffer ++ d) | None => fail ENull end
             else ret (buffer ++ value)) ;;
  modify (set_buffer buffer) ;;;
  b <- gets id ;;
  let h := data_block_hash_index_builder_ b in
  (if hb_Valid h then
     assert (negb (is_user_key_ o)) ;;;
     user_key <- lift (ExtractUserKey key) ;;
     h <- lift (hb_Add user_key (Z.of_nat (length (restarts_ b)) - 1) h) ;;
     modify (set_hash_builder h)
   else ret tt) ;;;
  modify (count_entry (Z.of_nat (length buffer) - buffer_size)).

Definition Add (key value : list Z) (delta_value : option (list Z)) : M BlockBuilder unit :=
  b <- gets id ;;
  assert (negb (add_with_last_key_called_ b)) ;;;
  AddWithLastKeyImpl key value (last_key_ b) delta_value (Z.of_nat (length (buffer_ b))) ;;;
  if use_delta_encoding_ (options_ b) then modify (set_last_key key) else ret tt.

Definition AddWithLastKey (key value last_key_param : list Z) (delta_value : option (list Z)) : M BlockBuilder unit :=
  b <- gets id ;;
  assert (length (last_key_ b) =? 0)%nat ;;;
  modify (set_called false) ;;;
  let buffer_size := Z.of_nat (length (buffer_ b)) in
  let last_key_size := Z.of_nat (length last_key_param) in
  assert ((buffer_size =? 0) || (wsub 64 last_key_size (Z.of_nat (strip_ts_sz_ (options_ b))) <=? buffer_size)) ;;;
  let last_key := if 0 <? buffer_size then last_key_param else [] in
  AddWithLastKeyImpl key value last_key delta_value buffer_size.

End builder.
