(* ===== verification/Block.v ===== *)
(** * Reading a block

    table/block_based/block.{h,cc}: a block of a file, the position in it that
    [BlockIter] keeps, and the iterators over data blocks ([DataBlockIter], with
    its cache for walking backwards and its use of the hash index) and over meta
    blocks ([MetaBlockIter]).  Pointers into the block are offsets.  The model
    is that of iterators without checksums per key ([protection_bytes_per_key]
    is 0) and without the bitmap that counts the bytes read. *)

From S2P Require Import Prelude Words Slice Coding DbFormat BlockHash BlockBuilder.

(** ** The lengths in front of an entry *)

(** The lengths of the shared and the other bytes of the key and of the value,
    and what follows them; [r] are the bytes from [p] to [limit]. *)
Definition decode_lengths (r : list Z) : option (Z * Z * Z * list Z) :=
  match r with
  | shared :: non_shared :: value_length :: p =>
      if Z.lor (Z.lor shared non_shared) value_length <? 128 then Some (shared, non_shared, value_length, p)
      else match GetVarint32Ptr r with
           | None => None
           | Some (shared, p) =>
               match GetVarint32Ptr p with
               | None => None
               | Some (non_shared, p) =>
                   match GetVarint32Ptr p with
                   | None => None
                   | Some (value_length, p) => Some (shared, non_shared, value_length, p)
                   end
               end
           end
  | _ => None
  end.

(** The comparison of [limit - p], as a [uint32_t], with the sum of the lengths. *)
Definition too_short (p : list Z) (non_shared value_length : Z) : bool :=
  wrap 32 (Z.of_nat (length p)) <? wadd 32 non_shared value_length.

Definition DecodeEntry (r : list Z) : result (option (Z * Z * Z * list Z)) :=
  if (3 <=? length r)%nat then
    match decode_lengths r with
    | None => Ok None
    | Some (shared, non_shared, value_length, p) =>
        if too_short p non_shared value_length then Err EAssert else Ok (Some (shared, non_shared, value_length, p))
    end
  else Err EAssert.

Definition CheckAndDecodeEntry (r : list Z) : result (option (Z * Z * Z * list Z)) :=
  if (length r <? 3)%nat then Ok None
  else match decode_lengths r with
       | None => Ok None
       | Some (shared, non_shared, value_length, p) =>
           if too_short p non_shared value_length then Ok None else Ok (Some (shared, non_shared, value_length, p))
       end.

Definition DecodeKey (r : list Z) : result (option (Z * Z * list Z)) :=
  let? e := DecodeEntry r in
  match e with
  | None => Ok None
  | Some (shared, non_shared, _, p) => Ok (Some (shared, non_shared, p))
  end.

(** ** The state of an iterator *)

Inductive Status : Type := StatusOK | Corruption.

#[export] Instance status_eq_dec : EqDecision Status.
Proof. solve_decision. Defined.

(** [IterKey]: bytes of the block, or bytes in a buffer of its own. *)
Inductive IterKey : Type :=
  | Pinned (ptr size : Z)
  | Owned (bytes : list Z).

Definition IterKey_Size (k : IterKey) : Z := match k with Pinned _ size => size | Owned bs => Z.of_nat (length bs) end.
Definition IterKey_Clear (k : IterKey) : IterKey := match k with Pinned ptr _ => Pinned ptr 0 | Owned _ => Owned [] end.
Definition IsKeyPinned (k : IterKey) : bool := match k with Pinned _ _ => true | Owned _ => false end.

Record CachedPrevEntry : Type := mkCached {
  offset : Z;
  key_ptr : option Z;
  key_offset : Z;
  key_size : Z;
  cached_value : Z * Z
}.

(** What [Initialize] sets once and for all; [data_] is [None] for a null
    pointer, [global_seqno_] for [kDisableGlobalSequenceNumber] and
    [data_block_hash_index_] if the block has none. *)
Record IterConfig : Type := mkIterConfig {
  data_ : option (list Z);
  num_restarts_ : Z;
  restarts_ : Z;
  global_seqno_ : option Z;
  ts_sz_ : nat;
  pad_min_timestamp_ : bool;
  is_user_key : bool;
  block_restart_interval_ : Z;
  data_block_hash_index_ : option Z
}.

(** [value_] is an offset and a length. *)
Record BlockIter : Type := mkBlockIter {
  restart_index_ : Z;
  current_ : Z;
  raw_key_ : IterKey;
  value_ : Z * Z;
  status_ : Status;
  key_ : list Z;
  cur_entry_idx_ : Z;
  prev_entries_keys_buff_ : list Z;
  prev_entries_ : list CachedPrevEntry;
  prev_entries_idx_ : Z
}.

Definition set_restart_index (x : Z) (i : BlockIter) : BlockIter :=
  mkBlockIter x (current_ i) (raw_key_ i) (value_ i) (status_ i) (key_ i) (cur_entry_idx_ i) (prev_entries_keys_buff_ i) (prev_entries_ i) (prev_entries_idx_ i).
Definition set_current (x : Z) (i : BlockIter) : BlockIter :=
  mkBlockIter (restart_index_ i) x (raw_key_ i) (value_ i) (status_ i) (key_ i) (cur_entry_idx_ i) (prev_entries_keys_buff_ i) (prev_entries_ i) (prev_entries_idx_ i).
Definition set_raw_key (x : IterKey) (i : BlockIter) : BlockIter :=
  mkBlockIter (restart_index_ i) (current_ i) x (value_ i) (status_ i) (key_ i) (cur_entry_idx_ i) (prev_entries_keys_buff_ i) (prev_entries_ i) (prev_entries_idx_ i).
Definition set_value (x : Z * Z) (i : BlockIter) : BlockIter :=
  mkBlockIter (restart_index_ i) (current_ i) (raw_key_ i) x (status_ i) (key_ i) (cur_entry_idx_ i) (prev_entries_keys_buff_ i) (prev_entries_ i) (prev_entries_idx_ i).
Definition set_status (x : Status) (i : BlockIter) : BlockIter :=
  mkBlockIter (restart_index_ i) (current_ i) (raw_key_ i) (value_ i) x (key_ i) (cur_entry_idx_ i) (prev_entries_keys_buff_ i) (prev_entries_ i) (prev_entries_idx_ i).
Definition set_key (x : list Z) (i : BlockIter) : BlockIter :=
  mkBlockIter (restart_index_ i) (current_ i) (raw_key_ i) (value_ i) (status_ i) x (cur_entry_idx_ i) (prev_entries_keys_buff_ i) (prev_entries_ i) (prev_entries_idx_ i).
Definition set_entry_idx (x : Z) (i : BlockIter) : BlockIter :=
  mkBlockIter (restart_index_ i) (current_ i) (raw_key_ i) (value_ i) (status_ i) (key_ i) x (prev_entries_keys_buff_ i) (prev_entries_ i) (prev_entries_idx_ i).
Definition set_cache (buff : list Z) (es : list CachedPrevEntry) (x : Z) (i : BlockIter) : BlockIter :=
  mkBlockIter (restart_index_ i) (current_ i) (raw_key_ i) (value_ i) (status_ i) (key_ i) (cur_entry_idx_ i) buff es x.

(** [NextImpl] and [PrevImpl] are virtual: what a kind of iterator adds to the
    operations all of them share. *)
Class IterKind : Type := {
  ParseNext : M BlockIter (option bool);
  PrevImpl : M BlockIter unit
}.

Section iter.
Context {port : Port} {ucomparator : Comparator} (c : IterConfig).

Definition the_data : M BlockIter (list Z) := match data_ c with Some d => ret d | None => fail ENull end.

(** The bytes from an offset up to the restart array. *)
Definition region (d : list Z) (off : Z) : list Z := take (Z.to_nat (restarts_ c - off)) (drop (Z.to_nat off) d).

Definition Valid : M BlockIter bool :=
  i <- gets id ;;
  assert (bool_decide (status_ i = StatusOK) || (restarts_ c <=? current_ i)) ;;;
  ret (current_ i <? restarts_ c).

Definition NextEntryOffset (i : BlockIter) : Z := wrap 32 (fst (value_ i) + snd (value_ i)).

Definition GetRestartPoint (index : Z) : M BlockIter Z :=
  assert (index <? num_restarts_ c) ;;;
  d <- the_data ;;
  lift (DecodeFixed32 (drop (Z.to_nat (restarts_ c + index * 4)) d)).

Definition SeekToRestartPoint (index : Z) : M BlockIter unit :=
  modify (fun i => set_raw_key (IterKey_Clear (raw_key_ i)) i) ;;;
  modify (set_restart_index index) ;;;
  offset <- GetRestartPoint index ;;
  modify (set_value (offset, 0)).

Definition CorruptionError : M BlockIter unit :=
  modify (fun i => set_value (0, 0) (set_raw_key (IterKey_Clear (raw_key_ i))
    (set_status Corruption (set_restart_index (num_restarts_ c) (set_current (restarts_ c) i))))).

(** [raw_key_.GetKey()]. *)
Definition GetKey : M BlockIter (list Z) :=
  k <- gets raw_key_ ;;
  match k with
  | Pinned ptr size => d <- the_data ;; lift (slice_at d ptr size)
  | Owned bs => ret bs
  end.

Definition GetUserKey : M BlockIter (list Z) :=
  k <- GetKey ;; if is_user_key c then ret k else lift (ExtractUserKey k).

Definition UpdateRawKeyAndMaybePadMinTimestamp (ptr size : Z) : M BlockIter unit :=
  if pad_min_timestamp_ c then
    d <- the_data ;;
    key <- lift (slice_at d ptr size) ;;
    buf <- lift (if is_user_key c then AppendKeyWithMinTimestamp [] key (ts_sz_ c) else PadInternalKeyWithMinTimestamp [] key (ts_sz_ c)) ;;
    modify (set_raw_key (Owned buf))
  else modify (set_raw_key (Pinned ptr size)).

(** [raw_key_.TrimAppend] and [raw_key_.TrimAppendWithTimestamp]. *)
Definition TrimAppend (shared_len ptr non_shared_len : Z) : M BlockIter unit :=
  k <- GetKey ;;
  assert (shared_len <=? Z.of_nat (length k)) ;;;
  d <- the_data ;;
  non_shared <- lift (slice_at d ptr non_shared_len) ;;
  modify (set_raw_key (Owned (take (Z.to_nat shared_len) k ++ non_shared))).

Definition TrimAppendTs (shared_len ptr non_shared_len : Z) : M BlockIter unit :=
  k <- GetKey ;;
  d <- the_data ;;
  non_shared <- lift (slice_at d ptr non_shared_len) ;;
  new_key <- lift (TrimAppendWithTimestamp (is_user_key c) k shared_len non_shared (ts_sz_ c)) ;;
  modify (set_raw_key (Owned new_key)).

(** The loop that brings [restart_index_] up. *)
Fixpoint restart_loop (fuel : nat) : M BlockIter unit :=
  match fuel with
  | O => fail EFuel
  | S fuel =>
      i <- gets id ;;
      if restart_index_ i + 1 <? num_restarts_ c then
        r <- GetRestartPoint (restart_index_ i + 1) ;;
        if r <? current_ i then modify (set_restart_index (restart_index_ i + 1)) ;;; restart_loop fuel else ret tt
      else ret tt
  end.

(** [None] where it returns [false], otherwise [*is_shared]. *)
Definition ParseNextKey (decode : list Z -> result (option (Z * Z * Z * list Z))) : M BlockIter (option bool) :=
  modify (fun i => set_current (NextEntryOffset i) i) ;;;
  current <- gets current_ ;;
  if restarts_ c <=? current then
    modify (set_current (restarts_ c)) ;;; modify (set_restart_index (num_restarts_ c)) ;;; ret None
  else
    d <- the_data ;;
    e <- lift (decode (region d current)) ;;
    raw_key <- gets raw_key_ ;;
    match e with
    | None => CorruptionError ;;; ret None
    | Some (shared, non_shared, value_length, rest) =>
        if IterKey_Size raw_key <? shared then CorruptionError ;;; ret None
        else
          let p := restarts_ c - Z.of_nat (length rest) in
          (if shared =? 0 then UpdateRawKeyAndMaybePadMinTimestamp p non_shared
           else if pad_min_timestamp_ c then TrimAppendTs shared p non_shared
           else TrimAppend shared p non_shared) ;;;
          modify (set_value (p + non_shared, value_length)) ;;;
          (if shared =? 0 then restart_loop (S (Z.to_nat (num_restarts_ c))) else ret tt) ;;;
          ret (Some (negb (shared =? 0)))
    end.

Definition CompareCurrentKey (other : list Z) : M BlockIter comparison :=
  k <- GetKey ;;
  if is_user_key c then
    assert (bool_decide (global_seqno_ c = None)) ;;; ret (ucmp k other)
  else match global_seqno_ c with
       | None => lift (InternalKeyComparator_Compare k other)
       | Some s => lift (Compare_with_seqno k (Some s) other None)
       end.

(** The key users see. *)
Definition UpdateKey : M BlockIter unit :=
  valid <- Valid ;;
  if negb valid then ret tt
  else
    k <- GetKey ;;
    if is_user_key c then
      assert (bool_decide (global_seqno_ c = None)) ;;; modify (set_key k)
    else match global_seqno_ c with
         | None => modify (set_key k)
         | Some s =>
             u <- GetUserKey ;;
             t <- lift (ExtractValueType k) ;;
             key <- lift (SetInternalKey u s t) ;;
             modify (set_key key)
         end.

(** Binary search over the restart points; the result is [left]. *)
Fixpoint binary_loop (fuel : nat) (target : list Z) (left right : Z) (skip : bool) : M BlockIter (option (Z * bool)) :=
  match fuel with
  | O => fail EFuel
  | S fuel =>
      if left =? right then ret (Some (left, skip))
      else
        let mid := left + (right - left + 1) / 2 in
        region_offset <- GetRestartPoint (wrap 32 mid) ;;
        d <- the_data ;;
        k <- lift (DecodeKey (region d region_offset)) ;;
        match k with
        | None => CorruptionError ;;; ret None
        | Some (shared, non_shared, rest) =>
            if negb (shared =? 0) then CorruptionError ;;; ret None
            else
              UpdateRawKeyAndMaybePadMinTimestamp (restarts_ c - Z.of_nat (length rest)) non_shared ;;;
              cmp <- CompareCurrentKey target ;;
              match cmp with
              | Lt => binary_loop fuel target mid right skip
              | Gt => binary_loop fuel target left (mid - 1) skip
              | Eq => binary_loop fuel target mid mid true
              end
        end
  end.

(** [*index] and [*skip_linear_scan]. *)
Definition BinarySeek (target : list Z) : M BlockIter (option (Z * bool)) :=
  if restarts_ c =? 0 then ret None
  else
    r <- binary_loop (S (S (Z.to_nat (num_restarts_ c)))) target (-1) (wsub 32 (num_restarts_ c) 1) false ;;
    match r with
    | None => ret None
    | Some (l, skip) => if l =? -1 then ret (Some (0, true)) else ret (Some (wrap 32 l, skip))
    end.

(** Rounds enough for every loop over the entries. *)
Definition rounds : nat := match data_ c with Some d => S (length d) | None => 1 end.

Context {kind : IterKind}.

Definition NextImpl : M BlockIter unit :=
  _ <- ParseNext ;; modify (fun i => set_entry_idx (cur_entry_idx_ i + 1) i).

Fixpoint linear_loop (fuel : nat) (target : list Z) (max_offset : Z) : M BlockIter unit :=
  match fuel with
  | O => fail EFuel
  | S fuel =>
      NextImpl ;;;
      valid <- Valid ;;
      if negb valid then ret tt
      else
        current <- gets current_ ;;
        cmp <- CompareCurrentKey target ;;
        if current =? max_offset then assert (bool_decide (cmp = Gt))
        else if bool_decide (cmp = Lt) then linear_loop fuel target max_offset else ret tt
  end.

Definition FindKeyAfterBinarySeek (target : list Z) (index : Z) (skip_linear_scan : bool) : M BlockIter unit :=
  SeekToRestartPoint index ;;;
  modify (set_entry_idx (to_signed 32 (wmul 32 index (block_restart_interval_ c)) - 1)) ;;;
  NextImpl ;;;
  if negb skip_linear_scan then
    max_offset <- (if index + 1 <? num_restarts_ c then GetRestartPoint (index + 1) else ret (2 ^ 32 - 1)) ;;
    linear_loop rounds target max_offset
  else ret tt.

Definition SeekImpl (target : list Z) : M BlockIter unit :=
  match data_ c with
  | None => ret tt
  | Some _ =>
      r <- BinarySeek target ;;
      match r with None => ret tt | Some (index, skip) => FindKeyAfterBinarySeek target index skip end
  end.

Definition SeekToFirstImpl : M BlockIter unit :=
  match data_ c with
  | None => ret tt
  | Some _ => SeekToRestartPoint 0 ;;; _ <- ParseNext ;; modify (set_entry_idx 0)
  end.

Fixpoint last_loop (fuel : nat) : M BlockIter unit :=
  match fuel with
  | O => fail EFuel
  | S fuel =>
      ok <- ParseNext ;;
      match ok with
      | None => ret tt
      | Some _ =>
          next <- gets NextEntryOffset ;;
          if next <? restarts_ c then modify (fun i => set_entry_idx (cur_entry_idx_ i + 1) i) ;;; last_loop fuel else ret tt
      end
  end.

Definition SeekToLastImpl : M BlockIter unit :=
  match data_ c with
  | None => ret tt
  | Some _ =>
      SeekToRestartPoint (wsub 32 (num_restarts_ c) 1) ;;;
      modify (set_entry_idx (to_signed 32 (wmul 32 (wsub 32 (num_restarts_ c) 1) (block_restart_interval_ c)))) ;;;
      last_loop rounds
  end.

Fixpoint back_loop (fuel : nat) (seek_key : list Z) : M BlockIter unit :=
  match fuel with
  | O => fail EFuel
  | S fuel =>
      valid <- Valid ;;
      if negb valid then ret tt
      else
        cmp <- CompareCurrentKey seek_key ;;
        if bool_decide (cmp = Gt) then PrevImpl ;;; back_loop fuel seek_key else ret tt
  end.

Definition SeekForPrevImpl (target : list Z) : M BlockIter unit :=
  match data_ c with
  | None => ret tt
  | Some _ =>
      r <- BinarySeek target ;;
      match r with
      | None => ret tt
      | Some (index, skip) =>
          FindKeyAfterBinarySeek target index skip ;;;
          valid <- Valid ;;
          if negb valid then
            status <- gets status_ ;;
            if bool_decide (status = StatusOK) then SeekToLastImpl else ret tt
          else back_loop rounds target
      end
  end.

(** The keys up to the second restart point, and all keys. *)
Fixpoint interval_loop (fuel : nat) (end_index count : Z) : M BlockIter Z :=
  match fuel with
  | O => fail EFuel
  | S fuel =>
      i <- gets id ;;
      if (NextEntryOffset i <? end_index) && bool_decide (status_ i = StatusOK) then
        valid <- Valid ;; assert valid ;;;
        NextImpl ;;;
        interval_loop fuel end_index (wadd 32 count 1)
      else ret count
  end.

Definition GetRestartInterval : M BlockIter Z :=
  match data_ c with
  | None => ret 0
  | Some _ =>
      if num_restarts_ c <=? 1 then ret 0
      else
        SeekToFirstImpl ;;;
        end_index <- GetRestartPoint 1 ;;
        interval_loop rounds end_index 1
  end.

Fixpoint number_loop (fuel : nat) (count : Z) : M BlockIter Z :=
  match fuel with
  | O => fail EFuel
  | S fuel =>
      i <- gets id ;;
      if (NextEntryOffset i <? restarts_ c) && bool_decide (status_ i = StatusOK) then
        NextImpl ;;;
        number_loop fuel (wadd 32 count 1)
      else ret count
  end.

Definition NumberOfKeys (block_restart_interval : Z) : M BlockIter Z :=
  match data_ c with
  | None => ret 0
  | Some _ =>
      if num_restarts_ c =? 0 then ret 0
      else
        let count := wmul 32 (wsub 32 (num_restarts_ c) 1) block_restart_interval in
        SeekToRestartPoint (wsub 32 (num_restarts_ c) 1) ;;;
        number_loop rounds count
  end.

(** The operations users call. *)
Definition SeekToFirst : M BlockIter unit := SeekToFirstImpl ;;; UpdateKey.
Definition SeekToLast : M BlockIter unit := SeekToLastImpl ;;; UpdateKey.
Definition Seek (target : list Z) : M BlockIter unit := SeekImpl target ;;; UpdateKey.
Definition SeekForPrev (target : list Z) : M BlockIter unit := SeekForPrevImpl target ;;; UpdateKey.
Definition Next : M BlockIter unit := NextImpl ;;; UpdateKey.
Definition Prev : M BlockIter unit := PrevImpl ;;; UpdateKey.

Definition key : M BlockIter (list Z) := valid <- Valid ;; assert valid ;;; gets key_.

(** [value()], the slice and the bytes in it. *)
Definition value_slice : M BlockIter (Z * Z) := valid <- Valid ;; assert valid ;;; gets value_.
Definition value : M BlockIter (list Z) := v <- value_slice ;; d <- the_data ;; lift (slice_at d (fst v) (snd v)).

End iter.

(** ** Meta blocks *)

Section meta.
Context {port : Port} {ucomparator : Comparator} (c : IterConfig).

(** Back to a restart point before [original]; [false] if there is none. *)
Fixpoint prev_restart_loop (fuel : nat) (original : Z) : M BlockIter bool :=
  match fuel with
  | O => fail EFuel
  | S fuel =>
      ri <- gets restart_index_ ;;
      r <- GetRestartPoint c ri ;;
      if original <=? r then
        if ri =? 0 then
          modify (set_current (restarts_ c)) ;;; modify (set_restart_index (num_restarts_ c)) ;;; ret false
        else modify (set_restart_index (ri - 1)) ;;; prev_restart_loop fuel original
      else ret true
  end.

Fixpoint meta_prev_loop (fuel : nat) (original : Z) : M BlockIter unit :=
  match fuel with
  | O => fail EFuel
  | S fuel =>
      ok <- ParseNextKey c CheckAndDecodeEntry ;;
      match ok with
      | None => ret tt
      | Some _ =>
          next <- gets NextEntryOffset ;;
          if next <? original then meta_prev_loop fuel original else ret tt
      end
  end.

Definition Meta_PrevImpl : M BlockIter unit :=
  valid <- Valid c ;; assert valid ;;;
  original <- gets current_ ;;
  found <- prev_restart_loop (S (Z.to_nat (num_restarts_ c))) original ;;
  if found : bool then
    ri <- gets restart_index_ ;;
    SeekToRestartPoint c ri ;;;
    meta_prev_loop (rounds c) original ;;;
    modify (fun i => set_entry_idx (cur_entry_idx_ i - 1) i)
  else ret tt.

Definition MetaBlockIter : IterKind := {| ParseNext := ParseNextKey c CheckAndDecodeEntry; PrevImpl := Meta_PrevImpl |}.

(** ** Data blocks *)

(** The assertions hold every key of a file with a sequence number of its own
    to a sequence number of zero and to the types such files may have. *)
Definition ParseNextDataKey : M BlockIter (option bool) :=
  ok <- ParseNextKey c DecodeEntry ;;
  match ok, global_seqno_ c with
  | Some _, Some _ =>
      k <- GetKey c ;;
      packed <- lift (ExtractInternalKeyFooter k) ;;
      let (seqno, value_type) := UnPackSequenceAndType packed in
      assert ((value_type =? kTypeValue) || (value_type =? kTypeMerge) || (value_type =? kTypeDeletion) ||
              (value_type =? kTypeDeletionWithTimestamp) || (value_type =? kTypeRangeDeletion) || (value_type =? kTypeWideColumnEntity)) ;;;
      assert (seqno =? 0) ;;;
      ret ok
  | _, _ => ret ok
  end.

(** The scan to [original], which fills the cache. *)
Fixpoint data_prev_loop (fuel : nat) (original : Z) : M BlockIter unit :=
  match fuel with
  | O => fail EFuel
  | S fuel =>
      ok <- ParseNextDataKey ;;
      match ok with
      | None => ret tt
      | Some _ =>
          i <- gets id ;;
          current_key <- GetKey c ;;
          v <- value_slice c ;;
          let size := Z.of_nat (length current_key) in
          modify (match raw_key_ i with
                  | Pinned ptr _ =>
                      set_cache (prev_entries_keys_buff_ i) (prev_entries_ i ++ [mkCached (current_ i) (Some ptr) 0 size v]) (prev_entries_idx_ i)
                  | Owned _ =>
                      let new_key_offset := Z.of_nat (length (prev_entries_keys_buff_ i)) in
                      set_cache (prev_entries_keys_buff_ i ++ current_key)
                        (prev_entries_ i ++ [mkCached (current_ i) None new_key_offset size v]) (prev_entries_idx_ i)
                  end) ;;;
          next <- gets NextEntryOffset ;;
          if next <? original then data_prev_loop fuel original else ret tt
      end
  end.

Definition Data_PrevImpl : M BlockIter unit :=
  valid <- Valid c ;; assert valid ;;;
  i <- gets id ;;
  assert ((prev_entries_idx_ i =? -1) || ((0 <=? prev_entries_idx_ i) && (prev_entries_idx_ i <? Z.of_nat (length (prev_entries_ i))))) ;;;
  modify (fun i => set_entry_idx (cur_entry_idx_ i - 1) i) ;;;
  cached <- (if 0 <? prev_entries_idx_ i then
               e <- lift (rd (prev_entries_ i) (Z.of_nat (length (prev_entries_ i))) (prev_entries_idx_ i)) ;;
               ret (offset e =? current_ i)
             else ret false) ;;
  if cached : bool then
    let idx := prev_entries_idx_ i - 1 in
    modify (set_cache (prev_entries_keys_buff_ i) (prev_entries_ i) idx) ;;;
    e <- lift (rd (prev_entries_ i) (Z.of_nat (length (prev_entries_ i))) idx) ;;
    modify (set_current (offset e)) ;;;
    (match key_ptr e with
     | Some ptr => modify (set_raw_key (Pinned ptr (key_size e)))
     | None => k <- lift (slice_at (prev_entries_keys_buff_ i) (key_offset e) (key_size e)) ;; modify (set_raw_key (Owned k))
     end) ;;;
    modify (set_value (cached_value e))
  else
    modify (set_cache [] [] (-1)) ;;;
    original <- gets current_ ;;
    found <- prev_restart_loop (S (Z.to_nat (num_restarts_ c))) original ;;
    if found : bool then
      ri <- gets restart_index_ ;;
      SeekToRestartPoint c ri ;;;
      data_prev_loop (rounds c) original ;;;
      modify (fun i => set_cache (prev_entries_keys_buff_ i) (prev_entries_ i) (Z.of_nat (length (prev_entries_ i)) - 1) i)
    else ret tt.

Definition DataBlockIter : IterKind := {| ParseNext := ParseNextDataKey; PrevImpl := Data_PrevImpl |}.

(** *** Point lookups with the hash index *)

Fixpoint get_loop (fuel : nat) (target : list Z) (limit : Z) : M BlockIter unit :=
  match fuel with
  | O => fail EFuel
  | S fuel =>
      current <- gets current_ ;;
      if current <? limit then
        modify (fun i => set_entry_idx (cur_entry_idx_ i + 1) i) ;;;
        ok <- ParseNextDataKey ;;
        match ok with
        | None => ret tt
        | Some _ => cmp <- CompareCurrentKey c target ;; if bool_decide (cmp = Lt) then get_loop fuel target limit else ret tt
        end
      else ret tt
  end.

Definition SeekForGetImpl (num_buckets : Z) (target : list Z) : M BlockIter bool :=
  target_user_key <- lift (ExtractUserKey target) ;;
  let map_offset := wadd 32 (restarts_ c) (wmul 32 (num_restarts_ c) 4) in
  d <- the_data c ;;
  entry <- lift (hi_Lookup num_buckets d map_offset target_user_key) ;;
  if entry =? kCollision then @SeekImpl _ _ c DataBlockIter target ;;; ret true
  else
    let restart_index := if entry =? kNoEntry then wrap 8 (num_restarts_ c - 1) else entry in
    assert (restart_index <? num_restarts_ c) ;;;
    SeekToRestartPoint c restart_index ;;;
    r <- GetRestartPoint c restart_index ;;
    modify (set_current r) ;;;
    modify (set_entry_idx (to_signed 32 (wmul 32 restart_index (block_restart_interval_ c)) - 1)) ;;;
    limit <- (if restart_index + 1 <? num_restarts_ c then GetRestartPoint c (restart_index + 1) else ret (restarts_ c)) ;;
    get_loop (rounds c) target limit ;;;
    current <- gets current_ ;;
    if current =? restarts_ c then ret true
    else
      user_key <- GetUserKey c ;;
      if negb (bool_decide (ucmp user_key target_user_key = Eq)) then ret false
      else
        k <- GetKey c ;;
        value_type <- lift (ExtractValueType k) ;;
        (if negb (value_type =? kTypeValue) && negb (value_type =? kTypeDeletion) && negb (value_type =? kTypeMerge) &&
            negb (value_type =? kTypeSingleDeletion) && negb (value_type =? kTypeBlobIndex) && negb (value_type =? kTypeWideColumnEntity)
         then @SeekImpl _ _ c DataBlockIter target else ret tt) ;;;
        ret true.

Definition SeekForGet (target : list Z) : M BlockIter bool :=
  match data_block_hash_index_ c with
  | None => @SeekImpl _ _ c DataBlockIter target ;;; UpdateKey c ;;; ret true
  | Some num_buckets => res <- SeekForGetImpl num_buckets target ;; UpdateKey c ;;; ret res
  end.

End meta.

(** ** Blocks *)

(** [block_hash_index] is the number of buckets, 0 for an index that is not
    valid; [size_] is 0 for a block that could not be read. *)
Record Block : Type := mkBlock {
  block_data : list Z;
  size_ : Z;
  restart_offset_ : Z;
  block_num_restarts : Z;
  block_hash_index : Z
}.

Section block.
Context {port : Port}.

(** [NumRestarts] and [IndexType] of contents of [size] bytes. *)
Definition NumRestarts (data : list Z) (size : Z) : result Z :=
  if 8 <=? size then
    let? block_footer := DecodeFixed32 (drop (Z.to_nat (size - 4)) data) in
    if kMaxBlockSizeSupportedByHashIndex <? size then Ok block_footer
    else let? (_, num_restarts) := UnPackIndexTypeAndNumRestarts block_footer in Ok num_restarts
  else Err EAssert.

Definition IndexType (data : list Z) (size : Z) : result DataBlockIndexType :=
  if 8 <=? size then
    if kMaxBlockSizeSupportedByHashIndex <? size then Ok kDataBlockBinarySearch
    else
      let? block_footer := DecodeFixed32 (drop (Z.to_nat (size - 4)) data) in
      let? (index_type, _) := UnPackIndexTypeAndNumRestarts block_footer in Ok index_type
  else Err EAssert.

Definition new_Block (contents : list Z) : result Block :=
  let size := Z.of_nat (length contents) in
  if size <? 4 then Ok (mkBlock contents 0 0 0 0)
  else
    let? num_restarts := NumRestarts contents size in
    let? index_type := IndexType contents size in
    match index_type with
    | kDataBlockBinarySearch =>
        let restart_offset := wrap 32 (wrap 32 size - wadd 32 1 num_restarts * 4) in
        Ok (mkBlock contents (if size - 4 <? restart_offset then 0 else size) restart_offset num_restarts 0)
    | kDataBlockBinaryAndHash =>
        if size <? 4 + 2 then Ok (mkBlock contents 0 0 num_restarts 0)
        else
          let? (num_buckets, map_offset) := hi_Initialize contents (wrap 16 (size - 4)) in
          let restart_offset := wrap 32 (map_offset - num_restarts * 4) in
          Ok (mkBlock contents (if map_offset <? restart_offset then 0 else size) restart_offset num_restarts num_buckets)
    end.

(** An iterator that was initialized, and one that was invalidated. *)
Definition fresh (c : IterConfig) (s : Status) : BlockIter :=
  mkBlockIter (num_restarts_ c) (restarts_ c) (Owned []) (0, 0) s [] (-1) [] [] (-1).
Definition invalid_config : IterConfig := mkIterConfig None 0 0 None 0 false true 0 None.

Definition NewDataIterator (b : Block) (timestamp_size : nat) (global_seqno : option Z) (user_defined_timestamps_persisted : bool)
    (block_restart_interval : Z) : IterConfig * BlockIter :=
  if size_ b <? 2 * 4 then (invalid_config, fresh invalid_config Corruption)
  else if block_num_restarts b =? 0 then (invalid_config, fresh invalid_config StatusOK)
  else
    let c := mkIterConfig (Some (block_data b)) (block_num_restarts b) (restart_offset_ b) global_seqno timestamp_size
               ((0 <? timestamp_size)%nat && negb user_defined_timestamps_persisted) false block_restart_interval
               (if block_hash_index b =? 0 then None else Some (block_hash_index b)) in
    (c, fresh c StatusOK).

Definition NewMetaIterator (b : Block) (block_restart_interval : Z) : IterConfig * BlockIter :=
  if size_ b <? 2 * 4 then (invalid_config, fresh invalid_config Corruption)
  else if block_num_restarts b =? 0 then (invalid_config, fresh invalid_config StatusOK)
  else
    let c := mkIterConfig (Some (block_data b)) (block_num_restarts b) (restart_offset_ b) None 0 false true block_restart_interval None in
    (c, fresh c StatusOK).

End block.
