(* ===== verification/BlockLayout.v ===== *)
(** * What a well-formed block looks like, and reading its entries

    The entries of a block lie one behind the other, each with the bytes it does
    not share with the key before; every so many entries is a restart point that
    shares nothing.  Parsing the bytes from the end of an entry gives the next
    one, for both kinds of iterators. *)

From S2P Require Import Prelude Words Slice Coding DbFormat BlockHash BlockBuilder Block.

(** ** Lengths *)

Lemma lor_small x y : 0 <= x -> 0 <= y -> Z.lor x y < 128 -> x < 128 /\ y < 128.
Proof.
  intros Hx Hy Hl. change 128 with (2 ^ 7) in *. assert (word 7 (Z.lor x y)) as Hw by (split; [by apply Z.lor_nonneg|done]).
  apply word_bits in Hw as [_ Hw]; [|lia].
  assert (word 7 x /\ word 7 y) as [[_ ?] [_ ?]]; [|done].
  split; (apply word_bits; [lia|]; split; [done|]); intros i Hi; specialize (Hw i Hi); rewrite Z.lor_spec in Hw; by apply orb_false_iff in Hw as [? ?].
Qed.

Lemma GetVarint32Ptr_ok v rest : word 32 v -> GetVarint32Ptr (varint 5 v ++ rest) = Some (v, rest).
Proof.
  intros Hv. destruct (varint32_roundtrip v Hv) as (bs & _ & Hput & Hget & _). specialize (Hput []). rewrite PutVarint32_ok in Hput by done.
  assert (varint 5 v = bs) as -> by (cbn [app] in Hput; congruence). exact (Hget rest).
Qed.

(** The short cut for lengths below 128 agrees with the three parsers. *)
Lemma GetVarint32Ptr_small b p : byte_ok b -> b < 128 -> GetVarint32Ptr (b :: p) = Some (b, p).
Proof. intros Hb Hlt. unfold GetVarint32Ptr. rewrite marked by done. by rewrite (proj2 (Z.ltb_lt _ _) Hlt). Qed.

Lemma length_varint_pos n v : (0 < length (varint (S n) v))%nat.
Proof. cbn [varint]. destruct (v <? 128); simpl; lia. Qed.

Lemma decode_lengths_ok a b v rest : word 32 a -> word 32 b -> word 32 v ->
  decode_lengths (varint 5 a ++ varint 5 b ++ varint 5 v ++ rest) = Some (a, b, v, rest).
Proof.
  intros Ha Hb Hv. pose proof (GetVarint32Ptr_ok a (varint 5 b ++ varint 5 v ++ rest) Ha) as E1.
  pose proof (GetVarint32Ptr_ok b (varint 5 v ++ rest) Hb) as E2. pose proof (GetVarint32Ptr_ok v rest Hv) as E3.
  assert (exists p q r t, varint 5 a ++ varint 5 b ++ varint 5 v ++ rest = p :: q :: r :: t /\ byte_ok p /\ byte_ok q /\ byte_ok r) as (p & q & r & t & E & Hp & Hq & Hr).
  { pose proof (length_varint_pos 4 a). pose proof (length_varint_pos 4 b). pose proof (length_varint_pos 4 v).
    assert (Forall byte_ok (varint 5 a ++ varint 5 b ++ varint 5 v)) as HF by (repeat apply Forall_app_2; apply varint_bytes, Ha || apply varint_bytes, Hb || apply varint_bytes, Hv).
    assert (3 <= length (varint 5 a ++ varint 5 b ++ varint 5 v))%nat as Hl by (rewrite !length_app; lia).
    replace (varint 5 a ++ varint 5 b ++ varint 5 v ++ rest) with ((varint 5 a ++ varint 5 b ++ varint 5 v) ++ rest) by (by rewrite <- !app_assoc). destruct (varint 5 a ++ varint 5 b ++ varint 5 v) as [|p [|q [|r t]]]; try (simpl in Hl; lia).
    apply Forall_cons in HF as [? HF]. apply Forall_cons in HF as [? HF]. apply Forall_cons in HF as [? HF].
    eexists p, q, r, (t ++ rest). by split_and!. }
  revert E E1 E2 E3. generalize (varint 5 v) as v', (varint 5 b) as b', (varint 5 a) as a'. intros a' b' v' E E1 E2 E3.
  unfold decode_lengths. rewrite E. destruct (Z.ltb_spec (Z.lor (Z.lor p q) r) 128) as [Hlt|].
  - unfold byte_ok in *. destruct (lor_small (Z.lor p q) r ltac:(apply Z.lor_nonneg; lia) ltac:(lia) Hlt) as [Hlt' ?].
    destruct (lor_small p q ltac:(lia) ltac:(lia) Hlt') as [? ?]. rewrite E, GetVarint32Ptr_small in E1 by (unfold byte_ok; lia).
    injection E1 as <- E1. rewrite <- E1, GetVarint32Ptr_small in E2 by (unfold byte_ok; lia). injection E2 as <- E2.
    rewrite <- E2, GetVarint32Ptr_small in E3 by (unfold byte_ok; lia). injection E3 as <- <-. done.
  - rewrite <- E, E1, E2, E3. done.
Qed.

(** An entry parser, as long as nothing overflows. *)
Definition parses (decode : list Z -> result (option (Z * Z * Z * list Z))) : Prop :=
  forall a b v rest, word 32 a -> 0 <= b -> 0 <= v -> b + v <= Z.of_nat (length rest) < 2 ^ 32 ->
    decode (varint 5 a ++ varint 5 b ++ varint 5 v ++ rest) = Ok (Some (a, b, v, rest)).

Lemma long_enough a b v (rest : list Z) : (3 <= length (varint 5 a ++ varint 5 b ++ varint 5 v ++ rest))%nat.
Proof. pose proof (length_varint_pos 4 a). pose proof (length_varint_pos 4 b). pose proof (length_varint_pos 4 v). rewrite !length_app. lia. Qed.

Lemma not_too_short p b v : 0 <= b -> 0 <= v -> b + v <= Z.of_nat (length p) < 2 ^ 32 -> too_short p b v = false.
Proof. intros Hb Hv Hp. unfold too_short, wadd. rewrite !wrap_id by (unfold word; lia). apply Z.ltb_ge. lia. Qed.

Lemma DecodeEntry_parses : parses DecodeEntry.
Proof.
  intros a b v rest Ha Hb Hv Hr. unfold DecodeEntry. rewrite (proj2 (Nat.leb_le _ _) (long_enough a b v rest)).
  rewrite decode_lengths_ok by (done || unfold word in *; lia). by rewrite not_too_short.
Qed.

Lemma CheckAndDecodeEntry_parses : parses CheckAndDecodeEntry.
Proof.
  intros a b v rest Ha Hb Hv Hr. unfold CheckAndDecodeEntry. pose proof (long_enough a b v rest) as Hl.
  rewrite (proj2 (Nat.ltb_ge _ _)) by done. rewrite decode_lengths_ok by (done || unfold word in *; lia). by rewrite not_too_short.
Qed.

(** ** The layout *)

(** An entry whose key shares [s] bytes with the one before. *)
Definition entry (s : nat) (k v : list Z) : list Z :=
  varint 5 (Z.of_nat s) ++ varint 5 (Z.of_nat (length k - s)) ++ varint 5 (Z.of_nat (length v)) ++ drop s k ++ v.

Section layout.
Context (kvs : list (list Z * list Z)) (sh : nat -> nat).

(** The key and the value stored in entry [i]. *)
Definition sk (i : nat) : list Z := default [] (fst <$> kvs !! i).
Definition vl (i : nat) : list Z := default [] (snd <$> kvs !! i).
Definition entry_at (i : nat) : list Z := entry (sh i) (sk i) (vl i).

(** The first [i] entries, where the next one starts, and the entries from [i]. *)
Definition ents (i : nat) : list Z := concat (map entry_at (seq 0 i)).
Definition off (i : nat) : Z := Z.of_nat (length (ents i)).
Definition sfx (i : nat) : list Z := concat (map entry_at (seq i (length kvs - i))).

Lemma ents_S i : ents (S i) = ents i ++ entry_at i.
Proof. unfold ents. rewrite seq_S, map_app, concat_app. cbn. by rewrite app_nil_r. Qed.

Lemma off_S i : off (S i) = off i + Z.of_nat (length (entry_at i)).
Proof. unfold off. rewrite ents_S, length_app. lia. Qed.

Lemma ents_sfx i : (i <= length kvs)%nat -> ents (length kvs) = ents i ++ sfx i.
Proof. intros Hi. unfold ents, sfx. rewrite <- concat_app, <- map_app. replace (seq 0 (length kvs)) with (seq 0 i ++ seq i (length kvs - i)); [done|]. rewrite <- seq_app. f_equal. lia. Qed.

Lemma sfx_cons i : (i < length kvs)%nat -> sfx i = entry_at i ++ sfx (S i).
Proof. intros Hi. unfold sfx. replace (length kvs - i)%nat with (S (length kvs - S i)) by lia. done. Qed.

Lemma length_entry_at i : (3 <= length (entry_at i))%nat.
Proof. apply long_enough. Qed.

Lemma off_0 : off 0 = 0.
Proof. done. Qed.

Lemma off_lt i j : (i < j)%nat -> off i + 3 <= off j.
Proof.
  induction 1 as [|j Hj IH]; rewrite off_S; [pose proof (length_entry_at i)|pose proof (length_entry_at j)]; lia.
Qed.

Lemma off_le i j : (i <= j)%nat -> off i <= off j.
Proof. intros H. destruct (decide (i = j)) as [->|]; [lia|]. pose proof (off_lt i j ltac:(lia)). lia. Qed.

Lemma off_lt_iff i j : off i < off j <-> (i < j)%nat.
Proof. split; [|intros H; pose proof (off_lt i j H); lia]. intros H. destruct (Nat.lt_ge_cases i j) as [|Hge]; [done|]. pose proof (off_le j i Hge). lia. Qed.

Lemma off_nonneg i : 0 <= off i.
Proof. unfold off. lia. Qed.

(** How many entries fit. *)
Lemma off_count i : 3 * Z.of_nat i <= off i.
Proof. induction i as [|i IH]; [done|]. rewrite off_S. pose proof (length_entry_at i). lia. Qed.

(** The key and the value of an entry in the bytes of the block. *)
Definition koff (i : nat) : Z := off (S i) - Z.of_nat (length (vl i)) - Z.of_nat (length (sk i) - sh i).
Definition voff (i : nat) : Z := off (S i) - Z.of_nat (length (vl i)).

End layout.

(** A block of the entries [kvs], [sh i] of the bytes of key [i] left out, with
    [num] restart points, one every [B] entries. *)
Record layout (c : IterConfig) (kvs : list (list Z * list Z)) (sh : nat -> nat) (B num : nat) (tail : list Z) : Prop := {
  lay_data : data_ c = Some (ents kvs sh (length kvs) ++ concat (map (fun j => le_bytes 4 (off kvs sh (j * B))) (seq 0 num)) ++ tail);
  lay_restarts : restarts_ c = off kvs sh (length kvs);
  lay_num : num_restarts_ c = Z.of_nat num;
  lay_small : off kvs sh (length kvs) + 4 * Z.of_nat num + Z.of_nat (length tail) < 2 ^ 32 - 1;
  lay_B : (0 < B)%nat;
  lay_num_pos : (0 < num)%nat;
  lay_restart j : (j < num)%nat -> (j * B < length kvs)%nat \/ j = 0%nat;
  lay_whole j : (j < num)%nat -> sh (j * B)%nat = 0%nat;
  lay_cover : (length kvs <= num * B)%nat;
  lay_share i : (i < length kvs)%nat -> (sh i <= length (sk kvs i))%nat;
  lay_shared i : (S i < length kvs)%nat -> (sh (S i) <= length (sk kvs i))%nat /\ take (sh (S i)) (sk kvs (S i)) = take (sh (S i)) (sk kvs i);
  lay_keys i : (i < length kvs)%nat -> Forall byte_ok (sk kvs i) /\ (is_user_key c = false -> (kNumInternalBytes <= length (sk kvs i))%nat);
  lay_ts : pad_min_timestamp_ c = true -> (0 < ts_sz_ c)%nat /\ Z.of_nat (ts_sz_ c) < 2 ^ 32
}.

Section parse.
Context {port : Port} {ucomparator : Comparator}.
Context (c : IterConfig) (kvs : list (list Z * list Z)) (sh : nat -> nat) (B num : nat) (tail : list Z).
Context (L : layout c kvs sh B num tail).

Notation n := (length kvs).
Notation sk := (sk kvs).
Notation vl := (vl kvs).
Notation off := (off kvs sh).
Notation koff := (koff kvs sh).
Notation voff := (voff kvs sh).

Definition block_bytes : list Z := ents kvs sh n ++ concat (map (fun j => le_bytes 4 (off (j * B))) (seq 0 num)) ++ tail.

(** The key of entry [i] as the iterator holds it: with a timestamp of zeros if
    the block stores none. *)
Definition raw (i : nat) : list Z :=
  if pad_min_timestamp_ c then
    if is_user_key c then sk i ++ replicate (ts_sz_ c) 0 else pad_ts (ts_sz_ c) (sk i)
  else sk i.

(** The bytes of a key of the iterator. *)
Definition raw_is (k : IterKey) (bs : list Z) : Prop :=
  match k with Pinned ptr size => slice_at block_bytes ptr size = Ok bs | Owned bs' => bs' = bs end.

Definition at_entry (i : nat) (it : BlockIter) : Prop :=
  current_ it = off i /\ raw_is (raw_key_ it) (raw i) /\ value_ it = (voff i, Z.of_nat (length (vl i))) /\
  0 <= restart_index_ it < Z.of_nat num.

(** The next entry parsed is [i]. *)
Definition ready (i : nat) (it : BlockIter) : Prop :=
  NextEntryOffset it = off i /\ (sh i = 0%nat \/ exists j, i = S j /\ raw_is (raw_key_ it) (raw j)) /\
  0 <= IterKey_Size (raw_key_ it) /\ 0 <= restart_index_ it < Z.of_nat num.

(** What parsing does not touch. *)
Definition same (it it' : BlockIter) : Prop :=
  status_ it' = status_ it /\ key_ it' = key_ it /\ cur_entry_idx_ it' = cur_entry_idx_ it /\
  prev_entries_keys_buff_ it' = prev_entries_keys_buff_ it /\ prev_entries_ it' = prev_entries_ it /\
  prev_entries_idx_ it' = prev_entries_idx_ it.

Lemma the_data_ok (Q : list Z -> BlockIter -> Prop) it : Q block_bytes it -> wp (the_data c) Q it.
Proof. intros HQ. unfold the_data. rewrite (lay_data _ _ _ _ _ _ L). by apply wp_ret. Qed.

Lemma off_bound i : (i <= n)%nat -> 0 <= off i <= off n /\ off n < 2 ^ 32 - 1.
Proof. intros Hi. pose proof (lay_small _ _ _ _ _ _ L). pose proof (off_le kvs sh i n Hi). pose proof (off_nonneg kvs sh i). lia. Qed.

Lemma region_at i : (i <= n)%nat -> region c block_bytes (off i) = sfx kvs sh i.
Proof.
  intros Hi. unfold region. rewrite (lay_restarts _ _ _ _ _ _ L). unfold block_bytes, BlockLayout.off. rewrite (ents_sfx kvs sh i Hi), <- app_assoc.
  rewrite Nat2Z.id, drop_app_length. apply take_app_length'. rewrite length_app. lia.
Qed.

Lemma restart_array j l : (j < num)%nat -> exists r, concat (map (fun j => le_bytes 4 (off (j * B))) (seq 0 num)) ++ l = r ++ le_bytes 4 (off (j * B)) ++ concat (map (fun j => le_bytes 4 (off (j * B))) (seq (S j) (num - S j))) ++ l /\ length r = (4 * j)%nat.
Proof.
  intros Hj. exists (concat (map (fun j => le_bytes 4 (off (j * B))) (seq 0 j))). split.
  - replace num with (j + S (num - S j))%nat at 1 by lia. rewrite seq_app, map_app, concat_app. cbn [seq map concat Nat.add]. by rewrite <- !app_assoc.
  - clear. induction j as [|j IH]; [done|]. rewrite seq_S, map_app, concat_app, length_app, IH. cbn [map concat]. rewrite app_nil_r, length_le_bytes. lia.
Qed.

Lemma restart_entry j : (j < num)%nat -> (j * B <= n)%nat.
Proof. intros Hj. destruct (lay_restart _ _ _ _ _ _ L j Hj); lia. Qed.

Lemma GetRestartPoint_ok j (Q : Z -> BlockIter -> Prop) it :
  0 <= j < Z.of_nat num -> Q (off (Z.to_nat j * B)) it -> wp (GetRestartPoint c j) Q it.
Proof.
  intros Hj HQ. unfold GetRestartPoint. apply wp_bind, wp_assert; [rewrite (lay_num _ _ _ _ _ _ L); apply Z.ltb_lt; lia|].
  apply wp_bind, the_data_ok. eapply wp_lift; [|exact HQ].
  destruct (restart_array (Z.to_nat j) tail ltac:(lia)) as (r & E & Hr). unfold block_bytes. rewrite E.
  rewrite (lay_restarts _ _ _ _ _ _ L). rewrite app_assoc, drop_app_length'.
  - rewrite DecodeFixed32_le by (apply le_bytes_ok || apply length_le_bytes). f_equal. apply le_value_bytes.
    pose proof (off_bound (Z.to_nat j * B) (restart_entry (Z.to_nat j) ltac:(lia))). split; [lia|]. change (8 * Z.of_nat 4) with 32. lia.
  - rewrite length_app, Hr. unfold BlockLayout.off. lia.
Qed.

Lemma restart_loop_ok fuel it (Q : unit -> BlockIter -> Prop) :
  0 <= restart_index_ it < Z.of_nat num -> (Z.to_nat (Z.of_nat num - restart_index_ it) < fuel)%nat ->
  (forall r, 0 <= r < Z.of_nat num -> Q tt (set_restart_index r it)) -> wp (restart_loop c fuel) Q it.
Proof.
  revert it. induction fuel as [|fuel IH]; intros it Hr Hf HQ; [lia|]. cbn [restart_loop]. apply wp_bind, wp_gets. unfold id.
  assert (Q tt it) as Hend by (specialize (HQ (restart_index_ it) Hr); by destruct it).
  rewrite (lay_num _ _ _ _ _ _ L). destruct (Z.ltb_spec (restart_index_ it + 1) (Z.of_nat num)); [|by apply wp_ret].
  apply wp_bind, GetRestartPoint_ok; [lia|]. destruct (_ <? _); [|by apply wp_ret].
  apply wp_bind, wp_modify. apply IH; [simpl; lia..|]. intros r Hr'. exact (HQ r Hr').
Qed.

(** Where the parts of entry [i] lie. *)
Lemma entry_split i : (i < n)%nat -> exists p q,
  sfx kvs sh i = varint 5 (Z.of_nat (sh i)) ++ varint 5 (Z.of_nat (length (sk i) - sh i)) ++ varint 5 (Z.of_nat (length (vl i))) ++ drop (sh i) (sk i) ++ vl i ++ sfx kvs sh (S i) /\
  block_bytes = p ++ drop (sh i) (sk i) ++ vl i ++ q /\ Z.of_nat (length p) = koff i /\
  Z.of_nat (length (drop (sh i) (sk i) ++ vl i ++ sfx kvs sh (S i))) = restarts_ c - koff i.
Proof.
  intros Hi. set (h := varint 5 (Z.of_nat (sh i)) ++ varint 5 (Z.of_nat (length (sk i) - sh i)) ++ varint 5 (Z.of_nat (length (vl i)))).
  exists (ents kvs sh i ++ h), (sfx kvs sh (S i) ++ concat (map (fun j => le_bytes 4 (off (j * B))) (seq 0 num)) ++ tail).
  assert (entry_at kvs sh i = h ++ drop (sh i) (sk i) ++ vl i) as E by (unfold entry_at, entry, h; by rewrite <- !app_assoc).
  assert (Z.of_nat (length (ents kvs sh i ++ h)) = koff i) as Ek.
  { unfold BlockLayout.koff. rewrite off_S, E, !length_app, length_drop. unfold BlockLayout.off. lia. }
  split_and!.
  - rewrite sfx_cons, E by done. unfold h. by rewrite <- !app_assoc.
  - unfold block_bytes. rewrite (ents_sfx kvs sh i), (sfx_cons kvs sh i), E by lia. by rewrite <- !app_assoc.
  - done.
  - rewrite (lay_restarts _ _ _ _ _ _ L), <- Ek. unfold BlockLayout.off. rewrite (ents_sfx kvs sh i), (sfx_cons kvs sh i), E by lia. rewrite !length_app. lia.
Qed.

Lemma raw_is_size k bs : raw_is k bs -> IterKey_Size k = Z.of_nat (length bs).
Proof.
  destruct k as [ptr size|bs']; simpl; [|by intros ->]. unfold slice_at.
  destruct ((0 <=? ptr) && (0 <=? size) && _) eqn:E; [|done]. apply andb_prop in E as [E E3]. apply andb_prop in E as [E1 E2].
  apply Z.leb_le in E1, E2, E3. intros [= <-]. rewrite length_take, length_drop. lia.
Qed.

Lemma GetKey_ok bs it (Q : list Z -> BlockIter -> Prop) : raw_is (raw_key_ it) bs -> Q bs it -> wp (GetKey c) Q it.
Proof.
  intros Hk HQ. unfold GetKey. apply wp_bind, wp_gets. destruct (raw_key_ it) as [ptr size|bs']; simpl in Hk.
  - apply wp_bind, the_data_ok. by eapply wp_lift.
  - subst. by apply wp_ret.
Qed.

(** A key is no longer than the entries up to it: what it shares is there too. *)
Lemma key_length i : (i < n)%nat -> Z.of_nat (length (sk i)) <= off (S i).
Proof.
  induction i as [|i IH]; intros Hi.
  - destruct (entry_split 0 Hi) as (p & q & _ & _ & Hp & _). pose proof (lay_whole _ _ _ _ _ _ L 0 (lay_num_pos _ _ _ _ _ _ L)) as E.
    cbn [Nat.mul] in E. unfold BlockLayout.koff in Hp. rewrite E in Hp. lia.
  - destruct (lay_shared _ _ _ _ _ _ L i Hi) as [Hs _]. specialize (IH ltac:(lia)). rewrite off_S. unfold entry_at, entry.
    rewrite !length_app, length_drop. lia.
Qed.

(** The lengths of one entry are far below their widths. *)
Lemma entry_sizes i : (i < n)%nat ->
  0 <= koff i /\ koff i + Z.of_nat (length (sk i) - sh i) = voff i /\ voff i + Z.of_nat (length (vl i)) = off (S i) /\
  off (S i) <= off n < 2 ^ 32 - 1 /\ Z.of_nat (length (sk i)) < 2 ^ 32 - 1 /\ Z.of_nat (sh i) <= Z.of_nat (length (sk i)).
Proof.
  intros Hi. destruct (entry_split i Hi) as (p & q & _ & _ & Hp & _). pose proof (off_bound (S i) Hi). pose proof (key_length i Hi).
  pose proof (lay_share _ _ _ _ _ _ L i Hi). unfold BlockLayout.koff, BlockLayout.voff in *. lia.
Qed.

Lemma key_slice i : (i < n)%nat -> slice_at block_bytes (koff i) (Z.of_nat (length (sk i) - sh i)) = Ok (drop (sh i) (sk i)).
Proof.
  intros Hi. destruct (entry_split i Hi) as (p & q & _ & E & Hp & _). rewrite E, <- Hp, <- length_drop. apply slice_at_mid.
Qed.

Lemma value_bytes i : (i < n)%nat -> slice_at block_bytes (voff i) (Z.of_nat (length (vl i))) = Ok (vl i).
Proof.
  intros Hi. destruct (entry_split i Hi) as (p & q & _ & E & Hp & _). pose proof (entry_sizes i Hi) as (_ & Hv & _).
  rewrite E, app_assoc. replace (voff i) with (Z.of_nat (length (p ++ drop (sh i) (sk i)))) by (rewrite length_app, length_drop; lia). apply slice_at_mid.
Qed.

(** The key of the next entry, from its bytes and the key before. *)
Lemma next_key i it (Q : unit -> BlockIter -> Prop) :
  (i < n)%nat -> (sh i = 0%nat \/ exists j, i = S j /\ raw_is (raw_key_ it) (raw j)) ->
  (forall k, raw_is k (raw i) -> Q tt (set_raw_key k it)) ->
  wp (if Z.of_nat (sh i) =? 0 then UpdateRawKeyAndMaybePadMinTimestamp c (koff i) (Z.of_nat (length (sk i) - sh i))
      else if pad_min_timestamp_ c then TrimAppendTs c (Z.of_nat (sh i)) (koff i) (Z.of_nat (length (sk i) - sh i))
      else TrimAppend c (Z.of_nat (sh i)) (koff i) (Z.of_nat (length (sk i) - sh i))) Q it.
Proof.
  intros Hi Hprev HQ. pose proof (key_slice i Hi) as Hslice. pose proof (lay_keys _ _ _ _ _ _ L i Hi) as [_ H8]. unfold raw in *.
  destruct (Z.eqb_spec (Z.of_nat (sh i)) 0) as [E|E].
  - replace (sh i) with 0%nat in * by lia. rewrite drop_0 in Hslice. unfold UpdateRawKeyAndMaybePadMinTimestamp.
    destruct (pad_min_timestamp_ c) eqn:Hpad; [|by apply wp_modify, HQ].
    destruct (lay_ts _ _ _ _ _ _ L Hpad) as [Hts _]. apply wp_bind, the_data_ok. apply wp_bind. eapply wp_lift; [exact Hslice|].
    apply wp_bind. destruct (is_user_key c) eqn:Hu; eapply wp_lift.
    + unfold AppendKeyWithMinTimestamp. by rewrite (proj2 (Nat.ltb_lt _ _) Hts).
    + by apply wp_modify, HQ.
    + unfold PadInternalKeyWithMinTimestamp. rewrite (proj2 (Nat.ltb_lt _ _) Hts), (proj2 (Nat.leb_le _ _) (H8 eq_refl)). done.
    + by apply wp_modify, HQ.
  - destruct Hprev as [?|(j & -> & Hj)]; [lia|]. destruct (lay_shared _ _ _ _ _ _ L j Hi) as [Hs Et].
    assert (take (sh (S j)) (sk j) ++ drop (sh (S j)) (sk (S j)) = sk (S j)) as Enew by (rewrite <- Et; apply take_drop).
    destruct (pad_min_timestamp_ c) eqn:Hpad.
    + unfold TrimAppendTs. apply wp_bind. eapply GetKey_ok; [exact Hj|]. apply wp_bind, the_data_ok. apply wp_bind. eapply wp_lift; [exact Hslice|].
      apply wp_bind. destruct (is_user_key c) eqn:Hu.
      * eapply wp_lift; [|by apply wp_modify, HQ]. unfold TrimAppendWithTimestamp. rewrite slice_at_ok by (rewrite ?length_app; lia).
        cbn [rbind concat]. rewrite Z2Nat.inj_0, drop_0, Nat2Z.id, take_app_le by done. by rewrite app_nil_r, app_assoc, Enew.
      * eapply wp_lift; [|by apply wp_modify, HQ]. rewrite TrimAppendWithTimestamp_ok, Enew; [done| |done| |].
        -- by apply (lay_keys _ _ _ _ _ _ L j); [lia|].
        -- rewrite length_drop. pose proof (lay_share _ _ _ _ _ _ L (S j) Hi). specialize (H8 eq_refl). lia.
        -- rewrite length_drop. pose proof (entry_sizes j ltac:(lia)) as (_ & _ & _ & _ & ? & _). pose proof (entry_sizes (S j) Hi) as (_ & _ & _ & _ & ? & _).
           destruct (lay_ts _ _ _ _ _ _ L Hpad) as [_ ?]. assert (2 ^ 32 * 4 < 2 ^ 64) by done. lia.
    + unfold TrimAppend. apply wp_bind. eapply GetKey_ok; [exact Hj|]. apply wp_bind, wp_assert; [apply Z.leb_le; lia|].
      apply wp_bind, the_data_ok. apply wp_bind. eapply wp_lift; [exact Hslice|]. apply wp_modify, HQ. cbn [raw_is]. by rewrite Nat2Z.id.
Qed.

Lemma ParseNextKey_ok decode i it (Q : option bool -> BlockIter -> Prop) :
  parses decode -> (i < n)%nat -> ready i it ->
  (forall b it', at_entry i it' -> same it it' -> Q (Some b) it') -> wp (ParseNextKey c decode) Q it.
Proof.
  intros Hd Hi (Hoff & Hprev & Hsize & Hri) HQ. unfold ParseNextKey. apply wp_bind, wp_modify, wp_bind, wp_gets. cbn [current_ set_current]. rewrite Hoff.
  pose proof (entry_sizes i Hi) as (Hk & Hkv & Hv & Hn & Hsk & Hsh). pose proof (off_lt kvs sh i n Hi).
  rewrite (proj2 (Z.leb_gt _ _)) by (rewrite (lay_restarts _ _ _ _ _ _ L); lia).
  destruct (entry_split i Hi) as (p & q & Esfx & _ & _ & Hrest). apply wp_bind, the_data_ok. apply wp_bind. rewrite region_at by lia. rewrite Esfx.
  eapply wp_lift; [apply Hd; [unfold word; lia|lia|lia|]|].
  { rewrite Hrest, (lay_restarts _ _ _ _ _ _ L). pose proof (lay_small _ _ _ _ _ _ L). lia. }
  apply wp_bind, wp_gets. cbn [raw_key_ set_current]. rewrite (proj2 (Z.ltb_ge _ _)).
  2:{ destruct Hprev as [->|(j & -> & Hj)]; [lia|]. apply raw_is_size in Hj. rewrite Hj. destruct (lay_shared _ _ _ _ _ _ L j Hi) as [Hs _].
      unfold raw, pad_ts. destruct (pad_min_timestamp_ c); [|lia]. destruct (is_user_key c); rewrite !length_app; [lia|].
      pose proof (f_equal length (key_parts (sk j))) as El. rewrite length_app in El. lia. }
  cbv zeta. rewrite Hrest. replace (restarts_ c - (restarts_ c - koff i)) with (koff i) by lia. apply wp_bind, next_key; [done|exact Hprev|]. intros k Hraw.
  apply wp_bind, wp_modify. rewrite Hkv. cbn [set_value set_raw_key set_current restart_index_ current_ raw_key_ value_ status_ key_ cur_entry_idx_ prev_entries_keys_buff_ prev_entries_ prev_entries_idx_].
  apply wp_bind. destruct (Z.of_nat (sh i) =? 0).
  - apply restart_loop_ok; [done|simpl; rewrite (lay_num _ _ _ _ _ _ L); lia|]. intros r Hr. apply wp_ret, HQ; split_and!; done || (simpl; lia).
  - apply wp_ret, wp_ret, HQ; split_and!; done || (simpl; lia).
Qed.

Lemma ParseNextKey_end decode it (Q : option bool -> BlockIter -> Prop) :
  NextEntryOffset it = off n -> Q None (set_restart_index (num_restarts_ c) (set_current (restarts_ c) (set_current (off n) it))) ->
  wp (ParseNextKey c decode) Q it.
Proof.
  intros Hoff HQ. unfold ParseNextKey. apply wp_bind, wp_modify, wp_bind, wp_gets. cbn [current_ set_current]. rewrite Hoff.
  rewrite (proj2 (Z.leb_le _ _)) by (rewrite (lay_restarts _ _ _ _ _ _ L); lia). by apply wp_bind, wp_modify, wp_bind, wp_modify, wp_ret.
Qed.

End parse.
