(* ===== verification/BlockSeek.v ===== *)
(** * Moving an iterator over a well-formed block

    The position of an iterator is an entry, or it is not valid.  Every
    operation of block.cc moves it as the order of the keys says, whatever the
    restart points and the cache of [Prev] are. *)

From S2P Require Import Prelude Words Slice Coding DbFormat BlockHash BlockBuilder Block BlockLayout.

Section seek.
Context {port : Port} {ucomparator : Comparator} `{!CompareOk ucmp}.
Context (c : IterConfig) (kvs : list (list Z * list Z)) (sh : nat -> nat) (B num : nat) (tail : list Z).
Context (L : layout c kvs sh B num tail).

Notation n := (length kvs).
Notation sk := (sk kvs).
Notation vl := (vl kvs).
Notation off := (off kvs sh).
Notation voff := (voff kvs sh).
Notation raw := (raw c kvs).
Notation bytes := (block_bytes kvs sh B num tail).
Notation raw_is := (raw_is kvs sh B num tail).
Notation at_entry := (at_entry c kvs sh B num tail).
Notation ready := (ready c kvs sh B num tail).

(** ** The order of the keys *)

Definition kcmp : list Z -> list Z -> comparison := if is_user_key c then ucmp else ikcmp.

#[local] Instance kcmp_order : CompareOk kcmp.
Proof. unfold kcmp. destruct (is_user_key c); apply _. Qed.

(** The key of entry [i] as users see it. *)
Definition shown (i : nat) : list Z := if is_user_key c then raw i else with_seqno (global_seqno_ c) (raw i).

Definition target_ok (t : list Z) : Prop := is_user_key c = false -> ikey t.

Record sorted_keys : Prop := {
  sorted_lt i j : (i < j < n)%nat -> kcmp (shown i) (shown j) = Lt;
  sorted_seqno i : (i < n)%nat -> if is_user_key c then global_seqno_ c = None else seqno_ok (global_seqno_ c) (raw i)
}.
Context (KS : sorted_keys).

Lemma raw_ikey i : (i < n)%nat -> is_user_key c = false -> ikey (raw i).
Proof.
  intros Hi Hu. destruct (lay_keys _ _ _ _ _ _ L i Hi) as [Hb H8]. specialize (H8 Hu). unfold BlockLayout.raw. rewrite Hu.
  destruct (pad_min_timestamp_ c); [|done]. unfold pad_ts. split.
  - rewrite !length_app. pose proof (length_footer_part _ H8). lia.
  - repeat apply Forall_app_2; [by apply Forall_take| |by apply Forall_drop]. apply Forall_replicate. unfold byte_ok. lia.
Qed.

Lemma CompareCurrentKey_ok i t it (Q : comparison -> BlockIter -> Prop) :
  (i < n)%nat -> target_ok t -> raw_is (raw_key_ it) (raw i) -> Q (kcmp (shown i) t) it -> wp (CompareCurrentKey c t) Q it.
Proof.
  intros Hi Ht Hk HQ. unfold CompareCurrentKey. apply wp_bind. eapply GetKey_ok; [exact L|exact Hk|].
  pose proof (sorted_seqno KS i Hi) as Hs. unfold kcmp, shown in HQ. unfold target_ok in Ht. pose proof (raw_ikey i Hi) as Hr.
  destruct (is_user_key c).
  - apply wp_bind, wp_assert; [by apply bool_decide_eq_true_2|]. by apply wp_ret.
  - specialize (Ht eq_refl). specialize (Hr eq_refl). destruct (global_seqno_ c) as [s|]; (eapply wp_lift; [|exact HQ]).
    + by apply Compare_with_seqno_ok.
    + by apply InternalKeyComparator_Compare_ok.
Qed.

(** The first entry that is not before [t]. *)
Definition is_lower (t : list Z) (i : nat) : Prop :=
  (i <= n)%nat /\ (forall j, (j < i)%nat -> kcmp (shown j) t = Lt) /\ (forall j, (i <= j < n)%nat -> kcmp (shown j) t <> Lt).

Lemma before_lt t i j : (j <= i < n)%nat -> kcmp (shown i) t = Lt -> kcmp (shown j) t = Lt.
Proof.
  intros Hj Hi. destruct (decide (j = i)) as [->|]; [done|]. eapply (cmp_trans kcmp); [|exact Hi]. apply (sorted_lt KS). lia.
Qed.

Lemma after_gt t i j : (i < j < n)%nat -> kcmp (shown i) t <> Lt -> kcmp (shown j) t = Gt.
Proof.
  intros Hj Hi. apply (cmp_gt_lt kcmp). eapply (cmp_le_lt kcmp); [|apply (sorted_lt KS); exact Hj]. rewrite (cmp_anti kcmp (shown i) t).
  by destruct (kcmp (shown i) t).
Qed.

Lemma lower_here t i : (i < n)%nat -> kcmp (shown i) t <> Lt -> (forall j, (j < i)%nat -> kcmp (shown j) t = Lt) -> is_lower t i.
Proof.
  intros Hi Hn Hb. split_and!; [lia|done|]. intros j Hj. destruct (decide (j = i)) as [->|]; [done|]. by rewrite (after_gt t i j) by (done || lia).
Qed.

Lemma lower_eq t i : (i < n)%nat -> kcmp (shown i) t = Eq -> is_lower t i.
Proof.
  intros Hi E. apply lower_here; [done|by rewrite E|]. intros j Hj. eapply (cmp_lt_le kcmp); [apply (sorted_lt KS j i); lia|by rewrite E].
Qed.

Lemma lower_unique t i j : is_lower t i -> is_lower t j -> i = j.
Proof.
  intros (Hi & Hi1 & Hi2) (Hj & Hj1 & Hj2). destruct (Nat.lt_trichotomy i j) as [H|[H|H]]; [|done|].
  - exfalso. apply (Hi2 i); [lia|]. by apply Hj1.
  - exfalso. apply (Hj2 j); [lia|]. by apply Hi1.
Qed.

(** ** Positions *)

(** An entry of the cache of [Prev]. *)
Definition cached_at (i : nat) (buff : list Z) (e : CachedPrevEntry) : Prop :=
  (i < n)%nat /\ offset e = off i /\ cached_value e = (voff i, Z.of_nat (length (vl i))) /\
  match key_ptr e with
  | Some ptr => slice_at bytes ptr (key_size e) = Ok (raw i)
  | None => slice_at buff (key_offset e) (key_size e) = Ok (raw i)
  end.

Definition cache_from (b : nat) (buff : list Z) (es : list CachedPrevEntry) : Prop :=
  forall m e, es !! m = Some e -> cached_at (b + m) buff e.

Definition cache_ok (it : BlockIter) : Prop :=
  (exists b, cache_from b (prev_entries_keys_buff_ it) (prev_entries_ it)) /\
  (prev_entries_idx_ it = -1 \/ 0 <= prev_entries_idx_ it < Z.of_nat (length (prev_entries_ it))).

(** The index of the entry, for an iterator that knows the restart interval, or
    need not know it. *)
Definition interval_known : Prop := block_restart_interval_ c = Z.of_nat B \/ num = 1%nat.
Definition idx_is (i : Z) (it : BlockIter) : Prop := interval_known -> cur_entry_idx_ it = i.

Definition position (p : option nat) (it : BlockIter) : Prop :=
  match p with
  | Some i => (i < n)%nat /\ at_entry i it /\ idx_is (Z.of_nat i) it
  | None => current_ it = restarts_ c
  end.

Definition steady (it : BlockIter) : Prop := status_ it = StatusOK /\ cache_ok it.
Definition inv (p : option nat) (it : BlockIter) : Prop := steady it /\ position p it.

(** Entry [i], or the end. *)
Definition pos (i : nat) : option nat := if decide (i < n)%nat then Some i else None.
Definition before (i : nat) : option nat := match i with O => None | S j => Some j end.

Lemma same_steady it it' : same it it' -> steady it -> steady it'.
Proof. intros (E1 & _ & _ & E2 & E3 & E4) [Hs Hc]. unfold steady, cache_ok. by rewrite E1, E2, E3, E4. Qed.

Lemma same_idx it it' i : same it it' -> idx_is i it -> idx_is i it'.
Proof. intros (_ & _ & E & _) Hi Hb. rewrite E. by apply Hi. Qed.

Lemma set_idx_steady x it : steady it -> steady (set_entry_idx x it).
Proof. done. Qed.

(** What a kind of iterator has to do on a well-formed block. *)
Class KindOk (kind : IterKind) : Prop := {
  parse_next i it (Q : option bool -> BlockIter -> Prop) : (i < n)%nat -> ready i it ->
    (forall b it', at_entry i it' -> same it it' -> Q (Some b) it') -> wp ParseNext Q it;
  parse_end it (Q : option bool -> BlockIter -> Prop) : NextEntryOffset it = off n ->
    (forall it', current_ it' = restarts_ c -> same it it' -> Q None it') -> wp ParseNext Q it;
  step_back i it (Q : unit -> BlockIter -> Prop) : inv (Some i) it -> (forall it', inv (before i) it' -> Q tt it') -> wp PrevImpl Q it
}.

Lemma next_offset i it : (i < n)%nat -> at_entry i it -> NextEntryOffset it = off (S i).
Proof.
  intros Hi (_ & _ & Hv & _). pose proof (entry_sizes _ _ _ _ _ _ L i Hi) as (_ & _ & E & Hn & _). unfold NextEntryOffset. rewrite Hv. cbn [fst snd]. rewrite E.
  apply wrap_id. pose proof (off_nonneg kvs sh (S i)). unfold word. lia.
Qed.

Lemma ready_next i it : (i < n)%nat -> at_entry i it -> ready (S i) it.
Proof.
  intros Hi Hat. pose proof (next_offset i it Hi Hat) as Hoff. destruct Hat as (_ & Hk & _ & Hr).
  pose proof (raw_is_size _ _ _ _ _ _ _ Hk). split_and!; [done|right; eauto|lia..].
Qed.

Lemma SeekToRestartPoint_ok j it (Q : unit -> BlockIter -> Prop) :
  0 <= j < Z.of_nat num ->
  (forall it', ready (Z.to_nat j * B) it' -> same it it' -> Q tt it') -> wp (SeekToRestartPoint c j) Q it.
Proof.
  intros Hj HQ. unfold SeekToRestartPoint. apply wp_bind, wp_modify, wp_bind, wp_modify, wp_bind. eapply GetRestartPoint_ok; [exact L|done|].
  apply wp_modify, HQ; [|done]. split_and!.
  - unfold NextEntryOffset. cbn [value_ set_value fst snd]. rewrite Z.add_0_r. apply wrap_id.
    pose proof (off_bound _ _ _ _ _ _ L (Z.to_nat j * B) (restart_entry _ _ _ _ _ _ L (Z.to_nat j) ltac:(lia))). unfold word. lia.
  - left. apply (lay_whole _ _ _ _ _ _ L). lia.
  - simpl. by destruct (raw_key_ it).
  - simpl. lia.
  - simpl. lia.
Qed.

Lemma Valid_ok p it (Q : bool -> BlockIter -> Prop) : inv p it -> Q (bool_decide (is_Some p)) it -> wp (Valid c) Q it.
Proof.
  intros [[Hs _] Hp] HQ. unfold Valid. apply wp_bind, wp_gets. unfold id. apply wp_bind, wp_assert; [by rewrite Hs|]. apply wp_ret.
  rewrite (lay_restarts _ _ _ _ _ _ L). destruct p as [i|]; simpl in Hp.
  - destruct Hp as (Hi & (-> & _) & _). rewrite (proj2 (Z.ltb_lt _ _)); [done|]. by apply off_lt_iff.
  - rewrite Hp, (lay_restarts _ _ _ _ _ _ L), Z.ltb_irrefl. done.
Qed.

(** ** Binary search over the restart points *)

Section target.
Context (t : list Z) (Ht : target_ok t).
Notation kc i := (kcmp (shown i) t).

Lemma n_pos_restart j : (0 < n)%nat -> 0 <= j < Z.of_nat num -> (Z.to_nat j * B < n)%nat.
Proof. intros Hn Hj. destruct (lay_restart _ _ _ _ _ _ L (Z.to_nat j)) as [|E]; [lia|done|]. rewrite E. lia. Qed.

Lemma DecodeKey_restart i : (i < n)%nat -> sh i = 0%nat -> DecodeKey (region c bytes (off i)) =
  Ok (Some (0, Z.of_nat (length (sk i)), sk i ++ vl i ++ sfx kvs sh (S i))).
Proof.
  intros Hi Hs. rewrite (region_at _ _ _ _ _ _ L) by lia. destruct (entry_split _ _ _ _ _ _ L i Hi) as (p & q & E & _ & _ & Hl). rewrite Hs in E, Hl.
  rewrite drop_0, Nat.sub_0_r in E. rewrite drop_0 in Hl. rewrite E. unfold DecodeKey. rewrite DecodeEntry_parses; [done|done|lia|lia|].
  pose proof (entry_sizes _ _ _ _ _ _ L i Hi) as (? & ? & ? & ? & ? & _). rewrite Hs in *. rewrite Hl, (lay_restarts _ _ _ _ _ _ L). lia.
Qed.

(** What [binary_loop] knows of its bounds. *)
Definition bounds_ok (l r : Z) (skip : bool) : Prop :=
  -1 <= l <= r /\ r < Z.of_nat num /\
  (if skip then l = r /\ 0 <= l /\ kc (Z.to_nat l * B)%nat = Eq else 0 <= l -> kc (Z.to_nat l * B)%nat = Lt) /\
  (r + 1 < Z.of_nat num -> kc (Z.to_nat (r + 1) * B)%nat = Gt).

Lemma binary_loop_ok fuel l r skip it (Q : option (Z * bool) -> BlockIter -> Prop) :
  (0 < n)%nat -> bounds_ok l r skip -> (Z.to_nat (r - l) < fuel)%nat ->
  (forall m skip' k, bounds_ok m m skip' -> Q (Some (m, skip')) (set_raw_key k it)) ->
  wp (binary_loop c fuel t l r skip) Q it.
Proof.
  intros Hn. revert l r skip it. induction fuel as [|fuel IH]; intros l r skip it Hb Hf HQ; [lia|]. cbn [binary_loop].
  destruct (Z.eqb_spec l r) as [->|Hne]; [apply wp_ret; specialize (HQ r skip (raw_key_ it) Hb); by destruct it|].
  destruct skip; [destruct Hb as (_ & _ & (? & _) & _); lia|]. destruct Hb as (Hlr & Hr & Hl & Hup). cbv zeta.
  set (m := l + (r - l + 1) / 2). assert (l < m <= r) as Hm by (unfold m; div_lia).
  pose proof (lay_small _ _ _ _ _ _ L) as Hsmall. pose proof (off_nonneg kvs sh n) as Hoff.
  rewrite (wrap_id 32 m) by (unfold word; lia). apply wp_bind. eapply GetRestartPoint_ok; [exact L|lia|].
  apply wp_bind. eapply the_data_ok; [exact L|]. apply wp_bind. set (i := (Z.to_nat m * B)%nat).
  assert (i < n)%nat as Hi by (apply n_pos_restart; [done|lia]). assert (sh i = 0%nat) as Hs by (apply (lay_whole _ _ _ _ _ _ L); lia).
  eapply wp_lift; [by apply DecodeKey_restart|]. cbv beta iota. change (negb (0 =? 0)) with false. cbv iota.
  destruct (entry_split _ _ _ _ _ _ L i Hi) as (p & q & _ & _ & _ & Hlen). rewrite Hs, drop_0 in Hlen. rewrite Hlen.
  replace (restarts_ c - (restarts_ c - koff kvs sh i)) with (koff kvs sh i) by lia.
  pose proof (next_key _ _ _ _ _ _ L i it) as Hkey. rewrite Hs, Nat.sub_0_r in Hkey. change (Z.of_nat 0 =? 0) with true in Hkey.
  apply wp_bind, Hkey; [done|by left|]. intros k Hk. apply wp_bind. eapply CompareCurrentKey_ok; [done|done|exact Hk|].
  assert (forall k' it', set_raw_key k' (set_raw_key k it') = set_raw_key k' it') as Hset by done.
  destruct (kc i) eqn:E; (apply IH; [|lia|intros; rewrite Hset; by apply HQ]).
  - unfold bounds_ok. fold i. split_and!; try lia; [done|]. intros Hlt. apply (after_gt t i); [|by rewrite E].
    split; [|apply n_pos_restart; [done|lia]]. unfold i. pose proof (lay_B _ _ _ _ _ _ L). nia.
  - unfold bounds_ok. fold i. split_and!; try lia; done.
  - unfold bounds_ok. replace (m - 1 + 1) with m by lia. fold i. split_and!; try lia; done.
Qed.

(** The restart interval to scan, or the entry itself. *)
Lemma BinarySeek_ok it (Q : option (Z * bool) -> BlockIter -> Prop) :
  (0 < n)%nat ->
  (forall j skip k, (j < num)%nat ->
     (if skip : bool then is_lower t (j * B) else kc (j * B)%nat = Lt /\ (S j < num -> kc (S j * B)%nat = Gt)%nat) ->
     Q (Some (Z.of_nat j, skip)) (set_raw_key k it)) ->
  wp (BinarySeek c t) Q it.
Proof.
  intros Hn HQ. unfold BinarySeek. pose proof (off_lt kvs sh 0 n Hn) as H0. rewrite off_0 in H0.
  pose proof (lay_small _ _ _ _ _ _ L) as Hsmall. pose proof (lay_num_pos _ _ _ _ _ _ L) as Hnum.
  rewrite (proj2 (Z.eqb_neq _ _)) by (rewrite (lay_restarts _ _ _ _ _ _ L); lia). apply wp_bind. rewrite (lay_num _ _ _ _ _ _ L).
  unfold wsub. rewrite wrap_id by (unfold word; lia). apply binary_loop_ok; [done| |lia|].
  { unfold bounds_ok. split_and!; try lia. }
  intros m skip k (Hm & Hm' & Hl & Hup). destruct (Z.eqb_spec m (-1)) as [->|Hne].
  - apply wp_ret. apply (HQ 0%nat true); [lia|]. apply lower_here; [done| |lia]. destruct (Z.lt_ge_cases 0 (Z.of_nat num)) as [Hlt|]; [|lia].
    specialize (Hup Hlt). change (Z.to_nat (-1 + 1)) with 0%nat in Hup. by rewrite Hup.
  - apply wp_ret. rewrite wrap_id by (unfold word; lia). replace m with (Z.of_nat (Z.to_nat m)) by lia. apply HQ; [lia|].
    pose proof (n_pos_restart m Hn ltac:(lia)). destruct skip; [apply lower_eq; [done|apply Hl]|].
    split; [apply Hl; lia|]. intros Hlt. replace (S (Z.to_nat m)) with (Z.to_nat (m + 1)) by lia. apply Hup. lia.
Qed.

End target.

(** ** The operations *)

Section ops.
Context {kind : IterKind} {KO : KindOk kind}.

Lemma pos_lt i : (i < n)%nat -> pos i = Some i.
Proof. intros Hi. unfold pos. by rewrite decide_True. Qed.

Lemma pos_end : pos n = None.
Proof. unfold pos. by rewrite decide_False by lia. Qed.

(** Parsing the entry [i], or finding the end. *)
Lemma parse_to i it (Q : option bool -> BlockIter -> Prop) :
  (i <= n)%nat -> ready i it ->
  (forall b it', (i < n)%nat -> at_entry i it' -> same it it' -> Q (Some b) it') ->
  (forall it', i = n -> current_ it' = restarts_ c -> same it it' -> Q None it') -> wp ParseNext Q it.
Proof.
  intros Hi Hr H1 H2. destruct (decide (i < n)%nat) as [Hlt|Hge].
  - eapply parse_next; eauto.
  - assert (i = n) as -> by lia. eapply parse_end; [apply Hr|]. eauto.
Qed.

Lemma NextImpl_ok i it (Q : unit -> BlockIter -> Prop) :
  (i <= n)%nat -> ready i it -> steady it -> idx_is (Z.of_nat i - 1) it -> (forall it', inv (pos i) it' -> Q tt it') -> wp NextImpl Q it.
Proof.
  intros Hi Hr Hst Hx HQ. unfold NextImpl. apply wp_bind. eapply parse_to; [done|exact Hr|..].
  - intros b it' Hlt Hat Hs. apply wp_modify, HQ. rewrite pos_lt by done. split; [by apply set_idx_steady, (same_steady it)|].
    split_and!; [done|done|]. intros Hb. cbn. rewrite (same_idx _ _ _ Hs Hx Hb). lia.
  - intros it' -> Hc Hs. apply wp_modify, HQ. rewrite pos_end. split; [by apply set_idx_steady, (same_steady it)|done].
Qed.

(** From an entry to the next one. *)
Lemma step_next i it (Q : unit -> BlockIter -> Prop) : inv (Some i) it -> (forall it', inv (pos (S i)) it' -> Q tt it') -> wp NextImpl Q it.
Proof.
  intros [Hst (Hi & Hat & Hx)] HQ. eapply (NextImpl_ok (S i)); [lia|by apply ready_next|done| |done].
  intros Hb. rewrite (Hx Hb). lia.
Qed.

Lemma rounds_n : (n < rounds c)%nat.
Proof.
  unfold rounds. rewrite (lay_data _ _ _ _ _ _ L). rewrite length_app. pose proof (off_count kvs sh n). unfold BlockLayout.off in *. lia.
Qed.

Lemma linear_loop_ok t max_offset fuel i it (Q : unit -> BlockIter -> Prop) :
  target_ok t -> (forall j, (j < n)%nat -> off j = max_offset -> kcmp (shown j) t = Gt) ->
  inv (Some i) it -> kcmp (shown i) t = Lt -> (n - i <= fuel)%nat ->
  (forall j it', is_lower t j -> inv (pos j) it' -> Q tt it') -> wp (linear_loop c fuel t max_offset) Q it.
Proof.
  intros Ht Hmax. revert i it. induction fuel as [|fuel IH]; intros i it Hinv Hlt Hf HQ; [destruct Hinv as [_ (? & _)]; lia|].
  cbn [linear_loop]. pose proof (proj1 (proj2 Hinv)) as Hi. apply wp_bind. eapply step_next; [exact Hinv|]. intros it' Hinv'.
  assert (forall j, (j < S i)%nat -> kcmp (shown j) t = Lt) as Hbefore by (intros j Hj; apply (before_lt t i); [lia|done]).
  apply wp_bind. eapply Valid_ok; [exact Hinv'|]. destruct (decide (S i < n)%nat) as [Hn|Hn].
  - rewrite pos_lt in Hinv' |- * by done. cbn [negb is_Some bool_decide decide is_Some_dec]. pose proof Hinv' as [_ (_ & Hat & _)]. destruct Hat as (Hc & Hk & _).
    apply wp_bind, wp_gets, wp_bind. eapply CompareCurrentKey_ok; [done|done|exact Hk|].
    assert (kcmp (shown (S i)) t <> Lt -> Q tt it') as Hstop by (intros Hne; apply (HQ (S i)); [by apply lower_here|by rewrite pos_lt]).
    destruct (Z.eqb_spec (current_ it') max_offset) as [E|E].
    + rewrite (Hmax (S i) Hn) in Hstop |- * by congruence. apply wp_assert; [done|]. by apply Hstop.
    + destruct (kcmp (shown (S i)) t) eqn:Ec; cbn [bool_decide decide]; [by apply wp_ret, Hstop| |by apply wp_ret, Hstop].
      eapply IH; [exact Hinv'|done|lia|done].
  - assert (S i = n) as En by lia. rewrite En, pos_end in Hinv' |- *. cbn. apply wp_ret. apply (HQ n); [|by rewrite pos_end].
    split_and!; [lia| |lia]. intros j Hj. apply Hbefore. lia.
Qed.

Lemma idx_start j it : (j < num)%nat -> idx_is (Z.of_nat (j * B) - 1) (set_entry_idx (to_signed 32 (wmul 32 (Z.of_nat j) (block_restart_interval_ c)) - 1) it).
Proof.
  intros Hj Hb. cbn. unfold wmul. assert (Z.of_nat j * block_restart_interval_ c = Z.of_nat (j * B)) as -> by (destruct Hb as [->|E]; [lia|replace j with 0%nat by lia; lia]). pose proof (restart_entry _ _ _ _ _ _ L j Hj) as Hr. pose proof (off_count kvs sh n). pose proof (lay_small _ _ _ _ _ _ L).
  rewrite wrap_id by (unfold word; lia). unfold to_signed. change (2 ^ (32 - 1)) with 2147483648. rewrite (proj2 (Z.ltb_lt _ _)) by lia. done.
Qed.

Lemma FindKeyAfterBinarySeek_ok t j skip it (Q : unit -> BlockIter -> Prop) :
  target_ok t -> (0 < n)%nat -> (j < num)%nat -> steady it ->
  (if skip : bool then is_lower t (j * B) else kcmp (shown (j * B)) t = Lt /\ (S j < num -> kcmp (shown (S j * B)) t = Gt)%nat) ->
  (forall i it', is_lower t i -> inv (pos i) it' -> Q tt it') -> wp (FindKeyAfterBinarySeek c t (Z.of_nat j) skip) Q it.
Proof.
  intros Ht Hn Hj Hst Hspec HQ. unfold FindKeyAfterBinarySeek. apply wp_bind, SeekToRestartPoint_ok; [lia|]. rewrite Nat2Z.id. intros it1 Hr Hs.
  pose proof (n_pos_restart (Z.of_nat j) Hn ltac:(lia)) as Hlt. rewrite Nat2Z.id in Hlt.
  apply wp_bind, wp_modify, wp_bind. eapply (NextImpl_ok (j * B)); [lia|done|by apply set_idx_steady, (same_steady it)|by apply idx_start|].
  intros it2 Hinv. destruct skip; cbn [negb]; [by apply wp_ret, (HQ (j * B)%nat)|]. destruct Hspec as [Hlow Hup]. rewrite pos_lt in Hinv by done.
  rewrite (lay_num _ _ _ _ _ _ L). apply wp_bind. pose proof rounds_n. destruct (Z.ltb_spec (Z.of_nat j + 1) (Z.of_nat num)).
  - eapply GetRestartPoint_ok; [exact L|lia|]. replace (Z.to_nat (Z.of_nat j + 1)) with (S j) by lia.
    eapply linear_loop_ok; [done| |exact Hinv|done|lia|done]. intros i Hi E. assert (i = S j * B)%nat as ->; [|apply Hup; lia].
    pose proof (off_lt_iff kvs sh i (S j * B)). pose proof (off_lt_iff kvs sh (S j * B) i). lia.
  - apply wp_ret. eapply linear_loop_ok; [done| |exact Hinv|done|lia|done]. intros i Hi E.
    pose proof (off_bound _ _ _ _ _ _ L i ltac:(lia)). lia.
Qed.

Lemma SeekImpl_ok t p it (Q : unit -> BlockIter -> Prop) :
  target_ok t -> inv p it -> (forall i it', is_lower t i -> inv (pos i) it' -> Q tt it') -> wp (SeekImpl c t) Q it.
Proof.
  intros Ht Hinv HQ. unfold SeekImpl. rewrite (lay_data _ _ _ _ _ _ L). apply wp_bind. destruct (decide (n = 0%nat)) as [E0|Hne].
  - unfold BinarySeek. rewrite (lay_restarts _ _ _ _ _ _ L), E0, off_0. apply wp_ret, wp_ret. apply (HQ 0%nat).
    + split_and!; lia.
    + unfold pos. rewrite decide_False by lia. destruct p as [i|]; [destruct Hinv as [_ (? & _)]; lia|done].
  - apply BinarySeek_ok; [done|lia|]. intros j skip k Hj Hspec. eapply FindKeyAfterBinarySeek_ok; [done|lia|done|apply Hinv|exact Hspec|done].
Qed.

Lemma SeekToFirstImpl_ok it (Q : unit -> BlockIter -> Prop) : steady it -> (forall it', inv (pos 0) it' -> Q tt it') -> wp (SeekToFirstImpl c) Q it.
Proof.
  intros Hst HQ. unfold SeekToFirstImpl. rewrite (lay_data _ _ _ _ _ _ L). pose proof (lay_num_pos _ _ _ _ _ _ L).
  apply wp_bind, SeekToRestartPoint_ok; [lia|]. intros it1 Hr Hs. apply wp_bind. eapply (parse_to 0); [lia|exact Hr|..].
  - intros b it2 Hlt Hat Hs2. apply wp_modify, HQ. rewrite pos_lt by done. split; [by eapply set_idx_steady, same_steady, same_steady|by split_and!].
  - intros it2 E Hc Hs2. apply wp_modify, HQ. rewrite E, pos_end. split; [by eapply set_idx_steady, same_steady, same_steady|done].
Qed.

Lemma last_loop_ok fuel m it (Q : unit -> BlockIter -> Prop) :
  (m < n)%nat -> ready m it -> steady it -> idx_is (Z.of_nat m) it -> (n - m <= fuel)%nat ->
  (forall it', inv (before n) it' -> Q tt it') -> wp (last_loop c fuel) Q it.
Proof.
  revert m it. induction fuel as [|fuel IH]; intros m it Hm Hr Hst Hx Hf HQ; [lia|]. cbn [last_loop]. apply wp_bind. eapply parse_to; [|exact Hr|..]; [lia| |lia].
  intros b it1 _ Hat Hs. apply wp_bind, wp_gets. rewrite (next_offset m) by done. rewrite (lay_restarts _ _ _ _ _ _ L).
  destruct (Z.ltb_spec (off (S m)) (off n)) as [Hlt|Hge].
  - apply off_lt_iff in Hlt. apply wp_bind, wp_modify. eapply (IH (S m)); [done| |by apply set_idx_steady, (same_steady it)| |lia|done].
    + by apply (ready_next m it1).
    + intros Hb. cbn. rewrite (same_idx _ _ _ Hs Hx Hb). lia.
  - assert (n = S m) as E by (pose proof (off_lt_iff kvs sh (S m) n); lia). apply wp_ret, HQ. rewrite E. cbn [before].
    split; [by apply (same_steady it)|]. split_and!; [done|done|by apply (same_idx it)].
Qed.

Lemma SeekToLastImpl_ok it (Q : unit -> BlockIter -> Prop) : steady it -> (forall it', inv (before n) it' -> Q tt it') -> wp (SeekToLastImpl c) Q it.
Proof.
  intros Hst HQ. unfold SeekToLastImpl. rewrite (lay_data _ _ _ _ _ _ L), (lay_num _ _ _ _ _ _ L). pose proof (lay_num_pos _ _ _ _ _ _ L) as Hnum.
  pose proof (lay_small _ _ _ _ _ _ L) as Hsmall. pose proof (off_nonneg kvs sh n). unfold wsub. rewrite wrap_id by (unfold word; lia).
  set (j := (num - 1)%nat). replace (Z.of_nat num - 1) with (Z.of_nat j) by lia.
  apply wp_bind, SeekToRestartPoint_ok; [lia|]. rewrite Nat2Z.id. intros it1 Hr Hs. apply wp_bind, wp_modify.
  assert (steady it1) as Hst1 by (by apply (same_steady it)). pose proof rounds_n as Hrounds. destruct (decide (n = 0%nat)) as [E0|Hne].
  - destruct (rounds c) as [|fuel]; [lia|]. cbn [last_loop]. apply wp_bind.
    assert (j * B = 0)%nat as Ej by (pose proof (restart_entry _ _ _ _ _ _ L j ltac:(lia)); lia). rewrite Ej in Hr.
    eapply (parse_to 0); [lia|exact Hr|lia|]. intros it2 _ Hc Hs2. apply wp_ret, HQ. rewrite E0. split; [|done]. by eapply same_steady; [exact Hs2|].
  - pose proof (n_pos_restart (Z.of_nat j) ltac:(lia) ltac:(lia)) as Hlt. rewrite Nat2Z.id in Hlt.
    eapply (last_loop_ok _ (j * B)); [done|exact Hr|done| |lia|done]. pose proof (idx_start j it1 ltac:(lia)) as Hx. intros Hb. specialize (Hx Hb). cbn in Hx |- *. lia.
Qed.

(** ** Counting *)

(** The keys up to the second restart point. *)
Lemma interval_loop_ok i fuel it (Q : Z -> BlockIter -> Prop) :
  (1 < num)%nat -> (i < B)%nat -> inv (Some i) it -> (B - i <= fuel)%nat ->
  (forall it', steady it' -> Q (Z.of_nat B) it') -> wp (interval_loop c fuel (off B) (Z.of_nat i + 1)) Q it.
Proof.
  intros Hnum. pose proof (restart_entry _ _ _ _ _ _ L 1 Hnum) as HB. pose proof (off_count kvs sh n). pose proof (lay_small _ _ _ _ _ _ L).
  revert i it. induction fuel as [|fuel IH]; intros i it Hi Hinv Hf HQ; [lia|]. cbn [interval_loop]. apply wp_bind, wp_gets. unfold id.
  pose proof Hinv as [Hst (Hin & Hat & _)]. rewrite (next_offset i it Hin Hat), bool_decide_true by apply Hst. rewrite andb_true_r.
  destruct (Z.ltb_spec (off (S i)) (off B)) as [Hlt%off_lt_iff|Hge].
  - apply wp_bind. eapply Valid_ok; [exact Hinv|]. apply wp_bind, wp_assert; [done|]. apply wp_bind. eapply step_next; [exact Hinv|]. intros it' Hinv'.
    rewrite pos_lt in Hinv' by lia. unfold wadd. rewrite wrap_id by (unfold word; lia). replace (Z.of_nat i + 1 + 1) with (Z.of_nat (S i) + 1) by lia.
    eapply IH; [lia|exact Hinv'|lia|done].
  - assert (B = S i) as EB by (pose proof (off_lt_iff kvs sh (S i) B); lia). apply wp_ret. replace (Z.of_nat i + 1) with (Z.of_nat B) by lia. by apply HQ.
Qed.

Lemma GetRestartInterval_ok it (Q : Z -> BlockIter -> Prop) :
  steady it -> (forall it', steady it' -> Q (if (1 <? num)%nat then Z.of_nat B else 0) it') -> wp (GetRestartInterval c) Q it.
Proof.
  intros Hst HQ. unfold GetRestartInterval. rewrite (lay_data _ _ _ _ _ _ L), (lay_num _ _ _ _ _ _ L).
  destruct (Nat.ltb_spec 1 num) as [Hnum|Hnum]; [rewrite (proj2 (Z.leb_gt _ _)) by lia|rewrite (proj2 (Z.leb_le _ _)) by lia; by apply wp_ret, HQ].
  pose proof (restart_entry _ _ _ _ _ _ L 1 Hnum) as HB1. pose proof (lay_B _ _ _ _ _ _ L) as HB. apply wp_bind. eapply SeekToFirstImpl_ok; [done|]. intros it1 Hinv.
  assert (0 < n)%nat by lia. rewrite pos_lt in Hinv by done. apply wp_bind. eapply GetRestartPoint_ok; [exact L|lia|]. replace (Z.to_nat 1 * B)%nat with B by lia.
  pose proof rounds_n. apply (interval_loop_ok 0); [done|done|done|lia|done].
Qed.

(** The keys from entry [i] on, counted by parsing them. *)
Lemma number_loop_ok i fuel count it (Q : Z -> BlockIter -> Prop) :
  (i <= n)%nat -> ready i it -> steady it -> (n - i < fuel)%nat -> 0 <= count -> count + Z.of_nat (n - i) < 2 ^ 32 ->
  (forall it', steady it' -> Q (count + Z.of_nat (n - i)) it') -> wp (number_loop c fuel count) Q it.
Proof.
  revert i count it. induction fuel as [|fuel IH]; intros i count it Hi Hr Hst Hf Hc Hs HQ; [lia|]. cbn [number_loop]. apply wp_bind, wp_gets. unfold id.
  rewrite (proj1 Hr), (lay_restarts _ _ _ _ _ _ L), bool_decide_true by apply Hst. rewrite andb_true_r. destruct (Z.ltb_spec (off i) (off n)) as [Hlt%off_lt_iff|Hge].
  - apply wp_bind. unfold NextImpl. apply wp_bind. eapply (parse_to i); [done|exact Hr| |lia]. intros b it1 _ Hat Hsm. apply wp_modify.
    unfold wadd. rewrite wrap_id by (unfold word; lia). eapply (IH (S i)); [lia|by apply (ready_next i it1)|by apply set_idx_steady, (same_steady it)|lia|lia|lia|].
    intros it' Hst'. replace (count + 1 + Z.of_nat (n - S i)) with (count + Z.of_nat (n - i)) by lia. by apply HQ.
  - assert (i = n) as -> by (pose proof (off_lt_iff kvs sh i n); lia). apply wp_ret. specialize (HQ it Hst). rewrite Nat.sub_diag, Z.add_0_r in HQ. exact HQ.
Qed.

Lemma NumberOfKeys_ok interval it (Q : Z -> BlockIter -> Prop) :
  steady it -> interval = Z.of_nat B \/ num = 1%nat -> (forall it', steady it' -> Q (Z.of_nat n) it') -> wp (NumberOfKeys c interval) Q it.
Proof.
  intros Hst Hint HQ. unfold NumberOfKeys. rewrite (lay_data _ _ _ _ _ _ L), (lay_num _ _ _ _ _ _ L). pose proof (lay_num_pos _ _ _ _ _ _ L) as Hnum.
  pose proof (lay_small _ _ _ _ _ _ L) as Hsmall. pose proof (off_nonneg kvs sh n). pose proof (off_count kvs sh n). rewrite (proj2 (Z.eqb_neq _ _)) by lia.
  set (j := (num - 1)%nat). pose proof (restart_entry _ _ _ _ _ _ L j ltac:(lia)) as Hj. unfold wsub. rewrite wrap_id by (unfold word; lia). replace (Z.of_nat num - 1) with (Z.of_nat j) by lia.
  assert (wmul 32 (Z.of_nat j) interval = Z.of_nat (j * B)) as ->.
  { unfold wmul. assert (Z.of_nat j * interval = Z.of_nat (j * B)) as -> by (destruct Hint as [->|E]; [lia|replace j with 0%nat by lia; lia]). apply wrap_id. unfold word. lia. }
  apply wp_bind, SeekToRestartPoint_ok; [lia|]. rewrite Nat2Z.id. intros it1 Hr Hs. pose proof rounds_n.
  eapply (number_loop_ok (j * B)); [done|done|by apply (same_steady it)|lia|lia|lia|]. intros it' Hst'. replace (Z.of_nat (j * B) + Z.of_nat (n - j * B)) with (Z.of_nat n) by lia. by apply HQ.
Qed.

(** The last entry that is not behind the target, whose lower bound is [i]. *)
Definition floor (t : list Z) (i : nat) : option nat :=
  if decide (i < n)%nat then match kcmp (shown i) t with Eq => Some i | _ => before i end else before i.

Lemma back_loop_ok t i fuel it (Q : unit -> BlockIter -> Prop) :
  target_ok t -> is_lower t i -> inv (Some i) it -> (2 <= fuel)%nat -> (forall it', inv (floor t i) it' -> Q tt it') -> wp (back_loop c fuel t) Q it.
Proof.
  intros Ht (_ & Hlow & Hup) Hinv Hf HQ. destruct fuel as [|[|fuel]]; [lia..|]. cbn [back_loop]. apply wp_bind. eapply Valid_ok; [exact Hinv|].
  cbn [negb is_Some bool_decide decide is_Some_dec]. pose proof Hinv as [_ (Hi & (_ & Hk & _) & _)]. apply wp_bind. eapply CompareCurrentKey_ok; [done|done|exact Hk|].
  unfold floor in HQ. rewrite decide_True in HQ by done. destruct (kcmp (shown i) t) eqn:E; cbn [bool_decide decide].
  - by apply wp_ret, HQ.
  - exfalso. by apply (Hup i); [lia|].
  - apply wp_bind. eapply step_back; [exact Hinv|]. intros it' Hinv'. apply wp_bind. eapply Valid_ok; [exact Hinv'|].
    destruct i as [|i]; cbn [before] in *; cbn [negb is_Some bool_decide decide is_Some_dec]; [by apply wp_ret, HQ|].
    pose proof Hinv' as [_ (Hi' & (_ & Hk' & _) & _)]. apply wp_bind. eapply CompareCurrentKey_ok; [done|done|exact Hk'|]. rewrite (Hlow i) by lia.
    by apply wp_ret, HQ.
Qed.

Lemma SeekForPrevImpl_ok t p it (Q : unit -> BlockIter -> Prop) :
  target_ok t -> inv p it -> (forall i it', is_lower t i -> inv (floor t i) it' -> Q tt it') -> wp (SeekForPrevImpl c t) Q it.
Proof.
  intros Ht Hinv HQ. unfold SeekForPrevImpl. rewrite (lay_data _ _ _ _ _ _ L). apply wp_bind. destruct (decide (n = 0%nat)) as [E0|Hne].
  - unfold BinarySeek. rewrite (lay_restarts _ _ _ _ _ _ L), E0, off_0. apply wp_ret, wp_ret. apply (HQ 0%nat).
    + split_and!; lia.
    + unfold floor. rewrite decide_False by lia. destruct p as [i|]; [destruct Hinv as [_ (? & _)]; lia|done].
  - apply BinarySeek_ok; [done|lia|]. intros j skip k Hj Hspec. apply wp_bind.
    eapply FindKeyAfterBinarySeek_ok; [done|lia|done|apply Hinv|exact Hspec|]. intros i it1 Hlow Hinv1. apply wp_bind. eapply Valid_ok; [exact Hinv1|].
    specialize (HQ i). pose proof rounds_n. destruct (decide (i < n)%nat) as [Hi|Hi].
    + rewrite pos_lt in * by done. cbn [negb is_Some bool_decide decide is_Some_dec]. eapply back_loop_ok; eauto. lia.
    + assert (i = n) as -> by (destruct Hlow; lia). rewrite pos_end in *. cbn [negb is_Some bool_decide decide is_Some_dec]. apply wp_bind, wp_gets.
      destruct Hinv1 as [Hst1 _]. rewrite (proj1 Hst1). cbn [bool_decide decide]. apply SeekToLastImpl_ok; [done|]. intros it2 Hinv2. apply HQ; [done|].
      unfold floor. by rewrite decide_False by lia.
Qed.

End ops.

(** What users see at a position. *)
Definition view (p : option nat) (it : BlockIter) : Prop := inv p it /\ forall i, p = Some i -> key_ it = shown i.

Lemma UpdateKey_ok p it (Q : unit -> BlockIter -> Prop) : inv p it -> (forall it', view p it' -> Q tt it') -> wp (UpdateKey c) Q it.
Proof.
  intros Hinv HQ. unfold UpdateKey. apply wp_bind. eapply Valid_ok; [exact Hinv|]. destruct p as [i|]; cbn [negb is_Some bool_decide decide is_Some_dec].
  2:{ apply wp_ret, HQ. by split. }
  pose proof Hinv as [_ (Hi & (_ & Hk & _) & _)]. apply wp_bind. eapply GetKey_ok; [exact L|exact Hk|].
  assert (Q tt (set_key (shown i) it)) as Hend by (apply HQ; split; [done|by intros j [= <-]]).
  pose proof (sorted_seqno KS i Hi) as Hseq. pose proof (raw_ikey i Hi) as Hik. unfold shown in Hend. destruct (is_user_key c) eqn:Hu.
  - apply wp_bind, wp_assert; [by apply bool_decide_eq_true_2|]. by apply wp_modify.
  - destruct (global_seqno_ c) as [s|]; [|by apply wp_modify]. specialize (Hik eq_refl). unfold GetUserKey. rewrite Hu. apply wp_bind, wp_bind.
    eapply GetKey_ok; [exact L|exact Hk|]. eapply wp_lift; [by apply ExtractUserKey_ok|]. apply wp_bind. unfold ExtractValueType.
    eapply wp_lift; [by rewrite ExtractInternalKeyFooter_ok|]. apply wp_bind. eapply wp_lift; [|by apply wp_modify].
    unfold SetInternalKey. rewrite seqno_pack by done. cbn [rbind with_seqno]. by rewrite EncodeFixed64_le.
Qed.

Lemma key_ok i it (Q : list Z -> BlockIter -> Prop) : view (Some i) it -> Q (shown i) it -> wp (key c) Q it.
Proof.
  intros [Hinv Hk] HQ. unfold key. apply wp_bind. eapply Valid_ok; [exact Hinv|]. apply wp_bind, wp_assert; [done|]. apply wp_gets. by rewrite (Hk i eq_refl).
Qed.

Lemma value_slice_ok i it (Q : Z * Z -> BlockIter -> Prop) : inv (Some i) it -> Q (voff i, Z.of_nat (length (vl i))) it -> wp (value_slice c) Q it.
Proof.
  intros Hinv HQ. unfold value_slice. apply wp_bind. eapply Valid_ok; [exact Hinv|]. apply wp_bind, wp_assert; [done|]. apply wp_gets.
  destruct Hinv as [_ (_ & (_ & _ & -> & _) & _)]. done.
Qed.

Lemma value_ok i it (Q : list Z -> BlockIter -> Prop) : inv (Some i) it -> Q (vl i) it -> wp (value c) Q it.
Proof.
  intros Hinv HQ. unfold value. apply wp_bind. eapply value_slice_ok; [exact Hinv|]. apply wp_bind. eapply the_data_ok; [exact L|]. eapply wp_lift; [|exact HQ].
  apply (value_bytes _ _ _ _ _ _ L). apply Hinv.
Qed.

End seek.
