(* ===== verification/BlockKinds.v ===== *)
(** * The two kinds of iterators

    [MetaBlockIter] and [DataBlockIter] parse and step back as the shared
    operations expect; the second also keeps the entries it passes on the way
    back, and answers the next steps from them. *)

From S2P Require Import Prelude Words Slice Coding DbFormat BlockHash BlockBuilder Block BlockLayout BlockSeek.

Section kinds.
Context {port : Port} {ucomparator : Comparator}.
Context (c : IterConfig) (kvs : list (list Z * list Z)) (sh : nat -> nat) (B num : nat) (tail : list Z).
Context (L : layout c kvs sh B num tail).

Notation n := (length kvs).
Notation vl := (vl kvs).
Notation off := (off kvs sh).
Notation voff := (voff kvs sh).
Notation raw := (raw c kvs).
Notation bytes := (block_bytes kvs sh B num tail).
Notation raw_is := (raw_is kvs sh B num tail).
Notation at_entry := (at_entry c kvs sh B num tail).
Notation ready := (ready c kvs sh B num tail).
Notation inv := (inv c kvs sh B num tail).
Notation steady := (steady c kvs sh B num tail).
Notation cached_at := (cached_at c kvs sh B num tail).
Notation cache_from := (cache_from c kvs sh B num tail).
Notation idx_is := (idx_is c B num).

(** Before the first entry there is no restart point; otherwise one is found. *)
Lemma prev_restart_loop_ok fuel i it (Q : bool -> BlockIter -> Prop) :
  (i < n)%nat -> 0 <= restart_index_ it < Z.of_nat num -> (Z.to_nat (restart_index_ it) < fuel)%nat ->
  (forall it', i = 0%nat -> current_ it' = restarts_ c -> same it it' -> Q false it') ->
  (forall r, (0 < i)%nat -> 0 <= r < Z.of_nat num -> (Z.to_nat r * B < i)%nat -> Q true (set_restart_index r it)) ->
  wp (prev_restart_loop c fuel (off i)) Q it.
Proof.
  intros Hi. revert it. induction fuel as [|fuel IH]; intros it Hr Hf H0 HQ; [lia|]. cbn [prev_restart_loop]. apply wp_bind, wp_gets, wp_bind.
  eapply GetRestartPoint_ok; [exact L|done|]. destruct (Z.leb_spec (off i) (off (Z.to_nat (restart_index_ it) * B))) as [Hle|Hlt].
  - destruct (Z.eqb_spec (restart_index_ it) 0) as [E|E].
    + rewrite E in Hle. change (Z.to_nat 0 * B)%nat with 0%nat in Hle.
      assert (i = 0)%nat as -> by (pose proof (off_lt_iff kvs sh 0 i); lia).
      apply wp_bind, wp_modify, wp_bind, wp_modify, wp_ret, H0; done.
    + apply wp_bind, wp_modify. apply IH; [cbn; lia..| |].
      * intros it' Hz Hc Hs. by apply H0.
      * intros r Hpos Hr' Hlt. by apply HQ.
  - apply wp_ret. apply off_lt_iff in Hlt. specialize (HQ (restart_index_ it) ltac:(lia) Hr Hlt). by destruct it.
Qed.

(** ** Meta blocks *)

Lemma meta_prev_loop_ok fuel m i it (Q : unit -> BlockIter -> Prop) :
  (m <= i < n)%nat -> ready m it -> (i - m < fuel)%nat ->
  (forall it', at_entry i it' -> same it it' -> Q tt it') -> wp (meta_prev_loop c fuel (off (S i))) Q it.
Proof.
  revert m it. induction fuel as [|fuel IH]; intros m it Hm Hr Hf HQ; [lia|]. cbn [meta_prev_loop]. apply wp_bind.
  eapply (ParseNextKey_ok _ _ _ _ _ _ L _ m); [exact CheckAndDecodeEntry_parses|lia|exact Hr|]. intros b it1 Hat Hs.
  apply wp_bind, wp_gets. rewrite (next_offset _ _ _ _ _ _ L m it1) by (done || lia). destruct (Z.ltb_spec (off (S m)) (off (S i))) as [Hlt|Hge].
  - apply off_lt_iff in Hlt. eapply (IH (S m)); [lia|eapply ready_next; [exact L|lia|done]|lia|]. intros it2 Hat2 Hs2. apply HQ; [done|].
    unfold same in *. intuition congruence.
  - assert (m = i) as -> by (pose proof (off_lt_iff kvs sh (S m) (S i)); lia). by apply wp_ret, HQ.
Qed.

Lemma Meta_PrevImpl_ok i it (Q : unit -> BlockIter -> Prop) :
  inv (Some i) it -> (forall it', inv (before i) it' -> Q tt it') -> wp (Meta_PrevImpl c) Q it.
Proof.
  intros Hinv HQ. unfold Meta_PrevImpl. apply wp_bind. eapply Valid_ok; [exact L|exact Hinv|]. apply wp_bind, wp_assert; [done|]. apply wp_bind, wp_gets.
  destruct Hinv as [Hst (Hi & (Hc & _ & _ & Hr) & Hx)]. rewrite Hc, (lay_num _ _ _ _ _ _ L). apply wp_bind. eapply prev_restart_loop_ok; [done|done|lia|..].
  - intros it' -> Hc' Hs. apply wp_ret, HQ. split; [by eapply same_steady|done].
  - intros r Hpos Hr' Hlt. apply wp_bind, wp_gets, wp_bind. eapply SeekToRestartPoint_ok; [exact L|exact Hr'|]. intros it1 Hrdy Hs.
    destruct i as [|i]; [lia|]. apply wp_bind. pose proof (rounds_n _ _ _ _ _ _ L). eapply meta_prev_loop_ok; [|exact Hrdy|lia|]; [cbn; lia|].
    intros it2 Hat Hs2. apply wp_modify, HQ. cbn [before]. split.
    + eapply set_idx_steady, same_steady; [exact Hs2|]. eapply same_steady; [exact Hs|done].
    + split_and!; [lia|exact Hat|]. intros Hb. cbn. rewrite (same_idx _ _ _ _ _ _ Hs2 (same_idx _ _ _ _ _ _ Hs Hx) Hb). lia.
Qed.

#[export] Instance meta_kind_ok : KindOk c kvs sh B num tail (MetaBlockIter c).
Proof.
  split.
  - intros i it Q Hi Hr HQ. eapply ParseNextKey_ok; [exact L|exact CheckAndDecodeEntry_parses|done|exact Hr|exact HQ].
  - intros it Q Hoff HQ. eapply ParseNextKey_end; [exact L|exact Hoff|]. by apply HQ.
  - exact Meta_PrevImpl_ok.
Qed.

(** ** Data blocks *)

(** Files with a sequence number of their own: what their keys must be. *)
Definition ingested_key (k : list Z) : Prop :=
  Z.shiftr (footer k) 8 = 0 /\
  In (Z.land (footer k) 0xff) [kTypeValue; kTypeMerge; kTypeDeletion; kTypeDeletionWithTimestamp; kTypeRangeDeletion; kTypeWideColumnEntity].
Definition ingested : Prop := is_Some (global_seqno_ c) -> is_user_key c = false /\ forall i, (i < n)%nat -> ingested_key (raw i).
Context (I : ingested).

Lemma ParseNextDataKey_ok i it (Q : option bool -> BlockIter -> Prop) :
  (i < n)%nat -> ready i it -> (forall b it', at_entry i it' -> same it it' -> Q (Some b) it') -> wp (ParseNextDataKey c) Q it.
Proof.
  intros Hi Hr HQ. unfold ParseNextDataKey. apply wp_bind. eapply ParseNextKey_ok; [exact L|exact DecodeEntry_parses|done|exact Hr|]. intros b it' Hat Hs.
  unfold ingested in I. destruct (global_seqno_ c) as [g|]; [|by apply wp_ret, HQ]. destruct (I ltac:(by eexists)) as [Hu Hkeys]. specialize (Hkeys i Hi) as [Hz Ht].
  apply wp_bind. eapply GetKey_ok; [exact L|apply Hat|]. apply wp_bind. eapply wp_lift; [apply ExtractInternalKeyFooter_ok; by eapply raw_ikey|].
  unfold UnPackSequenceAndType. apply wp_bind, wp_assert.
  { destruct Ht as [<-|[<-|[<-|[<-|[<-|[<-|[]]]]]]]; done. }
  apply wp_bind, wp_assert; [by rewrite Hz|]. by apply wp_ret, HQ.
Qed.

Lemma ParseNextDataKey_end it (Q : option bool -> BlockIter -> Prop) :
  NextEntryOffset it = off n -> (forall it', current_ it' = restarts_ c -> same it it' -> Q None it') -> wp (ParseNextDataKey c) Q it.
Proof.
  intros Hoff HQ. unfold ParseNextDataKey. apply wp_bind. eapply ParseNextKey_end; [exact L|exact Hoff|]. by apply wp_ret, HQ.
Qed.

Lemma slice_at_app_l a b o s k : slice_at a o s = Ok k -> slice_at (a ++ b) o s = Ok k.
Proof.
  unfold slice_at. destruct ((0 <=? o) && (0 <=? s)) eqn:E; [|done]. apply andb_prop in E as [E1 E2]. apply Z.leb_le in E1, E2. cbn [andb].
  destruct (Z.leb_spec (o + s) (Z.of_nat (length a))); [|done]. rewrite (proj2 (Z.leb_le _ _)) by (rewrite length_app; lia).
  intros [= <-]. rewrite drop_app_le, take_app_le by (rewrite ?length_drop; lia). done.
Qed.

Lemma cached_at_app i a b e : cached_at i a e -> cached_at i (a ++ b) e.
Proof. intros (Hi & Ho & Hv & Hk). split_and!; try done. destruct (key_ptr e); [done|]. by apply slice_at_app_l. Qed.

(** The scan extends the cache by the entries it passes. *)
Lemma data_prev_loop_ok fuel b m i it (Q : unit -> BlockIter -> Prop) :
  (b <= m)%nat -> (m <= i < n)%nat -> ready m it -> status_ it = StatusOK -> (i - m < fuel)%nat ->
  cache_from b (prev_entries_keys_buff_ it) (prev_entries_ it) -> length (prev_entries_ it) = (m - b)%nat ->
  (forall it', at_entry i it' -> status_ it' = StatusOK -> cur_entry_idx_ it' = cur_entry_idx_ it ->
     cache_from b (prev_entries_keys_buff_ it') (prev_entries_ it') -> length (prev_entries_ it') = (S i - b)%nat -> Q tt it') ->
  wp (data_prev_loop c fuel (off (S i))) Q it.
Proof.
  revert m it. induction fuel as [|fuel IH]; intros m it Hbm Hm Hr Hst Hf Hc Hl HQ; [lia|]. cbn [data_prev_loop]. apply wp_bind.
  apply (ParseNextDataKey_ok m); [lia|done|]. intros bb it1 Hat (Es & _ & Ei & Eb & Ee & Ex). rewrite <- Eb, <- Ee in Hc. rewrite <- Ee in Hl.
  apply wp_bind, wp_gets. unfold id. apply wp_bind. eapply GetKey_ok; [exact L|apply Hat|]. apply wp_bind. unfold value_slice, Valid.
  pose proof Hat as (Hcur & Hk & Hv & _). apply wp_bind, wp_bind, wp_gets. unfold id. apply wp_bind, wp_assert; [by rewrite Es, Hst|]. apply wp_ret.
  rewrite Hcur, (lay_restarts _ _ _ _ _ _ L). rewrite (proj2 (Z.ltb_lt _ _)) by (apply off_lt_iff; lia). apply wp_bind, wp_assert; [done|]. apply wp_gets. rewrite Hv.
  apply wp_bind, wp_modify. set (it2 := match raw_key_ it1 with Pinned _ _ => _ | Owned _ => _ end it1).
  assert (at_entry m it2 /\ status_ it2 = StatusOK /\ cur_entry_idx_ it2 = cur_entry_idx_ it /\
          cache_from b (prev_entries_keys_buff_ it2) (prev_entries_ it2) /\ length (prev_entries_ it2) = (S m - b)%nat) as (Hat2 & Hst2 & Hx2 & Hc2 & Hl2).
  { pose proof (raw_is_size _ _ _ _ _ _ _ Hk) as Hsize. unfold it2. rewrite <- Ei.
    destruct (raw_key_ it1) as [ptr size|bs] eqn:Eraw; cbn -[Z.of_nat]; rewrite length_app, Hl; (split_and!; [|congruence|done| |cbn; lia]).
    - exact Hat.
    - intros j e Hj. apply lookup_app_Some in Hj as [Hj|[Hj He]]; [by apply Hc|]. apply list_lookup_singleton_Some in He as [Hz <-].
      replace (b + j)%nat with m by lia. cbn in Hsize. subst size. split_and!; [lia|done|done|exact Hk].
    - exact Hat.
    - cbn in Hk. subst bs. intros j e Hj. apply lookup_app_Some in Hj as [Hj|[Hj He]]; [by apply cached_at_app, Hc|]. apply list_lookup_singleton_Some in He as [Hz <-].
      replace (b + j)%nat with m by lia. split_and!; [lia|done|done|]. cbn [key_ptr key_offset key_size]. rewrite <- (app_nil_r (raw m)) at 1. apply slice_at_mid. }
  clearbody it2. apply wp_bind, wp_gets. rewrite (next_offset _ _ _ _ _ _ L m it2) by (done || lia). destruct (Z.ltb_spec (off (S m)) (off (S i))) as [Hlt|Hge].
  - apply off_lt_iff in Hlt. eapply (IH (S m)); [lia|lia|eapply ready_next; [exact L|lia|done]|done|lia|done|done|]. rewrite Hx2. exact HQ.
  - assert (m = i) as -> by (pose proof (off_lt_iff kvs sh (S m) (S i)); lia). by apply wp_ret, HQ.
Qed.

Lemma Data_PrevImpl_ok i it (Q : unit -> BlockIter -> Prop) :
  inv (Some i) it -> (forall it', inv (before i) it' -> Q tt it') -> wp (Data_PrevImpl c) Q it.
Proof.
  intros Hinv HQ. unfold Data_PrevImpl. apply wp_bind. eapply Valid_ok; [exact L|exact Hinv|]. apply wp_bind, wp_assert; [done|]. apply wp_bind, wp_gets. unfold id.
  destruct Hinv as [[Hst [[b Hc] Hidx]] (Hi & (Hcur & _ & _ & Hr) & Hx)].
  apply wp_bind, wp_assert.
  { destruct Hidx as [->|[H1 H2]]; [done|]. apply Z.leb_le in H1. apply Z.ltb_lt in H2. by rewrite H1, H2, orb_true_r. }
  apply wp_bind, wp_modify. set (it1 := set_entry_idx _ it). apply wp_bind.
  assert (wp (if 0 <? prev_entries_idx_ it then e <- lift (rd (prev_entries_ it) (Z.of_nat (length (prev_entries_ it))) (prev_entries_idx_ it)) ;; ret (offset e =? current_ it) else ret false)
    (fun r s => s = it1 /\ (r = true -> exists j e, i = S j /\ 0 < prev_entries_idx_ it /\ prev_entries_ it !! Z.to_nat (prev_entries_idx_ it - 1) = Some e /\ cached_at j (prev_entries_keys_buff_ it) e)) it1) as Htest.
  { destruct (Z.ltb_spec 0 (prev_entries_idx_ it)); [|by apply wp_ret]. destruct Hidx as [?|[_ H2]]; [lia|]. apply wp_bind.
    destruct (lookup_lt_is_Some_2 (prev_entries_ it) (Z.to_nat (prev_entries_idx_ it)) ltac:(lia)) as [e He].
    eapply wp_lift; [apply rd_ok; [lia|exact He]|]. apply wp_ret. split; [done|]. rewrite Z.eqb_eq, Hcur. intros Eo.
    destruct (Hc _ _ He) as (Hb & Eo' & _). destruct (lookup_lt_is_Some_2 (prev_entries_ it) (Z.to_nat (prev_entries_idx_ it - 1)) ltac:(lia)) as [e' He'].
    pose proof (Hc _ _ He') as Hc'. rewrite Eo' in Eo. pose proof (off_lt_iff kvs sh (b + Z.to_nat (prev_entries_idx_ it)) i).
    pose proof (off_lt_iff kvs sh i (b + Z.to_nat (prev_entries_idx_ it))). eexists (b + Z.to_nat (prev_entries_idx_ it - 1))%nat, e'. split_and!; [lia|lia|done|done]. }
  eapply wp_mono; [exact Htest|]. intros [] s [-> Hhit].
  - destruct (Hhit eq_refl) as (j & e & -> & Hpos & He & (Hj & Eo & Ev & Hk)). cbv zeta. apply wp_bind, wp_modify, wp_bind.
    destruct Hidx as [?|[_ H2]]; [lia|]. eapply wp_lift; [apply rd_ok; [lia|exact He]|]. apply wp_bind, wp_modify. rewrite Eo. apply wp_bind.
    assert (forall k, raw_is k (raw j) -> wp (modify (set_value (cached_value e))) Q (set_raw_key k (set_current (off j) (set_cache (prev_entries_keys_buff_ it) (prev_entries_ it) (prev_entries_idx_ it - 1) it1)))) as Hend.
    { intros k Hraw. apply wp_modify, HQ. rewrite Ev. cbn [before]. split; [split; [done|split; [by exists b|right; cbn; lia]]|].
      split_and!; [done|by repeat split; try apply Hr|]. intros Hb. cbn. rewrite (Hx Hb). lia. }
    destruct (key_ptr e) as [ptr|]; [by apply wp_modify, Hend|]. apply wp_bind. eapply wp_lift; [exact Hk|]. by apply wp_modify, Hend.
  - apply wp_bind, wp_modify, wp_bind, wp_gets. cbn [set_cache it1 set_entry_idx current_]. rewrite Hcur, (lay_num _ _ _ _ _ _ L). apply wp_bind.
    eapply prev_restart_loop_ok; [done|exact Hr|cbn; lia|..].
    + intros it' -> Hc' (Es & _ & _ & Eb & Ee & Ex). apply wp_ret, HQ. split; [|done]. split; [by rewrite Es|]. split; [|left; by rewrite Ex].
      exists 0%nat. rewrite Ee. intros m e Hm. done.
    + intros r Hpos Hr' Hlt. apply wp_bind, wp_gets, wp_bind. eapply SeekToRestartPoint_ok; [exact L|exact Hr'|]. intros it2 Hrdy (Es & _ & Ei & Eb & Ee & Ex).
      destruct i as [|i]; [lia|]. apply wp_bind. pose proof (rounds_n _ _ _ _ _ _ L).
      eapply (data_prev_loop_ok _ (Z.to_nat r * B) (Z.to_nat r * B)); [lia|cbn; lia|exact Hrdy|by rewrite Es|lia|by rewrite Ee|by rewrite Ee, Nat.sub_diag|].
      intros it3 Hat Hst3 Hx3 Hc3 Hl3. apply wp_modify, HQ. cbn [before]. split.
      * split; [done|]. split; [by eexists|right; cbn; lia].
      * split_and!; [lia|exact Hat|]. intros Hb. cbn. rewrite Hx3, Ei. cbn. rewrite (Hx Hb). lia.
Qed.

#[export] Instance data_kind_ok : KindOk c kvs sh B num tail (DataBlockIter c).
Proof. split; [exact ParseNextDataKey_ok|exact ParseNextDataKey_end|exact Data_PrevImpl_ok]. Qed.

End kinds.
