(* ===== verification/BlockBuild.v ===== *)
(** * What the builder builds

    The bytes [BlockBuilder] returns are the entries, the restart points and the
    footer of a well-formed block, whether its keys come through [Add] or
    [AddWithLastKey]; its size estimate is exact. *)

From Stdlib Require Import SpecFloat.
From S2P Require Import Prelude Words Slice Coding DbFormat BlockHash BlockBuilder BlockLayout.

(** ** Shared prefixes *)

Lemma difference_offset_prefix a b :
  (difference_offset a b <= length a)%nat /\ (difference_offset a b <= length b)%nat /\
  take (difference_offset a b) a = take (difference_offset a b) b.
Proof.
  destruct (difference_split a b) as (p & a' & b' & -> & -> & -> & _). rewrite !length_app, !take_app_length. split_and!; [lia|lia|done].
Qed.

Lemma difference_offset_nil a : difference_offset a [] = 0%nat.
Proof. by destruct a. Qed.

(** How much of key [i] the builder leaves out. *)
Definition share (delta : bool) (B : nat) (skvs : list (list Z * list Z)) (i : nat) : nat :=
  if (i mod B =? 0)%nat then 0%nat
  else if delta then difference_offset (sk skvs i) (sk skvs (i - 1)) else 0%nat.

(** The number of restart points of [n] entries. *)
Definition nrestarts (B n : nat) : nat := match n with O => 1%nat | S m => S (m / B) end.

Section share.
Context (delta : bool) (B : nat).
Notation share := (share delta B).

Lemma sk_app l x i : (i < length l)%nat -> sk (l ++ [x]) i = sk l i.
Proof. intros Hi. unfold sk. by rewrite lookup_app_l. Qed.

Lemma vl_app l x i : (i < length l)%nat -> vl (l ++ [x]) i = vl l i.
Proof. intros Hi. unfold vl. by rewrite lookup_app_l. Qed.

Lemma sk_last l k v : sk (l ++ [(k, v)]) (length l) = k.
Proof. unfold sk. by rewrite list_lookup_middle. Qed.

Lemma vl_last l k v : vl (l ++ [(k, v)]) (length l) = v.
Proof. unfold vl. by rewrite list_lookup_middle. Qed.

Lemma share_app l x i : (i < length l)%nat -> share (l ++ [x]) i = share l i.
Proof. intros Hi. unfold BlockBuild.share. by rewrite !sk_app by lia. Qed.

Lemma ents_app l x i : (i <= length l)%nat -> ents (l ++ [x]) (share (l ++ [x])) i = ents l (share l) i.
Proof.
  induction i as [|i IH]; intros Hi; [done|]. rewrite !ents_S, IH by lia. f_equal. unfold entry_at.
  by rewrite share_app, sk_app, vl_app by lia.
Qed.

Lemma off_app l x i : (i <= length l)%nat -> off (l ++ [x]) (share (l ++ [x])) i = off l (share l) i.
Proof. intros Hi. unfold off. by rewrite ents_app. Qed.

Lemma share_le l i : (share l i <= length (sk l i))%nat.
Proof. unfold BlockBuild.share. destruct (_ =? _)%nat; [lia|]. destruct delta; [apply difference_offset_prefix|lia]. Qed.

Lemma share_prev l i : (share l (S i) <= length (sk l i))%nat /\ take (share l (S i)) (sk l (S i)) = take (share l (S i)) (sk l i).
Proof.
  unfold BlockBuild.share. destruct (_ =? _)%nat; [split; [lia|done]|]. destruct delta; [|split; [lia|done]]. cbn [Nat.sub]. rewrite Nat.sub_0_r.
  pose proof (difference_offset_prefix (sk l (S i)) (sk l i)). tauto.
Qed.

Lemma share_whole l j : share l (j * B) = 0%nat.
Proof. unfold BlockBuild.share. by rewrite Nat.Div0.mod_mul. Qed.

Lemma stored_length l i : (i < length l)%nat -> Z.of_nat (length (sk l i)) <= off l (share l) (S i).
Proof.
  induction i as [|i IH]; intros Hi; rewrite off_S; unfold entry_at, entry; rewrite !length_app, length_drop.
  - assert (share l 0 = 0%nat) as -> by apply (share_whole l 0). rewrite off_0. lia.
  - specialize (IH ltac:(lia)). destruct (share_prev l i) as [Hs _]. lia.
Qed.

Context (HB : (0 < B)%nat).

Lemma nrestarts_mul n : (0 < n)%nat -> ((nrestarts B n - 1) * B < n)%nat.
Proof.
  destruct n as [|m]; [lia|]. intros _. cbn [nrestarts]. replace (S (m / B) - 1)%nat with (m / B)%nat by lia. pose proof (Nat.Div0.mul_div_le m B). lia.
Qed.

Lemma nrestarts_cover n : (n <= nrestarts B n * B)%nat.
Proof. destruct n as [|m]; [lia|]. cbn [nrestarts]. pose proof (Nat.mul_succ_div_gt m B ltac:(lia)). lia. Qed.

Lemma nrestarts_pos n : (0 < nrestarts B n)%nat.
Proof. destruct n; simpl; lia. Qed.

(** A restart point starts with entry [n] just when the interval before is full. *)
Lemma nrestarts_S n : nrestarts B (S n) = if decide (n = nrestarts B n * B)%nat then S (nrestarts B n) else nrestarts B n.
Proof.
  destruct n as [|m].
  - rewrite decide_False by (cbn; lia). cbn. by rewrite Nat.Div0.div_0_l.
  - cbn [nrestarts]. pose proof (Nat.Div0.mul_div_le m B). pose proof (Nat.mul_succ_div_gt m B ltac:(lia)). case_decide as E.
    + f_equal. rewrite E. apply Nat.div_mul. lia.
    + f_equal. symmetry. apply (Nat.div_unique _ _ _ (S m - B * (m / B))); lia.
Qed.

Lemma mod_restart n : (n mod B =? 0)%nat = bool_decide (n = 0%nat \/ n = nrestarts B n * B)%nat.
Proof.
  destruct (Nat.eqb_spec (n mod B) 0) as [E|E]; symmetry; [apply bool_decide_eq_true_2|apply bool_decide_eq_false_2].
  - destruct n as [|m]; [by left|right]. cbn [nrestarts]. pose proof (Nat.Div0.div_exact (S m) B) as [_ H]. specialize (H E).
    set (q := (S m / B)%nat) in *. assert (m / B = q - 1)%nat as ->; [|destruct q; lia].
    destruct q as [|q]; [lia|]. symmetry. apply (Nat.div_unique _ _ _ (B - 1)); lia.
  - intros [->|H]; [by rewrite Nat.Div0.mod_0_l in E|]. rewrite H, Nat.Div0.mod_mul in E. done.
Qed.

End share.

(** ** The state of the builder *)

Section hash.
Context {port : Port}.

Lemma hash_loop_total h data : exists x, hash_loop h data = Ok x.
Proof.
  assert (forall m data h, (length data <= m)%nat -> exists x, hash_loop h data = Ok x) as H; [|by eapply H].
  intros m. induction m as [|m IH]; intros l g Hl; (destruct l as [|a [|b [|e [|f l]]]]; [by eexists..|]); [simpl in Hl; lia|].
  cbn [hash_loop]. assert (exists w, DecodeFixed32 (a :: b :: e :: f :: l) = Ok w) as [w ->] by (unfold DecodeFixed32; destruct kLittleEndian; by eexists).
  cbn [rbind]. apply IH. simpl in Hl. lia.
Qed.

(** [GetSliceHash] never fails. *)
Definition slice_hash (u : list Z) : Z := match GetSliceHash u with Ok h => h | Err _ => 0 end.

Lemma GetSliceHash_ok u : GetSliceHash u = Ok (slice_hash u).
Proof. unfold slice_hash, GetSliceHash, Hash. destruct (hash_loop_total (wrap 32 (Z.lxor 397 (wmul 64 (Z.of_nat (length u)) hash_m))) u) as [x E]. by rewrite E. Qed.

(** The pairs and the size estimate after the keys [us]. *)
Definition hash_pairs (B : nat) (us : list (list Z)) : list (Z * Z) := imap (fun i u => (slice_hash u, Z.of_nat (i / B))) us.
Definition hash_estimate (bpk : spec_float) (n : nat) : spec_float := Nat.iter n (fun x => f_add x bpk) f_zero.

Definition hashed (B : nat) (bpk : spec_float) (us : list (list Z)) (h : DataBlockHashIndexBuilder) : Prop :=
  bucket_per_key_ h = bpk /\
  (hb_Valid h = true ->
     hash_and_restart_pairs_ h = hash_pairs B us /\ estimated_num_buckets_ h = hash_estimate bpk (length us) /\
     Z.of_nat (nrestarts B (length us)) <= kMaxRestartSupportedByHashIndex + 1).

Lemma hb_Add_ok B bpk us h u : (0 < B)%nat -> hashed B bpk us h -> hb_Valid h = true ->
  exists h', hb_Add u (Z.of_nat (nrestarts B (S (length us))) - 1) h = Ok h' /\ hashed B bpk (us ++ [u]) h'.
Proof.
  intros HB [Hb Hv] Hval. destruct (Hv Hval) as (Hp & He & Hn). unfold hb_Add. rewrite Hval. cbn [nrestarts].
  replace (Z.of_nat (S (length us / B)) - 1) with (Z.of_nat (length us / B)) by lia. unfold kMaxRestartSupportedByHashIndex in *.
  destruct (Z.ltb_spec 253 (Z.of_nat (length us / B))).
  - eexists. split; [done|]. split; [done|]. unfold hb_Valid. done.
  - rewrite GetSliceHash_ok. cbn [rbind]. eexists. split; [done|]. split; [done|]. intros _. cbn [hash_and_restart_pairs_ estimated_num_buckets_]. split_and!.
    + rewrite Hp. unfold hash_pairs. rewrite imap_app. cbn [imap]. rewrite Nat.add_0_r, wrap_id; [done|]. unfold word. change (2 ^ 8) with 256. lia.
    + rewrite He, Hb, length_app, Nat.add_1_r. done.
    + rewrite length_app, Nat.add_1_r. cbn [nrestarts]. unfold kMaxRestartSupportedByHashIndex. lia.
Qed.

End hash.

(** ** The table of the hash index *)

(** Every pair is in its bucket, or the bucket is marked; nothing else is. *)
Definition in_table (nb : Z) (buckets : list Z) (e : Z * Z) : Prop :=
  buckets !! Z.to_nat (fst e mod nb) = Some (snd e) \/ buckets !! Z.to_nat (fst e mod nb) = Some kCollision.

Definition from_pairs (pairs : list (Z * Z)) (x : Z) : Prop := x = kNoEntry \/ x = kCollision \/ Exists (fun e => snd e = x) pairs.
Definition table_ok (nb : Z) (buckets : list Z) (pairs : list (Z * Z)) : Prop :=
  Z.of_nat (length buckets) = nb /\ Forall (from_pairs pairs) buckets /\ Forall (in_table nb buckets) pairs.

Lemma from_pairs_app pairs e x : from_pairs pairs x -> from_pairs (pairs ++ [e]) x.
Proof. intros [H|[H|H]]; [by left|right; by left|right; right]. apply Exists_app. by left. Qed.

Lemma place_ok nb buckets pairs e :
  0 < nb < 65536 -> 0 <= snd e <= kMaxRestartSupportedByHashIndex -> Forall (fun e => snd e <> kNoEntry) pairs -> table_ok nb buckets pairs ->
  exists buckets', place nb buckets e = Ok buckets' /\ table_ok nb buckets' (pairs ++ [e]).
Proof.
  intros Hnb He Hps (Hl & Hb & Hp). destruct e as [h r]. cbn [fst snd] in *. unfold kMaxRestartSupportedByHashIndex in He. unfold place, umod.
  rewrite (proj2 (Z.eqb_neq _ _)) by lia. cbn [rbind]. pose proof (Z.mod_pos_bound h nb ltac:(lia)) as Hm. rewrite wrap_id by (unfold word; change (2 ^ 16) with 65536; lia).
  set (i := Z.to_nat (h mod nb)). destruct (lookup_lt_is_Some_2 buckets i ltac:(unfold i; lia)) as [x Hx]. rewrite (rd_ok _ _ _ x) by (done || lia). cbn [rbind].
  assert (forall y, y = r \/ y = kCollision -> (x = kNoEntry \/ y = kCollision) ->
    wr buckets nb (h mod nb) y = Ok (<[i := y]> buckets) /\ table_ok nb (<[i := y]> buckets) (pairs ++ [(h, r)])) as Hset.
  { intros y Hyr Hcase. split; [apply wr_ok; [lia|unfold i in *; lia]|]. split_and!; [by rewrite length_insert| |].
    { apply Forall_insert; [eapply Forall_impl; [exact Hb|]; intros z; apply from_pairs_app|]. right. destruct Hyr as [->| ->]; [right; apply Exists_app; right; by left|by left]. }
    apply Forall_app. split.
    - rewrite Forall_forall in Hp, Hps |- *. intros e He'. specialize (Hp e He'). specialize (Hps e He'). unfold in_table in *.
      destruct (decide (Z.to_nat (fst e mod nb) = i)) as [E|E]; [|by rewrite list_lookup_insert_ne]. rewrite E in *. rewrite list_lookup_insert_eq by (unfold i; lia).
      destruct Hcase as [->| ->]; [|by right]. rewrite Hx in Hp. destruct Hp as [[= Hp]|[= Hp]]; by destruct Hps.
    - constructor; [|done]. unfold in_table. cbn [fst snd]. fold i. rewrite list_lookup_insert_eq by (unfold i; lia). destruct Hyr as [->| ->]; auto. }
  destruct (Z.eqb_spec x kNoEntry) as [Ex|Ex].
  - destruct (Hset r (or_introl eq_refl) (or_introl Ex)). eauto.
  - destruct (Z.eqb_spec x r) as [->|Exr]; cbn [negb].
    + eexists. split; [done|]. split_and!; [done|eapply Forall_impl; [exact Hb|]; intros z; apply from_pairs_app|]. apply Forall_app. split; [done|]. constructor; [by left|done].
    + destruct (Hset kCollision (or_intror eq_refl) (or_intror eq_refl)). eauto.
Qed.

Lemma place_all_ok nb buckets pre pairs :
  0 < nb < 65536 -> Forall (fun e => 0 <= snd e <= kMaxRestartSupportedByHashIndex) (pre ++ pairs) -> table_ok nb buckets pre ->
  exists buckets', place_all nb buckets pairs = Ok buckets' /\ table_ok nb buckets' (pre ++ pairs).
Proof.
  intros Hnb. revert pre buckets. induction pairs as [|e pairs IH]; intros pre buckets Hf Ht; cbn [place_all]; [rewrite app_nil_r; eauto|].
  pose proof Hf as Hf'. apply Forall_app in Hf' as [Hpre He]. apply Forall_cons in He as [He _].
  destruct (place_ok nb buckets pre e Hnb He) as (bk & E & Ht'); [|done|].
  { eapply Forall_impl; [exact Hpre|]. unfold kMaxRestartSupportedByHashIndex, kNoEntry. cbn. lia. }
  rewrite E. cbn [rbind]. replace (pre ++ e :: pairs) with ((pre ++ [e]) ++ pairs) in * by (by rewrite <- app_assoc). by apply IH.
Qed.

(** The key as the block stores it. *)
Definition stored (o : BuilderOptions) (k : list Z) : list Z :=
  if (0 <? strip_ts_sz_ o)%nat then
    if is_user_key_ o then take (length k - strip_ts_sz_ o) k else strip_ts (strip_ts_sz_ o) k
  else k.
Definition stored_all (o : BuilderOptions) (kvs : list (list Z * list Z)) : list (list Z * list Z) :=
  map (fun kv => (stored o (fst kv), snd kv)) kvs.

(** Keys that can be added; [hash] says whether there may be a hash index. *)
Definition key_fits (o : BuilderOptions) (hash : bool) (k : list Z) : Prop :=
  Forall byte_ok k /\
  ((if is_user_key_ o then strip_ts_sz_ o else if (0 <? strip_ts_sz_ o)%nat || hash then strip_ts_sz_ o + kNumInternalBytes else 0) <= length k)%nat.

Lemma key_fits_strip o hash k : key_fits o hash k -> (strip_ts_sz_ o <= length k)%nat.
Proof. intros [_ Hl]. destruct (is_user_key_ o), (Nat.ltb_spec 0 (strip_ts_sz_ o)); cbn [orb] in Hl; lia. Qed.

Lemma MaybeStrip_ok o hash k : key_fits o hash k -> MaybeStripTimestampFromKey o k = Ok (stored o k).
Proof.
  intros [_ Hl]. unfold MaybeStripTimestampFromKey, stored. destruct (0 <? strip_ts_sz_ o)%nat; [|done]. destruct (is_user_key_ o).
  - by rewrite (proj2 (Nat.leb_le _ _) Hl).
  - unfold StripTimestampFromInternalKey. by rewrite (proj2 (Nat.leb_le _ _) Hl).
Qed.

Lemma stored_nil o hash k : key_fits o hash k -> length k = 0%nat -> stored o k = k.
Proof. intros Hl%key_fits_strip Hk. unfold stored. destruct (Nat.ltb_spec 0 (strip_ts_sz_ o)); [lia|done]. Qed.

Lemma length_stripped o hash k : key_fits o hash k -> (length k - strip_ts_sz_ o = length (stored o k))%nat.
Proof.
  intros [_ Hl]. unfold stored, strip_ts, footer_part. destruct (Nat.ltb_spec 0 (strip_ts_sz_ o)); [|lia]. destruct (is_user_key_ o); cbn [orb] in Hl.
  - rewrite length_take. lia.
  - rewrite length_app, length_take, length_drop. unfold kNumInternalBytes in *. lia.
Qed.

Section build.
Context {port : Port} (o : BuilderOptions) (hash : bool) (bpk : spec_float).
Notation B := (Z.to_nat (block_restart_interval_ o)).
Notation st := (stored_all o).
Notation sh kvs := (share (use_delta_encoding_ o) B (st kvs)).
Context (HB : 1 <= block_restart_interval_ o) (Hvd : use_value_delta_encoding_ o = false).

Record built (kvs : list (list Z * list Z)) (b : BlockBuilder) : Prop := {
  built_options : options_ b = o;
  built_buffer : buffer_ b = ents (st kvs) (sh kvs) (length kvs);
  built_restarts : restarts_ b = map (fun j => off (st kvs) (sh kvs) (j * B)) (seq 0 (nrestarts B (length kvs)));
  built_estimate : estimate_ b = off (st kvs) (sh kvs) (length kvs) + 4 * Z.of_nat (nrestarts B (length kvs)) + 4;
  built_counter : counter_ b = Z.of_nat (length kvs - (nrestarts B (length kvs) - 1) * B);
  built_open : finished_ b = false;
  built_hash : hashed B bpk (map (fun kv => user_part (fst kv)) kvs) (data_block_hash_index_builder_ b);
  built_valid : hb_Valid (data_block_hash_index_builder_ b) = true -> is_user_key_ o = false /\ hash = true;
  built_called : add_with_last_key_called_ b = false
}.

(** The key before, as the caller or [last_key_] gives it. *)
Definition last_ok (kvs : list (list Z * list Z)) (last : list Z) : Prop :=
  (last = [] /\ (kvs = [] \/ use_delta_encoding_ o = false)) \/ exists l kv, kvs = l ++ [kv] /\ last = fst kv /\ key_fits o hash last.

Lemma length_st kvs : length (st kvs) = length kvs.
Proof. apply length_map. Qed.

Lemma st_app kvs k v : st (kvs ++ [(k, v)]) = st kvs ++ [(stored o k, v)].
Proof. unfold stored_all. by rewrite map_app. Qed.

(** The bytes a key shares, when the interval is not full. *)
Lemma shared_ok kvs k v last :
  last_ok kvs last ->
  exists last_persisted,
    (if (length last =? 0)%nat then Ok last else MaybeStripTimestampFromKey o last) = Ok last_persisted /\
    ((length kvs <> nrestarts B (length kvs) * B)%nat ->
     (if use_delta_encoding_ o then difference_offset (stored o k) last_persisted else 0%nat) = sh (kvs ++ [(k, v)]) (length kvs)).
Proof.
  intros Hlast. unfold share. rewrite st_app, <- (length_st kvs). rewrite sk_last. rewrite mod_restart by lia. rewrite length_st.
  destruct Hlast as [[-> Hd]|(l & [k' v'] & -> & -> & Hfit)].
  - exists []. split; [done|]. intros Hn. destruct Hd as [->| ->]; [|by destruct (bool_decide _)]. cbn. by rewrite difference_offset_nil; destruct (use_delta_encoding_ o).
  - cbn [fst] in *. exists (stored o k'). split.
    + destruct (Nat.eqb_spec (length k') 0); [by rewrite (stored_nil _ hash)|]. by rewrite (MaybeStrip_ok _ hash).
    + intros Hn. rewrite length_app in *. cbn [length] in *. rewrite bool_decide_eq_false_2 by lia. rewrite Nat.add_sub, st_app.
      rewrite sk_app by (rewrite length_app, length_st; cbn; lia). rewrite <- (length_st l), sk_last. done.
Qed.

(** The state in which the entry is appended: with a restart point if the
    interval is full. *)
Record restarted (kvs : list (list Z * list Z)) (k v : list Z) (b b' : BlockBuilder) : Prop := {
  restarted_options : options_ b' = o;
  restarted_buffer : buffer_ b' = buffer_ b;
  restarted_restarts : restarts_ b' = map (fun j => off (st (kvs ++ [(k, v)])) (sh (kvs ++ [(k, v)])) (j * B)) (seq 0 (nrestarts B (S (length kvs))));
  restarted_estimate : estimate_ b' = off (st kvs) (sh kvs) (length kvs) + 4 * Z.of_nat (nrestarts B (S (length kvs))) + 4;
  restarted_counter : counter_ b' + 1 = Z.of_nat (S (length kvs) - (nrestarts B (S (length kvs)) - 1) * B);
  restarted_rest : finished_ b' = false /\ last_key_ b' = last_key_ b /\ data_block_hash_index_builder_ b' = data_block_hash_index_builder_ b /\
    add_with_last_key_called_ b' = false
}.

Lemma restart_ok kvs k v lp b (Q : nat -> BlockBuilder -> Prop) :
  built kvs b -> off (st kvs) (sh kvs) (length kvs) < 2 ^ 32 ->
  ((length kvs <> nrestarts B (length kvs) * B)%nat -> (if use_delta_encoding_ o then difference_offset (stored o k) lp else 0%nat) = sh (kvs ++ [(k, v)]) (length kvs)) ->
  (forall b', restarted kvs k v b b' -> Q (sh (kvs ++ [(k, v)]) (length kvs)) b') ->
  wp (if block_restart_interval_ o <=? counter_ b then modify (restart_at (wrap 32 (Z.of_nat (length (buffer_ b))))) ;;; ret 0%nat
      else ret (if use_delta_encoding_ o then difference_offset (stored o k) lp else 0%nat)) Q b.
Proof.
  intros Hb Hsize Hsh HQ. set (n := length kvs) in *. assert (0 < B)%nat as HBn by lia.
  assert (forall m, (forall j, j < m -> j * B <= n)%nat -> map (fun j => off (st (kvs ++ [(k, v)])) (sh (kvs ++ [(k, v)])) (j * B)) (seq 0 m) = map (fun j => off (st kvs) (sh kvs) (j * B)) (seq 0 m)) as Hmap.
  { intros m Hm. apply map_ext_in. intros j Hj%in_seq. rewrite st_app, off_app; [done|]. rewrite length_st. apply Hm. lia. }
  pose proof (nrestarts_cover B HBn n) as Hcov. pose proof (nrestarts_pos B HBn n) as Hpos. pose proof (nrestarts_S B HBn n) as HS.
  assert (forall j, j < nrestarts B n -> j * B <= n)%nat as Hj.
  { intros j Hj. destruct n as [|n']; [cbn in Hj; lia|]. pose proof (nrestarts_mul B HBn (S n') ltac:(lia)). nia. }
  rewrite (built_counter _ _ Hb). fold n. case_decide as E.
  - rewrite (proj2 (Z.leb_le _ _)) by nia. apply wp_bind, wp_modify, wp_ret.
    assert (sh (kvs ++ [(k, v)]) n = 0%nat) as E0 by (unfold share; rewrite mod_restart, bool_decide_eq_true_2 by (lia || by right); done).
    rewrite <- E0. apply HQ. split; fold n; rewrite ?HS; cbn [restart_at options_ buffer_ restarts_ estimate_ counter_ finished_ last_key_ data_block_hash_index_builder_ add_with_last_key_called_].
    + apply (built_options _ _ Hb).
    + done.
    + rewrite seq_S, map_app, Hmap by done. cbn [map]. rewrite (built_restarts _ _ Hb). f_equal. f_equal. cbn [Nat.add]. fold n. rewrite <- E.
      rewrite st_app, off_app by (by rewrite length_st). rewrite (built_buffer _ _ Hb). fold n. apply wrap_id. unfold off in *. split; lia.
    + rewrite (built_estimate _ _ Hb). fold n. lia.
    + nia.
    + rewrite (built_open _ _ Hb), (built_called _ _ Hb). done.
  - rewrite (proj2 (Z.leb_gt _ _)) by nia. apply wp_ret. rewrite Hsh by done. apply HQ. split; fold n; rewrite ?HS.
    + apply (built_options _ _ Hb).
    + done.
    + rewrite Hmap by done. apply (built_restarts _ _ Hb).
    + apply (built_estimate _ _ Hb).
    + rewrite (built_counter _ _ Hb). fold n. pose proof (Hj (nrestarts B n - 1)%nat ltac:(lia)). lia.
    + rewrite (built_open _ _ Hb), (built_called _ _ Hb). done.
Qed.

(** The lengths of the new entry fit their varints. *)
Lemma PutVarint3_ok dst x y z : word 32 x -> word 32 y -> word 32 z ->
  PutVarint32Varint32Varint32 dst x y z = Ok (dst ++ varint 5 x ++ varint 5 y ++ varint 5 z).
Proof.
  intros Hx Hy Hz. unfold PutVarint32Varint32Varint32. rewrite !EncodeVarint32_ok by done.
  rewrite into_buf_ok; [done|]. rewrite !length_app. pose proof (length_varint 5 x). pose proof (length_varint 5 y). pose proof (length_varint 5 z). lia.
Qed.

(** One more entry. *)
Lemma AddWithLastKeyImpl_ok kvs k v last b (Q : unit -> BlockBuilder -> Prop) :
  built kvs b -> key_fits o hash k -> last_ok kvs last ->
  off (st (kvs ++ [(k, v)])) (sh (kvs ++ [(k, v)])) (S (length kvs)) < 2 ^ 32 ->
  (forall b', built (kvs ++ [(k, v)]) b' -> last_key_ b' = last_key_ b -> Q tt b') ->
  wp (AddWithLastKeyImpl k v last None (Z.of_nat (length (buffer_ b)))) Q b.
Proof.
  intros Hb Hk Hlast Hsize HQ. set (kvs' := kvs ++ [(k, v)]) in *. set (n := length kvs) in *.
  assert (length kvs' = S n) as Hlen by (unfold kvs'; rewrite length_app; cbn; lia). assert (0 < B)%nat as HBn by lia.
  assert (forall i, (i <= n)%nat -> ents (st kvs') (sh kvs') i = ents (st kvs) (sh kvs) i) as Eents by (intros i Hi; unfold kvs'; rewrite st_app, ents_app; [done|by rewrite length_st]).
  assert (off (st kvs') (sh kvs') n = off (st kvs) (sh kvs) n) as Eoff by (unfold off; by rewrite Eents).
  assert (sk (st kvs') n = stored o k /\ vl (st kvs') n = v) as [Esk Evl] by (unfold kvs', n; rewrite st_app, <- (length_st kvs), sk_last, vl_last; done).
  set (s := sh kvs' n). pose proof (stored_length (use_delta_encoding_ o) B (st kvs') n ltac:(rewrite length_st; lia)) as Hkl.
  pose proof (share_le (use_delta_encoding_ o) B (st kvs') n) as Hsl. fold s in Hsl. rewrite Esk in Hkl, Hsl. pose proof (off_S (st kvs') (sh kvs') n) as HS.
  assert (entry_at (st kvs') (sh kvs') n = entry s (stored o k) v) as Een by (unfold entry_at; by rewrite Esk, Evl). rewrite Een in HS.
  assert (Z.of_nat (length v) <= Z.of_nat (length (entry s (stored o k) v))) as Hvl by (unfold entry; rewrite !length_app; lia).
  pose proof (off_nonneg (st kvs') (sh kvs') n) as Hon.
  unfold AddWithLastKeyImpl. apply wp_bind, wp_gets. unfold id. rewrite (built_options _ _ Hb). apply wp_bind, wp_assert; [by rewrite (built_open _ _ Hb)|].
  pose proof (nrestarts_cover B HBn n) as Hcov. pose proof (nrestarts_pos B HBn n) as Hpos.
  apply wp_bind, wp_assert; [rewrite (built_counter _ _ Hb); fold n; apply Z.leb_le; nia|]. rewrite Hvd. apply wp_bind, wp_assert; [done|].
  apply wp_bind. eapply wp_lift; [by apply (MaybeStrip_ok _ hash)|]. destruct (shared_ok kvs k v last Hlast) as (lp & Elp & Hsh). apply wp_bind.
  assert (wp (if (length last =? 0)%nat then ret last else lift (MaybeStripTimestampFromKey o last)) (fun r b' => r = lp /\ b' = b) b) as Hlp.
  { destruct (_ =? _)%nat; [injection Elp as <-; by apply wp_ret|by eapply wp_lift]. }
  eapply wp_mono; [exact Hlp|]. intros ? ? [-> ->]. apply wp_bind, (restart_ok kvs k v); [done|fold n; lia|done|]. intros b1 R. fold kvs' n s.
  apply wp_bind, wp_gets. rewrite (restarted_buffer _ _ _ _ _ R), (built_buffer _ _ Hb). fold n. rewrite <- Eents by done. apply wp_bind.
  rewrite !wrap_id by (unfold word; lia). eapply wp_lift; [apply PutVarint3_ok; unfold word; lia|]. cbv zeta. apply wp_bind. rewrite andb_false_r. apply wp_ret.
  set (buf := _ ++ v). assert (buf = ents (st kvs') (sh kvs') (S n)) as Ebuf by (rewrite ents_S, Een; unfold buf, entry; by rewrite <- !app_assoc).
  apply wp_bind, wp_modify, wp_bind, wp_gets. unfold id. cbn [set_buffer data_block_hash_index_builder_ restarts_].
  destruct (restarted_rest _ _ _ _ _ R) as (Hopen & Hlk & Hh & Hcalled). rewrite Hh, (restarted_restarts _ _ _ _ _ R), length_map, length_seq. fold n.
  assert (forall h, hashed B bpk (map (fun kv => user_part (fst kv)) kvs') h -> (hb_Valid h = true -> is_user_key_ o = false /\ hash = true) ->
    Q tt (count_entry (Z.of_nat (length buf) - Z.of_nat (length (ents (st kvs') (sh kvs') n))) (set_hash_builder h (set_buffer buf b1)))) as Hend.
  { intros h Hh' Hu. apply HQ; [|done]. split; rewrite ?Hlen; cbn [count_entry set_hash_builder set_buffer options_ buffer_ restarts_ estimate_ counter_ finished_ last_key_ data_block_hash_index_builder_ add_with_last_key_called_]; try done.
    - apply (restarted_options _ _ _ _ _ R).
    - apply (restarted_restarts _ _ _ _ _ R).
    - rewrite (restarted_estimate _ _ _ _ _ R). fold n. rewrite <- Eoff, Ebuf. unfold off. lia.
    - apply (restarted_counter _ _ _ _ _ R). }
  apply wp_bind. destruct (hb_Valid (data_block_hash_index_builder_ b)) eqn:Hval.
  - destruct (built_valid _ _ Hb Hval) as [Hu Hh1]. apply wp_bind, wp_assert; [by rewrite Hu|]. apply wp_bind.
    destruct Hk as [Hkb Hkl8]. rewrite Hu, Hh1, orb_true_r in Hkl8. eapply wp_lift; [apply ExtractUserKey_ok; split; [lia|done]|]. apply wp_bind.
    destruct (hb_Add_ok B bpk _ _ (user_part k) HBn (built_hash _ _ Hb) Hval) as (h' & E' & Hh'). rewrite length_map in E'. eapply wp_lift; [exact E'|].
    apply wp_modify, wp_modify, Hend; [unfold kvs'; by rewrite map_app|done].
  - apply wp_ret, wp_modify. specialize (Hend (data_block_hash_index_builder_ b)). rewrite <- Hh in Hend at 3.
    assert (set_hash_builder (data_block_hash_index_builder_ b1) (set_buffer buf b1) = set_buffer buf b1) as Eid by done. rewrite Eid in Hend. apply Hend; [|by rewrite Hval].
    destruct (built_hash _ _ Hb) as [Hbpk _]. split; [done|]. by rewrite Hval.
Qed.

(** [last_key_] after the entries [kvs], when they come through [Add]. *)
Definition last_of (kvs : list (list Z * list Z)) : list Z :=
  match last kvs with Some kv => fst kv | None => [] end.
Definition kept_last (kvs : list (list Z * list Z)) : list Z := if use_delta_encoding_ o then last_of kvs else [].

Lemma last_of_ok kvs : Forall (fun kv => key_fits o hash (fst kv)) kvs -> kvs = [] \/ exists l kv, kvs = l ++ [kv] /\ last_of kvs = fst kv /\ key_fits o hash (last_of kvs).
Proof.
  intros Hf. destruct kvs as [|kv l _] using rev_ind; [by left|right]. exists l, kv. unfold last_of. rewrite last_snoc. split_and!; [done|done|].
  apply Forall_app in Hf as [_ Hf]. by apply Forall_cons in Hf as [? _].
Qed.

Lemma Add_ok kvs k v b (Q : unit -> BlockBuilder -> Prop) :
  built kvs b -> last_key_ b = kept_last kvs -> Forall (fun kv => key_fits o hash (fst kv)) (kvs ++ [(k, v)]) ->
  off (st (kvs ++ [(k, v)])) (sh (kvs ++ [(k, v)])) (S (length kvs)) < 2 ^ 32 ->
  (forall b', built (kvs ++ [(k, v)]) b' -> last_key_ b' = kept_last (kvs ++ [(k, v)]) -> Q tt b') -> wp (Add k v None) Q b.
Proof.
  intros Hb Hl Hf Hsize HQ. apply Forall_app in Hf as [Hf Hk]. apply Forall_cons in Hk as [Hk _]. unfold Add. apply wp_bind, wp_gets. unfold id.
  apply wp_bind, wp_assert; [by rewrite (built_called _ _ Hb)|]. apply wp_bind, (AddWithLastKeyImpl_ok kvs); [done|done| |done|].
  - rewrite Hl. unfold kept_last, last_ok. destruct (last_of_ok kvs Hf) as [->|H]; [left; by destruct (use_delta_encoding_ o); auto|].
    destruct (use_delta_encoding_ o); [by right|left; auto].
  - intros b' Hb' Hl'. rewrite (built_options _ _ Hb). unfold kept_last, last_of in *. rewrite last_snoc in HQ. destruct (use_delta_encoding_ o).
    + apply wp_modify, HQ; [|done]. by destruct Hb'.
    + apply wp_ret, HQ; [done|]. congruence.
Qed.

Lemma AddWithLastKey_ok kvs k v b (Q : unit -> BlockBuilder -> Prop) :
  built kvs b -> last_key_ b = [] -> Forall (fun kv => key_fits o hash (fst kv)) (kvs ++ [(k, v)]) ->
  off (st (kvs ++ [(k, v)])) (sh (kvs ++ [(k, v)])) (S (length kvs)) < 2 ^ 32 ->
  (forall b', built (kvs ++ [(k, v)]) b' -> last_key_ b' = [] -> Q tt b') -> wp (AddWithLastKey k v (last_of kvs) None) Q b.
Proof.
  intros Hb Hl Hf Hsize HQ. apply Forall_app in Hf as [Hf Hk]. apply Forall_cons in Hk as [Hk _]. unfold AddWithLastKey. apply wp_bind, wp_gets. unfold id.
  apply wp_bind, wp_assert; [by rewrite Hl|]. apply wp_bind, wp_modify. cbv zeta.
  assert (built kvs (set_called false b)) as Hb1 by (by destruct Hb).
  pose proof (built_buffer _ _ Hb) as Ebuf. assert (Z.of_nat (length (buffer_ b)) = off (st kvs) (sh kvs) (length kvs)) as Eoff by (by rewrite Ebuf).
  assert (forall l, last_ok kvs l -> wp (AddWithLastKeyImpl k v l None (Z.of_nat (length (buffer_ b)))) Q (set_called false b)) as Hgo.
  { intros l Hlast. apply (AddWithLastKeyImpl_ok kvs k v l (set_called false b)); [done|done|done|done|]. intros b' Hb' Hl'. apply HQ; [done|]. rewrite Hl'. exact Hl. }
  destruct (last_of_ok kvs Hf) as [->|(l & kv & Ekvs & Hlast & Hfit)].
  - rewrite Eoff. apply wp_bind, wp_assert; [done|]. change (off _ _ (length [])) with 0. cbn [Z.ltb Z.compare]. rewrite off_0 in Eoff. rewrite <- Eoff. apply Hgo. left. auto.
  - assert (0 < length kvs)%nat as Hn by (rewrite Ekvs, length_app; cbn; lia). apply wp_bind, wp_assert.
    + rewrite (built_options _ _ Hb). pose proof (off_lt (st kvs) (sh kvs) 0 (length kvs) Hn) as Ho. rewrite off_0 in Ho.
      rewrite (proj2 (Z.eqb_neq _ _)) by lia. cbn [orb].
      pose proof (stored_length (use_delta_encoding_ o) B (st kvs) (length kvs - 1) ltac:(rewrite length_st; lia)) as Hsl.
      replace (S (length kvs - 1)) with (length kvs) in Hsl by lia.
      assert (sk (st kvs) (length kvs - 1) = stored o (last_of kvs)) as Esk.
      { rewrite Hlast, Ekvs, length_app, Nat.add_sub. destruct kv as [k' v']. rewrite st_app, <- (length_st l), sk_last. done. }
      rewrite Esk in Hsl. pose proof (length_stripped _ _ _ Hfit) as Elen.
      assert (strip_ts_sz_ o <= length (last_of kvs))%nat by exact (key_fits_strip _ _ _ Hfit).
      assert (off (st kvs) (sh kvs) (length kvs) < 2 ^ 64) as Hbig.
      { pose proof (off_S (st (kvs ++ [(k, v)])) (sh (kvs ++ [(k, v)])) (length kvs)) as E1.
        pose proof (off_app (use_delta_encoding_ o) B (st kvs) (stored o k, v) (length kvs) ltac:(by rewrite length_st)) as E2. rewrite <- st_app in E2.
        assert (2 ^ 32 < 2 ^ 64) by done. lia. }
      rewrite wsub64 by lia. apply Z.leb_le. lia.
    + rewrite (proj2 (Z.ltb_lt _ _)); [|rewrite Eoff; pose proof (off_lt (st kvs) (sh kvs) 0 (length kvs) Hn); rewrite off_0 in *; lia].
      apply Hgo. right. eauto.
Qed.

(** All entries, through one of the two. *)
Fixpoint add_all (with_last : bool) (pre : list (list Z * list Z)) (kvs : list (list Z * list Z)) : M BlockBuilder unit :=
  match kvs with
  | [] => ret tt
  | (k, v) :: kvs => (if with_last : bool then AddWithLastKey k v (last_of pre) None else Add k v None) ;;; add_all with_last (pre ++ [(k, v)]) kvs
  end.

Lemma add_all_ok (with_last : bool) pre kvs b (Q : unit -> BlockBuilder -> Prop) :
  built pre b -> last_key_ b = (if with_last then [] else kept_last pre) -> Forall (fun kv => key_fits o hash (fst kv)) (pre ++ kvs) ->
  off (st (pre ++ kvs)) (sh (pre ++ kvs)) (length (pre ++ kvs)) < 2 ^ 32 ->
  (forall b', built (pre ++ kvs) b' -> Q tt b') -> wp (add_all with_last pre kvs) Q b.
Proof.
  revert pre b. induction kvs as [|[k v] kvs IH]; intros pre b Hb Hl Hf Hsize HQ; cbn [add_all]; [rewrite app_nil_r in HQ; by apply wp_ret, HQ|].
  replace (pre ++ (k, v) :: kvs) with ((pre ++ [(k, v)]) ++ kvs) in * by (by rewrite <- app_assoc). apply wp_bind.
  assert (forall l x, (x <= length l)%nat -> forall r, off (st (l ++ r)) (sh (l ++ r)) x = off (st l) (sh l) x) as Hpre.
  { intros l x Hx r. induction r as [|[k' v'] r IHr] using rev_ind; [by rewrite app_nil_r|]. rewrite app_assoc, st_app, off_app, IHr; [done|].
    rewrite length_st, length_app. lia. }
  pose proof Hf as Hf'. apply Forall_app in Hf' as [Hf' _]. set (l := pre ++ [(k, v)]) in *. assert (length l = S (length pre)) as El by (unfold l; rewrite length_app; cbn; lia).
  assert (off (st l) (sh l) (S (length pre)) < 2 ^ 32) as Hs.
  { rewrite <- (Hpre l (S (length pre)) ltac:(lia) kvs). eapply Z.le_lt_trans; [apply off_le|exact Hsize]. rewrite length_app. lia. }
  destruct with_last.
  - apply (AddWithLastKey_ok pre); [done|done|done|done|]. intros b' Hb' Hl'. by apply IH.
  - apply (Add_ok pre); [done|done|done|done|]. intros b' Hb' Hl'. by apply IH.
Qed.

(** ** The finished block *)

Definition num_of (kvs : list (list Z * list Z)) : nat := nrestarts B (length kvs).
Definition ukeys (kvs : list (list Z * list Z)) : list (list Z) := map (fun kv => user_part (fst kv)) kvs.

(** What lies behind the restart points: the footer, and before it the hash
    index, given as its number of buckets and the buckets. *)
Definition tail_of (kvs : list (list Z * list Z)) (index : option (Z * list Z)) : list Z :=
  let num := Z.of_nat (num_of kvs) in
  match index with
  | None => le_bytes 4 num
  | Some (nb, buckets) => buckets ++ le_bytes 2 nb ++ le_bytes 4 (Z.lor num (Z.shiftl 1 31))
  end.

Definition index_ok (kvs : list (list Z * list Z)) (index : option (Z * list Z)) : Prop :=
  match index with
  | None => True
  | Some (nb, buckets) =>
      0 < nb < 65536 /\ table_ok nb buckets (hash_pairs B (ukeys kvs)) /\ Z.of_nat (num_of kvs) <= kMaxRestartSupportedByHashIndex + 1 /\
      off (st kvs) (sh kvs) (length kvs) + 4 * Z.of_nat (num_of kvs) + nb + 2 + 4 <= kMaxBlockSizeSupportedByHashIndex
  end.

Definition contents_of (kvs : list (list Z * list Z)) (index : option (Z * list Z)) : list Z :=
  ents (st kvs) (sh kvs) (length kvs) ++ concat (map (fun j => le_bytes 4 (off (st kvs) (sh kvs) (j * B))) (seq 0 (num_of kvs))) ++ tail_of kvs index.

Lemma put_restarts (f : nat -> Z) dst l : foldl PutFixed32 dst (map f l) = dst ++ concat (map (fun j => le_bytes 4 (f j)) l).
Proof.
  revert dst. induction l as [|j l IH]; intros dst; cbn [map foldl concat]; [by rewrite app_nil_r|]. rewrite IH, PutFixed32_le. by rewrite <- app_assoc.
Qed.

Lemma pairs_small kvs : Z.of_nat (num_of kvs) <= kMaxRestartSupportedByHashIndex + 1 ->
  Forall (fun e => 0 <= snd e <= kMaxRestartSupportedByHashIndex) (hash_pairs B (ukeys kvs)).
Proof.
  intros Hn. apply Forall_lookup. intros i [h r] Hi. unfold hash_pairs in Hi. rewrite list_lookup_imap in Hi.
  apply fmap_Some in Hi as (u & Hu & [= -> ->]). cbn [snd]. apply lookup_lt_Some in Hu. unfold ukeys in Hu. rewrite length_map in Hu.
  pose proof (nrestarts_cover B ltac:(lia) (length kvs)) as Hc. assert (i / B < num_of kvs)%nat by (apply Nat.Div0.div_lt_upper_bound; unfold num_of; lia). lia.
Qed.

Lemma hb_Finish_ok kvs h buffer nb0 :
  hashed B bpk (ukeys kvs) h -> hb_Valid h = true -> f_uint16 (hash_estimate bpk (length kvs)) = Ok nb0 ->
  Z.of_nat (length buffer) + Z.lor nb0 1 + 2 <= kMaxBlockSizeSupportedByHashIndex ->
  exists nb buckets, hb_Finish buffer h = Ok (buffer ++ buckets ++ le_bytes 2 nb) /\ nb = Z.lor nb0 1 /\ 0 < nb < 65536 /\ table_ok nb buckets (hash_pairs B (ukeys kvs)).
Proof.
  intros [Hb Hv] Hval E Hsize. destruct (Hv Hval) as (Hp & He & Hn). unfold ukeys in He, Hn. rewrite length_map in He, Hn. unfold hb_Finish. rewrite Hval, He, E. cbn [rbind]. cbv zeta.
  assert (word 16 nb0) as Hw.
  { unfold f_uint16 in E. destruct (hash_estimate bpk (length kvs)) as [| | |]; try done; [injection E as <-; by split|].
    destruct ((0 <=? _) && (_ <? 65536)) eqn:Et; [|done]. injection E as <-. apply andb_prop in Et as [E1 E2]. apply Z.leb_le in E1. apply Z.ltb_lt in E2. split; done. }
  assert (Z.lor (if nb0 =? 0 then 1 else nb0) 1 = Z.lor nb0 1) as -> by (by destruct (Z.eqb_spec nb0 0) as [->|]).
  set (nb := Z.lor nb0 1) in *. assert (0 < nb < 65536) as Hnb.
  { assert (word 16 nb) as [H0 H1] by (apply lor_word; [lia|done|by split]). change (2 ^ 16) with 65536 in H1. assert (nb <> 0); [|lia]. unfold nb. rewrite Z.lor_eq_0_iff. lia. }
  rewrite Hp. destruct (place_all_ok nb (replicate (Z.to_nat nb) kNoEntry) [] (hash_pairs B (ukeys kvs)) Hnb) as (bk & Ebk & Ht).
  - by apply pairs_small.
  - split_and!; [rewrite length_replicate; lia|apply Forall_replicate; by left|done].
  - rewrite Ebk. cbn [rbind]. rewrite PutFixed16_le. destruct Ht as (Hl & Ht). rewrite <- app_assoc, !length_app, length_le_bytes.
    rewrite (proj2 (Z.leb_le _ _)) by lia. exists nb, bk. split_and!; try done; lia.
Qed.

Lemma num_small kvs : off (st kvs) (sh kvs) (length kvs) < 2 ^ 32 -> Z.of_nat (num_of kvs) < 2 ^ 31.
Proof.
  intros H. pose proof (off_count (st kvs) (sh kvs) (length kvs)). assert (num_of kvs <= S (length kvs))%nat; [|lia].
  unfold num_of. destruct (length kvs) as [|m]; cbn [nrestarts]; [lia|]. pose proof (Nat.Div0.div_le_mono 0 m B). pose proof (Nat.Div0.mul_div_le m B). nia.
Qed.

Lemma Finish_ok kvs b (Q : list Z -> BlockBuilder -> Prop) :
  built kvs b -> off (st kvs) (sh kvs) (length kvs) < 2 ^ 32 ->
  (hb_Valid (data_block_hash_index_builder_ b) = true -> is_ok (f_uint16 (hash_estimate bpk (length kvs))) = true) ->
  (forall index b', (is_Some index -> hash = true) -> index_ok kvs index -> Q (contents_of kvs index) b') -> wp Finish Q b.
Proof.
  intros Hb Hsize Hest HQ. unfold Finish. apply wp_bind, wp_gets. unfold id. apply wp_bind, wp_modify. cbv zeta. rewrite (built_restarts _ _ Hb), put_restarts, length_map, length_seq.
  pose proof (num_small kvs Hsize) as Hnum. fold (num_of kvs). rewrite (wrap_id 32 (Z.of_nat _)) by (split; [lia|]; assert (2 ^ 31 < 2 ^ 32) by done; lia).
  rewrite (built_buffer _ _ Hb). set (R := concat _). set (E := ents _ _ _). set (h := data_block_hash_index_builder_ b) in *.
  assert (length R = 4 * num_of kvs)%nat as HR.
  { unfold R. generalize (num_of kvs). intros m. induction m as [|m IH]; [done|]. rewrite seq_S, map_app, concat_app, length_app, IH. cbn [map concat]. rewrite app_nil_r, length_le_bytes. lia. }
  assert (forall ty s, (forall b', Q (buffer_ s ++ le_bytes 4 (match ty with kDataBlockBinaryAndHash => Z.lor (Z.of_nat (num_of kvs)) (Z.shiftl 1 31) | _ => Z.of_nat (num_of kvs) end)) b') ->
    wp (block_footer <- lift (PackIndexTypeAndNumRestarts ty (Z.of_nat (num_of kvs))) ;; buffer <- gets buffer_ ;;
        modify (set_buffer (PutFixed32 buffer block_footer)) ;;; modify set_finished ;;; gets buffer_) Q s) as Hend.
  { intros ty s Hs. apply wp_bind. apply (wp_lift _ (match ty with kDataBlockBinaryAndHash => Z.lor (Z.of_nat (num_of kvs)) (Z.shiftl 1 31) | _ => Z.of_nat (num_of kvs) end)).
    - unfold PackIndexTypeAndNumRestarts. rewrite (proj2 (Z.ltb_ge _ _)) by (change kMaxNumRestarts with (2 ^ 31 - 1); lia). by destruct ty.
    - apply wp_bind, wp_gets, wp_bind, wp_modify, wp_bind, wp_modify, wp_gets. cbn [set_finished set_buffer buffer_]. rewrite PutFixed32_le. destruct ty; apply Hs. }
  pose proof (built_hash _ _ Hb) as Hh. fold h in Hh. fold (ukeys kvs) in Hh.
  assert (wp (index_type <- ret kDataBlockBinarySearch ;; block_footer <- lift (PackIndexTypeAndNumRestarts index_type (Z.of_nat (num_of kvs))) ;; buffer <- gets buffer_ ;;
        modify (set_buffer (PutFixed32 buffer block_footer)) ;;; modify set_finished ;;; gets buffer_) Q (set_buffer (E ++ R) b)) as Hplain.
  { apply wp_bind, wp_ret, Hend. intros b'. specialize (HQ None b' ltac:(by intros []) I). unfold contents_of in HQ. fold E R in HQ. by rewrite app_assoc in HQ. }
  apply wp_bind. destruct (hb_Valid h) eqn:Hval; [|by apply wp_ret]. specialize (Hest eq_refl).
  destruct (f_uint16 (hash_estimate bpk (length kvs))) as [nb0|] eqn:Enb; [|done]. unfold CurrentSizeEstimate. fold h. rewrite Hval.
  assert (hb_EstimateSize h = Ok (2 + Z.lor nb0 1)) as ->.
  { unfold hb_EstimateSize. destruct (proj2 Hh Hval) as (_ & -> & _). unfold ukeys. rewrite length_map, Enb. done. }
  apply wp_bind. eapply wp_lift; [done|]. apply wp_ret. rewrite (built_estimate _ _ Hb).
  destruct (Z.leb_spec (off (st kvs) (sh kvs) (length kvs) + 4 * Z.of_nat (nrestarts B (length kvs)) + 4 + (2 + Z.lor nb0 1)) kMaxBlockSizeSupportedByHashIndex) as [Hle|]; [|done].
  fold (num_of kvs) in Hle. assert (length E = Z.to_nat (off (st kvs) (sh kvs) (length kvs))) as HE by (unfold off, E; lia).
  destruct (hb_Finish_ok kvs h (E ++ R) nb0 Hh Hval Enb) as (nb & bk & EF & Enb' & Hnb & Ht).
  { rewrite length_app, HR, HE. pose proof (off_nonneg (st kvs) (sh kvs) (length kvs)). lia. }
  apply wp_bind, wp_bind, wp_gets, wp_bind. cbn [set_buffer buffer_]. eapply wp_lift; [exact EF|]. apply wp_bind, wp_modify, wp_ret, Hend. intros b'.
  specialize (HQ (Some (nb, bk)) b' (fun _ => proj2 (built_valid _ _ Hb Hval))). unfold contents_of in HQ. fold E R in HQ. cbn [set_buffer buffer_]. rewrite <- !app_assoc. apply HQ.
  split_and!; [lia|lia|done| |lia]. destruct (proj2 Hh Hval) as (_ & _ & Hn). unfold ukeys in Hn. rewrite length_map in Hn. exact Hn.
Qed.

End build.
