(* ===== verification/BlockSpec.v ===== *)
(** * A block is a sorted list with a cursor

    The block that [BlockBuilder] makes of a sorted list of entries, read back by
    an iterator: every sequence of operations shows what a cursor over the list
    shows. *)

From Stdlib Require Import SpecFloat.
From S2P Require Import Prelude Words Slice Coding DbFormat BlockHash BlockBuilder Block BlockLayout BlockSeek BlockKinds BlockBuild.

(** ** A cursor over a list *)

Inductive iter_op : Type :=
  | OSeekToFirst
  | OSeekToLast
  | OSeek (target : list Z)
  | OSeekForPrev (target : list Z)
  | ONext
  | OPrev.

Section cursor.
Context (cmp : list Z -> list Z -> comparison) (es : list (list Z * list Z)).

(** The number of keys before the target. *)
Fixpoint lower_bound (l : list (list Z * list Z)) (t : list Z) : nat :=
  match l with
  | [] => 0
  | (k, _) :: l => match cmp k t with Lt => S (lower_bound l t) | _ => 0 end
  end.

Definition at_or_end (i : nat) : option nat := if (i <? length es)%nat then Some i else None.

(** [None] where the operation may not be called: [Next] and [Prev] need a valid
    position. *)
Definition cursor_move (p : option nat) (op : iter_op) : option (option nat) :=
  match op with
  | OSeekToFirst => Some (at_or_end 0)
  | OSeekToLast => Some (before (length es))
  | OSeek t => Some (at_or_end (lower_bound es t))
  | OSeekForPrev t =>
      let i := lower_bound es t in
      Some (match es !! i with
            | Some (k, _) => match cmp k t with Eq => Some i | _ => before i end
            | None => before i
            end)
  | ONext => i ← p; Some (at_or_end (S i))
  | OPrev => i ← p; Some (before i)
  end.

(** The entry under the cursor and its index. *)
Definition cursor_view (p : option nat) : option (list Z * list Z * Z) :=
  i ← p; e ← es !! i; Some (e, Z.of_nat i).

Fixpoint cursor_run (p : option nat) (ops : list iter_op) : option (list (option (list Z * list Z * Z))) :=
  match ops with
  | [] => Some []
  | op :: ops => q ← cursor_move p op; l ← cursor_run q ops; Some (cursor_view q :: l)
  end.

End cursor.

(** ** An iterator over a block *)

Section iterate.
Context {port : Port} {ucomparator : Comparator} (c : IterConfig) {kind : IterKind}.

Definition iter_do (op : iter_op) : M BlockIter unit :=
  match op with
  | OSeekToFirst => SeekToFirst c
  | OSeekToLast => SeekToLast c
  | OSeek t => Seek c t
  | OSeekForPrev t => SeekForPrev c t
  | ONext => Next c
  | OPrev => Prev c
  end.

(** [key()], [value()] and [cur_entry_idx_], if the iterator is valid. *)
Definition iter_view : M BlockIter (option (list Z * list Z * Z)) :=
  valid <- Valid c ;;
  if valid : bool then
    k <- key c ;; v <- value c ;; i <- gets cur_entry_idx_ ;; ret (Some (k, v, i))
  else ret None.

Fixpoint iter_run (ops : list iter_op) : M BlockIter (list (option (list Z * list Z * Z))) :=
  match ops with
  | [] => ret []
  | op :: ops => iter_do op ;;; x <- iter_view ;; l <- iter_run ops ;; ret (x :: l)
  end.

End iterate.

Definition op_target_ok (user : bool) (op : iter_op) : Prop :=
  match op with OSeek t | OSeekForPrev t => user = false -> ikey t | _ => True end.

Section refine.
Context {port : Port} {ucomparator : Comparator} `{!CompareOk ucmp}.
Context (c : IterConfig) (kvs : list (list Z * list Z)) (sh : nat -> nat) (B num : nat) (tail : list Z).
Context (L : layout c kvs sh B num tail) (KS : sorted_keys c kvs) {kind : IterKind} {KO : KindOk c kvs sh B num tail kind}.
Context (es : list (list Z * list Z)) (Hes : forall i, es !! i = (fun v => (shown c kvs i, v)) <$> (snd <$> kvs !! i)).

Notation n := (length kvs).
Notation inv := (inv c kvs sh B num tail).
Notation view := (view c kvs sh B num tail).

Lemma length_es : length es = n.
Proof.
  destruct (Nat.lt_trichotomy (length es) n) as [H|[H|H]]; [|done|].
  - pose proof (Hes (length es)) as E. rewrite lookup_ge_None_2 in E by lia. destruct (lookup_lt_is_Some_2 kvs (length es) H) as [x Hx]. by rewrite Hx in E.
  - pose proof (Hes n) as E. rewrite (lookup_ge_None_2 kvs) in E by lia. destruct (lookup_lt_is_Some_2 es n H) as [x Hx]. by rewrite Hx in E.
Qed.

Lemma es_at i : (i < n)%nat -> es !! i = Some (shown c kvs i, vl kvs i).
Proof. intros Hi. rewrite Hes. unfold vl. destruct (lookup_lt_is_Some_2 kvs i Hi) as [x Hx]. by rewrite Hx. Qed.

Lemma lower_bound_ok t : is_lower c kvs t (lower_bound (kcmp c) es t).
Proof.
  assert (forall l j, (forall i, l !! i = es !! (j + i)%nat) -> (j + length l = n)%nat -> (forall i, (i < j)%nat -> kcmp c (shown c kvs i) t = Lt) ->
    is_lower c kvs t (j + lower_bound (kcmp c) l t)) as H.
  { intros l. induction l as [|[k v] l IH]; intros j Hl Hlen Hb; cbn [lower_bound length] in *.
    - split_and!; [lia| |lia]. intros i Hi. apply Hb. lia.
    - pose proof (Hl 0%nat) as E. rewrite Nat.add_0_r, es_at in E by lia. injection E as -> ->. destruct (kcmp c (shown c kvs j) t) eqn:Ec.
      + rewrite Nat.add_0_r. eapply lower_here; [done|lia|by rewrite Ec|done].
      + replace (j + S (lower_bound (kcmp c) l t))%nat with (S j + lower_bound (kcmp c) l t)%nat by lia. apply IH; [|lia|].
        * intros i. specialize (Hl (S i)). rewrite Nat.add_succ_comm. exact Hl.
        * intros i Hi. destruct (decide (i = j)) as [->|]; [done|]. apply Hb. lia.
      + rewrite Nat.add_0_r. eapply lower_here; [done|lia|by rewrite Ec|done]. }
  apply (H es 0%nat); [done|by rewrite length_es|lia].
Qed.

Lemma at_or_end_pos i : at_or_end es i = pos kvs i.
Proof. unfold at_or_end, pos. rewrite length_es. destruct (Nat.ltb_spec i n), (decide (i < n)%nat); done || lia. Qed.

(** Every operation follows the cursor. *)
Lemma iter_do_ok p q op it (Q : unit -> BlockIter -> Prop) :
  op_target_ok (is_user_key c) op -> inv p it -> cursor_move (kcmp c) es p op = Some q ->
  (forall it', view q it' -> Q tt it') -> wp (iter_do c op) Q it.
Proof.
  intros Ht Hinv Hm HQ.
  assert (forall p' it', inv p' it' -> p' = q -> wp (UpdateKey c) Q it') as Hup by (intros p' it' Hinv' ->; eapply UpdateKey_ok; eauto).
  destruct op as [| |t|t| |]; cbn [iter_do cursor_move] in *.
  - injection Hm as Hm. apply wp_bind. eapply (SeekToFirstImpl_ok _ _ _ _ _ _ L); [apply Hinv|]. intros it' Hinv'. eapply Hup; [exact Hinv'|]. by rewrite <- at_or_end_pos.
  - injection Hm as Hm. apply wp_bind. eapply (SeekToLastImpl_ok _ _ _ _ _ _ L); [apply Hinv|]. intros it' Hinv'. eapply Hup; [exact Hinv'|]. by rewrite <- length_es.
  - injection Hm as Hm. apply wp_bind. eapply (SeekImpl_ok _ _ _ _ _ _ L KS); [exact Ht|exact Hinv|]. intros i it' Hi Hinv'. eapply Hup; [exact Hinv'|].
    rewrite <- at_or_end_pos, <- Hm. f_equal. eapply lower_unique; [exact Hi|apply lower_bound_ok].
  - injection Hm as Hm. apply wp_bind. eapply (SeekForPrevImpl_ok _ _ _ _ _ _ L KS); [exact Ht|exact Hinv|]. intros i it' Hi Hinv'. eapply Hup; [exact Hinv'|].
    rewrite <- Hm. rewrite (lower_unique _ _ _ _ _ (lower_bound_ok t) Hi). unfold floor. case_decide as Hlt; [by rewrite es_at|].
    by rewrite lookup_ge_None_2 by (rewrite length_es; lia).
  - destruct p as [i|]; [|done]. injection Hm as Hm. apply wp_bind. eapply (step_next _ _ _ _ _ _ L); [exact Hinv|]. intros it' Hinv'. eapply Hup; [exact Hinv'|].
    by rewrite <- at_or_end_pos.
  - destruct p as [i|]; [|done]. injection Hm as Hm. apply wp_bind. eapply step_back; [exact KO|exact Hinv|]. intros it' Hinv'. by eapply Hup.
Qed.

(** Observations that agree on the entries, and on their indices where the
    iterator knows the restart interval. *)
Definition same_view (x y : option (list Z * list Z * Z)) : Prop := fst <$> x = fst <$> y /\ (interval_known c B num -> x = y).

Lemma iter_view_ok q it (Q : option (list Z * list Z * Z) -> BlockIter -> Prop) :
  view q it -> (forall x, same_view x (cursor_view es q) -> Q x it) -> wp (iter_view c) Q it.
Proof.
  intros Hv HQ. unfold iter_view. pose proof Hv as [Hinv _]. apply wp_bind. eapply Valid_ok; [exact L|exact Hinv|].
  destruct q as [i|]; cbn [is_Some bool_decide decide is_Some_dec]; [|by apply wp_ret, HQ]. pose proof Hinv as [_ (Hi & _ & Hx)].
  apply wp_bind. eapply key_ok; [exact L|exact Hv|]. apply wp_bind. eapply value_ok; [exact L|exact Hinv|]. apply wp_bind, wp_gets, wp_ret, HQ.
  unfold cursor_view. cbn. rewrite es_at by done. cbn. split; [done|]. intros Hk. by rewrite (Hx Hk).
Qed.

Lemma same_views l obs : Forall2 same_view l obs -> map (fmap fst) l = map (fmap fst) obs /\ (interval_known c B num -> l = obs).
Proof.
  induction 1 as [|x y l obs [Hx Hx'] _ [IH IH']]; [done|]. cbn [map]. split; [by rewrite Hx, IH|]. intros Hk. by rewrite Hx', IH'.
Qed.

Lemma iter_run_ok ops p it obs :
  Forall (op_target_ok (is_user_key c)) ops -> inv p it -> cursor_run (kcmp c) es p ops = Some obs ->
  exists l it', iter_run c ops it = Ok (l, it') /\ (exists q, inv q it') /\ map (fmap fst) l = map (fmap fst) obs /\ (interval_known c B num -> l = obs).
Proof.
  intros Hf Hinv Hrun. assert (wp (iter_run c ops) (fun r it' => (exists q, inv q it') /\ Forall2 same_view r obs) it) as (r & it' & E & Hq & H); [|exists r, it'; split_and!; [done|done|by apply same_views..]].
  revert p it obs Hinv Hrun. induction Hf as [|op ops Hop Hf IH]; intros p it obs Hinv Hrun; cbn [iter_run cursor_run] in *.
  - injection Hrun as <-. apply wp_ret. eauto.
  - destruct (cursor_move (kcmp c) es p op) as [q|] eqn:Em; [|done]. cbn in Hrun. destruct (cursor_run (kcmp c) es q ops) as [l|] eqn:El; [|done].
    injection Hrun as <-. apply wp_bind. eapply iter_do_ok; [done|exact Hinv|exact Em|]. intros it1 Hv. apply wp_bind. eapply iter_view_ok; [exact Hv|].
    intros x Hx. apply wp_bind. eapply wp_mono; [eapply IH; [apply Hv|exact El]|]. intros r it2 [Hq Hr]. apply wp_ret. split; [done|]. by constructor.
Qed.

End refine.

(** ** Reading what was built *)

Lemma footer_flag x : 0 <= x < 2 ^ 31 -> Z.land x (Z.shiftl 1 31) = 0.
Proof.
  intros Hx. apply Z.bits_inj'. intros i Hi. rewrite Z.land_spec, Z.bits_0. change (Z.shiftl 1 31) with (2 ^ 31). rewrite Z.pow2_bits_eqb by lia.
  destruct (Z.eqb_spec 31 i) as [<-|]; [|apply andb_false_r]. assert (word 31 x) as Hw by done. apply word_bits in Hw as [_ Hw]; [|lia]. by rewrite Hw.
Qed.

Lemma UnPack_plain x : 0 <= x < 2 ^ 31 -> UnPackIndexTypeAndNumRestarts x = Ok (kDataBlockBinarySearch, x).
Proof.
  intros Hx. unfold UnPackIndexTypeAndNumRestarts, kDataBlockIndexTypeBitShift, kNumRestartsMask. rewrite footer_flag by done.
  change (Z.shiftl 1 kDataBlockIndexTypeBitShift - 1) with (Z.ones 31). rewrite Z.land_ones, Z.mod_small by lia.
  change kMaxNumRestarts with (2 ^ 31 - 1). by rewrite (proj2 (Z.leb_le _ _)) by lia.
Qed.

Lemma UnPack_hash x : 0 <= x < 2 ^ 31 -> UnPackIndexTypeAndNumRestarts (Z.lor x (Z.shiftl 1 31)) = Ok (kDataBlockBinaryAndHash, x).
Proof.
  intros Hx. unfold UnPackIndexTypeAndNumRestarts. change kNumRestartsMask with (Z.ones 31). change kDataBlockIndexTypeBitShift with 31. cbv zeta.
  rewrite !Z.land_lor_distr_l, footer_flag, (Z.land_ones x), Z.mod_small by lia.
  change (Z.land (Z.shiftl 1 31) (Z.shiftl 1 31)) with (2 ^ 31). change (Z.land (Z.shiftl 1 31) (Z.ones 31)) with 0. rewrite Z.lor_0_r.
  change kMaxNumRestarts with (2 ^ 31 - 1). by rewrite (proj2 (Z.leb_le _ _)) by lia.
Qed.

Section read.
Context {port : Port} (o : BuilderOptions) (hash : bool) (HB : 1 <= BlockBuilder.block_restart_interval_ o).
Notation B := (Z.to_nat (BlockBuilder.block_restart_interval_ o)).
Notation st := (stored_all o).
Notation sh kvs := (share (use_delta_encoding_ o) B (st kvs)).
Notation num kvs := (num_of o kvs).

Definition block_size (kvs : list (list Z * list Z)) (index : option (Z * list Z)) : Z :=
  off (st kvs) (sh kvs) (length kvs) + 4 * Z.of_nat (num kvs) + Z.of_nat (length (tail_of o kvs index)).

Lemma length_restarts (f : nat -> Z) m : length (concat (map (fun j => le_bytes 4 (f j)) (seq 0 m))) = (4 * m)%nat.
Proof. induction m as [|m IH]; [done|]. rewrite seq_S, map_app, concat_app, length_app, IH. cbn [map concat]. rewrite app_nil_r, length_le_bytes. lia. Qed.

Lemma length_contents kvs index : Z.of_nat (length (contents_of o kvs index)) = block_size kvs index.
Proof. unfold contents_of, block_size. rewrite !length_app, length_restarts. unfold off. lia. Qed.

Lemma num_pos kvs : (0 < num kvs)%nat.
Proof. apply nrestarts_pos. lia. Qed.

Lemma drop_footer kvs index :
  exists p, contents_of o kvs index = p ++ le_bytes 4 (match index with None => Z.of_nat (num kvs) | Some _ => Z.lor (Z.of_nat (num kvs)) (Z.shiftl 1 31) end) /\
    Z.of_nat (length p) = block_size kvs index - 4.
Proof.
  pose proof (length_contents kvs index) as Hl. unfold contents_of, tail_of in *.
  destruct index as [[nb bk]|]; rewrite ?app_assoc in *; (eexists; split; [reflexivity|]); rewrite length_app, length_le_bytes in Hl; lia.
Qed.

Lemma drop_buckets kvs nb bk :
  exists p q, contents_of o kvs (Some (nb, bk)) = p ++ le_bytes 2 nb ++ q /\ Z.of_nat (length p) = block_size kvs (Some (nb, bk)) - 4 - 2.
Proof.
  pose proof (length_contents kvs (Some (nb, bk))) as Hl. unfold contents_of, tail_of in *. rewrite !app_assoc in *. rewrite <- (app_assoc _ (le_bytes 2 nb)) in *.
  eexists _, _. split; [reflexivity|]. rewrite length_app, (length_app (le_bytes 2 nb)), !length_le_bytes in Hl. lia.
Qed.

Lemma new_Block_ok kvs index :
  index_ok o kvs index -> block_size kvs index < 2 ^ 32 ->
  new_Block (contents_of o kvs index) =
    Ok (mkBlock (contents_of o kvs index) (block_size kvs index) (off (st kvs) (sh kvs) (length kvs)) (Z.of_nat (num kvs))
          (match index with None => 0 | Some (nb, _) => nb end)).
Proof.
  intros Hi Hsize. unfold new_Block. rewrite length_contents. pose proof (num_pos kvs) as Hnum. pose proof (off_nonneg (st kvs) (sh kvs) (length kvs)) as Ho.
  set (size := block_size kvs index) in *. set (F := off (st kvs) (sh kvs) (length kvs)) in *.
  assert (size = F + 4 * Z.of_nat (num kvs) + Z.of_nat (length (tail_of o kvs index))) as Es by done.
  assert (4 <= Z.of_nat (length (tail_of o kvs index))) as Ht by (unfold tail_of; destruct index as [[nb bk]|]; rewrite ?length_app, ?length_le_bytes; lia).
  assert (Z.of_nat (num kvs) < 2 ^ 31) as Hn31 by (apply num_small; [done|fold F; lia]).
  destruct (drop_footer kvs index) as (p & Ep & Hp). fold size in Hp.
  set (f := match index with None => _ | Some _ => _ end) in Ep. assert (word 32 f) as Hf.
  { assert (word 32 (Z.of_nat (num kvs))) as Hw by (split; [lia|assert (2 ^ 31 < 2 ^ 32) by done; lia]). unfold f. destruct index; [|done]. apply lor_word; [lia|done|by split]. }
  assert (DecodeFixed32 (drop (Z.to_nat (size - 4)) (contents_of o kvs index)) = Ok f) as Hdec.
  { rewrite Ep, drop_app_length' by lia. rewrite <- (app_nil_r (le_bytes 4 f)), DecodeFixed32_le by (apply le_bytes_ok || apply length_le_bytes).
    f_equal. by apply le_value_bytes. }
  rewrite (proj2 (Z.ltb_ge _ _)) by lia. unfold NumRestarts, IndexType. rewrite (proj2 (Z.leb_le _ _)) by lia. rewrite !Hdec. unfold f. clear f Hf Hdec Ep. destruct index as [[nb bk]|].
  - destruct Hi as (Hnb & (Hbk & _) & Hn253 & Hmax). assert (Z.of_nat (length (tail_of o kvs (Some (nb, bk)))) = nb + 2 + 4) as El by (unfold tail_of; rewrite !length_app, !length_le_bytes; lia).
    unfold kMaxBlockSizeSupportedByHashIndex in *. change (Z.shiftl 1 16) with 65536 in *. fold F in Hmax.
    cbn [rbind]. rewrite (proj2 (Z.ltb_ge _ _)) by lia.
    rewrite UnPack_hash by lia. cbn [rbind]. rewrite (proj2 (Z.ltb_ge _ _)) by lia. rewrite (wrap_id 16 (size - 4)) by (split; [lia|change (2 ^ 16) with 65536; lia]).
    unfold hi_Initialize. rewrite (proj2 (Z.leb_le _ _)) by lia. destruct (drop_buckets kvs nb bk) as (p' & q' & Ep' & Hp'). fold size in Hp'.
    assert (DecodeFixed16 (drop (Z.to_nat (size - 4 - 2)) (contents_of o kvs (Some (nb, bk)))) = Ok nb) as ->.
    { rewrite Ep', drop_app_length' by lia. rewrite DecodeFixed16_le by (apply le_bytes_ok || apply length_le_bytes). by rewrite le_value_bytes by (split; [lia|change (2 ^ (8 * Z.of_nat 2)) with 65536; lia]). }
    cbn [rbind]. rewrite (proj2 (Z.ltb_lt 0 nb)), (proj2 (Z.ltb_lt nb _)) by lia. cbn [andb rbind].
    rewrite (wrap_id 16) by (split; [lia|change (2 ^ 16) with 65536; lia]). replace (size - 4 - 2 - nb - Z.of_nat (num kvs) * 4) with F by lia.
    rewrite wrap_id by (split; lia). by rewrite (proj2 (Z.ltb_ge _ _)) by lia.
  - assert (length (tail_of o kvs None) = 4%nat) as El by apply length_le_bytes.
    cbn [rbind]. rewrite UnPack_plain by lia. cbn [rbind].
    assert ((if kMaxBlockSizeSupportedByHashIndex <? size then Ok (Z.of_nat (num kvs)) else Ok (Z.of_nat (num kvs))) = Ok (Z.of_nat (num kvs))) as -> by (by destruct (_ <? _)).
    cbn [rbind]. assert ((if kMaxBlockSizeSupportedByHashIndex <? size then Ok kDataBlockBinarySearch else Ok kDataBlockBinarySearch) = Ok kDataBlockBinarySearch) as -> by (by destruct (_ <? _)).
    cbn [rbind]. unfold wadd. rewrite (wrap_id 32 size), (wrap_id 32 (1 + _)) by (split; lia). replace (size - (1 + Z.of_nat (num kvs)) * 4) with F by lia.
    rewrite wrap_id by (split; lia). by rewrite (proj2 (Z.ltb_ge _ _)) by lia.
Qed.

Lemma stored_bytes k : Forall byte_ok k -> Forall byte_ok (stored o k).
Proof.
  intros Hb. unfold stored, strip_ts, footer_part. destruct (0 <? _)%nat, (is_user_key_ o); try done; [by apply Forall_take|].
  apply Forall_app; split; [by apply Forall_take|by apply Forall_drop].
Qed.

Lemma st_lookup kvs i : st kvs !! i = (fun kv => (stored o (fst kv), snd kv)) <$> kvs !! i.
Proof. apply list_lookup_fmap. Qed.

Lemma layout_built c kvs index :
  data_ c = Some (contents_of o kvs index) -> restarts_ c = off (st kvs) (sh kvs) (length kvs) -> num_restarts_ c = Z.of_nat (num kvs) ->
  (is_user_key c = false -> Forall (fun kv => (strip_ts_sz_ o + kNumInternalBytes <= length (fst kv))%nat) kvs) -> (pad_min_timestamp_ c = true -> (0 < ts_sz_ c)%nat /\ Z.of_nat (ts_sz_ c) < 2 ^ 32) ->
  Forall (fun kv => key_fits o hash (fst kv)) kvs -> block_size kvs index < 2 ^ 32 - 1 ->
  layout c (st kvs) (sh kvs) B (num kvs) (tail_of o kvs index).
Proof.
  intros Hd Hr Hn Hu Hp Hf Hs. assert (length (st kvs) = length kvs) as El by apply length_st. split; rewrite ?El; try done; try lia.
  - apply num_pos.
  - intros j Hj. unfold num_of in Hj. destruct (length kvs) as [|m] eqn:Em; [right; cbn in Hj; lia|left].
    pose proof (nrestarts_mul B ltac:(lia) (S m) ltac:(lia)). nia.
  - intros j _. apply share_whole.
  - apply nrestarts_cover. lia.
  - intros i _. apply share_le.
  - intros i _. apply share_prev.
  - intros i Hi. destruct (lookup_lt_is_Some_2 kvs i Hi) as [[k v] Hkv]. unfold sk. rewrite st_lookup, Hkv. cbn [fmap option_fmap option_map default fst].
    rewrite Forall_lookup in Hf. pose proof (Hf i _ Hkv) as Hk. split; [apply stored_bytes, Hk|]. intros Hc. specialize (Hu Hc). rewrite Forall_lookup in Hu. specialize (Hu i _ Hkv). cbn [fst] in Hu, Hk.
    pose proof (length_stripped _ _ _ Hk). change (kNumInternalBytes <= length (stored o k))%nat. lia.
Qed.

(** ** How large a block gets *)

Definition input_size (kvs : list (list Z * list Z)) : Z :=
  foldr (fun kv s => Z.of_nat (length (fst kv)) + Z.of_nat (length (snd kv)) + 19 + s) 0 kvs.

Lemma length_stored k : (length (stored o k) <= length k)%nat.
Proof.
  unfold stored, strip_ts, footer_part. destruct (0 <? _)%nat, (is_user_key_ o); rewrite ?length_app, ?length_take, ?length_drop; lia.
Qed.

Lemma length_entry s k v : (length (entry s k v) <= 15 + length k + length v)%nat.
Proof.
  unfold entry. rewrite !length_app, length_drop. pose proof (length_varint 5 (Z.of_nat s)). pose proof (length_varint 5 (Z.of_nat (length k - s))).
  pose proof (length_varint 5 (Z.of_nat (length v))). lia.
Qed.

Lemma input_size_app l k v : input_size (l ++ [(k, v)]) = input_size l + (Z.of_nat (length k) + Z.of_nat (length v) + 19).
Proof. induction l as [|x l IH]; [cbn; lia|]. cbn [app]. unfold input_size in *. cbn [foldr]. rewrite IH. lia. Qed.

Lemma off_input kvs : off (st kvs) (sh kvs) (length kvs) + 4 * Z.of_nat (length kvs) <= input_size kvs.
Proof.
  induction kvs as [|[k v] l IH] using rev_ind; [done|]. rewrite input_size_app, length_app, Nat.add_1_r, off_S.
  assert (off (st (l ++ [(k, v)])) (sh (l ++ [(k, v)])) (length l) = off (st l) (sh l) (length l)) as -> by (rewrite st_app, off_app; [done|by rewrite length_st]).
  unfold entry_at. rewrite st_app. rewrite <- (length_st o l) at 2 3 4. rewrite sk_last, vl_last.
  pose proof (length_entry (share (use_delta_encoding_ o) B (st l ++ [(stored o k, v)]) (length (st l))) (stored o k) v). pose proof (length_stored k). lia.
Qed.

Lemma block_size_input kvs index : index_ok o kvs index -> input_size kvs + 8 < 2 ^ 32 - 1 -> block_size kvs index < 2 ^ 32 - 1.
Proof.
  intros Hi Hs. pose proof (off_input kvs). unfold block_size, tail_of. destruct index as [[nb bk]|].
  - destruct Hi as (Hnb & (Hbk & _) & _ & Hmax). rewrite !length_app, !length_le_bytes. unfold kMaxBlockSizeSupportedByHashIndex in Hmax. change (Z.shiftl 1 16) with 65536 in Hmax.
    change (2 ^ 32) with 4294967296. lia.
  - rewrite length_le_bytes. assert (num kvs <= S (length kvs))%nat; [|lia]. unfold num_of. destruct (length kvs) as [|m]; cbn [nrestarts]; [lia|].
    pose proof (Nat.Div0.mul_div_le m B). nia.
Qed.

End read.
