(* ===== verification/BlockGet.v ===== *)
(** * Point lookups through the hash index

    [SeekForGet] skips the binary search where the hash index of the block
    names a restart interval. What it finds is what [Seek] finds, and where it
    finds nothing there is nothing to find. *)

From S2P Require Import Prelude Words Slice Coding DbFormat BlockHash BlockBuilder Block BlockLayout BlockSeek BlockKinds BlockBuild BlockSpec.

Section get.
Context {port : Port} {ucomparator : Comparator} `{!CompareOk ucmp}.
Context (c : IterConfig) (kvs : list (list Z * list Z)) (sh : nat -> nat) (B num : nat) (tail : list Z).
Context (L : layout c kvs sh B num tail) (KS : sorted_keys c kvs) (I : ingested c kvs) (Huser : is_user_key c = false).

Notation n := (length kvs).
Notation off := (off kvs sh).
Notation raw := (raw c kvs).
Notation shown := (shown c kvs).
Notation at_entry := (at_entry c kvs sh B num tail).
Notation ready := (ready c kvs sh B num tail).
Notation inv := (inv c kvs sh B num tail).
Notation steady := (steady c kvs sh B num tail).
Notation idx_is := (idx_is c B num).
Notation view := (view c kvs sh B num tail).
Notation pos := (pos kvs).
Notation is_lower := (is_lower c kvs).

#[local] Instance data_ok : KindOk c kvs sh B num tail (DataBlockIter c) := data_kind_ok c kvs sh B num tail L I.

Lemma get_kcmp : kcmp c = ikcmp.
Proof. unfold kcmp. by rewrite Huser. Qed.

(** The scan of a restart interval stops at the first entry that is not before
    the target, or at [lim]. *)
Definition stops (t : list Z) (m lim i : nat) : Prop :=
  (m <= i <= lim)%nat /\ (forall k, (m <= k < i)%nat -> ikcmp (shown k) t = Lt) /\ ((i < lim)%nat -> ikcmp (shown i) t <> Lt).

Lemma get_loop_ok t lim fuel m cur it (Q : unit -> BlockIter -> Prop) :
  ikey t -> (lim <= n)%nat -> (cur < lim)%nat -> cur = m \/ S cur = m -> (m <= lim)%nat -> ready m it -> steady it -> idx_is (Z.of_nat m - 1) it -> current_ it = off cur -> (S lim - m < fuel)%nat ->
  (forall i it', stops t m lim i -> inv (pos i) it' -> Q tt it') -> wp (get_loop c fuel t (off lim)) Q it.
Proof.
  intros Ht Hlim. revert m cur it Q. induction fuel as [|fuel IH]; intros m cur it Q Hcur Hm Hml Hr Hst Hx Hc Hf HQ; [lia|]. cbn [get_loop].
  apply wp_bind, wp_gets. rewrite Hc, (proj2 (Z.ltb_lt _ _)) by (by apply off_lt_iff). apply wp_bind, wp_modify, wp_bind.
  eapply (parse_to c kvs sh B num tail (kind := DataBlockIter c) m); [lia|exact Hr|..].
  - intros b it1 Hmn Hat Hs. assert (idx_is (Z.of_nat m) it1) as Hx1.
    { eapply same_idx; [exact Hs|]. intros Hb. cbn. rewrite (Hx Hb). lia. }
    assert (inv (Some m) it1) as Hinv by (split; [by eapply same_steady; [exact Hs|]|done]).
    apply wp_bind. eapply CompareCurrentKey_ok; [exact L|exact KS|exact Hmn|by intros _|apply Hat|]. rewrite get_kcmp.
    assert (stops t m lim m -> Q tt it1) as Hhere by (intros Hi; apply (HQ m); [done|by rewrite pos_lt]).
    destruct (bool_decide_reflect (ikcmp (shown m) t = Lt)) as [Elt|Ene].
    + destruct (decide (m < lim)%nat) as [Hlt|Hge].
      * eapply (IH (S m) m); [done|by right|lia|by eapply ready_next|apply Hinv|intros Hb; rewrite (Hx1 Hb); lia|apply Hat|lia|].
        intros i it2 (Hi & Hbefore & Hup) Hinv2. apply (HQ i); [|done]. split_and!; [lia|lia| |done]. intros k Hk. destruct (decide (k = m)) as [->|]; [done|]. apply Hbefore. lia.
      * destruct fuel as [|fuel]; [lia|]. cbn [get_loop]. apply wp_bind, wp_gets. destruct Hat as (-> & _). rewrite (proj2 (Z.ltb_ge _ _)) by (apply off_le; lia).
        apply wp_ret, Hhere. split_and!; [lia|lia|intros k Hk; lia|lia].
    + apply wp_ret, Hhere. split_and!; [lia|lia|intros k Hk; lia|done].
  - intros it1 -> Hc1 Hs. apply wp_ret. apply (HQ n); [split_and!; [lia|lia|intros k Hk; lia|lia]|]. rewrite pos_end. split; [by eapply same_steady; [exact Hs|]|done].
Qed.

(** Without an index the lookup is a seek. *)
Lemma SeekForGet_plain_ok t p it (Q : bool -> BlockIter -> Prop) :
  data_block_hash_index_ c = None -> ikey t -> inv p it -> (forall i it', is_lower t i -> view (pos i) it' -> Q true it') -> wp (SeekForGet c t) Q it.
Proof.
  intros Hh Ht Hinv HT. unfold SeekForGet. rewrite Hh. apply wp_bind. eapply (SeekImpl_ok _ _ _ _ _ _ L KS); [by intros _|exact Hinv|]. intros i it1 Hi Hinv1.
  apply wp_bind. eapply UpdateKey_ok; [exact L|exact KS|exact Hinv1|]. intros it2 Hv. by apply wp_ret, (HT i).
Qed.

(** ** The table *)

Context (nb : Z) (bk rest : list Z) (us : list (list Z)).
Context (Htail : tail = bk ++ rest) (Hnb : 0 < nb < 65536) (Htable : table_ok nb bk (hash_pairs B us)) (Hnum : Z.of_nat num <= kMaxRestartSupportedByHashIndex + 1).
Context (Hlen : length us = n) (Hus : forall i, (i < n)%nat -> us !! i = Some (user_part (shown i))).
Context (Hexact : forall a b, ucmp a b = Eq -> a = b).

Lemma user_shown i : user_part (shown i) = user_part (raw i).
Proof. unfold BlockSeek.shown. rewrite Huser. destruct (global_seqno_ c); [|done]. apply user_part_app, length_le_bytes. Qed.

Definition bucket (u : list Z) : nat := Z.to_nat (slice_hash u mod nb).

Lemma hi_Lookup_ok d u e : data_ c = Some d -> bk !! bucket u = Some e -> hi_Lookup nb d (off n + 4 * Z.of_nat num) u = Ok e.
Proof.
  intros Hd He. unfold hi_Lookup. rewrite GetSliceHash_ok. cbn [rbind]. unfold umod. rewrite (proj2 (Z.eqb_neq _ _)) by lia. cbn [rbind].
  pose proof (Z.mod_pos_bound (slice_hash u) nb ltac:(lia)) as Hm. rewrite wrap_id by (unfold word; change (2 ^ 16) with 65536; lia).
  rewrite (lay_data _ _ _ _ _ _ L) in Hd. injection Hd as <-. destruct Htable as [Hl _]. pose proof (off_nonneg kvs sh n).
  set (R := concat _). assert (length R = 4 * num)%nat as HR by apply length_restarts. rewrite Htail. set (p := ents kvs sh n ++ R).
  assert (Z.of_nat (length p) = off n + 4 * Z.of_nat num) as Hp by (unfold p; rewrite length_app, HR; unfold BlockLayout.off; lia). rewrite app_assoc. fold p.
  apply rd_ok; [rewrite !length_app; lia|]. rewrite <- Hp. replace (Z.to_nat _) with (length p + bucket u)%nat by (unfold bucket; lia).
  rewrite lookup_app_r by lia. replace (length p + bucket u - length p)%nat with (bucket u) by lia. by apply lookup_app_l_Some.
Qed.

Lemma hash_pair_at i : (i < n)%nat -> hash_pairs B us !! i = Some (slice_hash (user_part (shown i)), Z.of_nat (i / B)).
Proof. intros Hi. unfold hash_pairs. by rewrite list_lookup_imap, (Hus i Hi). Qed.

(** The bucket of a key in the block names its interval, or is marked. *)
Lemma bucket_names i e : (i < n)%nat -> bk !! bucket (user_part (shown i)) = Some e -> e = Z.of_nat (i / B) \/ e = kCollision.
Proof.
  intros Hi He. destruct Htable as (_ & _ & Hp). rewrite Forall_lookup in Hp. specialize (Hp i _ (hash_pair_at i Hi)). unfold in_table in Hp. cbn [fst snd] in Hp.
  fold (bucket (user_part (shown i))) in Hp. rewrite He in Hp. destruct Hp as [[= ->]|[= ->]]; auto.
Qed.

Lemma interval_lt i : (i < n)%nat -> (i / B < num)%nat.
Proof.
  intros Hi. pose proof (lay_cover _ _ _ _ _ _ L). pose proof (lay_B _ _ _ _ _ _ L). apply Nat.Div0.div_lt_upper_bound. lia.
Qed.

(** What a bucket can say. *)
Lemma bucket_is u : exists e, bk !! bucket u = Some e /\ (e = kNoEntry \/ e = kCollision \/ 0 <= e < Z.of_nat num).
Proof.
  destruct Htable as (Hl & Hf & _). pose proof (Z.mod_pos_bound (slice_hash u) nb ltac:(lia)). destruct (lookup_lt_is_Some_2 bk (bucket u) ltac:(unfold bucket; lia)) as [e He].
  exists e. split; [done|]. rewrite Forall_lookup in Hf. destruct (Hf _ _ He) as [E|[E|E]]; [auto..|right; right]. apply Exists_exists in E as (x & [i Hx]%list_elem_of_lookup & <-).
  assert (i < n)%nat as Hi. { apply lookup_lt_Some in Hx. unfold hash_pairs in Hx. by rewrite length_imap, Hlen in Hx. }
  rewrite (hash_pair_at i Hi) in Hx. injection Hx as <-. cbn [snd]. pose proof (interval_lt i Hi). lia.
Qed.

(** ** One interval *)

Lemma rounds_S : (S n < rounds c)%nat.
Proof.
  unfold rounds. rewrite (lay_data _ _ _ _ _ _ L). rewrite !length_app, length_restarts. pose proof (off_count kvs sh n). pose proof (lay_num_pos _ _ _ _ _ _ L). unfold BlockLayout.off in *. lia.
Qed.

Section interval.
Context (t : list Z) (e : Z) (j : nat) (He : bk !! bucket (user_part t) = Some e) (Hcol : e <> kCollision).
Context (Hj : e = Z.of_nat j \/ e = kNoEntry /\ j = (num - 1)%nat).
Notation lim := (if (S j <? num)%nat then (S j * B)%nat else n).

(** All keys with the user key of the target are in the interval. *)
Lemma same_interval k : (k < n)%nat -> user_part (shown k) = user_part t -> (j * B <= k < lim)%nat.
Proof.
  intros Hk Hu. pose proof (interval_lt k Hk) as Hlt. destruct (bucket_names k e Hk) as [E|E]; [by rewrite Hu|..]; [|done].
  unfold kMaxRestartSupportedByHashIndex, kNoEntry in *. assert (k / B = j)%nat as <- by (destruct Hj as [?|[? _]]; lia). pose proof (lay_B _ _ _ _ _ _ L).
  pose proof (Nat.Div0.mul_div_le k B). pose proof (Nat.mul_succ_div_gt k B ltac:(lia)). destruct (S (k / B) <? num)%nat; lia.
Qed.

Lemma user_before k i : (k < i < n)%nat -> user_part (shown k) <> user_part (shown i) -> ucmp (user_part (shown k)) (user_part (shown i)) = Lt.
Proof.
  intros Hk Hne. pose proof (sorted_lt _ _ KS k i Hk) as Hs. rewrite get_kcmp in Hs. unfold ikcmp in Hs.
  destruct (ucmp (user_part (shown k)) (user_part (shown i))) eqn:E; [|done|done]. by apply Hexact in E.
Qed.

Lemma user_lt k : ucmp (user_part (shown k)) (user_part t) = Lt -> ikcmp (shown k) t = Lt.
Proof. intros E. unfold ikcmp. by rewrite E. Qed.

Lemma get_found i : (i < n)%nat -> stops t (j * B) lim i -> user_part (shown i) = user_part t -> is_lower t i.
Proof.
  intros Hi (Hr & Hbefore & Hup) Hu. pose proof (same_interval i Hi Hu) as Hin. eapply lower_here; [exact KS|done|rewrite get_kcmp; apply Hup; lia|]. rewrite get_kcmp. intros k Hk.
  destruct (decide (j * B <= k)%nat) as [Hle|Hgt]; [apply Hbefore; lia|]. apply user_lt. rewrite <- Hu. apply user_before; [lia|]. intros E. rewrite Hu in E.
  pose proof (same_interval k ltac:(lia) E). lia.
Qed.

Lemma get_missed i : (i < n)%nat -> stops t (j * B) lim i -> user_part (shown i) <> user_part t ->
  forall k, (k < n)%nat -> user_part (shown k) = user_part t -> ikcmp (shown k) t = Lt.
Proof.
  intros Hi (Hr & Hbefore & Hup) Hne k Hk Hu. pose proof (same_interval k Hk Hu) as Hin. destruct (decide (k < i)%nat) as [Hlt|Hge]; [apply Hbefore; lia|].
  exfalso. assert (i < k)%nat as Hik by (destruct (decide (i = k)) as [->|]; [done|lia]). apply Hup; [lia|]. apply user_lt. rewrite <- Hu. apply user_before; [lia|]. by rewrite Hu.
Qed.

Lemma get_end : (0 < n)%nat -> (j < num)%nat -> stops t (j * B) lim n -> is_lower t n.
Proof.
  clear He Hcol Hj. intros Hn Hjn (Hr & Hbefore & _). split_and!; [done| |lia]. intros k Hk. rewrite get_kcmp.
  destruct (decide (j * B <= k)%nat) as [Hle|Hgt]; [apply Hbefore; lia|]. pose proof (n_pos_restart _ _ _ _ _ _ L (Z.of_nat j) Hn ltac:(lia)) as Hjb. rewrite Nat2Z.id in Hjb.
  rewrite <- get_kcmp. eapply (before_lt _ _ KS t (j * B)); [lia|]. rewrite get_kcmp. apply Hbefore. lia.
Qed.

(** Scanning the interval. *)
Lemma get_scan (k : M BlockIter bool) it (Q : bool -> BlockIter -> Prop) :
  ikey t -> (j < num)%nat -> steady it ->
  (forall i it', (i <= n)%nat -> stops t (j * B) lim i -> inv (pos i) it' -> wp k Q it') ->
  wp (SeekToRestartPoint c (Z.of_nat j) ;;; r <- GetRestartPoint c (Z.of_nat j) ;; modify (set_current r) ;;;
      modify (set_entry_idx (to_signed 32 (wmul 32 (Z.of_nat j) (block_restart_interval_ c)) - 1)) ;;;
      limit <- (if Z.of_nat j + 1 <? num_restarts_ c then GetRestartPoint c (Z.of_nat j + 1) else ret (restarts_ c)) ;;
      get_loop c (rounds c) t limit ;;; k) Q it.
Proof.
  clear He Hcol Hj. intros Ht Hjn Hst HQ. apply wp_bind. eapply SeekToRestartPoint_ok; [exact L|lia|]. rewrite Nat2Z.id. intros it1 Hr Hs. apply wp_bind. eapply GetRestartPoint_ok; [exact L|lia|].
  rewrite Nat2Z.id. apply wp_bind, wp_modify, wp_bind, wp_modify, wp_bind. set (it2 := set_entry_idx _ _). assert (steady it2) as Hst2 by (apply set_idx_steady; change (steady it1); by eapply same_steady; [exact Hs|]).
  rewrite (lay_num _ _ _ _ _ _ L). assert (wp (if Z.of_nat j + 1 <? Z.of_nat num then GetRestartPoint c (Z.of_nat j + 1) else ret (restarts_ c)) (fun l s => l = off lim /\ s = it2) it2) as Hlimit.
  { destruct (Nat.ltb_spec (S j) num) as [H|H].
    - rewrite (proj2 (Z.ltb_lt _ _)) by lia. eapply GetRestartPoint_ok; [exact L|lia|]. by replace (Z.to_nat (Z.of_nat j + 1)) with (S j) by lia.
    - rewrite (proj2 (Z.ltb_ge _ _)) by lia. apply wp_ret. split; [apply (lay_restarts _ _ _ _ _ _ L)|done]. }
  eapply wp_mono; [exact Hlimit|]. intros ? ? [-> ->]. apply wp_bind. pose proof rounds_S as Hrounds.
  assert (lim <= n)%nat as Hlim. { destruct (Nat.ltb_spec (S j) num) as [H|H]; [|done]. pose proof (restart_entry _ _ _ _ _ _ L (S j) H). lia. }
  destruct (decide (n = 0%nat)) as [E0|Hne].
  - assert (j * B = 0)%nat as Ej by (pose proof (restart_entry _ _ _ _ _ _ L j Hjn); lia). assert (lim = 0)%nat as El by lia. assert (current_ it2 = off 0) as Ecur by (unfold it2; cbn [current_ set_entry_idx set_current]; by rewrite Ej). rewrite El in *. rewrite Ej in *.
    destruct (rounds c) as [|fuel]; [lia|]. cbn [get_loop]. apply wp_bind, wp_gets. rewrite Ecur, Z.ltb_irrefl.
    apply wp_ret, (HQ 0%nat); [lia|split_and!; [lia|lia|intros x Hx; lia|lia]|]. unfold BlockSeek.pos. rewrite decide_False by lia. split; [done|]. cbn [position]. by rewrite (lay_restarts _ _ _ _ _ _ L), E0.
  - pose proof (n_pos_restart _ _ _ _ _ _ L (Z.of_nat j) ltac:(lia) ltac:(lia)) as Hjb. rewrite Nat2Z.id in Hjb. pose proof (lay_B _ _ _ _ _ _ L).
    assert (j * B < lim)%nat as Hjl by (destruct (S j <? num)%nat; lia).
    eapply (get_loop_ok t lim _ (j * B) (j * B)); [done|done|done|by left|lia|exact Hr|done|by eapply idx_start|done| |].
    + lia.
    + intros i it' Hi Hinv. apply (HQ i); [destruct Hi as [Hi _]; lia|done|done].
Qed.

End interval.

(** ** The lookup *)

Lemma SeekForGetImpl_ok t p it (Q : bool -> BlockIter -> Prop) :
  ikey t -> inv p it ->
  (forall i it', is_lower t i -> inv (pos i) it' -> Q true it') ->
  (forall i it', inv (Some i) it' -> (forall k, (k < n)%nat -> user_part (shown k) = user_part t -> ikcmp (shown k) t = Lt) -> Q false it') ->
  wp (SeekForGetImpl c nb t) Q it.
Proof.
  intros Ht Hinv HT HF. unfold SeekForGetImpl. apply wp_bind. eapply wp_lift; [by apply ExtractUserKey_ok|]. cbv zeta. apply wp_bind. eapply the_data_ok; [exact L|]. apply wp_bind.
  assert (forall p' it', inv p' it' -> wp (@SeekImpl _ _ c (DataBlockIter c) t ;;; ret true) Q it') as Hseek.
  { intros p' it' Hinv'. apply wp_bind. eapply (SeekImpl_ok _ _ _ _ _ _ L KS); [by intros _|exact Hinv'|]. intros i it2 Hi Hinv2. by apply wp_ret, (HT i). }
  destruct (bucket_is (user_part t)) as (e & He & Hcase). pose proof (off_nonneg kvs sh n). pose proof (lay_small _ _ _ _ _ _ L). pose proof (lay_num_pos _ _ _ _ _ _ L).
  assert (wadd 32 (restarts_ c) (wmul 32 (num_restarts_ c) 4) = off n + 4 * Z.of_nat num) as ->.
  { rewrite (lay_restarts _ _ _ _ _ _ L), (lay_num _ _ _ _ _ _ L). unfold wadd, wmul. rewrite (wrap_id 32 (_ * _)), wrap_id by (unfold word; lia). lia. }
  eapply wp_lift; [by apply hi_Lookup_ok; [apply (lay_data _ _ _ _ _ _ L)|]|]. destruct (Z.eqb_spec e kCollision) as [_|Hcol]; [by eapply Hseek|].
  assert (exists j, (if e =? kNoEntry then wrap 8 (num_restarts_ c - 1) else e) = Z.of_nat j /\ (j < num)%nat /\ (e = Z.of_nat j \/ e = kNoEntry /\ j = (num - 1)%nat)) as (j & -> & Hjn & Hj).
  { unfold kMaxRestartSupportedByHashIndex in Hnum. destruct (Z.eqb_spec e kNoEntry) as [->|Hne].
    - exists (num - 1)%nat. rewrite (lay_num _ _ _ _ _ _ L), wrap_id by (unfold word; change (2 ^ 8) with 256; lia). split_and!; [lia|lia|auto].
    - destruct Hcase as [?|[?|Hcase]]; [done..|]. exists (Z.to_nat e). split_and!; [lia|lia|left; lia]. }
  apply wp_bind, wp_assert; [rewrite (lay_num _ _ _ _ _ _ L); apply Z.ltb_lt; lia|]. apply (get_scan t j); [done|done|apply Hinv|]. intros i it1 Hi Hstop Hinv1.
  apply wp_bind, wp_gets. destruct (decide (i = n)) as [->|Hne].
  - assert (current_ it1 = restarts_ c) as -> by (rewrite pos_end in Hinv1; apply Hinv1). rewrite Z.eqb_refl. apply wp_ret, (HT n); [|done].
    destruct (decide (n = 0%nat)) as [E0|]; [split_and!; lia|]. by apply (get_end t j); [lia|..].
  - rewrite pos_lt in Hinv1 by lia. pose proof Hinv1 as [_ (Hin & (Hc & Hk & _) & _)]. rewrite Hc, (lay_restarts _ _ _ _ _ _ L). rewrite (proj2 (Z.eqb_neq _ _)) by (pose proof (off_lt kvs sh i n Hin); lia).
    assert (ikey (raw i)) as Hik by (by eapply raw_ikey). unfold GetUserKey. rewrite Huser. apply wp_bind, wp_bind. eapply GetKey_ok; [exact L|exact Hk|]. eapply wp_lift; [by apply ExtractUserKey_ok|].
    rewrite <- user_shown. destruct (bool_decide_reflect (ucmp (user_part (shown i)) (user_part t) = Eq)) as [Eu%Hexact|Ene]; cbn [negb].
    + apply wp_bind. eapply GetKey_ok; [exact L|exact Hk|]. apply wp_bind. unfold ExtractValueType. eapply wp_lift; [by rewrite ExtractInternalKeyFooter_ok|].
      pose proof (get_found t e j He Hcol Hj i Hin Hstop Eu) as Hlow. destruct (_ && _); [by eapply Hseek|]. apply wp_bind, wp_ret, wp_ret, (HT i); [done|]. by rewrite pos_lt.
    + apply wp_ret, (HF i); [done|]. apply (get_missed t e j He Hcol Hj i Hin Hstop). intros E. apply Ene. rewrite E. by apply (cmp_refl ucmp).
Qed.

(** Both kinds of lookup, with the key of the entry updated. *)
Lemma SeekForGet_hash_ok t p it (Q : bool -> BlockIter -> Prop) :
  data_block_hash_index_ c = Some nb -> ikey t -> inv p it ->
  (forall i it', is_lower t i -> view (pos i) it' -> Q true it') ->
  (forall i it', view (Some i) it' -> (forall k, (k < n)%nat -> user_part (shown k) = user_part t -> ikcmp (shown k) t = Lt) -> Q false it') ->
  wp (SeekForGet c t) Q it.
Proof.
  intros Hh Ht Hinv HT HF. unfold SeekForGet. rewrite Hh. apply wp_bind. eapply SeekForGetImpl_ok; [done|exact Hinv|..].
  - intros i it1 Hi Hinv1. apply wp_bind. eapply UpdateKey_ok; [exact L|exact KS|exact Hinv1|]. intros it2 Hv. by apply wp_ret, (HT i).
  - intros i it1 Hinv1 Hno. apply wp_bind. eapply UpdateKey_ok; [exact L|exact KS|exact Hinv1|]. intros it2 Hv. by apply wp_ret, (HF i).
Qed.

End get.
