(* ===== verification/BlockMain.v ===== *)
(** * Blocks: what is put in is what is read

    The statements about whole blocks: built by [BlockBuilder], opened by
    [Block], read by the iterators. *)

From Stdlib Require Import SpecFloat Sorted.
From S2P Require Import Prelude Words Slice Coding DbFormat BlockHash BlockBuilder Block BlockLayout BlockSeek BlockKinds BlockBuild BlockSpec BlockGet.

(** A builder is given entries, by one of its two operations, and finished. *)
Definition build_block {port : Port} (b : BlockBuilder) (with_last : bool) (kvs : list (list Z * list Z)) : result (list Z) :=
  let? (contents, _) := (add_all with_last [] kvs ;;; Finish) b in Ok contents.

(** The buckets a builder reckons with for each key. *)
Definition builder_bpk (index_type : DataBlockIndexType) (ratio : spec_float) : spec_float :=
  bucket_per_key_ (match index_type with
                   | kDataBlockBinarySearch => new_DataBlockHashIndexBuilder
                   | kDataBlockBinaryAndHash => hb_Initialize ratio new_DataBlockHashIndexBuilder
                   end).

Definition has_index (index_type : DataBlockIndexType) : bool :=
  match index_type with kDataBlockBinarySearch => false | kDataBlockBinaryAndHash => true end.

(** Entries for which a hash index can be sized. *)
Definition index_sizable (index_type : DataBlockIndexType) (ratio : spec_float) (n : nat) : Prop :=
  has_index index_type = true -> is_ok (f_uint16 (hash_estimate (builder_bpk index_type ratio) n)) = true.

Section build.
Context {port : Port}.

Lemma build_block_ok interval delta index_type ratio ts persisted user with_last kvs
    (o := mkBuilderOptions interval delta false (if persisted : bool then 0%nat else ts) user) :
  1 <= interval -> (user = true -> has_index index_type = false) -> index_sizable index_type ratio (length kvs) ->
  Forall (fun kv => key_fits o (has_index index_type) (fst kv)) kvs -> input_size kvs + 8 < 2 ^ 32 - 1 ->
  exists b index, new_BlockBuilder interval delta false index_type ratio ts persisted user = Ok b /\
    (is_Some index -> has_index index_type = true) /\ index_ok o kvs index /\ build_block b with_last kvs = Ok (contents_of o kvs index).
Proof.
  intros Hi Hu Hest Hf Hs. unfold new_BlockBuilder. rewrite (proj2 (Z.leb_le _ _) Hi). fold o. eset (b := mkBlockBuilder o _ _ _ _ _ _ _ _). pose proof (off_input o kvs) as Hoff.
  set (bpk := builder_bpk index_type ratio).
  assert (built o (has_index index_type) bpk [] b) as Hb.
  { split; try done.
    - split; [by destruct index_type|]. intros _. split_and!; by destruct index_type.
    - unfold b. destruct index_type; [done|]. intros _. split; [|done]. cbn. by destruct user; [specialize (Hu eq_refl)|]. }
  assert (wp (add_all with_last [] kvs ;;; Finish) (fun contents _ => exists index, (is_Some index -> has_index index_type = true) /\ index_ok o kvs index /\ contents = contents_of o kvs index) b) as (ct & s & E & index & Hs1 & Hix & ->).
  { apply wp_bind. apply (add_all_ok o (has_index index_type) bpk Hi eq_refl with_last []); [done| |done|cbn [app]; lia|].
    - destruct with_last; [done|]. unfold kept_last. by destruct (use_delta_encoding_ o).
    - intros b' Hb'. apply (Finish_ok o (has_index index_type) bpk Hi kvs); [done|lia| |eauto]. intros Hval. destruct index_type; [|by apply Hest].
      exfalso. by destruct (built_valid _ _ _ _ _ Hb' Hval). }
  exists b, index. split_and!; [done|done|done|]. unfold build_block. by rewrite E.
Qed.

End build.

(** ** Opening a block *)

(** What an iterator over a built block is given. *)
Definition block_config (o : BuilderOptions) (kvs : list (list Z * list Z)) (index : option (Z * list Z)) (g : option Z) (ts : nat) (pad user : bool) (r : Z) : IterConfig :=
  mkIterConfig (Some (contents_of o kvs index)) (Z.of_nat (num_of o kvs))
    (off (stored_all o kvs) (share (use_delta_encoding_ o) (Z.to_nat (BlockBuilder.block_restart_interval_ o)) (stored_all o kvs)) (length kvs))
    g ts pad user r (fst <$> index).

(** A built block is large enough to be opened, and has a restart point. *)
Lemma block_opens o kvs index : 1 <= BlockBuilder.block_restart_interval_ o -> (block_size o kvs index <? 2 * 4) = false /\ (Z.of_nat (num_of o kvs) =? 0) = false.
Proof.
  intros HB. pose proof (num_pos o HB kvs) as Hn. pose proof (off_nonneg (stored_all o kvs) (share (use_delta_encoding_ o) (Z.to_nat (BlockBuilder.block_restart_interval_ o)) (stored_all o kvs)) (length kvs)).
  split; [|apply Z.eqb_neq; lia]. apply Z.ltb_ge. unfold block_size.
  assert (4 <= Z.of_nat (length (tail_of o kvs index))) by (unfold tail_of; destruct index as [[nb bk]|]; rewrite ?length_app, ?length_le_bytes; lia). lia.
Qed.

(** Building, opening and iterating. *)
Lemma block_opened {port : Port} interval delta index_type ratio ts persisted with_last kvs
    (o := mkBuilderOptions interval delta false (if persisted : bool then 0%nat else ts) false) :
  1 <= interval -> index_sizable index_type ratio (length kvs) -> Forall (fun kv => key_fits o (has_index index_type) (fst kv)) kvs -> input_size kvs + 8 < 2 ^ 32 - 1 ->
  exists b contents blk index, new_BlockBuilder interval delta false index_type ratio ts persisted false = Ok b /\
    build_block b with_last kvs = Ok contents /\ new_Block contents = Ok blk /\
    (is_Some index -> has_index index_type = true) /\ index_ok o kvs index /\ block_size o kvs index < 2 ^ 32 - 1 /\
    (forall ts g p r, let c := block_config o kvs index g ts ((0 <? ts)%nat && negb p) false r in NewDataIterator blk ts g p r = (c, fresh c StatusOK)) /\
    (index = None -> forall r, let c := block_config o kvs None None 0 false true r in NewMetaIterator blk r = (c, fresh c StatusOK)).
Proof.
  intros Hi Hest Hf Hsmall. destruct (build_block_ok interval delta index_type ratio ts persisted false with_last kvs Hi ltac:(done) Hest Hf Hsmall) as (b & index & Eb & Hno & Hix & Ec).
  fold o in Hix, Ec. pose proof (block_size_input o Hi kvs index Hix Hsmall) as Hs. destruct (block_opens o kvs index Hi) as [E1 E2].
  eexists b, _, _, index. split_and!; [exact Eb|exact Ec|apply (new_Block_ok o Hi); [done|lia]|done|done|done|..].
  - intros ts' g p r. unfold NewDataIterator. cbn [size_ block_num_restarts restart_offset_ block_data block_hash_index]. rewrite E1, E2. unfold block_config.
    destruct index as [[nb bk]|]; [|done]. destruct Hix as [Hnb _]. by rewrite (proj2 (Z.eqb_neq nb 0)) by lia.
  - intros -> r. unfold NewMetaIterator. cbn [size_ block_num_restarts restart_offset_ block_data block_hash_index]. by rewrite E1, E2.
Qed.

(** What was seen is what should be seen; the indices of the entries are only
    right for an iterator that knows the restart interval. *)
Definition same_run (known : Prop) (l obs : list (option (list Z * list Z * Z))) : Prop :=
  map (fmap fst) l = map (fmap fst) obs /\ (known -> l = obs).

Lemma known_interval c o kvs :
  1 <= BlockBuilder.block_restart_interval_ o ->
  block_restart_interval_ c = BlockBuilder.block_restart_interval_ o \/ Z.of_nat (length kvs) <= BlockBuilder.block_restart_interval_ o ->
  interval_known c (Z.to_nat (BlockBuilder.block_restart_interval_ o)) (num_of o kvs).
Proof.
  intros HB [E|E]; [left; lia|right]. unfold num_of, nrestarts. destruct (length kvs) as [|m]; [done|]. by rewrite Nat.div_small by lia.
Qed.

Lemma fresh_inv c kvs sh B num tail : inv c kvs sh B num tail None (fresh c StatusOK).
Proof. split; [|done]. split; [done|]. split; [by exists 0%nat|by left]. Qed.

(** ** Data blocks *)

(** The key as a reader sees it: with a timestamp of zeros if the file does not
    store timestamps, with the sequence number of the file if it has one. *)
Definition data_key (ts : nat) (persisted : bool) (g : option Z) (k : list Z) : list Z :=
  with_seqno g (if (0 <? ts)%nat && negb persisted then pad_ts ts (strip_ts ts k) else k).
Definition data_entries (ts : nat) (persisted : bool) (g : option Z) (kvs : list (list Z * list Z)) : list (list Z * list Z) :=
  map (fun kv => (data_key ts persisted g (fst kv), snd kv)) kvs.

(** Entries a data block can hold. *)
Record data_input `{Comparator} (ts : nat) (persisted : bool) (g : option Z) (kvs : list (list Z * list Z)) : Prop := {
  input_keys : Forall (fun kv => Forall byte_ok (fst kv) /\ ((if persisted then 0 else ts) + kNumInternalBytes <= length (fst kv))%nat) kvs;
  input_sorted : forall i j a b, (i < j)%nat -> data_entries ts persisted g kvs !! i = Some a -> data_entries ts persisted g kvs !! j = Some b -> ikcmp (fst a) (fst b) = Lt;
  input_small : input_size kvs + 8 < 2 ^ 32 - 1;
  input_ts : Z.of_nat ts < 2 ^ 32;
  input_seqno : forall s, g = Some s -> 0 <= s <= kMaxSequenceNumber /\ Forall (fun kv => ingested_key (fst kv)) kvs
}.

Section data.
Context {port : Port} {ucomparator : Comparator} `{!CompareOk ucmp}.
Context (interval r : Z) (delta : bool) (ts : nat) (persisted : bool) (g : option Z) (kvs : list (list Z * list Z)).
Context (Hi : 1 <= interval) (D : data_input ts persisted g kvs).
Notation o := (mkBuilderOptions interval delta false (if persisted then 0%nat else ts) false).
Context (index : option (Z * list Z)) (Hix : index_ok o kvs index).
Definition data_config : IterConfig := block_config o kvs index g ts ((0 <? ts)%nat && negb persisted) false r.
Notation c := data_config.

Lemma data_kcmp : kcmp c = ikcmp.
Proof. done. Qed.

Lemma data_fits hash : Forall (fun kv => key_fits o hash (fst kv)) kvs.
Proof. eapply Forall_impl; [exact (input_keys _ _ _ _ D)|]. intros kv [Hb Hl]. split; [done|]. cbn [is_user_key_ strip_ts_sz_]. destruct (_ || _); lia. Qed.

Lemma data_layout : layout c (stored_all o kvs) (share delta (Z.to_nat interval) (stored_all o kvs)) (Z.to_nat interval) (num_of o kvs) (tail_of o kvs index).
Proof.
  apply (layout_built o true Hi); try done; [| |apply data_fits|apply block_size_input; [exact Hi|exact Hix|apply D]].
  { intros _. eapply Forall_impl; [exact (input_keys _ _ _ _ D)|]. intros kv [_ Hl]. exact Hl. }
  cbn [data_config block_config pad_min_timestamp_ ts_sz_]. intros [Ht%Nat.ltb_lt _]%andb_prop. split; [done|]. apply D.
Qed.

Lemma footer_part_pad t k : (kNumInternalBytes <= length k)%nat -> footer_part (pad_ts t k) = footer_part k.
Proof. intros Hk. unfold pad_ts. rewrite app_assoc. apply footer_part_app. by apply length_footer_part. Qed.

Lemma footer_part_strip t k : (t + kNumInternalBytes <= length k)%nat -> footer_part (strip_ts t k) = footer_part k.
Proof. intros Hk. unfold strip_ts. apply footer_part_app. apply length_footer_part. lia. Qed.

(** The stored key of an entry, as the iterator holds it. *)
Lemma data_raw i k v : kvs !! i = Some (k, v) ->
  raw c (stored_all o kvs) i = (if (0 <? ts)%nat && negb persisted then pad_ts ts (strip_ts ts k) else k) /\ footer_part (raw c (stored_all o kvs) i) = footer_part k.
Proof.
  intros Hk. pose proof (input_keys _ _ _ _ D) as Hf. rewrite Forall_lookup in Hf. destruct (Hf i _ Hk) as [_ Hl]. cbn [fst] in Hl. unfold raw, sk.
  rewrite st_lookup, Hk. unfold stored. cbn -[pad_ts strip_ts footer_part Nat.ltb]. destruct persisted; cbn [negb]; rewrite ?andb_false_r, ?andb_true_r; [done|].
  destruct (Nat.ltb_spec 0 ts); [|done]. split; [done|]. rewrite footer_part_pad, footer_part_strip; [done|done|].
  unfold strip_ts. rewrite length_app, length_footer_part by lia. lia.
Qed.

Lemma data_shown i k v : kvs !! i = Some (k, v) -> shown c (stored_all o kvs) i = data_key ts persisted g k.
Proof. intros Hk. destruct (data_raw i k v Hk) as [E _]. unfold shown. cbn [data_config block_config is_user_key global_seqno_]. by rewrite E. Qed.

Lemma data_lookup i : data_entries ts persisted g kvs !! i = (fun v => (shown c (stored_all o kvs) i, v)) <$> (snd <$> stored_all o kvs !! i).
Proof.
  unfold data_entries. rewrite list_lookup_fmap, st_lookup. destruct (kvs !! i) as [[k v]|] eqn:E; [|done]. by rewrite (data_shown i k v E).
Qed.

Lemma stored_some i : (i < length (stored_all o kvs))%nat -> exists k v, kvs !! i = Some (k, v).
Proof. rewrite length_st. intros H. destruct (lookup_lt_is_Some_2 kvs i H) as [[k v] E]. eauto. Qed.

Lemma data_ingested : ingested c (stored_all o kvs).
Proof.
  intros [s Hs]. change (g = Some s) in Hs. destruct (input_seqno _ _ _ _ D s Hs) as [_ Hg]. split; [done|]. intros i Hi'.
  destruct (stored_some i Hi') as (k & v & E). destruct (data_raw i k v E) as [_ Ef]. rewrite Forall_lookup in Hg. specialize (Hg i _ E). unfold ingested_key, footer in *. by rewrite Ef.
Qed.

Lemma data_sorted : sorted_keys c (stored_all o kvs).
Proof.
  split.
  - intros i j Hij. rewrite data_kcmp.
    destruct (stored_some i ltac:(lia)) as (k & v & E). destruct (stored_some j ltac:(lia)) as (k' & v' & E').
    pose proof (data_lookup i) as L1. pose proof (data_lookup j) as L2. rewrite st_lookup, E in L1. rewrite st_lookup, E' in L2. cbn in L1, L2.
    exact (input_sorted _ _ _ _ D i j _ _ ltac:(lia) L1 L2).
  - intros i Hi'. destruct (stored_some i Hi') as (k & v & E). destruct (data_raw i k v E) as [_ Ef]. cbn [data_config block_config is_user_key global_seqno_].
    destruct g as [s|] eqn:Eg; [|done]. destruct (input_seqno _ _ _ _ D s eq_refl) as [Hs Hg].
    rewrite Forall_lookup in Hg. specialize (Hg i _ E) as [_ Ht]. cbn [fst] in Ht. split; [done|]. unfold footer. rewrite Ef. unfold footer in Ht.
    destruct Ht as [<-|[<-|[<-|[<-|[<-|[<-|[]]]]]]]; done.
Qed.

Lemma data_run ops obs :
  Forall (op_target_ok false) ops -> cursor_run ikcmp (data_entries ts persisted g kvs) None ops = Some obs ->
  exists l it', iter_run (kind := DataBlockIter c) c ops (fresh c StatusOK) = Ok (l, it') /\ same_run (r = interval \/ Z.of_nat (length kvs) <= interval) l obs /\
    exists q, inv c (stored_all o kvs) (share delta (Z.to_nat interval) (stored_all o kvs)) (Z.to_nat interval) (num_of o kvs) (tail_of o kvs index) q it'.
Proof.
  intros Hops Hrun.
  destruct (iter_run_ok c _ _ _ _ _ data_layout data_sorted (KO := data_kind_ok _ _ _ _ _ _ data_layout data_ingested) _ data_lookup ops None (fresh c StatusOK) obs) as (l & it & E & Hq & E1 & E2); [done|apply fresh_inv|by rewrite data_kcmp|].
  exists l, it. split_and!; [done| |done]. split; [done|]. intros Hk. by apply E2, (known_interval c o kvs Hi).
Qed.

End data.

(** ** Counting the keys *)

(** A block is given its restart interval, if there is more than one interval,
    and its number of keys by an iterator that ignores timestamps and sequence
    numbers. *)
Definition counts_keys {port : Port} {ucomparator : Comparator} (blk : Block) (ts : nat) (interval : Z) (n : nat) : Prop :=
  let (c, it) := NewDataIterator blk ts None true 0 in
  exists it1 it2, let r := if Z.of_nat n <=? interval then 0 else interval in
    GetRestartInterval (kind := DataBlockIter c) c it = Ok (r, it1) /\ NumberOfKeys (kind := DataBlockIter c) c r it1 = Ok (Z.of_nat n, it2).

Lemma block_counted {port : Port} {ucomparator : Comparator} interval delta strip ts kvs index blk
    (o := mkBuilderOptions interval delta false strip false) (c := block_config o kvs index None ts false false 0) :
  1 <= interval -> Forall (fun kv => Forall byte_ok (fst kv) /\ (strip + kNumInternalBytes <= length (fst kv))%nat) kvs -> block_size o kvs index < 2 ^ 32 - 1 ->
  NewDataIterator blk ts None true 0 = (c, fresh c StatusOK) -> counts_keys blk ts interval (length kvs).
Proof.
  intros Hi Hf Hs Ed. unfold counts_keys. rewrite Ed.
  assert (layout c (stored_all o kvs) (share delta (Z.to_nat interval) (stored_all o kvs)) (Z.to_nat interval) (num_of o kvs) (tail_of o kvs index)) as L.
  { apply (layout_built o true Hi); try done.
    - intros _. eapply Forall_impl; [exact Hf|]. by intros kv [_ Hl].
    - eapply Forall_impl; [exact Hf|]. intros kv [Hb Hl]. split; [done|]. cbn [is_user_key_ strip_ts_sz_ o]. destruct (_ || _); lia. }
  assert (ingested c (stored_all o kvs)) as I by (by intros []).
  pose proof (data_kind_ok _ _ _ _ _ _ L I) as KO. set (r := if _ <=? _ then _ else _).
  assert (r = (if (1 <? num_of o kvs)%nat then Z.of_nat (Z.to_nat interval) else 0) /\ (r = Z.of_nat (Z.to_nat interval) \/ num_of o kvs = 1%nat)) as [Er Hr].
  { unfold r, num_of, nrestarts. cbn [BlockBuilder.block_restart_interval_ o]. destruct (Z.leb_spec (Z.of_nat (length kvs)) interval) as [Hle|Hgt], (length kvs) as [|m]; [by auto|rewrite Nat.div_small by lia; by auto|lia|].
    rewrite Z2Nat.id by lia. pose proof (Nat.div_le_lower_bound m (Z.to_nat interval) 1 ltac:(lia) ltac:(lia)). rewrite (proj2 (Nat.ltb_lt _ _)) by lia. auto. }
  assert (wp (GetRestartInterval (kind := DataBlockIter c) c) (fun x it => x = r /\ steady c (stored_all o kvs) (share delta (Z.to_nat interval) (stored_all o kvs)) (Z.to_nat interval) (num_of o kvs) (tail_of o kvs index) it) (fresh c StatusOK))
    as (x & it1 & Eg & -> & Hst) by (apply (GetRestartInterval_ok _ _ _ _ _ _ L); [apply fresh_inv|intros it' Hst'; by split]).
  assert (wp (NumberOfKeys (kind := DataBlockIter c) c r) (fun x _ => x = Z.of_nat (length kvs)) it1) as (x & it2 & En & ->).
  { eapply (NumberOfKeys_ok _ _ _ _ _ _ L); [exact Hst|exact Hr|]. intros it' _. by rewrite length_st. }
  by exists it1, it2.
Qed.

(** C11. A data block built from sorted entries, through [Add] or
    [AddWithLastKey], with or without prefix compression, timestamps or a hash
    index, is opened without an error, has its restart interval and its keys
    counted exactly, and every sequence of seeks and steps of an iterator over it
    shows what a cursor over the sorted list of entries shows: keys, values and,
    where the iterator knows the restart interval, indices. No assertion fails,
    no byte outside the block is read, every loop ends. *)
Theorem data_block_refines {port : Port} {ucomparator : Comparator} {CO : CompareOk ucmp} interval r delta index_type ratio ts persisted g with_last kvs :
  1 <= interval -> index_sizable index_type ratio (length kvs) -> data_input ts persisted g kvs ->
  exists b contents blk, new_BlockBuilder interval delta false index_type ratio ts persisted false = Ok b /\
    build_block b with_last kvs = Ok contents /\ new_Block contents = Ok blk /\ counts_keys blk ts interval (length kvs) /\
    let (c, it) := NewDataIterator blk ts g persisted r in
    forall ops obs, Forall (op_target_ok false) ops -> cursor_run ikcmp (data_entries ts persisted g kvs) None ops = Some obs ->
      exists l it', iter_run (kind := DataBlockIter c) c ops it = Ok (l, it') /\ same_run (r = interval \/ Z.of_nat (length kvs) <= interval) l obs.
Proof.
  intros Hi Hest D.
  destruct (block_opened interval delta index_type ratio ts persisted with_last kvs Hi Hest (data_fits _ _ _ _ _ _ D _) (input_small _ _ _ _ D)) as (b & ct & blk & index & Eb & Ec & Ek & _ & Hix & Hs & Ed & _).
  exists b, ct, blk. split_and!; [done..| |].
  { eapply block_counted; [done|apply D|exact Hs|]. by rewrite Ed, andb_false_r. }
  rewrite Ed. intros ops obs Hops Hrun. destruct (data_run interval r delta ts persisted g kvs Hi D index Hix ops obs Hops Hrun) as (l & it & E & Hsame & _). eauto.
Qed.

(** ** Point lookups *)

Section lookup.
Context {port : Port} {ucomparator : Comparator} `{!CompareOk ucmp} (Hexact : forall a b, ucmp a b = Eq -> a = b).
Context (interval r : Z) (delta : bool) (g : option Z) (kvs : list (list Z * list Z)).
Context (Hi : 1 <= interval) (D : data_input 0 true g kvs).
Notation o := (mkBuilderOptions interval delta false 0%nat false).
Context (index : option (Z * list Z)) (Hix : index_ok o kvs index).
Notation c := (data_config interval r delta 0 true g kvs index).
Notation es := (data_entries 0 true g kvs).
Notation view := (view c (stored_all o kvs) (share delta (Z.to_nat interval) (stored_all o kvs)) (Z.to_nat interval) (num_of o kvs) (tail_of o kvs index)).

Lemma lookup_user i : (i < length (stored_all o kvs))%nat -> ukeys kvs !! i = Some (user_part (shown c (stored_all o kvs) i)).
Proof.
  intros Hi'. destruct (stored_some interval delta 0 true kvs i Hi') as (k & v & E). rewrite (data_shown interval r delta 0 true g kvs D index Hix i k v E). unfold ukeys. rewrite list_lookup_fmap, E. cbn [fmap option_fmap option_map fst].
  unfold data_key. cbn [Nat.ltb Nat.leb andb]. destruct g; [|done]. cbn [with_seqno]. by rewrite user_part_app by apply length_le_bytes.
Qed.

Definition lookup_result (t : list Z) (found : bool) (x : option (list Z * list Z * Z)) : Prop :=
  if found then fst <$> x = es !! lower_bound ikcmp es t
  else forall e, e ∈ es -> user_part (fst e) = user_part t -> ikcmp (fst e) t = Lt.

Lemma lookup_ok t p it :
  ikey t -> inv c (stored_all o kvs) (share delta (Z.to_nat interval) (stored_all o kvs)) (Z.to_nat interval) (num_of o kvs) (tail_of o kvs index) p it ->
  exists found it' x, SeekForGet c t it = Ok (found, it') /\ iter_view c it' = Ok (x, it') /\ lookup_result t found x.
Proof.
  intros Ht Hinv. pose proof (data_layout interval r delta 0 true g kvs Hi D index Hix) as L. pose proof (data_sorted interval r delta 0 true g kvs D index Hix) as KS.
  pose proof (data_ingested interval r delta 0 true g kvs D index Hix) as HI. pose proof (data_lookup interval r delta 0 true g kvs D index Hix) as Hes. pose proof lookup_user as Hus.
  assert (wp (SeekForGet c t) (fun found it' => exists q, view q it' /\ forall x, fst <$> x = fst <$> cursor_view es q -> lookup_result t found x) it) as (found & it' & E & q & Hv & Hx).
  { assert (forall i it', is_lower c (stored_all o kvs) t i -> view (pos (stored_all o kvs) i) it' ->
      exists q, view q it' /\ forall x, fst <$> x = fst <$> cursor_view es q -> lookup_result t true x) as HT.
    { intros i it' Hlow Hv. eexists. split; [exact Hv|]. intros x Hfx. unfold lookup_result. rewrite Hfx. pose proof (lower_bound_ok c _ KS es Hes t) as Hlb. rewrite data_kcmp in Hlb.
      rewrite (lower_unique _ _ _ _ _ Hlb Hlow). rewrite <- (at_or_end_pos c _ es Hes). unfold at_or_end. destruct (Nat.ltb_spec i (length es)) as [H|H]; [|by rewrite lookup_ge_None_2].
      destruct (lookup_lt_is_Some_2 es i H) as [e He]. unfold cursor_view. cbn. by rewrite He. }
    destruct index as [[nb bk]|]; [|by eapply (SeekForGet_plain_ok _ _ _ _ _ _ L KS HI); [done|done|exact Hinv|exact HT]]. destruct Hix as (Hnb & Htab & Hn & _).
    eapply (SeekForGet_hash_ok _ _ _ _ _ _ L KS HI eq_refl nb bk _ (ukeys kvs) eq_refl Hnb Htab Hn); [by rewrite length_st; apply length_map|exact Hus|done|done|done|exact Hinv|exact HT|].
    intros i it' Hv Hno. exists (Some i). split; [done|]. intros x _ e [k He]%list_elem_of_lookup Hu. pose proof (lookup_lt_Some _ _ _ He) as Hk. rewrite (length_es _ _ es Hes) in Hk.
    rewrite (es_at _ _ es Hes k Hk) in He. injection He as <-. by apply Hno. }
  assert (wp (iter_view c) (fun x s => fst <$> x = fst <$> cursor_view es q /\ s = it') it') as (x & s & Ev & Hfx & ->).
  { eapply (iter_view_ok c _ _ _ _ _ L es Hes); [exact Hv|]. intros x [Hfx _]. done. }
  exists found, it', x. auto.
Qed.

End lookup.

(** C34. A point lookup through the hash index of a block, from any state an
    iterator can be in, finds what a seek to its target finds; where it answers
    that there is nothing, no key of the block with the user key of the target is
    at or behind the target. *)
Theorem point_lookup_sound {port : Port} {ucomparator : Comparator} {CO : CompareOk ucmp} interval r delta index_type ratio g with_last kvs :
  (forall a b, ucmp a b = Eq -> a = b) -> 1 <= interval -> index_sizable index_type ratio (length kvs) -> data_input 0 true g kvs ->
  exists b contents blk, new_BlockBuilder interval delta false index_type ratio 0 true false = Ok b /\
    build_block b with_last kvs = Ok contents /\ new_Block contents = Ok blk /\
    let (c, it) := NewDataIterator blk 0 g true r in
    forall ops obs t, Forall (op_target_ok false) ops -> cursor_run ikcmp (data_entries 0 true g kvs) None ops = Some obs -> ikey t ->
      exists l it1 found it2 x, iter_run (kind := DataBlockIter c) c ops it = Ok (l, it1) /\ SeekForGet c t it1 = Ok (found, it2) /\
        iter_view c it2 = Ok (x, it2) /\ lookup_result g kvs t found x.
Proof.
  intros Hexact Hi Hest D.
  destruct (block_opened interval delta index_type ratio 0 true with_last kvs Hi Hest (data_fits _ _ _ _ _ _ D _) (input_small _ _ _ _ D)) as (b & ct & blk & index & Eb & Ec & Ek & _ & Hix & _ & Ed & _).
  exists b, ct, blk. split_and!; [done..|]. rewrite Ed. intros ops obs t Hops Hrun Ht.
  destruct (data_run interval r delta 0 true g kvs Hi D index Hix ops obs Hops Hrun) as (l & it & E & _ & q & Hinv).
  destruct (lookup_ok Hexact interval r delta g kvs Hi D index Hix t q it Ht Hinv) as (found & it2 & x & Es & Ev & Hres). by exists l, it, found, it2, x.
Qed.

(** ** Meta blocks *)

(** Entries a meta block can hold. *)
Record meta_input (kvs : list (list Z * list Z)) : Prop := {
  meta_keys : Forall (fun kv => Forall byte_ok (fst kv)) kvs;
  meta_sorted : forall i j a b, (i < j)%nat -> kvs !! i = Some a -> kvs !! j = Some b -> BytewiseComparator (fst a) (fst b) = Lt;
  meta_small : input_size kvs + 8 < 2 ^ 32 - 1
}.

Section meta.
#[local] Existing Instance BytewiseComparator.
Context {port : Port} (interval r : Z) (delta : bool) (kvs : list (list Z * list Z)).
Context (Hi : 1 <= interval) (D : meta_input kvs).
Notation o := (mkBuilderOptions interval delta false 0%nat false).
Notation c := (block_config o kvs None None 0 false true r).

Lemma meta_stored : stored_all o kvs = kvs.
Proof. unfold stored_all, stored. cbn. rewrite <- (map_id kvs) at 2. apply map_ext. by intros []. Qed.

Lemma meta_layout : layout c (stored_all o kvs) (share delta (Z.to_nat interval) (stored_all o kvs)) (Z.to_nat interval) (num_of o kvs) (tail_of o kvs None).
Proof.
  apply (layout_built o false Hi); try done; [|by apply block_size_input; [exact Hi| |apply D]].
  eapply Forall_impl; [apply D|]. intros kv Hk. split; [exact Hk|cbn; lia].
Qed.

Lemma meta_shown i k v : kvs !! i = Some (k, v) -> shown c (stored_all o kvs) i = k.
Proof. intros Hk. unfold shown, raw, sk. cbn [block_config is_user_key pad_min_timestamp_]. by rewrite meta_stored, Hk. Qed.

Lemma meta_lookup i : kvs !! i = (fun v => (shown c (stored_all o kvs) i, v)) <$> (snd <$> stored_all o kvs !! i).
Proof. destruct (kvs !! i) as [[k v]|] eqn:E; rewrite meta_stored at 1; rewrite E; [|done]. by rewrite (meta_shown i k v E). Qed.

Lemma meta_sorted_keys : sorted_keys c (stored_all o kvs).
Proof.
  split; [|done]. intros i j. rewrite length_st. intros Hij. change (kcmp c) with BytewiseComparator.
  destruct (lookup_lt_is_Some_2 kvs i ltac:(lia)) as [[k v] E]. destruct (lookup_lt_is_Some_2 kvs j ltac:(lia)) as [[k' v'] E'].
  rewrite (meta_shown i k v E), (meta_shown j k' v' E'). exact (meta_sorted _ D i j _ _ ltac:(lia) E E').
Qed.

Lemma meta_run ops obs : cursor_run BytewiseComparator kvs None ops = Some obs ->
  exists l it', iter_run (kind := MetaBlockIter c) c ops (fresh c StatusOK) = Ok (l, it') /\ same_run (r = interval \/ Z.of_nat (length kvs) <= interval) l obs.
Proof.
  intros Hrun. destruct (iter_run_ok c _ _ _ _ _ meta_layout meta_sorted_keys (KO := meta_kind_ok _ _ _ _ _ _ meta_layout) _ meta_lookup ops None (fresh c StatusOK) obs) as (l & it & E & Hq & E1 & E2); [|apply fresh_inv|done|].
  - apply Forall_true. by intros [].
  - exists l, it. split; [done|]. split; [done|]. intros Hk. by apply E2, (known_interval c o kvs Hi).
Qed.

End meta.

(** C27. Meta blocks, whose iterator checks every entry and keeps no cache for
    stepping back, refine the cursor in the same way, for keys of any length in
    bytewise order. *)
Theorem meta_block_refines {port : Port} (ucomparator := BytewiseComparator) interval r delta with_last kvs :
  1 <= interval -> meta_input kvs ->
  exists b contents blk, new_BlockBuilder interval delta false kDataBlockBinarySearch kDefaultUtilRatio 0 true false = Ok b /\
    build_block b with_last kvs = Ok contents /\ new_Block contents = Ok blk /\
    let (c, it) := NewMetaIterator blk r in
    forall ops obs, cursor_run BytewiseComparator kvs None ops = Some obs ->
      exists l it', iter_run (ucomparator := ucomparator) (kind := MetaBlockIter c) c ops it = Ok (l, it') /\ same_run (r = interval \/ Z.of_nat (length kvs) <= interval) l obs.
Proof.
  intros Hi D.
  assert (Forall (fun kv => key_fits (mkBuilderOptions interval delta false 0 false) false (fst kv)) kvs) as Hf.
  { eapply Forall_impl; [apply D|]. intros kv Hk. split; [exact Hk|cbn; lia]. }
  destruct (block_opened interval delta kDataBlockBinarySearch kDefaultUtilRatio 0 true with_last kvs Hi ltac:(done) Hf (meta_small _ D)) as (b & ct & blk & index & Eb & Ec & Ek & Hno & _ & _ & _ & Em).
  destruct index as [x|]; [by specialize (Hno ltac:(eauto))|]. exists b, ct, blk. split_and!; [done..|]. rewrite (Em eq_refl). intros ops obs. by apply (meta_run interval r delta kvs Hi D).
Qed.

(** ** The theorems at a concrete block *)

Definition sample_key (u : list Z) (seqno : Z) : list Z := u ++ le_bytes 8 (Z.lor (Z.shiftl seqno 8) kTypeValue).
Definition sample_kvs : list (list Z * list Z) :=
  [(sample_key [97] 3, [1]); (sample_key [97; 98] 9, [2; 2]); (sample_key [97; 98] 4, []); (sample_key [98] 7, [3])].
Definition sample_ops : list iter_op := [OSeekToLast; OPrev; OSeek (sample_key [97; 98] 5); ONext; OSeekForPrev (sample_key [97] 1); ONext].

Lemma strongly_sorted_lookup {A} (R : A -> A -> Prop) l : StronglySorted R l -> forall i j a b, (i < j)%nat -> l !! i = Some a -> l !! j = Some b -> R a b.
Proof.
  induction 1 as [|x l _ IH Hx]; [done|]. intros [|i] [|j] a b Hij; cbn; try lia.
  - intros [= <-] Hb. rewrite Forall_lookup in Hx. eauto.
  - apply IH. lia.
Qed.

Lemma sample_input : data_input (H := BytewiseComparator) 0 true None sample_kvs.
Proof.
  split.
  - repeat constructor; vm_compute; congruence || lia.
  - apply (strongly_sorted_lookup (fun a b => ikcmp (fst a) (fst b) = Lt)). repeat constructor; vm_compute; reflexivity.
  - vm_compute. reflexivity.
  - vm_compute. reflexivity.
  - done.
Qed.

Lemma sample_targets : Forall (op_target_ok false) sample_ops.
Proof. repeat constructor; vm_compute; try congruence; lia. Qed.

(** Four keys in two intervals, read forwards, backwards and by seeking. *)
Lemma data_block_refines_witness :
  exists b contents blk, new_BlockBuilder 2 true false kDataBlockBinaryAndHash kDefaultUtilRatio 0 true false = Ok b /\
    build_block (port := true) b false sample_kvs = Ok contents /\ new_Block (port := true) contents = Ok blk /\ counts_keys (port := true) (ucomparator := BytewiseComparator) blk 0 2 4 /\
    let (c, it) := NewDataIterator blk 0 None true 2 in
    exists it', iter_run (port := true) (ucomparator := BytewiseComparator) (kind := DataBlockIter (port := true) c) c sample_ops it =
      Ok ((fun i => e ← sample_kvs !! i; Some (e, Z.of_nat i)) <$> [3; 2; 2; 3; 0; 1]%nat, it').
Proof.
  destruct (data_block_refines (port := true) (ucomparator := BytewiseComparator) 2 2 true kDataBlockBinaryAndHash kDefaultUtilRatio 0 true None false sample_kvs)
    as (b & ct & blk & Eb & Ec & Ek & En & H); [lia|by intros _; vm_compute|exact sample_input|].
  exists b, ct, blk. split; [exact Eb|]. split; [exact Ec|]. split; [exact Ek|]. split; [exact En|]. destruct (NewDataIterator blk 0 None true 2) as [c it].
  destruct (H sample_ops _ sample_targets eq_refl) as (l & it' & E & _ & Hl). exists it'. rewrite Hl in E by (left; reflexivity). exact E.
Defined.

(** Looking up a key that is there, behind a lookup that moved the iterator. *)
Lemma point_lookup_sound_witness :
  exists b contents blk, new_BlockBuilder 2 true false kDataBlockBinaryAndHash kDefaultUtilRatio 0 true false = Ok b /\
    build_block (port := true) b true sample_kvs = Ok contents /\ new_Block (port := true) contents = Ok blk /\
    let (c, it) := NewDataIterator blk 0 None true 0 in
    exists l it1 found it2 x,
      iter_run (port := true) (ucomparator := BytewiseComparator) (kind := DataBlockIter (port := true) c) c sample_ops it = Ok (l, it1) /\
      SeekForGet (port := true) (ucomparator := BytewiseComparator) c (sample_key [97; 98] 5) it1 = Ok (found, it2) /\ iter_view c it2 = Ok (x, it2) /\
      lookup_result (ucomparator := BytewiseComparator) None sample_kvs (sample_key [97; 98] 5) found x.
Proof.
  destruct (point_lookup_sound (port := true) (ucomparator := BytewiseComparator) 2 0 true kDataBlockBinaryAndHash kDefaultUtilRatio None true sample_kvs)
    as (b & ct & blk & Eb & Ec & Ek & H); [|lia|by intros _; vm_compute|exact sample_input|].
  - intros x y. rewrite slice_compare_lex. apply bytes_cmp_eq.
  - exists b, ct, blk. split; [exact Eb|]. split; [exact Ec|]. split; [exact Ek|]. destruct (NewDataIterator blk 0 None true 0) as [c it].
    apply (H sample_ops _ (sample_key [97; 98] 5) sample_targets eq_refl). split; [vm_compute; lia|repeat constructor; vm_compute; congruence].
Defined.

Definition sample_meta : list (list Z * list Z) := [([], [1]); ([97], []); ([97; 98; 99], [2]); ([98], [3; 4])].

Lemma meta_block_refines_witness :
  exists b contents blk, new_BlockBuilder 1 true false kDataBlockBinarySearch kDefaultUtilRatio 0 true false = Ok b /\
    build_block (port := true) b false sample_meta = Ok contents /\ new_Block (port := true) contents = Ok blk /\
    let (c, it) := NewMetaIterator blk 0 in
    exists l it', iter_run (port := true) (ucomparator := BytewiseComparator) (kind := MetaBlockIter (port := true) c) c [OSeek [97; 98]; OPrev; OPrev; OSeekToLast] it = Ok (l, it') /\
      map (fmap fst) l = map (fun i => sample_meta !! i) [2; 1; 0; 3]%nat.
Proof.
  destruct (meta_block_refines (port := true) 1 0 true false sample_meta) as (b & ct & blk & Eb & Ec & Ek & H); [lia| |].
  - split; [repeat constructor; vm_compute; congruence| |vm_compute; reflexivity].
    apply (strongly_sorted_lookup (fun a b => BytewiseComparator (fst a) (fst b) = Lt)). repeat constructor; vm_compute; reflexivity.
  - exists b, ct, blk. split; [exact Eb|]. split; [exact Ec|]. split; [exact Ek|]. destruct (NewMetaIterator blk 0) as [c it].
    destruct (H [OSeek [97; 98]; OPrev; OPrev; OSeekToLast] _ eq_refl) as (l & it' & E & Hl & _). exists l, it'. split; [exact E|]. rewrite Hl. reflexivity.
Defined.

(** ** What the interface does not say *)

(** A lookup in a block with a hash index. *)
Definition lookup_in (kvs : list (list Z * list Z)) (t : list Z) : result bool :=
  let? b := new_BlockBuilder 2 true false kDataBlockBinaryAndHash kDefaultUtilRatio 0 true false in
  let? contents := build_block (port := true) b false kvs in
  let? blk := new_Block (port := true) contents in
  let (c, it) := NewDataIterator blk 0 None true 0 in
  let? (found, _) := SeekForGet (port := true) (ucomparator := BytewiseComparator) c t it in Ok found.

(** A negative answer is said to mean that the last key of the block has a
    greater user key. It does not: the hash of [q] falls into the bucket of a key
    of the first of three intervals, and all keys are smaller. *)
Example lookup_false_positive :
  let kvs := map (fun x => (sample_key [x] 3, [x])) [97; 98; 99; 100; 101] in
  let t := sample_key [113] 5 in
  lookup_in kvs t = Ok false /\ Forall (fun kv => slice_compare (user_part (fst kv)) (user_part t) = Lt) kvs.
Proof. split; [vm_compute; reflexivity|]. repeat constructor; vm_compute; reflexivity. Qed.

(** The sum of two lengths wraps around: a corrupted meta block is not refused,
    and the key is read behind the end of the block. *)
Example overflowing_lengths_read :
  (let? blk := new_Block (port := true) ([0; 255; 255; 255; 255; 15; 1; 97] ++ le_bytes 4 0 ++ le_bytes 4 1) in
   let (c, it) := NewMetaIterator blk 0 in SeekToFirst (port := true) (kind := MetaBlockIter (port := true) c) c it) = Err EBounds.
Proof. vm_compute. reflexivity. Qed.

(** Eight bytes that claim 2^30 restart points are taken for a block: the size of
    the restart array wraps around. *)
Example wrapped_restart_count :
  (let? blk := new_Block (port := true) (le_bytes 4 0 ++ le_bytes 4 (2 ^ 30)) in Ok (size_ blk, block_num_restarts blk)) = Ok (8, 2 ^ 30).
Proof. vm_compute. reflexivity. Qed.
