(* ===== verification/SkipList.v ===== *)
(** * The skip list of memtables

    memtable/inlineskiplist.h and the generator of util/random.h.  The list is
    read and extended by several threads without a lock, so the routines are
    programs of atomic actions on the shared memory: one text serves the
    sequential runs and the interleaved ones. *)

From S2P Require Import Prelude Words Slice DbFormat.

(** ** Memory *)

Definition kMaxPossibleHeight : nat := 32.

(** Addresses of nodes. *)
Notation loc := nat.

(** The cells of [next_]: level [i] lies [i] cells below the node.  The cell of
    level 0 holds the height until the node is inserted. *)
Inductive next_cell : Type :=
  | Stash (height : nat)
  | Uninit
  | Ptr (p : option loc).

Record Node : Type := mkNode { node_key : list Z; next_ : list next_cell }.

Record memory : Type := mkMemory { nodes : gmap loc Node; max_height_ : nat }.

(** The accesses to shared memory.  [compare_exchange_weak] may also fail without
    a reason; its caller then repeats the same call with the same arguments, as
    if the thread had not been scheduled, so these failures need no outcome of
    their own. *)
Inductive act : Type -> Type :=
  | Next (x : loc) (n : nat) : act (option loc)
  | SetNext (x : loc) (n : nat) (p : option loc) : act unit
  | CASNext (x : loc) (n : nat) (expected p : option loc) : act bool
  | UnstashHeight (x : loc) : act nat
  | Key (x : loc) : act (list Z)
  | GetMaxHeight : act nat
  | CASMaxHeight (expected height : nat) : act (bool * nat).

Definition slot_at (x : loc) (n : nat) (m : memory) : result next_cell :=
  match nodes m !! x with
  | None => Err ENull
  | Some nd => match next_ nd !! n with None => Err EBounds | Some c => Ok c end
  end.

Definition load (x : loc) (n : nat) (m : memory) : result (option loc) :=
  let? c := slot_at x n m in match c with Ptr p => Ok p | _ => Err EUninit end.

Definition store (x : loc) (n : nat) (p : option loc) (m : memory) : result memory :=
  match nodes m !! x with
  | None => Err ENull
  | Some nd =>
      if (n <? length (next_ nd))%nat
      then Ok (mkMemory (<[x := mkNode (node_key nd) (<[n := Ptr p]> (next_ nd))]> (nodes m)) (max_height_ m))
      else Err EBounds
  end.

Definition perform {B} (a : act B) (m : memory) : result (B * memory) :=
  match a with
  | Next x n => let? p := load x n m in Ok (p, m)
  | SetNext x n p => let? m := store x n p m in Ok (tt, m)
  | CASNext x n expected p =>
      let? q := load x n m in
      if decide (q = expected) then let? m := store x n p m in Ok (true, m) else Ok (false, m)
  | UnstashHeight x => let? c := slot_at x 0 m in match c with Stash h => Ok (h, m) | _ => Err EUninit end
  | Key x => match nodes m !! x with None => Err ENull | Some nd => Ok (node_key nd, m) end
  | GetMaxHeight => Ok (max_height_ m, m)
  | CASMaxHeight expected height =>
      if (max_height_ m =? expected)%nat then Ok ((true, expected), mkMemory (nodes m) height) else Ok ((false, max_height_ m), m)
  end.

(** ** Programs *)

Inductive prog (A : Type) : Type :=
  | Ret (a : A)
  | Fail (e : error)
  | Act (B : Type) (a : act B) (k : B -> prog A).
Arguments Ret {A} a.
Arguments Fail {A} e.
Arguments Act {A B} a k.

Fixpoint pbind {A B} (p : prog A) (k : A -> prog B) : prog B :=
  match p with
  | Ret a => k a
  | Fail e => Fail e
  | Act a k' => Act a (fun b => pbind (k' b) k)
  end.

Definition do {B} (a : act B) : prog B := Act a Ret.
Definition passert (b : bool) : prog unit := if b then Ret tt else Fail EAssert.

Declare Scope prog_scope.
Delimit Scope prog_scope with prog.
Notation "x <- p ;; k" := (pbind p (fun x => k)) (at level 85, p at next level, right associativity) : prog_scope.
Notation "p ;;; k" := (pbind p (fun _ => k)) (at level 85, right associativity) : prog_scope.

(** A run without interference. *)
Fixpoint run {A} (p : prog A) : M memory A :=
  match p with
  | Ret a => ret a
  | Fail e => fail e
  | Act a k => fun m => match perform a m with Ok (b, m') => run (k b) m' | Err e => Err e end
  end.

(** ** Random heights *)

(** [Random::Next]: the new seed is the number drawn. *)
Definition kMaxNext : Z := 2147483647.
Definition GoodSeed (s : Z) : Z := if Z.land s kMaxNext =? 0 then 1 else Z.land s kMaxNext.
Definition Random_Next (seed_ : Z) : Z :=
  let product := wmul 64 seed_ 16807 in
  let seed_ := wrap 32 (Z.shiftr product 31 + Z.land product kMaxNext) in
  if kMaxNext <? seed_ then seed_ - kMaxNext else seed_.

Fixpoint height_loop (n : nat) (kMaxHeight_ : nat) (kScaledInverseBranching_ : Z) (height : nat) (seed_ : Z) : nat * Z :=
  match n with
  | O => (height, seed_)
  | S n =>
      if (height <? kMaxHeight_)%nat && (height <? kMaxPossibleHeight)%nat then
        let seed_ := Random_Next seed_ in
        if seed_ <? kScaledInverseBranching_ then height_loop n kMaxHeight_ kScaledInverseBranching_ (S height) seed_
        else (height, seed_)
      else (height, seed_)
  end.

(** ** The list *)

(** A splice: [None] is an entry never written. *)
Record Splice : Type := mkSplice { height_ : nat; prev_ : list (option (option loc)); next_s : list (option (option loc)) }.

(** The constant fields of the list. *)
Record InlineSkipList : Type := mkList {
  kMaxHeight_ : nat; kBranching_ : Z; kScaledInverseBranching_ : Z; head_ : loc
}.

Definition read_at (a : list (option (option loc))) (i : nat) : prog (option loc) :=
  match a !! i with None => Fail EBounds | Some None => Fail EUninit | Some (Some p) => Ret p end.

Definition put (i : nat) (p : option loc) (a : list (option (option loc))) : prog (list (option (option loc))) :=
  if (i <? length a)%nat then Ret (<[i := Some p]> a) else Fail EBounds.

Definition not_null (p : option loc) : prog loc :=
  match p with None => Fail ENull | Some x => Ret x end.

Local Open Scope prog_scope.

Section list.
Context {cmp : Comparator} (this : InlineSkipList).

Definition is_head (p : option loc) : bool := bool_decide (p = Some (head_ this)).

Definition KeyIsAfterNode (key : list Z) (n : option loc) : prog bool :=
  passert (negb (is_head n)) ;;;
  match n with
  | None => Ret false
  | Some n => k <- do (Key n) ;; Ret (bool_decide (ucmp k key = Lt))
  end.

(** [PREFETCH(next->Next(level))] loads the pointer it passes on. *)
Definition prefetch (next : option loc) (level : nat) : prog unit :=
  match next with None => Ret tt | Some y => do (Next y level) ;;; Ret tt end.

(** [assert(x == head_ || next == nullptr || KeyIsAfterNode(next->Key(), x))]. *)
Definition assert_sorted (x : loc) (next : option loc) : prog unit :=
  if is_head (Some x) then Ret tt else
  match next with
  | None => Ret tt
  | Some y => k <- do (Key y) ;; b <- KeyIsAfterNode k (Some x) ;; passert b
  end.

(** [assert(x == head_ || KeyIsAfterNode(key, x))]. *)
Definition assert_after (key : list Z) (x : loc) : prog unit :=
  if is_head (Some x) then Ret tt else b <- KeyIsAfterNode key (Some x) ;; passert b.

(** ** Searches *)

Fixpoint greater_loop (fuel : nat) (key : list Z) (x : loc) (level : nat) (last_bigger : option loc) : prog (option loc) :=
  match fuel with
  | O => Fail EFuel
  | S fuel =>
      next <- do (Next x level) ;;
      prefetch next level ;;;
      assert_sorted x next ;;;
      assert_after key x ;;;
      cmp <- match next with
             | None => Ret Gt
             | Some y => if bool_decide (next = last_bigger) then Ret Gt else k <- do (Key y) ;; Ret (ucmp k key)
             end ;;
      match cmp, level with
      | Eq, _ | Gt, O => Ret next
      | Lt, _ => x <- not_null next ;; greater_loop fuel key x level last_bigger
      | Gt, S level => greater_loop fuel key x level next
      end
  end.

Definition FindGreaterOrEqual (fuel : nat) (key : list Z) : prog (option loc) :=
  max_height <- do GetMaxHeight ;;
  greater_loop fuel key (head_ this) (max_height - 1) None.

(** [FindLessThan] with [prev == nullptr], as all its callers pass it. *)
Fixpoint less_loop (fuel : nat) (key : list Z) (x : loc) (level bottom_level : nat) (last_not_after : option loc) : prog loc :=
  match fuel with
  | O => Fail EFuel
  | S fuel =>
      next <- do (Next x level) ;;
      prefetch next level ;;;
      assert_sorted x next ;;;
      assert_after key x ;;;
      after <- (if bool_decide (next = last_not_after) then Ret false else KeyIsAfterNode key next) ;;
      if after : bool then x <- not_null next ;; less_loop fuel key x level bottom_level last_not_after
      else if (level =? bottom_level)%nat then Ret x
      else less_loop fuel key x (level - 1) bottom_level next
  end.

Definition FindLessThan_from (fuel : nat) (key : list Z) (root : loc) (top_level bottom_level : nat) : prog loc :=
  passert (bottom_level <? top_level)%nat ;;;
  less_loop fuel key root (top_level - 1) bottom_level None.

Definition FindLessThan (fuel : nat) (key : list Z) : prog loc :=
  max_height <- do GetMaxHeight ;;
  FindLessThan_from fuel key (head_ this) max_height 0.

Fixpoint find_last_loop (fuel : nat) (x : loc) (level : nat) : prog loc :=
  match fuel with
  | O => Fail EFuel
  | S fuel =>
      next <- do (Next x level) ;;
      match next, level with
      | None, O => Ret x
      | None, S level => find_last_loop fuel x level
      | Some y, _ => find_last_loop fuel y level
      end
  end.

Definition FindLast (fuel : nat) : prog loc :=
  max_height <- do GetMaxHeight ;;
  find_last_loop fuel (head_ this) (max_height - 1).

Definition Contains (fuel : nat) (key : list Z) : prog bool :=
  x <- FindGreaterOrEqual fuel key ;;
  match x with
  | None => Ret false
  | Some x => k <- do (Key x) ;; Ret (bool_decide (ucmp key k = Eq))
  end.

Fixpoint count_loop (fuel : nat) (key : list Z) (x : loc) (level : nat) (count : Z) : prog Z :=
  match fuel with
  | O => Fail EFuel
  | S fuel =>
      (if is_head (Some x) then Ret tt else k <- do (Key x) ;; passert (bool_decide (ucmp k key = Lt))) ;;;
      next <- do (Next x level) ;;
      prefetch next level ;;;
      bigger <- match next with
                | None => Ret true
                | Some y => k <- do (Key y) ;; Ret (bool_decide (ucmp k key <> Lt))
                end ;;
      match bigger, level with
      | true, O => Ret count
      | true, S level => count_loop fuel key x level (wmul 64 count (kBranching_ this))
      | false, _ => x <- not_null next ;; count_loop fuel key x level (wadd 64 count 1)
      end
  end.

Definition EstimateCount (fuel : nat) (key : list Z) : prog Z :=
  max_height <- do GetMaxHeight ;;
  count_loop fuel key (head_ this) (max_height - 1) 0.

(** ** Insertion *)

Fixpoint FindSpliceForLevel (prefetch_before : bool) (fuel : nat) (key : list Z) (before : loc) (after : option loc)
  (level : nat) : prog (loc * option loc) :=
  match fuel with
  | O => Fail EFuel
  | S fuel =>
      next <- do (Next before level) ;;
      prefetch next level ;;;
      (if prefetch_before && (0 <? level)%nat then prefetch next (level - 1) else Ret tt) ;;;
      assert_sorted before next ;;;
      assert_after key before ;;;
      found <- (if bool_decide (next = after) then Ret true else b <- KeyIsAfterNode key next ;; Ret (negb b)) ;;
      if found : bool then Ret (before, next)
      else before <- not_null next ;; FindSpliceForLevel prefetch_before fuel key before after level
  end.

(** [*out_prev] and [*out_next], which are always entries of a splice. *)
Definition put_level (i : nat) (r : loc * option loc) (splice : Splice) : prog Splice :=
  prev <- put i (Some r.1) (prev_ splice) ;;
  next <- put i r.2 (next_s splice) ;;
  Ret (mkSplice (height_ splice) prev next).

Fixpoint recompute_loop (fuel : nat) (key : list Z) (n : nat) (splice : Splice) : prog Splice :=
  match n with
  | O => Ret splice
  | S i =>
      before <- read_at (prev_ splice) (i + 1) ;;
      before <- not_null before ;;
      after <- read_at (next_s splice) (i + 1) ;;
      r <- FindSpliceForLevel true fuel key before after i ;;
      splice <- put_level i r splice ;;
      recompute_loop fuel key i splice
  end.

Definition RecomputeSpliceLevels (fuel : nat) (key : list Z) (splice : Splice) (recompute_level : nat) : prog Splice :=
  passert (0 <? recompute_level)%nat ;;;
  passert (recompute_level <=? height_ splice)%nat ;;;
  recompute_loop fuel key recompute_level splice.

(** [while (height > max_height)]: raise the height of the list. *)
Fixpoint raise_loop (fuel : nat) (height max_height : nat) : prog nat :=
  if (height <=? max_height)%nat then Ret max_height else
  match fuel with
  | O => Fail EFuel
  | S fuel =>
      r <- do (CASMaxHeight max_height height) ;;
      if fst r : bool then Ret height else raise_loop fuel height (snd r)
  end.

(** [while (a[recompute_height] == bad) ++recompute_height]. *)
Fixpoint skip_loop (fuel : nat) (a : list (option (option loc))) (bad : option loc) (recompute_height : nat) : prog nat :=
  match fuel with
  | O => Fail EFuel
  | S fuel =>
      p <- read_at a recompute_height ;;
      if bool_decide (p = bad) then skip_loop fuel a bad (recompute_height + 1) else Ret recompute_height
  end.

(** How many levels of a splice that was used before must be recomputed. *)
Fixpoint check_loop (fuel : nat) (key : list Z) (splice : Splice) (allow_partial_splice_fix : bool)
  (max_height recompute_height : nat) : prog nat :=
  if (recompute_height <? max_height)%nat then
    match fuel with
    | O => Fail EFuel
    | S fuel =>
        prev <- read_at (prev_ splice) recompute_height ;;
        x <- not_null prev ;;
        tight <- do (Next x recompute_height) ;;
        next <- read_at (next_s splice) recompute_height ;;
        if negb (bool_decide (tight = next)) then
          check_loop fuel key splice allow_partial_splice_fix max_height (recompute_height + 1)
        else
          before <- (if is_head prev then Ret false else b <- KeyIsAfterNode key prev ;; Ret (negb b)) ;;
          if before : bool then
            r <- (if allow_partial_splice_fix then skip_loop (length (prev_ splice) + 1) (prev_ splice) prev recompute_height
                  else Ret max_height) ;;
            check_loop fuel key splice allow_partial_splice_fix max_height r
          else
            after <- KeyIsAfterNode key next ;;
            if after : bool then
              r <- (if allow_partial_splice_fix then skip_loop (length (next_s splice) + 1) (next_s splice) next recompute_height
                    else Ret max_height) ;;
              check_loop fuel key splice allow_partial_splice_fix max_height r
            else Ret recompute_height
    end
  else Ret recompute_height.

(** A new node against its neighbours; a null pointer and the head are never
    compared. *)
Definition compare_next (x : loc) (next : option loc) : prog comparison :=
  match next with
  | None => Ret Lt
  | Some y => k <- do (Key x) ;; k' <- do (Key y) ;; Ret (ucmp k k')
  end.

Definition compare_prev (prev : option loc) (x : loc) : prog comparison :=
  if is_head prev then Ret Lt else
  y <- not_null prev ;; k <- do (Key y) ;; k' <- do (Key x) ;; Ret (ucmp k k').

Definition is_lt (c : comparison) : bool := match c with Lt => true | _ => false end.

(** The duplicate test of level 0 and the assertions behind it; [true] for a
    duplicate. *)
Definition check_neighbours (x : loc) (splice : Splice) (i : nat) : prog bool :=
  next <- read_at (next_s splice) i ;;
  c <- (if (i =? 0)%nat then compare_next x next else Ret Lt) ;;
  if negb (is_lt c) then Ret true else
  prev <- read_at (prev_ splice) i ;;
  c <- (if (i =? 0)%nat then compare_prev prev x else Ret Lt) ;;
  if negb (is_lt c) then Ret true else
  c <- compare_next x next ;; passert (is_lt c) ;;;
  c <- compare_prev prev x ;; passert (is_lt c) ;;;
  Ret false.

(** Find the bracket of a level again. *)
Definition refind (fuel : nat) (key : list Z) (i : nat) (splice : Splice) : prog Splice :=
  before <- read_at (prev_ splice) i ;;
  before <- not_null before ;;
  r <- FindSpliceForLevel false fuel key before None i ;;
  put_level i r splice.

(** The result of linking: [None] for a duplicate. *)
Fixpoint cas_loop (rounds fuel : nat) (key : list Z) (x : loc) (i : nat) (splice : Splice) (splice_is_valid : bool) :
  prog (option bool * Splice) :=
  match rounds with
  | O => Fail EFuel
  | S rounds =>
      dup <- check_neighbours x splice i ;;
      if dup : bool then Ret (None, splice) else
      next <- read_at (next_s splice) i ;;
      do (SetNext x i next) ;;;
      prev <- read_at (prev_ splice) i ;;
      prev <- not_null prev ;;
      won <- do (CASNext prev i next (Some x)) ;;
      if won : bool then Ret (Some splice_is_valid, splice) else
      splice <- refind fuel key i splice ;;
      cas_loop rounds fuel key x i splice (splice_is_valid && negb (0 <? i)%nat)
  end.

Definition store_level (fuel : nat) (key : list Z) (x : loc) (recompute_height i : nat) (splice : Splice) (splice_is_valid : bool) :
  prog (option bool * Splice) :=
  splice <- (if (recompute_height <=? i)%nat then
               prev <- read_at (prev_ splice) i ;;
               prev <- not_null prev ;;
               tight <- do (Next prev i) ;;
               next <- read_at (next_s splice) i ;;
               if bool_decide (tight = next) then Ret splice else refind fuel key i splice
             else Ret splice) ;;
  dup <- check_neighbours x splice i ;;
  if dup : bool then Ret (None, splice) else
  prev <- read_at (prev_ splice) i ;;
  prev <- not_null prev ;;
  next <- read_at (next_s splice) i ;;
  tight <- do (Next prev i) ;;
  passert (bool_decide (tight = next)) ;;;
  do (SetNext x i next) ;;;
  do (SetNext prev i (Some x)) ;;;
  Ret (Some splice_is_valid, splice).

(** [n] levels from [i] on. *)
Fixpoint link_loop (UseCAS : bool) (fuel : nat) (key : list Z) (x : loc) (recompute_height n i : nat) (splice : Splice)
  (splice_is_valid : bool) : prog (option bool * Splice) :=
  match n with
  | O => Ret (Some splice_is_valid, splice)
  | S n =>
      r <- (if UseCAS then cas_loop fuel fuel key x i splice splice_is_valid
            else store_level fuel key x recompute_height i splice splice_is_valid) ;;
      match r with
      | (None, splice) => Ret (None, splice)
      | (Some splice_is_valid, splice) => link_loop UseCAS fuel key x recompute_height n (i + 1) splice splice_is_valid
      end
  end.

(** [for (i < height) splice->prev_[i] = x]. *)
Fixpoint own_loop (x : loc) (n i : nat) (prev : list (option (option loc))) : prog (list (option (option loc))) :=
  match n with
  | O => Ret prev
  | S n => prev <- put i (Some x) prev ;; own_loop x n (i + 1) prev
  end.

(** The assertions about a level of the final splice. *)
Definition assert_level (key : list Z) (splice : Splice) (i : nat) : prog unit :=
  next <- read_at (next_s splice) i ;;
  match next with
  | None => Ret tt
  | Some y => k <- do (Key y) ;; passert (is_lt (ucmp key k))
  end ;;;
  prev <- read_at (prev_ splice) i ;;
  (if is_head prev then Ret tt else
   y <- not_null prev ;; k <- do (Key y) ;; passert (bool_decide (ucmp k key <> Gt))) ;;;
  prev' <- read_at (prev_ splice) (i + 1) ;;
  (if bool_decide (prev' = prev) || is_head prev' then Ret tt else
   y' <- not_null prev' ;; y <- not_null prev ;; k' <- do (Key y') ;; k <- do (Key y) ;; passert (is_lt (ucmp k' k))) ;;;
  next' <- read_at (next_s splice) (i + 1) ;;
  (if bool_decide (next' = next) then Ret tt else
   match next' with
   | None => Ret tt
   | Some y' => y <- not_null next ;; k <- do (Key y) ;; k' <- do (Key y') ;; passert (is_lt (ucmp k k'))
   end).

Fixpoint assert_levels (key : list Z) (splice : Splice) (n i : nat) : prog unit :=
  match n with
  | O => Ret tt
  | S n => assert_level key splice i ;;; assert_levels key splice n (i + 1)
  end.

(** What follows the linking of all levels. *)
Definition finish_splice (key : list Z) (x : loc) (height : nat) (splice_is_valid : bool) (splice : Splice) : prog Splice :=
  if splice_is_valid then
    prev <- own_loop x height 0 (prev_ splice) ;;
    let splice := mkSplice (height_ splice) prev (next_s splice) in
    p <- read_at (prev_ splice) (height_ splice) ;; passert (is_head p) ;;;
    p <- read_at (next_s splice) (height_ splice) ;; passert (bool_decide (p = None)) ;;;
    assert_levels key splice (height_ splice) 0 ;;;
    Ret splice
  else Ret (mkSplice 0 (prev_ splice) (next_s splice)).

(** The splice made to bracket the key, and the number of levels that were
    recomputed for it. *)
Definition prepare_splice (fuel : nat) (key : list Z) (splice : Splice) (allow_partial_splice_fix : bool) (max_height : nat) :
  prog (nat * Splice) :=
  r <- (if (height_ splice <? max_height)%nat then
          prev <- put max_height (Some (head_ this)) (prev_ splice) ;;
          next <- put max_height None (next_s splice) ;;
          Ret (max_height, mkSplice max_height prev next)
        else
          recompute_height <- check_loop max_height key splice allow_partial_splice_fix max_height 0 ;;
          Ret (recompute_height, splice)) ;;
  let '(recompute_height, splice) := r in
  passert (recompute_height <=? max_height)%nat ;;;
  splice <- (if (0 <? recompute_height)%nat then RecomputeSpliceLevels fuel key splice recompute_height else Ret splice) ;;
  Ret (recompute_height, splice).

(** [Insert<UseCAS>] of the node [x] that [AllocateKey] returned. *)
Definition Insert (UseCAS : bool) (fuel : nat) (x : loc) (splice : Splice) (allow_partial_splice_fix : bool) : prog (bool * Splice) :=
  key <- do (Key x) ;;
  height <- do (UnstashHeight x) ;;
  passert ((1 <=? height) && (height <=? kMaxHeight_ this))%nat ;;;
  max_height <- do GetMaxHeight ;;
  max_height <- raise_loop (kMaxHeight_ this) height max_height ;;
  passert (max_height <=? kMaxPossibleHeight)%nat ;;;
  r <- prepare_splice fuel key splice allow_partial_splice_fix max_height ;;
  let '(recompute_height, splice) := r in
  r <- link_loop UseCAS fuel key x recompute_height height 0 splice true ;;
  match r with
  | (None, splice) => Ret (false, splice)
  | (Some splice_is_valid, splice) =>
      splice <- finish_splice key x height splice_is_valid splice ;;
      Ret (true, splice)
  end.

(** [AllocateSplice] and [AllocateSpliceOnHeap], and the arrays on the stack of
    [InsertConcurrently]. *)
Definition blank_splice (n : nat) : Splice := mkSplice 0 (replicate n None) (replicate n None).
Definition AllocateSplice : Splice := blank_splice (kMaxHeight_ this + 1).

Definition InsertConcurrently (fuel : nat) (x : loc) : prog bool :=
  r <- Insert true fuel x (blank_splice kMaxPossibleHeight) false ;; Ret r.1.

(** The splice a hint refers to is allocated at its first use. *)
Definition hinted (hint : option Splice) : Splice := default AllocateSplice hint.
Definition InsertWithHint (fuel : nat) (x : loc) (hint : option Splice) : prog (bool * Splice) :=
  Insert false fuel x (hinted hint) true.
Definition InsertWithHintConcurrently (fuel : nat) (x : loc) (hint : option Splice) : prog (bool * Splice) :=
  Insert true fuel x (hinted hint) true.

(** ** Iterators *)

(** An iterator is its [node_]; its list is fixed. *)
Definition Iter_SetList : option loc := None.

Definition Iter_Valid (node_ : option loc) : bool := bool_decide (node_ <> None).

Definition Iter_key (node_ : option loc) : prog (list Z) :=
  passert (Iter_Valid node_) ;;; x <- not_null node_ ;; do (Key x).

Definition Iter_Next (node_ : option loc) : prog (option loc) :=
  passert (Iter_Valid node_) ;;; x <- not_null node_ ;; do (Next x 0).

(** [if (node_ == list_->head_) node_ = nullptr]. *)
Definition not_head (x : loc) : option loc := if is_head (Some x) then None else Some x.

Definition Iter_Prev (fuel : nat) (node_ : option loc) : prog (option loc) :=
  passert (Iter_Valid node_) ;;;
  x <- not_null node_ ;; k <- do (Key x) ;; x <- FindLessThan fuel k ;; Ret (not_head x).

Definition Iter_Seek (fuel : nat) (target : list Z) : prog (option loc) := FindGreaterOrEqual fuel target.

Definition Iter_SeekToFirst : prog (option loc) := do (Next (head_ this) 0).

Definition Iter_SeekToLast (fuel : nat) : prog (option loc) := x <- FindLast fuel ;; Ret (not_head x).

Fixpoint retreat_loop (fuel rounds : nat) (target : list Z) (node_ : option loc) : prog (option loc) :=
  match rounds with
  | O => Fail EFuel
  | S rounds =>
      after <- (if Iter_Valid node_ then k <- Iter_key node_ ;; Ret (is_lt (ucmp target k)) else Ret false) ;;
      if after : bool then node_ <- Iter_Prev fuel node_ ;; retreat_loop fuel rounds target node_ else Ret node_
  end.

Definition Iter_SeekForPrev (fuel : nat) (target : list Z) : prog (option loc) :=
  node_ <- Iter_Seek fuel target ;;
  node_ <- (if Iter_Valid node_ then Ret node_ else Iter_SeekToLast fuel) ;;
  retreat_loop fuel fuel target node_.

Fixpoint scan_loop (fuel level : nat) (scan_node limit_node : option loc) (lvl_nodes : list loc) : prog (list loc) :=
  if bool_decide (scan_node = limit_node) then Ret lvl_nodes else
  match fuel with
  | O => Fail EFuel
  | S fuel =>
      x <- not_null scan_node ;;
      scan_node <- do (Next x level) ;;
      scan_loop fuel level scan_node limit_node (lvl_nodes ++ [x])
  end.

(** [n] levels are left. *)
Fixpoint random_loop (fuel n : nat) (x : loc) (limit_node : option loc) (seed_ : Z) : prog (loc * Z) :=
  match n with
  | O => Ret (x, seed_)
  | S level =>
      lvl_nodes <- scan_loop fuel level (Some x) limit_node [] ;;
      let seed_ := Random_Next seed_ in
      if (length lvl_nodes =? 0)%nat then Fail EDivZero else
      let rnd_idx := Z.to_nat (seed_ mod Z.of_nat (length lvl_nodes)) in
      match lvl_nodes !! rnd_idx with
      | None => Fail EBounds
      | Some x =>
          let limit_node := match lvl_nodes !! S rnd_idx with Some y => Some y | None => limit_node end in
          random_loop fuel level x limit_node seed_
      end
  end.

Definition FindRandomEntry (fuel : nat) (seed_ : Z) : prog (option loc * Z) :=
  max_height <- do GetMaxHeight ;;
  r <- random_loop fuel max_height (head_ this) None seed_ ;;
  if is_head (Some r.1) then next <- do (Next (head_ this) 0) ;; Ret (next, r.2) else Ret (Some r.1, r.2).

Definition Iter_RandomSeek (fuel : nat) (seed_ : Z) : prog (option loc * Z) := FindRandomEntry fuel seed_.

(** ** Validation *)

(** The upper levels follow the node reached on level 0. *)
Fixpoint follow_loop (n : nat) (max_height i : nat) (nodes : list (option (option loc))) : prog (list (option (option loc))) :=
  match n with
  | O => Ret nodes
  | S n =>
      if (i <? max_height)%nat then
        x <- read_at nodes i ;; x <- not_null x ;; next <- do (Next x i) ;;
        match next with
        | None => Ret nodes
        | Some y =>
            x0 <- read_at nodes 0 ;; x0 <- not_null x0 ;; k0 <- do (Key x0) ;; k <- do (Key y) ;;
            passert (bool_decide (ucmp k0 k <> Gt)) ;;;
            if bool_decide (ucmp k0 k = Eq) then
              passert (bool_decide (y = x0)) ;;;
              nodes <- put i next nodes ;; follow_loop n max_height (i + 1) nodes
            else Ret nodes
        end
      else Ret nodes
  end.

Fixpoint validate_loop (fuel max_height : nat) (nodes : list (option (option loc))) : prog (list (option (option loc))) :=
  match fuel with
  | O => Fail EFuel
  | S fuel =>
      x <- read_at nodes 0 ;;
      match x with
      | None => Ret nodes
      | Some x =>
          l0_next <- do (Next x 0) ;;
          match l0_next with
          | None => Ret nodes
          | Some y =>
              (if is_head (Some x) then Ret tt else
               k <- do (Key x) ;; k' <- do (Key y) ;; passert (is_lt (ucmp k k'))) ;;;
              nodes <- put 0 l0_next nodes ;;
              nodes <- follow_loop max_height max_height 1 nodes ;;
              validate_loop fuel max_height nodes
          end
      end
  end.

Fixpoint heads_loop (n i : nat) (nodes : list (option (option loc))) : prog (list (option (option loc))) :=
  match n with
  | O => Ret nodes
  | S n => nodes <- put i (Some (head_ this)) nodes ;; heads_loop n (i + 1) nodes
  end.

Fixpoint ends_loop (n i : nat) (nodes : list (option (option loc))) : prog unit :=
  match n with
  | O => Ret tt
  | S n =>
      x <- read_at nodes i ;;
      match x with
      | None => Fail EAssert
      | Some x => next <- do (Next x i) ;; passert (bool_decide (next = None)) ;;; ends_loop n (i + 1) nodes
      end
  end.

Definition TEST_Validate (fuel : nat) : prog unit :=
  max_height <- do GetMaxHeight ;;
  passert (0 <? max_height)%nat ;;;
  nodes <- heads_loop max_height 0 (replicate kMaxPossibleHeight None) ;;
  nodes <- validate_loop fuel max_height nodes ;;
  ends_loop (max_height - 1) 1 nodes.

End list.

(** ** Allocation *)

(** Memory for a node is fresh; the caller of [AllocateKey] fills in the key. *)
Definition AllocateNode (key : list Z) (height : nat) : M memory loc := fun m =>
  let x := fresh (dom (nodes m)) in
  Ok (x, mkMemory (<[x := mkNode key (Stash height :: replicate (height - 1) Uninit)]> (nodes m)) (max_height_ m)).

Definition RandomHeight (this : InlineSkipList) (seed_ : Z) : result (nat * Z) :=
  let '(height, seed_) := height_loop kMaxPossibleHeight (kMaxHeight_ this) (kScaledInverseBranching_ this) 1 seed_ in
  if (0 <? height)%nat && (height <=? kMaxHeight_ this)%nat && (height <=? kMaxPossibleHeight)%nat
  then Ok (height, seed_) else Err EAssert.

Definition AllocateKey (this : InlineSkipList) (key : list Z) (seed_ : Z) : M memory (loc * Z) := fun m =>
  let? (height, seed_) := RandomHeight this seed_ in
  let? (x, m) := AllocateNode key height m in
  Ok ((x, seed_), m).

Fixpoint null_loop (head_ : loc) (n i : nat) : prog unit :=
  match n with O => Ret tt | S n => do (SetNext head_ i None) ;;; null_loop head_ n (i + 1) end.

(** The constructor, with an empty arena. *)
Definition InlineSkipList_new (max_height branching_factor : Z) : result (InlineSkipList * memory) :=
  let? scaled := udiv (kMaxNext + 1) (wrap 16 branching_factor) in
  let kMaxHeight_ := Z.to_nat (wrap 16 max_height) in
  let? (head_, m) := AllocateNode [] (Z.to_nat max_height) (mkMemory empty 1) in
  let this := mkList kMaxHeight_ (wrap 16 branching_factor) scaled head_ in
  if (0 <? max_height) && (wrap 16 max_height =? wrap 32 max_height) then
    if (1 <? branching_factor) && (wrap 16 branching_factor =? wrap 32 branching_factor) then
      if 0 <? scaled then
        let? (_, m) := run (null_loop head_ kMaxHeight_ 0) m in Ok (this, m)
      else Err EAssert
    else Err EAssert
  else Err EAssert.
