(* ===== verification/SkipInv.v ===== *)
(** * The levels of the skip list

    What the memory of memtable/inlineskiplist.h holds between any two atomic
    steps: every level is a sorted chain of nodes from the head, and every level
    is part of the one below.  A step of a thread extends levels, or writes to
    a node of its own that no level contains yet. *)

From Stdlib Require Import Sorting.Sorted.
From stdpp Require Import sorting.
From S2P Require Import Prelude Words Slice DbFormat SkipList.

Section levels.
Context {cmp : Comparator} `{!CompareOk ucmp} (this : InlineSkipList).
Implicit Types (m : memory) (x y z : loc) (i : nat).

(** ** Definitions *)

Definition key_of m x : list Z := default [] (node_key <$> nodes m !! x).
Definition shape m x : option (list Z * nat) := (fun nd => (node_key nd, length (next_ nd))) <$> nodes m !! x.

(** The nodes of a level behind a node, at most [n]. *)
Fixpoint walk (n : nat) m i x : list loc :=
  match n with
  | O => []
  | S n => match load x i m with Ok (Some y) => y :: walk n m i y | _ => [] end
  end.
Definition level m i : list loc := walk (size (nodes m)) m i (head_ this).

Fixpoint chain m i x (l : list loc) : Prop :=
  match l with
  | [] => load x i m = Ok None
  | y :: l => load x i m = Ok (Some y) /\ chain m i y l
  end.

Definition klt m x y : Prop := ucmp (key_of m x) (key_of m y) = Lt.

(** A node of a level or the head, which is before all keys. *)
Definition on_level m i x : Prop := x = head_ this \/ x ∈ level m i.
Definition before m x (k : list Z) : Prop := x = head_ this \/ ucmp (key_of m x) k = Lt.
Definition upto m z x : Prop := x <> head_ this /\ ucmp (key_of m z) (key_of m x) <> Gt.

Definition sorted_chain m i (l : list loc) : Prop :=
  chain m i (head_ this) l /\ StronglySorted (klt m) l /\ head_ this ∉ l.

Record Inv m : Prop := {
  inv_level i : (i < kMaxHeight_ this)%nat -> sorted_chain m i (level m i);
  inv_below i : (S i < kMaxHeight_ this)%nat -> level m (S i) ⊆ level m i;
  inv_height : (1 <= max_height_ m <= kMaxHeight_ this)%nat /\ (max_height_ m <= kMaxPossibleHeight)%nat;
  inv_above i : (max_height_ m <= i < kMaxHeight_ this)%nat -> level m i = []
}.

(** [p] follows [x] among some nodes, and on a level. *)
Definition succ_in m (l : list loc) x (p : option loc) : Prop :=
  match p with
  | None => forall z, z ∈ l -> upto m z x
  | Some y => y ∈ l /\ before m x (key_of m y) /\
              forall z, z ∈ l -> upto m z x \/ ucmp (key_of m y) (key_of m z) <> Gt
  end.
Definition succ m i x (p : option loc) : Prop := succ_in m (level m i) x p.

(** What a thread that owns some of the nodes may do to the memory. *)
Record evolves (own : loc -> Prop) m m' : Prop := {
  ev_shape x : shape m' x = shape m x;
  ev_height : (max_height_ m <= max_height_ m')%nat;
  ev_level i : (i < kMaxHeight_ this)%nat -> level m i ⊆ level m' i;
  ev_private x i : (i < kMaxHeight_ this)%nat -> ~ own x -> x <> head_ this -> x ∉ level m i -> x ∉ level m' i /\ slot_at x i m' = slot_at x i m
}.

(** ** Chains *)

Lemma chain_walk m i x l n : chain m i x l -> (length l <= n)%nat -> walk n m i x = l.
Proof.
  revert x n. induction l as [|y l IH]; intros x [|n] H Hn; cbn [chain length walk] in *; try done; [by rewrite H|lia|].
  destruct H as [-> H]. f_equal. apply IH; [done|lia].
Qed.

Lemma chain_ext m m' i x l :
  chain m i x l -> (forall y, y = x \/ y ∈ l -> load y i m' = load y i m) -> chain m' i x l.
Proof.
  revert x. induction l as [|y l IH]; intros x H E; cbn [chain] in *; [by rewrite E by auto|].
  destruct H as [H1 H2]. rewrite E by auto. split; [done|]. apply IH; [done|]. intros z [->|Hz]; apply E; right; set_solver.
Qed.

Lemma chain_behind m i x l1 y l2 : chain m i x (l1 ++ y :: l2) -> chain m i y l2.
Proof. revert x. induction l1 as [|z l1 IH]; intros x; cbn [chain app]; [tauto|]. intros [_ H]. by eapply IH. Qed.

Lemma chain_loads m i x l y : chain m i x l -> y = x \/ y ∈ l -> exists p, load y i m = Ok p.
Proof.
  revert x. induction l as [|z l IH]; intros x H [->|Hy]; cbn [chain] in H; [eauto|set_solver|destruct H; eauto|].
  destruct H as [_ H]. eapply IH; [done|]. set_solver.
Qed.

Lemma load_alloc m i x p : load x i m = Ok p -> is_Some (nodes m !! x).
Proof. unfold load, slot_at. by destruct (nodes m !! x). Qed.

Lemma klt_trans m : Transitive (klt m).
Proof. intros x y z. unfold klt. by apply cmp_trans. Qed.

Lemma sorted_nodup m l : StronglySorted (klt m) l -> NoDup l.
Proof.
  induction 1 as [|x l _ IH H]; constructor; [|done]. intros Hx. rewrite Forall_forall in H. specialize (H _ Hx).
  unfold klt in H. by rewrite (cmp_refl ucmp) in H.
Qed.

Lemma sorted_chain_level m i l : sorted_chain m i l -> level m i = l.
Proof.
  intros (Hc & Hs & Hh). apply (chain_walk _ _ _ _ _ Hc).
  rewrite <- (size_dom (nodes m)), <- (size_list_to_set (C := gset loc) l) by by eapply sorted_nodup.
  apply subseteq_size. intros y Hy%elem_of_list_to_set. apply elem_of_dom.
  destruct (chain_loads _ _ _ _ y Hc) as [p Hp]; [auto|]. by eapply load_alloc.
Qed.

(** ** Reading *)

Lemma on_level_split m i x :
  sorted_chain m i (level m i) -> on_level m i x ->
  exists l1 l2, level m i = l1 ++ l2 /\ last (head_ this :: l1) = Some x /\ chain m i x l2 /\ (forall z, z ∈ l1 -> upto m z x) /\ (forall z, z ∈ l2 -> before m x (key_of m z)).
Proof.
  intros (Hc & Hs & Hh) [->|Hx]; [exists [], (level m i); split_and!; try done; [set_solver|by left]|].
  apply list_elem_of_split in Hx as (l1 & l2 & E). exists (l1 ++ [x]), l2.
  assert (Hx : x <> head_ this) by (intros ->; rewrite E in Hh; set_solver).
  rewrite E in Hc, Hs. split_and!; [by rewrite E, <- app_assoc|by rewrite app_comm_cons, last_snoc|by eapply chain_behind| |].
  - intros z [Hz| ->%list_elem_of_singleton]%elem_of_app; (split; [done|]).
    + apply (StronglySorted_app_1_elem_of _ _ _ z x Hs) in Hz; [by rewrite Hz|set_solver].
    + by rewrite (cmp_refl ucmp).
  - intros z Hz. right. apply StronglySorted_app_1_r, StronglySorted_inv in Hs as [_ H]. rewrite Forall_forall in H. by apply H.
Qed.

Lemma load_succ m i x :
  Inv m -> (i < kMaxHeight_ this)%nat -> on_level m i x -> exists p, load x i m = Ok p /\ succ m i x p.
Proof.
  intros I Hi Hx. pose proof (inv_level m I i Hi) as Hl. destruct (on_level_split _ _ _ Hl Hx) as (l1 & l2 & E & _ & Hc & H1 & H2).
  destruct Hl as (_ & Hs & _). destruct l2 as [|y l2]; cbn [chain] in Hc.
  - exists None. split; [done|]. intros z Hz. apply H1. rewrite E in Hz. set_solver.
  - exists (Some y). split; [tauto|]. split_and!; [rewrite E; set_solver|apply H2; set_solver|].
    intros z Hz. rewrite E in Hz, Hs. apply elem_of_app in Hz as [Hz|[->|Hz]%elem_of_cons]; [auto|right; by rewrite (cmp_refl ucmp)|].
    right. apply StronglySorted_app_1_r, StronglySorted_inv in Hs as [_ H]. rewrite Forall_forall in H. by rewrite (H _ Hz).
Qed.

Lemma level_inj m i x y :
  Inv m -> (i < kMaxHeight_ this)%nat -> x ∈ level m i -> y ∈ level m i -> ucmp (key_of m x) (key_of m y) = Eq -> x = y.
Proof.
  intros I Hi Hx Hy E. destruct (inv_level m I i Hi) as (Hc & Hs & Hh).
  apply list_elem_of_split in Hx as (l1 & l2 & El). rewrite El in Hy, Hs.
  apply elem_of_app in Hy as [Hy|[->|Hy]%elem_of_cons]; [|done|].
  - apply (StronglySorted_app_1_elem_of _ _ _ y x Hs) in Hy; [|set_solver].
    unfold klt in Hy. rewrite (cmp_anti ucmp), E in Hy. done.
  - apply StronglySorted_app_1_r, StronglySorted_inv in Hs as [_ H]. rewrite Forall_forall in H. specialize (H _ Hy).
    unfold klt in H. by rewrite E in H.
Qed.

(** ** Writing *)

Lemma shape_key m m' x : shape m' x = shape m x -> key_of m' x = key_of m x.
Proof. unfold shape, key_of. destruct (nodes m' !! x), (nodes m !! x); simpl; intros ?; by simplify_eq. Qed.

Lemma store_spec m m' x i p :
  store x i p m = Ok m' ->
  (forall y, shape m' y = shape m y) /\ max_height_ m' = max_height_ m /\ size (nodes m') = size (nodes m) /\
  (forall y j, slot_at y j m' = if decide (y = x /\ j = i) then Ok (Ptr p) else slot_at y j m).
Proof.
  unfold store. destruct (nodes m !! x) as [nd|] eqn:E; [|done]. destruct (Nat.ltb_spec i (length (next_ nd))) as [Hi|]; [|done].
  intros [= <-]. cbn. split_and!; [|done| |].
  - intros y. unfold shape. cbn. destruct (decide (y = x)) as [->|]; [|by simplify_map_eq]. simplify_map_eq. by rewrite length_insert.
  - rewrite <- !size_dom. f_equal. apply set_eq. intros y. rewrite !elem_of_dom.
    destruct (decide (y = x)) as [->|]; simplify_map_eq; [|done]. split; by eexists.
  - intros y j. unfold slot_at. cbn. destruct (decide (y = x)) as [->|]; simplify_map_eq.
    + destruct (decide (j = i)) as [->|]; [by rewrite list_lookup_insert_eq, decide_True by done|].
      by rewrite list_lookup_insert_ne, decide_False by (done || tauto).
    + by rewrite decide_False by tauto.
Qed.

Lemma slot_load m m' x i : slot_at x i m' = slot_at x i m -> load x i m' = load x i m.
Proof. unfold load. by intros ->. Qed.

Lemma sorted_ext m m' l : (forall x, x ∈ l -> shape m' x = shape m x) -> StronglySorted (klt m) l -> StronglySorted (klt m') l.
Proof.
  intros Hsh Hs. induction Hs as [|x l _ IH H]; constructor; [apply IH; set_solver|]. rewrite Forall_forall in *. intros y Hy.
  unfold klt. rewrite !(shape_key m m') by (apply Hsh; set_solver). by apply H.
Qed.

Lemma sorted_chain_ext m m' i l :
  sorted_chain m i l -> (forall x, x ∈ l -> shape m' x = shape m x) ->
  (forall y, y = head_ this \/ y ∈ l -> load y i m' = load y i m) -> sorted_chain m' i l.
Proof. intros (Hc & Hs & Hh) Hsh E. split_and!; [by eapply chain_ext|by eapply sorted_ext|done]. Qed.

(** A change outside the levels. *)
Lemma evolves_outside (own : loc -> Prop) m m' :
  Inv m -> (forall x, shape m' x = shape m x) -> (max_height_ m <= max_height_ m' <= kMaxHeight_ this)%nat ->
  (max_height_ m' <= kMaxPossibleHeight)%nat ->
  (forall x i, (i < kMaxHeight_ this)%nat -> on_level m i x \/ ~ own x -> slot_at x i m' = slot_at x i m) ->
  Inv m' /\ evolves own m m' /\ (forall i, (i < kMaxHeight_ this)%nat -> level m' i = level m i).
Proof.
  intros I Hsh Hh Hp E.
  assert (Hl : forall i, (i < kMaxHeight_ this)%nat -> sorted_chain m' i (level m i)).
  { intros i Hi. eapply sorted_chain_ext; [by apply inv_level|done|]. intros y Hy. apply slot_load, E; [done|by left]. }
  assert (He : forall i, (i < kMaxHeight_ this)%nat -> level m' i = level m i) by (intros; by apply sorted_chain_level, Hl).
  destruct (inv_height m I). split_and!; [|split|done].
  - split; [intros i Hi; rewrite He by done; by apply Hl| |lia|].
    + intros i Hi. rewrite !He by lia. by apply inv_below.
    + intros i Hi. rewrite He by lia. apply inv_above; [done|lia].
  - done.
  - lia.
  - intros i Hi. by rewrite He.
  - intros x i Hi Ho _ Hx. rewrite He by done. auto.
Qed.

Lemma store_private m m' x i p :
  Inv m -> x <> head_ this -> x ∉ level m i -> store x i p m = Ok m' ->
  Inv m' /\ evolves (eq x) m m' /\ (forall i, (i < kMaxHeight_ this)%nat -> level m' i = level m i).
Proof.
  intros I Hx Hl (Hsh & Hm & _ & E)%store_spec. destruct (inv_height m I). apply evolves_outside; [done|done|lia|lia|].
  intros y j Hj Hy. rewrite E. apply decide_False. intros [-> ->]. destruct Hy as [[?|?]|Hy]; by try apply Hy.
Qed.

Lemma raise_inv own m h :
  Inv m -> (max_height_ m <= h <= kMaxHeight_ this)%nat -> (h <= kMaxPossibleHeight)%nat ->
  Inv (mkMemory (nodes m) h) /\ evolves own m (mkMemory (nodes m) h) /\
  (forall i, (i < kMaxHeight_ this)%nat -> level (mkMemory (nodes m) h) i = level m i).
Proof. intros I Hh Hp. by apply evolves_outside. Qed.

Lemma chain_link m m' i h l1 l2 x p :
  chain m i h (l1 ++ l2) -> NoDup (h :: l1 ++ l2) -> x ∉ h :: l1 ++ l2 -> last (h :: l1) = Some p ->
  (forall y, y <> p -> load y i m' = load y i m) -> load p i m' = Ok (Some x) -> load x i m = Ok (head l2) ->
  chain m' i h (l1 ++ x :: l2).
Proof.
  intros Hc Hn Hx Hp E Ep Ex. revert h Hc Hn Hx Hp. induction l1 as [|y l1 IH]; intros h Hc Hn Hx Hp.
  - cbn in Hp. simplify_eq. cbn [app chain]. split; [done|]. cbn [app] in *.
    assert (Hxp : load x i m' = Ok (head l2)) by (rewrite E; [done|set_solver]).
    destruct l2 as [|z l2]; cbn [chain head] in *; [done|]. split; [done|]. eapply chain_ext; [apply Hc|].
    intros y Hy. apply E. intros ->. apply NoDup_cons_1_1 in Hn. set_solver.
  - cbn [app chain] in *. destruct Hc as [H1 H2]. split.
    + rewrite E; [done|]. intros ->. apply NoDup_cons_1_1 in Hn. apply Hn. rewrite last_cons_cons in Hp.
      apply last_Some_elem_of in Hp. set_solver.
    + apply IH; [done|by apply NoDup_cons_1_2 in Hn|set_solver|by rewrite last_cons_cons in Hp].
Qed.

(** A node fits between a node and what follows it. *)
Definition fits m x p (n : option loc) : Prop :=
  before m p (key_of m x) /\ (forall y, n = Some y -> klt m x y).

Lemma sorted_link m l1 l2 x p :
  StronglySorted (klt m) (l1 ++ l2) -> fits m x p (head l2) -> (forall z, z ∈ l1 -> upto m z p) ->
  StronglySorted (klt m) (l1 ++ x :: l2).
Proof.
  intros Hs [Hp Hn] H1. apply StronglySorted_app in Hs as (H12 & Hs1 & Hs2).
  assert (Hx2 : forall z, z ∈ l2 -> klt m x z).
  { intros z Hz. destruct l2 as [|y l2]; [set_solver|]. specialize (Hn y eq_refl).
    apply StronglySorted_inv in Hs2 as [_ H2]. rewrite Forall_forall in H2.
    apply elem_of_cons in Hz as [->|Hz]; [done|]. by eapply klt_trans; [|apply H2]. }
  apply StronglySorted_app. split_and!; [|done|constructor; [done|by apply Forall_forall]].
  intros z w Hz [->|Hw]%elem_of_cons; [|by apply H12].
  destruct (H1 _ Hz) as [Hh Hle]. destruct Hp as [?|Hp]; [done|]. by eapply cmp_le_lt.
Qed.

Lemma link_chain m m' i p x l1 l2 :
  sorted_chain m i (l1 ++ l2) -> last (head_ this :: l1) = Some p -> (forall z, z ∈ l1 -> upto m z p) ->
  load x i m = Ok (head l2) -> x <> head_ this -> x ∉ l1 ++ l2 -> fits m x p (head l2) ->
  store p i (Some x) m = Ok m' -> sorted_chain m' i (l1 ++ x :: l2).
Proof.
  intros (Hc & Hs & Hh) Hp H1 Hlx Hxh Hx Hf (Hsh & _ & _ & E)%store_spec.
  assert (Hs' := sorted_link _ _ _ _ _ Hs Hf H1).
  split_and!; [| |set_solver].
  - eapply chain_link; [done| |set_solver|done| | |done].
    + constructor; [done|by eapply sorted_nodup].
    + intros y Hy. apply slot_load. rewrite E, decide_False by tauto. done.
    + unfold load. by rewrite E, decide_True by done.
  - exact (sorted_ext m m' _ (fun x _ => Hsh x) Hs').
Qed.

(** [p->Next(i) == n] is replaced by [x], whose own link is [n]. *)
Record linked m m' i x : Prop := {
  linked_inv : Inv m';
  linked_evolves : evolves (eq x) m m';
  linked_at : exists l1 l2, level m i = l1 ++ l2 /\ level m' i = l1 ++ x :: l2;
  linked_others j : (j < kMaxHeight_ this)%nat -> j <> i -> level m' j = level m j
}.

Lemma link_linked m m' i p n x :
  Inv m -> (i < max_height_ m)%nat -> on_level m i p -> load p i m = Ok n -> fits m x p n ->
  x <> head_ this -> x ∉ level m i -> (forall j, S j = i -> x ∈ level m j) ->
  slot_at x i m = Ok (Ptr n) -> store p i (Some x) m = Ok m' -> linked m m' i x.
Proof.
  intros I Hi Hp Hlp Hf Hxh Hx Hbelow Hcx Hst. destruct (inv_height m I) as [Hh _].
  pose proof (inv_level m I i ltac:(lia)) as Hl.
  destruct (on_level_split _ _ _ Hl Hp) as (l1 & l2 & E & Hlast & Hc & H1 & H2).
  assert (En : n = head l2) by (destruct l2; cbn [chain head] in *; [|destruct Hc as [Hc _]]; congruence).
  pose proof (store_spec _ _ _ _ _ Hst) as (Hsh & Hmax & _ & Ec).
  assert (Hl' : sorted_chain m' i (l1 ++ x :: l2)).
  { rewrite E in Hl, Hx. subst n. eapply link_chain; try done. unfold load. by rewrite Hcx. }
  assert (Hothers : forall j, (j < kMaxHeight_ this)%nat -> j <> i -> sorted_chain m' j (level m j)).
  { intros j Hj Hji. eapply sorted_chain_ext; [by apply inv_level|done|]. intros y _. apply slot_load. by rewrite Ec, decide_False by tauto. }
  assert (He : forall j, (j < kMaxHeight_ this)%nat -> level m' j = if decide (j = i) then l1 ++ x :: l2 else level m j).
  { intros j Hj. apply sorted_chain_level. destruct (decide (j = i)) as [->|]; [done|by apply Hothers]. }
  split.
  - split; [|intros j Hj|by rewrite Hmax; apply inv_height|].
    + intros j Hj. rewrite He by done. destruct (decide (j = i)) as [->|]; [done|by apply Hothers].
    + pose proof (inv_below m I j Hj) as Hb. rewrite !He by lia. destruct (decide (S j = i)) as [Hj'|]; [|destruct (decide (j = i)) as [->|]; [|done]].
      * rewrite decide_False by lia. rewrite Hj', E in Hb. specialize (Hbelow j Hj'). intros z Hz. apply elem_of_app in Hz.
        rewrite elem_of_cons in Hz. destruct Hz as [Hz|[->|Hz]]; [apply Hb, elem_of_app; auto|done|apply Hb, elem_of_app; auto].
      * rewrite E in Hb. intros z Hz%Hb. apply elem_of_app in Hz. rewrite elem_of_app, elem_of_cons. tauto.
    + intros j Hj. rewrite He, decide_False by lia. apply inv_above; [done|lia].
  - split; [done|lia| |].
    + intros j Hj. rewrite He by done. destruct (decide _) as [->|]; [rewrite E; set_solver|done].
    + intros y j Hj Hy Hyh Hyl. rewrite He, Ec by done. split.
      * destruct (decide _) as [->|]; [|done]. rewrite E in Hyl. set_solver.
      * apply decide_False. intros [-> ->]. by destruct Hp.
  - exists l1, l2. split; [done|]. rewrite He by lia. by rewrite decide_True.
  - intros j Hj Hji. by rewrite He, decide_False.
Qed.

(** ** Steps of the others *)

Lemma evolves_refl own m : evolves own m m.
Proof. by split. Qed.

Lemma evolves_trans own m m' m'' : evolves own m m' -> evolves own m' m'' -> evolves own m m''.
Proof.
  intros H H'. split.
  - intros x. by rewrite (ev_shape _ _ _ H'), (ev_shape _ _ _ H).
  - pose proof (ev_height _ _ _ H). pose proof (ev_height _ _ _ H'). lia.
  - intros i Hi. by rewrite (ev_level _ _ _ H), (ev_level _ _ _ H').
  - intros x i Hi Hx Hh Hl. destruct (ev_private _ _ _ H x i) as [Hl' E]; try done.
    destruct (ev_private _ _ _ H' x i) as [Hl'' E']; try done. by rewrite E', E.
Qed.

Lemma evolves_mono (own own' : loc -> Prop) m m' : (forall x, own x -> own' x) -> evolves own m m' -> evolves own' m m'.
Proof. intros Ho H. split; try apply H. intros x i Hi Hx. apply H; auto. Qed.

Lemma evolves_key own m m' x : evolves own m m' -> key_of m' x = key_of m x.
Proof. intros H. apply shape_key, H. Qed.

Lemma evolves_on own m m' i x : (i < kMaxHeight_ this)%nat -> evolves own m m' -> on_level m i x -> on_level m' i x.
Proof. intros Hi H [->|Hx]; [by left|right]. by apply (ev_level _ _ _ H). Qed.

Lemma evolves_before own m m' x k : evolves own m m' -> before m x k -> before m' x k.
Proof. intros H [->|Hx]; [by left|right]. by rewrite (evolves_key _ _ _ _ H). Qed.

End levels.
