(* ===== verification/SkipLogic.v ===== *)
(** * Programs among other threads

    A program logic for memtable/inlineskiplist.h: [swp p Q g m] says that [p],
    run from memory [m] with arbitrary steps of the other threads between its
    own, never fails, only does what its thread may do, and ends with [Q].  The
    ghost value [g] records the answer of the operation from the moment it took
    effect, which is how the list is shown to be atomic. *)

From Stdlib Require Import Sorting.Sorted.
From stdpp Require Import sorting.
From S2P Require Import Prelude Words Slice DbFormat SkipList SkipInv.

(** ** The set a list represents *)

(** The operations on an ordered set, kept as a sorted sequence. *)
Inductive set_op : Type :=
  | SInsert (k : list Z)
  | SContains (k : list Z).

Section spec.
Context {cmp : Comparator}.

Definition has (s : list (list Z)) (k : list Z) : bool := existsb (fun k' => bool_decide (ucmp k' k = Eq)) s.

Fixpoint ins (k : list Z) (s : list (list Z)) : list (list Z) :=
  match s with
  | [] => [k]
  | k' :: s' => match ucmp k k' with Lt => k :: s | _ => k' :: ins k s' end
  end.

Definition set_spec (o : set_op) (s : list (list Z)) : bool * list (list Z) :=
  match o with
  | SInsert k => if has s k then (false, s) else (true, ins k s)
  | SContains k => (has s k, s)
  end.

Lemma has_spec s k : has s k = true <-> exists k', k' ∈ s /\ ucmp k' k = Eq.
Proof.
  unfold has. rewrite existsb_exists. split; intros (k' & H & E); exists k'; rewrite bool_decide_eq_true in *; rewrite <- ?list_elem_of_In in *; done.
Qed.

End spec.

Section logic.
Context {cmp : Comparator} `{!CompareOk ucmp} (this : InlineSkipList).
Implicit Types (m : memory) (x y z : loc) (i : nat) (g : option bool).

Definition keys m : list (list Z) := key_of m <$> level this m 0.

(** The thread owns some nodes; it may be the only one that changes the list. *)
Context (own : loc -> Prop) (alone : bool) (o : set_op).

Definition rely m m' : Prop := Inv this m' /\ if alone then m' = m else evolves this (fun x => ~ own x) m m'.

(** A thread without nodes only reads. *)
Definition may_do m m' : Prop := evolves this own m m' /\ (m' = m \/ exists x, own x).

Definition takes_effect m g m' g' : Prop :=
  (g' = g /\ keys m' = keys m) \/ (g = None /\ exists r, g' = Some r /\ set_spec o (keys m) = (r, keys m')).

Fixpoint swp {A} (p : prog A) (Q : A -> option bool -> memory -> Prop) g m : Prop :=
  match p with
  | Ret a => Q a g m
  | Fail _ => False
  | Act a k => exists b m' g', perform a m = Ok (b, m') /\ Inv this m' /\ may_do m m' /\ takes_effect m g m' g' /\
                               forall m'', rely m' m'' -> swp (k b) Q g' m''
  end.

(** ** The others *)

Lemma rely_evolves m m' : rely m m' -> evolves this (fun x => ~ own x) m m'.
Proof. unfold rely. destruct alone; [|tauto]. intros [_ ->]. apply evolves_refl. Qed.

Lemma rely_refl m : Inv this m -> rely m m.
Proof. unfold rely. destruct alone; auto using evolves_refl. Qed.

Lemma rely_trans m m' m'' : rely m m' -> rely m' m'' -> rely m m''.
Proof. unfold rely. destruct alone; [by intros [_ ->] [? ->]|]. intros [_ H] [? H']. eauto using evolves_trans. Qed.

Lemma rely_inv m m' : rely m m' -> Inv this m'.
Proof. by intros []. Qed.

Lemma rely_key m m' x : rely m m' -> key_of m' x = key_of m x.
Proof. intros H%rely_evolves. by eapply evolves_key. Qed.

Lemma rely_in m m' i x : (i < kMaxHeight_ this)%nat -> rely m m' -> x ∈ level this m i -> x ∈ level this m' i.
Proof. intros Hi H%rely_evolves. by apply H. Qed.

Lemma rely_on m m' i x : (i < kMaxHeight_ this)%nat -> rely m m' -> on_level this m i x -> on_level this m' i x.
Proof. intros Hi H%rely_evolves. by eapply evolves_on. Qed.

Lemma rely_before m m' x k : rely m m' -> before this m x k -> before this m' x k.
Proof. intros H%rely_evolves. by eapply evolves_before. Qed.

Lemma shape_alloc m m' x : shape m' x = shape m x -> is_Some (nodes m !! x) -> is_Some (nodes m' !! x).
Proof. unfold shape. intros E [nd Hx]. rewrite Hx in E. by destruct (nodes m' !! x). Qed.

Lemma rely_alloc m m' x : rely m m' -> is_Some (nodes m !! x) -> is_Some (nodes m' !! x).
Proof. intros H%rely_evolves. apply shape_alloc, H. Qed.

Lemma rely_private m m' i x :
  (i < kMaxHeight_ this)%nat -> rely m m' -> own x -> x <> head_ this -> x ∉ level this m i ->
  x ∉ level this m' i /\ slot_at x i m' = slot_at x i m.
Proof. intros Hi H%rely_evolves Ho Hh Hx. apply (ev_private _ _ _ _ H); auto. Qed.

(** ** How many nodes are behind a node *)

Definition rank m x : nat :=
  if decide (x = head_ this) then size (node_key <$> nodes m)
  else size (filter (fun kv => ucmp (key_of m x) (kv.2) = Lt) (node_key <$> nodes m)).

Lemma rank_evolves own' m m' x : evolves this own' m m' -> rank m' x = rank m x.
Proof.
  intros H. unfold rank. rewrite (evolves_key _ _ _ _ _ H).
  replace (node_key <$> nodes m') with (node_key <$> nodes m); [done|]. apply map_eq. intros y. rewrite !lookup_fmap.
  pose proof (ev_shape _ _ _ _ H y) as E. unfold shape in E. destruct (nodes m' !! y), (nodes m !! y); simpl in *; congruence.
Qed.

Lemma rank_behind m x y : before this m x (key_of m y) -> y <> head_ this -> is_Some (nodes m !! y) -> (rank m y < rank m x)%nat.
Proof.
  intros Hx Hy [nd Hn]. unfold rank. rewrite (decide_False (P := y = _)) by done.
  assert (Hk : (node_key <$> nodes m) !! y = Some (key_of m y)) by (unfold key_of; by rewrite lookup_fmap, Hn).
  assert (Hne : filter (fun kv => ucmp (key_of m y) kv.2 = Lt) (node_key <$> nodes m) !! y = None).
  { apply map_lookup_filter_None. right. intros k. rewrite Hk. intros [= <-]. cbn. by rewrite (cmp_refl ucmp). }
  destruct Hx as [->|Hx]; [rewrite decide_True by done|destruct (decide (x = head_ this))]; apply map_subset_size; split.
  - apply map_filter_subseteq.
  - intros H. pose proof (lookup_weaken _ _ _ _ Hk H). congruence.
  - apply map_filter_subseteq.
  - intros H. pose proof (lookup_weaken _ _ _ _ Hk H). congruence.
  - apply map_filter_subseteq_ext. intros z k _ Hz. cbn in *. by eapply cmp_trans.
  - intros H. assert (Hm : filter (fun kv => ucmp (key_of m x) kv.2 = Lt) (node_key <$> nodes m) !! y = Some (key_of m y))
      by by apply map_lookup_filter_Some.
    pose proof (lookup_weaken _ _ _ _ Hm H). congruence.
Qed.

(** ** Rules *)

Lemma may_read m : may_do m m.
Proof. split; [apply evolves_refl|by left]. Qed.

Lemma may_write m m' x : own x -> evolves this own m m' -> may_do m m'.
Proof. split; eauto. Qed.

Lemma swp_bind {A B} (p : prog A) (k : A -> prog B) Q g m :
  swp p (fun a g m => swp (k a) Q g m) g m -> swp (pbind p k) Q g m.
Proof.
  revert g m. induction p as [a|e|B' a k' IH]; intros g m; cbn [swp pbind]; [done|done|].
  intros (b & m' & g' & H1 & H2 & H3 & H4 & H5). exists b, m', g'. split_and!; auto.
Qed.

Lemma swp_mono {A} (p : prog A) Q Q' g m :
  swp p Q g m -> (forall a g m, Q a g m -> Q' a g m) -> swp p Q' g m.
Proof.
  revert g m. induction p as [a|e|B' a k' IH]; intros g m; cbn [swp]; [auto|done|].
  intros (b & m' & g' & H1 & H2 & H3 & H4 & H5) HQ. exists b, m', g'. split_and!; auto.
Qed.

Lemma swp_read {B} (a : act B) b Q g m :
  Inv this m -> perform a m = Ok (b, m) -> (forall m', rely m m' -> Q b g m') -> swp (do a) Q g m.
Proof. intros I H HQ. exists b, m, g. split_and!; [done|done|apply may_read|by left|done]. Qed.

Lemma swp_key x Q g m :
  Inv this m -> is_Some (nodes m !! x) -> (forall m', rely m m' -> Q (key_of m x) g m') -> swp (do (Key x)) Q g m.
Proof. intros I [nd Hx] HQ. eapply swp_read; [done| |done]. cbn. unfold key_of. by rewrite Hx. Qed.

Lemma swp_height Q g m :
  Inv this m -> (forall m', rely m m' -> Q (max_height_ m) g m') -> swp (do GetMaxHeight) Q g m.
Proof. intros I HQ. by eapply swp_read. Qed.

Lemma swp_next x i Q g m :
  Inv this m -> (i < kMaxHeight_ this)%nat -> on_level this m i x ->
  (forall p m', load x i m = Ok p -> succ this m i x p -> rely m m' -> Q p g m') -> swp (do (Next x i)) Q g m.
Proof.
  intros I Hi Hx HQ. destruct (load_succ _ _ _ _ I Hi Hx) as (p & Hp & Hs).
  eapply swp_read; [done| |intros m'; by apply HQ]. cbn. by rewrite Hp.
Qed.

(** The answer may be settled by what a load sees. *)
Lemma swp_next_effect x i Q g m :
  Inv this m -> (i < kMaxHeight_ this)%nat -> on_level this m i x ->
  (forall p, load x i m = Ok p -> succ this m i x p ->
     exists g', takes_effect m g m g' /\ forall m', rely m m' -> Q p g' m') -> swp (do (Next x i)) Q g m.
Proof.
  intros I Hi Hx HQ. destruct (load_succ _ _ _ _ I Hi Hx) as (p & Hp & Hs). destruct (HQ p Hp Hs) as (g' & Hg & HQ').
  exists p, m, g'. split_and!; [cbn; by rewrite Hp|done|apply may_read|done|done].
Qed.

(** Allocated nodes. *)
Lemma in_alloc m i x : Inv this m -> (i < kMaxHeight_ this)%nat -> x ∈ level this m i -> is_Some (nodes m !! x).
Proof.
  intros I Hi Hx. destruct (load_succ this m i x I Hi) as (p & Hp & _); [by right|]. by eapply load_alloc.
Qed.

Lemma in_not_head m i x : Inv this m -> (i < kMaxHeight_ this)%nat -> x ∈ level this m i -> x <> head_ this.
Proof. intros I Hi Hx ->. by destruct (inv_level _ _ I i Hi) as (_ & _ & []). Qed.

Lemma swp_run {A} (p : prog A) Q g m : Inv this m ->
  swp p Q g m -> exists a m' g', run p m = Ok (a, m') /\ Inv this m' /\ Q a g' m'.
Proof.
  revert g m. induction p as [a|e|B' a k' IH]; intros g m I; cbn [swp run]; [unfold ret; eauto 10|done|].
  intros (b & m' & g' & -> & H2 & _ & _ & H5). eapply (IH b), H5; [done|]. by apply rely_refl.
Qed.

End logic.
