(* ===== verification/SkipFind.v ===== *)
(** * Searching the skip list

    The searches of memtable/inlineskiplist.h, among threads that insert: they
    end, none of their assertions fails, and what they return was right at the
    moment of their last load. *)

From S2P Require Import Prelude Words Slice DbFormat SkipList SkipInv SkipLogic.

(** Take the facts about a memory to a later one. *)
Ltac later H :=
  match type of H with
  | rely ?t ?o ?a ?m ?m' =>
      pose proof (rely_inv t o a m m' H);
      repeat match goal with
      | K : rely t o a ?m0 m |- _ => apply (fun K => rely_trans t o a m0 m m' K H) in K
      | K : on_level t m ?i ?x |- _ => apply (rely_on t o a m m' i x ltac:(first [assumption | lia]) H) in K
      | K : ?x ∈ level t m ?i |- _ => apply (rely_in t o a m m' i x ltac:(first [assumption | lia]) H) in K
      | K : before t m ?x ?k |- _ => apply (rely_before t o a m m' x k H) in K
      | K : is_Some (nodes m !! ?x) |- _ => apply (rely_alloc t o a m m' x H) in K
      | K : context [rank t m ?x] |- _ => rewrite <- (rank_evolves t _ m m' x (rely_evolves t o a m m' H)) in K
      | K : context [key_of m ?x] |- _ => rewrite <- (rely_key t o a m m' x H) in K
      end;
      repeat match goal with
      | |- context [key_of m ?x] => rewrite <- (rely_key t o a m m' x H)
      end
  end.

Section find.
Context {cmp : Comparator} `{!CompareOk ucmp} (this : InlineSkipList).
Context (own : loc -> Prop) (alone : bool) (o : set_op).
Implicit Types (m : memory) (x y z : loc) (i : nat) (g : option bool).

Local Notation swp := (swp this own alone o).
Local Notation rely := (rely this own alone).
Local Notation Inv := (Inv this).
Local Notation level := (level this).
Local Notation on_level := (on_level this).
Local Notation before := (before this).
Local Notation upto := (upto this).
Local Notation kMax := (kMaxHeight_ this).

(** ** Parts of the loops *)

Definition is_after m (key : list Z) (n : option loc) : bool :=
  match n with None => false | Some y => bool_decide (ucmp (key_of m y) key = Lt) end.

Lemma swp_KeyIsAfterNode key n Q g m :
  Inv m -> n <> Some (head_ this) -> (forall y, n = Some y -> is_Some (nodes m !! y)) ->
  (forall m', rely m m' -> Q (is_after m key n) g m') -> swp (KeyIsAfterNode this key n) Q g m.
Proof.
  intros I Hn Ha HQ. unfold KeyIsAfterNode, is_head. rewrite bool_decide_false by done. cbn [negb passert pbind].
  destruct n as [y|]; [|by apply HQ, rely_refl]. apply swp_bind, swp_key; eauto.
Qed.

Lemma swp_prefetch next i Q g m :
  Inv m -> (i < kMax)%nat -> (forall y, next = Some y -> y ∈ level m i) -> (forall m', rely m m' -> Q tt g m') ->
  swp (prefetch next i) Q g m.
Proof.
  intros I Hi Hy HQ. destruct next as [y|]; cbn [prefetch]; [|by apply HQ, rely_refl].
  apply swp_bind, swp_next; [done|done|right; auto|]. intros p m' _ _ H. by apply HQ.
Qed.

Lemma is_head_true x : is_head this (Some x) = true <-> x = head_ this.
Proof. unfold is_head. rewrite bool_decide_eq_true. split; [by intros [= ->]|by intros ->]. Qed.

Lemma is_head_false x : is_head this (Some x) = false -> x <> head_ this.
Proof. unfold is_head. rewrite bool_decide_eq_false. congruence. Qed.

Lemma swp_assert_sorted x next Q g m :
  Inv m -> is_Some (nodes m !! x) -> (forall y, next = Some y -> is_Some (nodes m !! y) /\ before m x (key_of m y)) ->
  (forall m', rely m m' -> Q tt g m') -> swp (assert_sorted this x next) Q g m.
Proof.
  intros I Hx Hy HQ. unfold assert_sorted. destruct (is_head this (Some x)) eqn:Eh; [by apply HQ, rely_refl|].
  pose proof (is_head_false _ Eh).
  destruct next as [y|]; [|by apply HQ, rely_refl]. destruct (Hy y eq_refl) as [Ha [?|Hb]]; [done|].
  apply swp_bind, swp_key; [done..|]. intros m1 H1. later H1. apply swp_bind, swp_KeyIsAfterNode; [done|congruence|by intros ? [= <-]|].
  intros m2 H2. cbn [is_after]. rewrite bool_decide_true by done. apply HQ. by eapply rely_trans.
Qed.

Lemma swp_assert_after key x Q g m :
  Inv m -> is_Some (nodes m !! x) -> before m x key -> (forall m', rely m m' -> Q tt g m') -> swp (assert_after this key x) Q g m.
Proof.
  intros I Hx Hb HQ. unfold assert_after. destruct (is_head this (Some x)) eqn:Eh; [by apply HQ, rely_refl|].
  pose proof (is_head_false _ Eh). destruct Hb as [?|Hb]; [done|].
  apply swp_bind, swp_KeyIsAfterNode; [done|congruence|by intros ? [= <-]|].
  intros m2 H2. cbn [is_after]. rewrite bool_decide_true by done. by apply HQ.
Qed.

Lemma on_alloc m i x : Inv m -> (i < kMax)%nat -> on_level m i x -> is_Some (nodes m !! x).
Proof. intros I Hi Hx. destruct (load_succ this m i x I Hi Hx) as (p & Hp & _). by eapply load_alloc. Qed.

(** The assertions behind every load. *)
Lemma swp_checks {A} key x next i (k : prog A) Q g m :
  Inv m -> (i < kMax)%nat -> on_level m i x -> before m x key ->
  (forall y, next = Some y -> y ∈ level m i /\ before m x (key_of m y)) ->
  (forall m', rely m m' -> swp k Q g m') ->
  swp (pbind (assert_sorted this x next) (fun _ => pbind (assert_after this key x) (fun _ => k))) Q g m.
Proof.
  intros I Hi Hx Hb Hn HQ. pose proof (on_alloc _ _ _ I Hi Hx) as Ha. apply swp_bind, swp_assert_sorted; [done|done| |].
  - intros y Hy. destruct (Hn y Hy). split; [by eapply in_alloc|done].
  - intros m1 H1. later H1. apply swp_bind, swp_assert_after; [done..|]. intros m2 H2. apply HQ. by eapply rely_trans.
Qed.

(** Load, prefetch and assert. *)
Lemma swp_visit {A} key x i (k : option loc -> prog A) Q g m :
  Inv m -> (i < kMax)%nat -> on_level m i x -> before m x key ->
  (forall p, load x i m = Ok p -> succ this m i x p -> exists g', takes_effect this o m g m g' /\
     forall m', rely m m' -> (forall y, p = Some y -> y ∈ level m' i /\ before m' x (key_of m' y)) -> swp (k p) Q g' m') ->
  swp (pbind (do (Next x i)) (fun next => pbind (prefetch next i) (fun _ =>
       pbind (assert_sorted this x next) (fun _ => pbind (assert_after this key x) (fun _ => k next))))) Q g m.
Proof.
  intros I Hi Hx Hb HQ. apply swp_bind, swp_next_effect; [done..|]. intros p Hp Hs. destruct (HQ p Hp Hs) as (g' & Hg & HQ').
  exists g'. split; [done|]. intros m1 H1.
  assert (Hn : forall y, p = Some y -> y ∈ level m1 i /\ before m1 x (key_of m1 y)).
  { intros y ->. destruct Hs as (Hy & Hxy & _). later H1. done. }
  later H1. apply swp_bind, swp_prefetch; [done|done|intros y Hy; by apply Hn|].
  intros m2 H2. apply swp_checks with (i := i); [by eapply rely_inv|done|by eapply rely_on|by eapply rely_before| |].
  - intros y Hy. destruct (Hn y Hy). later H2. done.
  - intros m3 H3. apply HQ'; [eauto using rely_trans|]. intros y Hy. destruct (Hn y Hy). later H2. later H3. done.
Qed.

Lemma level_sub m i x : Inv m -> (i < kMax)%nat -> x ∈ level m i -> x ∈ level m 0.
Proof. intros I. induction i as [|i IH]; intros Hi Hx; [done|]. apply IH; [lia|]. by apply (inv_below _ _ I). Qed.

Lemma on_sub m i j x : Inv m -> (i < kMax)%nat -> (j <= i)%nat -> on_level m i x -> on_level m j x.
Proof.
  intros I Hi Hj [->|Hx]; [by left|right]. induction Hj as [|i Hj IH]; [done|]. apply IH; [lia|]. by apply (inv_below _ _ I).
Qed.

Lemma zero_level m : Inv m -> (0 < kMax)%nat.
Proof. intros I. destruct (inv_height _ _ I). lia. Qed.

Lemma effect_none m g : takes_effect this o m g m g.
Proof. by left. Qed.

(** ** [FindGreaterOrEqual] *)

Definition first_geq m (key : list Z) (p : option loc) : Prop :=
  match p with
  | None => forall z, z ∈ level m 0 -> ucmp (key_of m z) key = Lt
  | Some y => y ∈ level m 0 /\ ucmp (key_of m y) key <> Lt /\
              forall z, z ∈ level m 0 -> ucmp (key_of m z) key = Lt \/ ucmp (key_of m y) (key_of m z) <> Gt
  end.

(** How the node reached compares with the key; null is behind all keys. *)
Definition compared m (key : list Z) (p : option loc) : comparison :=
  match p with None => Gt | Some y => ucmp (key_of m y) key end.

Lemma upto_lt m z x key : upto m z x -> before m x key -> ucmp (key_of m z) key = Lt.
Proof. intros [Hx Hz] [?|Hb]; [done|]. by eapply cmp_le_lt. Qed.

Lemma succ_first m key x p : succ this m 0 x p -> before m x key -> compared m key p <> Lt -> first_geq m key p.
Proof.
  destruct p as [y|]; cbn [succ succ_in compared first_geq]; [|intros Hs Hb _ z Hz; eapply upto_lt; [by apply Hs|done]].
  intros (Hy & _ & Hs) Hb Hc. split_and!; [done|done|]. intros z Hz. destruct (Hs z Hz); [left; by eapply upto_lt|by right].
Qed.

Lemma equal_first m key i y : Inv m -> (i < kMax)%nat -> y ∈ level m i -> ucmp (key_of m y) key = Eq -> first_geq m key (Some y).
Proof.
  intros I Hi Hy E. split_and!; [by eapply level_sub|by rewrite E|]. intros z _. rewrite (cmp_eq ucmp _ _ (key_of m z) E).
  rewrite (cmp_anti ucmp (key_of m z) key). destruct (ucmp (key_of m z) key); [by right|by left|by right].
Qed.

Lemma first_geq_has m key p :
  first_geq m key p -> has (keys this m) key = match compared m key p with Eq => true | _ => false end.
Proof.
  intros Hp. apply eq_true_iff_eq. rewrite has_spec. unfold keys. setoid_rewrite list_elem_of_fmap. split.
  - intros (k & (z & -> & Hz) & E). destruct p as [y|]; cbn in *; [|by rewrite (Hp z Hz) in E].
    destruct Hp as (_ & Hy & H). destruct (H z Hz) as [Hl|Hl]; [by rewrite Hl in E|].
    destruct (ucmp (key_of m y) key) eqn:Ey; try done. apply (cmp_gt_lt ucmp) in Ey.
    pose proof (cmp_lt_le ucmp _ _ _ Ey Hl) as E'. rewrite (cmp_anti ucmp), E in E'. done.
  - destruct p as [y|]; cbn; [|done]. destruct Hp as (Hy & _). destruct (ucmp (key_of m y) key) eqn:E; try done. eauto.
Qed.

Lemma swp_compare {A} key p last (k : comparison -> prog A) Q g m :
  Inv m -> (forall y, p = Some y -> is_Some (nodes m !! y)) -> (forall b, last = Some b -> ucmp (key_of m b) key = Gt) ->
  (forall m', rely m m' -> swp (k (compared m key p)) Q g m') ->
  swp (pbind (match p with
              | None => Ret Gt
              | Some y => if bool_decide (p = last) then Ret Gt else pbind (do (Key y)) (fun k => Ret (ucmp k key))
              end) k) Q g m.
Proof.
  intros I Hp Hl HQ. destruct p as [y|]; cbn [compared] in *; [|cbn [pbind]; by apply HQ, rely_refl].
  case_bool_decide as E; [rewrite (Hl y) in HQ by done; cbn [pbind]; by apply HQ, rely_refl|].
  apply swp_bind, swp_bind, swp_key; auto.
Qed.

Definition settled (c : comparison) (i : nat) : bool :=
  match c, i with Eq, _ | Gt, O => true | _, _ => false end.

Lemma settled_first m key x i p :
  Inv m -> (i < kMax)%nat -> before m x key -> succ this m i x p -> settled (compared m key p) i = true -> first_geq m key p.
Proof.
  intros I Hi Hb Hs. destruct (compared m key p) eqn:E; [|done|].
  - destruct p as [y|]; [|done]. intros _. destruct Hs as (Hy & _). by eapply equal_first.
  - destruct i; [|done]. intros _. eapply succ_first; [done..|]. by rewrite E.
Qed.

Lemma swp_greater_loop (eff : bool) key fuel x i last Q g m0 m :
  Inv m -> rely m0 m -> (i < kMax)%nat -> on_level m i x -> before m x key ->
  (forall b, last = Some b -> ucmp (key_of m b) key = Gt) -> (rank this m x + i < fuel)%nat ->
  (eff = true -> g = None /\ o = SContains key) ->
  (forall p m1 m', rely m0 m' -> Inv m1 -> rely m1 m' -> first_geq m1 key p ->
     Q p (if eff then Some (has (keys this m1) key) else g) m') ->
  swp (greater_loop this fuel key x i last) Q g m.
Proof.
  intros I H0 Hi Hx Hb Hl Hf Heff HQ. revert x i last m I H0 Hi Hx Hb Hl Hf.
  induction fuel as [|fuel IH]; intros x i last m I H0 Hi Hx Hb Hl Hf; [lia|]. cbn [greater_loop].
  apply swp_visit; [done..|]. intros p Hp Hs. pose proof (settled_first _ _ _ _ _ I Hi Hb Hs) as Hset.
  exists (if settled (compared m key p) i then if eff then Some (has (keys this m) key) else g else g). split.
  { destruct (settled _ i), eff; try apply effect_none. destruct Heff as [-> ->]; [done|]. right. eauto. }
  intros m1 H1 Hn. assert (Ec : compared m key p = compared m1 key p) by (destruct p; cbn; [by rewrite (rely_key _ _ _ _ _ _ H1)|done]).
  assert (Hl1 : forall b, last = Some b -> ucmp (key_of m1 b) key = Gt) by (intros b Eb; rewrite (rely_key _ _ _ _ _ _ H1); auto).
  assert (I1 := rely_inv _ _ _ _ _ H1).
  apply swp_compare; [done|intros y Hy; destruct (Hn y Hy); by eapply in_alloc|done|]. intros m2 H2.
  assert (H12 := rely_trans _ _ _ _ _ _ H1 H2). rewrite <- Ec in *. destruct (settled (compared m key p) i) eqn:Eset.
  { destruct (compared m key p), i; try done; (eapply HQ; [by eapply rely_trans|done|done|by apply Hset]). }
  destruct (compared m key p) eqn:Ecm; [done| |destruct i as [|i]; [done|]].
  - destruct p as [y|]; [|done]. destruct (Hn y eq_refl) as [Hy Hxy]. cbn in Ecm. cbn [not_null pbind].
    assert (Hr : (rank this m2 y < rank this m2 x)%nat).
    { later H2. apply rank_behind; [done|by eapply in_not_head|by eapply in_alloc]. }
    assert (Hb2 : before m2 y key) by (right; by rewrite (rely_key _ _ _ _ _ _ H12)).
    later H2. later H12. apply IH; [done|done|done|by right|done| |lia]. intros b Eb. rewrite (rely_key _ _ _ _ _ _ H12). auto.
  - later H12. apply IH; [done|done|lia|by eapply on_sub; [| |apply Nat.le_succ_diag_r|]|done| |lia].
    intros b ->. rewrite (rely_key _ _ _ _ _ _ H12). done.
Qed.

(** Enough fuel for one pass over all nodes and levels. *)
Definition enough (fuel : nat) m : Prop := (size (nodes m) + kMax < fuel)%nat.

Lemma rank_head m : rank this m (head_ this) = size (nodes m).
Proof. unfold rank. rewrite decide_True by done. apply map_size_fmap. Qed.

Lemma rely_enough m m' fuel : rely m m' -> enough fuel m -> enough fuel m'.
Proof. intros H%rely_evolves. unfold enough. by rewrite <- (rank_head m'), <- (rank_head m), (rank_evolves _ _ _ _ _ H). Qed.

Lemma on_head m i : on_level m i (head_ this).
Proof. by left. Qed.

Lemma before_head m k : before m (head_ this) k.
Proof. by left. Qed.

(** Every search starts at the head on the highest level in use. *)
Lemma swp_start {A} (k : nat -> prog A) Q g m :
  Inv m -> (forall m' h, rely m m' -> (1 <= h <= kMax)%nat -> (h <= kMaxPossibleHeight)%nat -> swp (k h) Q g m') ->
  swp (pbind (do GetMaxHeight) k) Q g m.
Proof. intros I HQ. apply swp_bind, swp_height; [done|]. intros m' H. by apply HQ; [|apply (inv_height _ _ I)..]. Qed.

Lemma swp_FindGreaterOrEqual (eff : bool) key fuel Q g m :
  Inv m -> enough fuel m -> (eff = true -> g = None /\ o = SContains key) ->
  (forall p m1 m', rely m m' -> Inv m1 -> rely m1 m' -> first_geq m1 key p ->
     Q p (if eff then Some (has (keys this m1) key) else g) m') ->
  swp (FindGreaterOrEqual this fuel key) Q g m.
Proof.
  intros I Hf Heff HQ. apply swp_start; [done|]. intros m' h H Hh _. pose proof (rely_enough _ _ _ H Hf) as Hf'.
  eapply swp_greater_loop with (m0 := m); eauto using rely_inv, on_head, before_head; [lia|done|].
  rewrite rank_head. unfold enough in Hf'. lia.
Qed.

Lemma swp_Contains (eff : bool) key fuel Q g m :
  Inv m -> enough fuel m -> (eff = true -> g = None /\ o = SContains key) ->
  (forall b m1 m', rely m m' -> Inv m1 -> rely m1 m' -> b = has (keys this m1) key -> Q b (if eff then Some b else g) m') ->
  swp (Contains this fuel key) Q g m.
Proof.
  intros I Hf Heff HQ. apply swp_bind, swp_FindGreaterOrEqual with (eff := eff); [done..|].
  intros p m1 m' H I1 H1 Hp. pose proof (first_geq_has _ _ _ Hp) as E. destruct p as [y|]; cbn in E.
  - destruct Hp as (Hy & _). pose proof (in_alloc _ m1 0 y I1 (zero_level _ I1) Hy) as Ha.
    later H1. apply swp_bind, swp_key; [by eapply rely_inv|done|]. intros m2 H2.
    assert (E' : bool_decide (ucmp key (key_of m' y) = Eq) = has (keys this m1) key).
    { rewrite E, (cmp_anti ucmp (key_of m' y) key). by destruct (ucmp (key_of m' y) key). }
    cbn [SkipLogic.swp]. rewrite E'. eapply (HQ _ m1); eauto using rely_trans.
  - cbn [SkipLogic.swp]. rewrite E. eapply (HQ _ m1); eauto.
Qed.

(** ** [FindLessThan] *)

Definition last_less m i (key : list Z) x : Prop :=
  on_level m i x /\ before m x key /\ forall z, z ∈ level m i -> ucmp (key_of m z) key = Lt -> upto m z x.

Lemma succ_last m i key x p : on_level m i x -> succ this m i x p -> before m x key -> is_after m key p = false -> last_less m i key x.
Proof.
  intros Hx Hs Hb Hp. split_and!; [done..|]. intros z Hz Hk. destruct p as [y|]; [|by apply Hs]. destruct Hs as (_ & _ & Hs).
  destruct (Hs z Hz) as [|Hz']; [done|]. cbn in Hp. apply bool_decide_eq_false in Hp. destruct Hp. by eapply cmp_le_lt.
Qed.

Lemma swp_less_loop key fuel x i bottom last Q g m0 m :
  Inv m -> rely m0 m -> (bottom <= i < kMax)%nat -> on_level m i x -> before m x key ->
  is_after m key last = false -> (rank this m x + i < fuel)%nat ->
  (forall x m1 m', rely m0 m' -> Inv m1 -> rely m1 m' -> last_less m1 bottom key x -> Q x g m') ->
  swp (less_loop this fuel key x i bottom last) Q g m.
Proof.
  intros I H0 Hi Hx Hb Hl Hf HQ. revert x i last m I H0 Hi Hx Hb Hl Hf.
  induction fuel as [|fuel IH]; intros x i last m I H0 Hi Hx Hb Hl Hf; [lia|]. cbn [less_loop].
  apply swp_visit; [done|lia|done|done|]. intros p Hp Hs. exists g. split; [apply effect_none|]. intros m1 H1 Hn.
  assert (Hia : forall m2 n, rely m m2 -> is_after m2 key n = is_after m key n)
    by (intros m2 [y|] H2; cbn; [by rewrite (rely_key _ _ _ _ _ _ H2)|done]).
  apply swp_bind. assert (I1 := rely_inv _ _ _ _ _ H1).
  assert (Hk : forall m2, rely m1 m2 -> swp (if is_after m key p then pbind (not_null p) (fun x => less_loop this fuel key x i bottom last)
     else if (i =? bottom)%nat then Ret x else less_loop this fuel key x (i - 1) bottom p) Q g m2).
  { intros m2 H2. assert (H12 := rely_trans _ _ _ _ _ _ H1 H2). assert (I2 := rely_inv _ _ _ _ _ H2).
    destruct (is_after m key p) eqn:Ea; [|destruct (Nat.eqb_spec i bottom) as [->|]].
    - destruct p as [y|]; [|done]. destruct (Hn y eq_refl) as [Hy Hxy]. cbn in Ea. apply bool_decide_eq_true in Ea. cbn [not_null pbind].
      assert (Hr : (rank this m2 y < rank this m2 x)%nat).
      { later H2. apply rank_behind; [done|apply (in_not_head this m2 i); [done|lia|done]|apply (in_alloc this m2 i); [done|lia|done]]. }
      assert (Hb2 : before m2 y key) by (right; by rewrite (rely_key _ _ _ _ _ _ H12)).
      later H2. rewrite <- (Hia m2) in Hl by done. later H12. apply IH; [done|done|lia|by right|done|done|lia].
    - apply (HQ x m m2); [by eapply rely_trans|done|done|]. by eapply succ_last.
    - rewrite <- (Hia m2) in Ea by done. later H12. apply IH; [done|done|lia| |done|done|lia].
      apply (on_sub m2 i); [done|lia|lia|done]. }
  case_bool_decide as E.
  - rewrite E in Hk. rewrite Hl in Hk. rewrite E. by apply Hk, rely_refl.
  - apply swp_KeyIsAfterNode; [done| | |rewrite Hia by done; done].
    + intros ->. destruct (Hn _ eq_refl) as [Hh _]. by apply (in_not_head this m1 i _ I1 ltac:(lia)) in Hh.
    + intros y Hy. destruct (Hn y Hy) as [Hl' _]. by apply (in_alloc this m1 i _ I1 ltac:(lia)) in Hl'.
Qed.

Lemma swp_FindLessThan key fuel Q g m :
  Inv m -> enough fuel m ->
  (forall x m1 m', rely m m' -> Inv m1 -> rely m1 m' -> last_less m1 0 key x -> Q x g m') ->
  swp (FindLessThan this fuel key) Q g m.
Proof.
  intros I Hf HQ. apply swp_start; [done|]. intros m' h H Hh _. pose proof (rely_enough _ _ _ H Hf) as Hf'.
  unfold FindLessThan_from. destruct (Nat.ltb_spec 0 h); [|lia]. cbn [passert pbind].
  eapply swp_less_loop with (m0 := m); eauto using rely_inv, on_head, before_head; [lia|].
  rewrite rank_head. unfold enough in Hf'. lia.
Qed.

(** ** [FindLast] and [EstimateCount] *)

Definition last_of m x : Prop := on_level m 0 x /\ forall z, z ∈ level m 0 -> upto m z x.

Lemma swp_find_last_loop fuel x i Q g m0 m :
  Inv m -> rely m0 m -> (i < kMax)%nat -> on_level m i x -> (rank this m x + i < fuel)%nat ->
  (forall x m1 m', rely m0 m' -> Inv m1 -> rely m1 m' -> last_of m1 x -> Q x g m') ->
  swp (find_last_loop fuel x i) Q g m.
Proof.
  intros I H0 Hi Hx Hf HQ. revert x i m I H0 Hi Hx Hf.
  induction fuel as [|fuel IH]; intros x i m I H0 Hi Hx Hf; [lia|]. cbn [find_last_loop].
  apply swp_bind, swp_next; [done..|]. intros p m1 _ Hs H1. destruct p as [y|]; [|destruct i as [|i]].
  - destruct Hs as (Hy & Hxy & _). assert (Hr : (rank this m y < rank this m x)%nat).
    { apply rank_behind; [done|by eapply in_not_head|by eapply in_alloc]. }
    later H1. apply IH; [done|done|done|by right|lia].
  - apply (HQ x m m1); [by eapply rely_trans|done|done|]. by split.
  - later H1. apply IH; [done|done|lia|by eapply on_sub; [| |apply Nat.le_succ_diag_r|]|lia].
Qed.

Lemma swp_FindLast fuel Q g m :
  Inv m -> enough fuel m ->
  (forall x m1 m', rely m m' -> Inv m1 -> rely m1 m' -> last_of m1 x -> Q x g m') -> swp (FindLast this fuel) Q g m.
Proof.
  intros I Hf HQ. apply swp_start; [done|]. intros m' h H Hh _. pose proof (rely_enough _ _ _ H Hf) as Hf'.
  eapply swp_find_last_loop with (m0 := m); eauto using rely_inv, on_head; [lia|]. rewrite rank_head. unfold enough in Hf'. lia.
Qed.

End find.
