(* ===== verification/SkipSplice.v ===== *)
(** * Splices

    The brackets an insertion into the list of memtable/inlineskiplist.h works
    with: how they are found, kept between insertions and repaired. *)

From S2P Require Import Prelude Words Slice DbFormat SkipList SkipInv SkipLogic SkipFind.

(** Take the facts about a memory over any step. *)
Ltac grown H :=
  match type of H with
  | evolves ?t ?o ?m ?m' =>
      repeat match goal with
      | K : on_level t m ?i ?x |- _ => apply (evolves_on t o m m' i x ltac:(first [assumption | lia]) H) in K
      | K : ?x ∈ level t m ?i |- _ => apply (ev_level t o m m' H i ltac:(first [assumption | lia])) in K
      | K : before t m ?x ?k |- _ => apply (evolves_before t o m m' x k H) in K
      | K : is_Some (nodes m !! ?x) |- _ => apply (shape_alloc m m' x (ev_shape t o m m' H x)) in K
      | K : context [shape m ?x] |- _ => rewrite <- (ev_shape t o m m' H x) in K
      | K : context [rank t m ?x] |- _ => rewrite <- (rank_evolves t o m m' x H) in K
      | K : context [key_of m ?x] |- _ => rewrite <- (evolves_key t o m m' x H) in K
      end;
      repeat match goal with
      | |- context [key_of m ?x] => rewrite <- (evolves_key t o m m' x H)
      end
  end.

Section splice.
Context {cmp : Comparator} `{!CompareOk ucmp} (this : InlineSkipList).
Implicit Types (m : memory) (x y z : loc) (i : nat) (g : option bool) (s : Splice) (key : list Z).

Local Notation Inv := (Inv this).
Local Notation level := (level this).
Local Notation on_level := (on_level this).
Local Notation before := (before this).
Local Notation upto := (upto this).
Local Notation kMax := (kMaxHeight_ this).
Local Notation head := (head_ this).

(** ** What a splice says *)

Definition splice_at s i (p : loc) (n : option loc) : Prop :=
  prev_ s !! i = Some (Some (Some p)) /\ next_s s !! i = Some (Some n).

(** [key <= n] and the two orders of pointers, in which the head is smallest and
    null is largest. *)
Definition key_le m key (n : option loc) : Prop := forall y, n = Some y -> ucmp key (key_of m y) <> Gt.
Definition prev_le m (p' p : loc) : Prop := p' = p \/ p' = head \/ (p <> head /\ klt m p' p).
Definition next_le m (n n' : option loc) : Prop :=
  n' = n \/ n' = None \/ exists y y', n = Some y /\ n' = Some y' /\ klt m y y'.

Definition member m s i : Prop :=
  exists p n, splice_at s i p n /\ on_level m i p /\ (forall y, n = Some y -> y ∈ level m i).
Definition brackets m key s i : Prop :=
  exists p n, splice_at s i p n /\ before m p key /\ key_le m key n.
Definition prevs_ordered m s i : Prop :=
  exists p n p' n', splice_at s i p n /\ splice_at s (i + 1) p' n' /\ prev_le m p' p.
Definition nexts_ordered m s i : Prop :=
  exists p n p' n', splice_at s i p n /\ splice_at s (i + 1) p' n' /\ next_le m n n'.
Definition top_ok s : Prop := splice_at s (height_ s) head None.

(** Room for every height the list may get. *)
Definition room s : Prop := (kMax < length (prev_ s))%nat /\ (kMax < length (next_s s))%nat.

(** A splice between insertions. *)
Definition splice_ok m s : Prop :=
  room s /\ (height_ s <= max_height_ m)%nat /\
  ((0 < height_ s)%nat -> top_ok s /\ forall i, (i < height_ s)%nat -> member m s i /\ prevs_ordered m s i /\ nexts_ordered m s i).

(** Levels from [lo] on bracket the key. *)
Definition good m key s lo : Prop :=
  room s /\ (0 < height_ s <= max_height_ m)%nat /\ top_ok s /\
  (forall i, (lo <= i < height_ s)%nat -> member m s i /\ prevs_ordered m s i /\ nexts_ordered m s i) /\
  (forall i, (lo <= i <= height_ s)%nat -> brackets m key s i).

Definition tight m s i : Prop := exists p n, splice_at s i p n /\ load p i m = Ok n.

Lemma splice_at_inj s i p n p' n' : splice_at s i p n -> splice_at s i p' n' -> p' = p /\ n' = n.
Proof. intros [H1 H2] [H1' H2']. split; congruence. Qed.

(** ** Any step keeps this *)

Lemma prev_le_ev own m m' p' p : evolves this own m m' -> prev_le m p' p -> prev_le m' p' p.
Proof. intros H. unfold prev_le, klt. by rewrite !(evolves_key _ _ _ _ _ H). Qed.

Lemma next_le_ev own m m' n n' : evolves this own m m' -> next_le m n n' -> next_le m' n n'.
Proof. intros H. unfold next_le, klt. by setoid_rewrite (fun x => evolves_key _ _ _ _ x H). Qed.

Lemma key_le_ev own m m' key n : evolves this own m m' -> key_le m key n -> key_le m' key n.
Proof. intros H Hk y Hy. rewrite (evolves_key _ _ _ _ _ H). auto. Qed.

Lemma member_ev own m m' s i : (i < kMax)%nat -> evolves this own m m' -> member m s i -> member m' s i.
Proof.
  intros Hi H (p & n & Hs & Hp & Hn). exists p, n. split_and!; [done|by eapply evolves_on|]. intros y Hy. apply (ev_level _ _ _ _ H); auto.
Qed.

Lemma brackets_ev own m m' key s i : evolves this own m m' -> brackets m key s i -> brackets m' key s i.
Proof. intros H (p & n & Hs & Hp & Hn). exists p, n. split_and!; [done|by eapply evolves_before|by eapply key_le_ev]. Qed.

Lemma prevs_ev own m m' s i : evolves this own m m' -> prevs_ordered m s i -> prevs_ordered m' s i.
Proof. intros H (p & n & p' & n' & ? & ? & ?). exists p, n, p', n'. split_and!; [done..|by eapply prev_le_ev]. Qed.

Lemma nexts_ev own m m' s i : evolves this own m m' -> nexts_ordered m s i -> nexts_ordered m' s i.
Proof. intros H (p & n & p' & n' & ? & ? & ?). exists p, n, p', n'. split_and!; [done..|by eapply next_le_ev]. Qed.

Lemma splice_ok_ev own m m' s : Inv m -> evolves this own m m' -> splice_ok m s -> splice_ok m' s.
Proof.
  intros I H (Hr & Hh & Hs). pose proof (ev_height _ _ _ _ H). destruct (inv_height _ _ I). split_and!; [done|lia|].
  intros Hpos. destruct (Hs Hpos) as [Ht Hp]. split; [done|]. intros i Hi. destruct (Hp i Hi) as (? & ? & ?).
  split_and!; [eapply member_ev; eauto; lia|by eapply prevs_ev|by eapply nexts_ev].
Qed.

Lemma good_ev own m m' key s lo : Inv m -> evolves this own m m' -> good m key s lo -> good m' key s lo.
Proof.
  intros I H (Hr & Hh & Ht & Hp & Hb). pose proof (ev_height _ _ _ _ H). destruct (inv_height _ _ I). split_and!; [done|lia|lia|done| |].
  - intros i Hi. destruct (Hp i Hi) as (? & ? & ?). split_and!; [eapply member_ev; eauto; lia|by eapply prevs_ev|by eapply nexts_ev].
  - intros i Hi. eapply brackets_ev; eauto.
Qed.

(** ** A bracket holds at all levels above *)

Lemma prev_le_before m p' p key : prev_le m p' p -> before m p key -> before m p' key.
Proof. intros [->|[->|[Hp Hl]]] Hb; [done|by left|]. destruct Hb as [?|Hb]; [done|]. right. by eapply cmp_trans. Qed.

Lemma next_le_key m n n' key : next_le m n n' -> key_le m key n -> key_le m key n'.
Proof.
  intros [->|[->|(y & y' & -> & -> & Hl)]] Hk; [done|by intros ?|]. intros z [= <-]. specialize (Hk y eq_refl).
  unfold klt in Hl. by rewrite (cmp_le_lt ucmp _ _ _ Hk Hl).
Qed.

Lemma brackets_up m key s i :
  prevs_ordered m s i -> nexts_ordered m s i -> brackets m key s i -> brackets m key s (i + 1).
Proof.
  intros (p & n & p' & n' & H1 & H2 & Hp) (p0 & n0 & p0' & n0' & H1' & H2' & Hn) (p1 & n1 & H1'' & Hb & Hk).
  destruct (splice_at_inj _ _ _ _ _ _ H1 H1') as [-> ->]. destruct (splice_at_inj _ _ _ _ _ _ H1 H1'') as [-> ->].
  destruct (splice_at_inj _ _ _ _ _ _ H2 H2') as [-> ->].
  exists p', n'. split_and!; [done|by eapply prev_le_before|by eapply next_le_key].
Qed.

Lemma splice_good m key s rh :
  splice_ok m s -> (0 < height_ s)%nat -> (rh <= height_ s)%nat -> ((rh < height_ s)%nat -> brackets m key s rh) -> good m key s rh.
Proof.
  intros (Hr & Hh & Hs) H0 Hrh Hb. destruct (Hs H0) as [Ht Hp]. split_and!; [done|done|done|done|intros; apply Hp; lia|].
  assert (Hbr : brackets m key s rh).
  { destruct (decide (rh < height_ s)%nat); [auto|]. replace rh with (height_ s) by lia. exists head, None. split_and!; [done|by left|by intros ?]. }
  intros i [Hi1 Hi2]. induction Hi1 as [|i Hi1 IH]; [done|]. destruct (Hp i) as (_ & ? & ?); [lia|].
  rewrite <- Nat.add_1_r. apply brackets_up; [done|done|]. apply IH. lia.
Qed.

(** ** Finding the bracket of a level *)

Section swp.
Context (own : loc -> Prop) (alone : bool) (o : set_op).
Local Notation swp := (swp this own alone o).
Local Notation rely := (rely this own alone).

(** What a search of a level found, at the moment of its last load. *)
Record found m i key b p n : Prop := {
  found_on : on_level m i p;
  found_before : before m p key;
  found_load : load p i m = Ok n;
  found_succ : succ this m i p n;
  found_key : key_le m key n;
  found_from : prev_le m b p
}.

Lemma prev_le_trans m p q r : prev_le m p q -> prev_le m q r -> prev_le m p r.
Proof.
  intros [->|[->|[Hq Hpq]]] Hqr; [done|by right; left|]. destruct Hqr as [->|[->|[Hr Hqr]]]; [by right; right|done|].
  right; right. split; [done|]. by eapply klt_trans.
Qed.

Lemma swp_splice_test key n after Q g m :
  Inv m -> n <> Some head -> (forall y, n = Some y -> is_Some (nodes m !! y)) ->
  (forall m', rely m m' -> Q (bool_decide (n = after) || negb (is_after m key n)) g m') ->
  swp (if bool_decide (n = after) then Ret true else pbind (KeyIsAfterNode this key n) (fun b => Ret (negb b))) Q g m.
Proof.
  intros I Hn Ha HQ. case_bool_decide as E; [by apply HQ, rely_refl|]. apply swp_bind, swp_KeyIsAfterNode; auto.
Qed.

(** The loads ahead. *)
Lemma swp_prefetches {A} (pb : bool) n i (k : prog A) Q g m :
  Inv m -> (i < kMax)%nat -> (forall y, n = Some y -> y ∈ level m i) -> (forall m', rely m m' -> swp k Q g m') ->
  swp (pbind (prefetch n i) (fun _ => pbind (if pb && (0 <? i)%nat then prefetch n (i - 1) else Ret tt) (fun _ => k))) Q g m.
Proof.
  intros I Hi Hn HQ. apply swp_bind, swp_prefetch; [done..|]. intros m1 H1. assert (I1 := rely_inv _ _ _ _ _ H1).
  destruct (pb && (0 <? i)%nat) eqn:E; [|cbn [pbind]; by apply HQ].
  apply andb_true_iff in E as [_ Hi0%Nat.ltb_lt]. apply swp_bind, swp_prefetch; [done|lia| |].
  - intros y Hy. specialize (Hn y Hy). later H1. destruct i as [|i]; [lia|]. cbn [Nat.sub]. rewrite Nat.sub_0_r. by apply (inv_below _ _ I1).
  - intros m2 H2. apply HQ. by eapply rely_trans.
Qed.

Lemma swp_FindSpliceForLevel pb fuel key b0 b after i Q g m0 m :
  Inv m -> rely m0 m -> (i < kMax)%nat -> on_level m i b -> before m b key -> key_le m key after -> prev_le m b0 b ->
  (rank this m b < fuel)%nat ->
  (forall p n m1 m', rely m0 m1 -> rely m1 m' -> found m1 i key b0 p n -> Q (p, n) g m') ->
  swp (FindSpliceForLevel this pb fuel key b after i) Q g m.
Proof.
  intros I H0 Hi Hx Hb Ha Hle Hf HQ. revert b m I H0 Hx Hb Ha Hle Hf.
  induction fuel as [|fuel IH]; intros b m I H0 Hx Hb Ha Hle Hf; [lia|]. cbn [FindSpliceForLevel].
  apply swp_bind, swp_next; [done..|]. intros n m1 Hn Hs H1. assert (I1 := rely_inv _ _ _ _ _ H1).
  assert (Hny : forall m2, rely m m2 -> forall y, n = Some y -> y ∈ level m2 i /\ before m2 b (key_of m2 y)).
  { intros m2 H2 y ->. destruct Hs as (Hy & Hby & _). later H2. done. }
  apply swp_prefetches; [done|done|intros y Hy; by apply (Hny m1)|]. intros m2 H2. assert (H02 := rely_trans _ _ _ _ _ _ H1 H2).
  apply swp_checks with (i := i); [by eapply rely_inv|done|by eapply rely_on|by eapply rely_before|by apply Hny|].
  intros m3 H3. assert (H03 := rely_trans _ _ _ _ _ _ H02 H3). assert (I3 := rely_inv _ _ _ _ _ H3).
  apply swp_bind, swp_splice_test; [done|..].
  { intros ->. destruct (Hny _ H1 _ eq_refl) as [Hh _]. by apply (in_not_head this m1 i _ I1 Hi) in Hh. }
  { intros y Hy. destruct (Hny _ H03 y Hy) as [Hl _]. by apply (in_alloc this m3 i). }
  intros m4 H4. assert (H04 := rely_trans _ _ _ _ _ _ H03 H4). assert (I4 := rely_inv _ _ _ _ _ H4).
  assert (Hdone : key_le m key n -> Q (b, n) g m4).
  { intros Hkn. apply (HQ b n m m4); [done|done|by split]. }
  case_bool_decide as E; cbn [orb]; [subst after; by apply Hdone|]. destruct (is_after m3 key n) eqn:Ey; cbn [negb].
  - destruct n as [y|]; [|done]. cbn in Ey. apply bool_decide_eq_true in Ey. destruct (Hny _ H04 y eq_refl) as [Hy Hby]. cbn [not_null pbind].
    assert (Hr : (rank this m4 y < rank this m4 b)%nat) by (apply rank_behind; [done|by eapply in_not_head|by eapply in_alloc]).
    pose proof (rely_evolves _ _ _ _ _ H04) as Hev. rewrite <- (rely_key _ _ _ _ _ _ H4) in Ey. later H04.
    apply IH; [done|done|by right|by right|by eapply key_le_ev| |lia].
    eapply prev_le_trans; [by eapply prev_le_ev|]. destruct Hby as [->|Hby]; [by right; left|].
    right; right. split; [by eapply in_not_head|done].
  - apply Hdone. intros y -> Hgt. cbn in Ey. apply bool_decide_eq_false in Ey. destruct Ey.
    rewrite (rely_key _ _ _ _ _ _ H03). by apply (cmp_gt_lt ucmp).
Qed.

(** ** Recomputing levels *)

Definition with_level i (r : loc * option loc) s : Splice :=
  mkSplice (height_ s) (<[i := Some (Some r.1)]> (prev_ s)) (<[i := Some r.2]> (next_s s)).

Lemma swp_put_level i r s Q g m :
  room s -> (i <= kMax)%nat -> Q (with_level i r s) g m -> swp (put_level i r s) Q g m.
Proof.
  intros [H1 H2] Hi HQ. unfold put_level, put.
  destruct (Nat.ltb_spec i (length (prev_ s))); [|lia]. destruct (Nat.ltb_spec i (length (next_s s))); [|lia]. done.
Qed.

Lemma with_level_eq i p n s : room s -> (i <= kMax)%nat -> splice_at (with_level i (p, n) s) i p n.
Proof. intros [H1 H2] Hi. split; cbn; apply list_lookup_insert_eq; lia. Qed.

Lemma with_level_ne i j r s p n : j <> i -> splice_at s j p n <-> splice_at (with_level i r s) j p n.
Proof. intros Hj. unfold splice_at. cbn. by rewrite !list_lookup_insert_ne. Qed.

Lemma with_level_room i r s : room s -> room (with_level i r s).
Proof. unfold room. cbn. by rewrite !length_insert. Qed.

Lemma found_next m i key b p n n' :
  Inv m -> (i < kMax)%nat -> found m i key b p n -> key_le m key n' -> (forall y, n' = Some y -> y ∈ level m i) -> next_le m n n'.
Proof.
  intros I Hi [_ Hb _ Hs _ _] Hk Hn. destruct n' as [y'|]; [|by right; left].
  specialize (Hk y' eq_refl). specialize (Hn y' eq_refl).
  assert (Hup : ~ upto m y' p).
  { intros Hup. pose proof (upto_lt _ _ _ _ _ Hup Hb) as E. apply Hk. by apply (cmp_gt_lt ucmp). }
  destruct n as [y|]; [|by destruct Hup; apply Hs]. destruct Hs as (Hy & _ & Hs). destruct (Hs y' Hn) as [?|Hle]; [done|].
  destruct (ucmp (key_of m y) (key_of m y')) eqn:E; [left; f_equal; symmetry; by eapply level_inj|by right; right; eauto|done].
Qed.

(** A splice and the found bracket of the level below its good ones. *)
Lemma good_step m m' key s i p n p' n' :
  Inv m -> rely m m' -> (i < height_ s)%nat -> good m' key s (S i) -> splice_at s (S i) p' n' ->
  (forall y, n' = Some y -> y ∈ level m i) -> key_le m key n' ->
  found m i key p' p n -> good m' key (with_level i (p, n) s) i.
Proof.
  intros I H Hi (Hr & Hh & Ht & Hp & Hb) Hs Hn' Hk Hf. pose proof (rely_evolves _ _ _ _ _ H) as Hev.
  destruct (inv_height _ _ (rely_inv _ _ _ _ _ H)) as [Hm _].
  assert (Hnn : next_le m n n') by (eapply found_next; eauto; lia). destruct Hf as [Hon Hbe _ Hsu Hkn Hfr].
  assert (Ei : splice_at (with_level i (p, n) s) i p n) by (apply with_level_eq; [done|lia]).
  assert (Ej : splice_at (with_level i (p, n) s) (i + 1) p' n') by (rewrite Nat.add_1_r; by apply with_level_ne; [lia|]).
  split_and!; [by apply with_level_room|cbn; lia|cbn; lia|apply with_level_ne; [cbn; lia|done]| |]; cbn [with_level height_].
  - intros j Hj. destruct (decide (j = i)) as [->|Hne].
    + split_and!.
      * exists p, n. split_and!; [done|by eapply evolves_on; [lia|..]|]. intros y ->. apply (ev_level _ _ _ _ Hev); [lia|apply Hsu].
      * exists p, n, p', n'. split_and!; [done..|by eapply prev_le_ev].
      * exists p, n, p', n'. split_and!; [done..|by eapply next_le_ev].
    + destruct (Hp j) as ((q & r & H1 & H2 & H3) & (q1 & r1 & q1' & r1' & H4 & H5 & H6) & (q2 & r2 & q2' & r2' & H7 & H8 & H9)); [lia|].
      split_and!; [exists q, r|exists q1, r1, q1', r1'|exists q2, r2, q2', r2']; split_and!; try done; apply with_level_ne; (lia || done).
  - intros j Hj. destruct (decide (j = i)) as [->|Hne].
    + exists p, n. split_and!; [done|by eapply evolves_before|by eapply key_le_ev].
    + destruct (Hb j) as (q & r & H1 & H2 & H3); [lia|]. exists q, r. split_and!; [by apply with_level_ne|done..].
Qed.

Lemma read_at_ret (a : list (option (option loc))) i p : a !! i = Some (Some p) -> read_at a i = Ret p.
Proof. unfold read_at. by intros ->. Qed.

Lemma in_sub m i j x : Inv m -> (i < kMax)%nat -> (j <= i)%nat -> x ∈ level m i -> x ∈ level m j.
Proof. intros I Hi Hj Hx. induction Hj as [|i Hj IH]; [done|]. apply IH; [lia|]. by apply (inv_below _ _ I). Qed.

(** An entry of a splice whose levels bracket the key. *)
Definition entry_ok m key i p n : Prop :=
  (forall j, (j <= i)%nat -> (j < kMax)%nat -> on_level m j p /\ forall y, n = Some y -> y ∈ level m j) /\
  before m p key /\ key_le m key n.

Lemma good_entry m key s i lo :
  Inv m -> good m key s lo -> (lo <= i <= height_ s)%nat -> exists p n, splice_at s i p n /\ entry_ok m key i p n.
Proof.
  intros I (Hr & Hh & Ht & Hp & Hb) Hi. destruct (Hb i Hi) as (p & n & Hs & Hbe & Hk). exists p, n. split; [done|].
  destruct (inv_height _ _ I) as [Hm _]. split; [|done]. intros j Hj Hjm. destruct (decide (i = height_ s)) as [->|Hne].
  - destruct (splice_at_inj _ _ _ _ _ _ Ht Hs) as [-> ->]. split; [by left|by intros ?].
  - destruct (Hp i) as ((q & r & H1 & H2 & H3) & _); [lia|]. destruct (splice_at_inj _ _ _ _ _ _ Hs H1) as [-> ->].
    split; [apply (on_sub this m i); [done|lia|done|done]|]. intros y Hy. apply (in_sub m i); [done|lia|done|auto].
Qed.

Lemma rank_bound m x : (rank this m x <= size (nodes m))%nat.
Proof.
  unfold rank. rewrite <- (map_size_fmap node_key). destruct (decide _); [done|]. apply map_subseteq_size, map_filter_subseteq.
Qed.

Lemma rely_size m m' : rely m m' -> size (nodes m') = size (nodes m).
Proof. intros H%rely_evolves. by rewrite <- !(rank_head this), (rank_evolves _ _ _ _ _ H). Qed.

Lemma rely_alone m m' : alone = true -> rely m m' -> m' = m.
Proof. intros E [_ H]. by rewrite E in H. Qed.

Lemma swp_recompute fuel key n s Q g m0 m :
  Inv m -> rely m0 m -> good m key s n -> (n <= height_ s)%nat -> (size (nodes m) < fuel)%nat ->
  (forall s' m', rely m0 m' -> good m' key s' 0 -> height_ s' = height_ s -> (alone = true -> forall i, (i < n)%nat -> tight m' s' i) ->
     (forall j p q, (n <= j)%nat -> splice_at s j p q -> splice_at s' j p q) -> Q s' g m') ->
  swp (recompute_loop this fuel key n s) Q g m.
Proof.
  revert s m. induction n as [|i IH]; intros s m I H0 Hg Hn Hf HQ; cbn [recompute_loop].
  { apply HQ; [done|done|done|intros; lia|done]. }
  destruct (good_entry _ _ _ (S i) (S i) I Hg) as (p' & n' & Hs & Hon & Hb & Hk); [lia|]. rewrite Nat.add_1_r.
  rewrite (read_at_ret _ _ _ (proj1 Hs)). cbn [pbind not_null]. rewrite (read_at_ret _ _ _ (proj2 Hs)). cbn [pbind].
  destruct (inv_height _ _ I) as [Hm _]. destruct (Hg) as (Hr & Hh & _). apply swp_bind.
  destruct (Hon i) as [Hp' Hn']; [lia|lia|].
  eapply swp_FindSpliceForLevel with (b0 := p') (m0 := m); [done|by apply rely_refl|lia|done|done|done|by left| |].
  { pose proof (rank_bound m p'). lia. }
  intros p q m1 m2 H1 H12 Hfd. assert (H2 := rely_trans _ _ _ _ _ _ H1 H12). assert (I2 := rely_inv _ _ _ _ _ H2).
  assert (Hg2 : good m2 key (with_level i (p, q) s) i).
  { apply (good_step m1) with (p' := p') (n' := n'); [exact (rely_inv _ _ _ _ _ H1)|done|lia|eapply good_ev; [exact I|exact (rely_evolves _ _ _ _ _ H2)|done]|done| | |done].
    - intros y Hy. eapply rely_in; [lia|done|auto].
    - eapply key_le_ev; [exact (rely_evolves _ _ _ _ _ H1)|done]. }
  apply swp_bind, swp_put_level; [done|lia|]. apply IH; [done|by eapply rely_trans|done|cbn; lia|by rewrite (rely_size m)|].
  intros s' m' H' Hg' Hh' Ht' Hk'. apply HQ; [done|done|done| |].
  - intros Hal j Hj. destruct (decide (j = i)) as [->|]; [|apply Ht'; [done|lia]].
    exists p, q. split; [apply Hk'; [lia|]; apply with_level_eq; [done|lia]|].
    assert (H01 := rely_trans _ _ _ _ _ _ H0 H1). rewrite (rely_alone _ _ Hal H'), <- (rely_alone _ _ Hal H01). apply Hfd.
  - intros j a b Hj Ha. apply Hk'; [lia|]. by apply with_level_ne; [lia|].
Qed.

(** ** Reusing a splice *)

Lemma swp_skip fuel (a : list (option (option loc))) bad r top t Q g m :
  (forall j, (r <= j < top)%nat -> exists p, a !! j = Some (Some p)) -> a !! top = Some (Some t) -> t <> bad ->
  (r <= top)%nat -> (top - r < fuel)%nat ->
  (forall r', (r <= r' <= top)%nat -> (a !! r = Some (Some bad) -> (r < r')%nat) -> Q r' g m) -> swp (skip_loop fuel a bad r) Q g m.
Proof.
  revert r. induction fuel as [|fuel IH]; intros r Ha Ht Hne Hr Hf HQ; [lia|]. cbn [skip_loop].
  assert (Hp : exists p, a !! r = Some (Some p)) by (destruct (decide (r = top)) as [->|]; [eauto|apply Ha; lia]).
  destruct Hp as [p Hp]. rewrite (read_at_ret _ _ _ Hp). cbn [pbind]. case_bool_decide as E.
  - subst p. assert (r <> top) by congruence. apply IH; [intros; apply Ha; lia|done|done|lia|lia|]. intros r' Hr' _. apply HQ; [lia|]. intros _. lia.
  - apply HQ; [lia|]. congruence.
Qed.

(** Skipping the levels of an unsuitable entry, or giving up all. *)
Lemma swp_skip_or_all (allow : bool) (a : list (option (option loc))) bad r top t Q g m :
  (forall j, (r <= j < top)%nat -> exists p, a !! j = Some (Some p)) -> a !! top = Some (Some t) -> t <> bad ->
  (r < top)%nat -> a !! r = Some (Some bad) -> (forall r', (r < r' <= top)%nat -> Q r' g m) ->
  swp (if allow then skip_loop (length a + 1) a bad r else Ret top) Q g m.
Proof.
  intros Ha Ht Hne Hr Hb HQ. destruct allow; [|apply HQ; lia]. pose proof (lookup_lt_Some _ _ _ Ht).
  eapply swp_skip; [done|done|done|lia|lia|]. intros r' Hr' Hlt. apply HQ. specialize (Hlt Hb). lia.
Qed.

Lemma splice_entries m s j : splice_ok m s -> (0 < height_ s)%nat -> (j < height_ s)%nat ->
  (exists p, prev_ s !! j = Some (Some p)) /\ exists n, next_s s !! j = Some (Some n).
Proof. intros (_ & _ & Hs) H0 Hj. destruct (Hs H0) as [_ Hp]. destruct (Hp j Hj) as ((p & n & [H1 H2] & _) & _). eauto. Qed.

(** The key against the upper end of a bracket. *)
Lemma swp_check_next {A} (allow : bool) key s p n r (k : nat -> prog A) (d : A) Q g m :
  Inv m -> splice_at s r p n -> before m p key -> n <> Some head -> (forall y, n = Some y -> is_Some (nodes m !! y)) ->
  (forall j, (r <= j < height_ s)%nat -> exists q, next_s s !! j = Some (Some q)) -> next_s s !! height_ s = Some (Some None) ->
  (r < height_ s)%nat ->
  (forall r' m', (r < r' <= height_ s)%nat -> rely m m' -> swp (k r') Q g m') ->
  (forall m', rely m m' -> ((r < height_ s)%nat -> brackets m' key s r) -> Q d g m') ->
  swp (pbind (KeyIsAfterNode this key n) (fun after => if after : bool then
      pbind (if allow then skip_loop (length (next_s s) + 1) (next_s s) n r else Ret (height_ s)) k
      else Ret d)) Q g m.
Proof.
  intros I Hat Hb Hn Ha Hent Ht Hr Hk HQ. apply swp_bind, swp_KeyIsAfterNode; [done..|]. intros m' H'.
  destruct (is_after m key n) eqn:Ea.
  - apply swp_bind. eapply swp_skip_or_all with (top := height_ s); [done|done|intros <-; done|done|apply Hat|].
    intros r' Hr'. by apply Hk.
  - apply HQ; [done|]. intros _. exists p, n. split_and!; [done|exact (rely_before _ _ _ _ _ _ _ H' Hb)|].
    intros y -> Hgt. cbn in Ea. apply bool_decide_eq_false in Ea. destruct Ea. apply (cmp_gt_lt ucmp).
    by rewrite <- (rely_key _ _ _ _ _ _ H').
Qed.

Lemma swp_check_loop fuel key s allow r Q g m0 m :
  Inv m -> rely m0 m -> splice_ok m s -> (0 < height_ s)%nat -> (r <= height_ s)%nat -> (height_ s - r <= fuel)%nat ->
  (forall r m', rely m0 m' -> (r <= height_ s)%nat -> ((r < height_ s)%nat -> brackets m' key s r) -> Q r g m') ->
  swp (check_loop this fuel key s allow (height_ s) r) Q g m.
Proof.
  intros I H0 Hs Hpos Hr Hf HQ. revert r m I H0 Hs Hr Hf.
  induction fuel as [|fuel IH]; intros r m I H0 Hs Hr Hf; cbn [check_loop];
    (destruct (Nat.ltb_spec r (height_ s)) as [Hlt|]; [|apply HQ; [done|lia|lia]]); [lia|].
  assert (Hent := fun j => splice_entries m s j Hs Hpos). assert (Hs' := Hs). destruct Hs as (Hroom & Hh & Hs). destruct (Hs Hpos) as [[Ht1 Ht2] Hp].
  destruct (Hp r Hlt) as ((p & n & Hat & Hon & Hn) & _). destruct (inv_height _ _ I) as [Hm _].
  assert (Hsk : forall m', rely m m' -> splice_ok m' s).
  { intros m' H'. eapply splice_ok_ev; [exact I|exact (rely_evolves _ _ _ _ _ H')|exact Hs']. }
  rewrite (read_at_ret _ _ _ (proj1 Hat)). cbn [pbind not_null]. apply swp_bind, swp_next; [done|lia|done|]. intros q m1 _ _ H1.
  rewrite (read_at_ret _ _ _ (proj2 Hat)). cbn [pbind]. assert (I1 := rely_inv _ _ _ _ _ H1).
  case_bool_decide as Eq; cbn [negb]; [|apply IH; [done|by eapply rely_trans|by apply Hsk|lia|lia]].
  assert (Hk1 : forall r', (r < r' <= height_ s)%nat -> forall m', rely m m' -> swp (check_loop this fuel key s allow (height_ s) r') Q g m').
  { intros r' Hr' m' H'. apply IH; [by eapply rely_inv|by eapply rely_trans|by apply Hsk|lia|lia]. }
  assert (Hafter : forall m2, rely m m2 -> before m2 p key -> swp (pbind (KeyIsAfterNode this key n) (fun after => if after : bool then
      pbind (if allow then skip_loop (length (next_s s) + 1) (next_s s) n r else Ret (height_ s)) (fun r => check_loop this fuel key s allow (height_ s) r)
      else Ret r)) Q g m2).
  { intros m2 H2 Hb2. eapply swp_check_next; try done; [by eapply rely_inv| | |by intros j Hj; apply Hent; lia| |].
    - intros ->. by apply (in_not_head this m r _ I ltac:(lia) (Hn _ eq_refl)).
    - intros y Hy. eapply rely_alloc; [done|]. apply (in_alloc this m r); [done|lia|auto].
    - intros r' m3 Hr' H3. apply Hk1; [done|by eapply rely_trans].
    - intros m3 H3. apply HQ; [eauto using rely_trans|lia]. }
  destruct (is_head this (Some p)) eqn:Eh; cbn [pbind].
  { apply is_head_true in Eh as ->. apply Hafter; [done|by left]. }
  pose proof (is_head_false _ _ Eh). apply swp_bind, swp_bind, swp_KeyIsAfterNode; [done|congruence|..].
  { intros y [= <-]. eapply rely_alloc; [done|]. eapply on_alloc; [done| |done]. lia. }
  intros m2 H2. assert (H02 := rely_trans _ _ _ _ _ _ H1 H2). cbn [is_after]. case_bool_decide as Ep; cbn [negb SkipLogic.swp].
  - apply Hafter; [done|]. right. by rewrite (rely_key _ _ _ _ _ _ H2).
  - apply swp_bind. eapply swp_skip_or_all with (top := height_ s); [intros j Hj; apply Hent; lia|exact Ht1|congruence|done|apply Hat|].
    intros r' Hr'. by apply Hk1.
Qed.

Lemma swp_prepare_tail fuel key s r h Q g m0 m :
  Inv m -> rely m0 m -> good m key s r -> height_ s = h -> (r <= h)%nat -> (size (nodes m) < fuel)%nat ->
  (forall s' m', rely m0 m' -> good m' key s' 0 -> height_ s' = h -> (alone = true -> forall i, (i < r)%nat -> tight m' s' i) ->
     Q (r, s') g m') ->
  swp (pbind (passert (r <=? h)%nat) (fun _ => pbind (if (0 <? r)%nat then RecomputeSpliceLevels this fuel key s r else Ret s)
        (fun s => Ret (r, s)))) Q g m.
Proof.
  intros I H0 Hg Hh Hr Hf HQ. destruct (Nat.leb_spec r h); [|lia]. cbn [passert pbind]. apply swp_bind.
  destruct (Nat.ltb_spec 0 r); [|apply HQ; [done|by replace 0%nat with r by lia|done|intros; lia]].
  unfold RecomputeSpliceLevels. destruct (Nat.ltb_spec 0 r); [|lia]. destruct (Nat.leb_spec r (height_ s)); [|lia]. cbn [passert pbind].
  eapply swp_recompute with (m0 := m0); [done|done|done|lia|done|]. intros s' m' H' Hg' Hh' Ht _. apply HQ; [done|done|congruence|done].
Qed.

Lemma fresh_good m key s h :
  room s -> Inv m -> (0 < h <= max_height_ m)%nat ->
  good m key (mkSplice h (<[h := Some (Some head)]> (prev_ s)) (<[h := Some None]> (next_s s))) h.
Proof.
  intros [H1 H2] I Hh. destruct (inv_height _ _ I) as [Hm _].
  assert (Ht : splice_at (mkSplice h (<[h := Some (Some head)]> (prev_ s)) (<[h := Some None]> (next_s s))) h head None)
    by (split; cbn; apply list_lookup_insert_eq; lia).
  split_and!; [split; cbn; rewrite length_insert; lia|cbn; lia|cbn; lia|done|cbn; lia|].
  cbn. intros i Hi. replace i with h by lia. exists head, None. split_and!; [done|by left|by intros ?].
Qed.

Lemma swp_prepare_splice fuel key s allow h Q g m0 m :
  Inv m -> rely m0 m -> splice_ok m s -> (height_ s <= h <= max_height_ m)%nat -> (0 < h)%nat -> (size (nodes m) < fuel)%nat ->
  (forall r s' m', rely m0 m' -> (r <= h)%nat -> good m' key s' 0 -> height_ s' = h ->
     (alone = true -> forall i, (i < r)%nat -> tight m' s' i) -> Q (r, s') g m') ->
  swp (prepare_splice this fuel key s allow h) Q g m.
Proof.
  intros I H0 Hs Hh Hpos Hf HQ. unfold prepare_splice. destruct (inv_height _ _ I) as [Hm _].
  destruct (Nat.ltb_spec (height_ s) h) as [Hlt|Hge].
  - destruct Hs as ([Hr1 Hr2] & _). unfold put. destruct (Nat.ltb_spec h (length (prev_ s))); [|lia].
    destruct (Nat.ltb_spec h (length (next_s s))); [|lia]. cbn [pbind].
    eapply swp_prepare_tail with (m0 := m0); [done|done|apply fresh_good; [done|done|lia]|done|lia|done|]. intros s' m' H' Hg' Hh' Ht. by apply HQ.
  - assert (E : height_ s = h) by lia. rewrite <- E. apply swp_bind, swp_bind.
    eapply swp_check_loop with (m0 := m); [done|by apply rely_refl|done|lia|lia|lia|]. intros r m1 H1 Hr Hb.
    cbn [SkipLogic.swp]. eapply swp_prepare_tail with (m0 := m0); [exact (rely_inv _ _ _ _ _ H1)|exact (rely_trans _ _ _ _ _ _ H0 H1)| |done|lia|by rewrite (rely_size m)|].
    + apply splice_good; [|lia|done|done]. eapply splice_ok_ev; [exact I|exact (rely_evolves _ _ _ _ _ H1)|done].
    + intros s' m' H' Hg' Hh' Ht. apply HQ; [done|lia|done|lia|done].
Qed.

Lemma keys_same m m' :
  Inv m -> evolves this own m m' -> (forall i, (i < kMax)%nat -> level m' i = level m i) -> keys this m' = keys this m.
Proof.
  intros I Hev Hl. unfold keys. rewrite Hl by by eapply zero_level. apply list_fmap_ext. intros i x _. by eapply evolves_key.
Qed.

(** ** The height of the list *)

Lemma swp_raise_loop fuel height h lo x Q g m0 m :
  own x -> Inv m -> rely m0 m -> (lo <= h <= max_height_ m)%nat -> (1 <= height <= kMax)%nat -> (height <= kMaxPossibleHeight)%nat ->
  (kMax - h <= fuel)%nat ->
  (forall h' m1 m2 m', rely m0 m1 -> Inv m2 -> evolves this own m1 m2 -> (forall i, (i < kMax)%nat -> level m2 i = level m1 i) ->
     rely m2 m' -> (lo <= h')%nat -> (height <= h' <= max_height_ m')%nat -> Q h' g m') ->
  swp (raise_loop fuel height h) Q g m.
Proof.
  intros Ho I H0 Hh Hht Hp Hf HQ. revert h m I H0 Hh Hf.
  assert (Hret : forall h m, Inv m -> rely m0 m -> (lo <= h <= max_height_ m)%nat -> (height <= h)%nat -> Q h g m).
  { intros h m I H0 Hh Hle. apply (HQ h m m m); [done|done|apply evolves_refl|done|by apply rely_refl|lia|lia]. }
  induction fuel as [|fuel IH]; intros h m I H0 Hh Hf; cbn [raise_loop];
    (destruct (Nat.leb_spec height h) as [Hle|Hlt]; [by apply Hret|]); [lia|]. apply swp_bind.
  destruct (decide (max_height_ m = h)) as [E|E].
  - destruct (raise_inv this own m height) as (I' & Hev & Hl); [done|lia|lia|].
    exists (true, h), (mkMemory (nodes m) height), g. split_and!; [cbn; by rewrite E, Nat.eqb_refl|done|by eapply may_write|left; split; [done|by apply keys_same]|].
    intros m' H'. cbn. apply (HQ height m (mkMemory (nodes m) height) m'); try done; [lia|].
    pose proof (ev_height _ _ _ _ (rely_evolves _ _ _ _ _ H')) as Hm. cbn in Hm. lia.
  - exists (false, max_height_ m), m, g. split_and!; [|done|apply may_read|by left|].
    { cbn. by rewrite (proj2 (Nat.eqb_neq _ _) E). }
    intros m' H'. cbn. pose proof (ev_height _ _ _ _ (rely_evolves _ _ _ _ _ H')). apply IH; [by eapply rely_inv|by eapply rely_trans|lia|lia].
Qed.

End swp.

End splice.
