(* ===== verification/SkipInsert.v ===== *)
(** * Inserting into the skip list

    [Insert] of memtable/inlineskiplist.h in both its forms: with compare and
    swap among other threads that insert, and with plain stores when no other
    thread inserts.  The insertion takes effect when level 0 is linked. *)

From Stdlib Require Import Sorting.Sorted.
From stdpp Require Import sorting.
From S2P Require Import Prelude Words Slice DbFormat SkipList SkipInv SkipLogic SkipFind SkipSplice.

Section insert.
Context {cmp : Comparator} `{!CompareOk ucmp} (this : InlineSkipList).
Context (own : loc -> Prop) (alone : bool) (o : set_op).
Implicit Types (m : memory) (x y z : loc) (i : nat) (g : option bool) (s : Splice) (key : list Z).

Local Notation swp := (swp this own alone o).
Local Notation rely := (rely this own alone).
Local Notation Inv := (Inv this).
Local Notation level := (level this).
Local Notation on_level := (on_level this).
Local Notation before := (before this).
Local Notation upto := (upto this).
Local Notation kMax := (kMaxHeight_ this).
Local Notation head := (head_ this).
Local Notation good := (good this).
Local Notation entry_ok := (entry_ok this).

(** ** Effect *)

Lemma ins_app k (s1 s2 : list (list Z)) :
  (forall k', k' ∈ s1 -> ucmp k' k = Lt) -> (forall k', k' ∈ s2 -> ucmp k k' = Lt) -> ins k (s1 ++ s2) = s1 ++ k :: s2.
Proof.
  intros H1 H2. induction s1 as [|k' s1 IH]; cbn.
  - destruct s2 as [|k2 s2]; [done|]. cbn. by rewrite H2 by set_solver.
  - assert (E : ucmp k' k = Lt) by (apply H1; set_solver). rewrite (cmp_anti ucmp k' k), E. cbn. f_equal. apply IH. set_solver.
Qed.

Lemma linked_effect m m' x :
  Inv m -> linked this m m' 0 x -> set_spec (SInsert (key_of m x)) (keys this m) = (true, keys this m').
Proof.
  intros I [I' Hev (l1 & l2 & E & E') _]. destruct (inv_level _ _ I' 0 (zero_level _ _ I')) as (_ & Hs & _). rewrite E' in Hs.
  apply StronglySorted_app in Hs as (H1 & _ & Hs2). apply StronglySorted_inv in Hs2 as [_ H2]. rewrite Forall_forall in H2.
  assert (H1' : forall k, k ∈ key_of m <$> l1 -> ucmp k (key_of m x) = Lt).
  { intros k (z & -> & Hz)%list_elem_of_fmap. specialize (H1 z x Hz ltac:(set_solver)). unfold klt in H1. by rewrite !(evolves_key _ _ _ _ _ Hev) in H1. }
  assert (H2' : forall k, k ∈ key_of m <$> l2 -> ucmp (key_of m x) k = Lt).
  { intros k (z & -> & Hz)%list_elem_of_fmap. specialize (H2 z Hz). unfold klt in H2. by rewrite !(evolves_key _ _ _ _ _ Hev) in H2. }
  assert (Ek : keys this m' = (key_of m <$> l1) ++ key_of m x :: (key_of m <$> l2)).
  { unfold keys. rewrite E', fmap_app, fmap_cons. rewrite (evolves_key _ _ _ _ _ Hev).
    f_equal; [|f_equal]; apply list_fmap_ext; intros i z _; by eapply evolves_key. }
  assert (Ek0 : keys this m = (key_of m <$> l1) ++ (key_of m <$> l2)) by (unfold keys; by rewrite E, fmap_app).
  rewrite Ek, Ek0. cbn [set_spec]. rewrite ins_app by done.
  destruct (has _ _) eqn:Eh; [|done]. apply has_spec in Eh as (k & [Hk|Hk]%elem_of_app & Hq); [by rewrite H1' in Hq|].
  rewrite (cmp_anti ucmp (key_of m x) k), H2' in Hq by done. done.
Qed.

Lemma linked_keys m m' i x : Inv m -> linked this m m' i x -> i <> 0%nat -> keys this m' = keys this m.
Proof.
  intros I [I' Hev _ Ho] Hi. unfold keys. rewrite (Ho 0%nat) by (done || by eapply zero_level).
  apply list_fmap_ext. intros j z _. by eapply evolves_key.
Qed.

(** ** The stores *)

Lemma store_ok m x i p k h : shape m x = Some (k, h) -> (i < h)%nat -> exists m', store x i p m = Ok m'.
Proof.
  unfold shape, store. destruct (nodes m !! x) as [nd|]; [|done]. cbn [fmap option_fmap option_map]. intros [= <- <-] Hi.
  destruct (Nat.ltb_spec i (length (next_ nd))); [by eexists|lia].
Qed.

Lemma load_store m x i p p' : load x i m = Ok p -> exists m', store x i p' m = Ok m'.
Proof.
  unfold load, slot_at, store. destruct (nodes m !! x) as [nd|]; [|done]. destruct (next_ nd !! i) as [c|] eqn:E; [|done]. intros _.
  apply lookup_lt_Some in E. destruct (Nat.ltb_spec i (length (next_ nd))); [by eexists|lia].
Qed.

(** A link of the own node before the node is on the level. *)
Lemma swp_set_own x i p k h Q g m :
  Inv m -> own x -> x <> head -> (i < kMax)%nat -> x ∉ level m i -> shape m x = Some (k, h) -> (i < h)%nat ->
  (forall m1 m', Inv m1 -> evolves this own m m1 -> (forall j, (j < kMax)%nat -> level m1 j = level m j) ->
     (forall y j, ~ (y = x /\ j = i) -> slot_at y j m1 = slot_at y j m) -> rely m1 m' -> slot_at x i m' = Ok (Ptr p) -> Q tt g m') ->
  swp (do (SetNext x i p)) Q g m.
Proof.
  intros I Ho Hx Hi Hl Hsh Hh HQ. destruct (store_ok m x i p k h Hsh Hh) as [m1 Hst].
  destruct (store_private _ _ _ _ _ _ I Hx Hl Hst) as (I1 & Hev & Hlv).
  assert (Hev' : evolves this own m m1) by (eapply evolves_mono; [|done]; by intros ? <-).
  exists tt, m1, g. split_and!; [cbn; by rewrite Hst|done|by eapply may_write|left; split; [done|by eapply keys_same]|].
  intros m' H'. pose proof (store_spec _ _ _ _ _ Hst) as (_ & _ & _ & Hc).
  apply (HQ m1 m'); [done|done|done|intros y j Hne; rewrite Hc; by apply decide_False|done|].
  destruct (rely_private _ _ _ _ _ i x Hi H' Ho Hx) as [_ ->]; [by rewrite Hlv|]. by rewrite Hc, decide_True.
Qed.

(** The node becomes part of a level. *)
Definition linkable m x i p n : Prop :=
  (i < max_height_ m)%nat /\ on_level m i p /\ fits this m x p n /\ x <> head /\ (x ∉ level m i) /\
  (forall j, S j = i -> x ∈ level m j) /\ slot_at x i m = Ok (Ptr n).

Lemma link_effect m x i p n g :
  Inv m -> own x -> linkable m x i p n -> load p i m = Ok n -> (i = 0%nat -> g = None /\ o = SInsert (key_of m x)) ->
  exists m1, store p i (Some x) m = Ok m1 /\ linked this m m1 i x /\ evolves this own m m1 /\
    takes_effect this o m g m1 (if (i =? 0)%nat then Some true else g).
Proof.
  intros I Ho (Hi & Hp & Hf & Hx & Hl & Hb & Hc) Hld Hg. destruct (load_store _ _ _ _ (Some x) Hld) as [m1 Hst].
  exists m1. assert (Hlk : linked this m m1 i x) by by eapply link_linked. split_and!; [done|done| |].
  - eapply evolves_mono; [|apply Hlk]. by intros ? <-.
  - destruct (Nat.eqb_spec i 0) as [->|Hne].
    + destruct (Hg eq_refl) as [-> ->]. right. split; [done|]. exists true. split; [done|]. by apply linked_effect.
    + left. split; [done|]. by eapply linked_keys.
Qed.

Lemma swp_cas_link x i p n Q g m :
  Inv m -> own x -> linkable m x i p n -> (i = 0%nat -> g = None /\ o = SInsert (key_of m x)) ->
  (load p i m = Ok n -> forall m1 m', linked this m m1 i x -> rely m1 m' -> Q true (if (i =? 0)%nat then Some true else g) m') ->
  (forall q m', load p i m = Ok q -> q <> n -> succ this m i p q -> rely m m' -> Q false g m') ->
  swp (do (CASNext p i n (Some x))) Q g m.
Proof.
  intros I Ho Hlk Hg Hwin Hlose. destruct Hlk as (Hi & Hp & Hrest) eqn:Elk. clear Elk.
  destruct (load_succ this m i p I) as (q & Hq & Hs); [destruct (inv_height _ _ I); lia|done|].
  destruct (decide (q = n)) as [->|Hne].
  - destruct (link_effect m x i p n g) as (m1 & Hst & Hl & Hev & Ht); [done..|].
    exists true, m1, (if (i =? 0)%nat then Some true else g). split_and!; [|apply Hl|by eapply may_write|done|intros m'; by apply Hwin].
    cbn [perform]. rewrite Hq. cbn. rewrite decide_True by done. by rewrite Hst.
  - exists false, m, g. split_and!; [cbn [perform]; rewrite Hq; cbn; by rewrite decide_False by done|done|apply may_read|by left|].
    intros m' H'. by apply (Hlose q).
Qed.

Lemma swp_set_link x i p n Q g m :
  Inv m -> own x -> linkable m x i p n -> load p i m = Ok n -> (i = 0%nat -> g = None /\ o = SInsert (key_of m x)) ->
  (forall m1 m', store p i (Some x) m = Ok m1 -> linked this m m1 i x -> rely m1 m' -> Q tt (if (i =? 0)%nat then Some true else g) m') ->
  swp (do (SetNext p i (Some x))) Q g m.
Proof.
  intros I Ho Hlk Hld Hg HQ. destruct (link_effect m x i p n g) as (m1 & Hst & Hl & Hev & Ht); [done..|].
  exists tt, m1, (if (i =? 0)%nat then Some true else g). split_and!; [cbn; by rewrite Hst|apply Hl|by eapply may_write|done|]. intros m'. by apply HQ.
Qed.

(** ** Between the levels *)

(** The node [x] is linked at the levels below [i]. *)
Record linking m key s x (hgt i : nat) : Prop := {
  lk_room : room this s;
  lk_height : (0 < hgt <= height_ s)%nat /\ (height_ s <= max_height_ m)%nat /\ (i <= hgt)%nat;
  lk_top : top_ok this s;
  lk_entries j : (j <= height_ s)%nat -> exists p n, splice_at s j p n /\ entry_ok m key j p n;
  lk_above j : (hgt <= j < height_ s)%nat -> prevs_ordered this m s j /\ nexts_ordered m s j;
  lk_node : x <> head /\ own x /\ exists h, shape m x = Some (key, h) /\ (hgt <= h)%nat;
  lk_below j : (j < i)%nat -> x ∈ level m j;
  lk_private j : (i <= j < kMax)%nat -> x ∉ level m j;
  lk_strict j p y : (j < i)%nat -> splice_at s j p (Some y) -> klt m x y;
  lk_zero : i = 0%nat -> good m key s 0
}.

Lemma shape_key_of m x k h : shape m x = Some (k, h) -> key_of m x = k.
Proof. unfold shape, key_of. destruct (nodes m !! x); cbn; by intros [= <- <-]. Qed.

Lemma linking_key m key s x hgt i : linking m key s x hgt i -> key_of m x = key.
Proof. intros H. destruct (lk_node _ _ _ _ _ _ H) as (_ & _ & h & Hsh & _). by eapply shape_key_of. Qed.

Lemma linking_max m key s x hgt i : Inv m -> linking m key s x hgt i -> (hgt <= height_ s <= max_height_ m)%nat /\ (max_height_ m <= kMax)%nat.
Proof. intros I H. destruct (lk_height _ _ _ _ _ _ H), (inv_height _ _ I). lia. Qed.

Lemma entry_ok_ev own' m m' key i p n : evolves this own' m m' -> entry_ok m key i p n -> entry_ok m' key i p n.
Proof.
  intros H (Hl & Hb & Hk). split_and!; [|by eapply evolves_before|by eapply key_le_ev]. intros j Hj Hjm. destruct (Hl j Hj Hjm) as [Hp Hn].
  split; [by eapply evolves_on|]. intros y Hy. apply (ev_level _ _ _ _ H); auto.
Qed.

Lemma linking_ev own' m m' key s x hgt i :
  Inv m -> evolves this own' m m' -> (forall j, (i <= j < kMax)%nat -> x ∉ level m' j) -> linking m key s x hgt i -> linking m' key s x hgt i.
Proof.
  intros I Hev Hpr H. pose proof (linking_max _ _ _ _ _ _ I H). destruct H as [Hr Hh Ht He Ha Hn Hb _ Hs Hz].
  pose proof (ev_height _ _ _ _ Hev). split; [done|lia|done| | | | |done| |].
  - intros j Hj. destruct (He j Hj) as (p & n & ? & ?). exists p, n. split; [done|]. by eapply entry_ok_ev.
  - intros j Hj. destruct (Ha j Hj). split; [by eapply prevs_ev|by eapply nexts_ev].
  - by rewrite (ev_shape _ _ _ _ Hev).
  - intros j Hj. apply (ev_level _ _ _ _ Hev); [lia|auto].
  - intros j p y Hj Hat. unfold klt. rewrite !(evolves_key _ _ _ _ _ Hev). by eapply Hs.
  - intros E. eapply good_ev; [exact I|done|auto].
Qed.

Lemma linking_rely m m' key s x hgt i : Inv m -> rely m m' -> linking m key s x hgt i -> linking m' key s x hgt i.
Proof.
  intros I H Hl. eapply linking_ev; [exact I|exact (rely_evolves _ _ _ _ _ H)| |done]. intros j Hj.
  destruct (lk_node _ _ _ _ _ _ Hl) as (Hx & Ho & _). apply (rely_private this own alone m m' j x ltac:(lia) H Ho Hx). by apply (lk_private _ _ _ _ _ _ Hl).
Qed.

Lemma linking_linked m m' key s x hgt i :
  Inv m -> linked this m m' i x -> (i < hgt)%nat -> (forall p y, splice_at s i p (Some y) -> klt m x y) ->
  linking m key s x hgt i -> linking m' key s x hgt (S i).
Proof.
  intros I Hlk Hi Hst H. pose proof (linking_max _ _ _ _ _ _ I H). destruct Hlk as [I' Hev (l1 & l2 & E & E') Ho].
  pose proof (ev_height _ _ _ _ Hev). destruct H as [Hr Hh Ht He Ha Hn Hb Hp Hs Hz].
  split; [done|lia|done| | | | | | |done].
  - intros j Hj. destruct (He j Hj) as (p & n & ? & ?). exists p, n. split; [done|]. by eapply entry_ok_ev.
  - intros j Hj. destruct (Ha j Hj). split; [by eapply prevs_ev|by eapply nexts_ev].
  - by rewrite (ev_shape _ _ _ _ Hev).
  - intros j Hj. destruct (decide (j = i)) as [->|]; [rewrite E'; set_solver|]. apply (ev_level _ _ _ _ Hev); [lia|]. apply Hb. lia.
  - intros j Hj. rewrite Ho by lia. apply Hp. lia.
  - intros j p y Hj Hat. unfold klt. rewrite !(evolves_key _ _ _ _ _ Hev). destruct (decide (j = i)) as [->|]; [by eapply Hst|eapply Hs; [|done]; lia].
Qed.

(** ** The neighbours *)

Lemma swp_compare_next x next Q g m :
  Inv m -> is_Some (nodes m !! x) -> (forall y, next = Some y -> is_Some (nodes m !! y)) ->
  (forall m', rely m m' -> Q (match next with None => Lt | Some y => ucmp (key_of m x) (key_of m y) end) g m') ->
  swp (compare_next x next) Q g m.
Proof.
  intros I Hx Hn HQ. destruct next as [y|]; cbn [compare_next]; [|by apply HQ, rely_refl]. specialize (Hn y eq_refl).
  apply swp_bind, swp_key; [done|done|]. intros m1 H1. later H1. apply swp_bind, swp_key; [done|done|]. intros m2 H2.
  cbn [SkipLogic.swp]. apply HQ. by eapply rely_trans.
Qed.

Lemma swp_compare_prev x p Q g m :
  Inv m -> is_Some (nodes m !! x) -> is_Some (nodes m !! p) -> before m p (key_of m x) ->
  (forall m', rely m m' -> Q Lt g m') -> swp (compare_prev this (Some p) x) Q g m.
Proof.
  intros I Hx Hp Hb HQ. unfold compare_prev. destruct (is_head this (Some p)) eqn:Eh; [by apply HQ, rely_refl|].
  destruct Hb as [->|Hb]; [by destruct (is_head_false _ _ Eh)|]. cbn [not_null pbind].
  apply swp_bind, swp_key; [done|done|]. intros m1 H1. later H1. apply swp_bind, swp_key; [done|done|]. intros m2 H2.
  cbn [SkipLogic.swp]. rewrite Hb. apply HQ. by eapply rely_trans.
Qed.

Definition order_next m key (n : option loc) : comparison :=
  match n with None => Lt | Some y => ucmp key (key_of m y) end.

Lemma linking_next m key s x hgt i p n :
  Inv m -> linking m key s x hgt i -> (i < hgt)%nat -> splice_at s i p n ->
  order_next m key n = Lt \/ (i = 0%nat /\ order_next m key n = Eq /\ has (keys this m) key = true).
Proof.
  intros I Hl Hi Hat. pose proof (linking_max _ _ _ _ _ _ I Hl) as Hm. pose proof (linking_key _ _ _ _ _ _ Hl) as Hk.
  destruct (lk_entries _ _ _ _ _ _ Hl i) as (p' & n' & Hat' & Hle & _ & Hkl); [lia|].
  destruct (splice_at_inj _ _ _ _ _ _ Hat Hat') as [-> ->]. destruct n as [y|]; [|by left]. cbn.
  specialize (Hkl y eq_refl). destruct (ucmp key (key_of m y)) eqn:E; [|by left|done]. right.
  destruct (Hle i) as [_ Hy]; [done|lia|]. specialize (Hy y eq_refl).
  destruct (decide (i = 0%nat)) as [->|Hne].
  - split_and!; [done|done|]. apply has_spec. exists (key_of m y). split; [by apply list_elem_of_fmap_2|]. by rewrite (cmp_anti ucmp key), E.
  - exfalso. apply (lk_private _ _ _ _ _ _ Hl i); [lia|]. replace x with y; [done|]. symmetry. apply (level_inj this m 0); [done|lia| | |by rewrite Hk].
    + apply (lk_below _ _ _ _ _ _ Hl). lia.
    + apply (level_sub _ _ i); [done|lia|done].
Qed.

Lemma has_rely m m' key : Inv m -> rely m m' -> has (keys this m) key = true -> has (keys this m') key = true.
Proof.
  intros I H. rewrite !has_spec. intros (k & (z & -> & Hz)%list_elem_of_fmap & E). exists (key_of m' z).
  rewrite (rely_key _ _ _ _ _ _ H). split; [|done]. rewrite <- (rely_key _ _ _ _ _ _ H). apply list_elem_of_fmap_2.
  eapply rely_in; [by eapply zero_level|done|done].
Qed.

Lemma swp_neighbours_lt m x p n Q g :
  Inv m -> is_Some (nodes m !! x) -> is_Some (nodes m !! p) -> (forall y, n = Some y -> is_Some (nodes m !! y)) ->
  before m p (key_of m x) -> order_next m (key_of m x) n = Lt -> (forall m', rely m m' -> Q false g m') ->
  swp (pbind (compare_next x n) (fun c => pbind (passert (is_lt c)) (fun _ =>
     pbind (compare_prev this (Some p) x) (fun c => pbind (passert (is_lt c)) (fun _ => Ret false))))) Q g m.
Proof.
  intros I Hx Hp Hn Hb E HQ. apply swp_bind, swp_compare_next; [done..|]. intros m1 H1. unfold order_next in E. rewrite E. cbn [is_lt passert pbind].
  later H1. apply swp_bind, swp_compare_prev; [done|done|done|done|]. intros m2 H2. cbn. apply HQ. by eapply rely_trans.
Qed.

Lemma swp_check_neighbours m key s x hgt i Q g :
  Inv m -> linking m key s x hgt i -> (i < hgt)%nat ->
  (forall m', rely m m' -> i = 0%nat -> has (keys this m') key = true -> Q true g m') ->
  (forall m', rely m m' -> (forall p y, splice_at s i p (Some y) -> klt m' x y) -> Q false g m') ->
  swp (check_neighbours this x s i) Q g m.
Proof.
  intros I Hl Hi Hdup HQ. pose proof (linking_max _ _ _ _ _ _ I Hl) as Hm. pose proof (linking_key _ _ _ _ _ _ Hl) as Hk.
  destruct (lk_node _ _ _ _ _ _ Hl) as (_ & _ & h & Hsh & _).
  assert (Hx : is_Some (nodes m !! x)) by (unfold shape in Hsh; destruct (nodes m !! x); [by eexists|done]).
  destruct (lk_entries _ _ _ _ _ _ Hl i) as (p & n & Hat & Hle & Hb & _); [lia|]. destruct (Hle i) as [Hp Hn]; [done|lia|].
  assert (Hpa : is_Some (nodes m !! p)) by (apply (on_alloc this m i); [done|lia|done]).
  assert (Hna : forall y, n = Some y -> is_Some (nodes m !! y)) by (intros y Hy; apply (in_alloc this m i); [done|lia|auto]).
  pose proof (linking_next _ _ _ _ _ _ _ _ I Hl Hi Hat) as Hord. clear Hle Hn.
  assert (Hord' : forall p y, order_next m key n = Lt -> splice_at s i p (Some y) -> klt m x y).
  { intros q y E Hat'. destruct (splice_at_inj _ _ _ _ _ _ Hat' Hat) as [-> ->]. cbn in E. unfold klt. by rewrite Hk. }
  rewrite <- Hk in Hb. unfold check_neighbours. rewrite (read_at_ret _ _ _ (proj2 Hat)), (read_at_ret _ _ _ (proj1 Hat)). cbn [pbind].
  assert (Htail : forall m', rely m m' -> order_next m key n = Lt -> swp (pbind (compare_next x n) (fun c => pbind (passert (is_lt c)) (fun _ =>
     pbind (compare_prev this (Some p) x) (fun c => pbind (passert (is_lt c)) (fun _ => Ret false))))) Q g m').
  { intros m' H' E. apply swp_neighbours_lt; [by eapply rely_inv|by eapply rely_alloc| | | | |].
    - by eapply rely_alloc.
    - intros y Hy. eapply rely_alloc; [done|auto].
    - rewrite (rely_key _ _ _ _ _ _ H'). by eapply rely_before.
    - rewrite <- E. destruct n; cbn; by rewrite ?(rely_key _ _ _ _ _ _ H'), ?Hk.
    - intros m2 H2. assert (H02 := rely_trans _ _ _ _ _ _ H' H2). apply HQ; [done|]. intros q y Hat'. unfold klt.
      rewrite !(rely_key _ _ _ _ _ _ H02). by eapply Hord'. }
  destruct (Nat.eqb_spec i 0) as [->|Hne]; cbn [pbind is_lt negb].
  2: { destruct Hord as [E|(? & _)]; [|done]. apply Htail; [by apply rely_refl|done]. }
  apply swp_bind, swp_compare_next; [done..|]. intros m1 H1. assert (I1 := rely_inv _ _ _ _ _ H1). rewrite Hk.
  change (match n with None => Lt | Some y => ucmp key (key_of m y) end) with (order_next m key n).
  destruct Hord as [E|(_ & E & Hhas)]; rewrite E; cbn [is_lt negb SkipLogic.swp].
  - later H1. apply swp_bind, swp_compare_prev; [done|done|done|done|]. intros m2 H2. apply Htail; [by eapply rely_trans|done].
  - apply Hdup; [done|done|]. exact (has_rely _ _ _ I H1 Hhas).
Qed.

(** ** Finding a bracket again *)

Lemma found_entry m i key b p n : Inv m -> (i < kMax)%nat -> found this m i key b p n -> entry_ok m key i p n.
Proof.
  intros I Hi [Hon Hb _ Hs Hk _]. split_and!; [|done|done]. intros j Hj Hjm. split; [by apply (on_sub this m i)|].
  intros y ->. destruct Hs as (Hy & _). by apply (in_sub this m i).
Qed.

Lemma ordered_with m s i j r :
  j <> i -> (j + 1)%nat <> i -> prevs_ordered this m s j /\ nexts_ordered m s j ->
  prevs_ordered this m (with_level i r s) j /\ nexts_ordered m (with_level i r s) j.
Proof.
  intros H1 H2 [(p & n & p' & n' & Ha & Hb & Hc) (q & k & q' & k' & Hd & He & Hf)].
  split; [exists p, n, p', n'|exists q, k, q', k']; split_and!; try done; by apply with_level_ne.
Qed.

Lemma found_good m1 m' key s p0 n0 p n :
  Inv m1 -> rely m1 m' -> good m1 key s 0 -> splice_at s 0 p0 n0 -> found this m1 0 key p0 p n -> good m' key (with_level 0 (p, n) s) 0.
Proof.
  intros I H Hg Hat Hf. destruct (Hg) as (Hr & Hh & Ht & Hp & Hb).
  destruct (Hp 0%nat) as (_ & (q & k & p' & n' & Ha & Hb' & Hle) & _); [lia|].
  destruct (splice_at_inj _ _ _ _ _ _ Hat Ha) as [-> ->].
  destruct (good_entry _ _ _ _ 1 0 I Hg) as (p'' & n'' & Hat' & Hl & _ & Hk); [lia|].
  destruct (splice_at_inj _ _ _ _ _ _ Hb' Hat') as [-> ->].
  apply (good_step this own alone m1) with (p' := p') (n' := n'); [done|done|lia| |done|intros y Hy|done|].
  - eapply good_ev; [exact I|exact (rely_evolves _ _ _ _ _ H)|]. split_and!; [done|lia|lia|done|intros; apply Hp; lia|intros; apply Hb; lia].
  - destruct (Hl 0%nat) as [_ Hn]; [lia|by eapply zero_level|auto].
  - destruct Hf as [F1 F2 F3 F4 F5 F6]. split; try done. by eapply prev_le_trans.
Qed.

Lemma linking_found m m1 m' key s x hgt i p0 n0 p n :
  Inv m -> rely m m1 -> rely m1 m' -> linking m key s x hgt i -> (i < hgt)%nat -> splice_at s i p0 n0 -> found this m1 i key p0 p n ->
  linking m' key (with_level i (p, n) s) x hgt i.
Proof.
  intros I H1 H12 Hl Hi Hat Hf. assert (I1 := rely_inv _ _ _ _ _ H1). assert (H2 := rely_trans _ _ _ _ _ _ H1 H12).
  pose proof (linking_max _ _ _ _ _ _ I Hl) as Hm. assert (Hl1 := linking_rely _ _ _ _ _ _ _ I H1 Hl).
  pose proof (found_entry m1 i key p0 p n I1 ltac:(lia) Hf) as He. destruct (linking_rely _ _ _ _ _ _ _ I H2 Hl) as [Hr Hh Ht Hen Ha Hn Hb Hp Hs _].
  split; try done.
  - by apply with_level_room.
  - apply with_level_ne; [cbn; lia|done].
  - intros j Hj. destruct (decide (j = i)) as [->|Hne].
    + exists p, n. split; [apply (with_level_eq this); [done|lia]|]. eapply entry_ok_ev; [exact (rely_evolves _ _ _ _ _ H12)|done].
    + destruct (Hen j Hj) as (q & k & ? & ?). exists q, k. split; [by apply with_level_ne|done].
  - intros j Hj. cbn in Hj. apply ordered_with; [lia|lia|auto].
  - intros j q y Hj Hq. eapply Hs; [done|]. apply (proj2 (with_level_ne i j (p, n) s q (Some y) ltac:(lia)) Hq).
  - intros ->. eapply found_good; [exact I1|done|by apply (lk_zero _ _ _ _ _ _ Hl1)|done|done].
Qed.

Lemma swp_refind fuel key i s x hgt Q g m :
  Inv m -> linking m key s x hgt i -> (i < hgt)%nat -> (size (nodes m) < fuel)%nat ->
  (forall p n m1 m', rely m m1 -> rely m1 m' -> linking m' key (with_level i (p, n) s) x hgt i -> succ this m1 i p n -> load p i m1 = Ok n ->
     Q (with_level i (p, n) s) g m') ->
  swp (refind this fuel key i s) Q g m.
Proof.
  intros I Hl Hi Hf HQ. pose proof (linking_max _ _ _ _ _ _ I Hl) as Hm.
  destruct (lk_entries _ _ _ _ _ _ Hl i) as (p0 & n0 & Hat & Hle & Hb & _); [lia|]. destruct (Hle i) as [Hp _]; [done|lia|].
  unfold refind. rewrite (read_at_ret _ _ _ (proj1 Hat)). cbn [pbind not_null]. apply swp_bind.
  eapply swp_FindSpliceForLevel with (b0 := p0) (m0 := m); [done|by apply rely_refl|lia|done|done|by intros ?|by left| |].
  { pose proof (rank_bound this m p0). lia. }
  intros p n m1 m' H1 H12 Hfd. apply swp_put_level; [by apply (lk_room _ _ _ _ _ _ Hl)|lia|].
  apply (HQ p n m1 m'); [done|done|by eapply linking_found|apply Hfd..].
Qed.

(** ** How often a swap can fail *)

Lemma succ_unique m i p n q : Inv m -> (i < kMax)%nat -> succ this m i p n -> succ this m i p q -> n = q.
Proof.
  intros I Hi Hn Hq.
  assert (Hno : forall y, upto m y p -> before m p (key_of m y) -> False).
  { intros y Hu Hb. pose proof (upto_lt _ _ _ _ _ Hu Hb) as E. by rewrite (cmp_refl ucmp) in E. }
  destruct n as [y|], q as [y'|]; cbn in Hn, Hq; [|destruct Hn as (H1 & H2 & _); by destruct (Hno y (Hq y H1))
    |destruct Hq as (H1 & H2 & _); by destruct (Hno y' (Hn y' H1))|done].
  destruct Hn as (H1 & H2 & H3), Hq as (H1' & H2' & H3'). f_equal. apply (level_inj this m i); [done..|].
  destruct (H3 y' H1') as [Hu|Hle]; [by destruct (Hno y' Hu)|]. destruct (H3' y H1) as [Hu|Hle']; [by destruct (Hno y Hu)|].
  rewrite (cmp_anti ucmp (key_of m y)) in Hle'. by destruct (ucmp (key_of m y) (key_of m y')).
Qed.

(** [n] followed [p] when the level had only some of its nodes. *)
Definition seen m i p n (c : nat) : Prop :=
  exists l, l ⊆ level m i /\ NoDup l /\ length l = c /\ succ_in this m l p n.

Lemma level_nodup m i : Inv m -> (i < kMax)%nat -> NoDup (level m i).
Proof. intros I Hi. destruct (inv_level _ _ I i Hi) as (_ & Hs & _). by eapply sorted_nodup. Qed.

Lemma seen_outdated m i p n q c :
  Inv m -> (i < kMax)%nat -> seen m i p n c -> succ this m i p q -> q <> n -> (c < length (level m i))%nat.
Proof.
  intros I Hi (l & Hl & Hnd & <- & Hs) Hq Hne. destruct (decide (length l < length (level m i))%nat) as [|Hge]; [done|].
  destruct Hne. apply (succ_unique m i p q n); [done|done|done|].
  assert (Hp : level m i ⊆ l).
  { assert (Hs' : l ⊆+ level m i) by by apply NoDup_submseteq. 
    assert (Hperm : l ≡ₚ level m i) by (apply submseteq_length_Permutation; [done|lia]). intros z. by rewrite Hperm. }
  unfold succ. destruct n as [y|]; cbn in *; [|auto]. destruct Hs as (H1 & H2 & H3). split_and!; auto.
Qed.

Lemma seen_ev own' m m' i p n c : (i < kMax)%nat -> evolves this own' m m' -> seen m i p n c -> seen m' i p n c.
Proof.
  intros Hi H (l & Hl & Hnd & Hc & Hs). exists l. split_and!; [|done|done|].
  - etransitivity; [done|]. by apply (ev_level _ _ _ _ H).
  - unfold succ_in, before, upto in *. destruct n as [y|]; [setoid_rewrite (fun x => evolves_key _ _ _ _ x H)|setoid_rewrite (fun x => evolves_key _ _ _ _ x H)]; done.
Qed.

Lemma level_size m i : Inv m -> (i < kMax)%nat -> (length (level m i) <= size (nodes m))%nat.
Proof.
  intros I Hi. rewrite <- (size_dom (nodes m)), <- (size_list_to_set (C := gset loc) (level m i)) by by apply level_nodup.
  apply subseteq_size. intros y Hy%elem_of_list_to_set. apply elem_of_dom. by eapply in_alloc.
Qed.

Lemma level_grows own' m m' i : Inv m -> (i < kMax)%nat -> evolves this own' m m' -> (length (level m i) <= length (level m' i))%nat.
Proof. intros I Hi H. apply submseteq_length, NoDup_submseteq; [by apply level_nodup|]. by apply (ev_level _ _ _ _ H). Qed.

Lemma evolves_size own' m m' : evolves this own' m m' -> size (nodes m') = size (nodes m).
Proof. intros H. by rewrite <- !(rank_head this), (rank_evolves _ _ _ _ _ H). Qed.

Lemma good_splice_ok m key s : good m key s 0 -> splice_ok this m s.
Proof. intros (Hr & Hh & Ht & Hp & _). split_and!; [done|lia|]. intros _. split; [done|]. intros i Hi. apply Hp. lia. Qed.

(** ** Linking a level by compare and swap *)

(** Rounds enough for every other thread to get in first. *)
Definition rounds_ok m s i (rounds : nat) : Prop :=
  (S (size (nodes m)) < rounds)%nat \/
  exists p n c, splice_at s i p n /\ seen m i p n c /\ (size (nodes m) - c < rounds)%nat.

Lemma rounds_positive m s i : ~ rounds_ok m s i 0.
Proof. intros [?|(? & ? & ? & _ & _ & ?)]; lia. Qed.

(** A failed swap and the search behind it. *)
Lemma rounds_next m m1 m2 m3 s i rounds p n q p' n' own' :
  room this s -> (i < kMax)%nat -> Inv m1 -> Inv m2 ->
  rounds_ok m s i (S rounds) -> evolves this own' m m1 -> splice_at s i p n -> succ this m1 i p q -> q <> n ->
  rely m1 m2 -> succ this m2 i p' n' -> rely m2 m3 -> rounds_ok m3 (with_level i (p', n') s) i rounds.
Proof.
  intros Hr Hi I1 I2 Hrd Hev Hat Hq Hne H12 Hs H23. right. exists p', n', (length (level m2 i)).
  pose proof (level_size m2 i I2 Hi) as Hsz. pose proof (level_grows _ _ _ i I1 Hi (rely_evolves _ _ _ _ _ H12)) as Hgr.
  rewrite (rely_size this own alone m2 m3), (rely_size this own alone m1 m2) in * by done. rewrite (evolves_size _ _ _ Hev) in *.
  split_and!; [apply (with_level_eq this); [done|lia]| |].
  - eapply seen_ev; [done|exact (rely_evolves _ _ _ _ _ H23)|]. exists (level m2 i). split_and!; [done|by apply level_nodup|done|done].
  - destruct Hrd as [Hrd|(p0 & n0 & c & Hat0 & Hseen & Hrd)]; [lia|].
    destruct (splice_at_inj _ _ _ _ _ _ Hat Hat0) as [-> ->].
    pose proof (seen_outdated m1 i p n q c I1 Hi (seen_ev _ _ _ _ _ _ _ Hi Hev Hseen) Hq Hne). lia.
Qed.

(** The upper ends of a valid splice are ordered. *)
Definition nexts_all (v : bool) m s : Prop := v = true -> forall j, (j < height_ s)%nat -> nexts_ordered m s j.

Lemma nexts_all_ev own' m m' s v : evolves this own' m m' -> nexts_all v m s -> nexts_all v m' s.
Proof. intros H Hv E j Hj. eapply nexts_ev; [done|by apply Hv]. Qed.

(** Publishing a link: the node points to [n] and may replace it behind [p]. *)
Lemma linking_linkable m key s x hgt i p n :
  Inv m -> linking m key s x hgt i -> (i < hgt)%nat -> splice_at s i p n -> (forall p y, splice_at s i p (Some y) -> klt m x y) ->
  slot_at x i m = Ok (Ptr n) -> linkable m x i p n.
Proof.
  intros I Hl Hi Hat Hst Hc. pose proof (linking_max _ _ _ _ _ _ I Hl) as Hm. pose proof (linking_key _ _ _ _ _ _ Hl) as Hk.
  destruct (lk_entries _ _ _ _ _ _ Hl i) as (p' & n' & Hat' & Hle & Hb & _); [lia|].
  destruct (splice_at_inj _ _ _ _ _ _ Hat Hat') as [-> ->]. destruct (Hle i) as [Hp _]; [done|lia|].
  split_and!; [lia|done| |by apply (lk_node _ _ _ _ _ _ Hl)|apply (lk_private _ _ _ _ _ _ Hl); lia| |done].
  - split; [by rewrite Hk|]. intros y ->. by eapply Hst.
  - intros j <-. apply (lk_below _ _ _ _ _ _ Hl). lia.
Qed.

Lemma swp_linking_set m key s x hgt i n Q g :
  Inv m -> linking m key s x hgt i -> (i < hgt)%nat ->
  (forall m1 m', Inv m1 -> evolves this own m m1 -> (forall y j, ~ (y = x /\ j = i) -> slot_at y j m1 = slot_at y j m) -> rely m1 m' ->
     linking m' key s x hgt i -> slot_at x i m' = Ok (Ptr n) -> Q tt g m') ->
  swp (do (SetNext x i n)) Q g m.
Proof.
  intros I Hl Hi HQ. pose proof (linking_max _ _ _ _ _ _ I Hl) as Hm. destruct (lk_node _ _ _ _ _ _ Hl) as (Hx & Ho & h & Hsh & Hh).
  eapply swp_set_own; [done|done|done| |apply (lk_private _ _ _ _ _ _ Hl)|done| |]; [lia|lia|lia|].
  intros m1 m' I1 Hev Hlv Hc H' Hcx. apply (HQ m1 m'); try done.
  eapply linking_rely; [exact I1|done|]. eapply linking_ev; [exact I|done| |done]. intros j Hj. rewrite Hlv by lia. by apply (lk_private _ _ _ _ _ _ Hl).
Qed.

Lemma nexts_refound (v : bool) m key s x hgt i r :
  linking m key (with_level i r s) x hgt i -> nexts_all (v && negb (0 <? i)%nat) m (with_level i r s).
Proof.
  intros Hl E j Hj. destruct i as [|i]; [|by destruct v]. destruct (lk_zero _ _ _ _ _ _ Hl eq_refl) as (_ & _ & _ & Hp & _).
  apply Hp. lia.
Qed.

Lemma swp_cas_loop rounds fuel key x hgt i s v Q g m :
  Inv m -> linking m key s x hgt i -> (i < hgt)%nat -> (size (nodes m) < fuel)%nat -> rounds_ok m s i rounds ->
  (i = 0%nat -> g = None /\ o = SInsert key) -> nexts_all v m s ->
  (forall s' m', Inv m' -> i = 0%nat -> good m' key s' 0 -> has (keys this m') key = true -> Q (None, s') g m') ->
  (forall v' s' m', Inv m' -> linking m' key s' x hgt (S i) -> nexts_all v' m' s' -> size (nodes m') = size (nodes m) ->
     Q (Some v', s') (if (i =? 0)%nat then Some true else g) m') ->
  swp (cas_loop this rounds fuel key x i s v) Q g m.
Proof.
  revert s v m. induction rounds as [|rounds IH]; intros s v m I Hl Hi Hf Hrd Hg Hv Hdup HQ; [by apply rounds_positive in Hrd|].
  cbn [cas_loop]. pose proof (linking_max _ _ _ _ _ _ I Hl) as Hm. apply swp_bind, (swp_check_neighbours m key s x hgt i); [done..| |].
  { intros m1 H1 Hi0 Hhas. cbn. apply Hdup; [by eapply rely_inv|done| |done]. by apply (lk_zero _ _ _ _ _ _ (linking_rely _ _ _ _ _ _ _ I H1 Hl)). }
  intros m1 H1 Hst. assert (I1 := rely_inv _ _ _ _ _ H1). assert (Hl1 := linking_rely _ _ _ _ _ _ _ I H1 Hl).
  destruct (lk_entries _ _ _ _ _ _ Hl i) as (p & n & Hat & _); [lia|].
  rewrite (read_at_ret _ _ _ (proj2 Hat)), (read_at_ret _ _ _ (proj1 Hat)). cbn [pbind not_null]. apply swp_bind, (swp_linking_set m1 key s x hgt i); [done..|].
  intros m2 m3 I2 Hev2 _ H3 Hl3 Hc. assert (I3 := rely_inv _ _ _ _ _ H3).
  assert (Hev : evolves this (fun _ => True) m m3).
  { eapply evolves_trans; [|eapply evolves_trans]; (eapply evolves_mono; [|first [exact (rely_evolves _ _ _ _ _ H1)|exact Hev2|exact (rely_evolves _ _ _ _ _ H3)]]); done. }
  assert (Hst3 : forall p y, splice_at s i p (Some y) -> klt m3 x y).
  { intros q y Hq. unfold klt. rewrite !(evolves_key _ _ _ _ _ (rely_evolves _ _ _ _ _ H3)), !(evolves_key _ _ _ _ _ Hev2). by eapply Hst. }
  destruct (lk_node _ _ _ _ _ _ Hl3) as (_ & Ho & _).
  apply swp_bind, swp_cas_link; [done|done|by eapply linking_linkable| | |].
  - rewrite (linking_key _ _ _ _ _ _ Hl3). done.
  - intros _ m4 m5 Hlk H5. cbn. assert (I4 := linked_inv _ _ _ _ _ Hlk). apply HQ; [by eapply rely_inv| | |].
    + eapply linking_rely; [exact I4|done|]. by apply (linking_linked m3 m4).
    + exact (nexts_all_ev _ _ _ _ _ (rely_evolves _ _ _ _ _ H5) (nexts_all_ev _ _ _ _ _ (linked_evolves _ _ _ _ _ Hlk) (nexts_all_ev _ _ _ _ _ Hev Hv))).
    + by rewrite (rely_size this own alone m4), (evolves_size _ _ _ (linked_evolves _ _ _ _ _ Hlk)), (evolves_size _ _ _ Hev).
  - intros q m4 _ Hne Hs H4. assert (I4 := rely_inv _ _ _ _ _ H4). cbn [SkipLogic.swp].
    assert (Hsz : size (nodes m4) = size (nodes m)) by by rewrite (rely_size this own alone m3), (evolves_size _ _ _ Hev).
    apply swp_bind, (swp_refind fuel key i s x hgt); [done|exact (linking_rely _ _ _ _ _ _ _ I3 H4 Hl3)|done|lia|].
    intros p' n' m5 m6 H5 H6 Hl6 Hs5 _. assert (I5 := rely_inv _ _ _ _ _ H5).
    assert (Hsz6 : size (nodes m6) = size (nodes m)) by by rewrite (rely_size this own alone m5), (rely_size this own alone m4).
    apply IH; [by eapply rely_inv|done|done|lia| |done|by eapply nexts_refound|done|by rewrite Hsz6].
    eapply rounds_next; [by apply (lk_room _ _ _ _ _ _ Hl)|lia|exact I3|exact I5|done|done|done|done|done|by eapply rely_trans|done|done].
Qed.

(** ** Linking a level by plain stores *)

(** The links of the node are the upper ends of the splice. *)
Definition links_known m s x i : Prop := forall j p n, (j < i)%nat -> splice_at s j p n -> load x j m = Ok n.

Lemma swp_retighten fuel key i r s x hgt Q g m :
  alone = true -> Inv m -> linking m key s x hgt i -> (i < hgt)%nat -> (size (nodes m) < fuel)%nat ->
  ((i < r)%nat -> tight m s i) ->
  (forall s', linking m key s' x hgt i -> tight m s' i -> (forall j p n, j <> i -> splice_at s' j p n <-> splice_at s j p n) -> Q s' g m) ->
  swp (if (r <=? i)%nat then
         pbind (read_at (prev_ s) i) (fun prev => pbind (not_null prev) (fun prev => pbind (do (Next prev i)) (fun tight =>
         pbind (read_at (next_s s) i) (fun next => if bool_decide (tight = next) then Ret s else refind this fuel key i s))))
       else Ret s) Q g m.
Proof.
  intros Hal I Hl Hi Hf Ht HQ. pose proof (linking_max _ _ _ _ _ _ I Hl) as Hm.
  destruct (Nat.leb_spec r i) as [Hr|Hr]; [|by apply HQ; [|apply Ht|]].
  destruct (lk_entries _ _ _ _ _ _ Hl i) as (p & n & Hat & Hle & _); [lia|]. destruct (Hle i) as [Hp _]; [done|lia|].
  rewrite (read_at_ret _ _ _ (proj1 Hat)), (read_at_ret _ _ _ (proj2 Hat)). cbn [pbind not_null].
  apply swp_bind, swp_next; [done|lia|done|]. intros q m1 Hq _ H1. apply (rely_alone _ _ _ _ _ Hal) in H1 as ->. cbn [SkipLogic.swp].
  case_bool_decide as E; [subst q; apply HQ; [done|by exists p, n|done]|].
  apply (swp_refind fuel key i s x hgt); [done..|]. intros p' n' m1 m2 H1 H2 Hl' _ Hld.
  apply (rely_alone _ _ _ _ _ Hal) in H1 as ->. apply (rely_alone _ _ _ _ _ Hal) in H2 as ->. apply HQ; [done| |].
  - exists p', n'. split; [|done]. apply (with_level_eq this); [by apply (lk_room _ _ _ _ _ _ Hl)|lia].
  - intros j a b Hj. symmetry. by apply with_level_ne.
Qed.

Lemma load_other m m' x i y j : (forall z k, ~ (z = x /\ k = i) -> slot_at z k m' = slot_at z k m) -> ~ (y = x /\ j = i) -> load y j m' = load y j m.
Proof. intros H Hne. apply slot_load. by apply H. Qed.

Lemma store_others m m' p i q : store p i q m = Ok m' -> forall z k, ~ (z = p /\ k = i) -> slot_at z k m' = slot_at z k m.
Proof. intros (_ & _ & _ & H)%store_spec z k Hne. rewrite H. by apply decide_False. Qed.

(** The two stores of a level leave the other levels and the link of the node. *)
Lemma stores_other m m1 m2 x p i n :
  (forall y j, ~ (y = x /\ j = i) -> slot_at y j m1 = slot_at y j m) -> slot_at x i m1 = Ok (Ptr n) -> p <> x -> store p i (Some x) m1 = Ok m2 ->
  load x i m2 = Ok n /\ forall y j, j <> i -> load y j m2 = load y j m.
Proof.
  intros H1 Hc Hp Hst. pose proof (store_others _ _ _ _ _ Hst) as H2. split.
  - rewrite (load_other _ _ _ _ _ _ H2) by (intros [? _]; done). unfold load. by rewrite Hc.
  - intros y j Hj. rewrite (load_other _ _ _ _ _ _ H2), (load_other _ _ _ _ _ _ H1); [done|tauto|tauto].
Qed.

Lemma on_level_own m key s x hgt i p : Inv m -> linking m key s x hgt i -> (i < hgt)%nat -> on_level m i p -> p <> x.
Proof.
  intros I Hl Hi Hp ->. pose proof (linking_max _ _ _ _ _ _ I Hl). destruct (lk_node _ _ _ _ _ _ Hl) as (Hx & _).
  destruct Hp as [?|Hp]; [done|]. by apply (lk_private _ _ _ _ _ _ Hl i) in Hp; [|lia].
Qed.

Lemma swp_store_level fuel key x r hgt i s v Q g m :
  alone = true -> Inv m -> linking m key s x hgt i -> (i < hgt)%nat -> (size (nodes m) < fuel)%nat ->
  (i = 0%nat -> g = None /\ o = SInsert key) -> (forall j, (i <= j < r)%nat -> tight m s j) -> links_known m s x i ->
  (forall s' m', Inv m' -> i = 0%nat -> good m' key s' 0 -> has (keys this m') key = true -> Q (None, s') g m') ->
  (forall s' m', Inv m' -> linking m' key s' x hgt (S i) -> (forall j, (S i <= j < r)%nat -> tight m' s' j) -> links_known m' s' x (S i) ->
     size (nodes m') = size (nodes m) -> Q (Some v, s') (if (i =? 0)%nat then Some true else g) m') ->
  swp (store_level this fuel key x r i s v) Q g m.
Proof.
  intros Hal I Hl0 Hi Hf Hg Ht0 Hk0 Hdup HQ. unfold store_level. pose proof (linking_max _ _ _ _ _ _ I Hl0) as Hm0.
  apply swp_bind, (swp_retighten fuel key i r s x hgt); [done..|intros; apply Ht0; lia|]. intros s1 Hl (p & n & Hat & Hld) Hsame.
  assert (Ht : forall j, (S i <= j < r)%nat -> tight m s1 j).
  { intros j Hj. destruct (Ht0 j) as (a & b & Ha & Hb); [lia|]. exists a, b. split; [|done]. apply Hsame; [lia|done]. }
  assert (Hk : links_known m s1 x i) by (intros j a b Hj Ha; eapply Hk0; [done|]; apply Hsame; [lia|done]).
  pose proof (linking_max _ _ _ _ _ _ I Hl) as Hm. destruct (lk_entries _ _ _ _ _ _ Hl i) as (p' & n' & Hat' & Hle & _); [lia|].
  destruct (splice_at_inj _ _ _ _ _ _ Hat Hat') as [-> ->]. destruct (Hle i) as [Hp _]; [done|lia|].
  pose proof (on_level_own _ _ _ _ _ _ _ I Hl Hi Hp) as Hpx.
  apply swp_bind, (swp_check_neighbours m key s1 x hgt i); [done..| |].
  { intros m1 H1 Hi0 Hhas. apply (rely_alone _ _ _ _ _ Hal) in H1 as ->. apply Hdup; [done|done| |done]. by apply (lk_zero _ _ _ _ _ _ Hl). }
  intros m1 H1 Hst. apply (rely_alone _ _ _ _ _ Hal) in H1 as ->. cbn [SkipLogic.swp].
  rewrite (read_at_ret _ _ _ (proj1 Hat)), (read_at_ret _ _ _ (proj2 Hat)). cbn [pbind not_null].
  apply swp_bind, swp_next; [done|lia|done|]. intros q m1 Hq _ H1. apply (rely_alone _ _ _ _ _ Hal) in H1 as ->.
  rewrite Hld in Hq. injection Hq as <-. rewrite bool_decide_true by done. cbn [passert pbind].
  apply swp_bind, (swp_linking_set m key s1 x hgt i); [done..|]. intros m1 m' I1 Hev1 Hc1 H1 Hl1 Hcx.
  apply (rely_alone _ _ _ _ _ Hal) in H1 as ->. destruct (lk_node _ _ _ _ _ _ Hl1) as (_ & Ho & _).
  assert (Hst1 : forall p y, splice_at s1 i p (Some y) -> klt m1 x y).
  { intros a y Ha. unfold klt. rewrite !(evolves_key _ _ _ _ _ Hev1). by eapply Hst. }
  assert (Hld1 : load p i m1 = Ok n) by (rewrite (load_other m m1 x i); [done|done|by intros [? _]]).
  apply swp_bind, (swp_set_link x i p n); [done|done|by eapply linking_linkable|done|by rewrite (linking_key _ _ _ _ _ _ Hl1)|].
  intros m2 m' Hst2 Hlk H2. apply (rely_alone _ _ _ _ _ Hal) in H2 as ->.
  destruct (stores_other _ _ _ _ _ _ _ Hc1 Hcx Hpx Hst2) as [Hx2 Ho2]. cbn [SkipLogic.swp]. apply HQ; [apply Hlk| | | |].
  - by apply (linking_linked m1).
  - intros j Hj. destruct (Ht j Hj) as (a & b & Ha & Hb). exists a, b. split; [done|]. by rewrite Ho2 by lia.
  - intros j a b Hj Ha. destruct (decide (j = i)) as [->|]; [|rewrite Ho2 by done; eapply Hk; [lia|done]].
    by destruct (splice_at_inj _ _ _ _ _ _ Hat Ha) as [-> ->].
  - by rewrite (evolves_size _ _ _ (linked_evolves _ _ _ _ _ Hlk)), (evolves_size _ _ _ Hev1).
Qed.

(** ** All levels *)

Definition mode_inv (UseCAS v : bool) m s x r i : Prop :=
  if UseCAS then nexts_all v m s
  else alone = true /\ v = true /\ (forall j, (i <= j < r)%nat -> tight m s j) /\ links_known m s x i.

Definition linked_to i : option bool := if (i =? 0)%nat then None else Some true.

Lemma swp_link_loop UseCAS fuel key x r hgt n i s v Q m :
  o = SInsert key -> Inv m -> linking m key s x hgt i -> (i + n)%nat = hgt -> (S (size (nodes m)) < fuel)%nat -> mode_inv UseCAS v m s x r i ->
  (forall s' m', Inv m' -> good m' key s' 0 -> has (keys this m') key = true -> Q (None, s') None m') ->
  (forall v' s' m', Inv m' -> linking m' key s' x hgt hgt -> mode_inv UseCAS v' m' s' x r hgt -> Q (Some v', s') (Some true) m') ->
  swp (link_loop this UseCAS fuel key x r n i s v) Q (linked_to i) m.
Proof.
  intros Ho. revert i s v m. induction n as [|n IH]; intros i s v m I Hl Hn Hf Hmode Hdup HQ; cbn [link_loop].
  { assert (i = hgt) as -> by lia. destruct (lk_height _ _ _ _ _ _ Hl). unfold linked_to. destruct (Nat.eqb_spec hgt 0); [lia|]. by apply HQ. }
  assert (Hg : i = 0%nat -> linked_to i = None /\ o = SInsert key) by by intros ->.
  assert (Hg' : (if (i =? 0)%nat then Some true else linked_to i) = linked_to (i + 1)) by by destruct i.
  apply swp_bind. destruct UseCAS; cbn [mode_inv] in *.
  - apply (swp_cas_loop fuel fuel key x hgt i); [done|done|lia|lia|by left|done|done| |].
    + intros s' m' I' -> Hgd Hhas. by apply Hdup.
    + intros v' s' m' I' Hl' Hv' Hsz. rewrite Hg'. apply IH; [done|by rewrite Nat.add_1_r|lia|lia|done|done|done].
  - destruct Hmode as (Hal & -> & Ht & Hk). apply (swp_store_level fuel key x r hgt i); [done|done|done|lia|lia|done|done|done| |].
    + intros s' m' I' -> Hgd Hhas. by apply Hdup.
    + intros s' m' I' Hl' Ht' Hk' Hsz. rewrite Hg'. apply IH; [done|by rewrite Nat.add_1_r|lia|lia| |done|done].
      rewrite Nat.add_1_r. done.
Qed.

End insert.
