(* ===== verification/SkipFinish.v ===== *)
(** * Insertion as a whole

    The end of [Insert] of memtable/inlineskiplist.h: the splice is updated and
    checked by assertions, all of which hold; the insertion has the effect of
    inserting into a set, and the splice can be used again. *)

From S2P Require Import Prelude Words Slice DbFormat SkipList SkipInv SkipLogic SkipFind SkipSplice SkipInsert.

Section finish.
Context {cmp : Comparator} `{!CompareOk ucmp} (this : InlineSkipList).
Context (own : loc -> Prop) (alone : bool) (o : set_op).
Implicit Types (m : memory) (x y z : loc) (i : nat) (g : option bool) (s : Splice) (key : list Z).

Local Notation swp := (swp this own alone o).
Local Notation rely := (rely this own alone).
Local Notation Inv := (Inv this).
Local Notation level := (level this).
Local Notation on_level := (on_level this).
Local Notation before := (before this).
Local Notation kMax := (kMaxHeight_ this).
Local Notation head := (head_ this).
Local Notation linking := (linking this own).

(** ** The ends of the brackets *)

Lemma linking_strict m key s x hgt j p y :
  Inv m -> linking m key s x hgt hgt -> (j <= height_ s)%nat -> splice_at s j p (Some y) -> klt m x y.
Proof.
  intros I Hl Hj Hat. destruct (decide (j < hgt)%nat) as [Hlt|Hge]; [by eapply (lk_strict _ _ _ _ _ _ _ _ Hl)|].
  pose proof (linking_max _ _ _ _ _ _ _ _ I Hl) as Hm. pose proof (linking_key _ _ _ _ _ _ _ _ Hl) as Hk.
  destruct (lk_height _ _ _ _ _ _ _ _ Hl) as [Hh _].
  assert (Hne : j <> height_ s). { intros ->. by destruct (splice_at_inj _ _ _ _ _ _ Hat (lk_top _ _ _ _ _ _ _ _ Hl)). }
  destruct (lk_entries _ _ _ _ _ _ _ _ Hl j Hj) as (p' & n' & Hat' & Hle & _ & Hkl).
  destruct (splice_at_inj _ _ _ _ _ _ Hat Hat') as [-> ->]. specialize (Hkl y eq_refl). destruct (Hle j) as [_ Hy]; [done|lia|].
  specialize (Hy y eq_refl). unfold klt. rewrite Hk. destruct (ucmp key (key_of m y)) eqn:E; [|done|done]. exfalso.
  apply (lk_private _ _ _ _ _ _ _ _ Hl j); [lia|]. replace x with y; [done|]. symmetry.
  apply (level_inj this m 0); [done|lia|apply (lk_below _ _ _ _ _ _ _ _ Hl); lia|apply (level_sub _ _ j); [done|lia|done]|by rewrite Hk].
Qed.

(** After plain stores the links of the node show that the upper ends are ordered. *)
Lemma links_nexts m key s x hgt :
  Inv m -> linking m key s x hgt hgt -> links_known m s x hgt -> nexts_all true m s.
Proof.
  intros I Hl Hk _ j Hj. destruct (decide (hgt <= j)%nat) as [Hge|Hlt]; [by apply (lk_above _ _ _ _ _ _ _ _ Hl)|].
  pose proof (linking_max _ _ _ _ _ _ _ _ I Hl) as Hm.
  destruct (lk_entries _ _ _ _ _ _ _ _ Hl j) as (p & n & Hat & _); [lia|].
  destruct (lk_entries _ _ _ _ _ _ _ _ Hl (j + 1)%nat) as (p' & n' & Hat' & Hle & _); [lia|].
  exists p, n, p', n'. split_and!; [done|done|]. destruct n' as [y'|]; [|by right; left].
  pose proof (linking_strict m key s x hgt (j + 1) p' y' I Hl ltac:(lia) Hat') as Hxy. destruct (Hle j) as [_ Hy']; [lia|lia|]. specialize (Hy' y' eq_refl).
  destruct (load_succ this m j x I) as (q & Hq & Hs); [lia|right; apply (lk_below _ _ _ _ _ _ _ _ Hl); lia|].
  rewrite (Hk j p n) in Hq by (done || lia). injection Hq as <-.
  assert (Hup : ~ upto this m y' x).
  { intros [_ Hle']. apply Hle'. by apply (cmp_gt_lt ucmp). }
  destruct n as [y|]; [|by destruct Hup; apply Hs]. destruct Hs as (Hy & _ & Hs). destruct (Hs y' Hy') as [?|Hyy]; [done|].
  destruct (ucmp (key_of m y) (key_of m y')) eqn:E; [|by right; right; eauto|done].
  left. f_equal. symmetry. apply (level_inj this m j); [done|lia|done..].
Qed.

(** ** The final splice *)

(** Every level is around the key or ends in it. *)
Definition final_ok m key s : Prop :=
  splice_ok this m s /\ (0 < height_ s)%nat /\
  forall j, (j < height_ s)%nat -> exists p n, splice_at s j p n /\ (p = head \/ (p <> head /\ ucmp (key_of m p) key <> Gt)) /\
                                  (forall y, n = Some y -> ucmp key (key_of m y) = Lt).

Lemma final_ok_rely m m' key s : Inv m -> rely m m' -> final_ok m key s -> final_ok m' key s.
Proof.
  intros I H (Hs & H0 & Hp). split_and!; [eapply splice_ok_ev; [exact I|exact (rely_evolves _ _ _ _ _ H)|done]|done|].
  intros j Hj. destruct (Hp j Hj) as (p & n & ? & Hk & Hn). exists p, n. rewrite (rely_key _ _ _ _ _ _ H). split_and!; [done|done|].
  intros y Hy. rewrite (rely_key _ _ _ _ _ _ H). auto.
Qed.

(** The lower ends of the levels of the node become the node. *)
Definition owned s x hgt : Splice := mkSplice (height_ s) (imap (fun j c => if (j <? hgt)%nat then Some (Some x) else c) (prev_ s)) (next_s s).

Lemma owned_at s x hgt j p n : splice_at s j p n -> splice_at (owned s x hgt) j (if (j <? hgt)%nat then x else p) n.
Proof. intros [H1 H2]. split; [|done]. cbn [owned prev_]. rewrite list_lookup_imap, H1. cbn [fmap option_fmap option_map]. by destruct (j <? hgt)%nat. Qed.

Lemma owned_ok m key s x hgt :
  Inv m -> linking m key s x hgt hgt -> nexts_all true m s -> final_ok m key (owned s x hgt).
Proof.
  intros I Hl Hn. pose proof (linking_max _ _ _ _ _ _ _ _ I Hl) as Hm. pose proof (linking_key _ _ _ _ _ _ _ _ Hl) as Hk.
  destruct (lk_height _ _ _ _ _ _ _ _ Hl) as [Hh _]. destruct (lk_node _ _ _ _ _ _ _ _ Hl) as (Hx & _).
  destruct (lk_room _ _ _ _ _ _ _ _ Hl) as [Hr1 Hr2].
  split_and!; [split_and!; [split; cbn; rewrite ?length_imap; lia|cbn; lia|]|cbn; lia|].
  - intros _. split.
    { pose proof (owned_at _ x hgt _ _ _ (lk_top _ _ _ _ _ _ _ _ Hl)) as Ht. destruct (Nat.ltb_spec (height_ s) hgt); [lia|done]. }
    cbn. intros j Hj. destruct (lk_entries _ _ _ _ _ _ _ _ Hl j) as (p & n & Hat & Hle & Hb & Hkl); [lia|].
    destruct (lk_entries _ _ _ _ _ _ _ _ Hl (j + 1)%nat) as (p' & n' & Hat' & _ & Hb' & _); [lia|]. destruct (Hle j) as [Hp Hy]; [lia|lia|].
    split_and!.
    + eexists _, n. split_and!; [by apply owned_at| |done]. destruct (Nat.ltb_spec j hgt); [|done]. right. by apply (lk_below _ _ _ _ _ _ _ _ Hl).
    + eexists _, n, _, n'. split_and!; [by apply owned_at|by apply owned_at|]. destruct (Nat.ltb_spec j hgt) as [Hj1|Hj1], (Nat.ltb_spec (j + 1) hgt) as [Hj2|Hj2].
      * by left.
      * destruct Hb' as [->|Hb']; [by right; left|]. right; right. split; [done|]. unfold klt. by rewrite Hk.
      * lia.
      * destruct (lk_above _ _ _ _ _ _ _ _ Hl j ltac:(lia)) as [(q & k & q' & k' & Hq & Hq' & Hle') _].
        destruct (splice_at_inj _ _ _ _ _ _ Hat Hq) as [-> ->]. by destruct (splice_at_inj _ _ _ _ _ _ Hat' Hq') as [-> ->].
    + destruct (Hn eq_refl j Hj) as (q & k & q' & k' & Hq & Hq' & Hle').
      eexists _, k, _, k'. split_and!; [by apply owned_at|by apply owned_at|done].
  - cbn. intros j Hj. destruct (lk_entries _ _ _ _ _ _ _ _ Hl j) as (p & n & Hat & Hle & Hb & Hkl); [lia|].
    eexists _, n. split_and!; [by apply owned_at| |].
    + destruct (Nat.ltb_spec j hgt); [right; split; [done|]; by rewrite Hk, (cmp_refl ucmp)|].
      destruct (decide (p = head)) as [|Hne]; [by left|right]. split; [done|]. destruct Hb as [?|Hb]; [done|]. by rewrite Hb.
    + intros y ->. pose proof (linking_strict m key s x hgt j p y I Hl ltac:(lia) Hat) as Hs. unfold klt in Hs. by rewrite Hk in Hs.
Qed.

Lemma swp_own_loop x n i (prev : list (option (option loc))) Q g m :
  (i + n <= length prev)%nat ->
  (forall prev', length prev' = length prev ->
     (forall j, prev' !! j = if (i <=? j)%nat && (j <? i + n)%nat then Some (Some (Some x)) else prev !! j) -> Q prev' g m) ->
  swp (own_loop x n i prev) Q g m.
Proof.
  revert i prev. induction n as [|n IH]; intros i prev Hi HQ; cbn [own_loop].
  - apply HQ; [done|]. intros j. destruct (Nat.leb_spec i j), (Nat.ltb_spec j (i + 0)); cbn; (lia || done).
  - unfold put. destruct (Nat.ltb_spec i (length prev)); [|lia]. cbn [pbind]. apply IH; [rewrite length_insert; lia|].
    intros prev' Hlen Hat. rewrite length_insert in Hlen. apply HQ; [done|]. intros j. rewrite Hat.
    destruct (decide (j = i)) as [->|Hne].
    + destruct (Nat.leb_spec (i + 1) i); [lia|]. cbn [andb]. rewrite list_lookup_insert_eq by done.
      destruct (Nat.leb_spec i i), (Nat.ltb_spec i (i + S n)); (lia || done).
    + rewrite list_lookup_insert_ne by done. destruct (Nat.leb_spec (i + 1) j), (Nat.ltb_spec j (i + 1 + n)), (Nat.leb_spec i j), (Nat.ltb_spec j (i + S n)); (lia || done).
Qed.

Lemma owned_prev s x hgt (prev' : list (option (option loc))) :
  (hgt <= length (prev_ s))%nat ->
  (forall j, prev' !! j = if (0 <=? j)%nat && (j <? 0 + hgt)%nat then Some (Some (Some x)) else prev_ s !! j) ->
  mkSplice (height_ s) prev' (next_s s) = owned s x hgt.
Proof.
  intros Hh Hat. unfold owned. f_equal. apply list_eq. intros j. rewrite Hat, list_lookup_imap. cbn [Nat.leb andb Nat.add].
  destruct (Nat.ltb_spec j hgt) as [Hj|Hj]; [|by destruct (prev_ s !! j)].
  destruct (lookup_lt_is_Some_2 (prev_ s) j) as [c ->]; [lia|done].
Qed.

Lemma splice_alloc m s j p n :
  Inv m -> splice_ok this m s -> (0 < height_ s)%nat -> (j <= height_ s)%nat -> splice_at s j p n ->
  is_Some (nodes m !! p) /\ forall y, n = Some y -> is_Some (nodes m !! y).
Proof.
  intros I (_ & Hh & Hs) H0 Hj Hat. destruct (Hs H0) as [Ht Hp]. destruct (inv_height _ _ I) as [Hm _].
  destruct (decide (j = height_ s)) as [->|Hne].
  - destruct (splice_at_inj _ _ _ _ _ _ Ht Hat) as [-> ->]. split; [apply (on_alloc this m 0); [done|lia|by left]|by intros ?].
  - destruct (Hp j) as ((q & k & Hq & Hon & Hy) & _); [lia|]. destruct (splice_at_inj _ _ _ _ _ _ Hat Hq) as [-> ->].
    split; [apply (on_alloc this m j); [done|lia|done]|]. intros y ->. apply (in_alloc this m j); [done|lia|auto].
Qed.

(** ** The assertions at the end *)

Lemma swp_assert_key y (f : list Z -> bool) Q g m :
  Inv m -> is_Some (nodes m !! y) -> f (key_of m y) = true -> (forall m', rely m m' -> Q tt g m') ->
  swp (pbind (do (Key y)) (fun k => passert (f k))) Q g m.
Proof. intros I Hy Hf HQ. apply swp_bind, swp_key; [done..|]. intros m1 H1. rewrite Hf. cbn. by apply HQ. Qed.

Lemma swp_assert_klt x y Q g m :
  Inv m -> is_Some (nodes m !! x) -> is_Some (nodes m !! y) -> klt m x y -> (forall m', rely m m' -> Q tt g m') ->
  swp (pbind (do (Key x)) (fun k => pbind (do (Key y)) (fun k' => passert (is_lt (ucmp k k'))))) Q g m.
Proof.
  intros I Hx Hy Hk HQ. unfold klt in Hk. apply swp_bind, swp_key; [done..|]. intros m1 H1. later H1.
  apply swp_assert_key with (f := fun k' => is_lt (ucmp (key_of m1 x) k')); [done|done|by rewrite Hk|]. intros m2 H2. apply HQ. by eapply rely_trans.
Qed.

Lemma swp_assert_next key n Q g m :
  Inv m -> (forall y, n = Some y -> is_Some (nodes m !! y) /\ ucmp key (key_of m y) = Lt) -> (forall m', rely m m' -> Q tt g m') ->
  swp (match n with None => Ret tt | Some y => pbind (do (Key y)) (fun k => passert (is_lt (ucmp key k))) end) Q g m.
Proof.
  intros I Hn HQ. destruct n as [y|]; [|by apply HQ, rely_refl]. destruct (Hn y eq_refl) as [Hy Hk].
  apply swp_assert_key with (f := fun k => is_lt (ucmp key k)); [done|done|by rewrite Hk|done].
Qed.

Lemma swp_assert_prev key p Q g m :
  Inv m -> is_Some (nodes m !! p) -> p = head \/ (p <> head /\ ucmp (key_of m p) key <> Gt) -> (forall m', rely m m' -> Q tt g m') ->
  swp (if is_head this (Some p) then Ret tt else
       pbind (not_null (Some p)) (fun y => pbind (do (Key y)) (fun k => passert (bool_decide (ucmp k key <> Gt))))) Q g m.
Proof.
  intros I Hp Hk HQ. destruct (is_head this (Some p)) eqn:Eh; [by apply HQ, rely_refl|]. pose proof (is_head_false _ _ Eh).
  destruct Hk as [?|[_ Hk]]; [done|]. cbn [not_null pbind].
  apply swp_assert_key with (f := fun k => bool_decide (ucmp k key <> Gt)); [done|done|by apply bool_decide_eq_true|done].
Qed.

Lemma swp_assert_prevs p' p Q g m :
  Inv m -> is_Some (nodes m !! p) -> is_Some (nodes m !! p') -> prev_le this m p' p -> (forall m', rely m m' -> Q tt g m') ->
  swp (if bool_decide (Some p' = Some p) || is_head this (Some p') then Ret tt else
       pbind (not_null (Some p')) (fun y' => pbind (not_null (Some p)) (fun y => pbind (do (Key y')) (fun k' =>
       pbind (do (Key y)) (fun k => passert (is_lt (ucmp k' k))))))) Q g m.
Proof.
  intros I Hp Hp' Hle HQ. destruct (bool_decide _ || _) eqn:E; [by apply HQ, rely_refl|].
  apply orb_false_iff in E as [E1%bool_decide_eq_false E2%is_head_false]. destruct Hle as [->|[->|[_ Hk]]]; [done|done|].
  cbn [not_null pbind]. by apply swp_assert_klt.
Qed.

Lemma swp_assert_nexts n' n Q g m :
  Inv m -> (forall y, n = Some y -> is_Some (nodes m !! y)) -> (forall y, n' = Some y -> is_Some (nodes m !! y)) -> next_le m n n' ->
  (forall m', rely m m' -> Q tt g m') ->
  swp (if bool_decide (n' = n) then Ret tt else
       match n' with
       | None => Ret tt
       | Some y' => pbind (not_null n) (fun y => pbind (do (Key y)) (fun k => pbind (do (Key y')) (fun k' => passert (is_lt (ucmp k k')))))
       end) Q g m.
Proof.
  intros I Hn Hn' Hle HQ. case_bool_decide as E; [by apply HQ, rely_refl|].
  destruct Hle as [?|[->|(y & y' & -> & -> & Hk)]]; [done|by apply HQ, rely_refl|]. cbn [not_null pbind]. apply swp_assert_klt; auto.
Qed.

Lemma swp_assert_level key s i Q g m :
  Inv m -> final_ok m key s -> (i < height_ s)%nat -> (forall m', rely m m' -> Q tt g m') -> swp (assert_level this key s i) Q g m.
Proof.
  intros I Hf Hi HQ. destruct (Hf) as (Hs & H0 & Hp). destruct (Hp i Hi) as (p & n & Hat & Hpk & Hnk).
  destruct (Hs) as (_ & _ & Hso). destruct (Hso H0) as [_ Hord].
  destruct (Hord i Hi) as (_ & (q & k & p' & n' & Hq & Hat' & Hple) & (q2 & k2 & q2' & k2' & Hq2 & Hq2' & Hnle)).
  destruct (splice_at_inj _ _ _ _ _ _ Hat Hq) as [-> ->]. destruct (splice_at_inj _ _ _ _ _ _ Hat Hq2) as [-> ->].
  destruct (splice_at_inj _ _ _ _ _ _ Hat' Hq2') as [-> ->].
  destruct (splice_alloc m s i p n I Hs H0 ltac:(lia) Hat) as [Ha Hna].
  destruct (splice_alloc m s (i + 1) p' n' I Hs H0 ltac:(lia) Hat') as [Ha' Hna'].
  unfold assert_level. rewrite (read_at_ret _ _ _ (proj1 Hat)), (read_at_ret _ _ _ (proj2 Hat)), (read_at_ret _ _ _ (proj1 Hat')), (read_at_ret _ _ _ (proj2 Hat')).
  cbn [pbind]. apply swp_bind, swp_assert_next; [done|auto|]. intros m1 H1.
  apply swp_bind, swp_assert_prev; [by eapply rely_inv|by eapply rely_alloc|by rewrite (rely_key _ _ _ _ _ _ H1)|]. intros m2 H12.
  assert (H2 := rely_trans _ _ _ _ _ _ H1 H12).
  apply swp_bind, swp_assert_prevs; [by eapply rely_inv|by apply (rely_alloc _ _ _ _ _ _ H2)..|exact (prev_le_ev _ _ _ _ _ _ (rely_evolves _ _ _ _ _ H2) Hple)|].
  intros m3 H23. assert (H3 := rely_trans _ _ _ _ _ _ H2 H23).
  apply swp_assert_nexts; [by eapply rely_inv|intros y Hy; apply (rely_alloc _ _ _ _ _ _ H3); auto..|exact (next_le_ev _ _ _ _ _ _ (rely_evolves _ _ _ _ _ H3) Hnle)|].
  intros m4 H4. apply HQ. by eapply rely_trans.
Qed.

Lemma swp_assert_levels key s n i Q g m :
  Inv m -> final_ok m key s -> (i + n <= height_ s)%nat -> (forall m', rely m m' -> Q tt g m') -> swp (assert_levels this key s n i) Q g m.
Proof.
  revert i m. induction n as [|n IH]; intros i m I Hf Hi HQ; cbn [assert_levels]; [by apply HQ, rely_refl|].
  apply swp_bind, swp_assert_level; [done|done|lia|]. intros m1 H1.
  apply IH; [by eapply rely_inv|exact (final_ok_rely _ _ _ _ I H1 Hf)|lia|]. intros m2 H2. apply HQ. by eapply rely_trans.
Qed.

Lemma swp_finish_splice key x hgt v s Q g m :
  Inv m -> linking m key s x hgt hgt -> nexts_all v m s -> (forall s' m', Inv m' -> splice_ok this m' s' -> Q s' g m') ->
  swp (finish_splice this key x hgt v s) Q g m.
Proof.
  intros I Hl Hn HQ. pose proof (linking_max _ _ _ _ _ _ _ _ I Hl) as Hm. pose proof (lk_room _ _ _ _ _ _ _ _ Hl) as [Hr1 Hr2].
  unfold finish_splice. destruct v; [|apply HQ; [done|]; split_and!; [done|cbn; lia|cbn; lia]].
  apply swp_bind, swp_own_loop; [lia|]. intros prev' Hlen Hat. rewrite (owned_prev s x hgt) by (done || lia).
  pose proof (owned_ok _ _ _ _ _ I Hl Hn) as Hf. destruct (Hf) as (Hs & H0 & _). destruct (Hs) as (_ & _ & Hso). destruct (Hso H0) as [[Ht1 Ht2] _].
  rewrite (read_at_ret _ _ _ Ht1), (read_at_ret _ _ _ Ht2). cbn [pbind]. unfold is_head at 1. rewrite !bool_decide_true by done. cbn [passert pbind].
  apply swp_bind, swp_assert_levels; [done|done|lia|]. intros m1 H1. apply HQ; [by eapply rely_inv|].
  exact (splice_ok_ev _ _ _ _ _ I (rely_evolves _ _ _ _ _ H1) Hs).
Qed.

(** ** [Insert] *)

(** A node that is on no level yet, and one as [AllocateKey] returns it. *)
Definition private_node m x key (hgt : nat) : Prop :=
  x <> head /\ shape m x = Some (key, hgt) /\ (1 <= hgt <= kMax)%nat /\ (hgt <= kMaxPossibleHeight)%nat /\
  forall j, (j < kMax)%nat -> x ∉ level m j.
Definition fresh_node m x key (hgt : nat) : Prop := private_node m x key hgt /\ slot_at x 0 m = Ok (Stash hgt).

(** The operation has taken effect with answer [b], or does so now. *)
Definition answered g (b : bool) m : Prop :=
  g = Some b \/ (g = None /\ set_spec o (keys this m) = (b, keys this m)).

Lemma private_ev own' m m' x key hgt :
  evolves this own' m m' -> (forall j, (j < kMax)%nat -> x ∉ level m' j) -> private_node m x key hgt -> private_node m' x key hgt.
Proof. intros H Hl' (Hx & Hsh & Hh & Hp & Hl). split_and!; [done|by rewrite (ev_shape _ _ _ _ H)|lia|lia|lia|done]. Qed.

Lemma private_rely m m' x key hgt : own x -> rely m m' -> private_node m x key hgt -> private_node m' x key hgt.
Proof.
  intros Ho H Hp. eapply private_ev; [exact (rely_evolves _ _ _ _ _ H)| |done]. intros j Hj. destruct Hp as (Hx & _ & _ & _ & Hl).
  apply (rely_private _ _ _ _ _ _ _ Hj H Ho Hx). auto.
Qed.

Lemma fresh_rely m m' x key hgt : own x -> rely m m' -> fresh_node m x key hgt -> fresh_node m' x key hgt.
Proof.
  intros Ho H [Hp Hc]. split; [by eapply private_rely|]. destruct Hp as (Hx & _ & Hh & _ & Hl).
  assert (Hj : (0 < kMax)%nat) by lia. by rewrite (proj2 (rely_private _ _ _ _ _ _ _ Hj H Ho Hx (Hl _ Hj))).
Qed.

Lemma good_linking m key s x hgt :
  Inv m -> good this m key s 0 -> own x -> private_node m x key hgt -> (hgt <= height_ s)%nat -> linking m key s x hgt 0.
Proof.
  intros I Hg Ho (Hx & Hsh & Hh & _ & Hl) Hle. destruct (Hg) as (Hr & Hhs & Ht & Hp & Hb).
  split; [done|lia|done| | | |intros; lia| |intros; lia|done].
  - intros j Hj. eapply good_entry; [done|done|lia].
  - intros j Hj. apply Hp. lia.
  - split_and!; eauto.
  - intros j Hj. apply Hl. lia.
Qed.

(** [Insert] behind the reading of the height. *)
Lemma swp_insert_tail UseCAS fuel key x hgt s allow h Q m :
  Inv m -> own x -> o = SInsert key -> private_node m x key hgt -> splice_ok this m s -> (height_ s <= h <= max_height_ m)%nat -> (hgt <= h)%nat ->
  (S (size (nodes m)) < fuel)%nat -> (UseCAS = false -> alone = true) ->
  (forall b s' g m', Inv m' -> splice_ok this m' s' -> answered g b m' -> Q (b, s') g m') ->
  swp (pbind (prepare_splice this fuel key s allow h) (fun r => let '(recompute_height, splice) := r in
       pbind (link_loop this UseCAS fuel key x recompute_height hgt 0 splice true) (fun r =>
       match r with
       | (None, splice) => Ret (false, splice)
       | (Some splice_is_valid, splice) => pbind (finish_splice this key x hgt splice_is_valid splice) (fun splice => Ret (true, splice))
       end))) Q None m.
Proof.
  intros I Hown Ho Hfr Hs Hh Hle Hf Hal HQ. assert (Hpos : (1 <= hgt)%nat) by apply Hfr.
  apply swp_bind. eapply swp_prepare_splice with (m0 := m); [done|by apply rely_refl|done|lia|lia|lia|].
  intros r s1 m1 H1 Hr Hg1 Hh1 Ht1. assert (I1 := rely_inv _ _ _ _ _ H1). assert (Hfr1 := private_rely _ _ _ _ _ Hown H1 Hfr). apply swp_bind.
  change None with (linked_to 0). eapply swp_link_loop with (hgt := hgt); [done|done|apply good_linking; [done..|lia]|done|by rewrite (rely_size this own alone m)| | |].
  - destruct UseCAS; [intros _; destruct Hg1 as (_ & _ & _ & Hp & _); intros j Hj; by apply Hp; lia|].
    split_and!; [by apply Hal|done|intros j Hj; apply Ht1; [by apply Hal|lia]|]. intros j p n Hj. lia.
  - intros s2 m2 I2 Hg2 Hhas. apply HQ; [done|by eapply good_splice_ok|]. right. split; [done|]. rewrite Ho. cbn. by rewrite Hhas.
  - intros v s2 m2 I2 Hl2 Hm2. apply swp_bind. apply swp_finish_splice; [done|done| |].
    + destruct UseCAS; [done|]. destruct Hm2 as (_ & -> & _ & Hk). by eapply links_nexts.
    + intros s3 m3 I3 Hs3. apply HQ; [done|done|by left].
Qed.

Lemma swp_Insert UseCAS fuel key x hgt s allow Q m :
  Inv m -> own x -> o = SInsert key -> fresh_node m x key hgt -> splice_ok this m s -> enough this fuel m -> (UseCAS = false -> alone = true) ->
  (forall b s' g m', Inv m' -> splice_ok this m' s' -> answered g b m' -> Q (b, s') g m') ->
  swp (Insert this UseCAS fuel x s allow) Q None m.
Proof.
  intros I Hown Ho Hfr Hs Hf Hal HQ. destruct (Hfr) as [Hpr _]. destruct (Hpr) as (Hx & Hsh & Hh & Hp & Hl). unfold Insert.
  assert (Hxa : is_Some (nodes m !! x)) by (unfold shape in Hsh; destruct (nodes m !! x); [by eexists|done]).
  apply swp_bind, swp_key; [done|done|]. rewrite (shape_key_of _ _ _ _ Hsh). intros m1 H1. assert (I1 := rely_inv _ _ _ _ _ H1).
  assert (Hfr1 := fresh_rely _ _ _ _ _ Hown H1 Hfr).
  apply swp_bind. eapply swp_read; [done|cbn; by rewrite (proj2 Hfr1)|]. intros m2 H12. assert (H2 := rely_trans _ _ _ _ _ _ H1 H12).
  destruct (Nat.leb_spec 1 hgt), (Nat.leb_spec hgt kMax); try lia. cbn [andb passert pbind]. assert (I2 := rely_inv _ _ _ _ _ H2).
  assert (Hs2 := splice_ok_ev _ _ _ _ _ I (rely_evolves _ _ _ _ _ H2) Hs).
  apply swp_bind, swp_height; [done|]. intros m3 H23. assert (H3 := rely_trans _ _ _ _ _ _ H2 H23).
  apply swp_bind. eapply swp_raise_loop with (lo := height_ s) (m0 := m); [exact Hown|by eapply rely_inv|done| |lia|lia|lia|].
  { destruct Hs2 as (_ & Hhs & _). pose proof (ev_height _ _ _ _ (rely_evolves _ _ _ _ _ H23)). lia. }
  intros h m4 m5 m6 H4 I5 Hev5 Hlv H6 Hlo Hhi. assert (I4 := rely_inv _ _ _ _ _ H4). assert (I6 := rely_inv _ _ _ _ _ H6).
  destruct (inv_height _ _ I6) as [Hm6 Hm6']. destruct (Nat.leb_spec h kMaxPossibleHeight); [|lia]. cbn [passert pbind].
  assert (Hp4 := private_rely _ _ _ _ _ Hown H4 Hpr).
  apply (swp_insert_tail UseCAS fuel key x hgt); try done; try lia.
  - eapply private_rely; [done|exact H6|]. eapply private_ev; [exact Hev5| |done]. intros j Hj. rewrite Hlv by done. by apply Hp4.
  - apply (splice_ok_ev _ _ m5 _ _ I5 (rely_evolves _ _ _ _ _ H6)), (splice_ok_ev _ _ m4 _ _ I4 Hev5).
    exact (splice_ok_ev _ _ _ _ _ I (rely_evolves _ _ _ _ _ H4) Hs).
  - unfold enough in Hf. rewrite (rely_size this own alone m5) by done. rewrite (evolves_size _ _ _ _ Hev5), (rely_size this own alone m) by done. lia.
Qed.

(** A splice never used. *)
Lemma blank_ok m n : Inv m -> (kMax < n)%nat -> splice_ok this m (blank_splice n).
Proof. intros I Hn. split_and!; [split; cbn; rewrite length_replicate; lia|cbn; lia|cbn; lia]. Qed.

End finish.
