(* ===== verification/SkipSystem.v ===== *)
(** * The skip list among threads

    Threads that call the operations of memtable/inlineskiplist.h on one list,
    interleaved at every access to shared memory, against threads that call the
    operations of a set, each of which happens at one moment. *)

From S2P Require Import Prelude Words Slice DbFormat SkipList SkipInv SkipLogic SkipFind SkipSplice SkipInsert SkipFinish.

(** ** The system *)

(** The calls a thread makes; the nodes are those [AllocateKey] returned. *)
Inductive op : Type :=
  | OInsert (x : loc)
  | OInsertConcurrently (x : loc)
  | OInsertWithHint (x : loc)
  | OInsertWithHintConcurrently (x : loc)
  | OContains (key : list Z).

(** A thread has a hint of its own and is inside at most one call. *)
Record thread : Type := mkThread {
  hint : option Splice; todo : list op; current : option (op * prog (bool * option Splice))
}.

Record system : Type := mkSystem { mem : memory; seq_splice_ : Splice; threads : list thread }.

Inductive event : Type :=
  | Begin (j : nat) (o : op)
  | End (j : nat) (o : op) (answer : bool).

Definition op_node (o : op) : option loc :=
  match o with
  | OInsert x | OInsertConcurrently x | OInsertWithHint x | OInsertWithHintConcurrently x => Some x
  | OContains _ => None
  end.

Section system.
Context {cmp : Comparator} (this : InlineSkipList) (fuel : nat).
Local Open Scope prog_scope.

Definition code (seq : Splice) (hint : option Splice) (o : op) : prog (bool * option Splice) :=
  match o with
  | OInsert x => r <- Insert this false fuel x seq false ;; Ret (r.1, Some r.2)
  | OInsertConcurrently x => b <- InsertConcurrently this fuel x ;; Ret (b, None)
  | OInsertWithHint x => r <- InsertWithHint this fuel x hint ;; Ret (r.1, Some r.2)
  | OInsertWithHintConcurrently x => r <- InsertWithHintConcurrently this fuel x hint ;; Ret (r.1, Some r.2)
  | OContains key => b <- Contains this fuel key ;; Ret (b, None)
  end.

(** Where the splice of a call is kept: in the list or behind the hint. *)
Definition keep_seq (o : op) (s : option Splice) (seq : Splice) : Splice :=
  match o with OInsert _ => default seq s | _ => seq end.
Definition keep_hint (o : op) (s hint : option Splice) : option Splice :=
  match o with OInsert _ => hint | _ => match s with Some s => Some s | None => hint end end.

Inductive step : system -> option event -> system -> Prop :=
  | step_begin m seq ts j h o os :
      ts !! j = Some (mkThread h (o :: os) None) ->
      step (mkSystem m seq ts) (Some (Begin j o)) (mkSystem m seq (<[j := mkThread h os (Some (o, code seq h o))]> ts))
  | step_act m m' seq ts j h os o B (a : act B) k b :
      ts !! j = Some (mkThread h os (Some (o, Act a k))) -> perform a m = Ok (b, m') ->
      step (mkSystem m seq ts) None (mkSystem m' seq (<[j := mkThread h os (Some (o, k b))]> ts))
  | step_crash m seq ts j h os o B (a : act B) k e :
      ts !! j = Some (mkThread h os (Some (o, Act a k))) -> perform a m = Err e ->
      step (mkSystem m seq ts) None (mkSystem m seq (<[j := mkThread h os (Some (o, Fail e))]> ts))
  | step_end m seq ts j h os o b s :
      ts !! j = Some (mkThread h os (Some (o, Ret (b, s)))) ->
      step (mkSystem m seq ts) (Some (End j o b)) (mkSystem m (keep_seq o s seq) (<[j := mkThread (keep_hint o s h) os None]> ts)).

Inductive execution : system -> list event -> system -> Prop :=
  | execution_refl s : execution s [] s
  | execution_step s tr s' e s'' : execution s tr s' -> step s' e s'' -> execution s (tr ++ option_list e) s''.

(** No call has failed. *)
Definition no_failure (s : system) : Prop :=
  forall j t o e, threads s !! j = Some t -> current t <> Some (o, Fail e).

(** Thread [j] makes a step. *)
Definition step_of (j : nat) (s : system) : option (option event * system) :=
  match threads s !! j with
  | None => None
  | Some t =>
      match current t with
      | None =>
          match todo t with
          | [] => None
          | o :: os =>
              Some (Some (Begin j o), mkSystem (mem s) (seq_splice_ s)
                      (<[j := mkThread (hint t) os (Some (o, code (seq_splice_ s) (hint t) o))]> (threads s)))
          end
      | Some (o, Act a k) =>
          match perform a (mem s) with
          | Ok (b, m') => Some (None, mkSystem m' (seq_splice_ s) (<[j := mkThread (hint t) (todo t) (Some (o, k b))]> (threads s)))
          | Err e => Some (None, mkSystem (mem s) (seq_splice_ s) (<[j := mkThread (hint t) (todo t) (Some (o, Fail e))]> (threads s)))
          end
      | Some (o, Ret (b, sp)) =>
          Some (Some (End j o b), mkSystem (mem s) (keep_seq o sp (seq_splice_ s))
                  (<[j := mkThread (keep_hint o sp (hint t)) (todo t) None]> (threads s)))
      | Some (_, Fail _) => None
      end
  end.

(** The threads move in the given order; a thread that cannot move is passed over. *)
Fixpoint run_schedule (js : list nat) (s : system) : list event * system :=
  match js with
  | [] => ([], s)
  | j :: js =>
      match step_of j s with
      | None => run_schedule js s
      | Some (e, s') => let '(tr, s'') := run_schedule js s' in (option_list e ++ tr, s'')
      end
  end.

Lemma step_of_step j s e s' : step_of j s = Some (e, s') -> step s e s'.
Proof.
  destruct s as [m seq ts]. unfold step_of. cbn [threads mem seq_splice_].
  destruct (ts !! j) as [[h os [[o p]|]]|] eqn:Ej; cbn [current todo hint]; [|destruct os as [|o os]; [done|intros [= <- <-]; by apply step_begin]|done].
  destruct p as [[b sp]|e'|B a k]; [intros [= <- <-]; by apply step_end|done|].
  destruct (perform a m) as [[b m']|e'] eqn:Ep; intros [= <- <-]; [by eapply step_act|by eapply step_crash].
Qed.

Lemma step_of_others j s e s' i : step_of j s = Some (e, s') -> i <> j -> threads s' !! i = threads s !! i.
Proof.
  intros H Hi. unfold step_of in H. repeat case_match; simplify_eq; cbn; by apply list_lookup_insert_ne.
Qed.

(** A thread whose call has not failed can move. *)
Lemma step_of_some j s t :
  threads s !! j = Some t -> (forall o e, current t <> Some (o, Fail e)) -> (current t = None /\ todo t = []) \/ exists e s', step_of j s = Some (e, s').
Proof.
  intros Hj Hc. unfold step_of. rewrite Hj. destruct t as [h os [[o p]|]]; cbn [current todo hint] in *; [|destruct os as [|o os]; [by left|by right; eauto]]. right.
  destruct p as [[b sp]|e'|B a k]; [by eauto|by destruct (Hc o e')|]. destruct (perform a (mem s)) as [[b m']|e']; eauto.
Qed.

Lemma execution_trans s tr s' tr' s'' : execution s tr s' -> execution s' tr' s'' -> execution s (tr ++ tr') s''.
Proof.
  intros H H'. induction H' as [s'|s' tr' b e c _ IH Hs]; [by rewrite app_nil_r|]. rewrite app_assoc. eapply execution_step; eauto.
Qed.

Lemma run_schedule_execution js s : execution s (run_schedule js s).1 (run_schedule js s).2.
Proof.
  revert s. induction js as [|j js IH]; intros s; cbn [run_schedule]; [apply execution_refl|].
  destruct (step_of j s) as [[e s']|] eqn:E; [|apply IH]. specialize (IH s'). destruct (run_schedule js s') as [tr s'']. cbn [fst snd] in *.
  eapply execution_trans; [|done]. rewrite <- (app_nil_l (option_list e)). eapply execution_step; [apply execution_refl|by eapply step_of_step].
Qed.

End system.

(** ** The specification *)

Record spec_thread : Type := mkSpecThread { spec_todo : list op; spec_current : option (op * option bool) }.
Record spec_system : Type := mkSpec { spec_set : list (list Z); spec_threads : list spec_thread }.

Section spec.
Context {cmp : Comparator} (kind : op -> set_op).

(** A call takes effect once, between its beginning and its end. *)
Inductive spec_step : spec_system -> option event -> spec_system -> Prop :=
  | spec_begin s ts j o os :
      ts !! j = Some (mkSpecThread (o :: os) None) ->
      spec_step (mkSpec s ts) (Some (Begin j o)) (mkSpec s (<[j := mkSpecThread os (Some (o, None))]> ts))
  | spec_effect s s' ts j o os b :
      ts !! j = Some (mkSpecThread os (Some (o, None))) -> set_spec (kind o) s = (b, s') ->
      spec_step (mkSpec s ts) None (mkSpec s' (<[j := mkSpecThread os (Some (o, Some b))]> ts))
  | spec_end s ts j o os b :
      ts !! j = Some (mkSpecThread os (Some (o, Some b))) ->
      spec_step (mkSpec s ts) (Some (End j o b)) (mkSpec s (<[j := mkSpecThread os None]> ts)).

Inductive spec_execution : spec_system -> list event -> spec_system -> Prop :=
  | spec_execution_refl s : spec_execution s [] s
  | spec_execution_step s tr s' e s'' : spec_execution s tr s' -> spec_step s' e s'' -> spec_execution s (tr ++ option_list e) s''.

End spec.
