(* ===== verification/SkipInit.v ===== *)
(** * A new skip list

    The constructor of memtable/inlineskiplist.h and [AllocateKey]: the list is
    empty and the nodes are ready to be inserted, whatever heights the generator
    of util/random.h gives them. *)

From S2P Require Import Prelude Words Slice DbFormat SkipList SkipInv SkipLogic SkipFind SkipSplice SkipInsert SkipFinish.

(** ** Random numbers *)

(** [Next] multiplies modulo 2^31 - 1, and the seed never becomes zero. *)
Lemma Random_Next_spec seed_ : 0 < seed_ < kMaxNext ->
  Random_Next seed_ = (16807 * seed_) mod kMaxNext /\ 0 < Random_Next seed_ < kMaxNext.
Proof.
  intros Hs. unfold Random_Next. set (p := 16807 * seed_).
  assert (Hp : wmul 64 seed_ 16807 = p) by (unfold wmul; rewrite wrap_id; unfold word, p, kMaxNext in *; lia). rewrite Hp.
  assert (Hnz : p mod kMaxNext <> 0).
  { intros E. apply Z.mod_divide in E; [|unfold kMaxNext; lia]. unfold p in E. apply Z.gauss in E; [|vm_compute; done]. apply Z.divide_pos_le in E; lia. }
  rewrite Z.shiftr_div_pow2 by lia. replace (Z.land p kMaxNext) with (p mod 2 ^ 31) by (symmetry; change kMaxNext with (Z.ones 31); apply Z.land_ones; lia).
  pose proof (Z.div_mod p (2 ^ 31) ltac:(lia)) as Hdm. pose proof (Z.mod_pos_bound p (2 ^ 31) ltac:(lia)).
  assert (0 <= p / 2 ^ 31 < 16807) by (split; [apply Z.div_pos|apply Z.div_lt_upper_bound]; unfold p, kMaxNext in *; lia).
  rewrite wrap_id by (unfold word; lia). set (t := p / 2 ^ 31 + p mod 2 ^ 31) in *.
  assert (Et : p mod kMaxNext = t mod kMaxNext).
  { replace p with (t + (p / 2 ^ 31) * kMaxNext) at 1 by (unfold t, kMaxNext; lia). apply Z.mod_add. unfold kMaxNext. lia. }
  assert (Htr : 0 <= t < kMaxNext + 16808) by (unfold t, kMaxNext; lia).
  pose proof (Z.mod_pos_bound t kMaxNext eq_refl) as Hb. rewrite Et in *. clear - Hnz Htr Hb.
  destruct (Z.ltb_spec kMaxNext t) as [Ht|Ht].
  - assert (E : t mod kMaxNext = t - kMaxNext) by (symmetry; apply Z.mod_unique with (q := 1); unfold kMaxNext in *; lia). lia.
  - assert (t <> kMaxNext) by (intros ->; by rewrite Z.mod_same in Hnz).
    assert (E : t mod kMaxNext = t) by (apply Z.mod_small; lia). lia.
Qed.

(** A seed the constructor accepts although the generator is stuck at it. *)
Example GoodSeed_stuck : GoodSeed kMaxNext = kMaxNext /\ Random_Next kMaxNext = kMaxNext.
Proof. split; vm_compute; reflexivity. Qed.

(** All other seeds are good. *)
Lemma GoodSeed_good s : 0 <= s -> s mod 2 ^ 31 <> kMaxNext -> 0 < GoodSeed s < kMaxNext.
Proof.
  intros Hs Hne. unfold GoodSeed. assert (E : Z.land s kMaxNext = s mod 2 ^ 31) by (change kMaxNext with (Z.ones 31); apply Z.land_ones; lia). rewrite !E.
  pose proof (Z.mod_pos_bound s (2 ^ 31) ltac:(lia)). destruct (Z.eqb_spec (s mod 2 ^ 31) 0); unfold kMaxNext in *; lia.
Qed.

(** ** Heights *)

#[local] Opaque Random_Next.

Lemma height_loop_bounds n kMax scaled h seed_ h' seed' :
  (1 <= h <= kMax)%nat -> (h <= kMaxPossibleHeight)%nat -> height_loop n kMax scaled h seed_ = (h', seed') ->
  (1 <= h' <= kMax)%nat /\ (h' <= kMaxPossibleHeight)%nat.
Proof.
  revert h seed_. induction n as [|n IH]; intros h seed_ H1 H2; cbn [height_loop]; [by intros [= <- <-]|].
  destruct (Nat.ltb_spec h kMax), (Nat.ltb_spec h kMaxPossibleHeight); cbn [andb]; try by intros [= <- <-].
  destruct (Random_Next seed_ <? scaled); [|by intros [= <- <-]]. apply IH; lia.
Qed.

(** Enough rounds: a round more changes nothing. *)
Lemma height_loop_enough n kMax scaled h seed_ :
  (kMaxPossibleHeight - h <= n)%nat -> height_loop (S n) kMax scaled h seed_ = height_loop n kMax scaled h seed_.
Proof.
  revert h seed_. induction n as [|n IH]; intros h seed_ Hn.
  - cbn [height_loop]. destruct (Nat.ltb_spec h kMaxPossibleHeight); [lia|]. by rewrite andb_false_r.
  - cbn [height_loop] in *. destruct (_ && _) eqn:E; [|done]. destruct (_ <? _); [|done]. apply IH.
    apply andb_true_iff in E as [_ ?%Nat.ltb_lt]. lia.
Qed.

Section init.
Context {cmp : Comparator} `{!CompareOk ucmp}.

Lemma RandomHeight_ok this seed_ :
  (1 <= kMaxHeight_ this)%nat -> exists h seed', RandomHeight this seed_ = Ok (h, seed') /\ (1 <= h <= kMaxHeight_ this)%nat /\ (h <= kMaxPossibleHeight)%nat.
Proof.
  intros Hk. unfold RandomHeight. destruct (height_loop _ _ _ _ _) as [h seed'] eqn:E.
  apply height_loop_bounds in E; [|lia|unfold kMaxPossibleHeight; lia]. exists h, seed'. split; [|done].
  destruct (Nat.ltb_spec 0 h), (Nat.leb_spec h (kMaxHeight_ this)), (Nat.leb_spec h kMaxPossibleHeight); cbn [andb]; (lia || done).
Qed.

(** The caller allocates one key after the other and fills them in. *)
Fixpoint allocate_keys (this : InlineSkipList) (ks : list (list Z)) (seed_ : Z) : M memory (list loc) :=
  match ks with
  | [] => ret []
  | k :: ks => r <- AllocateKey this k seed_ ;; xs <- allocate_keys this ks (snd r) ;; ret (fst r :: xs)
  end.

(** ** The constructor *)

Lemma null_loop_run x k c h n i :
  (i + n <= length c)%nat ->
  run (null_loop x n i) (mkMemory {[x := mkNode k c]} h) =
  Ok (tt, mkMemory {[x := mkNode k (take i c ++ replicate n (Ptr None) ++ drop (i + n) c)]} h).
Proof.
  revert c i. induction n as [|n IH]; intros c i Hi; cbn [null_loop run pbind].
  - unfold ret. cbn [replicate app]. by rewrite Nat.add_0_r, take_drop.
  - unfold do. cbn [pbind run perform]. unfold store. cbn [nodes max_height_]. rewrite lookup_singleton_eq. cbn [next_ node_key].
    destruct (Nat.ltb_spec i (length c)); [|lia]. cbn [rbind]. rewrite insert_singleton_eq, IH by (rewrite length_insert; lia).
    do 5 f_equal. rewrite Nat.add_1_r. erewrite take_S_r by (apply list_lookup_insert_eq; lia). rewrite take_insert_ge, drop_insert_lt by lia.
    rewrite <- app_assoc. cbn. by rewrite Nat.add_succ_r.
Qed.

Lemma new_memory mh bf this m :
  mh < 2 ^ 31 -> InlineSkipList_new mh bf = Ok (this, m) ->
  (1 <= kMaxHeight_ this)%nat /\ m = mkMemory {[head_ this := mkNode [] (replicate (kMaxHeight_ this) (Ptr None))]} 1.
Proof.
  intros Hlt. unfold InlineSkipList_new. destruct (udiv _ _) as [scaled|]; [|done]. cbn [rbind].
  destruct (Z.ltb_spec 0 mh); cbn [andb]; [|done]. destruct (Z.eqb_spec (wrap 16 mh) (wrap 32 mh)) as [E|]; [|done].
  assert (Em : wrap 16 mh = mh) by (rewrite E; apply wrap_id; unfold word; lia). rewrite Em.
  assert (Hk : (1 <= Z.to_nat mh)%nat) by lia.
  destruct (_ && _); [|done]. destruct (0 <? scaled); [|done]. cbn [AllocateNode rbind nodes max_height_].
  rewrite insert_empty, null_loop_run by (cbn [length]; rewrite length_replicate; lia). cbn [rbind]. intros [= <- <-]. cbn [head_ kMaxHeight_].
  split; [done|]. do 3 f_equal. cbn [take app Nat.add]. rewrite drop_ge, app_nil_r; [done|]. cbn [length]. rewrite length_replicate. lia.
Qed.

Lemma new_inv mh bf this m : mh < 2 ^ 31 -> InlineSkipList_new mh bf = Ok (this, m) -> Inv this m /\ keys this m = [].
Proof.
  intros Hlt Hn. destruct (new_memory _ _ _ _ Hlt Hn) as [Hk Em].
  assert (Hl : forall i, (i < kMaxHeight_ this)%nat -> load (head_ this) i m = Ok None).
  { intros i Hi. rewrite Em. unfold load, slot_at. cbn [nodes]. rewrite lookup_singleton_eq. cbn [next_]. by rewrite lookup_replicate_2. }
  assert (Hlv : forall i, (i < kMaxHeight_ this)%nat -> level this m i = []).
  { intros i Hi. apply sorted_chain_level. split_and!; [by apply Hl|constructor|set_solver]. }
  split; [|unfold keys; by rewrite Hlv by lia]. split.
  - intros i Hi. rewrite Hlv by done. split_and!; [by apply Hl|constructor|set_solver].
  - intros i Hi. by rewrite !Hlv by lia.
  - rewrite Em. cbn [max_height_]. unfold kMaxPossibleHeight. lia.
  - intros i Hi. apply Hlv. lia.
Qed.

(** ** Allocation *)

Lemma AllocateNode_spec key h m :
  exists x m', AllocateNode key h m = Ok (x, m') /\ nodes m !! x = None /\ max_height_ m' = max_height_ m /\
    nodes m' !! x = Some (mkNode key (Stash h :: replicate (h - 1) Uninit)) /\
    (forall y, y <> x -> nodes m' !! y = nodes m !! y) /\ size (nodes m') = S (size (nodes m)).
Proof.
  unfold AllocateNode. eexists _, _. split; [done|]. cbn [nodes max_height_].
  assert (Hf : nodes m !! fresh (dom (nodes m)) = None) by (apply not_elem_of_dom, is_fresh).
  split_and!; [done|done|by rewrite lookup_insert_eq|intros y Hy; by rewrite lookup_insert_ne|by apply map_size_insert_None].
Qed.

Lemma extended this m m' x :
  Inv this m -> nodes m !! x = None -> max_height_ m' = max_height_ m -> (forall y, y <> x -> nodes m' !! y = nodes m !! y) ->
  Inv this m' /\ x <> head_ this /\ (forall i, (i < kMaxHeight_ this)%nat -> level this m' i = level this m i /\ x ∉ level this m i).
Proof.
  intros I Hx Hh Hy.
  assert (Hne : forall i y, (i < kMaxHeight_ this)%nat -> on_level this m i y -> y <> x).
  { intros i y Hi Ho ->. apply (on_alloc this m i x I Hi) in Ho. rewrite Hx in Ho. by destruct Ho. }
  assert (Hc : forall i, (i < kMaxHeight_ this)%nat -> sorted_chain this m' i (level this m i)).
  { intros i Hi. eapply sorted_chain_ext; [by apply inv_level| |].
    - intros y Hyl. unfold shape. by rewrite Hy by (apply (Hne i); [done|by right]).
    - intros y Hyl. unfold load, slot_at. by rewrite Hy by (by apply (Hne i)). }
  assert (Hl : forall i, (i < kMaxHeight_ this)%nat -> level this m' i = level this m i) by (intros; by apply sorted_chain_level, Hc).
  split_and!.
  - split; [intros i Hi; rewrite Hl by done; by apply Hc|intros i Hi; rewrite !Hl by lia; by apply inv_below|rewrite Hh; by apply inv_height|].
    intros i Hi. rewrite Hh in Hi. rewrite Hl by lia. by apply inv_above.
  - intros ->. apply (Hne 0%nat (head_ this)); [by eapply zero_level|by left|done].
  - intros i Hi. split; [auto|]. intros Hin. apply (Hne i x); [done|by right|done].
Qed.

Lemma fresh_extended this m m' x y key h :
  Inv this m -> nodes m !! x = None -> max_height_ m' = max_height_ m -> (forall y, y <> x -> nodes m' !! y = nodes m !! y) ->
  fresh_node this m y key h -> y <> x /\ fresh_node this m' y key h.
Proof.
  intros I Hx Hh Hy [(H1 & H2 & H3 & H4 & H5) Hc]. destruct (extended this m m' x I Hx Hh Hy) as (I' & _ & Hl).
  assert (Hne : y <> x) by (intros ->; unfold shape in H2; by rewrite Hx in H2). split; [done|].
  split; [split_and!|]; try done; try lia.
  - unfold shape. by rewrite Hy.
  - intros j Hj. rewrite (proj1 (Hl j Hj)). auto.
  - unfold slot_at. by rewrite Hy.
Qed.

Lemma AllocateKey_ok this key seed_ m :
  Inv this m -> exists x seed' m' h, AllocateKey this key seed_ m = Ok ((x, seed'), m') /\ Inv this m' /\ keys this m' = keys this m /\
    fresh_node this m' x key h /\ nodes m !! x = None /\ size (nodes m') = S (size (nodes m)) /\
    (forall y k h, fresh_node this m y k h -> y <> x /\ fresh_node this m' y k h).
Proof.
  intros I. destruct (RandomHeight_ok this seed_) as (h & seed' & Hr & Hh); [destruct (inv_height _ _ I); lia|].
  destruct (AllocateNode_spec key h m) as (x & m' & Ha & Hx & Hm & Hn & Hy & Hs).
  destruct (extended this m m' x I Hx Hm Hy) as (I' & Hxh & Hl).
  exists x, seed', m', h. unfold AllocateKey. rewrite Hr. cbn [rbind]. rewrite Ha. cbn [rbind]. split_and!; try done.
  - unfold keys. destruct (Hl 0%nat (zero_level _ _ I)) as [-> Hx0]. apply list_fmap_ext. intros i y Hi. apply list_elem_of_lookup_2 in Hi.
    apply shape_key. unfold shape. rewrite Hy; [done|]. by intros ->.
  - split; [split_and!|]; try done; try lia.
    + unfold shape. rewrite Hn. cbn [fmap option_fmap option_map node_key next_ length]. rewrite length_replicate. do 2 f_equal. lia.
    + intros j Hj. destruct (Hl j Hj) as [-> ?]. done.
    + unfold slot_at. by rewrite Hn.
  - intros y k h'. by apply fresh_extended.
Qed.

Lemma allocate_ok this ks seed_ m :
  Inv this m -> exists xs m', allocate_keys this ks seed_ m = Ok (xs, m') /\ Inv this m' /\ keys this m' = keys this m /\
    (forall y k h, fresh_node this m y k h -> y ∉ xs /\ fresh_node this m' y k h) /\ NoDup xs /\
    Forall2 (fun x k => exists h, fresh_node this m' x k h) xs ks /\ size (nodes m') = (size (nodes m) + length ks)%nat.
Proof.
  revert seed_ m. induction ks as [|k ks IH]; intros seed_ m I; cbn [allocate_keys].
  { exists [], m. split_and!; [done|done|done| |constructor|constructor|cbn; lia]. intros y k h Hy. split; [set_solver|done]. }
  destruct (AllocateKey_ok this k seed_ m I) as (x & seed' & m1 & h & Ha & I1 & Hk1 & Hf1 & Hn1 & Hs1 & Hold).
  destruct (IH seed' m1 I1) as (xs & m' & Hb & I' & Hk' & Hold' & Hnd & Hall & Hs').
  exists (x :: xs), m'. unfold bind. rewrite Ha. cbn [snd fst]. rewrite Hb. destruct (Hold' x k h Hf1) as [Hx Hf'].
  split_and!; try done.
  - congruence.
  - intros y k' h' Hy. destruct (Hold y k' h' Hy) as [Hne Hy1]. destruct (Hold' y k' h' Hy1) as [Hni Hy2]. split; [set_solver|done].
  - by constructor.
  - constructor; [eauto|done].
  - cbn. lia.
Qed.

End init.
