(* ===== verification/SkipRead.v ===== *)
(** * Reading the skip list

    The iterator of memtable/inlineskiplist.h, its random entries and its
    self-check, in a memory in which the levels are as they should be.  An
    iterator stands at a position of the sequence of level 0. *)

From Stdlib Require Import Sorting.Sorted.
From stdpp Require Import sorting.
From S2P Require Import Prelude Words Slice DbFormat SkipList SkipInv SkipLogic SkipFind SkipSplice SkipInsert.

(** ** Runs *)

Lemma run_pbind {A B} (p : prog A) (k : A -> prog B) m : run (pbind p k) m = bind (run p) (fun a => run (k a)) m.
Proof.
  revert m. induction p as [a|e|C a k' IH]; intros m; [done|done|]. cbn [pbind run]. unfold bind.
  destruct (perform a m) as [[b m']|e]; [|done]. apply IH.
Qed.

Lemma run_then {A B} (p : prog A) (k : A -> prog B) m a r : run p m = Ok (a, m) -> run (k a) m = r -> run (pbind p k) m = r.
Proof. intros H1 H2. rewrite run_pbind. unfold bind. by rewrite H1. Qed.

Lemma ex_run_then {A B} (p : prog A) (k : A -> prog B) m a (Q : B -> Prop) :
  run p m = Ok (a, m) -> (exists b, run (k a) m = Ok (b, m) /\ Q b) -> exists b, run (pbind p k) m = Ok (b, m) /\ Q b.
Proof. intros H1 (b & H2 & HQ). exists b. split; [by eapply run_then|done]. Qed.

Lemma run_do {B} (a : act B) b m : perform a m = Ok (b, m) -> run (do a) m = Ok (b, m).
Proof. unfold do. cbn [run]. by intros ->. Qed.

(** ** Counting in a sorted sequence *)

Section count.
Context {A : Type} (P : A -> Prop) `{!forall a, Decision (P a)}.

Lemma filter_prefix (l : list A) i a :
  (forall j k b c, (j < k)%nat -> l !! j = Some b -> l !! k = Some c -> P c -> P b) ->
  l !! i = Some a -> P a <-> (i < length (filter P l))%nat.
Proof.
  revert i. induction l as [|b l IH]; intros i Hm Hi; [done|].
  assert (Hm' : forall j k b c, (j < k)%nat -> l !! j = Some b -> l !! k = Some c -> P c -> P b).
  { intros j k b' c Hjk Hj Hk. apply (Hm (S j) (S k)); [lia|done..]. }
  destruct (decide (P b)) as [Hb|Hb].
  - rewrite filter_cons_True by done. cbn [length]. destruct i as [|i]; cbn in Hi; [injection Hi as <-; split; [lia|done]|].
    rewrite (IH i Hm' Hi). lia.
  - rewrite filter_cons_False by done. assert (Hn : forall k c, l !! k = Some c -> ~ P c).
    { intros k c Hk Hc. apply Hb. by apply (Hm 0%nat (S k) b c); [lia|..]. }
    assert (E : filter P l = []).
    { apply list_eq. intros k. rewrite lookup_nil. destruct (filter P l !! k) as [c|] eqn:Ec; [|done].
      apply list_elem_of_lookup_2, list_elem_of_filter in Ec as [Hc [k' Hk]%list_elem_of_lookup]. by destruct (Hn _ _ Hk). }
    rewrite E. cbn. split; [|lia]. destruct i as [|i]; cbn in Hi; [injection Hi as <-; done|by apply Hn in Hi].
Qed.

End count.

(** How many keys are below a key, and below or equal to it. *)
Section bounds.
Context {cmp : Comparator}.

Definition lower (ks : list (list Z)) (key : list Z) : nat := length (filter (fun k => ucmp k key = Lt) ks).
Definition upper (ks : list (list Z)) (key : list Z) : nat := length (filter (fun k => ucmp k key <> Gt) ks).

(** The entry before a position. *)
Definition prev_at {A} (l : list A) (i : nat) : option A := match i with O => None | S i => l !! i end.

End bounds.

Section read.
Context {cmp : Comparator} `{!CompareOk ucmp} (this : InlineSkipList) (fuel : nat) (m : memory).
Context (I : Inv this m) (Hf : enough this fuel m).
Implicit Types (x y z : loc) (i j : nat) (key : list Z).

Local Notation nodes0 := (level this m 0).
Local Notation ks := (keys this m).
Local Notation kMax := (kMaxHeight_ this).

Lemma zero_kMax : (0 < kMax)%nat.
Proof using I. by eapply zero_level. Qed.

Lemma keys_at i x : nodes0 !! i = Some x -> ks !! i = Some (key_of m x).
Proof. intros Hi. unfold keys. by rewrite list_lookup_fmap, Hi. Qed.

Lemma at_lt i j x y : (i < j)%nat -> nodes0 !! i = Some x -> nodes0 !! j = Some y -> klt m x y.
Proof using I.
  intros Hij Hi Hj. destruct (inv_level _ _ I 0 zero_kMax) as (_ & Hs & _).
  rewrite <- (take_drop_middle _ _ _ Hi) in Hs, Hj. apply StronglySorted_app_1_r, StronglySorted_inv in Hs as [_ H]. rewrite Forall_forall in H.
  apply H. rewrite lookup_app_r in Hj by (rewrite length_take; lia). pose proof (lookup_lt_Some _ _ _ Hi). rewrite length_take, Nat.min_l in Hj by lia.
  replace (j - i)%nat with (S (j - S i))%nat in Hj by lia. cbn in Hj. by eapply list_elem_of_lookup_2.
Qed.

Lemma keys_lt i j a b : (i < j)%nat -> ks !! i = Some a -> ks !! j = Some b -> ucmp a b = Lt.
Proof using I CompareOk0.
  intros Hij Ha Hb. unfold keys in Ha, Hb. rewrite list_lookup_fmap in Ha. rewrite list_lookup_fmap in Hb.
  destruct (nodes0 !! i) as [x|] eqn:Ei; [|done]. destruct (nodes0 !! j) as [y|] eqn:Ej; [|done]. injection Ha as <-. injection Hb as <-. by eapply at_lt.
Qed.

Lemma lower_spec i x key : nodes0 !! i = Some x -> ucmp (key_of m x) key = Lt <-> (i < lower ks key)%nat.
Proof using I CompareOk0.
  intros Hi%keys_at. unfold lower. rewrite <- (filter_prefix (fun k => ucmp k key = Lt) ks i (key_of m x)); [done| |done].
  intros j k b c Hjk Hb Hc Hk. eapply cmp_trans; [done|by eapply keys_lt|done].
Qed.

Lemma upper_spec i x key : nodes0 !! i = Some x -> ucmp (key_of m x) key <> Gt <-> (i < upper ks key)%nat.
Proof using I CompareOk0.
  intros Hi%keys_at. unfold upper. rewrite <- (filter_prefix (fun k => ucmp k key <> Gt) ks i (key_of m x)); [done| |done].
  intros j k b c Hjk Hb Hc Hk. by rewrite (cmp_lt_le ucmp b c key (keys_lt _ _ _ _ Hjk Hb Hc) Hk).
Qed.

Lemma bound_length key : (lower ks key <= length nodes0)%nat /\ (upper ks key <= length nodes0)%nat.
Proof. unfold lower, upper. rewrite <- (length_fmap (key_of m) nodes0). fold (keys this m). split; apply length_filter. Qed.

(** ** Searches *)

(** A run is one among no other threads. *)
Lemma read_run {A} (p : prog A) (Q : A -> Prop) :
  swp this (fun _ => False) true (SContains []) p (fun a _ m' => m' = m /\ Q a) None m -> exists a, run p m = Ok (a, m) /\ Q a.
Proof using I.
  intros H. destruct (swp_run _ _ _ _ _ _ _ _ I H) as (a & m' & g & Hr & _ & -> & HQ). eauto.
Qed.

Lemma first_at key p : first_geq this m key p -> p = nodes0 !! lower ks key.
Proof using I CompareOk0.
  intros Hp. destruct (nodes0 !! lower ks key) as [z|] eqn:Ez.
  - assert (Hz : ucmp (key_of m z) key <> Lt) by (intros E; apply (lower_spec (lower ks key) z key Ez) in E; lia).
    pose proof (list_elem_of_lookup_2 _ _ _ Ez) as Hin. destruct p as [y|]; [|by destruct Hz; apply Hp]. destruct Hp as (Hy & Hk & Hall).
    apply list_elem_of_lookup in Hy as [i Hi]. rewrite (lower_spec i y key Hi) in Hk. destruct (Hall z Hin) as [?|Hle]; [done|].
    destruct (decide (i = lower ks key)) as [->|Hne]; [congruence|]. destruct Hle. apply (cmp_gt_lt ucmp).
    by apply (at_lt (lower ks key) i); [lia|..].
  - destruct p as [y|]; [|done]. destruct Hp as ([i Hi]%list_elem_of_lookup & Hk & _). rewrite (lower_spec i y key Hi) in Hk.
    apply lookup_ge_None in Ez. pose proof (lookup_lt_Some _ _ _ Hi). lia.
Qed.

Lemma run_FindGreaterOrEqual key : run (FindGreaterOrEqual this fuel key) m = Ok (nodes0 !! lower ks key, m).
Proof using I CompareOk0 Hf.
  destruct (read_run (FindGreaterOrEqual this fuel key) (fun p => p = nodes0 !! lower ks key)) as (p & Hp & ->); [|done].
  apply swp_FindGreaterOrEqual with (eff := false); [done|done|done|]. intros p m1 m' [_ ->] _ [_ <-] Hp. split; [done|by apply first_at].
Qed.

(** The head counts as no entry. *)
Lemma not_head_at x i :
  on_level this m 0 x -> (forall j z, nodes0 !! j = Some z -> (upto this m z x <-> (j < i)%nat)) -> (i <= length nodes0)%nat ->
  not_head this x = prev_at nodes0 i.
Proof using I CompareOk0.
  intros Hx Hup Hi. unfold not_head. destruct (is_head this (Some x)) eqn:Eh.
  - apply is_head_true in Eh as ->. destruct i as [|i]; [done|]. destruct (lookup_lt_is_Some_2 nodes0 i) as [z Hz]; [lia|].
    destruct (proj2 (Hup i z Hz)) as [? _]; [lia|done].
  - apply is_head_false in Eh. destruct Hx as [?|[j Hj]%list_elem_of_lookup]; [done|].
    assert (Hji : (j < i)%nat) by (apply (Hup j x Hj); split; [done|by rewrite (cmp_refl ucmp)]). destruct i as [|i]; [lia|]. cbn.
    destruct (decide (j = i)) as [->|Hne]; [done|]. destruct (lookup_lt_is_Some_2 nodes0 i) as [z Hz]; [lia|].
    destruct (proj2 (Hup i z Hz)) as [_ Hle]; [lia|]. destruct Hle. apply (cmp_gt_lt ucmp). by apply (at_lt j i); [lia|..].
Qed.

Lemma run_FindLessThan key : exists x, run (FindLessThan this fuel key) m = Ok (x, m) /\ not_head this x = prev_at nodes0 (lower ks key).
Proof using I CompareOk0 Hf.
  apply read_run, swp_FindLessThan; [done|done|]. intros x m1 m' [_ ->] _ [_ <-] (Hon & Hb & Hl). split; [done|].
  apply not_head_at; [done| |apply bound_length]. intros j z Hz. rewrite <- (lower_spec j z key Hz). split; [|intros; by apply Hl; [eapply list_elem_of_lookup_2|]].
  intros Hup. by eapply upto_lt.
Qed.

Lemma run_FindLast : exists x, run (FindLast this fuel) m = Ok (x, m) /\ not_head this x = last nodes0.
Proof using I CompareOk0 Hf.
  apply read_run, swp_FindLast; [done|done|]. intros x m1 m' [_ ->] _ [_ <-] (Hon & Hl). split; [done|].
  rewrite (not_head_at x (length nodes0)); [|done| |done].
  - rewrite last_lookup. by destruct nodes0.
  - intros j z Hz. split; [intros _; by eapply lookup_lt_Some|]. intros _. apply Hl. by eapply list_elem_of_lookup_2.
Qed.

Lemma run_Contains key : run (Contains this fuel key) m = Ok (has ks key, m).
Proof using I CompareOk0 Hf.
  destruct (read_run (Contains this fuel key) (fun b => b = has ks key)) as (b & Hb & ->); [|done].
  apply swp_Contains with (eff := false); [done|done|done|]. intros b m1 m' [_ ->] _ [_ <-] Hb. by split.
Qed.

(** ** The iterator *)

Lemma at_alloc i x : nodes0 !! i = Some x -> is_Some (nodes m !! x) /\ x <> head_ this.
Proof using I CompareOk0.
  intros Hi%list_elem_of_lookup_2. split; [by eapply in_alloc; [|apply zero_kMax|]|by eapply in_not_head; [|apply zero_kMax|]].
Qed.

Lemma run_Key i x : nodes0 !! i = Some x -> run (do (Key x)) m = Ok (key_of m x, m).
Proof using I CompareOk0. intros Hi. destruct (at_alloc i x Hi) as [[nd Hn] _]. apply run_do. cbn. unfold key_of. by rewrite Hn. Qed.

Lemma load_at i x : nodes0 !! i = Some x -> load x 0 m = Ok (nodes0 !! S i).
Proof using I CompareOk0.
  intros Hi. destruct (inv_level _ _ I 0 zero_kMax) as (Hc & _). rewrite <- (take_drop_middle _ _ _ Hi) in Hc. apply chain_behind in Hc.
  replace (nodes0 !! S i) with (head (drop (S i) nodes0)) by (by rewrite head_lookup, lookup_drop, Nat.add_0_r).
  destruct (drop (S i) nodes0) as [|y l]; cbn in *; [done|apply Hc].
Qed.

Lemma load_head : load (head_ this) 0 m = Ok (nodes0 !! 0%nat).
Proof using I CompareOk0.
  destruct (inv_level _ _ I 0 zero_kMax) as (Hc & _). destruct nodes0 as [|y l]; cbn in *; [done|apply Hc].
Qed.

Lemma run_Iter_Next i x : nodes0 !! i = Some x -> run (Iter_Next (Some x)) m = Ok (nodes0 !! S i, m).
Proof using I CompareOk0.
  intros Hi. unfold Iter_Next, Iter_Valid. rewrite bool_decide_true by done. cbn [not_null pbind passert]. apply run_do. cbn [perform]. by rewrite (load_at i).
Qed.

Lemma lower_self i x : nodes0 !! i = Some x -> lower ks (key_of m x) = i.
Proof using I CompareOk0.
  intros Hi. pose proof (proj2 (lower_spec i x (key_of m x) Hi)) as H. rewrite (cmp_refl ucmp) in H.
  destruct (decide (lower ks (key_of m x) < i)%nat) as [Hlt|]; [|destruct (decide (i < lower ks (key_of m x))%nat); [by discriminate H|lia]].
  pose proof (lookup_lt_Some _ _ _ Hi). destruct (lookup_lt_is_Some_2 nodes0 (lower ks (key_of m x))) as [z Hz]; [lia|].
  pose proof (at_lt _ _ _ _ Hlt Hz Hi) as Hzx. apply (lower_spec _ z _ Hz) in Hzx. lia.
Qed.

Lemma run_Iter_Prev i x : nodes0 !! i = Some x -> run (Iter_Prev this fuel (Some x)) m = Ok (prev_at nodes0 i, m).
Proof using I CompareOk0 Hf.
  intros Hi. unfold Iter_Prev, Iter_Valid. rewrite bool_decide_true by done. cbn [not_null pbind passert]. eapply run_then; [by eapply run_Key|].
  destruct (run_FindLessThan (key_of m x)) as (y & Hy & E). eapply run_then; [done|]. cbn. unfold ret. by rewrite E, (lower_self i).
Qed.

Lemma run_Iter_SeekToLast : run (Iter_SeekToLast this fuel) m = Ok (last nodes0, m).
Proof using I CompareOk0 Hf. destruct run_FindLast as (x & Hx & E). eapply run_then; [done|]. cbn. unfold ret. by rewrite E. Qed.

Lemma run_back_stop rounds target i :
  (0 < rounds)%nat -> (i <= upper ks target)%nat -> run (retreat_loop this fuel rounds target (prev_at nodes0 i)) m = Ok (prev_at nodes0 i, m).
Proof using I CompareOk0.
  intros Hr Hi. destruct rounds as [|rounds]; [lia|]. pose proof (bound_length target) as [_ Hu]. destruct i as [|i]; cbn [prev_at]; [done|].
  destruct (lookup_lt_is_Some_2 nodes0 i) as [x Hx]; [lia|]. rewrite Hx. cbn [retreat_loop]. unfold Iter_Valid, Iter_key, Iter_Valid.
  rewrite !bool_decide_true by done. cbn [passert pbind not_null]. eapply run_then; [eapply run_then; [by eapply run_Key|done]|].
  assert (Hk : ucmp (key_of m x) target <> Gt) by (apply (upper_spec i x target Hx); lia).
  rewrite (cmp_anti ucmp (key_of m x) target). by destruct (ucmp (key_of m x) target).
Qed.

Lemma run_back_step rounds target i x :
  (1 < rounds)%nat -> nodes0 !! i = Some x -> (upper ks target = i)%nat -> run (retreat_loop this fuel rounds target (Some x)) m = Ok (prev_at nodes0 i, m).
Proof using I CompareOk0 Hf.
  intros Hr Hx Hu. destruct rounds as [|rounds]; [lia|]. cbn [retreat_loop]. unfold Iter_Valid, Iter_key, Iter_Valid. rewrite !bool_decide_true by done.
  cbn [passert pbind not_null]. eapply run_then; [eapply run_then; [by eapply run_Key|done]|].
  assert (Hk : ucmp (key_of m x) target = Gt).
  { pose proof (proj1 (upper_spec i x target Hx)) as H. destruct (ucmp (key_of m x) target); [|..|done]; (assert (i < i)%nat by (rewrite <- Hu at 2; by apply H); lia). }
  rewrite (cmp_anti ucmp (key_of m x) target), Hk. cbn [CompOpp is_lt]. eapply run_then; [by eapply run_Iter_Prev|]. apply run_back_stop; lia.
Qed.

(** At most one key is equal to the target. *)
Lemma upper_cases target :
  upper ks target = lower ks target \/
  (upper ks target = S (lower ks target) /\ is_Some (nodes0 !! lower ks target)).
Proof using I CompareOk0.
  destruct (bound_length target) as [Hl Hu]. set (c := lower ks target) in *.
  assert (Hcu : (c <= upper ks target)%nat).
  { destruct (decide (upper ks target < c)%nat) as [Hlt|]; [|lia]. destruct (lookup_lt_is_Some_2 nodes0 (upper ks target)) as [z Hz]; [lia|].
    assert (E : ucmp (key_of m z) target = Lt) by (apply (lower_spec _ z target Hz); done).
    assert (upper ks target < upper ks target)%nat by (apply (upper_spec _ z target Hz); by rewrite E). lia. }
  destruct (decide (upper ks target = c)) as [|Hne]; [by left|right]. split; [|apply lookup_lt_is_Some_2; lia].
  destruct (decide (S c < upper ks target)%nat) as [Hlt|]; [|lia].
  destruct (lookup_lt_is_Some_2 nodes0 c) as [x Hx]; [lia|]. destruct (lookup_lt_is_Some_2 nodes0 (S c)) as [y Hy]; [lia|].
  assert (Hle : ucmp (key_of m y) target <> Gt) by by apply (upper_spec _ y target Hy).
  assert (c < c)%nat by (apply (lower_spec c x target Hx), (cmp_lt_le ucmp _ (key_of m y)); [by apply (at_lt c (S c)); [lia|..]|done]). lia.
Qed.

Lemma run_Iter_SeekForPrev target : run (Iter_SeekForPrev this fuel target) m = Ok (prev_at nodes0 (upper ks target), m).
Proof using I CompareOk0 Hf.
  assert (Hr : (1 < fuel)%nat) by (pose proof zero_kMax; unfold enough in Hf; lia).
  unfold Iter_SeekForPrev, Iter_Seek. eapply run_then; [apply run_FindGreaterOrEqual|]. destruct (bound_length target) as [Hl Hu].
  destruct (nodes0 !! lower ks target) as [x|] eqn:Ex.
  - unfold Iter_Valid at 1. rewrite bool_decide_true by done. cbn [pbind].
    destruct (upper_cases target) as [E|[E _]]; [by rewrite E; apply run_back_step|].
    replace (Some x) with (prev_at nodes0 (upper ks target)) by (by rewrite E). apply run_back_stop; lia.
  - unfold Iter_Valid at 1. rewrite bool_decide_false by (intros H; by apply H). eapply run_then; [apply run_Iter_SeekToLast|].
    apply lookup_ge_None in Ex. destruct (upper_cases target) as [E|[E [x Hx]]]; [|apply lookup_lt_Some in Hx; lia].
    assert (En : last nodes0 = prev_at nodes0 (upper ks target)).
    { rewrite last_lookup. replace (upper ks target) with (length nodes0) by lia. by destruct nodes0. }
    rewrite En. apply run_back_stop; lia.
Qed.

(** ** The self-check *)

(** [p] is the last node of a level that is not behind [x]. *)
Definition caught_up x l p : Prop :=
  on_level this m l p /\ (p = head_ this \/ upto this m p x) /\ forall z, z ∈ level this m l -> upto this m z p \/ before this m x (key_of m z).

(** The nodes the check has reached on the levels from [lo] to below [hi]. *)
Definition reached x (lo hi : nat) (a : list (option (option loc))) : Prop :=
  forall l, (lo <= l < hi)%nat -> exists p, a !! l = Some (Some (Some p)) /\ caught_up x l p.

Lemma upto_trans z p x : upto this m z p -> p = head_ this \/ upto this m p x -> upto this m z x.
Proof using CompareOk0.
  intros [Hp Hz] [?|[Hx Hpx]]; [done|]. split; [done|]. destruct (ucmp (key_of m z) (key_of m p)) eqn:E; [|by rewrite (cmp_lt_le ucmp _ _ _ E Hpx)|done].
  by rewrite (cmp_eq ucmp _ _ (key_of m x) E).
Qed.

Lemma upto_before z x : upto this m z x -> before this m x (key_of m z) -> False.
Proof using CompareOk0. intros Hu Hb. pose proof (upto_lt _ _ _ _ _ Hu Hb) as E. by rewrite (cmp_refl ucmp) in E. Qed.

Lemma upto_next p x y : p = head_ this \/ upto this m p x -> before this m x (key_of m y) -> y <> head_ this -> p = head_ this \/ upto this m p y.
Proof using CompareOk0.
  intros [->|Hp] Hb Hy; [by left|right]. split; [done|]. by rewrite (upto_lt _ _ _ _ _ Hp Hb).
Qed.

(** A level without the next node, and all levels above it. *)
Lemma caught_up_skip x y l p l' p' :
  (l <= l' < kMax)%nat -> before this m x (key_of m y) -> y <> head_ this -> (p = head_ this \/ upto this m p x) ->
  (forall z, z ∈ level this m l -> upto this m z p \/ klt m y z) -> caught_up x l' p' -> caught_up y l' p'.
Proof using I CompareOk0.
  intros Hl Hb Hy Hp Hz (H1 & H2 & H3). split_and!; [done|by eapply upto_next|]. intros z Hz'. destruct (H3 z Hz') as [?|Hxz]; [by left|right; right].
  destruct (Hz z) as [Hu|?]; [apply (in_sub this m l'); [done|lia|lia|done]| |done].
  destruct (upto_before z x); [by eapply upto_trans|done].
Qed.

Lemma caught_up_step x y l p :
  (l < kMax)%nat -> succ this m 0 x (Some y) -> caught_up x l p -> exists n, load p l m = Ok n /\
    match n with
    | None => forall z, z ∈ level this m l -> upto this m z p \/ klt m y z
    | Some w => w ∈ level this m l /\ match ucmp (key_of m y) (key_of m w) with
                | Eq => w = y /\ caught_up y l y
                | Lt => forall z, z ∈ level this m l -> upto this m z p \/ klt m y z
                | Gt => False
                end
    end.
Proof using I CompareOk0.
  intros Hl (Hy & Hxy & Hs0) (H1 & H2 & H3). destruct (load_succ this m l p I Hl H1) as (n & Hn & Hs). exists n. split; [done|].
  assert (Hyh : y <> head_ this) by (apply (in_not_head this m 0); [done|apply zero_kMax|done]).
  destruct n as [w|]; cbn in Hs; [|intros z Hz; left; by apply Hs]. destruct Hs as (Hw & Hpw & Hs). split; [done|].
  assert (Hw0 : w ∈ nodes0) by by eapply level_sub.
  assert (Hxw : before this m x (key_of m w)) by (destruct (H3 w Hw) as [Hu|]; [by destruct (upto_before w p)|done]).
  destruct (Hs0 w Hw0) as [Hu|Hyw]; [by destruct (upto_before w x)|]. destruct (ucmp (key_of m y) (key_of m w)) eqn:E; [| |done].
  - assert (w = y) as -> by (symmetry; by apply (level_inj this m 0); [|apply zero_kMax|..]). split; [done|].
    split_and!; [by right|right; split; [done|by rewrite (cmp_refl ucmp)]|]. intros z Hz. destruct (Hs0 z) as [Hu|Hyz]; [by eapply level_sub| |].
    + left. split; [done|]. by rewrite (upto_lt _ _ _ _ _ Hu Hxy).
    + destruct (ucmp (key_of m y) (key_of m z)) eqn:Ez; [left|by right; right|done]. split; [done|].
      by rewrite (cmp_anti ucmp (key_of m y)), Ez.
  - intros z Hz. destruct (Hs z Hz) as [?|Hwz]; [by left|right]. by eapply cmp_lt_le.
Qed.

Lemma read_at_run (a : list (option (option loc))) i p : a !! i = Some (Some p) -> run (read_at a i) m = Ok (p, m).
Proof. unfold read_at. by intros ->. Qed.

Lemma caught_key l x : (l < kMax)%nat -> x ∈ level this m l -> run (do (Key x)) m = Ok (key_of m x, m).
Proof using I CompareOk0.
  intros Hl Hx. destruct (in_alloc this m l x I Hl Hx) as [nd Hn]. apply run_do. cbn. unfold key_of. by rewrite Hn.
Qed.

(** The levels from [i] on follow the step from [x] to [y]. *)
Lemma run_follow n h i x y a :
  (h <= kMax)%nat -> (h <= length a)%nat -> (1 <= i)%nat -> (h - i <= n)%nat -> succ this m 0 x (Some y) -> a !! 0%nat = Some (Some (Some y)) ->
  reached y 0 i a -> reached x i h a ->
  exists a', run (follow_loop n h i a) m = Ok (a', m) /\ length a' = length a /\ a' !! 0%nat = Some (Some (Some y)) /\ reached y 0 h a'.
Proof using I CompareOk0.
  intros Hh Ha. revert i a Ha. induction n as [|n IH]; intros i a Ha Hi Hn Hs H0 Hlo Hhi; cbn [follow_loop].
  { exists a. split_and!; [done|done|done|]. intros l Hl. apply Hlo. lia. }
  destruct (Nat.ltb_spec i h) as [Hlt|]; [|exists a; split_and!; [done..|]; intros l Hl; apply Hlo; lia].
  destruct (Hhi i) as (p & Hp & Hc); [lia|]. destruct (caught_up_step x y i p ltac:(lia) Hs Hc) as (n' & Hld & Hn').
  assert (Hstay : (forall z, z ∈ level this m i -> upto this m z p \/ klt m y z) -> reached y 0 h a).
  { intros Hz l Hl. destruct (decide (l < i)%nat); [apply Hlo; lia|]. destruct (Hhi l) as (q & Hq & Hcq); [lia|]. exists q. split; [done|].
    destruct Hs as (Hy & Hxy & _). apply (caught_up_skip x y i p); [lia|done|apply (in_not_head this m 0); [done|apply zero_kMax|done]|apply Hc|done|done]. }
  eapply ex_run_then; [by apply read_at_run|]. cbn [not_null pbind]. eapply ex_run_then; [apply run_do; cbn; by rewrite Hld|].
  destruct n' as [w|]; [|exists a; split_and!; auto]. destruct Hn' as [Hw Hcmp]. assert (Hy : y ∈ nodes0) by apply Hs.
  eapply ex_run_then; [by apply read_at_run|]. cbn [not_null pbind]. eapply ex_run_then; [by apply (caught_key 0); [apply zero_kMax|]|].
  eapply ex_run_then; [by apply (caught_key i); [lia|]|]. destruct (ucmp (key_of m y) (key_of m w)); [| |done].
  - destruct Hcmp as [-> Hcy]. rewrite !bool_decide_true by done. cbn [passert pbind]. unfold put. destruct (Nat.ltb_spec i (length a)); [|lia]. cbn [pbind].
    destruct (IH (i + 1)%nat (<[i := Some (Some y)]> a)) as (a' & Hr & Hl' & H0' & Hr').
    + by rewrite length_insert.
    + lia.
    + lia.
    + done.
    + by rewrite list_lookup_insert_ne by lia.
    + intros l Hl. destruct (decide (l = i)) as [->|]; [exists y; split; [by apply list_lookup_insert_eq|done]|].
      rewrite list_lookup_insert_ne by done. apply Hlo. lia.
    + intros l Hl. rewrite list_lookup_insert_ne by lia. apply Hhi. lia.
    + exists a'. rewrite length_insert in Hl'. by split_and!.
  - rewrite bool_decide_true by done. cbn [passert pbind]. rewrite bool_decide_false by done. exists a. split_and!; auto.
Qed.

(** The node before a position, or the head. *)
Definition node_before i : loc := default (head_ this) (prev_at nodes0 i).

Lemma load_before i : (i <= length nodes0)%nat -> load (node_before i) 0 m = Ok (nodes0 !! i) /\ on_level this m 0 (node_before i).
Proof using I CompareOk0.
  intros Hi. destruct i as [|i]; cbn; [split; [apply load_head|by left]|]. unfold node_before. cbn.
  destruct (lookup_lt_is_Some_2 nodes0 i) as [x Hx]; [lia|]. rewrite Hx. cbn. split; [by apply load_at|right]. by eapply list_elem_of_lookup_2.
Qed.

Lemma succ_before i : (i <= length nodes0)%nat -> succ this m 0 (node_before i) (nodes0 !! i).
Proof using I CompareOk0.
  intros Hi. destruct (load_before i Hi) as [Hl Ho]. destruct (load_succ this m 0 _ I zero_kMax Ho) as (p & Hp & Hs). rewrite Hl in Hp. by injection Hp as <-.
Qed.

Lemma run_check_order i y :
  (i <= length nodes0)%nat -> nodes0 !! i = Some y ->
  run (if is_head this (Some (node_before i)) then Ret tt else
       pbind (do (Key (node_before i))) (fun k => pbind (do (Key y)) (fun k' => passert (is_lt (ucmp k k'))))) m = Ok (tt, m).
Proof using I CompareOk0.
  intros Hi Hy. destruct (is_head this (Some (node_before i))) eqn:Eh; [done|]. apply is_head_false in Eh.
  destruct (load_before i Hi) as [_ [?|Hx]]; [done|]. eapply run_then; [by apply (caught_key 0); [apply zero_kMax|]|].
  eapply run_then; [by eapply run_Key|]. pose proof (succ_before i Hi) as Hs. rewrite Hy in Hs. destruct Hs as (_ & [?|Hs] & _); [done|].
  by rewrite Hs.
Qed.

Lemma run_validate_loop n h i a :
  (1 <= h <= kMax)%nat -> (h <= length a)%nat -> (i <= length nodes0)%nat -> (length nodes0 - i < n)%nat ->
  a !! 0%nat = Some (Some (Some (node_before i))) -> reached (node_before i) 0 h a ->
  exists a', run (validate_loop this n h a) m = Ok (a', m) /\ reached (node_before (length nodes0)) 0 h a'.
Proof using I CompareOk0.
  intros Hh. revert i a. induction n as [|n IH]; intros i a Ha Hi Hn H0 Hr; [lia|]. cbn [validate_loop].
  eapply ex_run_then; [by apply read_at_run|]. eapply ex_run_then; [apply run_do; cbn; by rewrite (proj1 (load_before i Hi))|].
  destruct (nodes0 !! i) as [y|] eqn:Ey; [|exists a; split; [done|]; apply lookup_ge_None in Ey; by replace (length nodes0) with i by lia].
  pose proof (lookup_lt_Some _ _ _ Ey) as Hlt. eapply ex_run_then; [by apply run_check_order|].
  unfold put. destruct (Nat.ltb_spec 0 (length a)); [|lia]. cbn [pbind].
  assert (Ey' : node_before (S i) = y) by (unfold node_before; cbn; by rewrite Ey).
  pose proof (succ_before i Hi) as Hs. rewrite Ey in Hs.
  destruct (run_follow h h 1 (node_before i) y (<[0%nat := Some (Some y)]> a)) as (a1 & Hr1 & Hl1 & H01 & Hre1).
  - lia.
  - rewrite length_insert. lia.
  - lia.
  - lia.
  - done.
  - by apply list_lookup_insert_eq.
  - intros l Hl. assert (l = 0%nat) as -> by lia. exists y. split; [by apply list_lookup_insert_eq|].
    destruct (caught_up_step (node_before i) y 0 (node_before i)) as (w & Hw & Hc); [apply zero_kMax|done|by destruct (Hr 0%nat) as (p & Hp & Hc); [lia|]; rewrite H0 in Hp; injection Hp as <-|].
    rewrite (proj1 (load_before i Hi)), Ey in Hw. injection Hw as <-. destruct Hc as [_ Hc]. rewrite (cmp_refl ucmp) in Hc. apply Hc.
  - intros l Hl. rewrite list_lookup_insert_ne by lia. apply Hr. lia.
  - eapply ex_run_then; [done|]. apply (IH (S i)); [rewrite Hl1, length_insert; lia|lia|lia|by rewrite Ey'|by rewrite Ey'].
Qed.

Lemma run_heads_loop n i a :
  (i + n <= length a)%nat -> (forall l, (l < i)%nat -> a !! l = Some (Some (Some (head_ this)))) ->
  exists a', run (heads_loop this n i a) m = Ok (a', m) /\ length a' = length a /\ forall l, (l < i + n)%nat -> a' !! l = Some (Some (Some (head_ this))).
Proof.
  revert i a. induction n as [|n IH]; intros i a Hi Ha; cbn [heads_loop]; [exists a; split_and!; [done|done|]; intros l Hl; apply Ha; lia|].
  unfold put. destruct (Nat.ltb_spec i (length a)); [|lia]. cbn [pbind].
  destruct (IH (i + 1)%nat (<[i := Some (Some (head_ this))]> a)) as (a' & Hr & Hl & Ha').
  - rewrite length_insert. lia.
  - intros l Hl. destruct (decide (l = i)) as [->|]; [by apply list_lookup_insert_eq|]. rewrite list_lookup_insert_ne by done. apply Ha. lia.
  - exists a'. rewrite length_insert in Hl. split_and!; [done|done|]. intros l Hl'. apply Ha'. lia.
Qed.

Lemma run_ends_loop n i h a :
  (h <= kMax)%nat -> (i + n <= h)%nat -> reached (node_before (length nodes0)) 0 h a -> run (ends_loop n i a) m = Ok (tt, m).
Proof using I CompareOk0.
  intros Hh. revert i. induction n as [|n IH]; intros i Hi Hr; cbn [ends_loop]; [done|].
  destruct (Hr i) as (p & Hp & (H1 & H2 & H3)); [lia|]. eapply run_then; [by apply read_at_run|].
  destruct (load_succ this m i p I ltac:(lia) H1) as (q & Hq & Hs). eapply run_then; [apply run_do; cbn; by rewrite Hq|].
  assert (Hn : q = None).
  { destruct q as [w|]; [|done]. destruct Hs as (Hw & Hpw & _). destruct (H3 w Hw) as [Hu|Hb]; [by destruct (upto_before w p)|].
    pose proof (succ_before (length nodes0) ltac:(lia)) as Hs. rewrite (proj2 (lookup_ge_None nodes0 (length nodes0))) in Hs by lia.
    destruct (upto_before w (node_before (length nodes0))); [|done]. apply Hs. apply (level_sub this m i); [done|lia|done]. }
  rewrite bool_decide_true by done. cbn [passert pbind]. apply IH; [lia|done].
Qed.

Lemma run_TEST_Validate : run (TEST_Validate this fuel) m = Ok (tt, m).
Proof using I CompareOk0 Hf.
  destruct (inv_height _ _ I) as [Hh Hp]. unfold TEST_Validate. eapply run_then; [by apply run_do|].
  destruct (Nat.ltb_spec 0 (max_height_ m)); [|lia]. cbn [passert pbind].
  destruct (run_heads_loop (max_height_ m) 0 (replicate kMaxPossibleHeight None)) as (a & Ha & Hl & Hat); [by rewrite length_replicate|lia|].
  rewrite length_replicate in Hl. eapply run_then; [done|].
  destruct (run_validate_loop fuel (max_height_ m) 0 a) as (a' & Ha' & Hr); [lia|lia|lia| |apply Hat; lia| |].
  - pose proof (level_size this m 0 I zero_kMax). unfold enough in Hf. lia.
  - intros l Hl'. exists (head_ this). split; [apply Hat; lia|]. split_and!; [by left|by left|]. intros z Hz. right. by left.
  - eapply run_then; [done|]. eapply run_ends_loop; [|  |done]; lia.
Qed.

(** ** Random entries *)

(** [x] on a level and [limit] behind it. *)
Definition bounded l x (limit : option loc) : Prop :=
  on_level this m l x /\ forall b, limit = Some b -> b ∈ level this m l /\ before this m x (key_of m b).

Definition limit_after (xs : list loc) i (limit : option loc) : option loc := match xs !! S i with Some y => Some y | None => limit end.

Lemma bounded_ne l x limit : (l < kMax)%nat -> bounded l x limit -> Some x <> limit.
Proof using I CompareOk0.
  intros Hl [Hx Hb] E. destruct (Hb x) as [Hin [Hh|Hk]]; [done| |by rewrite (cmp_refl ucmp) in Hk]. by apply (in_not_head this m l x I Hl) in Hin.
Qed.

(** The successor of a bounded node is its limit or before it. *)
Lemma bounded_next l x limit n : (l < kMax)%nat -> bounded l x limit -> succ this m l x n -> n <> limit -> exists y, n = Some y /\ bounded l y limit.
Proof using I CompareOk0.
  intros Hl [Hx Hb] Hs Hne. destruct n as [y|].
  - destruct Hs as (Hy & _ & Hs). exists y. split; [done|]. split; [by right|]. intros b ->. destruct (Hb b eq_refl) as [Hin Hxb]. split; [done|].
    destruct (Hs b Hin) as [Hu|Hle]; [by destruct (upto_before b x)|]. right.
    destruct (ucmp (key_of m y) (key_of m b)) eqn:E; [|done|done]. destruct Hne. f_equal. by apply (level_inj this m l).
  - destruct limit as [b|]; [|done]. destruct (Hb b eq_refl) as [Hin Hxb]. destruct (upto_before b x); [by apply Hs|done].
Qed.

Lemma run_scan n l x limit acc :
  (l < kMax)%nat -> bounded l x limit -> (rank this m x < n)%nat ->
  exists xs, run (scan_loop n l (Some x) limit acc) m = Ok (acc ++ x :: xs, m) /\
    forall i y, (x :: xs) !! i = Some y -> bounded l y (limit_after (x :: xs) i limit).
Proof using I CompareOk0.
  intros Hl. revert x acc. induction n as [|n IH]; intros x acc Hb Hr; [lia|]. cbn [scan_loop]. rewrite bool_decide_false by by eapply bounded_ne.
  cbn [not_null pbind]. destruct (load_succ this m l x I Hl (proj1 Hb)) as (p & Hp & Hs).
  destruct (decide (p = limit)) as [->|Hne].
  - exists []. split.
    + eapply run_then; [apply run_do; cbn; by rewrite Hp|]. destruct n; cbn [scan_loop]; by rewrite bool_decide_true.
    + intros [|i] y Hy; [|done]. injection Hy as <-. done.
  - destruct (bounded_next l x limit p Hl Hb Hs Hne) as (y & -> & Hby).
    assert (Hin : y ∈ level this m l) by apply Hs.
    destruct (IH y (acc ++ [x]) Hby) as (xs & Hrun & Hall).
    { assert (rank this m y < rank this m x)%nat; [|lia]. apply rank_behind; [apply Hs|by eapply in_not_head|by eapply in_alloc]. }
    exists (y :: xs). split.
    + eapply run_then; [apply run_do; cbn; by rewrite Hp|]. by rewrite Hrun, <- app_assoc.
    + intros [|i] z Hz; [|by apply (Hall i)]. injection Hz as <-. split; [apply Hb|]. intros b [= <-]. split; [done|apply Hs].
Qed.

Lemma run_random_loop n x limit seed_ :
  (n <= kMax)%nat -> on_level this m 0 x -> (forall l, S l = n -> bounded l x limit) ->
  exists r, run (random_loop fuel n x limit seed_) m = Ok (r, m) /\ on_level this m 0 r.1.
Proof using I CompareOk0 Hf.
  revert x limit seed_. induction n as [|l IH]; intros x limit seed_ Hn Hx Hb; cbn [random_loop]; [by exists (x, seed_)|].
  specialize (Hb l eq_refl). destruct (run_scan fuel l x limit [] ltac:(lia) Hb) as (xs & Hr & Hall).
  { pose proof (rank_bound this m x). unfold enough in Hf. lia. }
  eapply ex_run_then; [done|]. cbn [app]. destruct (Nat.eqb_spec (length (x :: xs)) 0) as [|_]; [done|].
  set (idx := Z.to_nat (Random_Next seed_ mod Z.of_nat (length (x :: xs)))).
  destruct (lookup_lt_is_Some_2 (x :: xs) idx) as [y Hy].
  { pose proof (Z.mod_pos_bound (Random_Next seed_) (Z.of_nat (length (x :: xs))) ltac:(cbn [length]; lia)). unfold idx. lia. }
  rewrite Hy. specialize (Hall idx y Hy). apply IH; [lia|apply (on_sub this m l); [done|lia|lia|apply Hall]|].
  intros l' <-. split; [apply (on_sub this m (S l')); [done|lia|lia|apply Hall]|]. intros b E. destruct (proj2 Hall b E) as [Hin Hk].
  split; [|done]. apply (in_sub this m (S l')); [done|lia|lia|done].
Qed.

Lemma run_FindRandomEntry seed_ :
  exists r, run (FindRandomEntry this fuel seed_) m = Ok (r, m) /\ match r.1 with Some x => x ∈ nodes0 | None => nodes0 = [] end.
Proof using I CompareOk0 Hf.
  destruct (inv_height _ _ I) as [Hh _]. eapply ex_run_then; [by apply run_do|].
  destruct (run_random_loop (max_height_ m) (head_ this) None seed_) as ([x seed'] & Hr & Ho); [lia|by left|intros l _; split; [by left|done]|].
  eapply ex_run_then; [done|]. cbn [fst snd] in *. destruct (is_head this (Some x)) eqn:Eh.
  - eapply ex_run_then; [apply run_do; cbn; by rewrite load_head|]. eexists. split; [done|]. cbn [fst].
    destruct nodes0 as [|y l] eqn:E; [done|]. cbn. set_solver.
  - eexists. split; [done|]. cbn [fst]. apply is_head_false in Eh. by destruct Ho.
Qed.

(** ** Estimates *)

Lemma run_count_visit key l x {A} (k : option loc -> bool -> prog A) (Q : A -> Prop) :
  (l < kMax)%nat -> on_level this m l x -> before this m x key ->
  (forall p, load x l m = Ok p -> succ this m l x p -> exists b, run (k p (match p with None => true | Some y => bool_decide (ucmp (key_of m y) key <> Lt) end)) m = Ok (b, m) /\ Q b) ->
  exists b, run (pbind (if is_head this (Some x) then Ret tt else pbind (do (Key x)) (fun k => passert (bool_decide (ucmp k key = Lt)))) (fun _ =>
       pbind (do (Next x l)) (fun next => pbind (prefetch next l) (fun _ =>
       pbind (match next with None => Ret true | Some y => pbind (do (Key y)) (fun k => Ret (bool_decide (ucmp k key <> Lt))) end) (fun bigger => k next bigger))))) m = Ok (b, m) /\ Q b.
Proof using I CompareOk0.
  intros Hl Hx Hb HQ. destruct (load_succ this m l x I Hl Hx) as (p & Hp & Hs). eapply ex_run_then.
  { destruct (is_head this (Some x)) eqn:Eh; [done|]. apply is_head_false in Eh. destruct Hx as [?|Hx]; [done|]. destruct Hb as [?|Hb]; [done|].
    eapply run_then; [by apply (caught_key l)|]. by rewrite bool_decide_true. }
  eapply ex_run_then; [apply run_do; cbn; by rewrite Hp|]. specialize (HQ p Hp Hs). destruct p as [y|]; [|done].
  assert (Hy : y ∈ level this m l) by apply Hs. destruct (load_succ this m l y I Hl (or_intror Hy)) as (q & Hq & _).
  eapply ex_run_then; [eapply run_then; [apply run_do; cbn; by rewrite Hq|done]|]. eapply ex_run_then; [eapply run_then; [by apply (caught_key l)|done]|]. done.
Qed.

Lemma run_count_loop n key x l c :
  (l < kMax)%nat -> on_level this m l x -> before this m x key -> (rank this m x + l < n)%nat ->
  exists c', run (count_loop this n key x l c) m = Ok (c', m) /\ True.
Proof using I CompareOk0.
  revert x l c. induction n as [|n IH]; intros x l c Hl Hx Hb Hr; [lia|]. cbn [count_loop]. apply run_count_visit; [done..|]. intros p Hp Hs.
  destruct (match p with None => true | Some y => bool_decide (ucmp (key_of m y) key <> Lt) end) eqn:E.
  - destruct l as [|l]; [by eauto|]. apply IH; [lia|by apply (on_sub this m (S l)); [|lia..|]|done|lia].
  - destruct p as [y|]; [|done]. cbn [not_null pbind]. apply bool_decide_eq_false, dec_stable in E. destruct Hs as (Hy & Hxy & _).
    apply IH; [done|by right|by right|]. assert (rank this m y < rank this m x)%nat; [|lia]. apply rank_behind; [done|by eapply in_not_head|by eapply in_alloc].
Qed.

(** On level 0 the count is exact. *)
Lemma run_count_zero n key i c :
  (i <= lower ks key)%nat -> (length nodes0 - i < n)%nat -> word 64 c ->
  exists c', run (count_loop this n key (node_before i) 0 c) m = Ok (c', m) /\ c' = wrap 64 (c + Z.of_nat (lower ks key - i)).
Proof using I CompareOk0.
  revert i c. induction n as [|n IH]; intros i c Hi Hn Hc; [lia|]. cbn [count_loop]. destruct (bound_length key) as [Hlen _].
  apply run_count_visit; [apply zero_kMax|apply load_before; lia| |].
  { destruct i as [|i]; [by left|]. unfold node_before. cbn. destruct (lookup_lt_is_Some_2 nodes0 i) as [x Hx]; [lia|]. rewrite Hx. right. cbn. apply (lower_spec i x key Hx). lia. }
  intros p Hp _. rewrite (proj1 (load_before i ltac:(lia))) in Hp. injection Hp as <-. destruct (nodes0 !! i) as [y|] eqn:Ey.
  - pose proof (lower_spec i y key Ey) as Hlt. case_bool_decide as E.
    + assert (lower ks key = i) as -> by (destruct (decide (i < lower ks key)%nat) as [H|]; [by destruct E; apply Hlt|lia]).
      exists c. split; [done|]. rewrite Nat.sub_diag, Z.add_0_r. symmetry. by apply wrap_id.
    + apply Hlt in E. cbn [not_null pbind]. assert (Ey' : node_before (S i) = y) by (unfold node_before; cbn; by rewrite Ey). rewrite <- Ey'.
      pose proof (lookup_lt_Some _ _ _ Ey). destruct (IH (S i) (wadd 64 c 1)) as (c' & Hr & ->); [lia|lia|by apply wrap_word|].
      eexists. split; [done|]. unfold wadd, wrap. rewrite Zplus_mod_idemp_l. f_equal. lia.
  - apply lookup_ge_None in Ey. assert (lower ks key = i) as -> by lia. exists c. split; [done|]. rewrite Nat.sub_diag, Z.add_0_r. symmetry. by apply wrap_id.
Qed.

Lemma run_EstimateCount key :
  exists c, run (EstimateCount this fuel key) m = Ok (c, m) /\ (max_height_ m = 1%nat -> c = wrap 64 (Z.of_nat (lower ks key))).
Proof using I CompareOk0 Hf.
  destruct (inv_height _ _ I) as [Hh _]. eapply ex_run_then; [by apply run_do|]. unfold enough in Hf.
  destruct (decide (max_height_ m = 1%nat)) as [E|Hne].
  - rewrite E. destruct (run_count_zero fuel key 0 0) as (c & Hr & ->); [lia| |done|].
    + pose proof (level_size this m 0 I zero_kMax). lia.
    + eexists. split; [done|]. intros _. by rewrite Nat.sub_0_r.
  - destruct (run_count_loop fuel key (head_ this) (max_height_ m - 1) 0) as (c & Hr & _); [lia|by left|by left|rewrite rank_head; lia|].
    exists c. split; [done|]. intros ?. done.
Qed.

End read.
