(* ===== verification/SkipMain.v ===== *)
(** * The skip list is a set

    Calls on the list of memtable/inlineskiplist.h by several threads never
    fail and answer as the operations of a sorted set do, each at one moment
    between its beginning and its end. *)

From S2P Require Import Prelude Words Slice DbFormat SkipList SkipInv SkipLogic SkipFind SkipSplice SkipInsert SkipFinish SkipSystem SkipInit SkipRead.

Section proof.
Context {cmp : Comparator} `{!CompareOk ucmp} (this : InlineSkipList) (fuel : nat).
Context (writer : option nat) (m0 : memory).
Implicit Types (m : memory) (x : loc) (j : nat) (o : op) (t : thread) (st : spec_thread).

Local Notation kMax := (kMaxHeight_ this).

(** The insertions that use plain stores are those of the only thread that
    inserts; the arrays on the stack have no room for the greatest height. *)
Definition op_allowed j o : Prop :=
  match o with
  | OContains _ => True
  | OInsert _ | OInsertWithHint _ => writer = Some j
  | OInsertWithHintConcurrently _ => writer = None \/ writer = Some j
  | OInsertConcurrently _ => (writer = None \/ writer = Some j) /\ (kMax < kMaxPossibleHeight)%nat
  end.

Definition kind_of m o : set_op :=
  match o with
  | OContains key => SContains key
  | OInsert x | OInsertConcurrently x | OInsertWithHint x | OInsertWithHintConcurrently x => SInsert (key_of m x)
  end.

Definition node_ready m o : Prop := forall x, op_node o = Some x -> exists hgt, fresh_node this m x (key_of m x) hgt.

Definition calls t : list op := option_list (fst <$> current t) ++ todo t.
Definition call_nodes t : list loc := omap op_node (calls t).

Definition owns o x : Prop := op_node o = Some x.
Definition alone j : bool := bool_decide (writer = Some j).

Definition returned o (r : bool * option Splice) (g : option bool) m : Prop :=
  Inv this m /\ answered this (kind_of m0 o) g r.1 m /\ forall s, r.2 = Some s -> splice_ok this m s.

Definition running m j o (p : prog (bool * option Splice)) (g : option bool) : Prop :=
  forall m', rely this (owns o) (alone j) m m' -> swp this (owns o) (alone j) (kind_of m0 o) p (returned o) g m'.

Record thread_ok m j t st : Prop := {
  ok_todo : spec_todo st = todo t;
  ok_allowed o : o ∈ calls t -> op_allowed j o;
  ok_ready o : o ∈ todo t -> node_ready m o;
  ok_hint s : hint t = Some s -> splice_ok this m s;
  ok_current : match current t, spec_current st with
               | None, None => True
               | Some (o, p), Some (o', g) => o' = o /\ running m j o p g
               | _, _ => False
               end
}.

Record sys_ok (s : system) (a : spec_system) : Prop := {
  sys_inv : Inv this (mem s);
  sys_seq : splice_ok this (mem s) (seq_splice_ s);
  sys_set : spec_set a = keys this (mem s);
  sys_keys x : key_of (mem s) x = key_of m0 x;
  sys_fuel : enough this fuel (mem s);
  sys_nodes : NoDup (concat (call_nodes <$> threads s));
  sys_length : length (spec_threads a) = length (threads s);
  sys_threads j t st : threads s !! j = Some t -> spec_threads a !! j = Some st -> thread_ok (mem s) j t st
}.

(** ** One call *)

Lemma code_running m j o seq h :
  Inv this m -> enough this fuel m -> op_allowed j o -> node_ready m o -> (forall x, key_of m x = key_of m0 x) ->
  splice_ok this m seq -> (forall s, h = Some s -> splice_ok this m s) -> running m j o (code this fuel seq h o) None.
Proof.
  intros I Hf Ha Hr Hk Hseq Hh m' H.
  assert (I' := rely_inv _ _ _ _ _ H). assert (Hev := rely_evolves _ _ _ _ _ H). assert (Hf' := rely_enough _ _ _ _ _ _ H Hf).
  assert (Hseq' := splice_ok_ev _ _ _ _ _ I Hev Hseq).
  assert (Hh' : splice_ok this m' (hinted this h)).
  { destruct h as [s|]; cbn; [by apply (splice_ok_ev _ _ _ _ _ I Hev), Hh|]. apply blank_ok; [done|lia]. }
  assert (Hins : forall UseCAS x s allow, op_node o = Some x -> kind_of m0 o = SInsert (key_of m0 x) -> splice_ok this m' s ->
     (UseCAS = false -> alone j = true) -> forall Q, (forall b s' g m', returned o (b, Some s') g m' -> Q (b, s') g m') ->
     swp this (owns o) (alone j) (kind_of m0 o) (Insert this UseCAS fuel x s allow) Q None m').
  { intros UseCAS x s allow Hx Hko Hs Hal Q HQ. destruct (Hr x Hx) as [hgt Hfr].
    eapply swp_Insert with (key := key_of m x); [done|done|by rewrite Hk|exact (fresh_rely _ _ _ _ _ _ _ _ Hx H Hfr)|done|done|done|].
    intros b s' g m2 I2 Hs2 Hans. apply HQ. split_and!; [done|done|]. by intros ? [= <-]. }
  destruct o as [x|x|x|x|key]; cbn [code op_allowed] in *.
  - apply swp_bind, Hins; [done|done|done|intros _; by apply bool_decide_eq_true|]. intros b s g m2 H2. exact H2.
  - destruct Ha as [_ Ha]. apply swp_bind. unfold InsertConcurrently. apply swp_bind, Hins; [done|done|by apply blank_ok|done|].
    intros b s g m2 (I2 & Hans & _). by split_and!.
  - apply swp_bind, Hins; [done|done|done|intros _; by apply bool_decide_eq_true|]. intros b s g m2 H2. exact H2.
  - apply swp_bind, Hins; [done|done|done|done|]. intros b s g m2 H2. exact H2.
  - apply swp_bind. eapply swp_Contains with (eff := true); [done|done|done|]. intros b m1 m2 H2 I1 H12 _.
    split_and!; [by eapply rely_inv|by left|done].
Qed.

(** ** The other threads *)

Lemma fresh_ev own m m' x key hgt :
  evolves this own m m' -> ~ own x -> fresh_node this m x key hgt -> fresh_node this m' x key hgt.
Proof.
  intros H Ho [Hp Hc]. assert (Hpr := Hp). destruct Hp as (Hx & _ & Hh & _ & Hl).
  split; [eapply private_ev; [exact H| |done]|].
  - intros j Hj. apply (ev_private _ _ _ _ H x j Hj Ho Hx). auto.
  - destruct (ev_private _ _ _ _ H x 0%nat) as [_ ->]; [lia|done|done|apply Hl; lia|done].
Qed.

Lemma ready_ev own m m' o :
  evolves this own m m' -> (forall x, op_node o = Some x -> ~ own x) -> node_ready m o -> node_ready m' o.
Proof. intros H Ho Hr x Hx. destruct (Hr x Hx) as [hgt Hf]. exists hgt. rewrite (evolves_key _ _ _ _ _ H). eapply fresh_ev; eauto. Qed.

Lemma rely_step m m' i j o o' :
  Inv this m' -> may_do this (owns o) m m' -> i <> j -> op_allowed j o -> (forall x, owns o x -> ~ owns o' x) ->
  rely this (owns o') (alone i) m m'.
Proof.
  intros I' [Hev Hw] Hij Ha Hd. split; [done|]. unfold alone. case_bool_decide as E; [|eapply evolves_mono; [|done]; done].
  destruct Hw as [->|[x Hx]]; [done|]. destruct o; cbn in Ha, Hx; try done; exfalso; intuition congruence.
Qed.

Lemma in_call_nodes t o x : o ∈ calls t -> op_node o = Some x -> x ∈ call_nodes t.
Proof. intros Ho Hx. apply list_elem_of_omap. eauto. Qed.

Lemma nodes_disjoint ts i j t t' x :
  NoDup (concat (call_nodes <$> ts)) -> i <> j -> ts !! i = Some t -> ts !! j = Some t' -> x ∈ call_nodes t -> x ∉ call_nodes t'.
Proof.
  intros Hnd Hij Hi Hj Hx Hx'. revert i j Hij Hi Hj. induction ts as [|u ts IH]; intros i j Hij Hi Hj; [done|].
  rewrite fmap_cons in Hnd. cbn [concat] in Hnd. apply NoDup_app in Hnd as (_ & Hd & Hnd).
  assert (Hin : forall k v, ts !! k = Some v -> x ∈ call_nodes v -> x ∈ concat (call_nodes <$> ts)).
  { intros k v Hk Hv. apply list_elem_of_In, in_concat. exists (call_nodes v). rewrite <- !list_elem_of_In. split; [|done].
    apply list_elem_of_fmap_2. by eapply list_elem_of_lookup_2. }
  destruct i as [|i], j as [|j]; cbn in Hi, Hj; [done|simplify_eq..|].
  - by apply (Hd x Hx), (Hin j t').
  - by apply (Hd x Hx'), (Hin i t).
  - by apply (IH Hnd i j); [congruence|..].
Qed.

Lemma other_ok m m' i j o t st :
  Inv this m -> Inv this m' -> may_do this (owns o) m m' -> i <> j -> op_allowed j o -> (forall x, owns o x -> x ∉ call_nodes t) ->
  thread_ok m i t st -> thread_ok m' i t st.
Proof.
  intros I I' Hm Hij Ha Hd [H1 H2 H3 H4 H5]. destruct (Hm) as [Hev _]. split; [done|done| | |].
  - intros o' Ho'. eapply ready_ev; [done| |auto]. intros x Hx Hox. apply (Hd x Hox). apply (in_call_nodes t o'); [|done].
    apply elem_of_app. by right.
  - intros s Hs. eapply splice_ok_ev; [exact I|done|auto].
  - destruct (current t) as [[o' p]|] eqn:Ec, (spec_current st) as [[o'' g]|]; try done. destruct H5 as [-> H5]. split; [done|].
    intros m2 H. apply H5. eapply rely_trans; [|done]. eapply rely_step; try done. intros x Hx Hx'. apply (Hd x Hx).
    apply (in_call_nodes t o'); [|done]. unfold calls. rewrite Ec. cbn. set_solver.
Qed.

(** ** Steps *)

Lemma spec_one a e a' : spec_step (kind_of m0) a e a' -> spec_execution (kind_of m0) a (option_list e) a'.
Proof. intros H. rewrite <- (app_nil_l (option_list e)). eapply spec_execution_step; [apply spec_execution_refl|done]. Qed.

Lemma insert_threads (ts : list thread) (sts : list spec_thread) j t st (P : nat -> thread -> spec_thread -> Prop) :
  P j t st -> (forall i t st, i <> j -> ts !! i = Some t -> sts !! i = Some st -> P i t st) ->
  forall i t' st', <[j := t]> ts !! i = Some t' -> <[j := st]> sts !! i = Some st' -> P i t' st'.
Proof.
  intros Hj Ho i t' st' Hi Hi'. destruct (decide (i = j)) as [->|Hne].
  - apply list_lookup_insert_Some in Hi as [(_ & <- & _)|[? _]]; [|done]. by apply list_lookup_insert_Some in Hi' as [(_ & <- & _)|[? _]].
  - rewrite list_lookup_insert_ne in Hi by done. rewrite list_lookup_insert_ne in Hi' by done. by apply Ho.
Qed.

Lemma nodes_insert (ts : list thread) j t t' :
  ts !! j = Some t -> call_nodes t' `sublist_of` call_nodes t -> NoDup (concat (call_nodes <$> ts)) ->
  NoDup (concat (call_nodes <$> <[j := t']> ts)).
Proof.
  intros Hj Hs Hnd. eapply sublist_NoDup; [done|]. clear Hnd. revert j Hj. induction ts as [|u ts IH]; intros [|j] Hj; cbn in Hj; [done|done| |].
  - simplify_eq. cbn. by apply sublist_app.
  - cbn. by apply sublist_app; [|apply IH].
Qed.

Lemma spec_thread_at s a j t : sys_ok s a -> threads s !! j = Some t -> exists st, spec_threads a !! j = Some st /\ thread_ok (mem s) j t st.
Proof.
  intros H Hj. destruct (lookup_lt_is_Some_2 (spec_threads a) j) as [st Hst].
  { rewrite (sys_length _ _ H). by eapply lookup_lt_Some. }
  exists st. split; [done|]. by eapply sys_threads.
Qed.

Lemma own_todo ts j h os o p x o' :
  NoDup (concat (call_nodes <$> ts)) -> ts !! j = Some (mkThread h os (Some (o, p))) -> op_node o = Some x -> o' ∈ os -> op_node o' <> Some x.
Proof.
  intros Hnd Hj Hx Ho' Hx'. revert j Hj. induction ts as [|t ts IH]; intros [|j] Hj; cbn in Hj; [done|done| |];
    rewrite fmap_cons in Hnd; cbn [concat] in Hnd; apply NoDup_app in Hnd as (Hn & _ & Hnd).
  - simplify_eq. unfold call_nodes in Hn. cbn in Hn. rewrite Hx in Hn. apply NoDup_cons_1_1 in Hn. apply Hn, list_elem_of_omap. eauto.
  - by apply (IH Hnd j).
Qed.

(** One thread moves on. *)
Lemma sys_update m m' seq seq' ts set sts j t t' st' :
  sys_ok (mkSystem m seq ts) (mkSpec set sts) -> ts !! j = Some t ->
  (m' = m \/ exists o, o ∈ calls t /\ may_do this (owns o) m m') -> Inv this m' -> splice_ok this m' seq' ->
  call_nodes t' `sublist_of` call_nodes t -> thread_ok m' j t' st' ->
  sys_ok (mkSystem m' seq' (<[j := t']> ts)) (mkSpec (keys this m') (<[j := st']> sts)).
Proof.
  intros H Hj Hm I' Hseq Hsub Ht'. destruct (spec_thread_at _ _ _ _ H Hj) as (st & Hst & Hok).
  destruct H as [I _ _ Hk Hf Hnd Hlen Hts]. cbn [mem seq_splice_ threads spec_set spec_threads] in *.
  assert (Hmm : (forall x, key_of m' x = key_of m x) /\ enough this fuel m').
  { destruct Hm as [->|(o & _ & Hev & _)]; [done|]. split; [intros x; by eapply evolves_key|]. unfold enough. by rewrite (evolves_size _ _ _ _ Hev). }
  split; cbn [mem seq_splice_ threads spec_set spec_threads]; try done.
  - intros x. by rewrite (proj1 Hmm).
  - apply Hmm.
  - by eapply nodes_insert.
  - by rewrite !length_insert.
  - intros i t1 st1. revert i t1 st1. apply insert_threads; [done|]. intros i t1 st1 Hij Hi Hi'. specialize (Hts i t1 st1 Hi Hi').
    destruct Hm as [->|(o & Ho & Hm)]; [done|]. apply (other_ok m m' i j o); try done; [by apply (ok_allowed _ _ _ _ Hok)|].
    intros x Hx Hx'. apply (nodes_disjoint ts i j t1 t x Hnd Hij Hi Hj Hx'). by eapply in_call_nodes.
Qed.

Lemma keys_kind m o : (forall x, key_of m x = key_of m0 x) -> kind_of m o = kind_of m0 o.
Proof. intros Hk. destruct o; cbn; by rewrite ?Hk. Qed.

Lemma begin_ok m seq ts j h o os a :
  sys_ok (mkSystem m seq ts) a -> ts !! j = Some (mkThread h (o :: os) None) ->
  exists a', spec_execution (kind_of m0) a [Begin j o] a' /\ sys_ok (mkSystem m seq (<[j := mkThread h os (Some (o, code this fuel seq h o))]> ts)) a'.
Proof.
  intros H Hj. destruct a as [set sts]. destruct (spec_thread_at _ _ _ _ H Hj) as ([sos sc] & Hst & Hok). cbn [mem threads spec_threads] in *.
  pose proof (sys_set _ _ H) as Hset. cbn in Hset. subst set. destruct (Hok) as [H1 H2 H3 H4 H5]. cbn in H1, H5. subst sos. destruct sc; [done|].
  eexists. split; [apply (spec_one _ (Some (Begin j o))); by apply spec_begin|].
  eapply sys_update; [done|done|by left|apply H|apply H|done|]. split; cbn; [done| | |done|].
  - intros o' Ho'. apply H2. done.
  - intros o' Ho'. apply H3. cbn. set_solver.
  - split; [done|]. destruct H as [I Hseq _ Hk Hf _ _ _]. apply code_running; try done; [apply H2; set_solver|apply H3; set_solver].
Qed.

Lemma act_ok m m' seq ts j h os o {B} (act : act B) k b a :
  sys_ok (mkSystem m seq ts) a -> ts !! j = Some (mkThread h os (Some (o, Act act k))) -> perform act m = Ok (b, m') ->
  exists a', spec_execution (kind_of m0) a [] a' /\ sys_ok (mkSystem m' seq (<[j := mkThread h os (Some (o, k b))]> ts)) a'.
Proof.
  intros H Hj Hp. destruct a as [set sts]. destruct (spec_thread_at _ _ _ _ H Hj) as ([sos sc] & Hst & Hok). cbn [mem threads spec_threads] in *.
  pose proof (sys_set _ _ H) as Hset. cbn in Hset. subst set. destruct (Hok) as [H1 H2 H3 H4 H5]. cbn in H1, H5. subst sos.
  destruct sc as [[o' g]|]; [|done]. destruct H5 as [-> H5]. pose proof (sys_inv _ _ H) as I. cbn in I.
  destruct (H5 m (rely_refl _ _ _ _ I)) as (b' & m1 & g' & Hp' & I' & Hm & Heff & Hk). rewrite Hp in Hp'. injection Hp' as <- <-.
  assert (Hev := proj1 Hm).
  assert (Hs : sys_ok (mkSystem m' seq (<[j := mkThread h os (Some (o, k b))]> ts)) (mkSpec (keys this m') (<[j := mkSpecThread os (Some (o, g'))]> sts))).
  { eapply sys_update; [done|done| |done| |done|]; [right; exists o; split; [cbn; set_solver|done]|eapply splice_ok_ev; [exact I|exact Hev|apply H]|].
    split; cbn; [done|done| | |done].
    - intros o' Ho'. eapply ready_ev; [exact Hev| |by apply H3]. intros x Hx Hox.
      exact (own_todo _ _ _ _ _ _ _ _ (sys_nodes _ _ H) Hj Hox Ho' Hx).
    - intros s Hs. eapply splice_ok_ev; [exact I|exact Hev|by apply H4]. }
  destruct Heff as [[-> Hk']|(-> & r & -> & Hspec)].
  - exists (mkSpec (keys this m') (<[j := mkSpecThread os (Some (o, g))]> sts)). split; [|done]. rewrite Hk', list_insert_id by done. apply spec_execution_refl.
  - eexists. split; [|exact Hs]. apply (spec_one _ None). by apply spec_effect.
Qed.

Lemma end_ok m seq ts j h os o b s a :
  sys_ok (mkSystem m seq ts) a -> ts !! j = Some (mkThread h os (Some (o, Ret (b, s)))) ->
  exists a', spec_execution (kind_of m0) a [End j o b] a' /\
    sys_ok (mkSystem m (keep_seq o s seq) (<[j := mkThread (keep_hint o s h) os None]> ts)) a'.
Proof.
  intros H Hj. destruct a as [set sts]. destruct (spec_thread_at _ _ _ _ H Hj) as ([sos sc] & Hst & Hok). cbn [mem threads spec_threads] in *.
  pose proof (sys_set _ _ H) as Hset. cbn in Hset. subst set. destruct (Hok) as [H1 H2 H3 H4 H5]. cbn in H1, H5. subst sos.
  destruct sc as [[o' g]|]; [|done]. destruct H5 as [-> H5]. pose proof (sys_inv _ _ H) as I. cbn in I.
  destruct (H5 m (rely_refl _ _ _ _ I)) as (_ & Hans & Hsp). cbn in Hans, Hsp.
  assert (Hs : sys_ok (mkSystem m (keep_seq o s seq) (<[j := mkThread (keep_hint o s h) os None]> ts)) (mkSpec (keys this m) (<[j := mkSpecThread os None]> sts))).
  { eapply sys_update; [done|done|by left|done| | |].
    - pose proof (sys_seq _ _ H). destruct o, s; cbn; auto.
    - unfold call_nodes. cbn. destruct (op_node o); [by apply sublist_cons|done].
    - split; cbn; [done|intros o' Ho'; apply H2; cbn; set_solver|done| |done]. intros s' Hs'. destruct o, s; cbn in Hs'; simplify_eq; auto. }
  eexists. split; [|exact Hs]. destruct Hans as [->|(-> & Hspec)].
  - apply (spec_one _ (Some (End j o b))). by apply spec_end.
  - rewrite <- (app_nil_l [_]). eapply (spec_execution_step _ _ [] _ (Some (End j o b))).
    + apply (spec_one _ None). by apply spec_effect.
    + rewrite <- (list_insert_insert_eq sts j (mkSpecThread os None) (mkSpecThread os (Some (o, Some b)))). apply spec_end.
      apply list_lookup_insert_eq. by eapply lookup_lt_Some.
Qed.

Lemma no_crash m seq ts j h os o {B} (act : act B) k e a :
  sys_ok (mkSystem m seq ts) a -> ts !! j = Some (mkThread h os (Some (o, Act act k))) -> perform act m <> Err e.
Proof.
  intros H Hj He. destruct (spec_thread_at _ _ _ _ H Hj) as ([sos sc] & Hst & [_ _ _ _ H5]). cbn in H5.
  destruct sc as [[o' g]|]; [|done]. destruct H5 as [-> H5]. pose proof (sys_inv _ _ H) as I. cbn in I.
  destruct (H5 m (rely_refl _ _ _ _ I)) as (b' & m1 & g' & Hp' & _). congruence.
Qed.

Lemma sys_no_failure s a : sys_ok s a -> no_failure s.
Proof.
  intros H j t o e Hj Hc. destruct (spec_thread_at _ _ _ _ H Hj) as ([sos sc] & Hst & [_ _ _ _ H5]). rewrite Hc in H5. cbn in H5.
  destruct sc as [[o' g]|]; [|done]. destruct H5 as [-> H5]. exact (H5 (mem s) (rely_refl _ _ _ _ (sys_inv _ _ H))).
Qed.

Lemma step_ok s e s' a :
  sys_ok s a -> step this fuel s e s' -> exists a', spec_execution (kind_of m0) a (option_list e) a' /\ sys_ok s' a'.
Proof.
  intros H Hs. destruct Hs as [m seq ts j h o os Hj|m m' seq ts j h os o B act k b Hj Hp|m seq ts j h os o B act k e Hj Hp|m seq ts j h os o b s Hj].
  - by apply begin_ok.
  - by eapply act_ok.
  - by destruct (no_crash _ _ _ _ _ _ _ _ _ _ _ H Hj Hp).
  - by apply end_ok.
Qed.

Lemma spec_execution_trans a tr a' tr' a'' :
  spec_execution (kind_of m0) a tr a' -> spec_execution (kind_of m0) a' tr' a'' -> spec_execution (kind_of m0) a (tr ++ tr') a''.
Proof.
  intros H H'. induction H' as [a'|a' tr' b e c _ IH Hs]; [by rewrite app_nil_r|]. rewrite app_assoc. eapply spec_execution_step; eauto.
Qed.

Lemma execution_ok s tr s' a :
  sys_ok s a -> execution this fuel s tr s' -> exists a', spec_execution (kind_of m0) a tr a' /\ sys_ok s' a'.
Proof.
  intros H He. induction He as [s|s tr s1 e s2 _ IH Hs]; [exists a; split; [apply spec_execution_refl|done]|].
  destruct (IH H) as (a1 & Ha1 & H1). destruct (step_ok _ _ _ _ H1 Hs) as (a2 & Ha2 & H2). exists a2. split; [by eapply spec_execution_trans|done].
Qed.

End proof.

(** ** A whole program *)

(** A list is made, keys are allocated and filled in, and the threads start. *)
Definition start (this : InlineSkipList) (m : memory) (calls : list (list op)) : system :=
  mkSystem m (AllocateSplice this) ((fun os => mkThread None os None) <$> calls).
Definition spec_start (calls : list (list op)) : spec_system := mkSpec [] ((fun os => mkSpecThread os None) <$> calls).

Section program.
Context {cmp : Comparator} `{!CompareOk ucmp}.

(** Every allocated node is inserted at most once, by the threads that may. *)
Record program (this : InlineSkipList) (ks : list (list Z)) (m : memory) (xs : list loc) (writer : option nat) (calls : list (list op)) : Prop := {
  pr_new : exists max_height branching_factor seed_ m', max_height < 2 ^ 31 /\
    InlineSkipList_new max_height branching_factor = Ok (this, m') /\ allocate_keys this ks seed_ m' = Ok (xs, m);
  pr_nodes : NoDup (omap op_node (concat calls));
  pr_allocated : omap op_node (concat calls) ⊆ xs;
  pr_allowed j os o : calls !! j = Some os -> o ∈ os -> op_allowed this writer j o
}.

(** Enough for all nodes and levels. *)
Definition program_fuel (this : InlineSkipList) (ks : list (list Z)) (fuel : nat) : Prop := (1 + length ks + kMaxHeight_ this < fuel)%nat.

Lemma start_nodes this m calls : concat (call_nodes <$> threads (start this m calls)) = omap op_node (concat calls).
Proof.
  cbn. induction calls as [|os calls IH]; [done|]. rewrite !fmap_cons. cbn [concat]. rewrite omap_app, IH. done.
Qed.

Lemma program_ready this ks m xs writer calls :
  program this ks m xs writer calls ->
  Inv this m /\ keys this m = [] /\ size (nodes m) = (1 + length ks)%nat /\ key_of m <$> xs = ks /\
  (forall x, x ∈ xs -> exists h, fresh_node this m x (key_of m x) h).
Proof.
  intros [(mh & bf & seed_ & m' & Hlt & Hnew & Hal) _ _ _]. destruct (new_inv _ _ _ _ Hlt Hnew) as [I' Hk'].
  destruct (new_memory _ _ _ _ Hlt Hnew) as [_ Em].
  destruct (allocate_ok this ks seed_ m' I') as (xs0 & m0 & Ha & I & Hk & _ & _ & Hall & Hs). rewrite Hal in Ha. injection Ha as <- <-.
  assert (Hkey : forall x k h, fresh_node this m x k h -> key_of m x = k) by (intros x k h [(_ & Hsh & _) _]; by eapply shape_key_of).
  split_and!; [done|congruence|rewrite Hs, Em; cbn [nodes]; by rewrite map_size_singleton| |].
  - clear -Hall Hkey. induction Hall as [|x k xs ks [h Hx] _ IH]; [done|]. rewrite fmap_cons. f_equal; [by eapply Hkey|done].
  - intros x Hx. apply list_elem_of_lookup in Hx as [i Hi]. destruct (Forall2_lookup_l _ _ _ _ _ Hall Hi) as (k & _ & h & Hf).
    exists h. by rewrite (Hkey _ _ _ Hf).
Qed.

Lemma start_ok this ks m xs writer calls fuel :
  program this ks m xs writer calls -> program_fuel this ks fuel -> sys_ok this fuel writer m (start this m calls) (spec_start calls).
Proof.
  intros Hp Hf. destruct (program_ready _ _ _ _ _ _ Hp) as (I & Hk & Hs & _ & Hr). destruct Hp as [_ Hnd Hal Hop].
  split; [done|apply blank_ok; [done|lia]|cbn; by rewrite Hk|done| |by rewrite start_nodes|cbn; by rewrite !length_fmap|].
  - cbn. unfold enough, program_fuel in *. lia.
  - cbn. intros j t st Hj Hst. rewrite list_lookup_fmap in Hj. rewrite list_lookup_fmap in Hst. destruct (calls !! j) as [os|] eqn:Ej; [|done].
    injection Hj as <-. injection Hst as <-. split; cbn; try done.
    + intros o Ho. by eapply Hop.
    + intros o Ho x Hx. apply Hr, Hal, list_elem_of_omap. exists o. split; [|done]. apply list_elem_of_In, in_concat.
      exists os. rewrite <- !list_elem_of_In. split; [|done]. by eapply list_elem_of_lookup_2.
Qed.

(** C5. The list is linearizable.  Whatever the threads call, and however their
    accesses to memory interleave, no assertion fails, no null pointer or memory
    never written is read, no array is overrun and no loop runs out of fuel; at
    every moment the levels are sorted chains, each part of the one below; and
    the calls begin and end as calls on a sorted set of keys do, in which every
    call takes effect at one moment.  So of several insertions of equal keys
    exactly one succeeds, and what was inserted is found from then on. *)
Theorem skiplist_linearizable this ks m xs writer calls fuel tr s :
  program this ks m xs writer calls -> program_fuel this ks fuel -> execution this fuel (start this m calls) tr s ->
  no_failure s /\ Inv this (mem s) /\ key_of m <$> xs = ks /\
  exists a, spec_execution (kind_of m) (spec_start calls) tr a /\ spec_set a = keys this (mem s).
Proof.
  intros Hp Hf He. destruct (execution_ok _ _ _ _ _ _ _ _ (start_ok _ _ _ _ _ _ _ Hp Hf) He) as (a & Ha & Hs).
  split_and!; [by eapply sys_no_failure|apply Hs|by apply (program_ready _ _ _ _ _ _ Hp)|]. exists a. split; [done|apply Hs].
Qed.

(** C20. Readers, at any moment, also between the steps of insertions: the
    iterator moves over the entries of level 0, which are in strict order of
    their keys; [Seek] stops at the first key not below the target,
    [SeekForPrev] at the last one not above it, and [Prev] at the entry before;
    [Contains] answers exactly; a random entry is an entry; the estimate of the
    keys below a key is exact in a list of one level; the self-check passes. *)
Theorem skiplist_reads this ks m0 xs writer calls fuel tr s :
  program this ks m0 xs writer calls -> program_fuel this ks fuel -> execution this fuel (start this m0 calls) tr s ->
  let m := mem s in let entries := level this m 0 in let sorted := keys this m in
  (forall i j a b, (i < j)%nat -> sorted !! i = Some a -> sorted !! j = Some b -> ucmp a b = Lt) /\
  run (Iter_SeekToFirst this) m = Ok (entries !! 0%nat, m) /\
  run (Iter_SeekToLast this fuel) m = Ok (last entries, m) /\
  (forall key,
     run (Iter_Seek this fuel key) m = Ok (entries !! lower sorted key, m) /\
     run (Iter_SeekForPrev this fuel key) m = Ok (prev_at entries (upper sorted key), m) /\
     run (Contains this fuel key) m = Ok (has sorted key, m) /\
     exists c, run (EstimateCount this fuel key) m = Ok (c, m) /\ (max_height_ m = 1%nat -> c = wrap 64 (Z.of_nat (lower sorted key)))) /\
  (forall i x, entries !! i = Some x ->
     sorted !! i = Some (key_of m x) /\
     run (Iter_key (Some x)) m = Ok (key_of m x, m) /\
     run (Iter_Next (Some x)) m = Ok (entries !! S i, m) /\
     run (Iter_Prev this fuel (Some x)) m = Ok (prev_at entries i, m)) /\
  (forall seed_, exists r, run (Iter_RandomSeek this fuel seed_) m = Ok (r, m) /\
     match r.1 with Some x => x ∈ entries | None => entries = [] end) /\
  run (TEST_Validate this fuel) m = Ok (tt, m).
Proof.
  intros Hp Hf He. destruct (execution_ok _ _ _ _ _ _ _ _ (start_ok _ _ _ _ _ _ _ Hp Hf) He) as (a & _ & Hs). intros m entries sorted.
  pose proof (sys_inv _ _ _ _ _ _ Hs) as I. pose proof (sys_fuel _ _ _ _ _ _ Hs) as Hfu. split_and!.
  - intros i j k k'. by apply keys_lt.
  - apply run_do. cbn [perform]. by rewrite (load_head this m I).
  - by apply run_Iter_SeekToLast.
  - intros key. split_and!; [by apply run_FindGreaterOrEqual|by apply run_Iter_SeekForPrev|by apply run_Contains|by apply run_EstimateCount].
  - intros i x Hi. split_and!; [by apply keys_at|by eapply run_Key|by eapply run_Iter_Next|by eapply run_Iter_Prev].
  - intros seed_. by apply run_FindRandomEntry.
  - by apply run_TEST_Validate.
Qed.

End program.

(** ** An example *)

(** Two threads insert equal keys at the same time and look for a third one. *)
Definition example_keys : list (list Z) := [[5]; [3]; [5]].
Definition example_list : InlineSkipList := mkList 12 4 536870912 0.
Definition example_memory : memory :=
  match (let? (this, m) := InlineSkipList_new 12 4 in allocate_keys this example_keys 301 m) with Ok (_, m) => m | Err _ => mkMemory empty 0 end.
Definition example_calls : list (list op) :=
  [[OInsertConcurrently 1; OContains [3]]; [OInsertWithHintConcurrently 3; OInsertWithHintConcurrently 2]].
Definition example_run : list event * system :=
  run_schedule example_list 20 (concat (replicate 200 [0; 1]))%nat (start example_list example_memory example_calls).

Lemma example_program : program example_list example_keys example_memory [1; 2; 3]%nat None example_calls.
Proof.
  split.
  - eexists 12, 4, 301, _. split_and!; [lia|vm_compute; reflexivity|vm_compute; reflexivity].
  - apply (bool_decide_unpack _). vm_compute. exact I.
  - apply (bool_decide_unpack _). vm_compute. exact I.
  - intros [|[|j]] os o Hj Ho; cbn in Hj; [injection Hj as <-..|done]; apply elem_of_cons in Ho as [->|Ho%list_elem_of_singleton]; subst;
      cbn; (split; [by left|vm_compute; lia]) || first [by left|done].
Qed.

(** The run is serialised: the first thread inserts [5], the second one finds it,
    and the first one looks for [3] before it is there. *)
Lemma skiplist_linearizable_witness :
  exists a, spec_execution (kind_of example_memory) (spec_start example_calls)
    [Begin 0 (OInsertConcurrently 1); Begin 1 (OInsertWithHintConcurrently 3); End 0 (OInsertConcurrently 1) true; Begin 0 (OContains [3]);
     End 1 (OInsertWithHintConcurrently 3) false; Begin 1 (OInsertWithHintConcurrently 2); End 0 (OContains [3]) false;
     End 1 (OInsertWithHintConcurrently 2) true] a /\ spec_set a = [[3]; [5]].
Proof.
  assert (Ht : fst example_run = [Begin 0 (OInsertConcurrently 1); Begin 1 (OInsertWithHintConcurrently 3); End 0 (OInsertConcurrently 1) true;
     Begin 0 (OContains [3]); End 1 (OInsertWithHintConcurrently 3) false; Begin 1 (OInsertWithHintConcurrently 2); End 0 (OContains [3]) false;
     End 1 (OInsertWithHintConcurrently 2) true]) by (vm_compute; reflexivity).
  assert (Hk : keys example_list (mem (snd example_run)) = [[3]; [5]]) by (vm_compute; reflexivity).
  rewrite <- Ht, <- Hk.
  apply (skiplist_linearizable example_list example_keys example_memory [1; 2; 3]%nat None example_calls 20 (fst example_run) (snd example_run) example_program).
  - unfold program_fuel. cbn. lia.
  - unfold example_run. apply run_schedule_execution.
Defined.

Lemma skiplist_reads_witness :
  run (Iter_SeekForPrev example_list 20 [4]) (mem (snd example_run)) = Ok (Some 2%nat, mem (snd example_run)) /\
  run (TEST_Validate example_list 20) (mem (snd example_run)) = Ok (tt, mem (snd example_run)).
Proof.
  destruct (skiplist_reads example_list example_keys example_memory [1; 2; 3]%nat None example_calls 20 (fst example_run) (snd example_run) example_program)
    as (_ & _ & _ & Hk & _ & _ & Hv).
  - unfold program_fuel. cbn. lia.
  - unfold example_run. apply run_schedule_execution.
  - split; [|exact Hv]. destruct (Hk [4]) as (_ & H & _). rewrite H. repeat f_equal.
Defined.

(** The arrays on the stack of [InsertConcurrently] have one entry too few for a
    list of the greatest height. *)
Example stack_splice_overflow :
  (let? (this, m) := InlineSkipList_new 32 2 in let? (x, m) := AllocateNode [5] 32 m in run (InsertConcurrently this 40 x) m) = Err EBounds.
Proof. vm_compute. reflexivity. Qed.
