(* ===== verification/SkipWait.v ===== *)
(** * The skip list is wait-free

    A bound on the accesses to shared memory that a thread needs for its calls
    on the list of memtable/inlineskiplist.h, whatever the other threads do: it
    depends on the number of nodes and on the greatest height alone.  The fuel
    of the loops plays no part in it: a run with more fuel than the nodes and
    levels need takes the same steps. *)

From S2P Require Import Prelude Words Slice DbFormat SkipList SkipInv SkipLogic SkipFind SkipSplice SkipInsert SkipFinish SkipSystem SkipInit SkipRead SkipMain.

(** ** The accesses of a program

    [p] ends after at most [n] accesses, whatever they return; a result
    satisfies [Q]. *)
Fixpoint costs {A} (p : prog A) (n : nat) (Q : A -> Prop) : Prop :=
  match p with
  | Ret a => Q a
  | Fail _ => True
  | Act a k => match n with O => False | S n => forall b, costs (k b) n Q end
  end.

Lemma costs_mono {A} (p : prog A) n n' (Q Q' : A -> Prop) : costs p n Q -> (n <= n')%nat -> (forall a, Q a -> Q' a) -> costs p n' Q'.
Proof.
  intros Hp Hn HQ. revert n n' Hn Hp. induction p as [a|e|B a k IH]; intros n n' Hn Hp; cbn [costs] in *; [auto|done|].
  destruct n as [|n]; [done|]. destruct n' as [|n']; [lia|]. intros b. apply (IH b n n'); [lia|auto].
Qed.

Lemma costs_weak {A} (p : prog A) n n' (Q : A -> Prop) : costs p n Q -> (n <= n')%nat -> costs p n' Q.
Proof. intros Hp Hn. by eapply costs_mono. Qed.

Lemma costs_bind {A B} (p : prog A) (k : A -> prog B) n n' (R : A -> Prop) (Q : B -> Prop) :
  costs p n R -> (forall a, R a -> costs (k a) n' Q) -> costs (pbind p k) (n + n') Q.
Proof.
  intros Hp Hk. revert n Hp. induction p as [a|e|C a k' IH]; intros n Hp; cbn [costs pbind] in *; [|done|].
  - eapply costs_weak; [by apply Hk|lia].
  - destruct n as [|n]; [done|]. intros b. by apply IH.
Qed.

Lemma costs_do {B} (a : act B) : costs (do a) 1 (fun _ => True).
Proof. done. Qed.

Lemma costs_passert b : costs (passert b) 0 (fun _ => b = true).
Proof. by destruct b. Qed.

Lemma costs_read_at a i : costs (read_at a i) 0 (fun _ => True).
Proof. unfold read_at. by repeat case_match. Qed.

Lemma costs_put a i p : costs (put i p a) 0 (fun _ => True).
Proof. unfold put. by case_match. Qed.

Lemma costs_not_null p : costs (not_null p) 0 (fun _ => True).
Proof. by destruct p. Qed.

Create HintDb costs.
#[local] Hint Resolve costs_do costs_passert costs_read_at costs_put costs_not_null : costs.

(** Pay for the first part of a program and go on with what is left. *)
Lemma costs_pay {A B} (p : prog A) (k : A -> prog B) n N (R : A -> Prop) (Q : B -> Prop) :
  costs p n R -> (n <= N)%nat -> (forall a, R a -> costs (k a) (N - n) Q) -> costs (pbind p k) N Q.
Proof. intros Hp Hn Hk. replace N with (n + (N - n))%nat by lia. by eapply costs_bind. Qed.

Ltac pay := eapply costs_pay; [solve [eauto with costs]|lia|intros ? ?]; cbv beta.
Ltac spend :=
  repeat (cbv beta iota; first
    [pay|lazymatch goal with |- costs (match ?x with _ => _ end) _ _ => destruct x eqn:? end|lazymatch goal with |- costs (if ?x then _ else _) _ _ => destruct x eqn:? end|exact I
    |solve [eapply costs_mono; [eauto with costs|lia|done]]|progress cbn [pbind costs]]).

Section list.
Context {cmp : Comparator} (this : InlineSkipList).
Local Open Scope prog_scope.
Implicit Types (s : Splice).

Lemma costs_KeyIsAfterNode key n : costs (KeyIsAfterNode this key n) 1 (fun _ => True).
Proof. unfold KeyIsAfterNode. spend. Qed.
#[local] Hint Resolve costs_KeyIsAfterNode : costs.

Lemma costs_prefetch next l : costs (prefetch next l) 1 (fun _ => True).
Proof. by destruct next. Qed.

Lemma costs_assert_sorted x next : costs (assert_sorted this x next) 2 (fun _ => True).
Proof. unfold assert_sorted. spend. Qed.

Lemma costs_assert_after key x : costs (assert_after this key x) 1 (fun _ => True).
Proof. unfold assert_after. spend. Qed.
#[local] Hint Resolve costs_prefetch costs_assert_sorted costs_assert_after : costs.

(** ** The searches *)

Lemma costs_greater_loop fuel key x l last_bigger : costs (greater_loop this fuel key x l last_bigger) (6 * fuel) (fun _ => True).
Proof.
  revert x l last_bigger. induction fuel as [|fuel IH]; intros x l last_bigger; cbn [greater_loop]; [done|].
  do 4 pay. eapply (costs_pay _ _ 1 _ (fun _ => True)); [spend|lia|intros c _].
  destruct c, l; spend; (eapply costs_weak; [apply IH|lia]).
Qed.

Lemma costs_Contains fuel key : costs (Contains this fuel key) (2 + 6 * fuel) (fun _ => True).
Proof.
  unfold Contains, FindGreaterOrEqual. eapply (costs_pay _ _ (1 + 6 * fuel) _ (fun _ => True)); [|lia|intros; spend].
  pay. eapply costs_weak; [apply costs_greater_loop|lia].
Qed.

Lemma costs_FindSpliceForLevel b fuel key before after l : costs (FindSpliceForLevel this b fuel key before after l) (7 * fuel) (fun _ => True).
Proof.
  revert before. induction fuel as [|fuel IH]; intros before; cbn [FindSpliceForLevel]; [done|].
  do 2 pay. eapply (costs_pay _ _ 1 _ (fun _ => True)); [spend|lia|intros _ _]. do 2 pay.
  eapply (costs_pay _ _ 1 _ (fun _ => True)); [spend|lia|intros found _].
  destruct found; spend.
Qed.
#[local] Hint Resolve costs_FindSpliceForLevel : costs.

(** ** Splices keep their height *)

Lemma costs_put_level i r s : costs (put_level i r s) 0 (fun s' => height_ s' = height_ s).
Proof. unfold put_level. by spend. Qed.
#[local] Hint Resolve costs_put_level : costs.

Lemma costs_recompute_loop fuel key n s : costs (recompute_loop this fuel key n s) (n * (7 * fuel)) (fun s' => height_ s' = height_ s).
Proof.
  revert s. induction n as [|n IH]; intros s; cbn [recompute_loop]; [done|]. do 5 pay.
  eapply costs_mono; [apply IH|lia|intros; simpl in *; congruence].
Qed.

Lemma costs_refind fuel key i s : costs (refind this fuel key i s) (7 * fuel) (fun s' => height_ s' = height_ s).
Proof. unfold refind. do 3 pay. eapply costs_weak; [apply costs_put_level|lia]. Qed.
#[local] Hint Resolve costs_refind : costs.

Lemma costs_compare_next x next : costs (compare_next x next) 2 (fun _ => True).
Proof. unfold compare_next. spend. Qed.

Lemma costs_compare_prev prev x : costs (compare_prev this prev x) 2 (fun _ => True).
Proof. unfold compare_prev. spend. Qed.
#[local] Hint Resolve costs_compare_next costs_compare_prev : costs.

Lemma costs_check_neighbours x s i : costs (check_neighbours this x s i) 8 (fun _ => True).
Proof.
  unfold check_neighbours. pay. eapply (costs_pay _ _ 2 _ (fun _ => True)); [spend|lia|intros c _]. destruct (negb _); [done|]. pay.
  eapply (costs_pay _ _ 2 _ (fun _ => True)); [spend|lia|intros c' _]. spend.
Qed.
#[local] Hint Resolve costs_check_neighbours : costs.

(** ** Linking *)

Lemma costs_cas_loop rounds fuel key x i s v :
  costs (cas_loop this rounds fuel key x i s v) (rounds * (10 + 7 * fuel)) (fun r => height_ r.2 = height_ s).
Proof.
  revert s v. induction rounds as [|rounds IH]; intros s v; cbn [cas_loop]; [done|]. pay. case_match; [done|]. do 5 pay. case_match; [done|].
  pay. eapply costs_mono; [apply IH|lia|intros; simpl in *; congruence].
Qed.

Lemma costs_store_level fuel key x h i s v : costs (store_level this fuel key x h i s v) (12 + 7 * fuel) (fun r => height_ r.2 = height_ s).
Proof.
  unfold store_level. eapply (costs_pay _ _ (1 + 7 * fuel) _ (fun s' => height_ s' = height_ s)); [by spend|lia|intros s' Hs']. pay. case_match; [done|].
  by spend.
Qed.

(** What a level costs, in both modes. *)
Definition level_cost (fuel : nat) : nat := fuel * (10 + 7 * fuel) + (12 + 7 * fuel).

Lemma costs_link_loop UseCAS fuel key x h n i s v :
  costs (link_loop this UseCAS fuel key x h n i s v) (n * level_cost fuel) (fun r => height_ r.2 = height_ s).
Proof.
  revert i s v. induction n as [|n IH]; intros i s v; cbn [link_loop]; [done|].
  eapply (costs_pay _ _ (level_cost fuel) _ (fun r => height_ r.2 = height_ s)); [|lia|].
  - destruct UseCAS; (eapply costs_weak; [apply costs_cas_loop || apply costs_store_level|unfold level_cost; lia]).
  - intros [[v'|] s'] Hs'; [|done]. eapply costs_mono; [apply IH|lia|intros; simpl in *; congruence].
Qed.

(** ** A whole insertion *)

Lemma costs_raise_loop fuel height max_height : costs (raise_loop fuel height max_height) fuel (fun h => (height <= h)%nat).
Proof.
  revert max_height. induction fuel as [|fuel IH]; intros max_height; cbn [raise_loop]; (destruct (Nat.leb_spec height max_height) as [H|H]; [done|]); [done|].
  pay. case_match; [simpl; lia|]. eapply costs_weak; [apply IH|lia].
Qed.

Lemma costs_skip_loop fuel a bad h : costs (skip_loop fuel a bad h) 0 (fun _ => True).
Proof. revert h. induction fuel as [|fuel IH]; intros h; cbn [skip_loop]; [done|]. pay. case_match; [apply IH|done]. Qed.
#[local] Hint Resolve costs_skip_loop : costs.

Lemma costs_check_loop fuel key s partial max_height h : costs (check_loop this fuel key s partial max_height h) (3 * fuel) (fun _ => True).
Proof.
  revert h. induction fuel as [|fuel IH]; intros h; cbn [check_loop]; (case_match; [|done]); [done|]. do 4 pay. case_match; [spend|].
  eapply (costs_pay _ _ 1 _ (fun _ => True)); [spend|lia|intros before _].
  assert (forall a bad, costs (r <- (if partial then skip_loop (length a + 1) a bad h else Ret max_height) ;; check_loop this fuel key s partial max_height r) (3 * fuel) (fun _ => True)) as Hskip.
  { intros arr bad. eapply (costs_pay _ _ 0 _ (fun _ => True)); [spend|lia|intros r _]. eapply costs_weak; [apply IH|lia]. }
  destruct before; [eapply costs_weak; [apply Hskip|lia]|]. eapply costs_pay; [apply costs_KeyIsAfterNode|lia|intros [|] _; [eapply costs_weak; [apply Hskip|lia]|done]].
Qed.

Lemma costs_prepare_splice fuel key s partial max_height :
  costs (prepare_splice this fuel key s partial max_height) (max_height * (3 + 7 * fuel)) (fun r => (height_ r.2 <= Nat.max max_height (height_ s))%nat).
Proof.
  unfold prepare_splice. eapply (costs_pay _ _ (3 * max_height) _ (fun r => (height_ r.2 <= Nat.max max_height (height_ s))%nat)); [|nia|].
  - case_match; [do 2 pay; simpl; lia|]. eapply costs_pay; [apply costs_check_loop|lia|intros r _; simpl; lia].
  - intros [h s'] Hs'. simpl in Hs'. pay. assert (h <= max_height)%nat as Hh by by apply Nat.leb_le.
    eapply (costs_pay _ _ (h * (7 * fuel)) _ (fun s'' => height_ s'' = height_ s')); [|nia|intros s'' Hs''; simpl; lia].
    case_match; [|done]. unfold RecomputeSpliceLevels. do 2 pay. eapply costs_weak; [apply costs_recompute_loop|lia].
Qed.

Lemma costs_assert_levels key s n i : costs (assert_levels this key s n i) (n * 6) (fun _ => True).
Proof.
  revert i. induction n as [|n IH]; intros i; cbn [assert_levels]; [done|].
  eapply (costs_pay _ _ 6 _ (fun _ => True)); [|lia|intros _ _; eapply costs_weak; [apply IH|lia]]. unfold assert_level. pay.
  eapply (costs_pay _ _ 1 _ (fun _ => True)); [spend|lia|intros _ _]. pay.
  eapply (costs_pay _ _ 1 _ (fun _ => True)); [spend|lia|intros _ _]. pay.
  eapply (costs_pay _ _ 2 _ (fun _ => True)); [spend|lia|intros _ _]. spend.
Qed.

Lemma costs_own_loop x n i a : costs (own_loop x n i a) 0 (fun _ => True).
Proof. revert i a. induction n as [|n IH]; intros i a; cbn [own_loop]; [done|]. pay. apply IH. Qed.
#[local] Hint Resolve costs_own_loop costs_assert_levels : costs.

Lemma costs_finish_splice key x h v s : costs (finish_splice this key x h v s) (height_ s * 6) (fun _ => True).
Proof. unfold finish_splice. case_match; [|done]. do 5 pay. eapply costs_pay; [apply costs_assert_levels|simpl; lia|done]. Qed.

Definition insert_cost (kMaxHeight_ fuel : nat) : nat :=
  3 + kMaxHeight_ + kMaxPossibleHeight * (3 + 7 * fuel + level_cost fuel + 6).

Lemma costs_Insert UseCAS fuel x s partial :
  (height_ s <= kMaxPossibleHeight)%nat -> costs (Insert this UseCAS fuel x s partial) (insert_cost (kMaxHeight_ this) fuel) (fun _ => True).
Proof.
  intros Hs. unfold Insert. unfold insert_cost. set (H := kMaxPossibleHeight) in *. set (c := (3 + 7 * fuel)%nat). set (l := level_cost fuel). rewrite !Nat.mul_add_distr_l.
  pay. pay. pay. pay. eapply costs_pay; [apply costs_raise_loop|lia|intros mh Hmh]. simpl in Hmh. pay. assert (mh <= H)%nat as HmH by by apply Nat.leb_le.
  eapply (costs_pay _ _ (H * c)); [eapply costs_weak; [apply costs_prepare_splice|apply Nat.mul_le_mono_r; lia]|lia|intros [rh s1] Hs1]. simpl in Hs1.
  eapply (costs_pay _ _ (H * l)); [eapply costs_weak; [apply costs_link_loop|apply Nat.mul_le_mono_r; lia]|lia|intros [[v|] s2] Hs2]; [|done]. simpl in Hs2.
  eapply (costs_pay _ _ (H * 6)); [eapply costs_weak; [apply costs_finish_splice|lia]|lia|done].
Qed.

End list.

(** ** More fuel

    [q] does what [p] does, unless [p] runs out of fuel. *)
Fixpoint more {A} (p q : prog A) : Prop :=
  match p with
  | Ret a => q = Ret a
  | Fail e => e = EFuel \/ q = Fail e
  | Act a k => exists k', q = Act a k' /\ forall b, more (k b) (k' b)
  end.

Lemma more_refl {A} (p : prog A) : more p p.
Proof. induction p as [a|e|B a k IH]; cbn; [done|by right|by eexists]. Qed.

Lemma more_bind {A B} (p q : prog A) (f g : A -> prog B) : more p q -> (forall a, more (f a) (g a)) -> more (pbind p f) (pbind q g).
Proof.
  intros Hp Hf. revert q Hp. induction p as [a|e|C a k IH]; intros q Hp; cbn [more] in Hp.
  - subst q. apply Hf.
  - destruct Hp as [->| ->]; cbn; auto.
  - destruct Hp as (k' & -> & Hk). cbn. eexists. split; [done|]. intros b. apply IH, Hk.
Qed.

Create HintDb more.
#[local] Hint Resolve more_refl : more.

Ltac more :=
  repeat (intros; cbv beta; first
    [solve [eauto with more]|apply more_bind
    |lazymatch goal with |- more (match ?x with _ => _ end) _ => destruct x end]).

Section more_fuel.
Context {cmp : Comparator} (this : InlineSkipList) (fuel fuel' : nat) (Hfuel : (fuel <= fuel')%nat).

Lemma more_greater_loop n n' key x l last_bigger : (n <= n')%nat -> more (greater_loop this n key x l last_bigger) (greater_loop this n' key x l last_bigger).
Proof.
  revert n' x l last_bigger. induction n as [|n IH]; intros n' x l last_bigger Hn; [by left|]. destruct n' as [|n']; [lia|]. cbn [greater_loop].
  assert (n <= n')%nat by lia. more.
Qed.

Lemma more_FindSpliceForLevel b n n' key before after l : (n <= n')%nat -> more (FindSpliceForLevel this b n key before after l) (FindSpliceForLevel this b n' key before after l).
Proof.
  revert n' before. induction n as [|n IH]; intros n' before Hn; [by left|]. destruct n' as [|n']; [lia|]. cbn [FindSpliceForLevel].
  assert (n <= n')%nat by lia. more.
Qed.
#[local] Hint Resolve more_greater_loop more_FindSpliceForLevel : more.

Lemma more_recompute_loop key n s : more (recompute_loop this fuel key n s) (recompute_loop this fuel' key n s).
Proof. revert s. induction n as [|n IH]; intros s; cbn [recompute_loop]; more. Qed.
#[local] Hint Resolve more_recompute_loop : more.

Lemma more_refind key i s : more (refind this fuel key i s) (refind this fuel' key i s).
Proof. unfold refind. more. Qed.
#[local] Hint Resolve more_refind : more.

Lemma more_cas_loop n n' key x i s v : (n <= n')%nat -> more (cas_loop this n fuel key x i s v) (cas_loop this n' fuel' key x i s v).
Proof.
  revert n' s v. induction n as [|n IH]; intros n' s v Hn; [by left|]. destruct n' as [|n']; [lia|]. cbn [cas_loop].
  assert (n <= n')%nat by lia. more.
Qed.

Lemma more_store_level key x h i s v : more (store_level this fuel key x h i s v) (store_level this fuel' key x h i s v).
Proof. unfold store_level. more. Qed.
#[local] Hint Resolve more_cas_loop more_store_level : more.

Lemma more_link_loop UseCAS key x h n i s v : more (link_loop this UseCAS fuel key x h n i s v) (link_loop this UseCAS fuel' key x h n i s v).
Proof. revert i s v. induction n as [|n IH]; intros i s v; cbn [link_loop]; more. Qed.
#[local] Hint Resolve more_link_loop : more.

Lemma more_Insert UseCAS x s partial : more (Insert this UseCAS fuel x s partial) (Insert this UseCAS fuel' x s partial).
Proof. unfold Insert, prepare_splice, RecomputeSpliceLevels. more. Qed.
#[local] Hint Resolve more_Insert : more.

Lemma more_code seq h o : more (code this fuel seq h o) (code this fuel' seq h o).
Proof. destruct o; cbn [code]; unfold InsertConcurrently, InsertWithHint, InsertWithHintConcurrently, Contains, FindGreaterOrEqual; more. Qed.
End more_fuel.

(** ** The system with more fuel *)

Definition call_more (c c' : option (op * prog (bool * option Splice))) : Prop :=
  match c, c' with
  | None, None => True
  | Some (o, p), Some (o', p') => o' = o /\ more p p'
  | _, _ => False
  end.

Definition thread_more (t t' : thread) : Prop := hint t' = hint t /\ todo t' = todo t /\ call_more (current t) (current t').

Definition sys_more (s s' : system) : Prop :=
  mem s' = mem s /\ seq_splice_ s' = seq_splice_ s /\ Forall2 thread_more (threads s) (threads s').

Section system.
Context {cmp : Comparator} `{!CompareOk ucmp} (this : InlineSkipList) (fuel fuel' : nat) (Hfuel : (fuel <= fuel')%nat).
Context (writer : option nat) (m0 : memory).

Lemma thread_more_at s s' j :
  sys_more s s' -> match threads s !! j with
                   | Some t => exists c', threads s' !! j = Some (mkThread (hint t) (todo t) c') /\ call_more (current t) c'
                   | None => threads s' !! j = None
                   end.
Proof.
  intros (_ & _ & Hts). destruct (threads s !! j) as [t|] eqn:Ej.
  - destruct (Forall2_lookup_l _ _ _ _ _ Hts Ej) as ([h os c'] & Ej' & Hh & Ho & Hc). simpl in *. subst. eauto.
  - apply lookup_ge_None in Ej. apply lookup_ge_None. by rewrite <- (Forall2_length _ _ _ Hts).
Qed.

Lemma sys_more_set m seq ts ts' j h os c c' :
  Forall2 thread_more ts ts' -> call_more c c' ->
  sys_more (mkSystem m seq (<[j := mkThread h os c]> ts)) (mkSystem m seq (<[j := mkThread h os c']> ts')).
Proof. intros Hts Hc. split_and!; [done|done|]. simpl. by apply Forall2_insert. Qed.

(** The same thread moves in the same way. *)
Lemma step_more s s' j : sys_more s s' -> no_failure s ->
  match step_of this fuel j s with
  | None => step_of this fuel' j s' = None
  | Some (e, s1) => exists s1', step_of this fuel' j s' = Some (e, s1') /\ sys_more s1 s1'
  end.
Proof.
  intros H Hnf. pose proof (thread_more_at _ _ j H) as Hj. destruct H as (Hm & Hseq & Hts). unfold step_of.
  destruct (threads s !! j) as [[h os c]|] eqn:Ej; [|by rewrite Hj]. destruct Hj as (c' & -> & Hc). cbn [hint todo current] in *. rewrite Hm, Hseq.
  destruct c as [[o p]|], c' as [[o' p']|]; try done.
  - destruct Hc as [-> Hp]. destruct p as [[b sp]|e|B a k]; cbn [more] in Hp.
    + rewrite Hp. eexists. split; [done|]. by apply sys_more_set.
    + exfalso. by apply (Hnf j _ o e Ej).
    + destruct Hp as (k' & -> & Hk). destruct (perform a (mem s)) as [[b m']|e]; (eexists; split; [done|]); apply sys_more_set; try done.
      split; [done|by right].
  - destruct os as [|o os]; [done|]. eexists. split; [done|]. apply sys_more_set; [done|]. split; [done|by apply more_code].
Qed.

Lemma run_more js s s' a : sys_ok this fuel writer m0 s a -> sys_more s s' ->
  (run_schedule this fuel' js s').1 = (run_schedule this fuel js s).1 /\ sys_more (run_schedule this fuel js s).2 (run_schedule this fuel' js s').2.
Proof.
  revert s s' a. induction js as [|j js IH]; intros s s' a Hs Hmore; [done|]. cbn [run_schedule].
  pose proof (step_more s s' j Hmore (sys_no_failure _ _ _ _ _ _ Hs)) as Hj. destruct (step_of this fuel j s) as [[e s1]|] eqn:Ej; [|rewrite Hj; by eapply IH].
  destruct Hj as (s1' & -> & H1). destruct (step_ok _ _ _ _ _ _ _ _ Hs (step_of_step _ _ _ _ _ _ Ej)) as (a1 & _ & Hs1).
  destruct (IH s1 s1' a1 Hs1 H1) as [Htr Hend]. destruct (run_schedule this fuel js s1), (run_schedule this fuel' js s1'). simpl in *. split; [by f_equal|done].
Qed.
End system.

(** ** The steps of a thread *)

(** The steps of a call: its accesses, its beginning and its end. *)
Definition call_bound (kMaxHeight_ fuel : nat) (o : op) : nat :=
  match o with OContains _ => 2 + (2 + 6 * fuel) | _ => 2 + insert_cost kMaxHeight_ fuel end.

Definition calls_bound (kMaxHeight_ fuel : nat) (os : list op) : nat := sum_list (call_bound kMaxHeight_ fuel <$> os).

Section wait.
Context {cmp : Comparator} `{!CompareOk ucmp} (this : InlineSkipList) (fuel : nat) (writer : option nat) (m0 : memory).
Local Notation kMax := (kMaxHeight_ this).

Lemma costs_code seq h o :
  (height_ seq <= kMaxPossibleHeight)%nat -> (height_ (hinted this h) <= kMaxPossibleHeight)%nat ->
  exists c, costs (code this fuel seq h o) c (fun _ => True) /\ (c + 2)%nat = call_bound kMax fuel o.
Proof.
  intros Hseq Hh.
  assert (forall A (p : prog A) B (k : A -> B) n, costs p n (fun _ => True) -> costs (pbind p (fun r => Ret (k r))) n (fun _ => True)) as Hret.
  { intros A p B k n Hp. rewrite <- (Nat.add_0_r n). by eapply costs_bind. }
  destruct o as [x|x|x|x|key]; cbn [code call_bound]; [exists (insert_cost kMax fuel)..|exists (2 + 6 * fuel)%nat]; (split; [|lia]); apply Hret.
  - by apply costs_Insert.
  - apply Hret, costs_Insert. simpl. lia.
  - by apply costs_Insert.
  - by apply costs_Insert.
  - apply costs_Contains.
Qed.

(** Thread [t] has [rest] left to call after at most [n] more steps. *)
Definition due (rest : list op) (t : thread) (n : nat) : Prop :=
  calls t `suffix_of` rest \/
  exists front, todo t = front ++ rest /\
    match current t with
    | None => (calls_bound kMax fuel front <= n)%nat
    | Some (o, p) => exists c, costs p c (fun _ => True) /\ (c + 1 + calls_bound kMax fuel front <= n)%nat
    end.

Lemma step_due s a j e s1 rest t n :
  sys_ok this fuel writer m0 s a -> step_of this fuel j s = Some (e, s1) -> threads s !! j = Some t -> due rest t n ->
  exists t1, threads s1 !! j = Some t1 /\ due rest t1 (n - 1).
Proof.
  intros Hs Hst Hj Hd. destruct (spec_thread_at _ _ _ _ _ _ _ _ Hs Hj) as (st & _ & Hok). destruct (sys_inv _ _ _ _ _ _ Hs) as [_ _ [_ Hheight] _].
  assert (forall sp, splice_ok this (mem s) sp -> (height_ sp <= kMaxPossibleHeight)%nat) as Hsp by (intros sp (_ & ? & _); lia).
  assert (Hset : forall t1, <[j := t1]> (threads s) !! j = Some t1) by (intros t1; apply list_lookup_insert_eq; by eapply lookup_lt_Some).
  unfold step_of in Hst. rewrite Hj in Hst. destruct t as [h os [[o p]|]]; cbn [hint todo current] in *.
  - destruct p as [[b sp]|e'|B act k]; [|done|].
    + simplify_eq. eexists. split; [apply Hset|]. destruct Hd as [Hd|(front & Hos & c & _ & Hn)]; cbn in *.
      * left. unfold calls in *. cbn in *. etrans; [|exact Hd]. by apply suffix_cons_r.
      * right. exists front. cbn. split; [done|lia].
    + destruct (perform act (mem s)) as [[b m']|e'] eqn:Ep; simplify_eq; (eexists; split; [apply Hset|]); (destruct Hd as [Hd|(front & Hos & c & Hc & Hn)]; [by left|right; exists front; cbn in *; split; [done|]]);
        (destruct c as [|c]; [done|]); exists c; (split; [done|lia]).
  - destruct os as [|o os]; [done|]. simplify_eq. eexists. split; [apply Hset|]. destruct Hd as [Hd|(front & Hos & Hn)]; [by left|]. cbn in Hos, Hn.
    destruct front as [|o' front]; cbn in Hos; [left; subst rest; done|]. injection Hos as <- ->. right. exists front. split; [done|].
    destruct (costs_code (seq_splice_ s) h o) as (c & Hc & Hb); [apply Hsp, Hs| |].
    { destruct h as [sp|]; cbn; [by apply Hsp, (ok_hint _ _ _ _ _ _ _ Hok)|lia]. }
    exists c. split; [done|]. unfold calls_bound in *. cbn in Hn |- *. lia.
Qed.

(** A thread that has made [n] steps is where it was due after [n] steps. *)
Lemma run_due js s a j rest t n :
  sys_ok this fuel writer m0 s a -> threads s !! j = Some t -> due rest t n -> (n <= count_occ Nat.eq_dec js j)%nat ->
  exists t', threads (run_schedule this fuel js s).2 !! j = Some t' /\ calls t' `suffix_of` rest.
Proof.
  revert s a t n. induction js as [|i js IH]; intros s a t n Hs Hj Hd Hn; cbn [run_schedule count_occ] in *.
  - exists t. split; [done|]. destruct Hd as [|(front & Hos & Hc)]; [done|]. destruct t as [h os [[o p]|]]; cbn in *; [destruct Hc as (c & _ & Hc); lia|].
    destruct front as [|o front]; [by subst os|]. unfold calls_bound in Hc. destruct o; cbn in Hc; lia.
  - destruct (step_of this fuel i s) as [[e s1]|] eqn:Ei.
    + destruct (step_ok _ _ _ _ _ _ _ _ Hs (step_of_step _ _ _ _ _ _ Ei)) as (a1 & _ & Hs1).
      assert (exists t1, threads s1 !! j = Some t1 /\ due rest t1 (if Nat.eq_dec i j then n - 1 else n)) as (t1 & Hj1 & Hd1).
      { destruct (Nat.eq_dec i j) as [->|Hij]; [by eapply (step_due s a j e s1 rest t n)|]. exists t. split; [|done]. by rewrite (step_of_others _ _ _ _ _ _ j Ei). }
      destruct (IH s1 a1 t1 _ Hs1 Hj1 Hd1) as (t' & Ht' & Hsuf); [destruct (Nat.eq_dec i j); lia|]. exists t'. split; [|done].
      by destruct (run_schedule this fuel js s1).
    + destruct (Nat.eq_dec i j) as [->|Hij]; [|by eapply IH]. destruct (step_of_some this fuel j s t Hj) as [[Hc Ht]|(e & s' & He)]; [| |congruence].
      { intros o e. by apply (sys_no_failure _ _ _ _ _ _ Hs j). }
      eapply (IH s a t 0%nat); [done|done| |lia]. left. unfold calls. rewrite Hc, Ht. apply suffix_nil.
Qed.
End wait.

(** The steps in which a thread makes the calls [os]: the loops of a call go
    round at most once for each node, the head included, and each level. *)
Definition wait_bound (this : InlineSkipList) (ks : list (list Z)) (os : list op) : nat :=
  calls_bound (kMaxHeight_ this) (2 + length ks + kMaxHeight_ this) os.


Lemma count_replicate n j : count_occ Nat.eq_dec (replicate n j) j = n.
Proof. induction n as [|n IH]; cbn; [done|]. destruct (Nat.eq_dec j j); [by rewrite IH|done]. Qed.

(** Both calls of the first thread end after its steps for two calls, although
    the second thread stops inside its first call after three. *)
Definition example_schedule : list nat :=
  [1; 1; 1]%nat ++ replicate (wait_bound example_list example_keys [OInsertConcurrently 1; OContains [3]]) 0%nat.

