(* ===== verification/Workload.v ===== *)
(** * The workload generator

    workload_gen.cc: [nkeys] random numbers written to [nthreads] files, one
    number per line.  The random numbers are a parameter, the sequence
    [uni_dist(gen)] returns. *)

From S2P Require Import Prelude Words Text.

Section gen.
(** The [k]-th number drawn. *)
Context (rng : Z -> Z).

(** The inner loop with [n] rounds to go; every round that is made draws one
    number and increments [total]. *)
Fixpoint file_loop (n : nat) (nkeys total : Z) : list Z * Z :=
  match n with
  | O => ([], total)
  | S n =>
      if total <? nkeys then
        let number := rng total in
        let (text, total') := file_loop n nkeys (total + 1) in
        (to_string number ++ [10] ++ text, total')
      else ([], total)
  end.

(** The outer loop, [n] files to go: names and contents. *)
Fixpoint files_loop (n : nat) (path : list Z) (i nkeys sz total : Z) : list (list Z * list Z) :=
  match n with
  | O => []
  | S n =>
      let (text, total') := file_loop (Z.to_nat sz) nkeys total in
      (path ++ [47] ++ to_string i, text) :: files_loop n path (i + 1) nkeys sz total'
  end.

(** [main]: the arguments are the directory and two numbers; [dir_exists] is
    [std::filesystem::exists(DATA_DIR)]. *)
Definition workload_gen (dir_exists : bool) (argv : list (list Z)) : result (list (list Z * list Z)) :=
  match argv with
  | [DATA_DIR; a2; a3] =>
      let nkeys := wrap 64 (atoi a2) in
      let nthreads := wrap 64 (atoi a3) in
      if negb (0 <? nthreads) then Err EAssert
      else if negb dir_exists then Err EAssert
      else
        let path := DATA_DIR ++ [47] ++ to_string nthreads ++ [47] ++ to_string nkeys in
        let sz := wadd 64 nkeys (wsub 64 nthreads 1) / nthreads in
        Ok (files_loop (Z.to_nat nthreads) path 0 nkeys sz 0)
  | _ => Err EAssert
  end.

(** ** The files hold the numbers drawn, in order, each once *)

(** The numbers of file [i] of a split of [nkeys] in parts of [sz]. *)
Definition share (nkeys sz i : Z) : list Z :=
  rng <$> seqZ (Z.min nkeys (i * sz)) (Z.min nkeys ((i + 1) * sz) - Z.min nkeys (i * sz)).

Lemma file_loop_ok n nkeys total :
  total <= nkeys ->
  file_loop n nkeys total =
    (lines_of (rng <$> seqZ total (Z.min nkeys (total + Z.of_nat n) - total)), Z.min nkeys (total + Z.of_nat n)).
Proof.
  revert total. induction n as [|n IH]; intros total Ht; cbn [file_loop].
  - rewrite Z.add_0_r, Z.min_r, Z.sub_diag by lia. done.
  - destruct (Z.ltb_spec total nkeys) as [Hlt|Hge].
    + rewrite IH by lia. replace (total + Z.of_nat (S n)) with (total + 1 + Z.of_nat n) by lia. f_equal.
      rewrite (seqZ_cons total) by lia. change (Z.succ total) with (total + 1).
      replace (Z.pred (Z.min nkeys (total + 1 + Z.of_nat n) - total)) with (Z.min nkeys (total + 1 + Z.of_nat n) - (total + 1)) by lia.
      unfold lines_of. simpl. by rewrite <- app_assoc.
    + rewrite Z.min_l by lia. replace (nkeys - total) with 0 by lia. f_equal. lia.
Qed.

Lemma files_loop_ok n path i nkeys sz :
  0 <= i -> 0 <= sz -> 0 <= nkeys ->
  files_loop n path i nkeys sz (Z.min nkeys (i * sz)) =
    (fun j => (path ++ [47] ++ to_string j, lines_of (share nkeys sz j))) <$> seqZ i (Z.of_nat n).
Proof.
  intros Hi Hs Hn. revert i Hi. induction n as [|n IH]; intros i Hi; [done|]. cbn [files_loop].
  rewrite file_loop_ok, Z2Nat.id by lia.
  assert (Z.min nkeys (Z.min nkeys (i * sz) + sz) = Z.min nkeys ((i + 1) * sz)) as -> by lia.
  rewrite IH by lia. rewrite (seqZ_cons i) by lia. replace (Z.pred (Z.of_nat (S n))) with (Z.of_nat n) by lia. done.
Qed.

Lemma share_concat nkeys sz n :
  0 <= sz -> 0 <= nkeys ->
  concat (share nkeys sz <$> seqZ 0 (Z.of_nat n)) = rng <$> seqZ 0 (Z.min nkeys (Z.of_nat n * sz)).
Proof.
  intros Hs Hn. induction n as [|n IH]; [simpl; by rewrite Z.min_r by lia|].
  rewrite seqZ_S, fmap_app, concat_app, IH. simpl fmap. simpl concat. rewrite Nat2Z.inj_succ. rewrite app_nil_r. unfold share.
  rewrite <- fmap_app, Z.add_0_l. f_equal.
  replace (Z.min nkeys (Z.succ (Z.of_nat n) * sz)) with
    (Z.min nkeys (Z.of_nat n * sz) + (Z.min nkeys ((Z.of_nat n + 1) * sz) - Z.min nkeys (Z.of_nat n * sz))) by lia.
  rewrite (seqZ_app 0) by lia. by rewrite Z.add_0_l.
Qed.

(** What a split in parts of [⌈n/t⌉] covers. *)
Lemma ceil_covers n t : 0 <= n -> 0 < t -> n <= t * ((n + (t - 1)) / t).
Proof. intros. pose proof (Z.div_mod (n + (t - 1)) t ltac:(lia)). pose proof (Z.mod_pos_bound (n + (t - 1)) t ltac:(lia)). lia. Qed.

(** C22. For a number of keys [n >= 0] and of files [t > 0], the generator
    writes exactly [t] files, [DATA_DIR/t/n/i] for [i] from 0 on; a program
    that reads them back with [>>] gets at most [⌈n/t⌉] numbers from each, and
    from all of them in turn exactly the [n] numbers drawn, in order. *)
Theorem workload_gen_complete dir a2 a3 n t :
  atoi a2 = n -> atoi a3 = t -> 0 <= n < 2 ^ 31 -> 0 < t < 2 ^ 31 -> (forall k, 0 <= rng k < 2 ^ 64) ->
  exists files, workload_gen true [dir; a2; a3] = Ok files /\ Z.of_nat (length files) = t /\
    (forall i, 0 <= i < t -> exists text, files !! Z.to_nat i =
       Some (dir ++ [47] ++ to_string t ++ [47] ++ to_string n ++ [47] ++ to_string i, text)) /\
    let numbers := (fun f => read_all (S (Z.to_nat n)) f.2) <$> files in
    concat numbers = rng <$> seqZ 0 n /\
    Forall (fun ns => Z.of_nat (length ns) <= (n + (t - 1)) / t) numbers.
Proof.
  intros H2 H3 Hn Ht Hrng. unfold workload_gen. rewrite H2, H3.
  rewrite !wrap_id by (split; lia). unfold wsub, wadd. rewrite (wrap_id 64 (t - 1)) by (split; lia). rewrite wrap_id by (split; lia).
  rewrite (proj2 (Z.ltb_lt 0 t)) by lia. cbn [negb]. eexists. split; [done|].
  pose proof (Z.div_pos (n + (t - 1)) t ltac:(lia) ltac:(lia)) as Hs. pose proof (ceil_covers n t ltac:(lia) ltac:(lia)) as Hc.
  set (sz := (n + (t - 1)) / t) in *. clearbody sz.
  pose proof (files_loop_ok (Z.to_nat t) (dir ++ [47] ++ to_string t ++ [47] ++ to_string n) 0 n sz ltac:(lia) ltac:(lia) ltac:(lia)) as Hf.
  rewrite Z.mul_0_l, Z.min_r, Z2Nat.id in Hf by lia. rewrite Hf. clear Hf.
  assert (forall i, 0 <= i < t -> read_all (S (Z.to_nat n)) (lines_of (share n sz i)) = share n sz i) as Hread.
  { intros i Hi. apply (read_all_lines _ _) with (s := []); [| |by left].
    - apply Forall_fmap, Forall_forall. intros; apply Hrng.
    - unfold share. rewrite length_fmap, length_seqZ. lia. }
  assert ((fun f => read_all (S (Z.to_nat n)) f.2) <$> ((fun j => (((dir ++ [47] ++ to_string t ++ [47] ++ to_string n) ++ [47] ++ to_string j), lines_of (share n sz j))) <$> seqZ 0 t) = share n sz <$> seqZ 0 t) as ->.
  { rewrite <- list_fmap_compose. apply list_fmap_ext. intros k i Hk. apply lookup_seqZ in Hk as [-> Hk]. apply Hread. lia. }
  split_and!.
  - rewrite length_fmap, length_seqZ. lia.
  - intros i Hi. rewrite list_lookup_fmap, lookup_seqZ_lt by lia. simpl. rewrite Z2Nat.id by lia. rewrite Z.add_0_l, <- !app_assoc. simpl. rewrite <- !app_assoc. by eexists.
  - rewrite <- (Z2Nat.id t) by lia. rewrite share_concat, Z2Nat.id by lia. by rewrite Z.min_l by lia.
  - apply Forall_fmap, Forall_forall. intros i Hi. simpl. unfold share. rewrite length_fmap, length_seqZ. lia.
Qed.

End gen.

(** Ten keys in three files. *)
Lemma workload_gen_complete_witness :
  let rng := fun k => (k * 7) mod 2 ^ 64 in
  exists files, workload_gen rng true [[100]; [49; 48]; [51]] = Ok files /\ Z.of_nat (length files) = 3 /\
    concat ((fun f => read_all 11 f.2) <$> files) = rng <$> seqZ 0 10.
Proof.
  intros rng. destruct (workload_gen_complete rng [100] [49; 48] [51] 10 3) as (files & Hf & Hl & _ & Hc & _);
    [done|done|lia|lia|intros k; apply Z.mod_pos_bound; lia|].
  exists files. split; [exact Hf|]. split; [exact Hl|exact Hc].
Defined.
