(* ===== verification/MicroBench.v ===== *)
(** * The I/O micro benchmark

    micro_benchmarks/micro_bench.c: the offsets every thread reads or writes,
    as the arguments and the random bytes determine them.  A run is the list
    of the threads' accesses; timing and the data transferred are not
    modelled.  The operating system is a parameter: what [getrandom] delivers,
    which files open, and how large a buffer fits the stack of a thread. *)

From S2P Require Import Prelude Words Text.

(** The global variables of the program. *)
Record globals : Type := mkGlobals {
  file_size : Z;
  access_size : Z;
  num_accesses : Z;
  read_flag : bool;
}.

(** What the program gets from the operating system: [getrandom len] are the
    bytes that [getrandom(buf, len, 0)] stores, [None] when it returns -1;
    [opens path] says whether [open] succeeds; [stack] is the number of bytes a
    thread's stack has for its buffer. *)
Record environment : Type := mkEnv {
  getrandom : Z -> option (list Z);
  opens : list Z -> bool;
  stack : Z;
}.

(** One [pread] or [pwrite]: its offset and its length. *)
Inductive access : Type :=
  | pread (off len : Z)
  | pwrite (off len : Z).

Definition off_of (a : access) : Z := match a with pread o _ | pwrite o _ => o end.
Definition len_of (a : access) : Z := match a with pread _ l | pwrite _ l => l end.

(** [ret < access_size] compares an [int] with a [size_t]: the [int] is
    converted. *)
Definition reports_error (ret access_size : Z) : bool := wrap 64 ret <? access_size.

(** The loop of [worker_thread], [n] rounds to go: [offsets] points to the cell
    [base] of the array. *)
Fixpoint worker_loop (n : nat) (g : globals) (offsets : list Z) (base i : Z) : result (list access) :=
  match n with
  | O => Ok []
  | S n =>
      let? o := rd offsets (Z.of_nat (length offsets)) (base + i) in
      let? rest := worker_loop n g offsets base (i + 1) in
      Ok ((if read_flag g then pread o (access_size g) else pwrite o (access_size g)) :: rest)
  end.

(** [char buffer[access_size]] is on the stack. *)
Definition worker_thread (env : environment) (working_file : list Z) (g : globals) (offsets : list Z) (base : Z) : result (list access) :=
  if stack env <? access_size g then Err EBounds
  else if negb (opens env working_file) then Err EExit
  else worker_loop (Z.to_nat (num_accesses g)) g offsets base 0.

(** The 8-byte cells of a byte array. *)
Fixpoint cells (n : nat) (bytes : list Z) : list Z :=
  match n with
  | O => []
  | S n => le_value (take 8 bytes) :: cells n (drop 8 bytes)
  end.

(** The loop that reduces the random numbers to offsets. *)
Fixpoint reduce (g : globals) (offsets : list Z) : result (list Z) :=
  match offsets with
  | [] => Ok []
  | o :: rest =>
      let? o' := umod o (wsub 64 (file_size g) (access_size g)) in
      let? rest' := reduce g rest in
      Ok (o' :: rest')
  end.

(** The threads [i], [i+1], ..., [n] of them. *)
Fixpoint spawn (n : nat) (env : environment) (working_file : list Z) (g : globals) (offsets : list Z) (i : Z) : result (list (list access)) :=
  match n with
  | O => Ok []
  | S n =>
      let? t := worker_thread env working_file g offsets (i * num_accesses g) in
      let? rest := spawn n env working_file g offsets (i + 1) in
      Ok (t :: rest)
  end.

(** ["/dev/urandom"]. *)
Definition urandom : list Z := [47; 100; 101; 118; 47; 117; 114; 97; 110; 100; 111; 109].

(** [main]; [argv] are the five arguments. *)
Definition main (env : environment) (argv : list (list Z)) : result (list (list access)) :=
  match argv with
  | [working_file; a2; a3; a4; a5] =>
      let num_threads := atoi a2 in
      let access_size := wrap 64 (atoi a3) in
      let? num_accesses := udiv (10 * 1024 * 1024 * 1024) access_size in
      let g := mkGlobals (wmul 64 (1024 * 1024) (wrap 64 (atoi a4))) access_size num_accesses
                 (bool_decide (a5 = [114])) in
      let cells_no := wmul 64 (wrap 64 num_threads) num_accesses in
      let len := wmul 64 (wmul 64 8 (wrap 64 num_threads)) num_accesses in
      match getrandom env len with
      | None => Err EExit
      | Some bytes =>
          if Z.of_nat (length bytes) <? len then Err EExit
          else
            let? offsets := reduce g (cells (Z.to_nat cells_no) bytes) in
            if negb (read_flag g) && negb (opens env urandom) then Err EExit
            else spawn (Z.to_nat num_threads) env working_file g offsets 0
      end
  | _ => Err ENull
  end.

(** ** Offsets *)

Lemma length_cells n bytes : length (cells n bytes) = n.
Proof. revert bytes. induction n as [|n IH]; intros bytes; simpl; [done|by rewrite IH]. Qed.

Lemma reduce_ok g os :
  0 <= access_size g < file_size g -> file_size g < 2 ^ 64 ->
  reduce g os = Ok ((fun o => o mod (file_size g - access_size g)) <$> os).
Proof.
  intros Ha Hf. induction os as [|o os IH]; [done|]. cbn [reduce]. unfold umod, wsub.
  rewrite wrap_id by (split; lia). rewrite (proj2 (Z.eqb_neq _ _)) by lia. simpl. by rewrite IH.
Qed.

Definition access_of (g : globals) (o : Z) : access :=
  if read_flag g then pread o (access_size g) else pwrite o (access_size g).

Lemma worker_loop_ok n g os base i :
  0 <= base -> 0 <= i -> (Z.to_nat (base + i) + n <= length os)%nat ->
  worker_loop n g os base i = Ok (access_of g <$> take n (drop (Z.to_nat (base + i)) os)).
Proof.
  intros Hb. revert i. induction n as [|n IH]; intros i Hi Hl; [done|]. cbn [worker_loop]. unfold rd.
  rewrite (proj2 (Z.leb_le 0 (base + i))), (proj2 (Z.ltb_lt (base + i) _)) by lia. cbn [andb].
  destruct (lookup_lt_is_Some_2 os (Z.to_nat (base + i))) as [o Ho]; [lia|]. rewrite Ho. simpl rbind.
  rewrite IH by lia. simpl rbind. rewrite (drop_S _ _ _ Ho). simpl.
  replace (Z.to_nat (base + (i + 1))) with (S (Z.to_nat (base + i))) by lia. done.
Qed.

Lemma spawn_ok n env file g os i :
  access_size g <= stack env -> opens env file = true -> 0 <= i -> 0 <= num_accesses g -> ((Z.to_nat i + n) * Z.to_nat (num_accesses g) <= length os)%nat ->
  exists ts, spawn n env file g os i = Ok ts /\ length ts = n /\
    Forall (fun t => Z.of_nat (length t) = num_accesses g) ts /\
    concat ts = access_of g <$> take (n * Z.to_nat (num_accesses g)) (drop (Z.to_nat i * Z.to_nat (num_accesses g)) os).
Proof.
  intros Hst Hop Hi Hn. revert i Hi. induction n as [|n IH]; intros i Hi Hl; [by exists []|]. cbn [spawn]. unfold worker_thread.
  rewrite (proj2 (Z.ltb_ge _ _) Hst), Hop. cbn [negb].
  assert (Z.to_nat (i * num_accesses g + 0) = (Z.to_nat i * Z.to_nat (num_accesses g))%nat) as Hb by (rewrite Z.add_0_r; lia).
  rewrite worker_loop_ok by (rewrite ?Hb; nia). simpl rbind.
  destruct (IH (i + 1)) as (ts & -> & Hlen & Hall & Hcat); [lia|nia|]. simpl rbind. eexists. split; [done|]. rewrite Hb.
  split_and!; [simpl; lia| |].
  - constructor; [|done]. rewrite length_fmap, length_take, length_drop. nia.
  - simpl concat. rewrite Hcat, <- fmap_app. f_equal.
    replace (Z.to_nat (i + 1) * Z.to_nat (num_accesses g))%nat with (Z.to_nat i * Z.to_nat (num_accesses g) + Z.to_nat (num_accesses g))%nat by lia.
    rewrite <- drop_drop. apply take_take_drop.
Qed.

Section run.
Context (env : environment) (file a2 a3 a4 a5 : list Z) (t a m : Z).
Context (Ht : atoi a2 = t) (Ha : atoi a3 = a) (Hm : atoi a4 = m).
Context (Htr : 0 < t < 2 ^ 27) (Har : 0 < a < 2 ^ 31) (Hmr : 0 <= m < 2 ^ 31).

(** What [main] computes from arguments in range. *)
Lemma main_start :
  main env [file; a2; a3; a4; a5] =
    (let n := 10737418240 / a in
     match getrandom env (8 * t * n) with
     | None => Err EExit
     | Some bytes =>
         if Z.of_nat (length bytes) <? 8 * t * n then Err EExit
         else let g := mkGlobals (1048576 * m) a n (bool_decide (a5 = [114])) in
              let? os := reduce g (cells (Z.to_nat (t * n)) bytes) in
              if negb (read_flag g) && negb (opens env urandom) then Err EExit
              else spawn (Z.to_nat t) env file g os 0
     end).
Proof.
  unfold main. rewrite Ht, Ha, Hm. change (10 * 1024 * 1024 * 1024) with 10737418240. change (1024 * 1024) with 1048576.
  rewrite (wrap_id 64 t), (wrap_id 64 a), (wrap_id 64 m) by (split; lia). unfold udiv. rewrite (proj2 (Z.eqb_neq a 0)) by lia. simpl rbind.
  assert (0 <= 10737418240 / a <= 10737418240) as Hn.
  { split; [apply Z.div_pos; lia|]. apply Z.div_le_upper_bound; nia. }
  set (n := 10737418240 / a) in *. clearbody n. unfold wmul.
  assert (t * n <= 134217728 * 10737418240) by (apply Z.mul_le_mono_nonneg; lia).
  rewrite (wrap_id 64 (8 * t)), (wrap_id 64 (1048576 * m)), !wrap_id by (split; lia). done.
Qed.

Context (Hfit : a < 1048576 * m) (Hstack : a <= stack env) (Hopen : opens env file = true) (Hur : a5 = [114] \/ opens env urandom = true).

(** The threads, when all random bytes are there. *)
Lemma main_accesses bytes :
  getrandom env (8 * t * (10737418240 / a)) = Some bytes -> Z.of_nat (length bytes) = 8 * t * (10737418240 / a) ->
  exists ts, main env [file; a2; a3; a4; a5] = Ok ts /\ Z.of_nat (length ts) = t /\
    Forall (fun th => Z.of_nat (length th) = 10737418240 / a) ts /\
    Forall (fun x => 0 <= off_of x /\ len_of x = a /\ off_of x + len_of x < 1048576 * m) (concat ts) /\
    off_of <$> concat ts = (fun o => o mod (1048576 * m - a)) <$> cells (Z.to_nat (t * (10737418240 / a))) bytes.
Proof.
  intros Hr Hl. rewrite main_start. cbn zeta.
  assert (0 <= 10737418240 / a) as Hn by (apply Z.div_pos; lia). set (n := 10737418240 / a) in *. clearbody n.
  rewrite Hr, Hl, Z.ltb_irrefl. set (g := mkGlobals _ _ _ _).
  rewrite (reduce_ok g) by (simpl; lia). simpl rbind.
  set (os := _ <$> cells _ _). assert (length os = Z.to_nat (t * n)) as Hos by (unfold os; by rewrite length_fmap, length_cells).
  assert (negb (bool_decide (a5 = [114])) && negb (opens env urandom) = false) as ->.
  { destruct Hur as [Hr5| ->]; [by rewrite bool_decide_true|by rewrite andb_false_r]. }
  destruct (spawn_ok (Z.to_nat t) env file g os 0) as (ts & -> & Hts & Hall & Hcat); [done|done|lia|simpl; lia|simpl; rewrite Hos; nia|].
  simpl num_accesses in *. rewrite Nat.mul_0_l, drop_0, take_ge in Hcat by (rewrite Hos; nia).
  exists ts. split_and!; [done|lia|done| |].
  - rewrite Hcat. apply Forall_fmap. unfold os. apply Forall_fmap, Forall_forall. intros o _. simpl. unfold access_of. simpl.
    pose proof (Z.mod_pos_bound o (1048576 * m - a) ltac:(lia)). destruct (bool_decide _); simpl; lia.
  - rewrite Hcat. rewrite <- list_fmap_compose. unfold os. rewrite <- list_fmap_compose. apply list_fmap_ext.
    intros k o _. simpl. unfold access_of. by destruct (read_flag g).
Qed.

(** C23. Let the access size be [a] bytes, smaller than the file of [m] MiB and
    than the stack of a thread, and let the files open.  If [getrandom]
    delivers the eight bytes for each of the [t * (10 GiB / a)] offsets, every
    thread performs [10 GiB / a] accesses of [a] bytes, all of them inside the
    file, and the threads share out the generated offsets in order, none twice.
    Otherwise the program exits; it always does so when more than 33554431
    bytes are needed, since one call delivers no more (getrandom(2)). *)
Theorem micro_bench_in_file :
  (forall len bytes, 0 <= len -> getrandom env len = Some bytes -> Z.of_nat (length bytes) <= Z.min len 33554431) ->
  let n := 10737418240 / a in
  match getrandom env (8 * t * n) with
  | Some bytes =>
      if Z.of_nat (length bytes) =? 8 * t * n then
        exists ts, main env [file; a2; a3; a4; a5] = Ok ts /\ Z.of_nat (length ts) = t /\
          Forall (fun th => Z.of_nat (length th) = n) ts /\
          Forall (fun x => 0 <= off_of x /\ len_of x = a /\ off_of x + len_of x < 1048576 * m) (concat ts) /\
          off_of <$> concat ts = (fun o => o mod (1048576 * m - a)) <$> cells (Z.to_nat (t * n)) bytes
      else main env [file; a2; a3; a4; a5] = Err EExit
  | None => main env [file; a2; a3; a4; a5] = Err EExit
  end /\
  (33554431 < 8 * t * n -> main env [file; a2; a3; a4; a5] = Err EExit).
Proof.
  intros Hmax n. destruct (getrandom env (8 * t * n)) as [bytes|] eqn:E.
  - assert (0 <= 8 * t * n) as H0 by (apply Z.mul_nonneg_nonneg; [lia|apply Z.div_pos; lia]). pose proof (Hmax _ _ H0 E) as Hle. destruct (Z.eqb_spec (Z.of_nat (length bytes)) (8 * t * n)) as [Heq|Hne].
    + split; [by apply main_accesses|lia].
    + assert (main env [file; a2; a3; a4; a5] = Err EExit) as Hex; [|done].
      rewrite main_start. cbn zeta. fold n. rewrite E. by rewrite (proj2 (Z.ltb_lt _ _)) by lia.
  - assert (main env [file; a2; a3; a4; a5] = Err EExit) as Hex; [|done]. rewrite main_start. cbn zeta. fold n. by rewrite E.
Qed.
End run.

(** A Linux system: [getrandom] delivers up to its limit, the stack has 8 MiB. *)
Definition linux : environment := mkEnv (fun len => Some (replicate (Z.to_nat (Z.min len 33554431)) 7)) (fun _ => true) 8388608.

(** One thread reads 4 MiB at a time from a file of 16 GiB: 2560 accesses.  Two
    threads with 4 KiB at a time need too many offsets. *)
Lemma micro_bench_in_file_witness :
  (exists ts, main linux [[102]; [49]; [52; 49; 57; 52; 51; 48; 52]; [49; 54; 51; 56; 52]; [114]] = Ok ts /\ Z.of_nat (length ts) = 1 /\
    Forall (fun th => Z.of_nat (length th) = 2560) ts) /\
  main linux [[102]; [50]; [52; 48; 57; 54]; [49; 54; 51; 56; 52]; [114]] = Err EExit.
Proof.
  assert (forall len bytes, 0 <= len -> getrandom linux len = Some bytes -> Z.of_nat (length bytes) <= Z.min len 33554431) as Hmax.
  { intros len bytes H0 [= <-]. rewrite length_replicate. lia. }
  split.
  - destruct (micro_bench_in_file linux [102] [49] [52; 49; 57; 52; 51; 48; 52] [49; 54; 51; 56; 52] [114] 1 4194304 16384
      eq_refl eq_refl eq_refl ltac:(lia) ltac:(lia) ltac:(lia) ltac:(lia) ltac:(simpl; lia) eq_refl (or_introl eq_refl) Hmax) as [H _].
    cbv beta iota zeta delta [getrandom linux] in H. rewrite length_replicate in H. change (10737418240 / 4194304) with 2560 in H.
    change (Z.of_nat (Z.to_nat (Z.min (8 * 1 * 2560) 33554431)) =? 8 * 1 * 2560) with true in H.
    destruct H as (ts & Hrun & Hl & Hall & _). exists ts. split; [exact Hrun|]. by split.
  - apply (micro_bench_in_file linux [102] [50] [52; 48; 57; 54] [49; 54; 51; 56; 52] [114] 2 4096 16384
      eq_refl eq_refl eq_refl ltac:(lia) ltac:(lia) ltac:(lia) ltac:(lia) ltac:(simpl; lia) eq_refl (or_introl eq_refl) Hmax).
    reflexivity.
Defined.

(** A failed call is never reported: its -1 becomes the largest [size_t]. *)
Lemma failed_io_unreported a : 0 <= a < 2 ^ 31 -> reports_error (-1) a = false.
Proof. intros Ha. unfold reports_error. change (wrap 64 (-1)) with 18446744073709551615. apply Z.ltb_ge. lia. Qed.
