(* ===== verification/KVStore.v ===== *)
(** * The key-value store the experiments drive

    What mqssd.cc and reader.cc rely on of [rocksdb::DB], as an interface: the
    calls they make and, as laws, the documented meaning of those calls.  The
    programs' theorems are proved against the interface; a finite map is an
    instance of it. *)

From S2P Require Import Prelude.

(** [None] of [db_put], [db_flush] is a status that is not OK; [None] of
    [db_get] is NotFound. *)
Class KVStore (DB : Type) : Type := {
  db_put : list Z -> list Z -> DB -> option DB;
  db_get : DB -> list Z -> option (list Z);
  db_flush : DB -> option DB;
  db_close : DB -> bool;
}.

(** A successful [Put] sets its key and no other; [Flush] changes no value. *)
Class KVLaws (DB : Type) `{KVStore DB} : Prop := {
  get_put d k v d' k' : db_put k v d = Some d' -> db_get d' k' = if decide (k = k') then Some v else db_get d k';
  get_flush d d' k : db_flush d = Some d' -> db_get d' k = db_get d k;
}.

(** A store whose calls succeed. *)
Class KVReliable (DB : Type) `{KVStore DB} : Prop := {
  put_succeeds d k v : is_Some (db_put k v d);
  flush_succeeds d : is_Some (db_flush d);
  close_succeeds d : db_close d = true;
}.

(** ** A finite map as a store *)

#[export] Instance gmap_store : KVStore (gmap (list Z) (list Z)) := {|
  db_put k v d := Some (<[k := v]> d);
  db_get d k := d !! k;
  db_flush d := Some d;
  db_close d := true;
|}.

#[export] Instance gmap_laws : KVLaws (gmap (list Z) (list Z)).
Proof.
  split.
  - intros d k v d' k' [= <-]. simpl. destruct (decide (k = k')) as [->|]; [by rewrite lookup_insert_eq|by rewrite lookup_insert_ne].
  - by intros d d' k [= <-].
Qed.

#[export] Instance gmap_reliable : KVReliable (gmap (list Z) (list Z)).
Proof. by split; [eexists|eexists|]. Qed.
