(* ===== verification/MqssdOptions.v ===== *)
(** * Configuration of the RocksDB experiments

    rocksdb-8.6.7/mqssd: the command lines of mqssd.cc and dbb.cc and the
    options they open the database with.  Fields keep the width RocksDB
    declares them with. *)

From Stdlib Require Import SpecFloat.
From stdpp Require Import strings.
From S2P Require Import Prelude Words Text BloomFilter.

(** The codes of a C string. *)
Definition codes (s : string) : list Z := (fun c => Z.of_nat (Ascii.nat_of_ascii c)) <$> String.list_ascii_of_string s.

Inductive CompactionStyle : Type := kCompactionStyleLevel | kCompactionStyleUniversal.
Inductive CompressionType : Type := kNoCompression | kOtherCompression.

(** [compaction_options_universal]. *)
Record UniversalOptions : Type := mkUniversal {
  size_ratio : Z;
  min_merge_width : Z;
  max_merge_width : Z;
  max_size_amplification_percent : Z;
}.

(** The fields of [rocksdb::Options] and [BlockBasedTableOptions] the programs
    set, and the thread counts of [options.env]. *)
Record Options : Type := mkOptions {
  create_if_missing : bool;
  compaction_readahead_size : Z;
  allow_mmap_reads : bool;
  allow_mmap_writes : bool;
  use_direct_reads : bool;
  use_direct_io_for_flush_and_compaction : bool;
  compression : CompressionType;
  max_open_files : Z;
  write_buffer_size : Z;
  target_file_size_base : Z;
  max_background_jobs : Z;
  high_threads : Z;
  max_background_flushes : Z;
  low_threads : Z;
  max_background_compactions : Z;
  max_subcompactions : Z;
  num_levels : Z;
  compaction_style : CompactionStyle;
  level_compaction_dynamic_level_bytes : bool;
  target_file_size_multiplier : Z;
  max_bytes_for_level_base : Z;
  max_bytes_for_level_multiplier : spec_float;
  level0_file_num_compaction_trigger : Z;
  periodic_compaction_seconds : Z;
  compaction_options_universal : UniversalOptions;
  block_cache : Z;
  partition_filters : bool;
}.

(** The static variables of mqssd.cc. *)
Record Params : Type := mkParams {
  DATA_DIR : list Z;
  nkeys : Z;
  nqueries : Z;
  nflushthreads : Z;
  ncompthreads : Z;
  fanout : Z;
  leveled_compaction : bool;
  dynamic_level : bool;
  filesize : Z;
}.

Definition mqssd_params (argv : list (list Z)) : result Params :=
  match argv with
  | [a1; a2; a3; a4; a5; a6; a7; a8; a9] =>
      Ok (mkParams a1 (strtoull a2) (strtoull a3) (strtoull a4) (strtoull a5) (strtoull a6)
            (bool_decide (take 5 a7 = codes "Level")) (bool_decide (take 1 a8 = codes "1")) (strtoull a9))
  | _ => Err EAssert
  end.

(** dbb.cc has one flush thread and no data. *)
Definition dbb_params (argv : list (list Z)) : result Params :=
  match argv with
  | [a1; a2; a3; a4; a5] =>
      Ok (mkParams [] 0 0 1 (strtoull a1) (strtoull a2)
            (bool_decide (take 5 a3 = codes "Level")) (bool_decide (take 1 a4 = codes "1")) (strtoull a5))
  | _ => Err EAssert
  end.

(** The options set before the branch on the compaction style. *)
Definition common_options (p : Params) (o : Options) : Options :=
  mkOptions (create_if_missing o) (compaction_readahead_size o) (allow_mmap_reads o) (allow_mmap_writes o)
    (use_direct_reads o) (use_direct_io_for_flush_and_compaction o) (compression o) (max_open_files o)
    (wmul 64 (filesize p) 1048576) (wmul 64 (filesize p) 1048576)
    (int32_of (wadd 64 (nflushthreads p) (ncompthreads p)))
    (int32_of (nflushthreads p)) (int32_of (nflushthreads p)) (int32_of (ncompthreads p)) (int32_of (ncompthreads p))
    (wrap 32 (ncompthreads p))
    (num_levels o) (compaction_style o) (level_compaction_dynamic_level_bytes o) (target_file_size_multiplier o)
    (max_bytes_for_level_base o) (max_bytes_for_level_multiplier o) (level0_file_num_compaction_trigger o)
    (periodic_compaction_seconds o) (compaction_options_universal o) (block_cache o) (partition_filters o).

Definition leveled_options (num_L1_files : Z) (p : Params) (o : Options) : Options :=
  mkOptions (create_if_missing o) (compaction_readahead_size o) (allow_mmap_reads o) (allow_mmap_writes o)
    (use_direct_reads o) (use_direct_io_for_flush_and_compaction o) (compression o) (max_open_files o)
    (write_buffer_size o) (target_file_size_base o) (max_background_jobs o) (high_threads o) (max_background_flushes o)
    (low_threads o) (max_background_compactions o) (max_subcompactions o)
    9 kCompactionStyleLevel (dynamic_level p) 1
    (wmul 64 num_L1_files (target_file_size_base o)) (double_of (fanout p)) (int32_of num_L1_files)
    (periodic_compaction_seconds o) (compaction_options_universal o) (block_cache o) (partition_filters o).

Definition universal_options (p : Params) (o : Options) : result Options :=
  let fo := fanout p in
  let? q := udiv fo (wsub 64 fo 1) in
  let percent := wrap 32 (wmul 64 100 (wadd 64 (wsub 64 fo 1) q)) in
  Ok (mkOptions (create_if_missing o) (compaction_readahead_size o) (allow_mmap_reads o) (allow_mmap_writes o)
    (use_direct_reads o) (use_direct_io_for_flush_and_compaction o) (compression o) (max_open_files o)
    (write_buffer_size o) (target_file_size_base o) (max_background_jobs o) (high_threads o) (max_background_flushes o)
    (low_threads o) (max_background_compactions o) (max_subcompactions o)
    (int32_of (wmul 64 fo 5)) kCompactionStyleUniversal (level_compaction_dynamic_level_bytes o) (target_file_size_multiplier o)
    (max_bytes_for_level_base o) (max_bytes_for_level_multiplier o) (int32_of fo)
    0 (mkUniversal 1 (wrap 32 fo) (wrap 32 fo) percent) (block_cache o) (partition_filters o)).

(** The options [main] sets; the same statements in mqssd.cc and dbb.cc. *)
Definition configure (p : Params) (o : Options) : result Options :=
  let o := common_options p o in
  if leveled_compaction p then Ok (leveled_options 4 p o) else universal_options p o.

(** The options [init] sets before it opens the database. *)
Definition init_options (o : Options) : Options :=
  mkOptions true 0 false false true true kNoCompression (-1)
    (write_buffer_size o) (target_file_size_base o) (max_background_jobs o) (high_threads o) (max_background_flushes o)
    (low_threads o) (max_background_compactions o) (max_subcompactions o)
    (num_levels o) (compaction_style o) (level_compaction_dynamic_level_bytes o) (target_file_size_multiplier o)
    (max_bytes_for_level_base o) (max_bytes_for_level_multiplier o) (level0_file_num_compaction_trigger o)
    (periodic_compaction_seconds o) (compaction_options_universal o)
    (1024 * 1024 * 1024) false.

(** [init]: [open] is [rocksdb::DB::Open], [None] a status that is not OK. *)
Definition init {DB} (open : Options -> option DB) (o : Options) : result (DB * Options) :=
  let o := init_options o in
  match open o with Some db => Ok (db, o) | None => Err EAssert end.

(** [main] of dbb.cc: the options the database was opened with. *)
Definition dbb_main {DB} (open : Options -> option DB) (close : DB -> bool) (o : Options) (argv : list (list Z))
  : result Options :=
  let? p := dbb_params argv in
  let? o := configure p o in
  let? (db, o) := init open o in
  if close db then Ok o else Err EAssert.

(** ** What the options come to *)

Lemma int32_of_id z : - 2 ^ 31 <= z < 2 ^ 31 -> int32_of z = z.
Proof.
  intros Hz. unfold int32_of, wrap. destruct (Z.lt_ge_cases z 0).
  - replace (z mod 2 ^ 32) with (z + 2 ^ 32) by (apply Z.mod_unique with (-1); lia).
    destruct (Z.ltb_spec (z + 2 ^ 32) (2 ^ 31)); lia.
  - rewrite Z.mod_small by lia. destruct (Z.ltb_spec z (2 ^ 31)); lia.
Qed.

Lemma universal_percent fo :
  2 <= fo < 2 ^ 24 ->
  exists q, udiv fo (wsub 64 fo 1) = Ok q /\
    wrap 32 (wmul 64 100 (wadd 64 (wsub 64 fo 1) q)) = if fo =? 2 then 300 else 100 * fo.
Proof.
  intros H. unfold udiv, wsub, wadd, wmul. rewrite (wrap_id 64 (fo - 1)) by (split; lia).
  rewrite (proj2 (Z.eqb_neq _ _)) by lia. eexists. split; [done|].
  assert (fo / (fo - 1) = if fo =? 2 then 2 else 1) as ->.
  { destruct (Z.eqb_spec fo 2) as [->|]; [done|]. symmetry. apply Z.div_unique with 1; lia. }
  destruct (Z.eqb_spec fo 2) as [->|]; [done|]. rewrite (wrap_id 64 (fo - 1 + 1)) by (split; lia).
  rewrite (wrap_id 64) by (split; lia). rewrite wrap_id by (split; lia). lia.
Qed.

(** The options of a configuration.  Under universal compaction with a
    fanout [T] from 2 on: compaction starts at [T] sorted runs, merges exactly
    [T] of them at a time, the size amplification limit is [100 T] percent
    (300 for [T = 2]), and there are [5 T] levels.  Under leveled compaction L0
    and L1 both hold four files of the target size.  In both cases [filesize]
    MiB is the size of a memtable and of a file. *)
Lemma configure_shape p o :
  0 <= filesize p < 2 ^ 40 -> 2 <= fanout p < 2 ^ 24 ->
  exists o', configure p o = Ok o' /\
    write_buffer_size o' = 1048576 * filesize p /\ target_file_size_base o' = 1048576 * filesize p /\
    if leveled_compaction p then
      compaction_style o' = kCompactionStyleLevel /\ num_levels o' = 9 /\
      level0_file_num_compaction_trigger o' = 4 /\ max_bytes_for_level_base o' = 4 * target_file_size_base o' /\
      level_compaction_dynamic_level_bytes o' = dynamic_level p
    else
      compaction_style o' = kCompactionStyleUniversal /\ num_levels o' = 5 * fanout p /\
      level0_file_num_compaction_trigger o' = fanout p /\
      compaction_options_universal o' =
        mkUniversal 1 (fanout p) (fanout p) (if fanout p =? 2 then 300 else 100 * fanout p).
Proof.
  intros Hs Hf. unfold configure. assert (wmul 64 (filesize p) 1048576 = 1048576 * filesize p) as Hw.
  { unfold wmul. rewrite wrap_id by (split; lia). lia. }
  destruct (leveled_compaction p).
  - eexists. split; [done|]. simpl. rewrite Hw. split_and!; try done. unfold wmul. by rewrite wrap_id by (split; lia).
  - unfold universal_options. destruct (universal_percent (fanout p) Hf) as (q & -> & Hp). simpl rbind. rewrite Hp.
    eexists. split; [done|]. simpl. rewrite Hw. unfold wmul. rewrite !(wrap_id 64), !(wrap_id 32), !int32_of_id by (unfold word; lia).
    split_and!; done || lia.
Qed.

(** A fanout of one divides by zero in both programs. *)
Lemma fanout_one_traps p o : fanout p = 1 -> leveled_compaction p = false -> configure p o = Err EDivZero.
Proof. intros Hf Hl. unfold configure, universal_options. by rewrite Hl, Hf. Qed.

(** An instance: mqssd with fanout 4 and files of 32 MiB. *)
Definition zero_options : Options :=
  mkOptions false 0 false false false false kNoCompression 0 0 0 0 0 0 0 0 0 0 kCompactionStyleLevel false 0 0 (double_of 0) 0 0
    (mkUniversal 0 0 0 0) 0 false.

Example configure_fanout_four :
  exists o', configure (mkParams [] 0 0 1 1 4 false false 32) zero_options = Ok o' /\
    max_size_amplification_percent (compaction_options_universal o') = 400.
Proof.
  destruct (configure_shape (mkParams [] 0 0 1 1 4 false false 32) zero_options) as (o' & Ho & _ & _ & _ & _ & _ & Hu);
    [simpl; lia|simpl; lia|].
  exists o'. split; [exact Ho|]. rewrite Hu. reflexivity.
Defined.
