(* ===== verification/Mqssd.v ===== *)
(** * The RocksDB experiments

    rocksdb-8.6.7/mqssd: mqssd.cc, reader.cc and the helpers of mqssd_util.cc,
    over the key-value interface of [KVStore].  Files are texts, the random
    numbers of the value generator and the answers to the property queries
    are parameters. *)

From stdpp Require Import strings.
From S2P Require Import Prelude Words Text Slice BloomFilter KVStore MqssdOptions.

(** ** mqssd_util.cc *)

(** [__builtin_bswap64]. *)
Definition bswap64 (word : Z) : Z := le_value (rev (le_bytes 8 word)).

Definition uint64ToString (word : Z) : list Z := le_bytes 8 (bswap64 word).

(** What [GetIntProperty] answers in one round of the wait; [None] is failure. *)
Record poll : Type := mkPoll {
  num_running_flushes : option Z;
  num_running_compactions : option Z;
  mem_table_flush_pending : option Z;
  compaction_pending : option Z;
}.

(** The round reaches the test of [double_checked]. *)
Definition quiet (is_leveled_compaction : bool) (p : poll) : bool :=
  match num_running_flushes p with
  | None => false
  | Some n => if 0 <? n then false else
  match num_running_compactions p with
  | None => false
  | Some n => if 0 <? n then false else
  match mem_table_flush_pending p with
  | None => false
  | Some n => if n =? 1 then false else
  if is_leveled_compaction then
    match compaction_pending p with None => false | Some n => negb (n =? 1) end
  else true
  end end end.

(** The loop of [waitForBGCompactions]: the round in which it breaks. *)
Fixpoint wait_loop (fuel : nat) (polls : nat -> poll) (is_leveled_compaction : bool) (i : nat) (double_checked : bool)
  : result nat :=
  match fuel with
  | O => Err EFuel
  | S fuel =>
      if quiet is_leveled_compaction (polls i) then
        if double_checked then Ok i else wait_loop fuel polls is_leveled_compaction (S i) true
      else wait_loop fuel polls is_leveled_compaction (S i) double_checked
  end.

(** A level of [cf_meta.levels]: its number and the sizes and names of its files. *)
Record level_meta : Type := mkLevel { level : Z; files : list (Z * list Z) }.

Definition largest_used_level (levels : list level_meta) : Z :=
  fold_left (fun l lv => if (0 <? length (files lv))%nat then level lv else l) levels (-1).

(** The levels [printLSM] prints, each with its size and its files. *)
Fixpoint print_levels (largest : Z) (levels : list level_meta) : list (Z * Z * list (Z * list Z)) :=
  match levels with
  | [] => []
  | lv :: rest =>
      (level lv, fold_left (fun s f => s + f.1) (files lv) 0, files lv)
        :: (if level lv =? largest then [] else print_levels largest rest)
  end.

Definition printLSM (levels : list level_meta) : Z * list (Z * Z * list (Z * list Z)) :=
  (largest_used_level levels, print_levels (largest_used_level levels) levels).

(** ** Values *)

Section values.
(** The [k]-th number [dist(e)] returns. *)
Context (dist : Z -> Z).

Definition memset0 (buf : list Z) (n : Z) : result (list Z) :=
  if (0 <=? n) && (n <=? Z.of_nat (length buf)) then Ok (replicate (Z.to_nat n) 0 ++ drop (Z.to_nat n) buf) else Err EBounds.

(** The loop of [setValueBuffer]; [k] numbers have been drawn. *)
Fixpoint value_loop (fuel : nat) (buf : list Z) (size pos k : Z) : result (list Z * Z) :=
  match fuel with
  | O => Err EFuel
  | S fuel =>
      if pos <? size then
        let num := dist k in
        let? buf := memmove buf (Z.of_nat (length buf)) pos (le_bytes 8 num) 8 0 8 in
        value_loop fuel buf size (pos + 8) (k + 1)
      else Ok (buf, k)
  end.

(** The new buffer, and how many numbers have been drawn. *)
Definition setValueBuffer (value_buf : list Z) (size k : Z) : result (list Z * Z) :=
  let? buf := memset0 value_buf size in
  value_loop (S (Z.to_nat size)) buf size (Z.quot size 2) k.

(** ** The workloads of mqssd.cc *)

Context {DB : Type} `{KVStore DB}.

(** The loop of [runWriteWorkload] over the rest of the key file. *)
Fixpoint write_loop (fuel : nat) (text value_buf : list Z) (val_sz k : Z) (db : DB) : result DB :=
  match fuel with
  | O => Err EFuel
  | S fuel =>
      match read_u64 text with
      | None => Ok db
      | Some (key, text) =>
          let? (value_buf, k) := setValueBuffer value_buf (int32_of val_sz) k in
          match db_put (uint64ToString key) (take (Z.to_nat val_sz) value_buf) db with
          | Some db => write_loop fuel text value_buf val_sz k db
          | None => Err EAssert
          end
      end
  end.

(** [fs] gives the text of a file; one that cannot be opened reads as empty.
    [stack] is what the uninitialised buffer holds. *)
Definition runWriteWorkload (fs : list Z -> list Z) (polls : nat -> poll) (patience : nat) (p : Params) (stack : list Z)
    (val_sz : Z) (db : DB) : result DB :=
  let keyFile := fs (DATA_DIR p ++ codes "/keys/1/" ++ to_string (nkeys p) ++ codes "/0") in
  let? db := write_loop (S (length keyFile)) keyFile stack val_sz 0 db in
  match db_flush db with
  | None => Err EAssert
  | Some db =>
      let? _ := wait_loop patience polls (leveled_compaction p) 0 false in
      Ok db
  end.

(** One lookup of the read loops: the assertion on the value's size. *)
Definition probe (db : DB) (q : Z) : result unit :=
  match db_get db (uint64ToString q) with
  | Some val => if (8 <=? length val)%nat then Ok tt else Err EAssert
  | None => Ok tt
  end.

(** The loop of [runReadWorkload]: the keys looked up. *)
Fixpoint read_loop (fuel : nat) (text : list Z) (db : DB) : result (list Z) :=
  match fuel with
  | O => Err EFuel
  | S fuel =>
      match read_u64 text with
      | None => Ok []
      | Some (q, text) =>
          let? _ := probe db q in
          let? qs := read_loop fuel text db in
          Ok (q :: qs)
      end
  end.

Definition query_path (p : Params) : list Z := DATA_DIR p ++ codes "/queries/1/" ++ to_string (nqueries p) ++ codes "/0".

Definition runReadWorkload (fs : list Z -> list Z) (p : Params) (db : DB) : result (list Z) :=
  let queryFile := fs (query_path p) in read_loop (S (length queryFile)) queryFile db.

(** The loop of [warmCache]: [ignore] drops characters after every number. *)
Fixpoint warm_loop (fuel : nat) (text : list Z) (sample_gap : Z) (db : DB) : result (list Z) :=
  match fuel with
  | O => Err EFuel
  | S fuel =>
      match read_u64 text with
      | None => Ok []
      | Some (q, text) =>
          let? _ := probe db q in
          let? qs := warm_loop fuel (drop (Z.to_nat (8 * sample_gap)) text) sample_gap db in
          Ok (q :: qs)
      end
  end.

Definition warmCache (fs : list Z -> list Z) (p : Params) (db : DB) : result (list Z) :=
  let queryFile := fs (query_path p) in
  let sample_gap := Z.max (Z.of_nat (length queryFile) / 1000000) 1 in
  warm_loop (S (length queryFile)) queryFile sample_gap db.

(** [main] of mqssd.cc: the keys looked up while warming and while measuring. *)
Definition mqssd_main (fs : list Z -> list Z) (polls : nat -> poll) (patience : nat) (open : Options -> option DB)
    (o : Options) (stack : list Z) (argv : list (list Z)) : result (DB * list Z * list Z) :=
  let? p := mqssd_params argv in
  let? o := configure p o in
  let? (db, o) := init open o in
  let? db := runWriteWorkload fs polls patience p stack 512 db in
  let? (warm, reads) :=
    (if ncompthreads p =? 1 then
       let? w := warmCache fs p db in
       let? r := runReadWorkload fs p db in
       Ok (w, r)
     else Ok ([], [])) in
  if db_close db then Ok (db, warm, reads) else Err EAssert.

(** ** reader.cc *)

(** The loop: how many queries were answered. *)
Fixpoint reader_loop (fuel : nat) (text : list Z) (db : DB) (count : Z) : result Z :=
  match fuel with
  | O => Err EFuel
  | S fuel =>
      match read_u64 text with
      | None => Ok count
      | Some (q, text) =>
          match db_get db (uint64ToString q) with
          | None => Err EAssert
          | Some _ => reader_loop fuel text db (count + 1)
          end
      end
  end.

Definition reader_main (fs : list Z -> list Z) (open_read_only : option DB) (argv : list (list Z)) : result Z :=
  match argv with
  | [path] =>
      match open_read_only with
      | Some db => let queryFile := fs path in reader_loop (S (length queryFile)) queryFile db 0
      | None => Err EAssert
      end
  | _ => Err EAssert
  end.
End values.
