(* ===== verification/MqssdSpec.v ===== *)
(** * What the RocksDB experiments do

    Theorems on the definitions of [Mqssd]: the order of encoded keys, the
    bounds of the value buffer, the wait for background work, and whole runs
    of mqssd and reader over any store that satisfies the laws of [KVStore]. *)

From stdpp Require Import strings.
From S2P Require Import Prelude Words Text Slice BloomFilter KVStore MqssdOptions Mqssd.

(** ** Keys *)

Lemma uint64ToString_be w : word 64 w -> uint64ToString w = rev (le_bytes 8 w).
Proof.
  intros Hw. unfold uint64ToString, bswap64. change 8%nat with (length (rev (le_bytes 8 w))) at 1.
  apply le_bytes_value, Forall_rev, le_bytes_ok.
Qed.

Lemma be_value_uint64 w : word 64 w -> be_value (uint64ToString w) = w.
Proof. intros Hw. rewrite uint64ToString_be by done. unfold be_value. rewrite rev_involutive. by apply le_value_bytes. Qed.

Lemma uint64ToString_bytes w : Forall byte_ok (uint64ToString w) /\ length (uint64ToString w) = 8%nat.
Proof. split; [apply le_bytes_ok|apply length_le_bytes]. Qed.

Lemma uint64ToString_inj x y : word 64 x -> word 64 y -> uint64ToString x = uint64ToString y -> x = y.
Proof. intros Hx Hy E. rewrite <- (be_value_uint64 x), <- (be_value_uint64 y) by done. by rewrite E. Qed.

(** C26. Keys keep their order: RocksDB's bytewise comparison of the encoded
    keys is the comparison of the numbers, so the encoding is also injective. *)
Theorem uint64ToString_order x y :
  word 64 x -> word 64 y -> slice_compare (uint64ToString x) (uint64ToString y) = (x ?= y).
Proof.
  intros Hx Hy. rewrite slice_compare_lex, bytes_cmp_be by apply uint64ToString_bytes.
  by rewrite !be_value_uint64.
Qed.

Lemma uint64ToString_order_witness : slice_compare (uint64ToString 255) (uint64ToString 256) = Lt.
Proof. rewrite (uint64ToString_order 255 256); [reflexivity|split; lia|split; lia]. Defined.

(** ** Waiting *)

Lemma wait_loop_true fuel polls lv i j :
  wait_loop fuel polls lv i true = Ok j <->
  (i <= j < i + fuel)%nat /\ quiet lv (polls j) = true /\ (forall m, (i <= m < j)%nat -> quiet lv (polls m) = false).
Proof.
  revert i. induction fuel as [|fuel IH]; intros i; cbn [wait_loop]; [split; [done|intros [? _]; lia]|].
  destruct (quiet lv (polls i)) eqn:E.
  - split.
    + intros [= <-]. split_and!; [lia|lia|done|]. intros m Hm. lia.
    + intros (Hj & _ & Hm). destruct (Nat.eq_dec i j) as [->|]; [done|]. rewrite (Hm i) in E by lia. done.
  - rewrite IH. split.
    + intros (Hj & Hq & Hm). split_and!; [lia|lia|done|]. intros m Hm'. destruct (Nat.eq_dec m i) as [->|]; [done|]. apply Hm. lia.
    + intros (Hj & Hq & Hm). destruct (Nat.eq_dec i j) as [->|]; [congruence|]. split_and!; [lia|lia|done|]. intros m Hm'. apply Hm. lia.
Qed.

Lemma wait_loop_false fuel polls lv i j :
  wait_loop fuel polls lv i false = Ok j <->
  (j < i + fuel)%nat /\ quiet lv (polls j) = true /\
  exists f, (i <= f < j)%nat /\ quiet lv (polls f) = true /\ (forall m, (i <= m < j)%nat -> m <> f -> quiet lv (polls m) = false).
Proof.
  revert i. induction fuel as [|fuel IH]; intros i; cbn [wait_loop].
  { split; [done|]. intros (Hj & _ & f & Hf & _). lia. }
  destruct (quiet lv (polls i)) eqn:E.
  - rewrite wait_loop_true. split.
    + intros (Hj & Hq & Hm). split_and!; [lia|done|]. exists i. split_and!; [lia|lia|done|]. intros m Hm' Hne. apply Hm. lia.
    + intros (Hj & Hq & f & Hf & Hqf & Hm). assert (f = i) as ->.
      { destruct (Nat.eq_dec f i) as [|Hne]; [done|]. rewrite (Hm i) in E by lia. done. }
      split_and!; [lia|lia|done|]. intros m Hm'. apply Hm; lia.
  - rewrite IH. split.
    + intros (Hj & Hq & f & Hf & Hqf & Hm). split_and!; [lia|done|]. exists f. split_and!; [lia|lia|done|].
      intros m Hm' Hne. destruct (Nat.eq_dec m i) as [->|]; [done|]. apply Hm; lia.
    + intros (Hj & Hq & f & Hf & Hqf & Hm). destruct (Nat.eq_dec f i) as [->|]; [congruence|].
      split_and!; [lia|done|]. exists f. split_and!; [lia|lia|done|]. intros m Hm' Hne. apply Hm; lia.
Qed.

Lemma wait_loop_true_returns fuel polls lv i j :
  (i <= j < i + fuel)%nat -> quiet lv (polls j) = true -> exists r, wait_loop fuel polls lv i true = Ok r.
Proof.
  revert i. induction fuel as [|fuel IH]; intros i Hj Hq; [lia|]. cbn [wait_loop]. destruct (quiet lv (polls i)) eqn:E; [eauto|].
  apply IH; [|done]. destruct (Nat.eq_dec i j) as [->|]; [congruence|lia].
Qed.

Lemma wait_loop_returns fuel polls lv i j k :
  (i <= j < k)%nat -> (k < i + fuel)%nat -> quiet lv (polls j) = true -> quiet lv (polls k) = true ->
  exists r, wait_loop fuel polls lv i false = Ok r.
Proof.
  revert i. induction fuel as [|fuel IH]; intros i Hj Hk Hqj Hqk; [lia|]. cbn [wait_loop]. destruct (quiet lv (polls i)) eqn:E.
  - apply (wait_loop_true_returns _ _ _ _ k); [lia|done].
  - apply IH; [|lia|done|done]. destruct (Nat.eq_dec i j) as [->|]; [congruence|lia].
Qed.

(** C30. The wait ends at the second quiet round it sees, whatever happened
    between the two: the flag of the first is not taken back when background
    work starts again.  It ends whenever there are two quiet rounds. *)
Theorem wait_second_quiet fuel polls lv j :
  (wait_loop fuel polls lv 0 false = Ok j <->
   (j < fuel)%nat /\ quiet lv (polls j) = true /\
   exists i, (i < j)%nat /\ quiet lv (polls i) = true /\
     forall m, (m < j)%nat -> m <> i -> quiet lv (polls m) = false) /\
  (forall a b, (a < b < fuel)%nat -> quiet lv (polls a) = true -> quiet lv (polls b) = true ->
   exists r, wait_loop fuel polls lv 0 false = Ok r).
Proof.
  split.
  - rewrite wait_loop_false. split.
    + intros (Hj & Hq & f & Hf & Hqf & Hm). split_and!; [lia|done|]. exists f. split_and!; [lia|done|]. intros m Hm' Hne. apply Hm; lia.
    + intros (Hj & Hq & f & Hf & Hqf & Hm). split_and!; [lia|done|]. exists f. split_and!; [lia|lia|done|]. intros m Hm' Hne. apply Hm; lia.
  - intros a b Hab Ha Hb. apply (wait_loop_returns _ _ _ _ a b); [lia|lia|done|done].
Qed.

(** ** Values *)

Section values.
Context (dist : Z -> Z).

(** The bytes of [n] numbers from the [k]-th on. *)
Definition drawn (k n : Z) : list Z := concat ((fun i => le_bytes 8 (dist i)) <$> seqZ k n).

Lemma length_drawn k n : 0 <= n -> Z.of_nat (length (drawn k n)) = 8 * n.
Proof.
  intros Hn. unfold drawn. rewrite <- (Z2Nat.id n) by lia. generalize (Z.to_nat n). intros m. revert k.
  induction m as [|m IH]; intros k; [done|]. rewrite Nat2Z.inj_succ, seqZ_cons by lia. rewrite Z.pred_succ.
  rewrite fmap_cons. cbn [concat]. rewrite length_app, length_le_bytes. specialize (IH (Z.succ k)). lia.
Qed.

Lemma memmove_word buf pos num :
  0 <= pos -> memmove buf (Z.of_nat (length buf)) pos (le_bytes 8 num) 8 0 8 =
    if pos + 8 <=? Z.of_nat (length buf) then Ok (splice buf (Z.to_nat pos) (le_bytes 8 num)) else Err EBounds.
Proof.
  intros Hp. unfold memmove. rewrite (proj2 (Z.leb_le 0 pos)) by done. cbn [Z.leb Z.compare andb]. rewrite length_le_bytes.
  destruct (Z.leb_spec (pos + 8) (Z.of_nat (length buf))) as [Hle|Hgt]; [|done].
  rewrite (proj2 (Nat.leb_le _ _)) by lia. cbn [andb]. rewrite drop_0, take_ge by (by rewrite length_le_bytes). done.
Qed.

(** The loop fills the buffer from [pos] on, if whole numbers fit. *)
Lemma value_loop_ok fuel buf size pos k :
  0 <= pos <= size -> Z.of_nat (length buf) = size -> size - pos < Z.of_nat fuel ->
  value_loop dist fuel buf size pos k =
    if (size - pos) mod 8 =? 0 then Ok (take (Z.to_nat pos) buf ++ drawn k ((size - pos) / 8), k + (size - pos) / 8)
    else Err EBounds.
Proof.
  revert buf pos k. induction fuel as [|fuel IH]; intros buf pos k Hp Hl Hf; [lia|]. cbn [value_loop].
  destruct (Z.ltb_spec pos size) as [Hlt|Hge].
  - rewrite memmove_word by lia. rewrite Hl. destruct (Z.leb_spec (pos + 8) size) as [H8|H8]; simpl rbind.
    + assert (Z.of_nat (length (splice buf (Z.to_nat pos) (le_bytes 8 (dist k)))) = size) as Hl'.
      { unfold splice. rewrite !length_app, length_take, length_drop, length_le_bytes. lia. }
      rewrite IH; [|lia|exact Hl'|lia].
      assert ((size - (pos + 8)) mod 8 = (size - pos) mod 8) as ->.
      { replace (size - pos) with (size - (pos + 8) + 1 * 8) by lia. by rewrite Z.mod_add. }
      assert ((size - pos) / 8 = (size - (pos + 8)) / 8 + 1) as ->.
      { replace (size - pos) with (size - (pos + 8) + 1 * 8) by lia. by rewrite Z.div_add. }
      destruct (_ =? 0); [|done]. do 2 f_equal; [|lia].
      assert (0 <= (size - (pos + 8)) / 8) as Hq by (apply Z.div_pos; lia). set (q := (size - (pos + 8)) / 8) in *. clearbody q.
      unfold drawn at 2. rewrite (seqZ_cons k) by lia. rewrite fmap_cons. cbn [concat]. replace (Z.pred (q + 1)) with q by lia.
      change (Z.succ k) with (k + 1). fold (drawn (k + 1) q). rewrite app_assoc. f_equal.
      unfold splice. rewrite (app_assoc (take _ _)). apply take_app_length'. rewrite length_app, length_take, length_le_bytes. lia.
    + rewrite (Z.mod_small (size - pos)) by lia. by rewrite (proj2 (Z.eqb_neq _ _)) by lia.
  - replace (size - pos) with 0 by lia. simpl. rewrite app_nil_r, take_ge by lia. by rewrite Z.add_0_r.
Qed.

Lemma setValueBuffer_spec buf size k :
  0 <= size -> Z.of_nat (length buf) = size ->
  setValueBuffer dist buf size k =
    if (size - size / 2) mod 8 =? 0
    then Ok (replicate (Z.to_nat (size / 2)) 0 ++ drawn k ((size - size / 2) / 8), k + (size - size / 2) / 8)
    else Err EBounds.
Proof.
  intros H0 Hl. unfold setValueBuffer, memset0. rewrite Hl, Z.leb_refl, (proj2 (Z.leb_le 0 size)) by done. cbn [andb rbind].
  rewrite drop_ge, app_nil_r by lia. rewrite Z.quot_div_nonneg by lia.
  assert (0 <= size / 2 <= size) by (split; [apply Z.div_pos; lia|apply Z.div_le_upper_bound; lia]).
  rewrite value_loop_ok by (rewrite ?length_replicate; lia). rewrite take_replicate, Nat.min_l by lia. done.
Qed.

(** The value generator stays inside a buffer of [size] bytes exactly when
    eight divides the half it fills; the value is then zeros followed by the
    bytes of consecutive random numbers.  For any other size the last number
    is copied past the end of the buffer. *)
Theorem setValueBuffer_bounds buf size k :
  0 <= size < 2 ^ 31 -> Z.of_nat (length buf) = size ->
  if (size - size / 2) mod 8 =? 0
  then setValueBuffer dist buf size k =
         Ok (replicate (Z.to_nat (size / 2)) 0 ++ drawn k ((size - size / 2) / 8), k + (size - size / 2) / 8)
  else setValueBuffer dist buf size k = Err EBounds.
Proof. intros H0 Hl. rewrite setValueBuffer_spec by lia. by destruct (_ =? 0). Qed.

(** ** Runs of mqssd *)

Context {DB : Type} `{KVStore DB, !KVLaws DB, !KVReliable DB}.

(** Values are long enough for the assertion of the read loops. *)
Definition readable (db : DB) : Prop := forall k v, db_get db k = Some v -> (8 <= length v)%nat.

(** [db'] is [db] with values of [n] bytes put at the keys [ks]. *)
Definition written (n : nat) (ks : list Z) (db db' : DB) : Prop :=
  (forall k, k ∈ ks -> exists v, db_get db' (uint64ToString k) = Some v /\ length v = n) /\
  (forall key, (forall k, k ∈ ks -> key <> uint64ToString k) -> db_get db' key = db_get db key).

Lemma setValueBuffer_512 buf k :
  length buf = 512%nat -> exists buf', setValueBuffer dist buf 512 k = Ok (buf', k + 32) /\ length buf' = 512%nat.
Proof.
  intros Hl. rewrite setValueBuffer_spec by lia. change ((512 - 512 / 2) mod 8 =? 0) with true. change ((512 - 512 / 2) / 8) with 32.
  eexists. split; [done|]. rewrite length_app, length_replicate. change (Z.to_nat (512 / 2)) with 256%nat. pose proof (length_drawn k 32 ltac:(lia)). lia.
Qed.

Lemma write_loop_ok fuel text buf k db :
  (length text < fuel)%nat -> length buf = 512%nat ->
  exists db', write_loop dist fuel text buf 512 k db = Ok db' /\ written 512 (numbers text) db db'.
Proof.
  revert text buf k db. induction fuel as [|fuel IH]; intros text buf k db Hf Hb; [lia|]. cbn [write_loop].
  destruct (read_u64 text) as [[key text']|] eqn:E.
  - change (int32_of 512) with 512. destruct (setValueBuffer_512 buf k Hb) as (buf' & -> & Hb'). simpl rbind. cbv beta iota.
    change (Z.to_nat 512) with 512%nat. rewrite (take_ge buf') by lia. destruct (put_succeeds db (uint64ToString key) buf') as [db1 Hput]. rewrite Hput.
    pose proof (read_u64_shorter _ _ _ E) as Hlt. destruct (IH text' buf' (k + 32) db1) as (db' & Hrun & Hk & Hother); [lia|done|].
    exists db'. split; [exact Hrun|]. rewrite (numbers_cons _ _ _ E). pose proof (fun k' => get_put db _ _ db1 k' Hput) as Hget. split.
    + intros q [->|Hq]%elem_of_cons; [|by apply Hk]. destruct (decide (Exists (fun k' => uint64ToString key = uint64ToString k') (numbers text'))) as [Hin|Hnin].
      * apply Exists_exists in Hin as (k' & Hin & Heq). rewrite Heq. by apply Hk.
      * rewrite Hother; [|intros k' Hk' Heq; apply Hnin, Exists_exists; by exists k']. rewrite Hget, decide_True by done. eauto.
    + intros key' Hkey. rewrite Hother; [|intros k' Hk'; apply Hkey; by right]. rewrite Hget, decide_False; [done|].
      intros <-. by apply (Hkey key); [left|].
  - exists db. split; [done|]. rewrite (numbers_nil _ E). split; [by intros k' Hk%elem_of_nil|done].
Qed.

Lemma written_readable n ks db db' : (8 <= n)%nat -> readable db -> written n ks db db' -> readable db'.
Proof.
  intros Hn Hr [Hk Ho] key v Hget. destruct (decide (Exists (fun k' => key = uint64ToString k') ks)) as [Hin|Hnin].
  - apply Exists_exists in Hin as (k' & Hin & ->). destruct (Hk k' Hin) as (v' & Hv & Hl). simplify_eq. lia.
  - rewrite Ho in Hget; [by eapply Hr|]. intros k' Hk' ->. apply Hnin, Exists_exists. by exists k'.
Qed.

Lemma probe_ok db q : readable db -> probe db q = Ok tt.
Proof.
  intros Hr. unfold probe. destruct (db_get db (uint64ToString q)) as [v|] eqn:E; [|done].
  by rewrite (proj2 (Nat.leb_le _ _) (Hr _ _ E)).
Qed.

Lemma read_loop_ok fuel text db : readable db -> (length text < fuel)%nat -> read_loop fuel text db = Ok (numbers text).
Proof.
  intros Hr. revert text. induction fuel as [|fuel IH]; intros text Hf; [lia|]. cbn [read_loop].
  destruct (read_u64 text) as [[q text']|] eqn:E; [|by rewrite (numbers_nil _ E)].
  rewrite probe_ok by done. simpl rbind. pose proof (read_u64_shorter _ _ _ E). rewrite IH by lia. simpl. by rewrite (numbers_cons _ _ _ E).
Qed.

(** The numbers of a text when [skip] characters are dropped behind every number
    that is read. *)
Fixpoint samples_from (fuel skip : nat) (text : list Z) : list Z :=
  match fuel with
  | O => []
  | S fuel => match read_u64 text with Some (q, text) => q :: samples_from fuel skip (drop skip text) | None => [] end
  end.
Definition samples (skip : nat) (text : list Z) : list Z := samples_from (S (length text)) skip text.

Lemma warm_loop_ok fuel text gap db :
  readable db -> (length text < fuel)%nat -> warm_loop fuel text gap db = Ok (samples_from fuel (Z.to_nat (8 * gap)) text).
Proof.
  intros Hr. revert text. induction fuel as [|fuel IH]; intros text Hf; [lia|]. cbn [warm_loop samples_from].
  destruct (read_u64 text) as [[q text']|] eqn:E; [|done]. rewrite probe_ok by done. simpl rbind.
  pose proof (read_u64_shorter _ _ _ E). rewrite IH by (rewrite length_drop; lia). done.
Qed.

(** ** Whole runs *)

(** Two quiet rounds within the patience of the model. *)
Definition settles (polls : nat -> poll) (lv : bool) (patience : nat) : Prop :=
  exists a b, (a < b < patience)%nat /\ quiet lv (polls a) = true /\ quiet lv (polls b) = true.

Definition key_path (p : Params) : list Z := DATA_DIR p ++ codes "/keys/1/" ++ to_string (nkeys p) ++ codes "/0".

Lemma runWriteWorkload_ok fs polls patience p stack db :
  length stack = 512%nat -> settles polls (leveled_compaction p) patience ->
  exists db', runWriteWorkload dist fs polls patience p stack 512 db = Ok db' /\ written 512 (numbers (fs (key_path p))) db db'.
Proof.
  intros Hs (a & b & Hab & Ha & Hb). unfold runWriteWorkload. fold (key_path p).
  destruct (write_loop_ok (S (length (fs (key_path p)))) (fs (key_path p)) stack 0 db) as (db1 & -> & Hk & Ho); [lia|done|]. simpl rbind.
  destruct (flush_succeeds db1) as [db2 Hfl]. rewrite Hfl.
  destruct (wait_loop_returns patience polls (leveled_compaction p) 0 a b) as [r ->]; [lia|lia|done|done|]. simpl.
  exists db2. split; [done|]. pose proof (fun k => get_flush db1 db2 k Hfl) as Hg. split.
  - intros k Hin. rewrite Hg. by apply Hk.
  - intros key Hkey. rewrite Hg. by apply Ho.
Qed.

Section run.
Context (fs : list Z -> list Z) (polls : nat -> poll) (patience : nat) (open : Options -> option DB) (o o1 : Options) (stack : list Z).
Context (argv : list (list Z)) (p : Params) (db : DB).
Context (Hp : mqssd_params argv = Ok p) (Ho : configure p o = Ok o1) (Hopen : open (init_options o1) = Some db).
Context (Hs : length stack = 512%nat) (Hq : settles polls (leveled_compaction p) patience).

Lemma mqssd_main_ok :
  readable db ->
  exists db' warm reads, mqssd_main dist fs polls patience open o stack argv = Ok (db', warm, reads) /\
    written 512 (numbers (fs (key_path p))) db db' /\
    let queries := fs (query_path p) in
    if ncompthreads p =? 1
    then warm = samples (Z.to_nat (8 * Z.max (Z.of_nat (length queries) / 1000000) 1)) queries /\ reads = numbers queries
    else warm = [] /\ reads = [].
Proof.
  intros Hr. unfold mqssd_main, init. rewrite Hp. simpl rbind. rewrite Ho. simpl rbind. rewrite Hopen. cbn [rbind].
  destruct (runWriteWorkload_ok fs polls patience p stack db Hs Hq) as (db' & -> & Hw). cbn [rbind].
  assert (readable db') as Hr' by (eapply written_readable; [|exact Hr|exact Hw]; lia).
  destruct (ncompthreads p =? 1).
  - unfold warmCache, runReadWorkload. set (q := fs (query_path p)). rewrite warm_loop_ok by (done || lia). cbn [rbind].
    rewrite read_loop_ok by (done || lia). cbn [rbind]. rewrite close_succeeds. eauto 10.
  - cbn [rbind]. rewrite close_succeeds. by exists db', [], [].
Qed.
End run.

(** C28. A run of mqssd over a reliable store whose values have at least eight
    bytes to begin with, and whose background work is quiet in two rounds of the
    wait: no assertion fails, whatever the two files contain; afterwards every
    number of the key file is stored with a value of 512 bytes and nothing else
    has changed.  With one compaction thread the cache is warmed with the
    numbers found in the query file when eight characters, or eight for every
    million of the file, are skipped behind each, and then exactly the numbers
    of the query file are looked up; otherwise nothing is looked up. *)
Theorem mqssd_run fs polls patience open o o1 stack argv p db :
  mqssd_params argv = Ok p -> configure p o = Ok o1 -> open (init_options o1) = Some db ->
  length stack = 512%nat -> settles polls (leveled_compaction p) patience -> readable db ->
  exists db' warm reads, mqssd_main dist fs polls patience open o stack argv = Ok (db', warm, reads) /\
    written 512 (numbers (fs (key_path p))) db db' /\
    let queries := fs (query_path p) in
    if ncompthreads p =? 1
    then warm = samples (Z.to_nat (8 * Z.max (Z.of_nat (length queries) / 1000000) 1)) queries /\ reads = numbers queries
    else warm = [] /\ reads = [].
Proof. apply mqssd_main_ok. Qed.

(** ** Runs of reader *)

Lemma reader_loop_ok fuel text db c :
  (length text < fuel)%nat ->
  reader_loop fuel text db c =
    if forallb (fun q => bool_decide (is_Some (db_get db (uint64ToString q)))) (numbers text)
    then Ok (c + Z.of_nat (length (numbers text))) else Err EAssert.
Proof.
  revert text c. induction fuel as [|fuel IH]; intros text c Hf; [lia|]. cbn [reader_loop].
  destruct (read_u64 text) as [[q text']|] eqn:E.
  - rewrite (numbers_cons _ _ _ E). cbn [forallb length]. pose proof (read_u64_shorter _ _ _ E).
    destruct (db_get db (uint64ToString q)) as [v|]; [|done]. rewrite bool_decide_true by eauto. cbn [andb].
    rewrite IH by lia. destruct (forallb _ _); [|done]. f_equal. lia.
  - rewrite (numbers_nil _ E). simpl. f_equal. lia.
Qed.

Lemma numbers_words text : Forall (word 64) (numbers text).
Proof.
  unfold numbers. generalize (S (length text)). intros n. revert text. induction n as [|n IH]; intros t; simpl; [done|].
  destruct (read_u64 t) as [[v t']|] eqn:E; [|done]. constructor; [by eapply read_u64_word|apply IH].
Qed.

(** reader on a store with the contents of [db'], which holds just [keys]. *)
Lemma reader_written fs path keys db db' db2 :
  (forall k, db_get db k = None) -> Forall (word 64) keys -> written 512 keys db db' -> (forall k, db_get db2 k = db_get db' k) ->
  (Forall (fun q => q ∈ keys) (numbers (fs path)) ->
   reader_main fs (Some db2) [path] = Ok (Z.of_nat (length (numbers (fs path))))) /\
  (~ Forall (fun q => q ∈ keys) (numbers (fs path)) -> reader_main fs (Some db2) [path] = Err EAssert).
Proof.
  intros Hempty Hword [Hk Ho] Hsame. unfold reader_main. rewrite reader_loop_ok by lia. pose proof (numbers_words (fs path)) as Hnum.
  assert (forall q, word 64 q -> is_Some (db_get db2 (uint64ToString q)) <-> q ∈ keys) as Hiff.
  { intros q Hq. rewrite Hsame. split; [|intros Hin; destruct (Hk q Hin) as (v & -> & _); eauto].
    intros [v Hv]. destruct (decide (q ∈ keys)) as [|Hnin]; [done|]. rewrite Ho, Hempty in Hv; [done|].
    intros k Hin Heq. apply Hnin. rewrite Forall_forall in Hword. by rewrite (uint64ToString_inj q k Hq (Hword k Hin) Heq). }
  rewrite Forall_forall in Hnum. split.
  - intros Hall. rewrite (proj2 (forallb_forall _ _)); [done|]. intros q Hq. apply list_elem_of_In in Hq.
    apply bool_decide_eq_true, Hiff; [by apply Hnum|]. rewrite Forall_forall in Hall. by apply Hall.
  - intros Hnot. destruct (forallb _ _) eqn:E; [|done]. destruct Hnot. apply Forall_forall. intros q Hq.
    rewrite forallb_forall in E. apply Hiff; [by apply Hnum|]. eapply bool_decide_eq_true, E. by apply list_elem_of_In.
Qed.

(** C29. A run of mqssd on an empty store, and then reader on a store with the
    contents the run left: it answers all queries of its file, and counts them,
    exactly when every one is a number of the key file of the run; otherwise its
    assertion fails. *)
Theorem reader_after_mqssd fs polls patience open o o1 stack argv p db fs' path :
  mqssd_params argv = Ok p -> configure p o = Ok o1 -> open (init_options o1) = Some db ->
  length stack = 512%nat -> settles polls (leveled_compaction p) patience -> (forall k, db_get db k = None) ->
  let keys := numbers (fs (key_path p)) in
  let queries := numbers (fs' path) in
  exists db' warm reads, mqssd_main dist fs polls patience open o stack argv = Ok (db', warm, reads) /\
    forall db2, (forall k, db_get db2 k = db_get db' k) ->
      (Forall (fun q => q ∈ keys) queries -> reader_main fs' (Some db2) [path] = Ok (Z.of_nat (length queries))) /\
      (~ Forall (fun q => q ∈ keys) queries -> reader_main fs' (Some db2) [path] = Err EAssert).
Proof.
  intros Hp Ho Hopen Hs Hq Hempty keys queries.
  destruct (mqssd_main_ok fs polls patience open o o1 stack argv p db Hp Ho Hopen Hs Hq) as (db' & warm & reads & Hrun & Hw & _).
  { intros k v Hk. by rewrite Hempty in Hk. }
  exists db', warm, reads. split; [done|]. intros db2 Hsame. exact (reader_written fs' path keys db db' db2 Hempty (numbers_words _) Hw Hsame).
Qed.
End values.

(** ** Concrete runs *)

(** A value of 16 bytes: eight zeros and one number. *)
Lemma setValueBuffer_bounds_witness :
  setValueBuffer (fun k => k + 258) (replicate 16 9) 16 0 = Ok (replicate 8 0 ++ [2; 1; 0; 0; 0; 0; 0; 0], 1).
Proof.
  pose proof (setValueBuffer_bounds (fun k => k + 258) (replicate 16 9) 16 0 ltac:(lia) eq_refl) as H.
  exact H.
Defined.

(** Keys 5 and 7, queries 7 and 9, leveled compaction with one thread. *)
Definition sample_fs (path : list Z) : list Z :=
  if bool_decide (path = codes "d/keys/1/2/0") then lines_of [5; 7]
  else if bool_decide (path = codes "d/queries/1/2/0") then lines_of [7; 9] else [].

Definition sample_argv : list (list Z) :=
  codes <$> ["d"%string; "2"%string; "2"%string; "1"%string; "1"%string; "4"%string; "Level"%string; "0"%string; "32"%string].

Definition idle : poll := mkPoll (Some 0) (Some 0) (Some 0) (Some 0).

Definition sample_params : Params := mkParams (codes "d") 2 2 1 1 4 true false 32.

Lemma sample_settles : settles (fun _ => idle) (leveled_compaction sample_params) 2.
Proof. exists 0%nat, 1%nat. split; [lia|]. split; reflexivity. Qed.

Lemma mqssd_run_witness :
  exists db' warm reads,
    mqssd_main (fun k => k) sample_fs (fun _ => idle) 2 (fun _ => Some (∅ : gmap (list Z) (list Z))) zero_options
      (replicate 512 0) sample_argv = Ok (db', warm, reads) /\ warm = [7] /\ reads = [7; 9].
Proof.
  destruct (mqssd_run (fun k => k) sample_fs (fun _ => idle) 2 (fun _ => Some (∅ : gmap (list Z) (list Z))) zero_options
    (leveled_options 4 sample_params (common_options sample_params zero_options)) (replicate 512 0) sample_argv sample_params ∅)
    as (db' & warm & reads & Hrun & _ & Hwarm & Hreads).
  - vm_compute. reflexivity.
  - reflexivity.
  - reflexivity.
  - reflexivity.
  - apply sample_settles.
  - intros k v Hk. simpl in Hk. rewrite lookup_empty in Hk. discriminate Hk.
  - exists db', warm, reads. split; [exact Hrun|]. rewrite Hwarm, Hreads. split; vm_compute; reflexivity.
Defined.

(** The queries 7 and 5 are keys, 9 is not. *)
Lemma reader_after_mqssd_witness :
  exists db' warm reads,
    mqssd_main (fun k => k) sample_fs (fun _ => idle) 2 (fun _ => Some (∅ : gmap (list Z) (list Z))) zero_options
      (replicate 512 0) sample_argv = Ok (db', warm, reads) /\
    reader_main (fun _ => lines_of [7; 5; 7]) (Some db') [[102]] = Ok 3.
Proof.
  destruct (reader_after_mqssd (fun k => k) sample_fs (fun _ => idle) 2 (fun _ => Some (∅ : gmap (list Z) (list Z))) zero_options
    (leveled_options 4 sample_params (common_options sample_params zero_options)) (replicate 512 0) sample_argv sample_params ∅ (fun _ => lines_of [7; 5; 7]) [102])
    as (db' & warm & reads & Hrun & Hreader).
  - vm_compute. reflexivity.
  - reflexivity.
  - reflexivity.
  - reflexivity.
  - apply sample_settles.
  - intros k. apply lookup_empty.
  - exists db', warm, reads. split; [exact Hrun|]. apply (Hreader db'); [reflexivity|]. apply (bool_decide_unpack _). vm_compute. exact I.
Defined.

(** Three queries of twenty digits. *)
Definition long_queries : list Z := [12345678901234567890; 11111111112222222222; 13333333334444444444].

(** Warming the cache skips eight characters after every number it reads,
    so from the second lookup on it starts inside a number: of the three keys
    it looks up here two are tails of queries, not queries. *)
Example warmCache_looks_up_tails :
  warmCache (fun _ => lines_of long_queries) sample_params (∅ : gmap (list Z) (list Z)) =
    Ok [12345678901234567890; 1112222222222; 3334444444444] /\
  Forall (fun q => q ∉ long_queries) [1112222222222; 3334444444444].
Proof. split; [vm_compute; reflexivity|]. apply (bool_decide_unpack (Forall (fun q => q ∉ long_queries) _)). vm_compute. exact I. Qed.
