(* ===== verification/Universal.v ===== *)
(** * Universal compaction

    rocksdb-8.6.7/db/compaction/compaction_picker_universal.cc, the picker the
    experiments run under [kCompactionStyleUniversal], with the change the
    repository makes to it (marked "mqssd" in the source): when neither size
    amplification nor size ratios ask for a compaction, none is forced by the
    number of files.  Files carry the fields the picker looks at.  The test
    whether the key range of a compaction overlaps one in progress is that of
    compaction_picker.cc, for user keys without timestamps; the incremental and
    the delete-triggered pick are parameters. *)

From Stdlib Require Import SpecFloat.
From S2P Require Import Prelude Words BloomFilter Coding DbFormat.

(** ** Data *)

Record FileMetaData : Type := mkFile {
  number : Z;
  file_size : Z;
  compensated_file_size : Z;
  file_being_compacted : bool;
  smallest : list Z;
  largest : list Z;
}.

Record SortedRun : Type := mkRun {
  level : Z;
  file : option FileMetaData;
  size : Z;
  compensated_size : Z;
  being_compacted : bool;
}.

(** The files of every level, newest first in level 0, and the files marked
    for periodic compaction with their level. *)
Record VersionStorageInfo : Type := mkStorage {
  level_files : list (list FileMetaData);
  marked_periodic : list (Z * FileMetaData);
  marked_compaction : list (Z * FileMetaData);
}.

Inductive StopStyle : Type := kCompactionStopStyleSimilarSize | kCompactionStopStyleTotalSize.

(** The options the picker reads. *)
Record PickerOptions : Type := mkPicker {
  level0_file_num_compaction_trigger : Z;
  size_ratio : Z;
  min_merge_width : Z;
  max_merge_width : Z;
  max_size_amplification_percent : Z;
  compression_size_percent : Z;
  stop_style : StopStyle;
  incremental : bool;
  allow_ingest_behind : bool;
  preclude_last_level_data_seconds : Z;
  cf_paths : list Z;
}.

Inductive CompactionReason : Type :=
  kUniversalSizeRatio | kUniversalSortedRunNum | kUniversalSizeAmplification | kPeriodicCompaction.

Record Compaction : Type := mkCompaction {
  inputs : list (Z * list FileMetaData);
  output_level : Z;
  path_id : Z;
  enable_compression : bool;
  compaction_reason : CompactionReason;
}.

(** What the picker looks at of a compaction in progress: the output level, the
    range of its user keys, and the range of the penultimate level if it may
    write there too. *)
Record Running : Type := mkRunning {
  running_output_level : Z;
  smallest_user_key : list Z;
  largest_user_key : list Z;
  penultimate_range : option (list Z * list Z);
}.

Definition UINT_MAX : Z := 2 ^ 32 - 1.

Definition num_levels (v : VersionStorageInfo) : Z := Z.of_nat (length (level_files v)).

Definition LevelFiles (v : VersionStorageInfo) (l : Z) : list FileMetaData :=
  match level_files v !! Z.to_nat l with Some fs => fs | None => [] end.

Definition MaxOutputLevel (allow_ingest_behind : bool) (v : VersionStorageInfo) : result Z :=
  if allow_ingest_behind then (if 1 <? num_levels v then Ok (num_levels v - 2) else Err EAssert)
  else Ok (num_levels v - 1).

(** ** Sorted runs *)

(** The constructor of [SortedRun] with its assertions. *)
Definition new_run (l : Z) (f : option FileMetaData) (sz csz : Z) (busy : bool) : result SortedRun :=
  if negb (0 <? csz) then Err EAssert
  else if (l =? 0) && (match f with None => true | Some _ => false end) then Err EAssert
  else Ok (mkRun l f sz csz busy).

Fixpoint runs_of_level0 (fs : list FileMetaData) : result (list SortedRun) :=
  match fs with
  | [] => Ok []
  | f :: fs =>
      let? r := new_run 0 (Some f) (file_size f) (compensated_file_size f) (file_being_compacted f) in
      let? rs := runs_of_level0 fs in
      Ok (r :: rs)
  end.

(** The sums of a level's files: compensated size, size, being compacted. *)
Definition level_totals (fs : list FileMetaData) : Z * Z * bool :=
  fold_left (fun '(tc, ts, b) f =>
    (wadd 64 tc (compensated_file_size f), wadd 64 ts (file_size f), if file_being_compacted f then true else b)) fs (0, 0, false).

(** The loop over levels [l], [l+1], ..., [n] of them. *)
Fixpoint runs_of_levels (v : VersionStorageInfo) (n : nat) (l : Z) : result (list SortedRun) :=
  match n with
  | O => Ok []
  | S n =>
      let '(tc, ts, busy) := level_totals (LevelFiles v l) in
      let? rest := runs_of_levels v n (l + 1) in
      if 0 <? tc then let? r := new_run l None ts tc busy in Ok (r :: rest) else Ok rest
  end.

Definition CalculateSortedRuns (v : VersionStorageInfo) (last_level : Z) : result (list SortedRun) :=
  let? l0 := runs_of_level0 (LevelFiles v 0) in
  let? ls := runs_of_levels v (Z.to_nat last_level) 1 in
  Ok (l0 ++ ls).

(** ** Where a file goes *)

Fixpoint path_loop (paths : list Z) (file_size future_size accumulated_size p : Z) : Z :=
  match paths with
  | [] => p
  | target_size :: rest =>
      match rest with
      | [] => p
      | _ =>
          if (file_size <? target_size) && (future_size <? wadd 64 accumulated_size (target_size - file_size)) then p
          else path_loop rest file_size future_size (wadd 64 accumulated_size target_size) (p + 1)
      end
  end.

Definition GetPathId (o : PickerOptions) (file_size : Z) : result Z :=
  let future_size := wmul 64 file_size (wsub 32 100 (size_ratio o)) / 100 in
  match cf_paths o with
  | [] => Err EAssert
  | paths => Ok (path_loop paths file_size future_size 0 0)
  end.

(** The input levels, counted from the level of the first run. *)
Definition empty_inputs (start_level max_output_level : Z) : list (Z * list FileMetaData) :=
  (fun i => (start_level + i, [])) <$> seqZ 0 (max_output_level + 1).

Definition push_files (ins : list (Z * list FileMetaData)) (i : Z) (fs : list FileMetaData)
  : result (list (Z * list FileMetaData)) :=
  if 0 <=? i then
    match ins !! Z.to_nat i with
    | Some (l, fs0) => Ok (<[Z.to_nat i := (l, fs0 ++ fs)]> ins)
    | None => Err EBounds
    end
  else Err EBounds.

(** The loop that collects the files of the picked runs. *)
Fixpoint collect (v : VersionStorageInfo) (runs : list SortedRun) (start_level : Z) (ins : list (Z * list FileMetaData))
  : result (list (Z * list FileMetaData)) :=
  match runs with
  | [] => Ok ins
  | r :: runs =>
      let? ins :=
        (if level r =? 0 then
           match file r with Some f => push_files ins 0 [f] | None => Err ENull end
         else push_files ins (level r - start_level) (LevelFiles v (level r))) in
      collect v runs start_level ins
  end.

(** ** Compactions in progress *)

Section picker.
Context {port : Port} `{Comparator} (compactions_in_progress_ : list Running).

(** The loop over the files of level 0. *)
Fixpoint level0_range (fs : list FileMetaData) (s l : list Z) : result (list Z * list Z) :=
  match fs with
  | [] => Ok (s, l)
  | f :: fs =>
      let? cs := InternalKeyComparator_Compare (smallest f) s in
      let? cl := InternalKeyComparator_Compare (largest f) l in
      level0_range fs (match cs with Lt => smallest f | _ => s end) (match cl with Gt => largest f | _ => l end)
  end.

(** [GetRange] of one input level. *)
Definition level_range (lv : Z) (fs : list FileMetaData) : result (list Z * list Z) :=
  match fs, last fs with
  | f :: rest, Some g => if lv =? 0 then level0_range rest (smallest f) (largest f) else Ok (smallest f, largest g)
  | _, _ => Err EAssert
  end.

(** [GetRange] of all input levels; [range] is what the levels before give. *)
Fixpoint GetRange (ins : list (Z * list FileMetaData)) (exclude_level : Z) (range : option (list Z * list Z)) : result (list Z * list Z) :=
  match ins with
  | [] => match range with Some r => Ok r | None => Err EAssert end
  | (lv, fs) :: ins =>
      if (length fs =? 0)%nat || (lv =? exclude_level) then GetRange ins exclude_level range
      else
        let? (s, l) := level_range lv fs in
        match range with
        | None => GetRange ins exclude_level (Some (s, l))
        | Some (s0, l0) =>
            let? cs := InternalKeyComparator_Compare s s0 in
            let? cl := InternalKeyComparator_Compare l l0 in
            GetRange ins exclude_level (Some (match cs with Lt => s | _ => s0 end, match cl with Gt => l | _ => l0 end))
        end
  end.

(** The user keys from [s] to [l] meet those from [s'] to [l']. *)
Definition meets (s l s' l' : list Z) : bool :=
  match ucmp s l' with Gt => false | _ => match ucmp l s' with Lt => false | _ => true end end.

Definition OverlapPenultimateLevelOutputRange (c : Running) (s l : list Z) : bool :=
  match penultimate_range c with None => false | Some (ps, pl) => meets s l ps pl end.

Definition RangeOverlapWithCompaction (s l : list Z) (lv : Z) : bool :=
  existsb (fun c => (running_output_level c =? lv) && meets s l (smallest_user_key c) (largest_user_key c)
                    || OverlapPenultimateLevelOutputRange c s l) compactions_in_progress_.

Definition kInvalidLevel : Z := -1.

(** With the universal style. *)
Definition FilesRangeOverlapWithCompaction (ins : list (Z * list FileMetaData)) (lv penultimate_level : Z) : result bool :=
  if forallb (fun i : Z * list FileMetaData => (length i.2 =? 0)%nat) ins then Ok false
  else
    let? (s, l) := GetRange ins kInvalidLevel None in
    let? us := ExtractUserKey s in
    let? ul := ExtractUserKey l in
    if negb (penultimate_level =? kInvalidLevel) && RangeOverlapWithCompaction us ul penultimate_level then Ok true
    else Ok (RangeOverlapWithCompaction us ul lv).

(** ** The picks

    The incremental pick for a threshold and the delete-triggered pick are
    parameters. *)
Context (pick_incremental : spec_float -> option Compaction).
Context (pick_delete_triggered : option Compaction).
Context (v : VersionStorageInfo) (o : PickerOptions).

(** With the universal style. *)
Definition EvaluatePenultimateLevel (start_level output_level : Z) : Z :=
  if negb (output_level =? num_levels v - 1) then kInvalidLevel
  else if output_level - 1 <=? 0 then kInvalidLevel
  else if (start_level =? num_levels v - 1) && negb (length (LevelFiles v (output_level - 1)) =? 0)%nat then kInvalidLevel
  else if 0 <? preclude_last_level_data_seconds o then output_level - 1 else kInvalidLevel.

(** The test before a compaction with these inputs is made. *)
Definition blocked (ins : list (Z * list FileMetaData)) (start_level output_level : Z) : result bool :=
  if negb (output_level =? 0)
  then FilesRangeOverlapWithCompaction ins output_level (EvaluatePenultimateLevel start_level output_level)
  else Ok false.

(** [x * (100.0 + ratio) / 100.0]. *)
Definition enlarge (x ratio : Z) : spec_float :=
  SFdiv 53 1024 (SFmul 53 1024 (double_of x) (SFadd 53 1024 (double_of 100) (double_of ratio))) (double_of 100).

(** The succeeding runs that join the candidate: how many there are then. *)
Fixpoint extend (ratio max_files_to_compact : Z) (runs : list SortedRun) (candidate_size candidate_count : Z) : Z :=
  match runs with
  | [] => candidate_count
  | r :: runs =>
      if negb (candidate_count <? max_files_to_compact) then candidate_count
      else if being_compacted r then candidate_count
      else if SFltb (enlarge candidate_size ratio) (double_of (size r)) then candidate_count
      else match stop_style o with
           | kCompactionStopStyleSimilarSize =>
               if SFltb (enlarge (size r) ratio) (double_of candidate_size) then candidate_count
               else extend ratio max_files_to_compact runs (compensated_size r) (candidate_count + 1)
           | kCompactionStopStyleTotalSize =>
               extend ratio max_files_to_compact runs (wadd 64 candidate_size (compensated_size r)) (candidate_count + 1)
           end
  end.

(** The search for a window of runs, from index [loop] on. *)
Fixpoint find_window (ratio max_files_to_compact min_merge_width : Z) (runs : list SortedRun) (loop : nat) : option (nat * Z) :=
  match runs with
  | [] => None
  | r :: rest =>
      if being_compacted r then find_window ratio max_files_to_compact min_merge_width rest (S loop)
      else
        let candidate_count := extend ratio max_files_to_compact rest (compensated_size r) 1 in
        if min_merge_width <=? candidate_count then Some (loop, candidate_count)
        else find_window ratio max_files_to_compact min_merge_width rest (S loop)
  end.

Definition sum_sizes (runs : list SortedRun) : Z := fold_left (fun a r => wadd 64 a (size r)) runs 0.

(** Whether the older runs, oldest first, reach the percentage of the total. *)
Fixpoint older_reach (older : list SortedRun) (older_file_size total_size percent : Z) : bool :=
  match older with
  | [] => false
  | r :: older =>
      let older_file_size := wadd 64 older_file_size (size r) in
      if wmul 64 total_size (wrap 64 percent) <=? wmul 64 older_file_size 100 then true
      else older_reach older older_file_size total_size percent
  end.

Definition compression_enabled (runs : list SortedRun) (first_index_after : nat) : bool :=
  if 0 <=? compression_size_percent o then
    let total_size := fold_left (fun a r => wadd 64 a (compensated_size r)) runs 0 in
    negb (older_reach (rev (drop first_index_after runs)) 0 total_size (compression_size_percent o))
  else true.

Definition PickCompactionToReduceSortedRuns (runs : list SortedRun) (ratio max_number_of_files_to_compact : Z)
  : result (option Compaction) :=
  let max_files_to_compact := Z.min (max_merge_width o) max_number_of_files_to_compact in
  let min_width := Z.max (min_merge_width o) 2 in
  if (length runs =? 0)%nat then Err EAssert
  else
    match find_window ratio max_files_to_compact min_width runs 0 with
    | None => Ok None
    | Some (start_index, candidate_count) =>
        if candidate_count <=? 1 then Ok None
        else
          let first_index_after := (start_index + Z.to_nat candidate_count)%nat in
          let? path := GetPathId o (sum_sizes (take first_index_after runs)) in
          let? max_output_level := MaxOutputLevel (allow_ingest_behind o) v in
          let? start := rd runs (Z.of_nat (length runs)) (Z.of_nat start_index) in
          let start_level := level start in
          let out :=
            match runs !! first_index_after with
            | None => max_output_level
            | Some next => if level next =? 0 then 0 else level next - 1
            end in
          let? ins := collect v (take (Z.to_nat candidate_count) (drop start_index runs)) start_level
                        (empty_inputs start_level max_output_level) in
          let? stop := blocked ins start_level out in
          if stop : bool then Ok None
          else Ok (Some (mkCompaction ins out path (compression_enabled runs first_index_after)
                     (if max_number_of_files_to_compact =? UINT_MAX then kUniversalSizeRatio else kUniversalSortedRunNum)))
    end.

Definition PickCompactionWithSortedRunRange (runs : list SortedRun) (start_index end_index : nat) (reason : CompactionReason)
  : result (option Compaction) :=
  let? start := (if (start_index <? length runs)%nat then rd runs (Z.of_nat (length runs)) (Z.of_nat start_index) else Err EAssert) in
  if negb (end_index <? length runs)%nat then Err EBounds
  else
    let picked := take (S end_index - start_index) (drop start_index runs) in
    let? path := GetPathId o (sum_sizes picked) in
    let start_level := level start in
    let? max_output_level := MaxOutputLevel (allow_ingest_behind o) v in
    let? ins := collect v picked start_level (empty_inputs start_level max_output_level) in
    let out :=
      match runs !! S end_index with
      | None => max_output_level
      | Some next => level next - 1
      end in
    let? stop := blocked ins start_level out in
    if stop : bool then Ok None
    else Ok (Some (mkCompaction ins out path true reason)).

(** The first run of all but the last that is not being compacted. *)
Fixpoint first_candidate (runs : list SortedRun) (loop : nat) : option nat :=
  match runs with
  | r :: rest =>
      match rest with
      | [] => None
      | _ => if being_compacted r then first_candidate rest (S loop) else Some loop
      end
  | [] => None
  end.

(** The sum of the compensated sizes; [None] when a run is being compacted. *)
Fixpoint candidate_total (runs : list SortedRun) (candidate_size : Z) : option Z :=
  match runs with
  | [] => Some candidate_size
  | r :: runs => if being_compacted r then None else candidate_total runs (wadd 64 candidate_size (compensated_size r))
  end.

Definition PickCompactionToReduceSizeAmp (runs : list SortedRun) : result (option Compaction) :=
  let ratio := max_size_amplification_percent o in
  match last runs with
  | None => Err EAssert
  | Some base =>
      if being_compacted base then Ok None
      else match first_candidate runs 0 with
           | None => Ok None
           | Some start_index =>
               let tiered := (0 <? preclude_last_level_data_seconds o) && (2 <? num_levels v)
                             && (level base =? num_levels v - 1) && (1 <? length runs)%nat in
               let sr_end_idx := (if tiered then length runs - 2 else length runs - 1)%nat in
               let? base_sr := rd runs (Z.of_nat (length runs)) (Z.of_nat sr_end_idx) in
               let base_sr_size := size base_sr in
               let newer := take (sr_end_idx - start_index) (drop start_index runs) in
               match candidate_total newer 0 with
               | None => Ok None
               | Some candidate_size =>
                   if (length newer =? 0)%nat then Ok None
                   else if wmul 64 candidate_size 100 <? wmul 64 ratio base_sr_size then Ok None
                   else
                     let full := PickCompactionWithSortedRunRange runs start_index sr_end_idx kUniversalSizeAmplification in
                     if incremental o then
                       match pick_incremental (SFmul 53 1024 (SFdiv 53 1024 (double_of base_sr_size) (double_of candidate_size))
                               (SFdiv 53 1024 (double_of 18) (double_of 10))) with
                       | Some c => Ok (Some c)
                       | None => full
                       end
                     else full
               end
           end
  end.

(** The runs not being compacted at the old end: where they start. *)
Fixpoint periodic_start (runs_rev : list SortedRun) (start_index : nat) : nat :=
  match runs_rev with
  | r :: runs_rev => if being_compacted r then start_index else periodic_start runs_rev (pred start_index)
  | [] => start_index
  end.

Definition PickPeriodicCompaction (runs : list SortedRun) : result (option Compaction) :=
  let n := length runs in
  let start_index := periodic_start (rev runs) n in
  if (start_index =? n)%nat then Ok None
  else
    let? start := rd runs (Z.of_nat n) (Z.of_nat start_index) in
    let included_file_marked :=
      existsb (fun m : Z * FileMetaData =>
        if negb (level start =? 0) then level start =? m.1
        else match file start with Some f => number f =? number m.2 | None => false end) (marked_periodic v) in
    if (start_index =? n - 1)%nat && negb included_file_marked then Ok None
    else PickCompactionWithSortedRunRange runs start_index (n - 1) kPeriodicCompaction.

(** [PickCompaction]: the compaction chosen. *)
Definition PickCompaction : result (option Compaction) :=
  let? max_output_level := MaxOutputLevel (allow_ingest_behind o) v in
  let? runs := CalculateSortedRuns v max_output_level in
  let marked := negb (length (marked_periodic v) =? 0)%nat in
  if (length runs =? 0)%nat
     || (negb marked && (length (marked_compaction v) =? 0)%nat
         && (Z.of_nat (length runs) <? wrap 32 (level0_file_num_compaction_trigger o))) then Ok None
  else
    let? c := (if marked then PickPeriodicCompaction runs else Ok None) in
    let? c :=
      match c with
      | Some c => Ok (Some c)
      | None =>
          if wrap 64 (level0_file_num_compaction_trigger o) <=? Z.of_nat (length runs) then
            let? c := PickCompactionToReduceSizeAmp runs in
            match c with
            | Some c => Ok (Some c)
            | None => PickCompactionToReduceSortedRuns runs (size_ratio o) UINT_MAX
            end
          else Ok None
      end in
    let c := match c with Some c => Some c | None => pick_delete_triggered end in
    match c with
    | None => Ok None
    | Some c => if output_level c <=? max_output_level then Ok (Some c) else Err EAssert
    end.

End picker.
