(* ===== verification/UniversalSpec.v ===== *)
(** * What the universal picker picks

    Theorems on [Universal]: the window of runs a pick chooses, the order of
    the sorted runs a pick keeps, and the sequence of states that mqssd.cc
    documents for its settings. *)

From Stdlib Require Import SpecFloat Sorted.
From S2P Require Import Prelude Words BloomFilter Coding DbFormat Universal.

(** ** Order of the runs: the files of level 0, then one run per level *)

Definition before (a b : SortedRun) : Prop := level a < level b \/ (level a = 0 /\ level b = 0).

Record ordered (max : Z) (runs : list SortedRun) : Prop := {
  ordered_sorted : StronglySorted before runs;
  ordered_levels : Forall (fun r => 0 <= level r <= max) runs;
  ordered_files : Forall (fun r => level r = 0 -> is_Some (file r)) runs;
}.

Lemma new_run_level l f sz csz b r :
  new_run l f sz csz b = Ok r -> level r = l /\ (l = 0 -> is_Some (file r)).
Proof.
  unfold new_run. destruct (negb (0 <? csz)); [done|]. destruct ((l =? 0) && _) eqn:E; [done|]. intros [= <-]. simpl. split; [done|].
  intros ->. destruct f; [eauto|done].
Qed.

Lemma runs_of_level0_level fs runs : runs_of_level0 fs = Ok runs -> Forall (fun r => level r = 0 /\ is_Some (file r)) runs.
Proof.
  revert runs. induction fs as [|f fs IH]; simpl; [by intros ? [= <-]|]. intros runs. destruct (new_run _ _ _ _ _) as [r|] eqn:E; [|done]. simpl.
  destruct (runs_of_level0 fs) as [rs|]; [|done]. intros [= <-]. apply new_run_level in E as [E1 E2]. constructor; [by auto|]. by apply IH.
Qed.

Lemma runs_of_levels_ordered v n l runs :
  0 < l -> runs_of_levels v n l = Ok runs ->
  StronglySorted before runs /\ Forall (fun r => l <= level r < l + Z.of_nat n) runs.
Proof.
  revert l runs. induction n as [|n IH]; intros l runs Hl; cbn [runs_of_levels]; [intros [= <-]; by repeat constructor|].
  destruct (level_totals (LevelFiles v l)) as [[tc ts] busy]. destruct (runs_of_levels v n (l + 1)) as [rest|] eqn:E; [|done]. simpl.
  destruct (IH (l + 1) rest) as [Hs Hf]; [lia|done|].
  assert (Forall (fun r => l <= level r < l + Z.of_nat (S n)) rest) as Hf' by (eapply Forall_impl; [exact Hf|]; intros x Hx; simpl in Hx; lia).
  destruct (0 <? tc); [|by intros [= <-]]. destruct (new_run l None ts tc busy) as [r|] eqn:Er; [|done]. simpl. intros [= <-].
  apply new_run_level in Er as [Er _]. split.
  - constructor; [done|]. eapply Forall_impl; [exact Hf|]. intros x Hx. left. simpl in Hx. lia.
  - constructor; [lia|done].
Qed.

Lemma StronglySorted_app_2 {A} (R : A -> A -> Prop) l k :
  StronglySorted R l -> StronglySorted R k -> (forall x y, x ∈ l -> y ∈ k -> R x y) -> StronglySorted R (l ++ k).
Proof.
  intros Hl Hk Hlk. induction Hl as [|x l Hl IH Hx]; simpl; [done|]. constructor.
  - apply IH. intros a b Ha Hb. apply Hlk; [by right|done].
  - apply Forall_app. split; [done|]. apply Forall_forall. intros y Hy. apply Hlk; [by left|done].
Qed.

Lemma runs_ordered v last runs : 0 <= last -> CalculateSortedRuns v last = Ok runs -> ordered last runs.
Proof.
  intros Hlast. unfold CalculateSortedRuns. destruct (runs_of_level0 _) as [l0|] eqn:E0; [|done]. simpl.
  destruct (runs_of_levels _ _ _) as [ls|] eqn:E1; [|done]. simpl. intros [= <-].
  apply runs_of_level0_level in E0. apply runs_of_levels_ordered in E1 as [Hs Hf]; [|lia].
  rewrite Forall_forall in E0, Hf. split.
  - apply StronglySorted_app_2; [|done|].
    + clear Hs Hf. induction l0 as [|r l0 IH]; constructor; [apply IH; intros; apply E0; by right|].
      apply Forall_forall. intros r' Hr'. right. split; apply E0; [by left|by right].
    + intros x y Hx Hy. left. destruct (E0 x Hx). specialize (Hf y Hy). lia.
  - apply Forall_app. split; apply Forall_forall; intros r Hr; [destruct (E0 r Hr)|specialize (Hf r Hr)]; lia.
  - apply Forall_app. split; apply Forall_forall; intros r Hr; [intros _; apply (E0 r Hr)|specialize (Hf r Hr); lia].
Qed.

(** ** The window *)

Section window.
Context (o : PickerOptions) (ratio mx : Z).

(** The total of the compensated sizes, as the picker adds them up. *)
Definition comp_sum (c : Z) (runs : list SortedRun) : Z := fold_left (fun a r => wadd 64 a (compensated_size r)) runs c.

(** The size a candidate is compared by once [r] has joined it: the total, or
    that of [r] alone. *)
Definition next_size (c : Z) (r : SortedRun) : Z :=
  match stop_style o with
  | kCompactionStopStyleTotalSize => wadd 64 c (compensated_size r)
  | kCompactionStopStyleSimilarSize => compensated_size r
  end.
Definition cand_size (c : Z) (runs : list SortedRun) : Z := fold_left next_size runs c.

(** Run [r] joins a candidate of size [c]: it is at most [100 + ratio] percent of
    it, and with the second style also the other way round. *)
Definition joins (c : Z) (r : SortedRun) : Prop :=
  being_compacted r = false /\ SFltb (enlarge c ratio) (double_of (size r)) = false /\
  (stop_style o = kCompactionStopStyleSimilarSize -> SFltb (enlarge (size r) ratio) (double_of c) = false).

Lemma extend_step r runs c n :
  (joins c r /\ n < mx /\ extend o ratio mx (r :: runs) c n = extend o ratio mx runs (next_size c r) (n + 1)) \/
  ((mx <= n \/ ~ joins c r) /\ extend o ratio mx (r :: runs) c n = n).
Proof.
  cbn [extend]. unfold joins, next_size. destruct (Z.ltb_spec n mx) as [Hmx|Hmx]; cbn [negb]; [|right; split; [by left|done]].
  destruct (being_compacted r); [right; split; [right; by intros [? _]|done]|].
  destruct (SFltb (enlarge c ratio) _); [right; split; [right; by intros (_ & ? & _)|done]|].
  destruct (stop_style o); [|left; split_and!; [done|done|done|done|done]].
  destruct (SFltb (enlarge (size r) ratio) _); [right; split; [right; intros (_ & _ & H); by specialize (H eq_refl)|done]|].
  left. by split_and!.
Qed.

(** How far a candidate extends: over every run that joins it, up to the
    maximal number of runs and no further. *)
Lemma extend_spec runs c n :
  n <= extend o ratio mx runs c n <= n + Z.of_nat (length runs) /\
  (n <= mx -> extend o ratio mx runs c n <= mx) /\
  (forall j r, runs !! j = Some r -> n + Z.of_nat j < extend o ratio mx runs c n -> joins (cand_size c (take j runs)) r) /\
  (forall r, runs !! Z.to_nat (extend o ratio mx runs c n - n) = Some r -> extend o ratio mx runs c n < mx ->
     ~ joins (cand_size c (take (Z.to_nat (extend o ratio mx runs c n - n)) runs)) r).
Proof.
  revert c n. induction runs as [|r runs IH]; intros c n.
  { cbn [extend]. split_and!; [lia|simpl; lia|lia| |]; [intros j r Hj|intros r Hj]; by rewrite lookup_nil in Hj. }
  destruct (extend_step r runs c n) as [(Hj & Hmx & ->)|(Hno & ->)].
  - destruct (IH (next_size c r) (n + 1)) as (H1 & H2 & H3 & H4). set (e := extend _ _ _ _ _ _) in *. clearbody e.
    split_and!; [lia|simpl length; lia|intros; apply H2; lia| |].
    + intros j r' Hj' Hlt. destruct j as [|j]; [by injection Hj' as <-|]. apply (H3 j); [done|lia].
    + intros r' Hr' Hlt. replace (Z.to_nat (e - n)) with (S (Z.to_nat (e - (n + 1)))) in * by lia. by apply H4.
  - split_and!; [lia|simpl; lia|done|intros; lia|]. rewrite Z.sub_diag. intros r' [= <-] Hlt. destruct Hno as [|Hno]; [lia|done].
Qed.

(** The search finds the first run, not being compacted, from which a
    candidate of the minimal width extends. *)
Definition width (runs : list SortedRun) (i : nat) : Z :=
  match drop i runs with
  | r :: rest => if being_compacted r then 0 else extend o ratio mx rest (compensated_size r) 1
  | [] => 0
  end.

Lemma find_window_spec mn runs loop :
  0 < mn ->
  match find_window o ratio mx mn runs loop with
  | Some (s, k) => exists i, s = (loop + i)%nat /\ (i < length runs)%nat /\ width runs i = k /\ mn <= k /\
                     (forall j, (j < i)%nat -> width runs j < mn)
  | None => forall j, width runs j < mn
  end.
Proof.
  intros Hmn. revert loop. induction runs as [|r runs IH]; intros loop; cbn [find_window].
  { intros j. unfold width. rewrite drop_nil. lia. }
  assert (width (r :: runs) 0 < mn ->
    match find_window o ratio mx mn runs (S loop) with
    | Some (s, k) => exists i, s = (loop + i)%nat /\ (i < length (r :: runs))%nat /\ width (r :: runs) i = k /\ mn <= k /\
                       (forall j, (j < i)%nat -> width (r :: runs) j < mn)
    | None => forall j, width (r :: runs) j < mn
    end) as Hskip.
  { intros H0. specialize (IH (S loop)). destruct (find_window _ _ _ _ _ _) as [[s k]|].
    - destruct IH as (i & -> & Hi & Hw & Hk & Hj). exists (S i). split_and!; [lia|simpl; lia|done|done|].
      intros [|j] Hji; [done|]. apply Hj. lia.
    - intros [|j]; [done|]. apply IH. }
  destruct (being_compacted r) eqn:Eb; [apply Hskip; unfold width; simpl; rewrite Eb; lia|].
  assert (width (r :: runs) 0 = extend o ratio mx runs (compensated_size r) 1) as Hw by (unfold width; simpl; by rewrite Eb).
  rewrite <- Hw. destruct (Z.leb_spec mn (width (r :: runs) 0)); [|by apply Hskip].
  exists 0%nat. split_and!; [lia|simpl; lia|done|done|]. intros j Hj. lia.
Qed.
End window.

(** ** Collecting the files *)

Definition files_of (v : VersionStorageInfo) (r : SortedRun) : list FileMetaData :=
  if level r =? 0 then match file r with Some f => [f] | None => [] end else LevelFiles v (level r).

Lemma push_files_ok ins i fs :
  0 <= i < Z.of_nat (length ins) ->
  exists ins', push_files ins i fs = Ok ins' /\ fst <$> ins' = fst <$> ins /\ concat (snd <$> ins') ≡ₚ concat (snd <$> ins) ++ fs.
Proof.
  intros Hi. unfold push_files. rewrite (proj2 (Z.leb_le 0 i)) by lia.
  destruct (lookup_lt_is_Some_2 ins (Z.to_nat i)) as [[l fs0] Hl]; [lia|]. rewrite Hl. eexists. split; [done|].
  apply list_elem_of_split_length in Hl as (A & B & -> & ->). rewrite insert_app_r_alt, Nat.sub_diag by done. simpl.
  rewrite !fmap_app. split; [done|]. simpl. rewrite !concat_app. simpl. rewrite <- !app_assoc. by rewrite (Permutation_app_comm fs).
Qed.

Lemma collect_ok v max start_level runs ins :
  length ins = Z.to_nat (max + 1) -> 0 <= start_level ->
  Forall (fun r => (level r = 0 \/ start_level <= level r) /\ level r <= max /\ (level r = 0 -> is_Some (file r))) runs -> 0 <= max ->
  exists ins', collect v runs start_level ins = Ok ins' /\ fst <$> ins' = fst <$> ins /\
    concat (snd <$> ins') ≡ₚ concat (snd <$> ins) ++ concat (files_of v <$> runs).
Proof.
  intros Hlen Hsl Hruns Hmax. revert ins Hlen. induction Hruns as [|r runs (Hl & Hm & Hfile) _ IH]; intros ins Hlen; cbn [collect].
  { exists ins. split_and!; [done|done|]. by rewrite app_nil_r. }
  assert (exists ins1, (if level r =? 0 then match file r with Some f => push_files ins 0 [f] | None => Err ENull end
            else push_files ins (level r - start_level) (LevelFiles v (level r))) = Ok ins1 /\
          fst <$> ins1 = fst <$> ins /\ concat (snd <$> ins1) ≡ₚ concat (snd <$> ins) ++ files_of v r) as (ins1 & -> & Hfst & Hsnd).
  { unfold files_of. destruct (Z.eqb_spec (level r) 0) as [H0|H0].
    - destruct (Hfile H0) as [f ->]. apply push_files_ok. lia.
    - apply push_files_ok. lia. }
  simpl rbind. destruct (IH ins1) as (ins' & -> & Hfst' & Hsnd').
  { apply (f_equal length) in Hfst. rewrite !length_fmap in Hfst. lia. }
  exists ins'. split_and!; [done|congruence|]. rewrite Hsnd', Hsnd, fmap_cons. simpl. by rewrite <- app_assoc.
Qed.

Lemma collect_window v max start_level W :
  Forall (fun r => (level r = 0 \/ start_level <= level r) /\ level r <= max /\ (level r = 0 -> is_Some (file r))) W ->
  0 <= start_level -> 0 <= max ->
  exists ins, collect v W start_level (empty_inputs start_level max) = Ok ins /\ concat (snd <$> ins) ≡ₚ concat (files_of v <$> W) /\
    Forall (fun i => i.1 <> kInvalidLevel) ins.
Proof.
  intros HW Hs Hm. destruct (collect_ok v max start_level W (empty_inputs start_level max)) as (ins & -> & Hfst & Hp); [|done|done|done|].
  - unfold empty_inputs. rewrite length_fmap, length_seqZ. lia.
  - assert (Forall (fun l => l <> kInvalidLevel) (ins.*1)) as Hlv.
    { rewrite Hfst. unfold empty_inputs. apply Forall_fmap, Forall_fmap, Forall_forall. intros i Hi%elem_of_seqZ. simpl. unfold kInvalidLevel. lia. }
    exists ins. split; [done|]. split; [|rewrite Forall_fmap in Hlv; exact Hlv]. rewrite Hp. unfold empty_inputs.
    assert (forall l, concat (snd <$> ((fun i => (start_level + i, @nil FileMetaData)) <$> l)) = []) as Hnil by (induction l; done).
    by rewrite Hnil.
Qed.

(** ** The merged run takes the place of its inputs *)

Lemma ordered_app max A B : ordered max (A ++ B) -> ordered max A /\ ordered max B /\ (forall a b, a ∈ A -> b ∈ B -> before a b).
Proof.
  intros [Hs Hl Hf]. apply Forall_app in Hl as [Hl1 Hl2]. apply Forall_app in Hf as [Hf1 Hf2]. revert Hs Hl1 Hf1.
  induction A as [|x A IH]; simpl; intros Hs Hl1 Hf1; [split_and!; [by repeat constructor|done|by intros ? ? ?%elem_of_nil]|].
  inversion Hs as [|? ? Hs' Hx]; subst. inversion Hl1; subst. inversion Hf1; subst. destruct IH as ([HA1 HA2 HA3] & HB & HAB); [done|done|done|].
  apply Forall_app in Hx as [Hx1 Hx2]. split_and!; [split; by constructor|done|].
  intros a b [->|Ha]%elem_of_cons Hb; [rewrite Forall_forall in Hx2; by apply Hx2|by apply HAB].
Qed.

(** The level a window's output goes to. *)
Definition window_output (max : Z) (next : option SortedRun) : Z :=
  match next with None => max | Some r => if level r =? 0 then 0 else level r - 1 end.

Lemma merged_ordered max A w W B m :
  ordered max (A ++ (w :: W) ++ B) -> level m = window_output max (head B) -> (level m = 0 -> is_Some (file m)) ->
  ordered max (A ++ m :: B).
Proof.
  intros Ho Hm Hf. destruct (ordered_app max A ((w :: W) ++ B) Ho) as (HA & HWB & HA'). destruct (ordered_app max (w :: W) B HWB) as (HW & HB & HW').
  assert (before_w : forall a, a ∈ A -> before a w) by (intros a Ha; apply HA'; [done|by left]).
  pose proof (Forall_inv (ordered_levels _ _ HW)) as Hw. simpl in Hw.
  assert (forall b, b ∈ B -> before m b) as HmB.
  { destruct B as [|n B]; [by intros b ?%elem_of_nil|]. simpl in Hm. pose proof (ordered_levels _ _ HB) as HlB.
    intros b Hb. assert (b = n \/ before n b) as Hnb.
    { apply elem_of_cons in Hb as [|Hb]; [by left|]. right. destruct HB as [Hs _ _]. inversion Hs as [|? ? _ Hn]; subst. rewrite Forall_forall in Hn. by apply Hn. }
    pose proof (Forall_inv HlB) as Hn. simpl in Hn. rewrite Forall_forall in HlB. specialize (HlB b Hb). simpl in HlB.
    unfold before in *. destruct (Z.eqb_spec (level n) 0); destruct Hnb as [->|Hnb]; lia. }
  assert (level w <= level m <= max) as Hlm.
  { destruct B as [|n B]; simpl in Hm; [lia|]. destruct (HW' w n) as [Hlt|[H1 H2]]; [by left|by left| |].
    - pose proof (Forall_inv (ordered_levels _ _ HB)) as Hn. simpl in Hn. destruct (Z.eqb_spec (level n) 0); lia.
    - rewrite H2 in Hm. simpl in Hm. lia. }
  assert (forall a, a ∈ A -> before a m) as HAm.
  { intros a Ha. pose proof (ordered_levels _ _ HA) as HlA. rewrite Forall_forall in HlA. specialize (HlA a Ha). simpl in HlA. specialize (before_w a Ha). unfold before in *. lia. }
  destruct HA as [HA1 HA2 HA3]. destruct HB as [HB1 HB2 HB3]. split.
  - apply StronglySorted_app_2; [done| |].
    + constructor; [done|]. apply Forall_forall. exact HmB.
    + intros a b Ha [->|Hb]%elem_of_cons; [by apply HAm|]. apply HA'; [done|]. apply elem_of_app. by right.
  - apply Forall_app. split; [done|]. constructor; [lia|done].
  - apply Forall_app. split; [done|]. by constructor.
Qed.

Lemma extend_narrow o ratio mx runs c : mx <= 1 -> extend o ratio mx runs c 1 = 1.
Proof. intros H. destruct runs as [|r runs]; [done|]. cbn [extend]. by rewrite (proj2 (Z.ltb_ge 1 mx)). Qed.

(** A window splits the runs: [w] and [W] behind [A], as far as runs join. *)
Definition is_window (o : PickerOptions) (ratio mx mn : Z) (runs A : list SortedRun) (w : SortedRun) (W B : list SortedRun) : Prop :=
  runs = A ++ (w :: W) ++ B /\ mn <= Z.of_nat (length (w :: W)) <= mx /\ being_compacted w = false /\
  (forall j r, W !! j = Some r -> joins o ratio (cand_size o (compensated_size w) (take j W)) r) /\
  (forall r, head B = Some r -> Z.of_nat (length (w :: W)) < mx -> ~ joins o ratio (cand_size o (compensated_size w) W) r) /\
  (forall j, (j < length A)%nat -> width o ratio mx runs j < mn).

Lemma window_split o ratio mx mn runs i :
  2 <= mn -> mn <= width o ratio mx runs i -> (forall j, (j < i)%nat -> width o ratio mx runs j < mn) ->
  exists A w W B, is_window o ratio mx mn runs A w W B /\ length A = i /\ Z.of_nat (length (w :: W)) = width o ratio mx runs i.
Proof.
  intros Hmn Hk Hfirst. unfold is_window. revert Hk. unfold width at 1 3. destruct (drop i runs) as [|w rest] eqn:E; [lia|]. destruct (being_compacted w) eqn:Eb; [lia|]. intros Hk.
  assert (1 < mx) as Hmx by (destruct (Z.le_gt_cases mx 1); [rewrite extend_narrow in Hk by done; lia|done]).
  destruct (extend_spec o ratio mx rest (compensated_size w) 1) as (H1 & H2 & H3 & H4). set (k := extend _ _ _ _ _ _) in *. clearbody k.
  assert (length (take i runs) = i) as HA by (rewrite length_take; apply (f_equal length) in E; rewrite length_drop in E; simpl in E; lia).
  exists (take i runs), w, (take (Z.to_nat (k - 1)) rest), (drop (Z.to_nat (k - 1)) rest). rewrite HA. cbn [length]. rewrite length_take.
  split_and!; [|lia|lia|done| | |done|done|lia].
  - simpl. rewrite take_drop, <- E. by rewrite take_drop.
  - intros j r Hj. pose proof (lookup_lt_Some _ _ _ Hj) as Hlt. rewrite length_take in Hlt. rewrite lookup_take_lt in Hj by lia.
    rewrite take_take, Nat.min_l by lia. apply H3; [done|lia].
  - intros r Hr Hlt. apply H4; [|lia]. rewrite <- (Nat.add_0_r (Z.to_nat (k - 1))), <- lookup_drop. by destruct (drop _ rest).
Qed.

(** ** Compactions in progress *)

Section overlap.
Context {port : Port} `{Comparator} (running : list Running).

(** The boundary keys of a file are internal keys. *)
Definition keyed (f : FileMetaData) : Prop := ikey (smallest f) /\ ikey (largest f).

Definition ikeys (r : list Z * list Z) : Prop := ikey r.1 /\ ikey r.2.

Lemma level0_range_ok fs s l : Forall keyed fs -> ikey s -> ikey l -> exists r, level0_range fs s l = Ok r /\ ikeys r.
Proof.
  intros Hfs. revert s l. induction Hfs as [|f fs [Hs Hl] _ IH]; intros s l Hs0 Hl0; [by exists (s, l)|]. cbn [level0_range].
  rewrite !InternalKeyComparator_Compare_ok by done. cbn [rbind]. apply IH; [by destruct (ikcmp (smallest f) s)|by destruct (ikcmp (largest f) l)].
Qed.

Lemma level_range_ok lv fs : Forall keyed fs -> fs <> [] -> exists r, level_range lv fs = Ok r /\ ikeys r.
Proof.
  intros Hfs Hne. destruct fs as [|f rest]; [done|]. unfold level_range. destruct (last (f :: rest)) as [g|] eqn:El; [|by apply last_None in El].
  assert (keyed g) as Hg by (rewrite Forall_forall in Hfs; apply Hfs; by apply last_Some_elem_of). inversion_clear Hfs as [|? ? Hf Hrest].
  destruct (lv =? 0); [by apply level0_range_ok; [|apply Hf|apply Hf]|]. exists (smallest f, largest g). split; [done|]. split; [apply Hf|apply Hg].
Qed.

Lemma GetRange_ok ins range :
  Forall keyed (concat (snd <$> ins)) -> Forall (fun i => i.1 <> kInvalidLevel) ins -> (forall r, range = Some r -> ikeys r) ->
  (range = None -> Exists (fun i => i.2 <> []) ins) -> exists r, GetRange ins kInvalidLevel range = Ok r /\ ikeys r.
Proof.
  revert range. induction ins as [|[lv fs] ins IH]; intros range Hk Hlv Hr Hex; cbn [GetRange].
  { destruct range as [r|]; [exists r; split; [done|by apply Hr]|]. specialize (Hex eq_refl). by inversion Hex. }
  simpl in Hk. apply Forall_app in Hk as [Hkf Hk]. inversion_clear Hlv as [|? ? Hl0 Hlv']. simpl in Hl0. rewrite (proj2 (Z.eqb_neq _ _) Hl0), orb_false_r.
  destruct fs as [|f fs'] eqn:Efs; cbn [length Nat.eqb].
  { apply IH; [done|done|done|]. intros Hnone. specialize (Hex Hnone). by inversion_clear Hex. }
  rewrite <- Efs in *. destruct (level_range_ok lv fs Hkf) as ([s l] & Hrun & Hs & Hl); [by rewrite Efs|]. rewrite Hrun. cbn [rbind]. simpl in Hs, Hl.
  destruct range as [[s0 l0]|].
  - destruct (Hr _ eq_refl) as [Hs0 Hl0']. simpl in *. rewrite !InternalKeyComparator_Compare_ok by done. cbn [rbind]. apply IH; [done|done| |done].
    intros r [= <-]. split; simpl; [by destruct (ikcmp s s0)|by destruct (ikcmp l l0)].
  - apply IH; [done|done| |done]. intros r [= <-]. by split.
Qed.

Lemma some_input (ins : list (Z * list FileMetaData)) : forallb (fun i => (length i.2 =? 0)%nat) ins = false -> Exists (fun i => i.2 <> []) ins.
Proof. induction ins as [|[lv [|f fs]] ins IH]; simpl; [done|intros E; right; by apply IH|by left]. Qed.

Lemma overlap_ok ins lv pen :
  Forall keyed (concat (snd <$> ins)) -> Forall (fun i => i.1 <> kInvalidLevel) ins -> exists b, FilesRangeOverlapWithCompaction running ins lv pen = Ok b.
Proof.
  intros Hk Hlv. unfold FilesRangeOverlapWithCompaction. destruct (forallb _ ins) eqn:E; [eauto|].
  destruct (GetRange_ok ins None Hk Hlv) as ([s l] & -> & Hs & Hl); [done|by intros _; apply some_input|]. cbn [rbind].
  simpl in Hs, Hl. rewrite !ExtractUserKey_ok by done. cbn [rbind]. destruct (_ && _); eauto.
Qed.

Lemma blocked_ok v o ins start_level out :
  Forall keyed (concat (snd <$> ins)) -> Forall (fun i => i.1 <> kInvalidLevel) ins -> exists b, blocked running v o ins start_level out = Ok b.
Proof. intros Hk Hlv. unfold blocked. destruct (negb _); [by apply overlap_ok|eauto]. Qed.

(** A compaction of [ins] meets one in progress: one that writes user keys of
    the range of [ins] to the same level, or to the level above the last. *)
Definition held_back (v : VersionStorageInfo) (o : PickerOptions) (ins : list (Z * list FileMetaData)) (start_level out : Z) : Prop :=
  exists s l us ul c, GetRange ins kInvalidLevel None = Ok (s, l) /\ ExtractUserKey s = Ok us /\ ExtractUserKey l = Ok ul /\ c ∈ running /\
    ((running_output_level c = out \/ running_output_level c = EvaluatePenultimateLevel v o start_level out) /\
       meets us ul (smallest_user_key c) (largest_user_key c) = true \/
     exists ps pl, penultimate_range c = Some (ps, pl) /\ meets us ul ps pl = true).

Lemma blocked_running v o ins start_level out :
  blocked running v o ins start_level out = Ok true -> out <> 0 /\ held_back v o ins start_level out.
Proof.
  unfold blocked. destruct (Z.eqb_spec out 0); [done|]. cbn [negb]. intros Hb. split; [done|]. revert Hb. set (pen := EvaluatePenultimateLevel v o start_level out). unfold FilesRangeOverlapWithCompaction.
  destruct (forallb _ ins); [done|]. destruct (GetRange ins kInvalidLevel None) as [[s l]|] eqn:Erange; [|done]. cbn [rbind].
  destruct (ExtractUserKey s) as [us|] eqn:Es; [|done]. cbn [rbind]. destruct (ExtractUserKey l) as [ul|] eqn:El; [|done]. cbn [rbind].
  assert (forall lv, RangeOverlapWithCompaction running us ul lv = true -> exists c, c ∈ running /\
    (running_output_level c = lv /\ meets us ul (smallest_user_key c) (largest_user_key c) = true \/
     exists ps pl, penultimate_range c = Some (ps, pl) /\ meets us ul ps pl = true)) as Hov.
  { intros lv Ho. unfold RangeOverlapWithCompaction in Ho. apply existsb_exists in Ho as (c & Hc & Ho). exists c. split; [by apply list_elem_of_In|].
    apply orb_prop in Ho as [Ho|Ho]; [left; apply andb_prop in Ho as [Hl Hm]; split; [by apply Z.eqb_eq|done]|right].
    unfold OverlapPenultimateLevelOutputRange in Ho. destruct (penultimate_range c) as [[ps pl]|]; [eauto|done]. }
  destruct (negb (pen =? kInvalidLevel) && _) eqn:E; [apply andb_prop in E as [_ Er]; intros _|intros [= Er]]; apply Hov in Er as (c & Hc & Ho); exists s, l, us, ul, c; (split_and!; [done..|]);
    (destruct Ho as [[Hl Hm]|Ho]; [left; split; [tauto|done]|by right]).
Qed.

(** The inputs of a pick of the runs [w] and [W], and the test on their range. *)
Lemma inputs_ok v o max A w W B out :
  ordered max (A ++ (w :: W) ++ B) -> Forall keyed (concat (files_of v <$> A ++ (w :: W) ++ B)) ->
  exists ins stop, collect v (w :: W) (level w) (empty_inputs (level w) max) = Ok ins /\ concat (snd <$> ins) ≡ₚ concat (files_of v <$> (w :: W)) /\
    blocked running v o ins (level w) out = Ok stop.
Proof.
  intros Hord Hk. destruct (ordered_app _ _ _ Hord) as (_ & HWB & _). destruct (ordered_app _ _ _ HWB) as (HW & _ & _).
  pose proof (Forall_inv (ordered_levels _ _ HW)) as Hw0. simpl in Hw0. destruct (collect_window v max (level w) (w :: W)) as (ins & Hc & Hins & Hlv); [|lia|lia|].
  - destruct HW as [Hs1 Hl1 Hf1]. inversion Hs1 as [|? ? _ Hbef]; subst. apply Forall_forall. intros r Hr. rewrite Forall_forall in Hl1, Hf1. specialize (Hl1 r Hr). specialize (Hf1 r Hr). simpl in *.
    split_and!; [|lia|done]. apply elem_of_cons in Hr as [->|Hr]; [lia|]. rewrite Forall_forall in Hbef. specialize (Hbef r Hr). unfold before in Hbef. lia.
  - rewrite !fmap_app, !concat_app in Hk. apply Forall_app in Hk as [_ Hk]. apply Forall_app in Hk as [Hk _].
    destruct (blocked_ok v o ins (level w) out) as [stop Hstop]; [by rewrite Hins|done|]. by exists ins, stop.
Qed.
End overlap.

Section picks.
Context {port : Port} `{Comparator} (running : list Running) (v : VersionStorageInfo) (o : PickerOptions) (max : Z).
Context (Hmax : MaxOutputLevel (allow_ingest_behind o) v = Ok max) (Hpaths : cf_paths o <> []).

Lemma path_ok sz : exists p, GetPathId o sz = Ok p.
Proof. unfold GetPathId. destruct (cf_paths o); [done|eauto]. Qed.


(** Compacting all runs from [w] to the last of [W]. *)
Lemma range_pick runs A w W R reason :
  runs = A ++ (w :: W) ++ R -> ordered max runs -> Forall keyed (concat (files_of v <$> runs)) ->
  let out := match head R with None => max | Some r => level r - 1 end in
  exists ins stop path, concat (snd <$> ins) ≡ₚ concat (files_of v <$> (w :: W)) /\ blocked running v o ins (level w) out = Ok stop /\
    PickCompactionWithSortedRunRange running v o runs (length A) (length A + length W) reason =
      Ok (if stop then None else Some (mkCompaction ins out path true reason)).
Proof.
  intros Hruns Hord Hk out. unfold PickCompactionWithSortedRunRange.
  assert (length runs = length A + S (length W) + length R)%nat as Hlen by (rewrite Hruns, !length_app; simpl; lia).
  rewrite (proj2 (Nat.ltb_lt _ _)), (proj2 (Nat.ltb_lt (length A + length W) _)) by lia. cbn [negb].
  unfold rd. rewrite (proj2 (Z.leb_le 0 _)), (proj2 (Z.ltb_lt (Z.of_nat (length A)) _)) by lia. cbn [andb]. rewrite Nat2Z.id.
  replace (runs !! length A) with (Some w) by (symmetry; rewrite Hruns; by apply list_lookup_middle). cbn [rbind].
  assert (take (S (length A + length W) - length A) (drop (length A) runs) = w :: W) as ->.
  { rewrite Hruns, drop_app_length. replace (S (length A + length W) - length A)%nat with (length (w :: W)) by (simpl; lia). apply take_app_length. }
  destruct (path_ok (sum_sizes (w :: W))) as [path ->]. rewrite Hmax. cbn [rbind].
  assert (runs !! S (length A + length W) = head R) as ->.
  { rewrite Hruns. rewrite lookup_app_r, lookup_app_r by (simpl; lia). replace (_ - _)%nat with 0%nat by (simpl; lia). by destruct R. }
  rewrite Hruns in Hord, Hk. destruct (inputs_ok running v o max A w W R out Hord Hk) as (ins & stop & -> & Hins & Hstop). cbn [rbind]. fold out. rewrite Hstop. cbn [rbind].
  exists ins, stop, path. split; [done|]. split; [done|]. by destruct stop.
Qed.

(** *** Size amplification *)

Lemma first_candidate_cons x y runs loop :
  first_candidate (x :: y :: runs) loop = if being_compacted x then first_candidate (y :: runs) (S loop) else Some loop.
Proof. done. Qed.

Lemma first_candidate_spec runs loop :
  match first_candidate runs loop with
  | Some i => exists A r rest, runs = A ++ r :: rest /\ rest <> [] /\ Forall (fun r => being_compacted r = true) A /\ being_compacted r = false /\ i = (loop + length A)%nat
  | None => forall A r rest, runs = A ++ r :: rest -> rest <> [] -> being_compacted r = true
  end.
Proof.
  revert loop. induction runs as [|x runs IH]; intros loop; [intros A r rest Heq; by destruct A|]. destruct runs as [|y runs'].
  { intros A r rest Heq Hne. destruct A as [|a [|]]; simplify_eq/=. }
  rewrite first_candidate_cons. destruct (being_compacted x) eqn:Ex.
  - specialize (IH (S loop)). destruct (first_candidate (y :: runs') (S loop)) as [i|].
    + destruct IH as (A & r & rest & -> & Hne & Hb & Hr & ->). exists (x :: A), r, rest. split_and!; [done|done|by constructor|done|simpl; lia].
    + intros A r rest Heq Hne. destruct A as [|a A]; simplify_eq/=; [done|]. by apply (IH A r rest).
  - exists [], x, (y :: runs'). split_and!; [done|done|done|done|simpl; lia].
Qed.

Lemma candidate_total_spec runs c :
  if forallb (fun r => negb (being_compacted r)) runs
  then Forall (fun r => being_compacted r = false) runs /\ candidate_total runs c = Some (comp_sum c runs)
  else ~ Forall (fun r => being_compacted r = false) runs /\ candidate_total runs c = None.
Proof.
  revert c. induction runs as [|r runs IH]; intros c; [done|]. cbn [candidate_total forallb]. destruct (being_compacted r) eqn:Er; cbn [negb andb].
  - split; [|done]. intros Hall. inversion_clear Hall. congruence.
  - specialize (IH (wadd 64 c (compensated_size r))). destruct (forallb _ runs); destruct IH as [Hf ->]; (split; [|done]).
    + by constructor.
    + intros Hall. by inversion_clear Hall.
Qed.

(** The storage is tiered: the last level, if it holds the oldest run, is left
    alone. *)
Definition tiered (runs : list SortedRun) : bool :=
  (0 <? preclude_last_level_data_seconds o) && (2 <? num_levels v) &&
  match last runs with Some base => level base =? num_levels v - 1 | None => false end && (1 <? length runs)%nat.

(** [W] are the runs behind those that are being compacted at the young end, up
    to the base; none of them is being compacted, nor is the oldest run. *)
Definition amp_window (runs A W : list SortedRun) (base : SortedRun) (R : list SortedRun) : Prop :=
  runs = A ++ W ++ base :: R /\ Forall (fun r => being_compacted r = true) A /\ W <> [] /\ Forall (fun r => being_compacted r = false) W /\
  (forall r, last runs = Some r -> being_compacted r = false) /\ length R = if tiered runs then 1%nat else 0%nat.

(** The runs that are being compacted at the young end are the same ones. *)
Lemma busy_prefix A A' x x' (X X' : list SortedRun) :
  A ++ x :: X = A' ++ x' :: X' -> Forall (fun r => being_compacted r = true) A -> Forall (fun r => being_compacted r = true) A' ->
  being_compacted x = false -> being_compacted x' = false -> A = A'.
Proof.
  revert A'. induction A as [|a A IH]; intros [|a' A'] Heq HA HA' Hx Hx'; simplify_eq/=; [done|inversion_clear HA'; congruence|inversion_clear HA; congruence|].
  f_equal. inversion_clear HA. inversion_clear HA'. by eapply IH.
Qed.

(** Where a window begins and ends. *)
Lemma amp_window_at runs A r rest A' W base R :
  runs = A ++ r :: rest -> Forall (fun r => being_compacted r = true) A -> being_compacted r = false -> amp_window runs A' W base R ->
  A' = A /\ W = take (length runs - (if tiered runs then 2 else 1) - length A) (drop (length A) runs).
Proof.
  intros Hruns HA Hr (Hs & HA' & Hne & HW & _ & HR). destruct W as [|w W]; [done|]. inversion_clear HW as [|? ? Hw _].
  assert (A' = A) as -> by (eapply (busy_prefix A' A w r); [rewrite <- Hruns; symmetry; exact Hs|done..]). split; [done|].
  assert (drop (length A) runs = (w :: W) ++ base :: R) as -> by (rewrite Hs; apply drop_app_length).
  assert (length runs = length A + (length (w :: W) + S (length R)))%nat as -> by (rewrite Hs; by rewrite !length_app).
  symmetry. apply take_app_length'. rewrite HR. destruct (tiered runs); lia.
Qed.

(** The decision and the pick, for a given window. *)
Definition amp_outcome (w : SortedRun) (W : list SortedRun) (base : SortedRun) (R : list SortedRun) (c : option Compaction) : Prop :=
  if wmul 64 (comp_sum 0 (w :: W)) 100 <? wmul 64 (max_size_amplification_percent o) (size base) then c = None
  else
    exists ins stop, concat (snd <$> ins) ≡ₚ concat (files_of v <$> (w :: W) ++ [base]) /\
      let out := match head R with None => max | Some r => level r - 1 end in
      blocked running v o ins (level w) out = Ok stop /\
      if stop then c = None /\ held_back running v o ins (level w) out
      else exists c', c = Some c' /\ inputs c' = ins /\ output_level c' = out /\ compaction_reason c' = kUniversalSizeAmplification.

Lemma amp_pick runs A w W base R :
  runs = A ++ (w :: W) ++ base :: R -> ordered max runs -> Forall keyed (concat (files_of v <$> runs)) ->
  exists c, (if wmul 64 (comp_sum 0 (w :: W)) 100 <? wmul 64 (max_size_amplification_percent o) (size base) then Ok None
             else PickCompactionWithSortedRunRange running v o runs (length A) (length A + length (w :: W)) kUniversalSizeAmplification) = Ok c /\
    amp_outcome w W base R c.
Proof.
  intros Hruns Hord Hk. unfold amp_outcome. destruct (_ <? _); [by eexists|].
  destruct (range_pick runs A w (W ++ [base]) R kUniversalSizeAmplification) as (ins & stop & path & Hins & Hstop & Hpick); [by rewrite Hruns; simpl; rewrite <- app_assoc|done|done|].
  replace (length (W ++ [base])) with (length (w :: W)) in Hpick by (rewrite length_app; simpl; lia). rewrite Hpick.
  eexists. split; [done|]. exists ins, stop. split; [done|]. split; [done|].
  destruct stop; [split; [done|by apply blocked_running]|]. eexists. by split_and!.
Qed.

(** The base at index [e], the runs before it from [A] on. *)
Lemma amp_base runs (A : list SortedRun) e base :
  runs !! e = Some base -> take (length A) runs = A -> (length A <= e)%nat -> runs = A ++ take (e - length A) (drop (length A) runs) ++ base :: drop (S e) runs.
Proof.
  intros Hb HA Hle. rewrite <- (drop_S _ _ _ Hb). replace (drop e runs) with (drop (e - length A) (drop (length A) runs)) by (rewrite drop_drop; f_equal; lia).
  rewrite take_drop. rewrite <- HA at 1. by rewrite take_drop.
Qed.

End picks.

(** ** Examples: the settings of mqssd.cc for a fanout [T], files of one key *)

Definition unit_file (n sz : Z) : FileMetaData := mkFile n sz sz false (replicate 8 0) (replicate 8 0).

Definition unit_run (l n sz : Z) : SortedRun :=
  mkRun l (if l =? 0 then Some (unit_file n sz) else None) sz sz false.

Definition tiering (T : Z) : PickerOptions :=
  mkPicker T 1 T T (if T =? 2 then 300 else 100 * T) (-1) kCompactionStopStyleTotalSize false false 0 [0].

(** A storage of twenty levels, [l0] in level 0 and one file in the last. *)
Definition two_level_storage (l0 : list FileMetaData) (f : FileMetaData) : VersionStorageInfo :=
  mkStorage ([l0] ++ replicate 18 [] ++ [[f]]) [] [].

Lemma unit_keyed n sz : keyed (unit_file n sz).
Proof. split; (split; [unfold kNumInternalBytes; simpl; lia|repeat constructor; unfold byte_ok; lia]). Qed.

(** Five runs, a fanout of four: the four newest are picked, unless a running
    compaction writes their keys to the level above the oldest. *)
Definition five_runs : list SortedRun := [unit_run 0 5 1; unit_run 0 4 1; unit_run 0 3 1; unit_run 0 2 1; unit_run 19 1 4].
Definition five_storage : VersionStorageInfo := two_level_storage ((fun n => unit_file n 1) <$> [5; 4; 3; 2]) (unit_file 1 4).


(** Two runs of twice the size of the oldest: all three are compacted. *)
Definition amp_runs : list SortedRun := [unit_run 0 3 4; unit_run 0 2 4; unit_run 19 1 2].
Definition amp_storage : VersionStorageInfo := two_level_storage ((fun n => unit_file n 4) <$> [3; 2]) (unit_file 1 2).


(** ** The documented sequence

    A flush adds a file of size one to level 0; a compaction whose inputs share
    no key replaces them by one file of their total size in the output level. *)

Definition flush (n : Z) (v : VersionStorageInfo) : VersionStorageInfo :=
  match level_files v with
  | l0 :: ls => mkStorage ((unit_file n 1 :: l0) :: ls) [] []
  | [] => v
  end.

Definition install (n : Z) (c : Compaction) (v : VersionStorageInfo) : VersionStorageInfo :=
  let gone := number <$> concat (snd <$> inputs c) in
  let total := fold_left (fun a f => a + file_size f) (concat (snd <$> inputs c)) 0 in
  let kept := (fun fs => filter (fun f => number f ∉ gone) fs) <$> level_files v in
  mkStorage (alter (fun fs => unit_file n total :: fs) (Z.to_nat (output_level c)) kept) [] [].

(** The sizes of the sorted runs. *)
Definition sizes (v : VersionStorageInfo) : list Z :=
  match CalculateSortedRuns v (num_levels v - 1) with Ok runs => size <$> runs | Err _ => [] end.

(** Compactions until none is picked: the states passed and the last one. *)
Fixpoint settle (fuel : nat) (o : PickerOptions) (n : Z) (v : VersionStorageInfo) : list (list Z) * VersionStorageInfo :=
  match fuel with
  | O => ([], v)
  | S fuel =>
      match PickCompaction (port := true) (H := BytewiseComparator) [] (fun _ => None) None v o with
      | Ok (Some c) => let v := install n c v in let (t, v') := settle fuel o (n + 1) v in (sizes v :: t, v')
      | _ => ([], v)
      end
  end.

Fixpoint experiment (flushes : nat) (o : PickerOptions) (n : Z) (v : VersionStorageInfo) : list (list Z) :=
  match flushes with
  | O => []
  | S flushes =>
      let v := flush n v in
      let (t, v') := settle 10 o (n + 1) v in
      sizes v :: t ++ experiment flushes o (n + 11) v'
  end.

(** The example in mqssd.cc: with a fanout of four and files of size one,
    flushes and compactions pass through exactly the documented states. *)
Theorem universal_documented_example :
  experiment 20 (tiering 4) 0 (mkStorage (replicate 20 []) [] []) =
    [[1]; [1; 1]; [1; 1; 1]; [1; 1; 1; 1]; [4];
     [1; 4]; [1; 1; 4]; [1; 1; 1; 4]; [1; 1; 1; 1; 4]; [4; 4];
     [1; 4; 4]; [1; 1; 4; 4]; [1; 1; 1; 4; 4]; [1; 1; 1; 1; 4; 4]; [4; 4; 4];
     [1; 4; 4; 4]; [1; 1; 4; 4; 4]; [1; 1; 1; 4; 4; 4]; [1; 1; 1; 1; 4; 4; 4]; [4; 4; 4; 4]; [16];
     [1; 16]; [1; 1; 16]; [1; 1; 1; 16]; [1; 1; 1; 1; 16]; [4; 16]].
Proof. vm_compute. reflexivity. Qed.
