(* ===== verification/LruTable.v ===== *)
(** * The hash table of the block cache

    [LRUHandleTable] of rocksdb-8.6.7/cache/lru_cache.{h,cc}: an array of
    chains indexed by the upper bits of the hash, doubled when there are as
    many entries as chains.  A chain is the list of its entries; the hash and
    the key of a handle never change while it is in the table, so they stand
    beside its pointer. *)

From S2P Require Import Prelude Words.

Record entry : Type := mkEntry { ptr : Z; hash : Z; key : list Z }.

Record LRUHandleTable : Type := mkTable {
  length_bits_ : Z;
  list_ : list (list entry);
  elems_ : Z;
  max_length_bits_ : Z;
}.

Definition new_table (max_upper_hash_bits : Z) : LRUHandleTable := mkTable 4 (replicate 16 []) 0 max_upper_hash_bits.

(** The slot of a hash. *)
Definition slot (bits h : Z) : nat := Z.to_nat (Z.shiftr h (32 - bits)).

Definition matches (k : list Z) (h : Z) (e : entry) : bool := (hash e =? h) && bool_decide (k = key e).

(** [FindPointer]: the chain before the entry found, the entry, the chain
    after it; no entry when the chain ends first. *)
Fixpoint FindPointer (chain : list entry) (k : list Z) (h : Z) : list entry * option entry * list entry :=
  match chain with
  | [] => ([], None, [])
  | e :: chain =>
      if matches k h e then ([], Some e, chain)
      else let '(pre, found, post) := FindPointer chain k h in (e :: pre, found, post)
  end.

Definition chain_of (t : LRUHandleTable) (h : Z) : result (list entry) :=
  match list_ t !! slot (length_bits_ t) h with Some c => Ok c | None => Err EBounds end.

Definition table_lookup (t : LRUHandleTable) (k : list Z) (h : Z) : result (option Z) :=
  let? c := chain_of t h in
  let '(_, found, _) := FindPointer c k h in Ok (ptr <$> found).

(** The inner loop of [Resize]: every entry of a chain goes to the front of
    its new chain. *)
Fixpoint move_chain (bits : Z) (chain : list entry) (new_list : list (list entry)) (count : Z) : list (list entry) * Z :=
  match chain with
  | [] => (new_list, count)
  | e :: chain => move_chain bits chain (alter (cons e) (slot bits (hash e)) new_list) (count + 1)
  end.

Fixpoint move_chains (bits : Z) (old : list (list entry)) (new_list : list (list entry)) (count : Z) : list (list entry) * Z :=
  match old with
  | [] => (new_list, count)
  | c :: old => let (new_list, count) := move_chain bits c new_list count in move_chains bits old new_list count
  end.

Definition Resize (t : LRUHandleTable) : result LRUHandleTable :=
  if max_length_bits_ t <=? length_bits_ t then Ok t
  else if 31 <=? length_bits_ t then Ok t
  else
    let bits := length_bits_ t + 1 in
    let (new_list, count) := move_chains bits (list_ t) (replicate (Z.to_nat (2 ^ bits)) []) 0 in
    if elems_ t =? count then Ok (mkTable bits new_list (elems_ t) (max_length_bits_ t)) else Err EAssert.

(** [Insert]: the entry it replaces. *)
Definition table_insert (t : LRUHandleTable) (e : entry) : result (option Z * LRUHandleTable) :=
  let? c := chain_of t (hash e) in
  let '(pre, old, post) := FindPointer c (key e) (hash e) in
  let l := <[slot (length_bits_ t) (hash e) := pre ++ e :: post]> (list_ t) in
  match old with
  | Some o => Ok (Some (ptr o), mkTable (length_bits_ t) l (elems_ t) (max_length_bits_ t))
  | None =>
      let t := mkTable (length_bits_ t) l (wadd 32 (elems_ t) 1) (max_length_bits_ t) in
      let? t := (if 0 <? Z.shiftr (elems_ t) (length_bits_ t) then Resize t else Ok t) in
      Ok (None, t)
  end.

Definition table_remove (t : LRUHandleTable) (k : list Z) (h : Z) : result (option Z * LRUHandleTable) :=
  let? c := chain_of t h in
  let '(pre, found, post) := FindPointer c k h in
  match found with
  | Some e => Ok (Some (ptr e), mkTable (length_bits_ t) (<[slot (length_bits_ t) h := pre ++ post]> (list_ t))
                                 (wsub 32 (elems_ t) 1) (max_length_bits_ t))
  | None => Ok (None, t)
  end.

(** ** The map a table represents *)

Definition id_of (e : entry) : Z * list Z := (hash e, key e).

(** Every entry is in the chain of its hash, no two have the same hash and
    key, and [elems_] counts them. *)
Record table_ok (t : LRUHandleTable) (m : gmap (Z * list Z) Z) : Prop := {
  tok_bits : 4 <= length_bits_ t <= 31;
  tok_length : Z.of_nat (length (list_ t)) = 2 ^ length_bits_ t;
  tok_slot : forall i c e, list_ t !! i = Some c -> e ∈ c -> word 32 (hash e) /\ slot (length_bits_ t) (hash e) = i;
  tok_nodup : NoDup (id_of <$> concat (list_ t));
  tok_map : forall i p, m !! i = Some p <-> exists e, e ∈ concat (list_ t) /\ id_of e = i /\ ptr e = p;
  tok_elems : elems_ t = Z.of_nat (length (concat (list_ t)));
  tok_small : elems_ t < 2 ^ 32;
}.

Lemma matches_spec k h e : matches k h e = true <-> id_of e = (h, k).
Proof.
  unfold matches, id_of. rewrite andb_true_iff, Z.eqb_eq, bool_decide_eq_true. split; [intros [-> ->]; done|intros [= -> ->]; done].
Qed.

Lemma FindPointer_spec chain k h :
  let '(pre, found, post) := FindPointer chain k h in
  match found with
  | Some e => chain = pre ++ e :: post /\ id_of e = (h, k)
  | None => pre = chain /\ post = [] /\ forall e, e ∈ chain -> id_of e <> (h, k)
  end.
Proof.
  induction chain as [|e chain IH]; simpl; [split_and!; [done|done|]; by intros e ?%elem_of_nil|].
  destruct (matches k h e) eqn:E; [split; [done|by apply matches_spec]|].
  destruct (FindPointer chain k h) as [[pre [f|]] post].
  - destruct IH as [-> Hf]. done.
  - destruct IH as (-> & -> & Hn). split_and!; [done|done|]. intros x [->|Hx]%elem_of_cons; [|by apply Hn].
    rewrite <- matches_spec. by rewrite E.
Qed.

Lemma slot_lt bits h : 0 <= bits <= 32 -> word 32 h -> (slot bits h < Z.to_nat (2 ^ bits))%nat.
Proof.
  intros Hb [H0 H1]. unfold slot. rewrite Z.shiftr_div_pow2 by lia. apply Z2Nat.inj_lt.
  - apply Z.div_pos; lia.
  - lia.
  - apply Z.div_lt_upper_bound; [lia|]. rewrite <- Z.pow_add_r by lia. by replace (32 - bits + bits) with 32 by lia.
Qed.

(** The chain at an index, with the rest of the array around it. *)
Lemma chain_split (l : list (list entry)) i c :
  l !! i = Some c -> exists A B, l = A ++ c :: B /\ length A = i /\ forall c', <[i := c']> l = A ++ c' :: B.
Proof.
  intros H. apply list_elem_of_split_length in H as (A & B & -> & ->). exists A, B. split_and!; [done|done|].
  intros c'. by rewrite insert_app_r_alt, Nat.sub_diag.
Qed.

Lemma concat_middle (A B : list (list entry)) c : concat (A ++ c :: B) = concat A ++ c ++ concat B.
Proof. rewrite concat_app. done. Qed.

Lemma chain_of_ok t m h : table_ok t m -> word 32 h -> exists c, chain_of t h = Ok c /\ list_ t !! slot (length_bits_ t) h = Some c.
Proof.
  intros Hok Hh. pose proof (tok_bits _ _ Hok). pose proof (tok_length _ _ Hok).
  pose proof (slot_lt (length_bits_ t) h ltac:(lia) Hh). unfold chain_of.
  destruct (lookup_lt_is_Some_2 (list_ t) (slot (length_bits_ t) h)) as [c Hc]; [lia|]. rewrite Hc. eauto.
Qed.

(** An entry of the table that has this hash is in the chain of the hash. *)
Lemma in_chain t m h c e :
  table_ok t m -> list_ t !! slot (length_bits_ t) h = Some c -> e ∈ concat (list_ t) -> hash e = h -> e ∈ c.
Proof.
  intros Hok Hc He Hh. apply list_elem_of_In, in_concat in He as (c' & Hc' & He). apply list_elem_of_In in Hc', He.
  apply list_elem_of_lookup in Hc' as [i Hi]. destruct (tok_slot _ _ Hok i c' e Hi He) as [_ Hs]. rewrite Hh in Hs. subst i. by simplify_eq.
Qed.

Lemma table_lookup_ok t m k h : table_ok t m -> word 32 h -> table_lookup t k h = Ok (m !! (h, k)).
Proof.
  intros Hok Hh. unfold table_lookup. destruct (chain_of_ok t m h Hok Hh) as (c & -> & Hc). simpl rbind.
  pose proof (FindPointer_spec c k h) as Hf. destruct (FindPointer c k h) as [[pre [e|]] post]; simpl; f_equal; symmetry.
  - destruct Hf as [-> He]. apply (tok_map _ _ Hok). exists e. split_and!; [|done|done].
    apply list_elem_of_lookup_2 in Hc. apply list_elem_of_In, in_concat. exists (pre ++ e :: post).
    split; apply list_elem_of_In; [done|]. apply elem_of_app. right. by left.
  - destruct Hf as (_ & _ & Hn). destruct (m !! (h, k)) as [p|] eqn:E; [|done]. exfalso.
    apply (tok_map _ _ Hok) in E as (e & He & Hid & _). apply (Hn e); [|done]. eapply in_chain; [done|done|done|]. by injection Hid.
Qed.

(** ** Doubling *)

Definition slots_ok (bits : Z) (l : list (list entry)) : Prop :=
  forall i c e, l !! i = Some c -> e ∈ c -> word 32 (hash e) /\ slot bits (hash e) = i.

Lemma alter_cons_spec bits e l :
  4 <= bits <= 31 -> Z.of_nat (length l) = 2 ^ bits -> word 32 (hash e) -> slots_ok bits l ->
  concat (alter (cons e) (slot bits (hash e)) l) ≡ₚ e :: concat l /\ slots_ok bits (alter (cons e) (slot bits (hash e)) l).
Proof.
  intros Hb Hlen Hw Hs. pose proof (slot_lt bits (hash e) ltac:(lia) Hw) as Hlt.
  destruct (lookup_lt_is_Some_2 l (slot bits (hash e))) as [c Hc]; [lia|].
  assert (alter (cons e) (slot bits (hash e)) l = <[slot bits (hash e) := e :: c]> l) as ->.
  { apply list_eq. intros i. destruct (decide (i = slot bits (hash e))) as [->|Hne].
    - rewrite list_lookup_alter_eq, Hc, list_lookup_insert_eq by lia. done.
    - by rewrite list_lookup_alter_ne, list_lookup_insert_ne. }
  destruct (chain_split l _ c Hc) as (A & B & -> & HA & ->). split.
  - rewrite !concat_middle. simpl. by rewrite <- Permutation_middle.
  - intros i c' e' Hi He'. destruct (decide (i = length A)) as [->|Hne].
    + rewrite list_lookup_middle in Hi by done. injection Hi as <-. apply elem_of_cons in He' as [->|He']; [by rewrite HA|].
      apply (Hs (length A) c); [by apply list_lookup_middle|done].
    + apply (Hs i c'); [|done]. rewrite <- Hi. rewrite !lookup_app. destruct (A !! i) eqn:EA; [done|].
      apply lookup_ge_None in EA. destruct (i - length A)%nat eqn:Ed; [lia|done].
Qed.

Lemma move_chain_spec bits chain l n :
  4 <= bits <= 31 -> Z.of_nat (length l) = 2 ^ bits -> Forall (fun e => word 32 (hash e)) chain -> slots_ok bits l ->
  let (l', n') := move_chain bits chain l n in
  concat l' ≡ₚ chain ++ concat l /\ slots_ok bits l' /\ Z.of_nat (length l') = 2 ^ bits /\ n' = n + Z.of_nat (length chain).
Proof.
  intros Hb. revert l n. induction chain as [|e chain IH]; intros l n Hlen Hw Hs; cbn [move_chain].
  { split_and!; [done|done|done|]. simpl. lia. }
  inversion Hw as [|? ? He Hw']; subst. destruct (alter_cons_spec bits e l Hb Hlen He Hs) as [Hp Hs'].
  specialize (IH (alter (cons e) (slot bits (hash e)) l) (n + 1)). rewrite length_alter in IH. specialize (IH Hlen Hw' Hs').
  destruct (move_chain bits chain _ _) as [l' n']. destruct IH as (Hp' & Hs'' & Hl' & ->). split_and!; [|done|done|simpl; lia].
  rewrite Hp', Hp. simpl. by rewrite <- Permutation_middle.
Qed.

Lemma move_chains_spec bits old l n :
  4 <= bits <= 31 -> Z.of_nat (length l) = 2 ^ bits -> Forall (fun e => word 32 (hash e)) (concat old) -> slots_ok bits l ->
  let (l', n') := move_chains bits old l n in
  concat l' ≡ₚ concat old ++ concat l /\ slots_ok bits l' /\ Z.of_nat (length l') = 2 ^ bits /\ n' = n + Z.of_nat (length (concat old)).
Proof.
  intros Hb. revert l n. induction old as [|c old IH]; intros l n Hlen Hw Hs; cbn [move_chains].
  { split_and!; [done|done|done|]. simpl. lia. }
  simpl in Hw. apply Forall_app in Hw as [Hwc Hw]. pose proof (move_chain_spec bits c l n Hb Hlen Hwc Hs) as Hm.
  destruct (move_chain bits c l n) as [l1 n1]. destruct Hm as (Hp & Hs1 & Hl1 & ->). specialize (IH l1 (n + Z.of_nat (length c)) Hl1 Hw Hs1).
  destruct (move_chains bits old l1 _) as [l' n']. destruct IH as (Hp' & Hs' & Hl' & ->). split_and!; [|done|done|simpl; rewrite length_app; lia].
  rewrite Hp', Hp. simpl. rewrite !app_assoc. by rewrite (Permutation_app_comm (concat old) c).
Qed.

(** The entries may be rearranged between the chains. *)
Lemma table_ok_perm t t' m :
  table_ok t m -> 4 <= length_bits_ t' <= 31 -> Z.of_nat (length (list_ t')) = 2 ^ length_bits_ t' ->
  slots_ok (length_bits_ t') (list_ t') -> concat (list_ t') ≡ₚ concat (list_ t) -> elems_ t' = elems_ t -> table_ok t' m.
Proof.
  intros Hok Hb Hl Hs Hp He. split; [done|done|exact Hs| | | |].
  - rewrite Hp. apply (tok_nodup _ _ Hok).
  - intros i p. rewrite (tok_map _ _ Hok). by setoid_rewrite Hp.
  - rewrite He, Hp. apply (tok_elems _ _ Hok).
  - rewrite He. apply (tok_small _ _ Hok).
Qed.

Lemma all_words t m : table_ok t m -> Forall (fun e => word 32 (hash e)) (concat (list_ t)).
Proof.
  intros Hok. apply Forall_forall. intros e He. apply list_elem_of_In, in_concat in He as (c & Hc & He). apply list_elem_of_In in Hc, He.
  apply list_elem_of_lookup in Hc as [i Hi]. by apply (tok_slot _ _ Hok i c).
Qed.

Lemma Resize_ok t m : table_ok t m -> exists t', Resize t = Ok t' /\ table_ok t' m.
Proof.
  intros Hok. unfold Resize. destruct (max_length_bits_ t <=? length_bits_ t); [eauto|]. destruct (Z.leb_spec 31 (length_bits_ t)); [eauto|].
  pose proof (tok_bits _ _ Hok) as Hb. set (bits := length_bits_ t + 1).
  pose proof (move_chains_spec bits (list_ t) (replicate (Z.to_nat (2 ^ bits)) []) 0) as Hm.
  destruct (move_chains _ _ _ _) as [l n]. destruct Hm as (Hp & Hs & Hl & ->).
  - unfold bits. lia.
  - rewrite length_replicate. lia.
  - by apply (all_words t m).
  - intros i c e Hi He. apply lookup_replicate in Hi as [-> _]. by apply elem_of_nil in He.
  - rewrite (tok_elems _ _ Hok), Z.eqb_refl. eexists. split; [done|].
    assert (concat (replicate (Z.to_nat (2 ^ bits)) (@nil entry)) = []) as Hnil.
    { generalize (Z.to_nat (2 ^ bits)). induction n as [|n IH]; [done|]. simpl. exact IH. }
    rewrite Hnil, app_nil_r in Hp. apply (table_ok_perm t); [done|simpl; unfold bits; lia|done|done|done|]. simpl. symmetry. apply (tok_elems _ _ Hok).
Qed.

(** ** Insertion and removal *)

(** Replacing a chain by one whose entries belong to the same slot. *)
Lemma slots_ok_insert bits l i c c' :
  slots_ok bits l -> l !! i = Some c -> (forall e, e ∈ c' -> word 32 (hash e) /\ slot bits (hash e) = i) -> slots_ok bits (<[i := c']> l).
Proof.
  intros Hs Hi Hc' j d e Hj He. destruct (decide (j = i)) as [->|Hne].
  - rewrite list_lookup_insert_eq in Hj by (by eapply lookup_lt_Some). injection Hj as <-. by apply Hc'.
  - rewrite list_lookup_insert_ne in Hj by done. by apply (Hs j d).
Qed.

(** Exchanging the entry with identity [i], if there is one, for another or
    for none. *)
Lemma table_ok_exchange t t' m i x y R :
  table_ok t m -> length_bits_ t' = length_bits_ t -> length (list_ t') = length (list_ t) ->
  slots_ok (length_bits_ t) (list_ t') ->
  concat (list_ t) ≡ₚ option_list x ++ R -> concat (list_ t') ≡ₚ option_list y ++ R ->
  (forall e, x = Some e -> id_of e = i) -> (forall e, y = Some e -> id_of e = i) -> (forall r, r ∈ R -> id_of r <> i) ->
  elems_ t' = Z.of_nat (length (concat (list_ t'))) -> elems_ t' < 2 ^ 32 ->
  table_ok t' (match y with Some e => <[i := ptr e]> m | None => delete i m end).
Proof.
  intros Hok Hb Hl Hs Hp Hp' Hx Hy HR He Hsm. split; [rewrite Hb; apply (tok_bits _ _ Hok)|rewrite Hl, Hb; apply (tok_length _ _ Hok)| | | |done|done].
  - rewrite Hb. exact Hs.
  - pose proof (tok_nodup _ _ Hok) as Hnd. rewrite Hp, fmap_app in Hnd. apply NoDup_app in Hnd as (_ & _ & Hnd). rewrite Hp', fmap_app.
    destruct y as [e|]; simpl; [|done]. apply NoDup_cons. split; [|done]. rewrite (Hy e eq_refl). intros (r & Hr & HrR)%list_elem_of_fmap. by apply (HR r).
  - intros j p. setoid_rewrite Hp'. assert (j <> i -> m !! j = Some p <-> exists e, e ∈ R /\ id_of e = j /\ ptr e = p) as Hother.
    { intros Hne. rewrite (tok_map _ _ Hok). setoid_rewrite Hp. split; intros (e & He' & Hid & Hpt); exists e; (split_and!; [|done|done]).
      - apply elem_of_app in He' as [He'|He']; [|done]. destruct x as [x0|]; simpl in He'; [|by apply elem_of_nil in He'].
        apply list_elem_of_singleton in He' as ->. by rewrite (Hx x0 eq_refl) in Hid.
      - apply elem_of_app. by right. }
    destruct y as [e|]; simpl.
    + destruct (decide (j = i)) as [->|Hne].
      * rewrite lookup_insert_eq. split.
        -- intros [= <-]. exists e. split_and!; [by left|by apply Hy|done].
        -- intros (z & [->|Hz]%elem_of_cons & Hid & <-); [done|]. by apply HR in Hz.
      * rewrite lookup_insert_ne by done. rewrite (Hother Hne). split; intros (z & Hz & Hid & Hpt); exists z; (split_and!; [|done|done]); [by right|].
        apply elem_of_cons in Hz as [->|Hz]; [|done]. by rewrite (Hy e eq_refl) in Hid.
    + destruct (decide (j = i)) as [->|Hne].
      * rewrite lookup_delete_eq. split; [done|]. intros (z & Hz & Hid & _). by apply HR in Hz.
      * rewrite lookup_delete_ne by done. exact (Hother Hne).
Qed.

(** The found entry and the rest of the table. *)
Lemma found_rest t m h c pre x post :
  table_ok t m -> list_ t !! slot (length_bits_ t) h = Some c -> c = pre ++ x :: post ->
  exists R, concat (list_ t) ≡ₚ x :: R /\ (forall r, r ∈ R -> id_of r <> id_of x) /\
    (forall mid, concat (<[slot (length_bits_ t) h := pre ++ mid ++ post]> (list_ t)) ≡ₚ mid ++ R).
Proof.
  intros Hok Hc ->. destruct (chain_split _ _ _ Hc) as (A & B & Hl & HA & Hins). exists (concat A ++ pre ++ post ++ concat B).
  assert (forall mid, concat (A ++ (pre ++ mid ++ post) :: B) ≡ₚ mid ++ concat A ++ pre ++ post ++ concat B) as Hmid.
  { intros mid. rewrite concat_middle. rewrite <- !app_assoc.
    rewrite (Permutation_app_swap_app pre mid). apply Permutation_app_swap_app. }
  assert (concat (list_ t) ≡ₚ x :: concat A ++ pre ++ post ++ concat B) as Hp by (rewrite Hl; apply (Hmid [x])).
  split_and!; [done| |].
  - intros r Hr Heq. pose proof (tok_nodup _ _ Hok) as Hnd. rewrite Hp in Hnd. simpl in Hnd. apply NoDup_cons in Hnd as [Hn _].
    apply Hn. rewrite <- Heq. by apply list_elem_of_fmap_2.
  - intros mid. rewrite Hins. apply Hmid.
Qed.

Lemma chain_slots t m h c pre post mid :
  table_ok t m -> list_ t !! slot (length_bits_ t) h = Some c ->
  (forall e, e ∈ pre ++ post -> e ∈ c) -> (forall e, e ∈ mid -> word 32 (hash e) /\ hash e = h) ->
  slots_ok (length_bits_ t) (<[slot (length_bits_ t) h := pre ++ mid ++ post]> (list_ t)).
Proof.
  intros Hok Hc Hin Hmid. eapply slots_ok_insert; [exact (tok_slot _ _ Hok)|done|]. intros e He.
  assert (e ∈ mid \/ e ∈ pre ++ post) as [He'|He'] by (rewrite !elem_of_app in *; tauto).
  - destruct (Hmid e He') as [Hw <-]. done.
  - apply (tok_slot _ _ Hok _ _ e Hc). by apply Hin.
Qed.

Lemma table_insert_ok t m e :
  table_ok t m -> word 32 (hash e) -> elems_ t + 1 < 2 ^ 32 ->
  exists t', table_insert t e = Ok (m !! id_of e, t') /\ table_ok t' (<[id_of e := ptr e]> m).
Proof.
  intros Hok Hw Hroom. pose proof (table_lookup_ok t m (key e) (hash e) Hok Hw) as Hlk. unfold table_lookup in Hlk. unfold table_insert.
  destruct (chain_of_ok t m (hash e) Hok Hw) as (c & Hce & Hc). rewrite Hce in *. simpl rbind in *.
  assert (forall y, y ∈ [e] -> word 32 (hash y) /\ hash y = hash e) as Hmid by (intros y ->%list_elem_of_singleton; done).
  pose proof (FindPointer_spec c (key e) (hash e)) as Hf. destruct (FindPointer c (key e) (hash e)) as [[pre [x|]] post];
    simpl in Hlk; injection Hlk as Hlk; change (m !! id_of e) with (m !! (hash e, key e)); rewrite <- Hlk.
  - destruct Hf as [Hcx Hx]. eexists. split; [done|]. destruct (found_rest t m (hash e) c pre x post Hok Hc Hcx) as (R & Hp & HR & Hins).
    eapply (table_ok_exchange t _ m (id_of e) (Some x) (Some e) R); [done|done|apply length_insert| |exact Hp|exact (Hins [e])| | | | |].
    + apply (chain_slots t m (hash e) c pre post [e]); [done|done| |done]. intros y Hy. rewrite Hcx. rewrite elem_of_app in *. rewrite elem_of_cons. tauto.
    + by intros ? [= <-].
    + by intros ? [= <-].
    + intros r Hr. change (id_of e) with (hash e, key e). rewrite <- Hx. by apply HR.
    + cbn [elems_ list_]. rewrite (Hins [e]), (tok_elems _ _ Hok), Hp. done.
    + apply (tok_small _ _ Hok).
  - destruct Hf as (-> & -> & Hn). destruct (chain_split _ _ _ Hc) as (A & B & Hl & HA & Hins).
    set (t1 := mkTable _ _ _ _). assert (concat (list_ t1) ≡ₚ e :: concat (list_ t)) as Hp1.
    { simpl. rewrite Hins, Hl, !concat_middle, <- app_assoc. simpl. rewrite !app_assoc. by rewrite <- Permutation_middle. }
    pose proof (tok_elems _ _ Hok) as Hel.
    assert (elems_ t1 = elems_ t + 1) as He1 by (simpl; unfold wadd; rewrite wrap_id by (split; lia); done).
    assert (table_ok t1 (<[id_of e := ptr e]> m)) as Hok1.
    { eapply (table_ok_exchange t t1 m (id_of e) None (Some e) (concat (list_ t))); [done|done|apply length_insert| |done|exact Hp1|done| | | |].
      - apply (chain_slots t m (hash e) c c [] [e]); [done|done| |done]. intros y Hy. by rewrite app_nil_r in Hy.
      - by intros ? [= <-].
      - intros r Hr Heq. apply (Hn r); [|done]. eapply in_chain; [done|done|done|]. by injection Heq.
      - rewrite Hp1, He1, Hel. cbn [length]. lia.
      - lia. }
    match goal with |- context [0 <? ?x] => destruct (0 <? x) end.
    + destruct (Resize_ok t1 _ Hok1) as (t' & -> & Hok'). exists t'. split; [done|exact Hok'].
    + exists t1. split; [done|exact Hok1].
Qed.

Lemma table_remove_ok t m k h :
  table_ok t m -> word 32 h -> exists t', table_remove t k h = Ok (m !! (h, k), t') /\ table_ok t' (delete (h, k) m).
Proof.
  intros Hok Hw. pose proof (table_lookup_ok t m k h Hok Hw) as Hlk. unfold table_lookup in Hlk. unfold table_remove.
  destruct (chain_of_ok t m h Hok Hw) as (c & Hce & Hc). rewrite Hce in *. simpl rbind in *.
  pose proof (FindPointer_spec c k h) as Hf. destruct (FindPointer c k h) as [[pre [x|]] post]; simpl in Hlk; injection Hlk as Hlk; rewrite <- Hlk.
  - destruct Hf as [Hcx Hx]. eexists. split; [done|]. destruct (found_rest t m h c pre x post Hok Hc Hcx) as (R & Hp & HR & Hins).
    pose proof (tok_elems _ _ Hok) as Hel. rewrite Hp in Hel. cbn [length] in Hel. pose proof (tok_small _ _ Hok) as Hsm.
    assert (wsub 32 (elems_ t) 1 = elems_ t - 1) as Hsub by (unfold wsub; rewrite wrap_id by (split; lia); done).
    eapply (table_ok_exchange t _ m (h, k) (Some x) None R); [done|done|apply length_insert| |exact Hp|exact (Hins [])| |done| | |].
    + apply (chain_slots t m h c pre post []); [done|done| |by intros ? ?%elem_of_nil]. intros y Hy. rewrite Hcx. rewrite elem_of_app in *. rewrite elem_of_cons. tauto.
    + by intros ? [= <-].
    + intros r Hr. rewrite <- Hx. by apply HR.
    + cbn [elems_ list_]. rewrite (Hins []), Hsub. simpl. lia.
    + cbn [elems_]. lia.
  - exists t. split; [done|]. by rewrite delete_id.
Qed.

Lemma new_table_ok b : table_ok (new_table b) ∅.
Proof.
  split; [simpl; lia|reflexivity| |apply NoDup_nil_2| |reflexivity|reflexivity].
  - intros i c e [-> _]%lookup_replicate He. by apply elem_of_nil in He.
  - intros i p. rewrite lookup_empty. split; [done|]. by intros (e & He%elem_of_nil & _).
Qed.

(** ** Whole histories *)

(** [elems_] is the size of the map. *)
Lemma elems_size t m : table_ok t m -> elems_ t = Z.of_nat (size m).
Proof.
  intros Hok. rewrite (tok_elems _ _ Hok). f_equal. set (l := (fun e => (id_of e, ptr e)) <$> concat (list_ t)).
  assert (NoDup l.*1) as Hnd by (unfold l; rewrite <- list_fmap_compose; apply (tok_nodup _ _ Hok)).
  assert (m = list_to_map l) as ->; [|by rewrite map_size_list_to_map by done; unfold l; rewrite length_fmap].
  apply map_eq. intros i. apply option_eq. intros p. rewrite (tok_map _ _ Hok), <- elem_of_list_to_map by done. unfold l. rewrite list_elem_of_fmap.
  split; [intros (e & He & <- & <-); by exists e|intros (e & [= -> ->] & He); by exists e].
Qed.

Inductive table_op : Type :=
  | TLookup (k : list Z) (h : Z)
  | TInsert (e : entry)
  | TRemove (k : list Z) (h : Z).

Definition op_hash (op : table_op) : Z := match op with TLookup _ h | TRemove _ h => h | TInsert e => hash e end.

(** The answers of a sequence of calls. *)
Fixpoint run_table (ops : list table_op) (t : LRUHandleTable) : result (list (option Z)) :=
  match ops with
  | [] => Ok []
  | op :: ops =>
      let? (a, t) :=
        match op with
        | TLookup k h => let? a := table_lookup t k h in Ok (a, t)
        | TInsert e => table_insert t e
        | TRemove k h => table_remove t k h
        end in
      let? rest := run_table ops t in
      Ok (a :: rest)
  end.

(** What they should be, on a finite map. *)
Fixpoint run_map (ops : list table_op) (m : gmap (Z * list Z) Z) : list (option Z) :=
  match ops with
  | [] => []
  | TLookup k h :: ops => m !! (h, k) :: run_map ops m
  | TInsert e :: ops => m !! id_of e :: run_map ops (<[id_of e := ptr e]> m)
  | TRemove k h :: ops => m !! (h, k) :: run_map ops (delete (h, k) m)
  end.

Lemma run_table_ok ops t m :
  table_ok t m -> Forall (fun op => word 32 (op_hash op)) ops -> elems_ t + Z.of_nat (length ops) < 2 ^ 32 ->
  run_table ops t = Ok (run_map ops m).
Proof.
  intros Hok Hops. revert t m Hok. induction Hops as [|op ops Hw _ IH]; intros t m Hok Hroom; [done|]. cbn [run_table run_map].
  rewrite (elems_size t m Hok) in Hroom. cbn [length] in Hroom. destruct op as [k h|e|k h]; simpl in Hw.
  - rewrite (table_lookup_ok t m k h Hok Hw). simpl rbind. rewrite (IH t m Hok); [done|]. rewrite (elems_size t m Hok). lia.
  - destruct (table_insert_ok t m e Hok Hw) as (t' & -> & Hok'); [rewrite (elems_size t m Hok); lia|]. simpl rbind.
    rewrite (IH t' _ Hok'); [done|]. rewrite (elems_size t' _ Hok'). rewrite map_size_insert. destruct (m !! id_of e); cbn; lia.
  - destruct (table_remove_ok t m k h Hok Hw) as (t' & -> & Hok'). simpl rbind.
    rewrite (IH t' _ Hok'); [done|]. rewrite (elems_size t' _ Hok'). rewrite map_size_delete. destruct (m !! (h, k)); cbn; lia.
Qed.

(** C35. The hash table of the block cache is a finite map from hash and key
    to handles: every sequence of lookups, insertions and removals, however it
    makes the table grow, gets the answers the map gives, and no assertion or
    array bound fails. *)
Theorem lru_table_refines_map b ops :
  Forall (fun op => word 32 (op_hash op)) ops -> Z.of_nat (length ops) < 2 ^ 32 ->
  run_table ops (new_table b) = Ok (run_map ops ∅).
Proof. intros Hops Hlen. apply run_table_ok; [apply new_table_ok|done|simpl; lia]. Qed.

(** Forty insertions (the table doubles), a removal and two lookups. *)
Definition forty_ops : list table_op :=
  ((fun i => TInsert (mkEntry i (i * 100000007) [i])) <$> seqZ 1 40) ++ [TRemove [7] 700000049; TLookup [7] 700000049; TLookup [8] 800000056].

Lemma lru_table_refines_map_witness :
  exists l, run_table forty_ops (new_table 28) = Ok (l ++ [Some 7; None; Some 8]).
Proof.
  exists (replicate 40 None). rewrite (lru_table_refines_map 28 forty_ops).
  - f_equal.
  - apply Forall_app. split.
    + apply Forall_fmap, Forall_forall. intros i Hi%elem_of_seqZ. split; simpl; lia.
    + repeat constructor; simpl; lia.
  - reflexivity.
Defined.
