(* ===== verification/LruCache.v ===== *)
(** * The block cache

    [LRUCacheShard] of rocksdb-8.6.7/cache/lru_cache.{h,cc}, one shard of the
    cache [NewLRUCache] makes for the experiments.  Handles live in a heap of
    pointers; a freed handle is no longer in it, so that a use after free is
    [ENull].  The circular list of evictable entries is the list of its
    handles from [lru_.next], the oldest, to [lru_.prev], and [None] stands for
    [&lru_]; the mutex and the deleters are not modelled. *)

From Stdlib Require Import SpecFloat.
From S2P Require Import Prelude Words BloomFilter LruTable.

(** ** Data *)

Record LRUHandle : Type := mkHandle {
  value : Z;
  h_key : list Z;
  h_hash : Z;
  total_charge : Z;
  refs : Z;
  in_cache : bool;
  has_hit : bool;
  in_high_pri_pool : bool;
  in_low_pri_pool : bool;
  is_high_pri : bool;
  is_low_pri : bool;
  is_standalone : bool;
}.

Definition SetInCache (b : bool) (h : LRUHandle) : LRUHandle :=
  mkHandle (value h) (h_key h) (h_hash h) (total_charge h) (refs h) b (has_hit h) (in_high_pri_pool h) (in_low_pri_pool h)
    (is_high_pri h) (is_low_pri h) (is_standalone h).
Definition SetHit (h : LRUHandle) : LRUHandle :=
  mkHandle (value h) (h_key h) (h_hash h) (total_charge h) (refs h) (in_cache h) true (in_high_pri_pool h) (in_low_pri_pool h)
    (is_high_pri h) (is_low_pri h) (is_standalone h).
(** [SetInHighPriPool(hi); SetInLowPriPool(lo)]. *)
Definition SetPools (hi lo : bool) (h : LRUHandle) : LRUHandle :=
  mkHandle (value h) (h_key h) (h_hash h) (total_charge h) (refs h) (in_cache h) (has_hit h) hi lo
    (is_high_pri h) (is_low_pri h) (is_standalone h).
Definition SetRefs (n : Z) (h : LRUHandle) : LRUHandle :=
  mkHandle (value h) (h_key h) (h_hash h) (total_charge h) n (in_cache h) (has_hit h) (in_high_pri_pool h) (in_low_pri_pool h)
    (is_high_pri h) (is_low_pri h) (is_standalone h).
(** [LRUHandle::Ref]: [refs++] on 32 bits. *)
Definition IncRefs (h : LRUHandle) : LRUHandle := SetRefs (wadd 32 (refs h) 1) h.
Definition SetCharge (c : Z) (h : LRUHandle) : LRUHandle :=
  mkHandle (value h) (h_key h) (h_hash h) c (refs h) (in_cache h) (has_hit h) (in_high_pri_pool h) (in_low_pri_pool h)
    (is_high_pri h) (is_low_pri h) (is_standalone h).
Definition HasRefs (h : LRUHandle) : bool := 0 <? refs h.

Inductive Priority : Type := HIGH | LOW | BOTTOM.
Inductive Status : Type := OK | OkOverwritten | MemoryLimit.

(** The fields of a shard: its limits, its LRU list with the usage of the
    pools, the table, the usage, and the heap with the next free pointer. *)
Record Limits : Type := mkLimits {
  capacity_ : Z;
  strict_capacity_limit_ : bool;
  high_pri_pool_ratio_ : spec_float;
  high_pri_pool_capacity_ : spec_float;
  low_pri_pool_ratio_ : spec_float;
  low_pri_pool_capacity_ : spec_float;
}.

Record Pools : Type := mkPools {
  lru_ : list Z;
  lru_low_pri_ : option Z;
  lru_bottom_pri_ : option Z;
  high_pri_pool_usage_ : Z;
  low_pri_pool_usage_ : Z;
  lru_usage_ : Z;
}.

Record Shard : Type := mkShard {
  limits : Limits;
  pools : Pools;
  table_ : LRUHandleTable;
  usage_ : Z;
  heap : gmap Z LRUHandle;
  next_ptr : Z;
}.

Definition set_limits (l : Limits) (s : Shard) : Shard := mkShard l (pools s) (table_ s) (usage_ s) (heap s) (next_ptr s).
Definition set_pools (p : Pools) (s : Shard) : Shard := mkShard (limits s) p (table_ s) (usage_ s) (heap s) (next_ptr s).
Definition set_table (t : LRUHandleTable) (s : Shard) : Shard := mkShard (limits s) (pools s) t (usage_ s) (heap s) (next_ptr s).
Definition set_usage (u : Z) (s : Shard) : Shard := mkShard (limits s) (pools s) (table_ s) u (heap s) (next_ptr s).
Definition set_heap (m : gmap Z LRUHandle) (s : Shard) : Shard := mkShard (limits s) (pools s) (table_ s) (usage_ s) m (next_ptr s).

(** ** The heap *)

Definition deref (e : Z) : M Shard LRUHandle :=
  fun s => match heap s !! e with Some h => Ok (h, s) | None => Err ENull end.
Definition update (e : Z) (f : LRUHandle -> LRUHandle) : M Shard unit :=
  fun s => match heap s !! e with Some h => Ok (tt, set_heap (<[e := f h]> (heap s)) s) | None => Err ENull end.
Definition free (e : Z) : M Shard unit :=
  fun s => match heap s !! e with Some _ => Ok (tt, set_heap (delete e (heap s)) s) | None => Err ENull end.

(** [e->Free(allocator)]. *)
Definition Free (e : Z) : M Shard unit := h <- deref e ;; assert (refs h =? 0) ;;; free e.

(** [assert(usage_ >= c); usage_ -= c]. *)
Definition sub_usage (c : Z) : M Shard unit :=
  u <- gets usage_ ;; assert (c <=? u) ;;; modify (set_usage (u - c)).
Definition add_usage (c : Z) : M Shard unit := modify (fun s => set_usage (wadd 64 (usage_ s) c) s).

(** ** The list *)

(** The handle before [e], where [p] is the one before the list. *)
Fixpoint prev_of (p : option Z) (l : list Z) (e : Z) : option Z :=
  match l with
  | [] => None
  | x :: l => if x =? e then p else prev_of (Some x) l e
  end.

Fixpoint next_of (p : option Z) (l : list Z) : option Z :=
  match p with
  | None => head l
  | Some x => match l with [] => None | y :: l => if y =? x then head l else next_of p l end
  end.

Fixpoint insert_after (p : option Z) (e : Z) (l : list Z) : list Z :=
  match p with
  | None => e :: l
  | Some x => match l with [] => [] | y :: l => if y =? x then y :: e :: l else y :: insert_after p e l end
  end.

Fixpoint unlink (e : Z) (l : list Z) : list Z :=
  match l with
  | [] => []
  | x :: l => if x =? e then l else x :: unlink e l
  end.

(** ** LRU list operations *)

Definition LRU_Remove (e : Z) : M Shard unit :=
  h <- deref e ;;
  p <- gets pools ;;
  assert (bool_decide (e ∈ lru_ p)) ;;;
  let prev := prev_of None (lru_ p) e in
  let low := if bool_decide (lru_low_pri_ p = Some e) then prev else lru_low_pri_ p in
  let bottom := if bool_decide (lru_bottom_pri_ p = Some e) then prev else lru_bottom_pri_ p in
  assert (total_charge h <=? lru_usage_ p) ;;;
  assert (negb (in_high_pri_pool h) || negb (in_low_pri_pool h)) ;;;
  let lru := unlink e (lru_ p) in
  let lru_usage := lru_usage_ p - total_charge h in
  if in_high_pri_pool h then
    assert (total_charge h <=? high_pri_pool_usage_ p) ;;;
    modify (set_pools (mkPools lru low bottom (high_pri_pool_usage_ p - total_charge h) (low_pri_pool_usage_ p) lru_usage))
  else if in_low_pri_pool h then
    assert (total_charge h <=? low_pri_pool_usage_ p) ;;;
    modify (set_pools (mkPools lru low bottom (high_pri_pool_usage_ p) (low_pri_pool_usage_ p - total_charge h) lru_usage))
  else modify (set_pools (mkPools lru low bottom (high_pri_pool_usage_ p) (low_pri_pool_usage_ p) lru_usage)).

(** The two loops of [MaintainPoolSize]; [usage > capacity] compares a
    [size_t] with a [double]. *)
Fixpoint overflow_high (fuel : nat) : M Shard unit :=
  match fuel with
  | O => fail EFuel
  | S fuel =>
      p <- gets pools ;;
      l <- gets limits ;;
      if SFltb (high_pri_pool_capacity_ l) (double_of (high_pri_pool_usage_ p)) then
        match next_of (lru_low_pri_ p) (lru_ p) with
        | None => fail EAssert
        | Some e =>
            update e (SetPools false true) ;;;
            h <- deref e ;;
            assert (total_charge h <=? high_pri_pool_usage_ p) ;;;
            modify (set_pools (mkPools (lru_ p) (Some e) (lru_bottom_pri_ p) (high_pri_pool_usage_ p - total_charge h)
                                 (wadd 64 (low_pri_pool_usage_ p) (total_charge h)) (lru_usage_ p))) ;;;
            overflow_high fuel
        end
      else ret tt
  end.

Fixpoint overflow_low (fuel : nat) : M Shard unit :=
  match fuel with
  | O => fail EFuel
  | S fuel =>
      p <- gets pools ;;
      l <- gets limits ;;
      if SFltb (low_pri_pool_capacity_ l) (double_of (low_pri_pool_usage_ p)) then
        match next_of (lru_bottom_pri_ p) (lru_ p) with
        | None => fail EAssert
        | Some e =>
            update e (SetPools false false) ;;;
            h <- deref e ;;
            assert (total_charge h <=? low_pri_pool_usage_ p) ;;;
            modify (set_pools (mkPools (lru_ p) (lru_low_pri_ p) (Some e) (high_pri_pool_usage_ p)
                                 (low_pri_pool_usage_ p - total_charge h) (lru_usage_ p))) ;;;
            overflow_low fuel
        end
      else ret tt
  end.

Definition MaintainPoolSize : M Shard unit :=
  n <- gets (fun s => S (length (lru_ (pools s)))) ;;
  overflow_high n ;;; overflow_low n.

Definition positive (r : spec_float) : bool := SFltb (S754_zero false) r.

Definition LRU_Insert (e : Z) : M Shard unit :=
  h <- deref e ;;
  p <- gets pools ;;
  l <- gets limits ;;
  assert (negb (bool_decide (e ∈ lru_ p))) ;;;
  (if positive (high_pri_pool_ratio_ l) && (is_high_pri h || has_hit h) then
     update e (SetPools true false) ;;;
     modify (set_pools (mkPools (lru_ p ++ [e]) (lru_low_pri_ p) (lru_bottom_pri_ p)
                          (wadd 64 (high_pri_pool_usage_ p) (total_charge h)) (low_pri_pool_usage_ p) (lru_usage_ p))) ;;;
     MaintainPoolSize
   else if positive (low_pri_pool_ratio_ l) && (is_high_pri h || is_low_pri h || has_hit h) then
     update e (SetPools false true) ;;;
     modify (set_pools (mkPools (insert_after (lru_low_pri_ p) e (lru_ p)) (lru_low_pri_ p) (lru_bottom_pri_ p)
                          (high_pri_pool_usage_ p) (wadd 64 (low_pri_pool_usage_ p) (total_charge h)) (lru_usage_ p))) ;;;
     MaintainPoolSize ;;;
     modify (fun s => let p := pools s in
       set_pools (mkPools (lru_ p) (Some e) (lru_bottom_pri_ p) (high_pri_pool_usage_ p) (low_pri_pool_usage_ p) (lru_usage_ p)) s)
   else
     update e (SetPools false false) ;;;
     modify (set_pools (mkPools (insert_after (lru_bottom_pri_ p) e (lru_ p))
                          (if bool_decide (lru_bottom_pri_ p = lru_low_pri_ p) then Some e else lru_low_pri_ p) (Some e)
                          (high_pri_pool_usage_ p) (low_pri_pool_usage_ p) (lru_usage_ p)))) ;;;
  modify (fun s => let p := pools s in
    set_pools (mkPools (lru_ p) (lru_low_pri_ p) (lru_bottom_pri_ p) (high_pri_pool_usage_ p) (low_pri_pool_usage_ p)
                 (wadd 64 (lru_usage_ p) (total_charge h))) s).

(** ** The shard *)

(** [table_.Remove], [Insert], [Lookup] in the shard. *)
Definition remove_from_table (k : list Z) (h : Z) : M Shard (option Z) :=
  t <- gets table_ ;; r <- lift (table_remove t k h) ;; modify (set_table (snd r)) ;;; ret (fst r).
Definition insert_into_table (e : entry) : M Shard (option Z) :=
  t <- gets table_ ;; r <- lift (table_insert t e) ;; modify (set_table (snd r)) ;;; ret (fst r).

(** Take the oldest entry out of the cache; it is the caller's to free. *)
Definition evict_oldest (old : Z) : M Shard unit :=
  h <- deref old ;;
  assert (in_cache h && negb (HasRefs h)) ;;;
  LRU_Remove old ;;;
  remove_from_table (h_key h) (h_hash h) ;;;
  update old (SetInCache false) ;;;
  sub_usage (total_charge h).

Fixpoint evict_loop (fuel : nat) (charge : Z) (deleted : list Z) : M Shard (list Z) :=
  match fuel with
  | O => fail EFuel
  | S fuel =>
      s <- gets id ;;
      if capacity_ (limits s) <? wadd 64 (usage_ s) charge then
        match lru_ (pools s) with
        | [] => ret deleted
        | old :: _ => evict_oldest old ;;; evict_loop fuel charge (deleted ++ [old])
        end
      else ret deleted
  end.

(** [EvictFromLRU]: the handles taken out, oldest first. *)
Definition EvictFromLRU (charge : Z) : M Shard (list Z) :=
  n <- gets (fun s => S (length (lru_ (pools s)))) ;; evict_loop n charge [].

Fixpoint FreeAll (es : list Z) : M Shard unit :=
  match es with [] => ret tt | e :: es => Free e ;;; FreeAll es end.

Section callback.
(** Whether the eviction callback takes the object; the handle goes anyway. *)
Context (takes : LRUHandle -> bool).
(** [CalcuMetaCharge] of a handle with a key of this length. *)
Context (meta_charge : Z -> Z).

Fixpoint NotifyEvicted (es : list Z) : M Shard unit :=
  match es with
  | [] => ret tt
  | e :: es => h <- deref e ;; (if takes h then free e else Free e) ;;; NotifyEvicted es
  end.

Definition SetCapacity (capacity : Z) : M Shard unit :=
  l <- gets limits ;;
  modify (set_limits (mkLimits capacity (strict_capacity_limit_ l) (high_pri_pool_ratio_ l)
    (SFmul 53 1024 (double_of capacity) (high_pri_pool_ratio_ l)) (low_pri_pool_ratio_ l)
    (SFmul 53 1024 (double_of capacity) (low_pri_pool_ratio_ l)))) ;;;
  es <- EvictFromLRU 0 ;;
  NotifyEvicted es.

Definition SetStrictCapacityLimit (b : bool) : M Shard unit :=
  modify (fun s => let l := limits s in set_limits (mkLimits (capacity_ l) b (high_pri_pool_ratio_ l) (high_pri_pool_capacity_ l)
    (low_pri_pool_ratio_ l) (low_pri_pool_capacity_ l)) s).

Definition SetHighPriorityPoolRatio (r : spec_float) : M Shard unit :=
  modify (fun s => let l := limits s in set_limits (mkLimits (capacity_ l) (strict_capacity_limit_ l) r
    (SFmul 53 1024 (double_of (capacity_ l)) r) (low_pri_pool_ratio_ l) (low_pri_pool_capacity_ l)) s) ;;;
  MaintainPoolSize.

Definition SetLowPriorityPoolRatio (r : spec_float) : M Shard unit :=
  modify (fun s => let l := limits s in set_limits (mkLimits (capacity_ l) (strict_capacity_limit_ l) (high_pri_pool_ratio_ l)
    (high_pri_pool_capacity_ l) r (SFmul 53 1024 (double_of (capacity_ l)) r)) s) ;;;
  MaintainPoolSize.

(** The constructor. *)
Definition new_shard (capacity : Z) (strict : bool) (high_ratio low_ratio : spec_float) (max_upper_hash_bits : Z) : result Shard :=
  let s := mkShard (mkLimits 0 strict high_ratio (S754_zero false) low_ratio (S754_zero false)) (mkPools [] None None 0 0 0)
             (new_table max_upper_hash_bits) 0 ∅ 1 in
  match SetCapacity capacity s with Ok (_, s) => Ok s | Err e => Err e end.

(** [malloc] and the initialisation of a handle. *)
Definition CreateHandle (k : list Z) (h v charge : Z) : M Shard Z :=
  fun s => let e := next_ptr s in
    Ok (e, mkShard (limits s) (pools s) (table_ s) (usage_ s)
             (<[e := mkHandle v k h (wadd 64 charge (meta_charge (Z.of_nat (length k)))) 0 false false false false false false false]> (heap s))
             (e + 1)).

Definition SetPriority (p : Priority) (h : LRUHandle) : LRUHandle :=
  mkHandle (value h) (h_key h) (h_hash h) (total_charge h) (refs h) (in_cache h) (has_hit h) (in_high_pri_pool h) (in_low_pri_pool h)
    (match p with HIGH => true | _ => false end) (match p with LOW => true | _ => false end) (is_standalone h).
Definition SetIsStandalone (h : LRUHandle) : LRUHandle :=
  mkHandle (value h) (h_key h) (h_hash h) (total_charge h) (refs h) (in_cache h) (has_hit h) (in_high_pri_pool h) (in_low_pri_pool h)
    (is_high_pri h) (is_low_pri h) true.

(** [if (!e->HasRefs()) e->Ref()]. *)
Definition take_ref (e : Z) : M Shard unit := h <- deref e ;; if HasRefs h then ret tt else update e IncRefs.

(** [InsertItem]: [want] says that a handle is to be returned.  The result is
    the status and [*handle]. *)
Definition InsertItem (e : Z) (want : bool) : M Shard (Status * option Z) :=
  h <- deref e ;;
  evicted <- EvictFromLRU (total_charge h) ;;
  s <- gets id ;;
  if (capacity_ (limits s) <? wadd 64 (usage_ s) (total_charge h)) && (strict_capacity_limit_ (limits s) || negb want) then
    update e (SetInCache false) ;;;
    (if negb want then NotifyEvicted (evicted ++ [e]) ;;; ret (OK, None)
     else free e ;;; NotifyEvicted evicted ;;; ret (MemoryLimit, None))
  else
    old <- insert_into_table (mkEntry e (h_hash h) (h_key h)) ;;
    add_usage (total_charge h) ;;;
    more <- match old with
            | None => ret []
            | Some o =>
                ho <- deref o ;;
                assert (in_cache ho) ;;;
                update o (SetInCache false) ;;;
                (if HasRefs ho then ret []
                 else LRU_Remove o ;;; sub_usage (total_charge ho) ;;; ret [o])
            end ;;
    (if negb want then LRU_Insert e
     else take_ref e) ;;;
    NotifyEvicted (evicted ++ more) ;;;
    ret (match old with None => OK | Some _ => OkOverwritten end, if want then Some e else None).

Definition Insert (k : list Z) (hash v charge : Z) (want : bool) (priority : Priority) : M Shard (Status * option Z) :=
  e <- CreateHandle k hash v charge ;;
  update e (SetPriority priority) ;;;
  update e (SetInCache true) ;;;
  InsertItem e want.

Definition CreateStandalone (k : list Z) (hash v charge : Z) (allow_uncharged : bool) : M Shard (option Z) :=
  e <- CreateHandle k hash v charge ;;
  update e SetIsStandalone ;;;
  update e IncRefs ;;;
  h <- deref e ;;
  evicted <- EvictFromLRU (total_charge h) ;;
  s <- gets id ;;
  r <- (if strict_capacity_limit_ (limits s) && (capacity_ (limits s) <? wadd 64 (usage_ s) (total_charge h)) then
          if allow_uncharged then update e (SetCharge 0) ;;; ret (Some e)
          else free e ;;; ret None
        else add_usage (total_charge h) ;;; ret (Some e)) ;;
  NotifyEvicted evicted ;;;
  ret r.

End callback.

Definition Lookup (k : list Z) (hash : Z) : M Shard (option Z) :=
  t <- gets table_ ;;
  r <- lift (table_lookup t k hash) ;;
  match r with
  | None => ret None
  | Some e =>
      h <- deref e ;;
      assert (in_cache h) ;;;
      (if HasRefs h then ret tt else LRU_Remove e) ;;;
      update e IncRefs ;;;
      update e SetHit ;;;
      ret (Some e)
  end.

Definition Ref (e : Z) : M Shard bool :=
  h <- deref e ;; assert (HasRefs h) ;;; update e IncRefs ;;; ret true.

(** [Release] of a handle that is not null: whether it was freed. *)
Definition Release (e : Z) (erase_if_last_ref : bool) : M Shard bool :=
  h <- deref e ;;
  assert (0 <? refs h) ;;;
  update e (SetRefs (refs h - 1)) ;;;
  let last := refs h - 1 =? 0 in
  s <- gets id ;;
  must_free <-
    (if last && in_cache h then
       if (capacity_ (limits s) <? usage_ s) || erase_if_last_ref then
         assert (bool_decide (lru_ (pools s) = []) || erase_if_last_ref) ;;;
         remove_from_table (h_key h) (h_hash h) ;;;
         update e (SetInCache false) ;;;
         ret true
       else LRU_Insert e ;;; ret false
     else ret last) ;;
  (if must_free : bool then sub_usage (total_charge h) ;;; Free e else ret tt) ;;;
  ret must_free.

Definition Erase (k : list Z) (hash : Z) : M Shard unit :=
  r <- remove_from_table k hash ;;
  match r with
  | None => ret tt
  | Some e =>
      h <- deref e ;;
      assert (in_cache h) ;;;
      update e (SetInCache false) ;;;
      if HasRefs h then ret tt
      else LRU_Remove e ;;; sub_usage (total_charge h) ;;; Free e
  end.

Fixpoint erase_unref_loop (fuel : nat) (last_reference_list : list Z) : M Shard (list Z) :=
  match fuel with
  | O => fail EFuel
  | S fuel =>
      p <- gets pools ;;
      match lru_ p with
      | [] => ret last_reference_list
      | old :: _ => evict_oldest old ;;; erase_unref_loop fuel (last_reference_list ++ [old])
      end
  end.

Definition EraseUnRefEntries : M Shard unit :=
  n <- gets (fun s => S (length (lru_ (pools s)))) ;;
  es <- erase_unref_loop n [] ;;
  FreeAll es.

Definition GetUsage (s : Shard) : Z := usage_ s.
Definition GetPinnedUsage (s : Shard) : result Z :=
  if lru_usage_ (pools s) <=? usage_ s then Ok (usage_ s - lru_usage_ (pools s)) else Err EAssert.
Definition GetOccupancyCount (s : Shard) : Z := elems_ (table_ s).
