(* ===== verification/LruList.v ===== *)
(** * The pools of the block cache

    [LRU_Remove], [MaintainPoolSize] and [LRU_Insert] of [LruCache]: the list
    is the bottom, the low and the high priority pool one after the other, and
    the usage counters are the sums of the charges in the pools. *)

From Stdlib Require Import SpecFloat.
From S2P Require Import Prelude Words BloomFilter LruTable LruCache.

(** ** Running the monad *)

Lemma run_bind {S A B} (m : M S A) (k : A -> M S B) s a s' : m s = Ok (a, s') -> bind m k s = k a s'.
Proof. intros H. unfold bind. by rewrite H. Qed.

Lemma run_gets {S A B} (f : S -> A) (k : A -> M S B) s : bind (gets f) k s = k (f s) s.
Proof. done. Qed.

Lemma run_modify {S B} (f : S -> S) (k : unit -> M S B) s : bind (modify f) k s = k tt (f s).
Proof. done. Qed.

Lemma run_ret {S A B} (a : A) (k : A -> M S B) s : bind (ret a) k s = k a s.
Proof. done. Qed.

Lemma run_assert {S B} (b : bool) (k : unit -> M S B) s : b = true -> bind (assert b) k s = k tt s.
Proof. by intros ->. Qed.

Lemma run_deref {B} e h (k : LRUHandle -> M Shard B) s : heap s !! e = Some h -> bind (deref e) k s = k h s.
Proof. intros H. unfold bind, deref. by rewrite H. Qed.

Lemma run_update {B} e f h (k : unit -> M Shard B) s :
  heap s !! e = Some h -> bind (update e f) k s = k tt (set_heap (<[e := f h]> (heap s)) s).
Proof. intros H. unfold bind, update. by rewrite H. Qed.

Lemma bind_assoc {S A B C} (m : M S A) (k : A -> M S B) (j : B -> M S C) s :
  bind (bind m k) j s = bind m (fun a => bind (k a) j) s.
Proof. unfold bind. by destruct (m s) as [[]|]. Qed.

(** ** Sums of charges *)

Definition charge (m : gmap Z LRUHandle) (e : Z) : Z := match m !! e with Some h => total_charge h | None => 0 end.
Fixpoint csum (m : gmap Z LRUHandle) (l : list Z) : Z := match l with [] => 0 | e :: l => charge m e + csum m l end.

Lemma csum_app m l k : csum m (l ++ k) = csum m l + csum m k.
Proof. induction l as [|e l IH]; simpl; [done|]. rewrite IH. lia. Qed.

Lemma csum_perm m l k : l ≡ₚ k -> csum m l = csum m k.
Proof. induction 1; simpl; lia. Qed.

Lemma csum_ext m m' l : (forall e, e ∈ l -> charge m e = charge m' e) -> csum m l = csum m' l.
Proof. induction l as [|e l IH]; intros H; simpl; [done|]. rewrite IH by (intros x Hx; apply H; by right). rewrite (H e) by by left. done. Qed.

Lemma csum_nonneg m l : (forall e h, m !! e = Some h -> 0 <= total_charge h) -> 0 <= csum m l.
Proof. intros H. induction l as [|e l IH]; simpl; [done|]. unfold charge at 1. destruct (m !! e) eqn:E; [apply H in E; lia|lia]. Qed.

(** Heaps that differ in the pool flags only. *)
Definition flags_only (m m' : gmap Z LRUHandle) : Prop :=
  forall e, match m !! e, m' !! e with
            | Some h, Some h' => exists a b, h' = SetPools a b h
            | None, None => True
            | _, _ => False
            end.

Lemma flags_only_refl m : flags_only m m.
Proof. intros e. destruct (m !! e) as [h|] eqn:E; [|done]. exists (in_high_pri_pool h), (in_low_pri_pool h). by destruct h. Qed.

Lemma flags_only_trans m1 m2 m3 : flags_only m1 m2 -> flags_only m2 m3 -> flags_only m1 m3.
Proof.
  intros H1 H2 e. specialize (H1 e). specialize (H2 e). destruct (m1 !! e), (m2 !! e), (m3 !! e); try done.
  destruct H1 as (a & b & ->). destruct H2 as (c & d & ->). by exists c, d.
Qed.

Lemma flags_only_insert m e h a b : m !! e = Some h -> flags_only m (<[e := SetPools a b h]> m).
Proof.
  intros H x. destruct (decide (x = e)) as [->|Hne].
  - rewrite H, lookup_insert_eq. eauto.
  - rewrite lookup_insert_ne by done. apply flags_only_refl.
Qed.

Lemma flags_only_charge m m' e : flags_only m m' -> charge m' e = charge m e.
Proof. intros H. specialize (H e). unfold charge. destruct (m !! e), (m' !! e); try done. by destruct H as (a & b & ->). Qed.

Lemma flags_only_csum m m' l : flags_only m m' -> csum m' l = csum m l.
Proof. intros H. apply csum_ext. intros e _. by apply flags_only_charge. Qed.

(** What a heap that differs in flags keeps. *)
Lemma flags_only_lookup m m' e h' :
  flags_only m m' -> m' !! e = Some h' -> exists h, m !! e = Some h /\ exists a b, h' = SetPools a b h.
Proof. intros H E. specialize (H e). rewrite E in H. destruct (m !! e) as [h|]; [|done]. eauto. Qed.

Lemma flags_only_lookup_1 m m' e h :
  flags_only m m' -> m !! e = Some h -> exists a b, m' !! e = Some (SetPools a b h).
Proof. intros H E. specialize (H e). rewrite E in H. destruct (m' !! e) as [h'|]; [|done]. destruct H as (a & b & ->). eauto. Qed.

(** ** The list operations *)

Lemma prev_of_split p A e C : e ∉ A -> prev_of p (A ++ e :: C) e = match last A with Some x => Some x | None => p end.
Proof.
  revert p. induction A as [|x A IH]; intros p Hn; simpl; [by rewrite Z.eqb_refl|].
  rewrite (proj2 (Z.eqb_neq x e)) by set_solver. rewrite IH by set_solver. change (match A with [] => Some x | _ :: _ => last A end) with (last (x :: A)).
  rewrite last_cons. by destruct (last A).
Qed.

Lemma unlink_split A e C : e ∉ A -> unlink e (A ++ e :: C) = A ++ C.
Proof.
  induction A as [|x A IH]; intros Hn; simpl; [by rewrite Z.eqb_refl|].
  rewrite (proj2 (Z.eqb_neq x e)) by set_solver. by rewrite IH by set_solver.
Qed.

Lemma next_of_split A C : NoDup (A ++ C) -> next_of (last A) (A ++ C) = head C.
Proof.
  destruct A as [|x A] using rev_ind; intros Hnd; [by destruct C|]. rewrite last_snoc, <- app_assoc. simpl.
  rewrite <- app_assoc in Hnd. simpl in Hnd. clear IHA. induction A as [|y A IH]; simpl; [by rewrite Z.eqb_refl|].
  simpl in Hnd. apply NoDup_cons in Hnd as [Hy Hnd]. rewrite (proj2 (Z.eqb_neq y x)) by set_solver. by apply IH.
Qed.

Lemma insert_after_split A C e : NoDup (A ++ C) -> insert_after (last A) e (A ++ C) = A ++ e :: C.
Proof.
  destruct A as [|x A] using rev_ind; intros Hnd; [by destruct C|]. rewrite last_snoc, <- !app_assoc. simpl.
  rewrite <- app_assoc in Hnd. simpl in Hnd. clear IHA. induction A as [|y A IH]; simpl; [by rewrite Z.eqb_refl|].
  simpl in Hnd. apply NoDup_cons in Hnd as [Hy Hnd]. rewrite (proj2 (Z.eqb_neq y x)) by set_solver. by rewrite IH.
Qed.

Lemma last_unlink (A C : list Z) e :
  NoDup (A ++ e :: C) -> (if bool_decide (last (A ++ e :: C) = Some e) then last A else last (A ++ e :: C)) = last (A ++ C).
Proof.
  intros Hnd. destruct C as [|c C] using rev_ind.
  - rewrite last_snoc, bool_decide_true by done. by rewrite app_nil_r.
  - clear IHC. replace (A ++ e :: C ++ [c]) with ((A ++ e :: C) ++ [c]) in * by (by rewrite <- app_assoc).
    rewrite app_assoc, !last_snoc. rewrite bool_decide_false; [done|]. intros [= ->].
    apply NoDup_app in Hnd as (_ & Hnd & _). apply (Hnd e); [|by left]. apply elem_of_app. right. by left.
Qed.

Lemma last_not_in (A : list Z) e : e ∉ A -> bool_decide (last A = Some e) = false.
Proof. intros Hn. apply bool_decide_false. intros H. apply Hn. by apply last_Some_elem_of. Qed.

(** ** The pools *)

Definition flag_ok (m : gmap Z LRUHandle) (a b : bool) (e : Z) : Prop :=
  exists h, m !! e = Some h /\ in_high_pri_pool h = a /\ in_low_pri_pool h = b.

(** The list is [B], [L], [H]; the pointer to the end of [B] and the usage of
    the pools are right. *)
Record seg0 (p : Pools) (m : gmap Z LRUHandle) (B L H : list Z) : Prop := {
  s_list : lru_ p = B ++ L ++ H;
  s_nodup : NoDup (B ++ L ++ H);
  s_bottom : lru_bottom_pri_ p = last B;
  s_flagB : Forall (flag_ok m false false) B;
  s_flagL : Forall (flag_ok m false true) L;
  s_flagH : Forall (flag_ok m true false) H;
  s_high : high_pri_pool_usage_ p = csum m H;
  s_low : low_pri_pool_usage_ p = csum m L;
}.

(** The pointer to the end of [L] is right too. *)
Definition seg (p : Pools) (m : gmap Z LRUHandle) (B L H : list Z) : Prop :=
  seg0 p m B L H /\ lru_low_pri_ p = last (B ++ L).

Definition charges_ok (m : gmap Z LRUHandle) : Prop := forall e h, m !! e = Some h -> 0 <= total_charge h.

Lemma flag_ok_insert m a b x e h c d : x <> e -> flag_ok m a b x -> flag_ok (<[e := SetPools c d h]> m) a b x.
Proof. intros Hne (h' & Hh & Ha & Hb). exists h'. by rewrite lookup_insert_ne. Qed.

Lemma flags_insert_out m a b l e h c d :
  e ∉ l -> Forall (flag_ok m a b) l -> Forall (flag_ok (<[e := SetPools c d h]> m) a b) l.
Proof.
  intros Hn H. rewrite Forall_forall in *. intros x Hx. apply flag_ok_insert; [|by apply H]. intros ->. done.
Qed.

Lemma csum_charge_le m l e : charges_ok m -> e ∈ l -> charge m e <= csum m l.
Proof.
  intros Hc He. apply list_elem_of_split in He as (A & C & ->). rewrite csum_app. simpl.
  pose proof (csum_nonneg m A Hc). pose proof (csum_nonneg m C Hc). lia.
Qed.

Lemma charge_lookup m e h : m !! e = Some h -> charge m e = total_charge h.
Proof. intros H. unfold charge. by rewrite H. Qed.

Lemma prev_of_None A e C : e ∉ A -> prev_of None (A ++ e :: C) e = last A.
Proof. intros Hn. rewrite prev_of_split by done. by destruct (last A). Qed.

Lemma NoDup_middle {A} (l : list A) e k : NoDup (l ++ e :: k) -> NoDup (l ++ k) /\ e ∉ l /\ e ∉ k.
Proof. rewrite <- Permutation_middle. rewrite NoDup_cons, not_elem_of_app. tauto. Qed.

Lemma Forall_middle {A} (P : A -> Prop) l e k : Forall P (l ++ e :: k) -> Forall P (l ++ k) /\ P e.
Proof. rewrite !Forall_app, Forall_cons. tauto. Qed.

Lemma csum_middle m l e k : csum m (l ++ e :: k) = charge m e + csum m (l ++ k).
Proof. rewrite !csum_app. simpl. lia. Qed.

(** The pools without the entry [e]. *)
Definition removed (p : Pools) (e c dh dl : Z) : Pools :=
  let prev := prev_of None (lru_ p) e in
  mkPools (unlink e (lru_ p)) (if bool_decide (lru_low_pri_ p = Some e) then prev else lru_low_pri_ p)
    (if bool_decide (lru_bottom_pri_ p = Some e) then prev else lru_bottom_pri_ p)
    (high_pri_pool_usage_ p - dh) (low_pri_pool_usage_ p - dl) (lru_usage_ p - c).

Lemma removed_bottom p m B1 e B2 L H c :
  seg p m (B1 ++ e :: B2) L H -> seg (removed p e c 0 0) m (B1 ++ B2) L H /\ lru_ (removed p e c 0 0) = (B1 ++ B2) ++ L ++ H.
Proof.
  intros [[Hl Hnd Hbot HB HL HH Hhi Hlo] Hlow]. rewrite <- app_assoc in Hl, Hnd. cbn [app] in Hl, Hnd.
  destruct (NoDup_middle _ _ _ Hnd) as (Hnd' & Hn1 & Hn2). apply Forall_middle in HB as [HB _].
  assert (lru_ (removed p e c 0 0) = (B1 ++ B2) ++ L ++ H) as Hlru by (simpl; by rewrite Hl, unlink_split, <- app_assoc).
  split; [|done]. split; [split; try done|]; simpl; try lia.
  - by rewrite <- app_assoc.
  - rewrite Hl, Hbot, prev_of_None by done. apply last_unlink. rewrite app_assoc in Hnd. revert Hnd.
    rewrite <- app_assoc. cbn [app]. rewrite app_comm_cons, app_assoc. intros Hnd. by apply NoDup_app in Hnd as [Hnd _].
  - rewrite Hl, Hlow, prev_of_None by done. rewrite <- !app_assoc. cbn [app]. apply last_unlink.
    revert Hnd. rewrite (app_assoc B2), app_comm_cons, app_assoc. intros Hnd. by apply NoDup_app in Hnd as [Hnd _].
Qed.

Lemma removed_low p m B L1 e L2 H c :
  seg p m B (L1 ++ e :: L2) H -> c = charge m e ->
  seg (removed p e c 0 c) m B (L1 ++ L2) H /\ lru_ (removed p e c 0 c) = B ++ (L1 ++ L2) ++ H.
Proof.
  intros [[Hl Hnd Hbot HB HL HH Hhi Hlo] Hlow] Hc.
  assert (B ++ (L1 ++ e :: L2) ++ H = (B ++ L1) ++ e :: (L2 ++ H)) as Heq by (by rewrite <- !app_assoc).
  rewrite Heq in Hl, Hnd. destruct (NoDup_middle _ _ _ Hnd) as (Hnd' & Hn1 & Hn2). apply Forall_middle in HL as [HL _].
  assert (lru_ (removed p e c 0 c) = B ++ (L1 ++ L2) ++ H) as Hlru by (simpl; rewrite Hl, unlink_split by done; by rewrite <- !app_assoc).
  split; [|done]. split; [split; try done|]; simpl; try lia.
  - by rewrite <- app_assoc, (app_assoc B).
  - rewrite Hbot. rewrite last_not_in; [done|]. set_solver.
  - rewrite csum_middle in Hlo. lia.
  - rewrite Hl, Hlow, prev_of_None by done. rewrite !app_assoc. apply last_unlink.
    revert Hnd. rewrite app_comm_cons, app_assoc. intros Hnd. by apply NoDup_app in Hnd as [Hnd _].
Qed.

Lemma removed_high p m B L H1 e H2 c :
  seg p m B L (H1 ++ e :: H2) -> c = charge m e ->
  seg (removed p e c c 0) m B L (H1 ++ H2) /\ lru_ (removed p e c c 0) = B ++ L ++ H1 ++ H2.
Proof.
  intros [[Hl Hnd Hbot HB HL HH Hhi Hlo] Hlow] Hc.
  assert (B ++ L ++ H1 ++ e :: H2 = (B ++ L ++ H1) ++ e :: H2) as Heq by (by rewrite <- !app_assoc).
  rewrite Heq in Hl, Hnd. destruct (NoDup_middle _ _ _ Hnd) as (Hnd' & Hn1 & Hn2). apply Forall_middle in HH as [HH _].
  assert (lru_ (removed p e c c 0) = B ++ L ++ H1 ++ H2) as Hlru by (simpl; rewrite Hl, unlink_split by done; by rewrite <- !app_assoc).
  split; [|done]. split; [split; try done|]; simpl; try lia.
  - by rewrite <- !app_assoc in Hnd'.
  - rewrite Hbot. rewrite last_not_in; [done|]. set_solver.
  - rewrite csum_middle in Hhi. lia.
  - rewrite Hlow. rewrite last_not_in; [done|]. set_solver.
Qed.

(** [LRU_Remove] takes an entry out of the list and out of its pool. *)
Lemma LRU_Remove_ok s e h B L H :
  seg (pools s) (heap s) B L H -> lru_usage_ (pools s) = csum (heap s) (lru_ (pools s)) -> charges_ok (heap s) ->
  heap s !! e = Some h -> e ∈ lru_ (pools s) ->
  exists p' B' L' H', LRU_Remove e s = Ok (tt, set_pools p' s) /\ seg p' (heap s) B' L' H' /\
    lru_ (pools s) ≡ₚ e :: lru_ p' /\ lru_ p' = unlink e (lru_ (pools s)) /\ lru_usage_ p' = csum (heap s) (lru_ p').
Proof.
  intros Hseg Husage Hc Hh He. pose proof Hseg as [[Hl Hnd Hbot HB HL HH Hhi Hlo] Hlow]. unfold LRU_Remove.
  rewrite (run_deref e h) by done. rewrite run_gets, run_assert by by apply bool_decide_eq_true.
  pose proof (Hc e h Hh) as Hch. pose proof (charge_lookup _ _ _ Hh) as Hcl.
  pose proof (csum_charge_le _ _ e Hc He) as Hle. rewrite run_assert by (apply Z.leb_le; lia).
  assert (forall a b X, Forall (flag_ok (heap s) a b) X -> e ∈ X -> in_high_pri_pool h = a /\ in_low_pri_pool h = b) as Hflags.
  { intros a b X HX HeX. rewrite Forall_forall in HX. destruct (HX e HeX) as (h' & Hh' & Ha & Hb). by simplify_eq. }
  rewrite Hl in He. apply elem_of_app in He as [He|He]; [|apply elem_of_app in He as [He|He]].
  - destruct (Hflags _ _ _ HB He) as [-> ->]. rewrite run_assert by done. apply list_elem_of_split in He as (B1 & B2 & ->).
    destruct (removed_bottom (pools s) (heap s) B1 e B2 L H (total_charge h) Hseg) as [Hseg' Hlru].
    exists (removed (pools s) e (total_charge h) 0 0), (B1 ++ B2), L, H. split_and!; [|done| |done|].
    + unfold modify, removed. by rewrite !Z.sub_0_r.
    + rewrite Hl, Hlru. rewrite <- !app_assoc. cbn [app]. by rewrite <- Permutation_middle.
    + rewrite Hlru. simpl. rewrite Husage, Hl, <- !app_assoc. cbn [app]. rewrite csum_middle. lia.
  - destruct (Hflags _ _ _ HL He) as [-> ->]. rewrite run_assert by done.
    pose proof (csum_charge_le _ _ e Hc He). apply list_elem_of_split in He as (L1 & L2 & ->).
    rewrite run_assert by (apply Z.leb_le; lia).
    destruct (removed_low (pools s) (heap s) B L1 e L2 H (total_charge h) Hseg ltac:(done)) as [Hseg' Hlru].
    exists (removed (pools s) e (total_charge h) 0 (total_charge h)), B, (L1 ++ L2), H. split_and!; [|done| |done|].
    + unfold modify, removed. by rewrite !Z.sub_0_r.
    + rewrite Hl, Hlru. rewrite <- !app_assoc. cbn [app]. rewrite (app_assoc B), <- Permutation_middle. by rewrite <- app_assoc.
    + rewrite Hlru. simpl. rewrite Husage, Hl, <- !app_assoc. cbn [app]. rewrite (app_assoc B), csum_middle, <- app_assoc. lia.
  - destruct (Hflags _ _ _ HH He) as [-> ->]. rewrite run_assert by done.
    pose proof (csum_charge_le _ _ e Hc He). apply list_elem_of_split in He as (H1 & H2 & ->).
    rewrite run_assert by (apply Z.leb_le; lia).
    destruct (removed_high (pools s) (heap s) B L H1 e H2 (total_charge h) Hseg ltac:(done)) as [Hseg' Hlru].
    exists (removed (pools s) e (total_charge h) (total_charge h) 0), B, L, (H1 ++ H2). split_and!; [|done| |done|].
    + unfold modify, removed. by rewrite !Z.sub_0_r.
    + rewrite Hl, Hlru. rewrite !app_assoc. cbn [app]. by rewrite <- Permutation_middle.
    + rewrite Hlru. simpl. rewrite Husage, Hl, !app_assoc, csum_middle. lia.
Qed.

(** ** Keeping the pools within their capacities *)

Definition over (cap : spec_float) (usage : Z) : bool := SFltb cap (double_of usage).

(** A capacity that is not negative is not exceeded by nothing. *)
Definition cap_ok (cap : spec_float) : Prop := over cap 0 = false.

Lemma high_over_nonempty cap m H : cap_ok cap -> over cap (csum m H) = true -> exists e H', H = e :: H'.
Proof. intros Hc Ho. destruct H as [|e H]; [simpl in Ho; unfold cap_ok in Hc; congruence|eauto]. Qed.

Lemma Forall_flag_flags_only m m' a b X :
  Forall (flag_ok m a b) X -> (forall e, e ∈ X -> m' !! e = m !! e) -> Forall (flag_ok m' a b) X.
Proof. intros HX Heq. rewrite Forall_forall in *. intros e He. destruct (HX e He) as (h & Hh & Hf). exists h. by rewrite Heq. Qed.

(** Moving the first entry of the high pool to the end of the low pool. *)
Lemma seg_overflow_high p m B L e H h :
  seg p m B L (e :: H) -> m !! e = Some h -> low_pri_pool_usage_ p + total_charge h < 2 ^ 64 -> charges_ok m ->
  seg (mkPools (lru_ p) (Some e) (lru_bottom_pri_ p) (high_pri_pool_usage_ p - total_charge h)
         (wadd 64 (low_pri_pool_usage_ p) (total_charge h)) (lru_usage_ p))
      (<[e := SetPools false true h]> m) B (L ++ [e]) H.
Proof.
  intros [[Hl Hnd Hbot HB HL HH Hhi Hlo] Hlow] He Hsm Hc. pose proof (charge_lookup _ _ _ He) as Hce. pose proof (Hc e h He).
  pose proof (csum_nonneg m L Hc). rewrite app_assoc in Hnd. destruct (NoDup_middle _ _ _ Hnd) as (_ & Hn1 & Hn2). rewrite <- app_assoc in Hnd.
  assert (forall X, csum (<[e := SetPools false true h]> m) X = csum m X) as Hsum by (intros X; by apply flags_only_csum, flags_only_insert).
  split; [split|]; simpl.
  - by rewrite Hl, <- !app_assoc.
  - by rewrite <- app_assoc.
  - done.
  - apply flags_insert_out; [set_solver|done].
  - apply Forall_app. split; [apply flags_insert_out; [set_solver|done]|]. constructor; [|done]. eexists. rewrite lookup_insert_eq. done.
  - apply flags_insert_out; [set_solver|]. by inversion HH.
  - rewrite Hsum. simpl in Hhi. lia.
  - rewrite Hsum, csum_app. simpl. unfold wadd. rewrite wrap_id by (split; lia). lia.
  - rewrite app_assoc. by rewrite last_snoc.
Qed.

Lemma overflow_high_ok fuel s B L H :
  seg (pools s) (heap s) B L H -> charges_ok (heap s) -> csum (heap s) (B ++ L ++ H) < 2 ^ 64 ->
  cap_ok (high_pri_pool_capacity_ (limits s)) -> (length H < fuel)%nat ->
  exists p' m' L' H', overflow_high fuel s = Ok (tt, set_pools p' (set_heap m' s)) /\ seg p' m' B L' H' /\
    flags_only (heap s) m' /\ lru_ p' = lru_ (pools s) /\ lru_usage_ p' = lru_usage_ (pools s) /\
    over (high_pri_pool_capacity_ (limits s)) (high_pri_pool_usage_ p') = false.
Proof.
  revert s L H. induction fuel as [|fuel IH]; intros s L H Hseg Hc Hsum Hcap Hf; [lia|]. cbn [overflow_high]. rewrite !run_gets.
  pose proof Hseg as [[Hl Hnd Hbot HB HL HH Hhi Hlo] Hlow].
  destruct (SFltb _ _) eqn:Eo.
  - change (over (high_pri_pool_capacity_ (limits s)) (high_pri_pool_usage_ (pools s)) = true) in Eo. rewrite Hhi in Eo.
    destruct (high_over_nonempty _ _ _ Hcap Eo) as (e & H' & ->). 
    assert (next_of (lru_low_pri_ (pools s)) (lru_ (pools s)) = Some e) as ->.
    { rewrite Hlow, Hl, app_assoc. by rewrite next_of_split by (by rewrite <- app_assoc). }
    assert (exists h, heap s !! e = Some h) as [h He] by (apply Forall_inv in HH as (h & Hh & _); eauto).
    rewrite (run_update e _ h) by done. rewrite (run_deref e (SetPools false true h)) by (simpl; by rewrite lookup_insert_eq).
    cbn [total_charge SetPools]. pose proof (charge_lookup _ _ _ He) as Hce. pose proof (csum_nonneg (heap s) H' Hc).
    rewrite run_assert by (apply Z.leb_le; rewrite Hhi; simpl; lia). rewrite run_modify.
    rewrite !csum_app in Hsum. simpl in Hsum. pose proof (csum_nonneg (heap s) B Hc).
    pose proof (seg_overflow_high (pools s) (heap s) B L e H' h Hseg He ltac:(rewrite Hlo; lia) Hc) as Hseg'.
    match goal with |- exists p' m' L' H', overflow_high fuel ?t = _ /\ _ => set (s1 := t) end.
    destruct (IH s1 (L ++ [e]) H') as (p' & m' & L' & H'' & Hrun & Hs'' & Hfo & Hlr & Hlu & Hov).
    + exact Hseg'.
    + intros x hx Hx. simpl in Hx. destruct (decide (x = e)) as [->|Hne]; [rewrite lookup_insert_eq in Hx; simplify_eq; apply (Hc e h He)|].
      rewrite lookup_insert_ne in Hx by done. by apply (Hc x).
    + simpl. rewrite (flags_only_csum (heap s)) by by apply flags_only_insert. rewrite !csum_app. simpl. lia.
    + exact Hcap.
    + simpl in Hf. lia.
    + exists p', m', L', H''. split_and!; [exact Hrun|done| |by rewrite Hlr|by rewrite Hlu|done].
      eapply flags_only_trans; [by apply flags_only_insert|exact Hfo].
  - exists (pools s), (heap s), L, H. split_and!; [|done|apply flags_only_refl|done|done|done]. by destruct s.
Qed.

(** Moving the first entry of the low pool to the end of the bottom pool. *)
Lemma seg_overflow_low p m B e L H h :
  seg0 p m B (e :: L) H -> m !! e = Some h -> charges_ok m ->
  seg0 (mkPools (lru_ p) (lru_low_pri_ p) (Some e) (high_pri_pool_usage_ p) (low_pri_pool_usage_ p - total_charge h) (lru_usage_ p))
      (<[e := SetPools false false h]> m) (B ++ [e]) L H.
Proof.
  intros [Hl Hnd Hbot HB HL HH Hhi Hlo] He Hc. pose proof (charge_lookup _ _ _ He) as Hce.
  assert (forall X, csum (<[e := SetPools false false h]> m) X = csum m X) as Hsum by (intros X; by apply flags_only_csum, flags_only_insert).
  destruct (NoDup_middle _ _ _ Hnd) as (_ & Hn1 & Hn2). split; simpl.
  - by rewrite Hl, <- !app_assoc.
  - by rewrite <- app_assoc.
  - by rewrite last_snoc.
  - apply Forall_app. split; [by apply flags_insert_out|]. constructor; [|done]. eexists. rewrite lookup_insert_eq. done.
  - apply flags_insert_out; [set_solver|]. by inversion HL.
  - apply flags_insert_out; [set_solver|done].
  - by rewrite Hsum.
  - rewrite Hsum. simpl in Hlo. lia.
Qed.

Lemma overflow_low_ok fuel s B L H :
  seg0 (pools s) (heap s) B L H -> charges_ok (heap s) -> cap_ok (low_pri_pool_capacity_ (limits s)) -> (length L < fuel)%nat ->
  exists p' m' B' L', overflow_low fuel s = Ok (tt, set_pools p' (set_heap m' s)) /\ seg0 p' m' B' L' H /\ B' ++ L' = B ++ L /\
    flags_only (heap s) m' /\ lru_ p' = lru_ (pools s) /\ lru_usage_ p' = lru_usage_ (pools s) /\
    lru_low_pri_ p' = lru_low_pri_ (pools s) /\ high_pri_pool_usage_ p' = high_pri_pool_usage_ (pools s).
Proof.
  revert s B L. induction fuel as [|fuel IH]; intros s B L Hseg Hc Hcap Hf; [lia|]. cbn [overflow_low]. rewrite !run_gets.
  pose proof Hseg as [Hl Hnd Hbot HB HL HH Hhi Hlo].
  destruct (SFltb _ _) eqn:Eo.
  - change (over (low_pri_pool_capacity_ (limits s)) (low_pri_pool_usage_ (pools s)) = true) in Eo. rewrite Hlo in Eo.
    destruct (high_over_nonempty _ _ _ Hcap Eo) as (e & L' & ->). 
    assert (next_of (lru_bottom_pri_ (pools s)) (lru_ (pools s)) = Some e) as -> by (rewrite Hbot, Hl; by rewrite next_of_split).
    assert (exists h, heap s !! e = Some h) as [h He] by (apply Forall_inv in HL as (h & Hh & _); eauto).
    rewrite (run_update e _ h) by done. rewrite (run_deref e (SetPools false false h)) by (simpl; by rewrite lookup_insert_eq).
    cbn [total_charge SetPools]. pose proof (charge_lookup _ _ _ He) as Hce. pose proof (csum_nonneg (heap s) L' Hc).
    rewrite run_assert by (apply Z.leb_le; rewrite Hlo; simpl; lia). rewrite run_modify.
    pose proof (seg_overflow_low (pools s) (heap s) B e L' H h Hseg He Hc) as Hseg'.
    match goal with |- exists p' m' B' L'', overflow_low fuel ?t = _ /\ _ => set (s1 := t) end.
    destruct (IH s1 (B ++ [e]) L') as (p' & m' & B' & L'' & Hrun & Hs'' & Hcat & Hfo & Hlr & Hlu & Hlp & Hhu).
    + exact Hseg'.
    + intros x hx Hx. simpl in Hx. destruct (decide (x = e)) as [->|Hne]; [rewrite lookup_insert_eq in Hx; simplify_eq; apply (Hc e h He)|].
      rewrite lookup_insert_ne in Hx by done. by apply (Hc x).
    + exact Hcap.
    + simpl in Hf. lia.
    + exists p', m', B', L''. split_and!; [exact Hrun|done|rewrite Hcat, <- app_assoc; done| |by rewrite Hlr|by rewrite Hlu|by rewrite Hlp|by rewrite Hhu].
      eapply flags_only_trans; [by apply flags_only_insert|exact Hfo].
  - exists (pools s), (heap s), B, L. split_and!; [|done|done|apply flags_only_refl|done|done|done|done]. by destruct s.
Qed.

Lemma flags_only_charges m m' : flags_only m m' -> charges_ok m -> charges_ok m'.
Proof. intros Hf Hc e h' Hh'. destruct (flags_only_lookup _ _ _ _ Hf Hh') as (h & Hh & a & b & ->). exact (Hc e h Hh). Qed.

(** [MaintainPoolSize] moves entries between the pools, and afterwards the high
    pool is within its capacity. *)
Lemma MaintainPoolSize_ok s B L H :
  seg (pools s) (heap s) B L H -> charges_ok (heap s) -> csum (heap s) (B ++ L ++ H) < 2 ^ 64 ->
  cap_ok (high_pri_pool_capacity_ (limits s)) -> cap_ok (low_pri_pool_capacity_ (limits s)) ->
  exists p' m' B' L' H', MaintainPoolSize s = Ok (tt, set_pools p' (set_heap m' s)) /\ seg p' m' B' L' H' /\
    flags_only (heap s) m' /\ lru_ p' = lru_ (pools s) /\ lru_usage_ p' = lru_usage_ (pools s) /\
    over (high_pri_pool_capacity_ (limits s)) (high_pri_pool_usage_ p') = false.
Proof.
  intros Hseg Hc Hsum Hch Hcl. unfold MaintainPoolSize. rewrite run_gets.
  pose proof Hseg as [[Hl _ _ _ _ _ _ _] _].
  destruct (overflow_high_ok (S (length (lru_ (pools s)))) s B L H Hseg Hc Hsum Hch) as (p1 & m1 & L1 & H1 & Hrun & Hs1 & Hf1 & Hl1 & Hu1 & Ho1).
  { rewrite Hl, !length_app. lia. }
  rewrite (run_bind _ _ _ _ _ Hrun). destruct Hs1 as [Hs1 Hlow1].
  destruct (overflow_low_ok (S (length (lru_ (pools s)))) (set_pools p1 (set_heap m1 s)) B L1 H1) as (p2 & m2 & B2 & L2 & Hrun2 & Hs2 & Hcat & Hf2 & Hl2 & Hu2 & Hlp2 & Hh2).
  - exact Hs1.
  - by apply (flags_only_charges (heap s)).
  - exact Hcl.
  - pose proof (s_list _ _ _ _ _ Hs1) as Hl'. rewrite Hl1 in Hl'. rewrite Hl', !length_app. lia.
  - exists p2, m2, B2, L2, H1. split_and!; [exact Hrun2| | |by rewrite Hl2|by rewrite Hu2|by rewrite Hh2].
    + split; [done|]. rewrite Hlp2, Hcat. exact Hlow1.
    + by eapply flags_only_trans.
Qed.

(** ** Insertion *)

(** An entry may go to the low pool only while the high pool is within its
    capacity. *)
Definition calm (l : Limits) (p : Pools) : Prop :=
  positive (low_pri_pool_ratio_ l) = false \/ over (high_pri_pool_capacity_ l) (high_pri_pool_usage_ p) = false.

Lemma overflow_high_idle n s :
  over (high_pri_pool_capacity_ (limits s)) (high_pri_pool_usage_ (pools s)) = false -> overflow_high (S n) s = Ok (tt, s).
Proof. unfold over. intros H. cbn [overflow_high]. rewrite !run_gets, H. done. Qed.

Section insert.
Context (s : Shard) (e : Z) (h : LRUHandle) (B L H : list Z).
Context (Hseg : seg (pools s) (heap s) B L H) (Hc : charges_ok (heap s)).
Context (He : heap s !! e = Some h) (Hn : e ∉ lru_ (pools s)).
Context (Hsm : csum (heap s) (e :: lru_ (pools s)) < 2 ^ 64).

(** The sizes involved. *)
Lemma insert_sums :
  charge (heap s) e = total_charge h /\ 0 <= total_charge h /\ 0 <= csum (heap s) B /\ 0 <= csum (heap s) L /\ 0 <= csum (heap s) H /\
  total_charge h + csum (heap s) B + csum (heap s) L + csum (heap s) H < 2 ^ 64.
Proof.
  pose proof (charge_lookup _ _ _ He). destruct Hseg as [[Hl _ _ _ _ _ _ _] _]. rewrite Hl in Hsm. simpl in Hsm. rewrite !csum_app in Hsm.
  pose proof (Hc e h He). pose proof (csum_nonneg (heap s) B Hc). pose proof (csum_nonneg (heap s) L Hc). pose proof (csum_nonneg (heap s) H Hc). lia.
Qed.

Lemma insert_not_in : e ∉ B /\ e ∉ L /\ e ∉ H.
Proof. destruct Hseg as [[Hl _ _ _ _ _ _ _] _]. rewrite Hl in Hn. set_solver. Qed.

Lemma insert_high_seg :
  seg (mkPools (lru_ (pools s) ++ [e]) (lru_low_pri_ (pools s)) (lru_bottom_pri_ (pools s))
         (wadd 64 (high_pri_pool_usage_ (pools s)) (total_charge h)) (low_pri_pool_usage_ (pools s)) (lru_usage_ (pools s)))
      (<[e := SetPools true false h]> (heap s)) B L (H ++ [e]).
Proof.
  destruct insert_sums as (Hce & H0 & HB0 & HL0 & HH0 & Hlt). destruct insert_not_in as (HnB & HnL & HnH).
  destruct Hseg as [[Hl Hnd Hbot HB HL HH Hhi Hlo] Hlow].
  assert (forall X, csum (<[e := SetPools true false h]> (heap s)) X = csum (heap s) X) as Hsum by (intros X; by apply flags_only_csum, flags_only_insert).
  split; [split|]; simpl; try done.
  - by rewrite Hl, <- !app_assoc.
  - rewrite !app_assoc. rewrite <- !app_assoc, app_assoc, app_assoc. apply NoDup_app. rewrite <- !app_assoc. split_and!; [done| |apply NoDup_singleton]. set_solver.
  - by apply flags_insert_out.
  - by apply flags_insert_out.
  - apply Forall_app. split; [by apply flags_insert_out|]. constructor; [|done]. eexists. rewrite lookup_insert_eq. done.
  - rewrite Hsum, csum_app. simpl. unfold wadd. rewrite wrap_id by (split; lia). lia.
  - by rewrite Hsum.
Qed.

Lemma insert_low_seg0 :
  seg0 (mkPools (insert_after (lru_low_pri_ (pools s)) e (lru_ (pools s))) (lru_low_pri_ (pools s)) (lru_bottom_pri_ (pools s))
          (high_pri_pool_usage_ (pools s)) (wadd 64 (low_pri_pool_usage_ (pools s)) (total_charge h)) (lru_usage_ (pools s)))
       (<[e := SetPools false true h]> (heap s)) B (L ++ [e]) H /\
  insert_after (lru_low_pri_ (pools s)) e (lru_ (pools s)) = (B ++ L) ++ e :: H.
Proof.
  destruct insert_sums as (Hce & H0 & HB0 & HL0 & HH0 & Hlt). destruct insert_not_in as (HnB & HnL & HnH).
  destruct Hseg as [[Hl Hnd Hbot HB HL HH Hhi Hlo] Hlow].
  assert (forall X, csum (<[e := SetPools false true h]> (heap s)) X = csum (heap s) X) as Hsum by (intros X; by apply flags_only_csum, flags_only_insert).
  assert (insert_after (lru_low_pri_ (pools s)) e (lru_ (pools s)) = (B ++ L) ++ e :: H) as Hins.
  { rewrite Hlow, Hl, app_assoc. apply insert_after_split. by rewrite <- app_assoc. }
  split; [|done]. rewrite Hins. split; simpl; try done.
  - by rewrite <- !app_assoc.
  - rewrite <- app_assoc. simpl. rewrite app_assoc, <- Permutation_middle, <- app_assoc. apply NoDup_cons. split; [set_solver|done].
  - by apply flags_insert_out.
  - apply Forall_app. split; [by apply flags_insert_out|]. constructor; [|done]. eexists. rewrite lookup_insert_eq. done.
  - by apply flags_insert_out.
  - by rewrite Hsum.
  - rewrite Hsum, csum_app. simpl. unfold wadd. rewrite wrap_id by (split; lia). lia.
Qed.

Lemma insert_bottom_seg :
  seg (mkPools (insert_after (lru_bottom_pri_ (pools s)) e (lru_ (pools s)))
         (if bool_decide (lru_bottom_pri_ (pools s) = lru_low_pri_ (pools s)) then Some e else lru_low_pri_ (pools s)) (Some e)
         (high_pri_pool_usage_ (pools s)) (low_pri_pool_usage_ (pools s)) (lru_usage_ (pools s)))
      (<[e := SetPools false false h]> (heap s)) (B ++ [e]) L H /\
  insert_after (lru_bottom_pri_ (pools s)) e (lru_ (pools s)) = B ++ e :: L ++ H.
Proof.
  destruct insert_not_in as (HnB & HnL & HnH). destruct Hseg as [[Hl Hnd Hbot HB HL HH Hhi Hlo] Hlow].
  assert (forall X, csum (<[e := SetPools false false h]> (heap s)) X = csum (heap s) X) as Hsum by (intros X; by apply flags_only_csum, flags_only_insert).
  assert (insert_after (lru_bottom_pri_ (pools s)) e (lru_ (pools s)) = B ++ e :: L ++ H) as Hins by (rewrite Hbot, Hl; by apply insert_after_split).
  split; [|done]. rewrite Hins. split; [split|]; simpl; try done.
  - by rewrite <- !app_assoc.
  - rewrite <- app_assoc. simpl. rewrite <- Permutation_middle. apply NoDup_cons. split; [set_solver|done].
  - by rewrite last_snoc.
  - apply Forall_app. split; [by apply flags_insert_out|]. constructor; [|done]. eexists. rewrite lookup_insert_eq. done.
  - by apply flags_insert_out.
  - by apply flags_insert_out.
  - by rewrite Hsum.
  - by rewrite Hsum.
  - rewrite Hbot, Hlow. destruct L as [|x L'] using rev_ind.
    + rewrite !app_nil_r, bool_decide_true by done. by rewrite last_snoc.
    + rewrite !app_assoc, !last_snoc. rewrite bool_decide_false; [done|]. intros HB'. apply last_Some_elem_of in HB'.
      rewrite app_assoc in Hnd. apply NoDup_app in Hnd as (Hnd & _ & _). apply NoDup_app in Hnd as (_ & Hnd & _). apply (Hnd x HB'). set_solver.
Qed.
End insert.

(** [LRU_Insert] puts an entry on the list. *)
Lemma LRU_Insert_ok s e h B L H :
  seg (pools s) (heap s) B L H -> lru_usage_ (pools s) = csum (heap s) (lru_ (pools s)) -> charges_ok (heap s) ->
  heap s !! e = Some h -> e ∉ lru_ (pools s) -> csum (heap s) (e :: lru_ (pools s)) < 2 ^ 64 ->
  cap_ok (high_pri_pool_capacity_ (limits s)) -> cap_ok (low_pri_pool_capacity_ (limits s)) -> calm (limits s) (pools s) ->
  exists p' m' B' L' H', LRU_Insert e s = Ok (tt, set_pools p' (set_heap m' s)) /\ seg p' m' B' L' H' /\
    flags_only (heap s) m' /\ lru_ p' ≡ₚ e :: lru_ (pools s) /\ lru_usage_ p' = csum m' (lru_ p') /\ calm (limits s) p'.
Proof.
  intros Hseg Husage Hc He Hn Hsm Hch Hcl Hcalm. unfold LRU_Insert. rewrite (run_deref e h) by done. rewrite !run_gets.
  rewrite run_assert by (by rewrite bool_decide_false).
  match goal with |- context [bind ?m _ s] => assert (exists p1 m1 B1 L1 H1, m s = Ok (tt, set_pools p1 (set_heap m1 s)) /\ seg p1 m1 B1 L1 H1 /\
    flags_only (heap s) m1 /\ lru_ p1 ≡ₚ e :: lru_ (pools s) /\ lru_usage_ p1 = lru_usage_ (pools s) /\ calm (limits s) p1) as Hpart end.
  2: { destruct Hpart as (p1 & m1 & B1 & L1 & H1 & Hrun & Hseg1 & Hfo & Hperm & Hlu & Hcalm1). rewrite (run_bind _ _ _ _ _ Hrun).
    eexists _, m1, B1, L1, H1. split_and!; [reflexivity| |done|done| |done].
    - destruct Hseg1 as [[? ? ? ? ? ? ? ?] ?]. split; [split|]; done.
    - cbn [lru_usage_ lru_ set_pools pools]. rewrite Hlu, Husage. rewrite (csum_perm _ _ _ Hperm), (flags_only_csum (heap s) m1) by done.
      simpl in *. rewrite (charge_lookup _ _ _ He) in *. pose proof (csum_nonneg (heap s) (lru_ (pools s)) Hc). pose proof (Hc e h He).
      unfold wadd. rewrite wrap_id by (split; lia). lia. }
  assert (forall a b, flags_only (heap s) (<[e := SetPools a b h]> (heap s))) as Hfi by (intros a b; by apply flags_only_insert).
  destruct (positive (high_pri_pool_ratio_ (limits s)) && (is_high_pri h || has_hit h)).
  - rewrite (run_update e _ h), run_modify by done.
    pose proof (insert_high_seg s e h B L H Hseg Hc He Hn Hsm) as Hs1.
    match goal with |- context [MaintainPoolSize ?t] => destruct (MaintainPoolSize_ok t B L (H ++ [e]) Hs1) as (p2 & m2 & B2 & L2 & H2 & Hrun & Hs2 & Hf2 & Hl2 & Hu2 & Ho2) end.
    + apply (flags_only_charges (heap s)); [apply Hfi|done].
    + cbn [heap set_pools set_heap]. rewrite (flags_only_csum (heap s)) by apply Hfi. destruct (insert_sums s e h B L H Hseg Hc He Hsm) as (Hce & Hrest). rewrite !csum_app. simpl. lia.
    + exact Hch.
    + exact Hcl.
    + exists p2, m2, B2, L2, H2. split_and!; [exact Hrun|done|eapply flags_only_trans; [apply Hfi|exact Hf2]| |by rewrite Hu2|by right].
      rewrite Hl2. simpl. by rewrite Permutation_app_comm.
  - destruct (positive (low_pri_pool_ratio_ (limits s)) && (is_high_pri h || is_low_pri h || has_hit h)) eqn:Elow.
    + apply andb_prop in Elow as [Elow _]. destruct Hcalm as [Hcalm|Hcalm]; [congruence|].
      rewrite (run_update e _ h), run_modify by done.
      destruct (insert_low_seg0 s e h B L H Hseg Hc He Hn Hsm) as [Hs1 Hins]. unfold MaintainPoolSize. rewrite bind_assoc, run_gets.
      rewrite bind_assoc. match goal with |- context [bind (overflow_high _) _ ?t] => set (s1 := t) in *; rewrite (run_bind _ _ s1 tt s1 (overflow_high_idle _ s1 Hcalm)) end.
      destruct (overflow_low_ok (S (length (lru_ (pools s1)))) s1 B (L ++ [e]) H Hs1) as (p2 & m2 & B2 & L2 & Hrun & Hs2 & Hcat & Hf2 & Hl2 & Hu2 & Hlp & Hhu).
      * apply (flags_only_charges (heap s)); [apply Hfi|done].
      * exact Hcl.
      * simpl. rewrite Hins, !length_app. simpl. lia.
      * rewrite (run_bind _ _ _ _ _ Hrun). eexists _, m2, B2, L2, H. split_and!; [reflexivity| |eapply flags_only_trans; [apply Hfi|exact Hf2]| | |].
        -- destruct Hs2 as [? ? ? ? ? ? ? ?]. split; [split; done|]. cbn [lru_low_pri_ set_pools pools]. rewrite Hcat, app_assoc. by rewrite last_snoc.
        -- cbn [lru_ set_pools pools]. rewrite Hl2. simpl. rewrite Hins. rewrite <- Permutation_middle. destruct Hseg as [[-> _ _ _ _ _ _ _] _]. by rewrite <- app_assoc.
        -- cbn [lru_usage_ set_pools pools]. by rewrite Hu2.
        -- right. cbn [high_pri_pool_usage_ set_pools pools]. by rewrite Hhu.
    + rewrite (run_update e _ h) by done. destruct (insert_bottom_seg s e h B L H Hseg Hc He Hn Hsm) as [Hs1 Hins].
      do 2 eexists. exists (B ++ [e]), L, H. split_and!; [reflexivity|exact Hs1|apply Hfi| |done|done].
      simpl. rewrite Hins. rewrite <- Permutation_middle. by destruct Hseg as [[-> _ _ _ _ _ _ _] _].
Qed.
