(* ===== verification/LruInv.v ===== *)
(** * The state of the block cache

    An entry of the heap is on the LRU list, pinned by a reference, in limbo
    (neither, while an operation is under way), dead (about to be freed) or
    pending (about to be inserted).  [inv] says so, and that the table and the
    usage counters agree with it; the lemmas move entries between the states. *)

From Stdlib Require Import SpecFloat.
From S2P Require Import Prelude Words BloomFilter LruTable LruCache LruList.

Definition id_of_handle (h : LRUHandle) : Z * list Z := (h_hash h, h_key h).

(** A number that is not negative (or not a number). *)
Definition nonneg (x : spec_float) : Prop :=
  match x with S754_zero _ | S754_infinity false | S754_nan | S754_finite false _ _ => True | _ => False end.

(** Limits, pools, table, usage, heap and next pointer; pinned entries [P],
    entries in limbo [Q], dead entries [X], pending entries [Y], and the map [m]
    of the entries in the cache. *)
Record inv (l : Limits) (p : Pools) (t : LRUHandleTable) (u : Z) (hp : gmap Z LRUHandle) (n : Z)
    (P Q X Y : list Z) (m : gmap (Z * list Z) Z) : Prop := {
  i_seg : exists B L H, seg p hp B L H;
  i_lru_usage : lru_usage_ p = csum hp (lru_ p);
  i_nodup : NoDup (lru_ p ++ P ++ Q ++ X ++ Y);
  i_dom : forall e, is_Some (hp !! e) <-> e ∈ lru_ p ++ P ++ Q ++ X ++ Y;
  i_lru : forall e h, e ∈ lru_ p -> hp !! e = Some h -> in_cache h = true /\ refs h = 0;
  i_pin : forall e h, e ∈ P -> hp !! e = Some h -> 0 < refs h;
  i_dead : forall e h, e ∈ X -> hp !! e = Some h -> refs h = 0;
  i_wf : forall e h, hp !! e = Some h -> 0 <= total_charge h /\ word 32 (h_hash h) /\ e < n;
  i_table : table_ok t m;
  i_map : forall i e, m !! i = Some e <-> e ∈ lru_ p ++ P ++ Q /\ exists h, hp !! e = Some h /\ in_cache h = true /\ id_of_handle h = i;
  i_usage : u = csum hp (lru_ p ++ P ++ Q);
  i_bound : u < 2 ^ 64;
  i_full : lru_ p = [] \/ u <= capacity_ l;
  i_high : cap_ok (high_pri_pool_capacity_ l);
  i_low : cap_ok (low_pri_pool_capacity_ l);
  i_calm : positive (low_pri_pool_ratio_ l) = false /\ nonneg (high_pri_pool_ratio_ l) /\ nonneg (low_pri_pool_ratio_ l) /\ 0 <= capacity_ l;
}.

(** Between operations nothing is in limbo, dead or pending. *)
Definition Inv (s : Shard) (P : list Z) (m : gmap (Z * list Z) Z) : Prop :=
  inv (limits s) (pools s) (table_ s) (usage_ s) (heap s) (next_ptr s) P [] [] [] m.

Lemma inv_charges l p t u hp n P Q X Y m : inv l p t u hp n P Q X Y m -> charges_ok hp.
Proof. intros I e h H. apply (i_wf _ _ _ _ _ _ _ _ _ _ _ I e h H). Qed.

Lemma inv_in l p t u hp n P Q X Y m e : inv l p t u hp n P Q X Y m -> e ∈ lru_ p ++ P ++ Q ++ X ++ Y -> exists h, hp !! e = Some h.
Proof. intros I He. apply (i_dom _ _ _ _ _ _ _ _ _ _ _ I) in He as [h Hh]. eauto. Qed.

(** A change of one handle that keeps its charge. *)
Lemma csum_update m e h h' l : m !! e = Some h -> total_charge h' = total_charge h -> csum (<[e := h']> m) l = csum m l.
Proof.
  intros He Hc. apply csum_ext. intros x _. unfold charge. destruct (decide (x = e)) as [->|Hne].
  - by rewrite lookup_insert_eq, He.
  - by rewrite lookup_insert_ne.
Qed.

Lemma csum_out m e h l : e ∉ l -> csum (<[e := h]> m) l = csum m l.
Proof. intros Hn. apply csum_ext. intros x Hx. unfold charge. rewrite lookup_insert_ne; [done|]. by intros ->. Qed.

Lemma csum_delete m e l : e ∉ l -> csum (delete e m) l = csum m l.
Proof. intros Hn. apply csum_ext. intros x Hx. unfold charge. rewrite lookup_delete_ne; [done|]. by intros ->. Qed.

(** The pools do not depend on handles that are not on the list. *)
Lemma seg_heap p m m' B L H : seg p m B L H -> (forall e, e ∈ lru_ p -> m' !! e = m !! e) -> seg p m' B L H.
Proof.
  intros [[Hl Hnd Hbot HB HL HH Hhi Hlo] Hlow] Heq. rewrite Hl in Heq.
  assert (forall X, (forall e, e ∈ X -> e ∈ B ++ L ++ H) -> csum m' X = csum m X) as Hsum.
  { intros X HX. apply csum_ext. intros e He. unfold charge. by rewrite Heq by by apply HX. }
  split; [split|]; try done.
  - apply (Forall_flag_flags_only m); [done|]. intros e He. apply Heq. set_solver.
  - apply (Forall_flag_flags_only m); [done|]. intros e He. apply Heq. set_solver.
  - apply (Forall_flag_flags_only m); [done|]. intros e He. apply Heq. set_solver.
  - rewrite Hsum; [done|]. set_solver.
  - rewrite Hsum; [done|]. set_solver.
Qed.

(** A change of one handle. *)
Lemma lookup_update (m : gmap Z LRUHandle) e h x hx : <[e := h]> m !! x = Some hx -> (x = e /\ hx = h) \/ (x <> e /\ m !! x = Some hx).
Proof. intros H. destruct (decide (x = e)) as [->|Hne]; [rewrite lookup_insert_eq in H; by simplify_eq; left|right]. by rewrite lookup_insert_ne in H. Qed.

Lemma dom_update (m : gmap Z LRUHandle) e h h' x : m !! e = Some h -> is_Some (<[e := h']> m !! x) <-> is_Some (m !! x).
Proof. intros H. destruct (decide (x = e)) as [->|Hne]; [rewrite lookup_insert_eq, H; split; eauto|by rewrite lookup_insert_ne]. Qed.

(** ** Moves *)

Section moves.
Context (l : Limits) (p : Pools) (t : LRUHandleTable) (u : Z) (hp : gmap Z LRUHandle) (n : Z).
Context (P Q X Y : list Z) (m : gmap (Z * list Z) Z).
Context (I : inv l p t u hp n P Q X Y m).

(** Entries change between list, pinned and limbo; pool flags may change. *)
Lemma inv_move p' hp' P' Q' :
  (exists B L H, seg p' hp' B L H) -> lru_usage_ p' = csum hp' (lru_ p') -> flags_only hp hp' ->
  lru_ p' ++ P' ++ Q' ≡ₚ lru_ p ++ P ++ Q ->
  (forall e h, e ∈ lru_ p' -> hp !! e = Some h -> in_cache h = true /\ refs h = 0) ->
  (forall e h, e ∈ P' -> hp !! e = Some h -> 0 < refs h) ->
  (lru_ p' = [] \/ u <= capacity_ l) ->
  inv l p' t u hp' n P' Q' X Y m.
Proof.
  intros Hseg Hlu Hf Hperm Hlru Hpin Hfull.
  assert (lru_ p' ++ P' ++ Q' ++ X ++ Y ≡ₚ lru_ p ++ P ++ Q ++ X ++ Y) as Hall.
  { rewrite (app_assoc P'), (app_assoc (lru_ p')), Hperm. by rewrite <- !app_assoc. }
  assert (forall e h', hp' !! e = Some h' -> exists h, hp !! e = Some h /\ in_cache h' = in_cache h /\ refs h' = refs h /\
    total_charge h' = total_charge h /\ h_hash h' = h_hash h /\ id_of_handle h' = id_of_handle h) as Hback.
  { intros e h' He. destruct (flags_only_lookup _ _ _ _ Hf He) as (h & Hh & a & b & ->). by exists h. }
  destruct I as [_ _ Ind Idom _ _ Idead Iwf It Imap Iu Ib _ Ih Il Ic]. split; try done.
  - by rewrite Hall.
  - intros e. rewrite Hall, <- Idom. specialize (Hf e). destruct (hp !! e), (hp' !! e); try done; split; eauto.
  - intros e h' He Hh'. destruct (Hback e h' Hh') as (h & Hh & -> & -> & _). by apply (Hlru e).
  - intros e h' He Hh'. destruct (Hback e h' Hh') as (h & Hh & _ & -> & _). by apply (Hpin e).
  - intros e h' He Hh'. destruct (Hback e h' Hh') as (h & Hh & _ & -> & _). by apply (Idead e).
  - intros e h' Hh'. destruct (Hback e h' Hh') as (h & Hh & _ & _ & -> & -> & _). by apply (Iwf e).
  - intros i e. rewrite Imap, Hperm. split; intros (Hin & h & Hh & Hcache & Hid); (split; [done|]).
    + destruct (flags_only_lookup_1 _ _ _ _ Hf Hh) as (a & b & Hh'). by exists (SetPools a b h).
    + destruct (Hback e h Hh) as (h0 & Hh0 & Hc & _ & _ & _ & Hi). exists h0. by rewrite <- Hc, <- Hi.
  - by rewrite (flags_only_csum hp hp') by done; rewrite (csum_perm _ _ _ Hperm).
Qed.

(** A handle that is pinned, in limbo or dead changes its references or hits. *)
Lemma inv_update e h h' :
  hp !! e = Some h -> e ∉ lru_ p -> e ∉ Y ->
  total_charge h' = total_charge h -> h_hash h' = h_hash h -> id_of_handle h' = id_of_handle h -> in_cache h' = in_cache h ->
  (e ∈ P -> 0 < refs h') -> (e ∈ X -> refs h' = 0) ->
  inv l p t u (<[e := h']> hp) n P Q X Y m.
Proof.
  intros He Hnl HnY Hc Hh Hid Hcache HrP HrX. destruct I as [(B & L & H & Hseg) Ilu Ind Idom Ilru Ipin Idead Iwf It Imap Iu Ib Ifull Ih Il Ic]. split; try done.
  - exists B, L, H. apply (seg_heap p hp); [done|]. intros x Hx. rewrite lookup_insert_ne; [done|]. by intros ->.
  - by rewrite (csum_update hp e h).
  - intros x. rewrite (dom_update hp e h) by done. apply Idom.
  - intros x hx Hx Hhx. apply lookup_update in Hhx as [[-> ->]|[Hne Hhx]]; [done|by apply (Ilru x)].
  - intros x hx Hx Hhx. apply lookup_update in Hhx as [[-> ->]|[Hne Hhx]]; [by apply HrP|by apply (Ipin x)].
  - intros x hx Hx Hhx. apply lookup_update in Hhx as [[-> ->]|[Hne Hhx]]; [by apply HrX|by apply (Idead x)].
  - intros x hx Hhx. apply lookup_update in Hhx as [[-> ->]|[Hne Hhx]]; [rewrite Hc, Hh; by apply (Iwf e)|by apply (Iwf x)].
  - intros i x. rewrite Imap. split; intros (Hin & hx & Hhx & Hcx & Hix); (split; [done|]).
    + destruct (decide (x = e)) as [->|Hne]; [|exists hx; by rewrite lookup_insert_ne]. rewrite He in Hhx. injection Hhx as <-.
      exists h'. rewrite lookup_insert_eq, Hcache, Hid. done.
    + apply lookup_update in Hhx as [[-> ->]|[Hne Hhx]]; [|by exists hx]. exists h. by rewrite <- Hcache, <- Hid.
  - by rewrite (csum_update hp e h).
Qed.

(** An entry that is not on the list leaves the cache. *)
Lemma inv_uncache e h t' :
  hp !! e = Some h -> e ∈ P ++ Q -> m !! id_of_handle h = Some e -> table_ok t' (delete (id_of_handle h) m) ->
  inv l p t' u (<[e := SetInCache false h]> hp) n P Q X Y (delete (id_of_handle h) m).
Proof.
  intros He Hin Hm Ht. destruct I as [(B & L & H & Hseg) Ilu Ind Idom Ilru Ipin Idead Iwf It Imap Iu Ib Ifull Ih Il Ic].
  assert (e ∉ lru_ p) as Hnl by (apply NoDup_app in Ind as (_ & Hd & _); intros Hx; apply (Hd e Hx); set_solver).
  assert (e ∉ X) as HnX by (rewrite !app_assoc in Ind; apply NoDup_app in Ind as (Hd & _ & _); apply NoDup_app in Hd as (_ & Hd & _); apply Hd; set_solver).
  split; try done.
  - exists B, L, H. apply (seg_heap p hp); [done|]. intros x Hx. rewrite lookup_insert_ne; [done|]. by intros ->.
  - by rewrite (csum_update hp e h).
  - intros x. rewrite (dom_update hp e h) by done. apply Idom.
  - intros x hx Hx Hhx. apply lookup_update in Hhx as [[-> ->]|[Hne Hhx]]; [done|by apply (Ilru x)].
  - intros x hx Hx Hhx. apply lookup_update in Hhx as [[-> ->]|[Hne Hhx]]; [by apply (Ipin e h)|by apply (Ipin x)].
  - intros x hx Hx Hhx. apply lookup_update in Hhx as [[-> ->]|[Hne Hhx]]; [done|by apply (Idead x)].
  - intros x hx Hhx. apply lookup_update in Hhx as [[-> ->]|[Hne Hhx]]; [by apply (Iwf e h)|by apply (Iwf x)].
  - intros i x. rewrite lookup_delete_Some. split.
    + intros [Hi (Hx & hx & Hhx & Hcx & Hix)%Imap]. split; [done|]. exists hx. rewrite lookup_insert_ne; [done|]. intros ->. rewrite He in Hhx. congruence.
    + intros (Hx & hx & Hhx & Hcx & Hix). apply lookup_update in Hhx as [[-> ->]|[Hne Hhx]]; [done|].
      assert (m !! i = Some x) as Hmx by (apply Imap; eauto). split; [|done]. intros <-. congruence.
  - by rewrite (csum_update hp e h).
Qed.
End moves.

Section more_moves.
Context (l : Limits) (p : Pools) (t : LRUHandleTable) (u : Z) (hp : gmap Z LRUHandle) (n : Z).
Context (P X : list Z) (m : gmap (Z * list Z) Z).

(** An entry in limbo that is out of the cache is dead; its charge goes. *)
Lemma inv_drop e h Y :
  inv l p t u hp n P [e] X Y m -> hp !! e = Some h -> in_cache h = false -> refs h = 0 ->
  inv l p t (u - total_charge h) hp n P [] (X ++ [e]) Y m /\ total_charge h <= u.
Proof.
  intros I He Hc Hr. pose proof (inv_charges _ _ _ _ _ _ _ _ _ _ _ I) as Hch.
  destruct I as [Iseg Ilu Ind Idom Ilru Ipin Idead Iwf It Imap Iu Ib Ifull Ih Il Ic]. pose proof (Hch e h He) as H0.
  assert (u = csum hp (lru_ p ++ P) + total_charge h) as Hu.
  { rewrite Iu, app_assoc, csum_app. simpl. rewrite (charge_lookup _ _ _ He). lia. }
  assert (lru_ p ++ P ++ [] ++ (X ++ [e]) ++ Y ≡ₚ lru_ p ++ P ++ [e] ++ X ++ Y) as Hall.
  { do 2 apply Permutation_app_head. simpl. rewrite (Permutation_app_comm X [e]). done. }
  pose proof (csum_nonneg hp (lru_ p ++ P) Hch). split; [|lia]. split; try done.
  - by rewrite Hall.
  - intros x. by rewrite Hall.
  - intros x hx [Hx|Hx]%elem_of_app Hhx; [by apply (Idead x)|]. apply list_elem_of_singleton in Hx as ->. by simplify_eq.
  - intros i x. rewrite Imap, app_nil_r. split; intros (Hx & hx & Hhx & Hcx & Hix); (split; [|by exists hx]); [|set_solver].
    rewrite app_assoc in Hx. apply elem_of_app in Hx as [Hx|Hx]; [done|]. apply list_elem_of_singleton in Hx as ->. congruence.
  - rewrite app_nil_r. lia.
  - lia.
  - destruct Ifull as [|]; [by left|right; lia].
Qed.

(** A pending entry enters the cache; an entry with its identity has left. *)
Lemma inv_attach e h t' :
  inv l p t u hp n P [] X [e] m -> hp !! e = Some h -> in_cache h = true -> m !! id_of_handle h = None ->
  table_ok t' (<[id_of_handle h := e]> m) -> u + total_charge h < 2 ^ 64 -> (lru_ p = [] \/ u + total_charge h <= capacity_ l) ->
  inv l p t' (u + total_charge h) hp n P [e] X [] (<[id_of_handle h := e]> m).
Proof.
  intros I He Hc Hm Ht Hb Hf. destruct I as [Iseg Ilu Ind Idom Ilru Ipin Idead Iwf It Imap Iu Ib Ifull Ih Il Ic].
  assert (lru_ p ++ P ++ [e] ++ X ++ [] ≡ₚ lru_ p ++ P ++ [] ++ X ++ [e]) as Hall.
  { do 2 apply Permutation_app_head. simpl. rewrite app_nil_r, (Permutation_app_comm X [e]). done. }
  split; try done.
  - by rewrite Hall.
  - intros x. by rewrite Hall.
  - intros i x. destruct (decide (i = id_of_handle h)) as [->|Hne].
    + rewrite lookup_insert_eq. split.
      * intros [= <-]. split; [set_solver|]. by exists h.
      * intros (Hx & hx & Hhx & Hcx & Hix). f_equal. destruct (decide (x = e)) as [|Hxe]; [done|]. exfalso.
        assert (m !! id_of_handle h = Some x) as Hmx; [|congruence]. apply Imap. split; [|by exists hx]. rewrite app_nil_r. rewrite !elem_of_app, list_elem_of_singleton in *. tauto.
    + rewrite lookup_insert_ne by done. rewrite Imap, app_nil_r. split; intros (Hx & hx & Hhx & Hcx & Hix); (split; [|by exists hx]); [set_solver|].
      rewrite app_assoc in Hx. apply elem_of_app in Hx as [Hx|Hx]; [done|]. apply list_elem_of_singleton in Hx as ->. exfalso. apply Hne. congruence.
  - rewrite Iu, app_nil_r, (app_assoc (lru_ p)), (csum_app hp (lru_ p ++ P)). simpl. rewrite (charge_lookup _ _ _ He). lia.
Qed.

(** A dead entry is freed. *)
Lemma inv_free e Y :
  inv l p t u hp n P [] (e :: X) Y m -> inv l p t u (delete e hp) n P [] X Y m.
Proof.
  intros I. destruct I as [(B & L & H & Hseg) Ilu Ind Idom Ilru Ipin Idead Iwf It Imap Iu Ib Ifull Ih Il Ic].
  assert (lru_ p ++ P ++ [] ++ (e :: X) ++ Y ≡ₚ e :: lru_ p ++ P ++ [] ++ X ++ Y) as Hall.
  { simpl. rewrite !app_assoc, <- !app_assoc. rewrite <- Permutation_middle. rewrite <- Permutation_middle. done. }
  assert (forall x hx, delete e hp !! x = Some hx -> x <> e /\ hp !! x = Some hx) as Hdel.
  { intros x hx Hx. apply lookup_delete_Some in Hx as [Hne Hx]. done. }
  rewrite Hall in Ind. apply NoDup_cons in Ind as [Hne Ind]. split; try done.
  - exists B, L, H. apply (seg_heap p hp); [done|]. intros x Hx. rewrite lookup_delete_ne; [done|]. intros ->. set_solver.
  - rewrite csum_delete; [done|]. set_solver.
  - intros x. destruct (decide (x = e)) as [->|Hxe].
    + rewrite lookup_delete_eq. split; [by intros [? ?]|]. intros Hx. done.
    + rewrite lookup_delete_ne by done. rewrite Idom, Hall, elem_of_cons. split; [intros [?|?]; done|by right].
  - intros x hx Hx [_ Hhx]%Hdel. by apply (Ilru x).
  - intros x hx Hx [_ Hhx]%Hdel. by apply (Ipin x).
  - intros x hx Hx [_ Hhx]%Hdel. apply (Idead x); [by right|done].
  - intros x hx [_ Hhx]%Hdel. by apply (Iwf x).
  - intros i x. rewrite Imap. split; intros (Hx & hx & Hhx & Hcx & Hix); (split; [done|]); exists hx.
    + rewrite lookup_delete_ne; [done|]. intros ->. set_solver.
    + by apply Hdel in Hhx as [_ ?].
  - rewrite csum_delete; [done|]. set_solver.
Qed.

(** A new handle is pending. *)
Lemma inv_create h :
  inv l p t u hp n P [] X [] m -> 0 <= total_charge h -> word 32 (h_hash h) ->
  inv l p t u (<[n := h]> hp) (n + 1) P [] X [n] m.
Proof.
  intros I H0 Hw. destruct I as [(B & L & H & Hseg) Ilu Ind Idom Ilru Ipin Idead Iwf It Imap Iu Ib Ifull Ih Il Ic].
  assert (hp !! n = None) as Hnone by (destruct (hp !! n) as [h'|] eqn:E; [apply Iwf in E; lia|done]).
  assert (n ∉ lru_ p ++ P ++ [] ++ X ++ []) as Hnew by (rewrite <- Idom, Hnone; by intros [? ?]).
  assert (lru_ p ++ P ++ [] ++ X ++ [n] ≡ₚ n :: lru_ p ++ P ++ [] ++ X ++ []) as Hall.
  { simpl. rewrite app_nil_r, !app_assoc. by rewrite Permutation_app_comm. }
  split; try done.
  - exists B, L, H. apply (seg_heap p hp); [done|]. intros x Hx. rewrite lookup_insert_ne; [done|]. intros <-. set_solver.
  - rewrite csum_out; [done|]. set_solver.
  - rewrite Hall. by apply NoDup_cons.
  - intros x. rewrite Hall, elem_of_cons, <- Idom. destruct (decide (x = n)) as [->|Hne]; [rewrite lookup_insert_eq; split; [by left|eauto]|].
    rewrite lookup_insert_ne by done. split; [by right|intros [?|?]; done].
  - intros x hx Hx Hhx. apply lookup_update in Hhx as [[-> ->]|[Hne Hhx]]; [set_solver|by apply (Ilru x)].
  - intros x hx Hx Hhx. apply lookup_update in Hhx as [[-> ->]|[Hne Hhx]]; [set_solver|by apply (Ipin x)].
  - intros x hx Hx Hhx. apply lookup_update in Hhx as [[-> ->]|[Hne Hhx]]; [set_solver|by apply (Idead x)].
  - intros x hx Hhx. apply lookup_update in Hhx as [[-> ->]|[Hne Hhx]]; [split_and!; [done|done|lia]|]. apply Iwf in Hhx as (? & ? & ?). split_and!; [done|done|lia].
  - intros i x. rewrite Imap. split; intros (Hx & hx & Hhx & Hcx & Hix); (split; [done|]); exists hx.
    + rewrite lookup_insert_ne; [done|]. intros <-. congruence.
    + apply lookup_update in Hhx as [[-> ->]|[Hne Hhx]]; [set_solver|done].
  - rewrite csum_out; [done|]. set_solver.
Qed.

(** A pending handle may change. *)
Lemma inv_pending e h' :
  inv l p t u hp n P [] X [e] m -> 0 <= total_charge h' -> word 32 (h_hash h') -> inv l p t u (<[e := h']> hp) n P [] X [e] m.
Proof.
  intros I H0 Hw. destruct I as [(B & L & H & Hseg) Ilu Ind Idom Ilru Ipin Idead Iwf It Imap Iu Ib Ifull Ih Il Ic].
  assert (exists h, hp !! e = Some h) as [h He] by (apply Idom; set_solver).
  assert (e ∉ lru_ p ++ P ++ [] ++ X) as Hout by (rewrite !app_assoc in Ind; apply NoDup_app in Ind as (_ & Hd & _); intros Hx; apply (Hd e); [by rewrite <- !app_assoc|by left]).
  split; try done.
  - exists B, L, H. apply (seg_heap p hp); [done|]. intros x Hx. rewrite lookup_insert_ne; [done|]. intros <-. set_solver.
  - rewrite csum_out; [done|]. set_solver.
  - intros x. rewrite (dom_update hp e h) by done. apply Idom.
  - intros x hx Hx Hhx. apply lookup_update in Hhx as [[-> ->]|[Hne Hhx]]; [set_solver|by apply (Ilru x)].
  - intros x hx Hx Hhx. apply lookup_update in Hhx as [[-> ->]|[Hne Hhx]]; [set_solver|by apply (Ipin x)].
  - intros x hx Hx Hhx. apply lookup_update in Hhx as [[-> ->]|[Hne Hhx]]; [set_solver|by apply (Idead x)].
  - intros x hx Hhx. apply lookup_update in Hhx as [[-> ->]|[Hne Hhx]]; [split_and!; [done|done|by apply (Iwf e h)]|by apply (Iwf x)].
  - intros i x. rewrite Imap. split; intros (Hx & hx & Hhx & Hcx & Hix); (split; [done|]); exists hx.
    + rewrite lookup_insert_ne; [done|]. intros <-. set_solver.
    + apply lookup_update in Hhx as [[-> ->]|[Hne Hhx]]; [set_solver|done].
  - rewrite csum_out; [done|]. set_solver.
Qed.

(** A pending handle without references is dead. *)
Lemma inv_give_up e h :
  inv l p t u hp n P [] X [e] m -> hp !! e = Some h -> refs h = 0 -> inv l p t u hp n P [] (X ++ [e]) [] m.
Proof.
  intros I He Hr. destruct I as [Iseg Ilu Ind Idom Ilru Ipin Idead Iwf It Imap Iu Ib Ifull Ih Il Ic].
  assert (lru_ p ++ P ++ [] ++ (X ++ [e]) ++ [] = lru_ p ++ P ++ [] ++ X ++ [e]) as Hall by by rewrite app_nil_r.
  split; try done.
  - by rewrite Hall.
  - intros x. by rewrite Hall.
  - intros x hx [Hx|Hx]%elem_of_app Hhx; [by apply (Idead x)|]. apply list_elem_of_singleton in Hx as ->. by simplify_eq.
Qed.

(** A pending handle with a reference becomes pinned, outside the cache. *)
Lemma inv_standalone e h :
  inv l p t u hp n P [] X [e] m -> hp !! e = Some h -> in_cache h = false -> 0 < refs h ->
  u + total_charge h < 2 ^ 64 -> (lru_ p = [] \/ u + total_charge h <= capacity_ l) ->
  inv l p t (u + total_charge h) hp n (P ++ [e]) [] X [] m.
Proof.
  intros I He Hc Hr Hb Hf. destruct I as [Iseg Ilu Ind Idom Ilru Ipin Idead Iwf It Imap Iu Ib Ifull Ih Il Ic].
  assert (lru_ p ++ (P ++ [e]) ++ [] ++ X ++ [] ≡ₚ lru_ p ++ P ++ [] ++ X ++ [e]) as Hall.
  { apply Permutation_app_head. rewrite <- app_assoc. apply Permutation_app_head. simpl. by rewrite app_nil_r, (Permutation_app_comm X [e]). }
  split; try done.
  - by rewrite Hall.
  - intros x. by rewrite Hall.
  - intros x hx [Hx|Hx]%elem_of_app Hhx; [by apply (Ipin x)|]. apply list_elem_of_singleton in Hx as ->. by simplify_eq.
  - intros i x. rewrite Imap, !app_nil_r. split; intros (Hx & hx & Hhx & Hcx & Hix); (split; [|by exists hx]); [set_solver|].
    rewrite app_assoc in Hx. apply elem_of_app in Hx as [Hx|Hx]; [done|]. apply list_elem_of_singleton in Hx as ->. congruence.
  - rewrite Iu, !app_nil_r, (app_assoc (lru_ p)), (csum_app hp (lru_ p ++ P)). simpl. rewrite (charge_lookup _ _ _ He). lia.
Qed.

End more_moves.
