(* ===== verification/LruSpec.v ===== *)
(** * The operations of the block cache

    Every operation of [LruCache] keeps the invariant of [LruInv] and fails no
    assertion; lookups answer as the map of cached entries does; the capacity
    is exceeded by pinned entries only; eviction is in LRU order. *)

From Stdlib Require Import SpecFloat.
From S2P Require Import Prelude Words BloomFilter LruTable LruCache LruList LruInv.

(** The invariant of a state, for limits that need not be those of the state. *)
Definition invl (l : Limits) (s : Shard) (P Q X Y : list Z) (m : gmap (Z * list Z) Z) : Prop :=
  inv l (pools s) (table_ s) (usage_ s) (heap s) (next_ptr s) P Q X Y m.

Definition invs (s : Shard) (P Q X Y : list Z) (m : gmap (Z * list Z) Z) : Prop := invl (limits s) s P Q X Y m.

(** ** Steps *)

Lemma remove_from_table_ok s k h m :
  table_ok (table_ s) m -> word 32 h ->
  exists t', remove_from_table k h s = Ok (m !! (h, k), set_table t' s) /\ table_ok t' (delete (h, k) m).
Proof.
  intros Ht Hw. destruct (table_remove_ok (table_ s) m k h Ht Hw) as (t' & Hr & Ht'). exists t'. split; [|done].
  unfold remove_from_table. rewrite run_gets. rewrite (run_bind (lift _) _ s (m !! (h, k), t') s) by (unfold lift; by rewrite Hr). done.
Qed.

Lemma sub_usage_ok c s : c <= usage_ s -> sub_usage c s = Ok (tt, set_usage (usage_ s - c) s).
Proof. intros H. unfold sub_usage. rewrite run_gets, run_assert by by apply Z.leb_le. done. Qed.

(** [LRU_Remove] puts an entry in limbo. *)
Lemma LRU_Remove_inv l s P X Y m e :
  invl l s P [] X Y m -> e ∈ lru_ (pools s) ->
  exists p', LRU_Remove e s = Ok (tt, set_pools p' s) /\ invl l (set_pools p' s) P [e] X Y m /\ lru_ p' = unlink e (lru_ (pools s)).
Proof.
  intros I He. destruct (inv_in _ _ _ _ _ _ _ _ _ _ _ e I) as [h Hh]; [set_solver|].
  destruct (i_seg _ _ _ _ _ _ _ _ _ _ _ I) as (B & L & H & Hseg).
  destruct (LRU_Remove_ok s e h B L H Hseg (i_lru_usage _ _ _ _ _ _ _ _ _ _ _ I) (inv_charges _ _ _ _ _ _ _ _ _ _ _ I) Hh He)
    as (p' & B' & L' & H' & Hrun & Hseg' & Hperm & Hun & Hlu).
  exists p'. split_and!; [done| |done]. apply (inv_move _ _ _ _ _ _ _ _ _ _ _ I p' (heap s) P [e]); [by exists B', L', H'|done|apply flags_only_refl| | | |].
  - rewrite app_nil_r, Hperm. simpl. rewrite (app_assoc (lru_ p')). by rewrite Permutation_app_comm.
  - intros x hx Hx Hhx. apply (i_lru _ _ _ _ _ _ _ _ _ _ _ I x); [|done]. rewrite Hperm. by right.
  - apply (i_pin _ _ _ _ _ _ _ _ _ _ _ I).
  - destruct (i_full _ _ _ _ _ _ _ _ _ _ _ I) as [Hnil|Hle]; [|by right]. rewrite Hnil in He. by apply elem_of_nil in He.
Qed.

(** It depends on the pools, and on the charge and the pool of the handle. *)
Lemma LRU_Remove_frame s s' e h h' p' :
  pools s' = pools s -> heap s !! e = Some h -> heap s' !! e = Some h' -> total_charge h' = total_charge h ->
  in_high_pri_pool h' = in_high_pri_pool h -> in_low_pri_pool h' = in_low_pri_pool h ->
  LRU_Remove e s = Ok (tt, set_pools p' s) -> LRU_Remove e s' = Ok (tt, set_pools p' s').
Proof.
  intros Hp Hh Hh' Hc Hhi Hlo. unfold LRU_Remove. rewrite (run_deref e h _ s Hh), (run_deref e h' _ s' Hh'). rewrite !run_gets.
  rewrite Hp, Hc, Hhi, Hlo. unfold assert, bind, modify, ret, fail.
  destruct (bool_decide _); [|done]. destruct (_ <=? _); [|done]. destruct (_ || _); [|done].
  destruct (in_high_pri_pool h).
  - destruct (_ <=? _); [|done]. intros [= <-]. done.
  - destruct (in_low_pri_pool h); [destruct (_ <=? _); [|done]|]; intros [= <-]; done.
Qed.

(** [LRU_Insert] takes an entry without references out of limbo. *)
Lemma LRU_Insert_inv s P X Y m e h :
  invs s P [e] X Y m -> heap s !! e = Some h -> in_cache h = true -> refs h = 0 -> usage_ s <= capacity_ (limits s) ->
  exists p' m', LRU_Insert e s = Ok (tt, set_pools p' (set_heap m' s)) /\ invs (set_pools p' (set_heap m' s)) P [] X Y m /\
    flags_only (heap s) m' /\ lru_ p' ≡ₚ e :: lru_ (pools s).
Proof.
  intros I Hh Hc Hr Hu. destruct (i_seg _ _ _ _ _ _ _ _ _ _ _ I) as (B & L & H & Hseg). pose proof (inv_charges _ _ _ _ _ _ _ _ _ _ _ I) as Hch.
  pose proof (i_nodup _ _ _ _ _ _ _ _ _ _ _ I) as Hnd. pose proof (i_bound _ _ _ _ _ _ _ _ _ _ _ I) as Hb.
  assert (lru_ (pools s) ++ P ++ [e] ≡ₚ (e :: lru_ (pools s)) ++ P) as Hperm by (rewrite (app_assoc (lru_ _)), Permutation_app_comm; done).
  destruct (LRU_Insert_ok s e h B L H Hseg (i_lru_usage _ _ _ _ _ _ _ _ _ _ _ I) Hch Hh) as (p' & m' & B' & L' & H' & Hrun & Hseg' & Hf & Hlru & Hlu & _).
  - intros Hin. apply NoDup_app in Hnd as (_ & Hd & _). apply (Hd e Hin). set_solver.
  - pose proof (i_usage _ _ _ _ _ _ _ _ _ _ _ I) as Hus. rewrite (csum_perm _ _ _ Hperm), csum_app in Hus. pose proof (csum_nonneg (heap s) P Hch). lia.
  - apply (i_high _ _ _ _ _ _ _ _ _ _ _ I).
  - apply (i_low _ _ _ _ _ _ _ _ _ _ _ I).
  - left. apply (i_calm _ _ _ _ _ _ _ _ _ _ _ I).
  - exists p', m'. split_and!; [done| |done|done].
    apply (inv_move _ _ _ _ _ _ _ _ _ _ _ I p' m' P []); [by exists B', L', H'|done|done| | |apply (i_pin _ _ _ _ _ _ _ _ _ _ _ I)|by right].
    + rewrite app_nil_r, Hlru, Hperm. done.
    + intros x hx Hx Hhx. rewrite Hlru in Hx. apply elem_of_cons in Hx as [->|Hx]; [by simplify_eq|by apply (i_lru _ _ _ _ _ _ _ _ _ _ _ I x)].
Qed.

(** ** Eviction *)

Lemma in_map l s P Q X Y m e h :
  invl l s P Q X Y m -> e ∈ lru_ (pools s) ++ P ++ Q -> heap s !! e = Some h -> in_cache h = true -> m !! id_of_handle h = Some e.
Proof. intros I He Hh Hc. apply (i_map _ _ _ _ _ _ _ _ _ _ _ I). eauto. Qed.

(** Entry [e], on the list, becomes dead: its pools without it, its table
    without it, its charge gone. *)
Lemma kill l s P X Y m e h p' t' :
  invl l s P [] X Y m -> heap s !! e = Some h -> e ∈ lru_ (pools s) ->
  LRU_Remove e s = Ok (tt, set_pools p' s) -> table_ok t' (delete (id_of_handle h) m) ->
  invl l (mkShard (limits s) p' t' (usage_ s - total_charge h) (<[e := SetInCache false h]> (heap s)) (next_ptr s)) P [] (X ++ [e]) Y
    (delete (id_of_handle h) m) /\ lru_ p' = unlink e (lru_ (pools s)) /\ total_charge h <= usage_ s.
Proof.
  intros I Hh He Hrun Ht. destruct (LRU_Remove_inv l s P X Y m e I He) as (p1 & Hrun1 & I1 & Hun).
  assert (p1 = p') as -> by (rewrite Hrun in Hrun1; by injection Hrun1). destruct (i_lru _ _ _ _ _ _ _ _ _ _ _ I e h He Hh) as [Hc Hr].
  pose proof (inv_uncache _ _ _ _ _ _ _ _ _ _ _ I1 e h t' Hh ltac:(set_solver) ltac:(eapply in_map; [exact I|set_solver|done|done]) Ht) as I2.
  destruct (inv_drop _ _ _ _ _ _ _ _ _ e (SetInCache false h) Y I2) as [I3 Hle]; [by rewrite lookup_insert_eq|done|done|]. done.
Qed.

Lemma evict_oldest_ok l s P X Y m old rest :
  invl l s P [] X Y m -> lru_ (pools s) = old :: rest ->
  exists p' t' h, heap s !! old = Some h /\ let s' := mkShard (limits s) p' t' (usage_ s - total_charge h) (<[old := SetInCache false h]> (heap s)) (next_ptr s) in
    evict_oldest old s = Ok (tt, s') /\ invl l s' P [] (X ++ [old]) Y (delete (id_of_handle h) m) /\ lru_ p' = rest.
Proof.
  intros I Hl. assert (old ∈ lru_ (pools s)) as He by (rewrite Hl; by left).
  destruct (inv_in _ _ _ _ _ _ _ _ _ _ _ old I) as [h Hh]; [set_solver|]. destruct (i_lru _ _ _ _ _ _ _ _ _ _ _ I old h He Hh) as [Hc Hr].
  destruct (LRU_Remove_inv l s P X Y m old I He) as (p' & Hrun & _ & _).
  destruct (remove_from_table_ok (set_pools p' s) (h_key h) (h_hash h) m (i_table _ _ _ _ _ _ _ _ _ _ _ I)) as (t' & Hrem & Ht').
  { apply (i_wf _ _ _ _ _ _ _ _ _ _ _ I old h Hh). }
  destruct (kill l s P X Y m old h p' t' I Hh He Hrun Ht') as (I' & Hun & Hle).
  exists p', t', h. split; [done|]. intros s'. split_and!; [|exact I'|rewrite Hun, Hl; simpl; by rewrite Z.eqb_refl].
  unfold evict_oldest. rewrite (run_deref old h) by done. rewrite run_assert by (unfold HasRefs; by rewrite Hc, Hr).
  rewrite (run_bind _ _ _ _ _ Hrun), (run_bind _ _ _ _ _ Hrem). rewrite (run_update old _ h) by done.
  rewrite sub_usage_ok by done. done.
Qed.

(** Removing one entry from the map of cached entries. *)
Lemma delete_entry l s P Q X Y m e h i x :
  invl l s P Q X Y m -> heap s !! e = Some h -> m !! id_of_handle h = Some e ->
  delete (id_of_handle h) m !! i = Some x <-> m !! i = Some x /\ x <> e.
Proof.
  intros I Hh Hm. rewrite lookup_delete_Some. split.
  - intros [Hne Hx]. split; [done|]. intros ->. apply (i_map _ _ _ _ _ _ _ _ _ _ _ I) in Hx as (_ & h' & Hh' & _ & Hid). simplify_eq.
  - intros [Hx Hne]. split; [|done]. intros <-. congruence.
Qed.

Lemma evict_loop_ok fuel l s P X Y m c del :
  invl l s P [] X Y m -> (length (lru_ (pools s)) < fuel)%nat -> 0 <= c -> usage_ s + c < 2 ^ 64 ->
  exists ev s' m', evict_loop fuel c del s = Ok (del ++ ev, s') /\ invl l s' P [] (X ++ ev) Y m' /\
    lru_ (pools s) = ev ++ lru_ (pools s') /\ limits s' = limits s /\ next_ptr s' = next_ptr s /\
    usage_ s' = usage_ s - csum (heap s) ev /\ (usage_ s' + c <= capacity_ (limits s) \/ lru_ (pools s') = []) /\
    (forall e, e ∉ ev -> heap s' !! e = heap s !! e) /\
    (forall i e, m' !! i = Some e <-> m !! i = Some e /\ e ∉ ev) /\
    (forall ev1 e ev2, ev = ev1 ++ e :: ev2 -> capacity_ (limits s) < usage_ s - csum (heap s) ev1 + c).
Proof.
  revert s X m del. induction fuel as [|fuel IH]; intros s X m del I Hf Hc Hsm; [lia|]. cbn [evict_loop]. rewrite run_gets. cbn [id].
  pose proof (csum_nonneg (heap s) (lru_ (pools s) ++ P ++ []) (inv_charges _ _ _ _ _ _ _ _ _ _ _ I)) as Hu0.
  pose proof (i_usage _ _ _ _ _ _ _ _ _ _ _ I) as Hus. unfold wadd. rewrite wrap_id by (split; lia).
  assert (capacity_ (limits s) < usage_ s + c -> lru_ (pools s) = [] ->
    exists ev s' m', Ok (del, s) = Ok (del ++ ev, s') /\ invl l s' P [] (X ++ ev) Y m' /\
    lru_ (pools s) = ev ++ lru_ (pools s') /\ limits s' = limits s /\ next_ptr s' = next_ptr s /\
    usage_ s' = usage_ s - csum (heap s) ev /\ (usage_ s' + c <= capacity_ (limits s) \/ lru_ (pools s') = []) /\
    (forall e, e ∉ ev -> heap s' !! e = heap s !! e) /\
    (forall i e, m' !! i = Some e <-> m !! i = Some e /\ e ∉ ev) /\
    (forall ev1 e ev2, ev = ev1 ++ e :: ev2 -> capacity_ (limits s) < usage_ s - csum (heap s) ev1 + c)) as Hstop0.
  { intros _ Hnil. exists [], s, m. rewrite !app_nil_r. split_and!; try done; [simpl; lia|by right| |by intros [] ? ? ?].
    intros i e. split; [intros ?; split; [done|]; apply not_elem_of_nil|by intros [? _]]. }
  destruct (Z.ltb_spec (capacity_ (limits s)) (usage_ s + c)) as [Hover|Hfits].
  - destruct (lru_ (pools s)) as [|old rest] eqn:El; [by apply Hstop0|]. clear Hstop0.
    destruct (evict_oldest_ok l s P X Y m old rest I El) as (p1 & t1 & h & Hh & Hrun & I1 & Hl1).
    rewrite (run_bind _ _ _ _ _ Hrun). set (s1 := mkShard _ _ _ _ _ _) in *.
    pose proof (inv_charges _ _ _ _ _ _ _ _ _ _ _ I old h Hh) as Hch.
    destruct (IH s1 (X ++ [old]) (delete (id_of_handle h) m) (del ++ [old])) as (ev & s' & m' & Hrun' & I' & Hl' & Hlim & Hnext & Hus' & Hend & Hheap & Hmap & Hmin).
    + exact I1.
    + cbn [pools s1]. rewrite Hl1. simpl in Hf. lia.
    + done.
    + simpl. lia.
    + assert (old ∉ ev) as Hold.
      { pose proof (i_nodup _ _ _ _ _ _ _ _ _ _ _ I) as Hnd. rewrite El in Hnd. apply NoDup_cons in Hnd as [Hnd _].
        cbn [pools s1] in Hl'. rewrite Hl1 in Hl'. intros Hin. apply Hnd. rewrite Hl', !elem_of_app. tauto. }
      assert (m !! id_of_handle h = Some old) as Hmo.
      { eapply in_map; [exact I|rewrite El; by left|done|]. apply (i_lru _ _ _ _ _ _ _ _ _ _ _ I old h); [rewrite El; by left|done]. }
      assert (forall k, csum (heap s1) k = csum (heap s) k) as Hcs by (intros k; by apply (csum_update (heap s) old h)).
      exists (old :: ev), s', m'. split_and!; try done.
      * by rewrite <- app_assoc in Hrun'.
      * by rewrite <- app_assoc in I'.
      * cbn [pools s1] in Hl'. rewrite Hl1 in Hl'. by rewrite Hl'.
      * rewrite Hus', Hcs. simpl. rewrite (charge_lookup _ _ _ Hh). lia.
      * intros e [Hne He]%not_elem_of_cons. rewrite Hheap by done. simpl. by rewrite lookup_insert_ne.
      * intros i e. rewrite Hmap, (delete_entry l s P [] X Y m old h) by done. rewrite not_elem_of_cons. tauto.
      * intros [|e1 ev1] e ev2 Heq; [simpl; lia|]. injection Heq as <- Heq. specialize (Hmin ev1 e ev2 Heq). rewrite Hcs in Hmin.
        simpl in Hmin |- *. rewrite (charge_lookup _ _ _ Hh). lia.
  - exists [], s, m. rewrite !app_nil_r. split_and!; try done; [simpl; lia|by left| |by intros [] ? ? ?].
    intros i e. split; [intros ?; split; [done|]; apply not_elem_of_nil|by intros [? _]].
Qed.

(** ** Freeing *)

Lemma Free_ok s P X Y m e :
  invs s P [] (e :: X) Y m -> exists h, heap s !! e = Some h /\ refs h = 0 /\ Free e s = Ok (tt, set_heap (delete e (heap s)) s) /\
    free e s = Ok (tt, set_heap (delete e (heap s)) s) /\ invs (set_heap (delete e (heap s)) s) P [] X Y m.
Proof.
  intros I. destruct (inv_in _ _ _ _ _ _ _ _ _ _ _ e I) as [h Hh]; [rewrite !elem_of_app; right; right; right; left; by left|].
  pose proof (i_dead _ _ _ _ _ _ _ _ _ _ _ I e h ltac:(by left) Hh) as Hr.
  assert (free e s = Ok (tt, set_heap (delete e (heap s)) s)) as Hfree by (unfold free; by rewrite Hh).
  exists h. split_and!; [done|done| |done|].
  - unfold Free. rewrite (run_deref e h) by done. rewrite run_assert by (by rewrite Hr). done.
  - apply (inv_free _ _ _ _ _ _ _ _ _ _ _ I).
Qed.

Lemma NotifyEvicted_ok takes es s P X Y m :
  invs s P [] (es ++ X) Y m ->
  exists hp', NotifyEvicted takes es s = Ok (tt, set_heap hp' s) /\ invs (set_heap hp' s) P [] X Y m /\ (forall e, e ∉ es -> hp' !! e = heap s !! e).
Proof.
  revert s. induction es as [|e es IH]; intros s I; cbn [NotifyEvicted]; [exists (heap s); split_and!; [by destruct s|done|done]|].
  destruct (Free_ok s P (es ++ X) Y m e I) as (h & Hh & Hr & HF & Hf & I1). rewrite (run_deref e h) by done.
  destruct (IH _ I1) as (hp' & Hrun & I' & Hheap). exists hp'. split_and!; [|exact I'|].
  - destruct (takes h); [rewrite (run_bind _ _ _ _ _ Hf)|rewrite (run_bind _ _ _ _ _ HF)]; exact Hrun.
  - intros x [Hne Hx]%not_elem_of_cons. rewrite Hheap by done. simpl. by rewrite lookup_delete_ne.
Qed.

Lemma FreeAll_ok es s P X Y m :
  invs s P [] (es ++ X) Y m -> exists hp', FreeAll es s = Ok (tt, set_heap hp' s) /\ invs (set_heap hp' s) P [] X Y m.
Proof.
  revert s. induction es as [|e es IH]; intros s I; cbn [FreeAll]; [exists (heap s); split; [by destruct s|done]|].
  destruct (Free_ok s P (es ++ X) Y m e I) as (h & Hh & Hr & HF & Hf & I1).
  destruct (IH _ I1) as (hp' & Hrun & I'). exists hp'. split; [|exact I']. rewrite (run_bind _ _ _ _ _ HF). exact Hrun.
Qed.

(** ** References *)

(** A pinned entry is not on the list, not dead, and so on. *)
Lemma pinned_only s P Q X Y m e : invs s P Q X Y m -> e ∈ P -> e ∉ lru_ (pools s) /\ e ∉ X /\ e ∉ Y /\ e ∉ Q.
Proof.
  intros I He. pose proof (i_nodup _ _ _ _ _ _ _ _ _ _ _ I) as Hnd. apply NoDup_app in Hnd as (_ & Hd & Hnd). apply NoDup_app in Hnd as (_ & Hd' & _).
  split_and!; [intros Hx; apply (Hd e Hx); rewrite elem_of_app; by left|..]; intros Hx; apply (Hd' e He); rewrite !elem_of_app; tauto.
Qed.

(** An entry of [P] is put in limbo. *)
Lemma unpin s P X Y m e :
  invs s P [] X Y m -> e ∈ P -> exists P', P ≡ₚ e :: P' /\ invs s P' [e] X Y m /\ e ∉ P'.
Proof.
  intros I He. apply list_elem_of_split in He as (P1 & P2 & ->). exists (P1 ++ P2). split; [by rewrite <- Permutation_middle|]. split.
  - apply (inv_move _ _ _ _ _ _ _ _ _ _ _ I (pools s) (heap s) (P1 ++ P2) [e]); [apply (i_seg _ _ _ _ _ _ _ _ _ _ _ I)|apply (i_lru_usage _ _ _ _ _ _ _ _ _ _ _ I)|apply flags_only_refl| | | |apply (i_full _ _ _ _ _ _ _ _ _ _ _ I)].
    + apply Permutation_app_head. rewrite app_nil_r, Permutation_app_comm. simpl. by rewrite Permutation_middle.
    + apply (i_lru _ _ _ _ _ _ _ _ _ _ _ I).
    + intros x hx Hx. apply (i_pin _ _ _ _ _ _ _ _ _ _ _ I). rewrite elem_of_app in *. rewrite elem_of_cons. tauto.
  - pose proof (i_nodup _ _ _ _ _ _ _ _ _ _ _ I) as Hnd. apply NoDup_app in Hnd as (_ & _ & Hnd). apply NoDup_app in Hnd as (Hnd & _ & _).
    apply NoDup_middle in Hnd as (_ & H1 & H2). rewrite elem_of_app. tauto.
Qed.

(** An entry in limbo gets a reference. *)
Lemma pin s P X Y m e h h' :
  invs s P [e] X Y m -> heap s !! e = Some h -> 0 < refs h' ->
  total_charge h' = total_charge h -> h_hash h' = h_hash h -> h_key h' = h_key h -> in_cache h' = in_cache h ->
  invs (set_heap (<[e := h']> (heap s)) s) (e :: P) [] X Y m.
Proof.
  intros I Hh Hr Hc Hw Hk Hcache. pose proof (i_nodup _ _ _ _ _ _ _ _ _ _ _ I) as Hnd.
  assert (e ∉ lru_ (pools s) /\ e ∉ P /\ e ∉ X /\ e ∉ Y) as (Hnl & HnP & HnX & HnY).
  { rewrite (app_assoc (lru_ _)) in Hnd. apply NoDup_middle in Hnd as (_ & H1 & H2). rewrite elem_of_app in H1, H2. tauto. }
  assert (id_of_handle h' = id_of_handle h) as Hid by (unfold id_of_handle; by rewrite Hw, Hk).
  pose proof (inv_update _ _ _ _ _ _ _ _ _ _ _ I e h h' Hh Hnl HnY Hc Hw Hid Hcache ltac:(done) ltac:(done)) as I1.
  apply (inv_move _ _ _ _ _ _ _ _ _ _ _ I1 (pools s) _ (e :: P) []); [apply (i_seg _ _ _ _ _ _ _ _ _ _ _ I1)|apply (i_lru_usage _ _ _ _ _ _ _ _ _ _ _ I1)|apply flags_only_refl| | | |apply (i_full _ _ _ _ _ _ _ _ _ _ _ I)].
  - apply Permutation_app_head. rewrite app_nil_r, (Permutation_app_comm P). done.
  - apply (i_lru _ _ _ _ _ _ _ _ _ _ _ I1).
  - intros x hx [->|Hx]%elem_of_cons Hhx; [rewrite lookup_insert_eq in Hhx; by simplify_eq|by apply (i_pin _ _ _ _ _ _ _ _ _ _ _ I1 x)].
Qed.

Lemma Lookup_ok s P m k hash :
  Inv s P m -> word 32 hash -> (forall e h, m !! (hash, k) = Some e -> heap s !! e = Some h -> refs h + 1 < 2 ^ 32) ->
  exists s' P', Lookup k hash s = Ok (m !! (hash, k), s') /\ Inv s' P' m /\
    match m !! (hash, k) with
    | Some e => e ∈ P' /\ (P' = P \/ P' = e :: P) /\ exists h h', heap s !! e = Some h /\ heap s' !! e = Some h' /\ value h' = value h /\ refs h' = refs h + 1
    | None => s' = s /\ P' = P
    end.
Proof.
  intros I Hw Hroom. unfold Lookup. rewrite run_gets.
  rewrite (run_bind (lift _) _ s (m !! (hash, k)) s) by (unfold lift; by rewrite (table_lookup_ok (table_ s) m k hash (i_table _ _ _ _ _ _ _ _ _ _ _ I) Hw)).
  destruct (m !! (hash, k)) as [e|] eqn:Em; [|by exists s, P]. specialize (Hroom e).
  apply (i_map _ _ _ _ _ _ _ _ _ _ _ I) in Em as (Hin & h & Hh & Hc & Hid). rewrite (run_deref e h) by done. rewrite run_assert by done.
  specialize (Hroom h eq_refl Hh).
  rewrite app_nil_r in Hin. apply elem_of_app in Hin as [Hin|Hin].
  - destruct (i_lru _ _ _ _ _ _ _ _ _ _ _ I e h Hin Hh) as [_ Hr]. unfold HasRefs. rewrite Hr. cbn [Z.ltb Z.compare].
    destruct (LRU_Remove_inv (limits s) s P [] [] m e I Hin) as (p' & Hrun & I1 & _). rewrite (run_bind _ _ _ _ _ Hrun).
    assert (IncRefs h = SetRefs 1 h) as Hinc by (unfold IncRefs; by rewrite Hr).
    rewrite (run_update e _ h) by done. rewrite Hinc, (run_update e _ (SetRefs 1 h)) by (simpl; by rewrite lookup_insert_eq).
    eexists _, (e :: P). split; [reflexivity|]. split; [|split_and!; [by left|by right|]].
    + cbn [set_heap heap]. rewrite insert_insert_eq. by apply (pin (set_pools p' s) P [] [] m e h (SetHit (SetRefs 1 h)) I1).
    + exists h. eexists. split; [done|]. split; [simpl; by rewrite lookup_insert_eq|]. simpl. by rewrite Hr.
  - pose proof (i_pin _ _ _ _ _ _ _ _ _ _ _ I e h Hin Hh) as Hr. unfold HasRefs. rewrite (proj2 (Z.ltb_lt 0 (refs h))) by done.
    assert (IncRefs h = SetRefs (refs h + 1) h) as Hinc by (unfold IncRefs, wadd; by rewrite wrap_id by (split; lia)).
    rewrite run_ret, (run_update e _ h) by done. rewrite Hinc, (run_update e _ (SetRefs (refs h + 1) h)) by (simpl; by rewrite lookup_insert_eq).
    eexists _, P. split; [reflexivity|]. split; [|split_and!; [done|by left|]].
    + cbn [set_heap heap]. rewrite insert_insert_eq. destruct (pinned_only s P [] [] [] m e I Hin) as (Hnl & HnX & HnY & _).
      apply (inv_update _ _ _ _ _ _ _ _ _ _ _ I e h); [done|done|done|done|done|done|done|simpl; lia|done].
    + exists h. eexists. split; [done|]. split; [simpl; by rewrite lookup_insert_eq|]. done.
Qed.

Lemma Ref_ok s P m e :
  Inv s P m -> e ∈ P -> (forall h, heap s !! e = Some h -> refs h + 1 < 2 ^ 32) -> exists s', Ref e s = Ok (true, s') /\ Inv s' P m.
Proof.
  intros I He Hroom. destruct (inv_in _ _ _ _ _ _ _ _ _ _ _ e I) as [h Hh]; [rewrite !elem_of_app; tauto|]. specialize (Hroom h Hh).
  pose proof (i_pin _ _ _ _ _ _ _ _ _ _ _ I e h He Hh) as Hr. destruct (pinned_only s P [] [] [] m e I He) as (Hnl & HnX & HnY & _).
  unfold Ref. rewrite (run_deref e h) by done. rewrite run_assert by by apply Z.ltb_lt. rewrite (run_update e _ h) by done. eexists. split; [reflexivity|].
  apply (inv_update _ _ _ _ _ _ _ _ _ _ _ I e h); [done|done|done|done|done|done|done|simpl; unfold wadd; rewrite wrap_id by (split; lia); lia|done].
Qed.

(** The last reference goes: the entry is in limbo without references. *)
Lemma last_ref s P m e h :
  Inv s P m -> e ∈ P -> heap s !! e = Some h ->
  exists P', P ≡ₚ e :: P' /\ invs (set_heap (<[e := SetRefs 0 h]> (heap s)) s) P' [e] [] [] m.
Proof.
  intros I He Hh. destruct (unpin s P [] [] m e I He) as (P' & HP & I1 & Hn). exists P'. split; [done|].
  destruct (pinned_only s P [] [] [] m e I He) as (Hnl & _ & HnY & _).
  by apply (inv_update _ _ _ _ _ _ _ _ _ _ _ I1 e h).
Qed.

Lemma Release_ok s P m e erase :
  Inv s P m -> e ∈ P -> exists freed s' P' m', Release e erase s = Ok (freed, s') /\ Inv s' P' m' /\ (P' = P \/ P ≡ₚ e :: P').
Proof.
  intros I He. destruct (inv_in _ _ _ _ _ _ _ _ _ _ _ e I) as [h Hh]; [rewrite !elem_of_app; tauto|].
  pose proof (i_pin _ _ _ _ _ _ _ _ _ _ _ I e h He Hh) as Hr. destruct (pinned_only s P [] [] [] m e I He) as (Hnl & HnX & HnY & _).
  unfold Release. rewrite (run_deref e h) by done. rewrite run_assert by by apply Z.ltb_lt. rewrite (run_update e _ h) by done. rewrite run_gets. cbn [id].
  destruct (Z.eqb_spec (refs h - 1) 0) as [Hlast|Hmore]; cbn [andb].
  2: { rewrite run_ret. rewrite run_ret. eexists false, _, P, m. split; [reflexivity|]. split; [|by left].
    apply (inv_update _ _ _ _ _ _ _ _ _ _ _ I e h); [done|done|done|done|done|done|done|simpl; lia|done]. }
  rewrite Hlast. destruct (last_ref s P m e h I He Hh) as (P' & HP & I1). set (s1 := set_heap (<[e := SetRefs 0 h]> (heap s)) s) in *.
  assert (heap s1 !! e = Some (SetRefs 0 h)) as Hh1 by (simpl; by rewrite lookup_insert_eq).
  destruct (in_cache h) eqn:Hc.
  - destruct ((capacity_ (limits s1) <? usage_ s1) || erase) eqn:Hcond.
    + rewrite bind_assoc, run_assert.
      2: { apply orb_true_iff. destruct erase; [by right|left]. rewrite orb_false_r in Hcond. apply Z.ltb_lt in Hcond. apply bool_decide_eq_true.
        destruct (i_full _ _ _ _ _ _ _ _ _ _ _ I) as [|Hle]; [done|]. simpl in Hcond. lia. }
      destruct (remove_from_table_ok s1 (h_key h) (h_hash h) m (i_table _ _ _ _ _ _ _ _ _ _ _ I)) as (t' & Hrem & Ht').
      { apply (i_wf _ _ _ _ _ _ _ _ _ _ _ I e h Hh). }
      rewrite bind_assoc, (run_bind _ _ _ _ _ Hrem). rewrite bind_assoc, (run_update e _ (SetRefs 0 h)) by done. rewrite !run_ret.
      pose proof (inv_uncache _ _ _ _ _ _ _ _ _ _ _ I1 e (SetRefs 0 h) t' Hh1 ltac:(rewrite elem_of_app; right; by left)
        ltac:(eapply in_map; [exact I1|rewrite !elem_of_app; right; right; by left|done|done]) Ht') as I2.
      destruct (inv_drop _ _ _ _ _ _ _ _ _ e (SetInCache false (SetRefs 0 h)) [] I2) as [I3 Hle]; [by rewrite lookup_insert_eq|done|done|].
      rewrite bind_assoc, (run_bind _ _ _ _ _ (sub_usage_ok (total_charge h) (set_heap (<[e := SetInCache false (SetRefs 0 h)]> (heap s1)) (set_table t' s1)) Hle)).
      match goal with |- context [bind (Free e) _ ?st] => destruct (Free_ok st P' [] [] _ e I3) as (_ & _ & _ & HF & _ & I4) end. rewrite (run_bind _ _ _ _ _ HF).
      eexists true, _, P', _. split; [reflexivity|]. split; [exact I4|by right].
    + apply orb_false_iff in Hcond as [Hcond _]. apply Z.ltb_ge in Hcond.
      destruct (LRU_Insert_inv s1 P' [] [] m e (SetRefs 0 h) I1 Hh1 Hc eq_refl Hcond) as (p' & m1 & Hrun & I2 & _ & _).
      rewrite bind_assoc, (run_bind _ _ _ _ _ Hrun). rewrite !run_ret. eexists false, _, P', m. split; [reflexivity|]. split; [exact I2|by right].
  - rewrite run_ret. destruct (inv_drop _ _ _ _ _ _ _ _ _ e (SetRefs 0 h) [] I1 Hh1 Hc eq_refl) as [I2 Hle].
    rewrite bind_assoc, (run_bind _ _ _ _ _ (sub_usage_ok (total_charge h) s1 Hle)).
    destruct (Free_ok (set_usage (usage_ s1 - total_charge h) s1) P' [] [] m e I2) as (_ & _ & _ & HF & _ & I3). rewrite (run_bind _ _ _ _ _ HF).
    eexists true, _, P', m. split; [reflexivity|]. split; [exact I3|by right].
Qed.

(** ** Erasing *)

Lemma Erase_ok s P m k hash :
  Inv s P m -> word 32 hash -> exists s', Erase k hash s = Ok (tt, s') /\ Inv s' P (delete (hash, k) m).
Proof.
  intros I Hw. unfold Erase. destruct (remove_from_table_ok s k hash m (i_table _ _ _ _ _ _ _ _ _ _ _ I) Hw) as (t' & Hrem & Ht').
  rewrite (run_bind _ _ _ _ _ Hrem). destruct (m !! (hash, k)) as [e|] eqn:Em.
  2: { rewrite delete_id in * by done. eexists. split; [reflexivity|]. destruct I. by split. }
  pose proof Em as Em'. apply (i_map _ _ _ _ _ _ _ _ _ _ _ I) in Em' as (Hin & h & Hh & Hc & Hid). rewrite <- Hid in Ht', Em |- *.
  rewrite (run_deref e h) by done. rewrite run_assert by done. rewrite (run_update e _ h) by done. rewrite app_nil_r in Hin. apply elem_of_app in Hin as [Hin|Hin].
  - destruct (i_lru _ _ _ _ _ _ _ _ _ _ _ I e h Hin Hh) as [_ Hr]. unfold HasRefs. rewrite Hr. cbn [Z.ltb Z.compare].
    destruct (LRU_Remove_inv (limits s) s P [] [] m e I Hin) as (p' & Hrun & _ & _). destruct (kill (limits s) s P [] [] m e h p' t' I Hh Hin Hrun Ht') as (I' & _ & Hle).
    set (s1 := set_heap (<[e := SetInCache false h]> (heap s)) (set_table t' s)).
    assert (LRU_Remove e s1 = Ok (tt, set_pools p' s1)) as Hrun1.
    { apply (LRU_Remove_frame s s1 e h (SetInCache false h)); try done. simpl. by rewrite lookup_insert_eq. }
    rewrite (run_bind _ _ _ _ _ Hrun1). rewrite (run_bind _ _ _ _ _ (sub_usage_ok (total_charge h) (set_pools p' s1) Hle)).
    match goal with |- context [Free e ?st] => destruct (Free_ok st P [] [] _ e I') as (_ & _ & _ & HF & _ & I'') end. eexists. split; [exact HF|exact I''].
  - pose proof (i_pin _ _ _ _ _ _ _ _ _ _ _ I e h Hin Hh) as Hr. unfold HasRefs. rewrite (proj2 (Z.ltb_lt 0 (refs h))) by done.
    eexists. split; [reflexivity|]. apply (inv_uncache _ _ _ _ _ _ _ _ _ _ _ I e h t' Hh); [rewrite elem_of_app; by left|done|done].
Qed.

Lemma erase_unref_loop_ok fuel l s P X Y m del :
  invl l s P [] X Y m -> (length (lru_ (pools s)) < fuel)%nat ->
  exists ev s' m', erase_unref_loop fuel del s = Ok (del ++ ev, s') /\ invl l s' P [] (X ++ ev) Y m' /\ lru_ (pools s') = [] /\ limits s' = limits s.
Proof.
  revert s X m del. induction fuel as [|fuel IH]; intros s X m del I Hf; [lia|]. cbn [erase_unref_loop]. rewrite run_gets.
  destruct (lru_ (pools s)) as [|old rest] eqn:El.
  - exists [], s, m. rewrite !app_nil_r. done.
  - destruct (evict_oldest_ok l s P X Y m old rest I El) as (p1 & t1 & h & Hh & Hrun & I1 & Hl1). rewrite (run_bind _ _ _ _ _ Hrun).
    destruct (IH _ (X ++ [old]) _ (del ++ [old]) I1) as (ev & s' & m' & Hrun' & I' & Hl' & Hlim); [cbn [pools]; rewrite Hl1; simpl in Hf; lia|].
    exists (old :: ev), s', m'. rewrite <- app_assoc in Hrun', I'. done.
Qed.

Lemma EraseUnRefEntries_ok s P m : Inv s P m -> exists s' m', EraseUnRefEntries s = Ok (tt, s') /\ Inv s' P m' /\ lru_ (pools s') = [].
Proof.
  intros I. unfold EraseUnRefEntries. rewrite run_gets.
  destruct (erase_unref_loop_ok (S (length (lru_ (pools s)))) (limits s) s P [] [] m [] I) as (ev & s1 & m' & Hrun & I1 & Hl & Hlim); [lia|].
  rewrite <- Hlim in I1.
  rewrite (run_bind _ _ _ _ _ Hrun). simpl app in *.
  destruct (FreeAll_ok ev s1 P [] [] m') as (hp' & Hrun' & I'); [by rewrite app_nil_r|]. eexists _, m'. split; [exact Hrun'|]. split; [exact I'|exact Hl].
Qed.

(** ** Limits *)

Lemma round_nonneg prec emax m e loc : nonneg (binary_round_aux prec emax false m e loc).
Proof.
  unfold binary_round_aux. destruct (shr_fexp prec emax m e loc) as [mrs' e']. destruct (shr_fexp prec emax _ e' loc_Exact) as [mrs'' e''].
  destruct (shr_m mrs''); [done| |done]. by destruct (Z.leb e'' _).
Qed.

Lemma double_nonneg c : 0 <= c -> nonneg (double_of c).
Proof.
  intros Hc. unfold double_of, binary_normalize. destruct c as [|c|c]; [done| |lia]. unfold binary_round.
  set (q := shl_align _ _ _). destruct q as [mz ez]. apply round_nonneg.
Qed.

Lemma product_nonneg x y : nonneg x -> nonneg y -> nonneg (SFmul 53 1024 x y).
Proof.
  destruct x as [?|[]| |[] ? ?]; try done; destruct y as [?|[]| |[] ? ?]; try done. intros _ _. apply round_nonneg.
Qed.

Lemma nonneg_cap x : nonneg x -> cap_ok x.
Proof. by destruct x as [?|[]| |[] ? ?]. Qed.

Lemma product_cap c r : 0 <= c -> nonneg r -> cap_ok (SFmul 53 1024 (double_of c) r).
Proof. intros Hc Hr. apply nonneg_cap, product_nonneg; [by apply double_nonneg|done]. Qed.

Lemma inv_limits l l' p t u hp n P Q X Y m :
  inv l p t u hp n P Q X Y m -> (lru_ p = [] \/ u <= capacity_ l') ->
  cap_ok (high_pri_pool_capacity_ l') -> cap_ok (low_pri_pool_capacity_ l') ->
  positive (low_pri_pool_ratio_ l') = false /\ nonneg (high_pri_pool_ratio_ l') /\ nonneg (low_pri_pool_ratio_ l') /\ 0 <= capacity_ l' ->
  inv l' p t u hp n P Q X Y m.
Proof. intros [? ? ? ? ? ? ? ? ? ? ? ? _ _ _ _] Hf Hh Hl Hc. by split. Qed.

Lemma EvictFromLRU_ok l s P X Y m c :
  invl l s P [] X Y m -> 0 <= c -> usage_ s + c < 2 ^ 64 ->
  exists ev s' m', EvictFromLRU c s = Ok (ev, s') /\ invl l s' P [] (X ++ ev) Y m' /\
    lru_ (pools s) = ev ++ lru_ (pools s') /\ limits s' = limits s /\ next_ptr s' = next_ptr s /\
    usage_ s' = usage_ s - csum (heap s) ev /\ (usage_ s' + c <= capacity_ (limits s) \/ lru_ (pools s') = []) /\
    (forall e, e ∉ ev -> heap s' !! e = heap s !! e) /\
    (forall i e, m' !! i = Some e <-> m !! i = Some e /\ e ∉ ev) /\
    (forall ev1 e ev2, ev = ev1 ++ e :: ev2 -> capacity_ (limits s) < usage_ s - csum (heap s) ev1 + c).
Proof. intros I Hc Hsm. unfold EvictFromLRU. rewrite run_gets. by apply (evict_loop_ok _ l s P X Y m c []); [|lia|..]. Qed.

Lemma SetCapacity_ok takes s P m c :
  Inv s P m -> 0 <= c -> exists s' m', SetCapacity takes c s = Ok (tt, s') /\ Inv s' P m' /\ capacity_ (limits s') = c.
Proof.
  intros I Hc. unfold SetCapacity. rewrite run_gets, run_modify. set (l' := mkLimits _ _ _ _ _ _).
  destruct (i_calm _ _ _ _ _ _ _ _ _ _ _ I) as (Hlow & Hnh & Hnl & Hcap0).
  assert (cap_ok (high_pri_pool_capacity_ l') /\ cap_ok (low_pri_pool_capacity_ l')) as [Hch Hcl] by (split; by apply product_cap).
  set (l0 := mkLimits (Z.max c (usage_ s)) (strict_capacity_limit_ l') (high_pri_pool_ratio_ l') (high_pri_pool_capacity_ l') (low_pri_pool_ratio_ l') (low_pri_pool_capacity_ l')).
  assert (invl l0 (set_limits l' s) P [] [] [] m) as I0 by (apply (inv_limits (limits s)); [exact I|right; simpl; lia|done|done|split_and!; [done|done|done|simpl; lia]]).
  pose proof (i_bound _ _ _ _ _ _ _ _ _ _ _ I) as Hb.
  destruct (EvictFromLRU_ok l0 (set_limits l' s) P [] [] m 0 I0) as (ev & s1 & m' & Hrun & I1 & Hl & Hlim & _ & _ & Hend & _); [lia|simpl; lia|].
  rewrite (run_bind _ _ _ _ _ Hrun). simpl app in I1.
  assert (invs s1 P [] ev [] m') as I2.
  { unfold invs. rewrite Hlim. apply (inv_limits l0); [exact I1| |done|done|done]. destruct Hend as [Hle|]; [right|by left]. simpl in *. lia. }
  destruct (NotifyEvicted_ok takes ev s1 P [] [] m') as (hp' & Hrun' & I' & _); [by rewrite app_nil_r|].
  eexists _, m'. split; [exact Hrun'|]. split; [exact I'|]. simpl. by rewrite Hlim.
Qed.

Lemma SetStrictCapacityLimit_ok s P m b : Inv s P m -> exists s', SetStrictCapacityLimit b s = Ok (tt, s') /\ Inv s' P m.
Proof.
  intros I. eexists. split; [reflexivity|]. apply (inv_limits (limits s)); [exact I|apply (i_full _ _ _ _ _ _ _ _ _ _ _ I)|apply (i_high _ _ _ _ _ _ _ _ _ _ _ I)|
    apply (i_low _ _ _ _ _ _ _ _ _ _ _ I)|apply (i_calm _ _ _ _ _ _ _ _ _ _ _ I)].
Qed.

Lemma MaintainPoolSize_inv s P Q X Y m :
  invs s P Q X Y m -> exists s', MaintainPoolSize s = Ok (tt, s') /\ invs s' P Q X Y m /\ limits s' = limits s.
Proof.
  intros I. destruct (i_seg _ _ _ _ _ _ _ _ _ _ _ I) as (B & L & H & Hseg). pose proof (inv_charges _ _ _ _ _ _ _ _ _ _ _ I) as Hch.
  destruct (MaintainPoolSize_ok s B L H Hseg Hch) as (p' & m' & B' & L' & H' & Hrun & Hseg' & Hf & Hl & Hlu & _).
  - destruct Hseg as [[Hl _ _ _ _ _ _ _] _]. rewrite <- Hl. pose proof (i_usage _ _ _ _ _ _ _ _ _ _ _ I) as Hus. pose proof (i_bound _ _ _ _ _ _ _ _ _ _ _ I).
    rewrite csum_app in Hus. pose proof (csum_nonneg (heap s) (P ++ Q) Hch). lia.
  - apply (i_high _ _ _ _ _ _ _ _ _ _ _ I).
  - apply (i_low _ _ _ _ _ _ _ _ _ _ _ I).
  - eexists. split; [exact Hrun|]. split; [|done]. apply (inv_move _ _ _ _ _ _ _ _ _ _ _ I p' m' P Q); [by exists B', L', H'| |done|by rewrite Hl| | |].
    + rewrite Hlu, Hl, (flags_only_csum (heap s) m') by done. apply (i_lru_usage _ _ _ _ _ _ _ _ _ _ _ I).
    + rewrite Hl. apply (i_lru _ _ _ _ _ _ _ _ _ _ _ I).
    + apply (i_pin _ _ _ _ _ _ _ _ _ _ _ I).
    + rewrite Hl. apply (i_full _ _ _ _ _ _ _ _ _ _ _ I).
Qed.

Lemma SetHighPriorityPoolRatio_ok s P m r :
  Inv s P m -> nonneg r -> exists s', SetHighPriorityPoolRatio r s = Ok (tt, s') /\ Inv s' P m.
Proof.
  intros I Hr. unfold SetHighPriorityPoolRatio. rewrite run_modify. destruct (i_calm _ _ _ _ _ _ _ _ _ _ _ I) as (Hlow & Hnh & Hnl & Hcap0).
  match goal with |- context [MaintainPoolSize ?t] => destruct (MaintainPoolSize_inv t P [] [] [] m) as (s' & Hrun & I' & Hlim) end.
  - apply (inv_limits (limits s)); [exact I|apply (i_full _ _ _ _ _ _ _ _ _ _ _ I)|by apply product_cap|apply (i_low _ _ _ _ _ _ _ _ _ _ _ I)|done].
  - exists s'. split; [exact Hrun|exact I'].
Qed.

(** ** Insertion *)

(** The state in which the entry [e] has replaced what had its identity; it is
    still in limbo.  [more] is what the caller has to free. *)
Lemma replace_ok s P X m e h :
  invs s P [] X [e] m -> heap s !! e = Some h -> in_cache h = true ->
  elems_ (table_ s) + 1 < 2 ^ 32 -> usage_ s + total_charge h < 2 ^ 64 -> (lru_ (pools s) = [] \/ usage_ s + total_charge h <= capacity_ (limits s)) ->
  exists more s3, bind (insert_into_table (mkEntry e (h_hash h) (h_key h))) (fun old => bind (add_usage (total_charge h)) (fun _ =>
      bind (match old with
            | None => ret []
            | Some o => ho <- deref o ;; assert (in_cache ho) ;;; update o (SetInCache false) ;;;
                (if HasRefs ho then ret [] else LRU_Remove o ;;; sub_usage (total_charge ho) ;;; ret [o])
            end) (fun more => ret (old, more)))) s = Ok ((m !! id_of_handle h, more), s3) /\
    invs s3 P [e] (X ++ more) [] (<[id_of_handle h := e]> m) /\ heap s3 !! e = Some h /\ limits s3 = limits s /\ usage_ s3 <= usage_ s + total_charge h.
Proof.
  intros I Hh Hc Hroom Hsm Hfull. pose proof (inv_charges _ _ _ _ _ _ _ _ _ _ _ I) as Hch. pose proof (Hch e h Hh) as H0.
  destruct (table_insert_ok (table_ s) m (mkEntry e (h_hash h) (h_key h)) (i_table _ _ _ _ _ _ _ _ _ _ _ I)) as (t' & Hins & Ht'); [apply (i_wf _ _ _ _ _ _ _ _ _ _ _ I e h Hh)|done|].
  change (id_of _) with (id_of_handle h) in *. cbn [ptr] in Ht'.
  assert (insert_into_table (mkEntry e (h_hash h) (h_key h)) s = Ok (m !! id_of_handle h, set_table t' s)) as Hrun.
  { unfold insert_into_table. rewrite run_gets. rewrite (run_bind (lift _) _ s (m !! id_of_handle h, t') s) by (unfold lift; by rewrite Hins). done. }
  rewrite (run_bind _ _ _ _ _ Hrun). unfold add_usage. rewrite run_modify. cbn [usage_ set_table].
  pose proof (i_usage _ _ _ _ _ _ _ _ _ _ _ I) as Hus. pose proof (csum_nonneg (heap s) (lru_ (pools s) ++ P ++ []) Hch).
  assert (wadd 64 (usage_ s) (total_charge h) = usage_ s + total_charge h) as -> by (unfold wadd; rewrite wrap_id by (split; lia); done).
  destruct (m !! id_of_handle h) as [o|] eqn:Em.
  2: { rewrite run_ret. eexists [], _. split; [reflexivity|]. rewrite app_nil_r. split_and!; [|done|done|simpl; lia]. by apply (inv_attach _ _ _ _ _ _ _ _ _ e h t' I). }
  pose proof Em as Em'. apply (i_map _ _ _ _ _ _ _ _ _ _ _ I) in Em' as (Hin & ho & Hho & Hco & Hido).
  assert (e <> o) as Hne.
  { intros <-. pose proof (i_nodup _ _ _ _ _ _ _ _ _ _ _ I) as Hnd. rewrite !app_assoc in Hnd. apply NoDup_app in Hnd as (_ & Hd & _). apply (Hd e); [|by left]. rewrite !elem_of_app in *. tauto. }
  rewrite bind_assoc, (run_deref o ho) by done. rewrite bind_assoc, run_assert by done. rewrite bind_assoc, (run_update o _ ho) by done.
  destruct (table_remove_ok (table_ s) m (h_key h) (h_hash h) (i_table _ _ _ _ _ _ _ _ _ _ _ I)) as (t0 & _ & Ht0); [apply (i_wf _ _ _ _ _ _ _ _ _ _ _ I e h Hh)|].
  change (h_hash h, h_key h) with (id_of_handle h) in Ht0.
  assert (<[id_of_handle h := e]> m = <[id_of_handle h := e]> (delete (id_of_handle h) m)) as Hmm by (by rewrite insert_delete_eq).
  rewrite Hmm in *. rewrite <- Hido in Em, Ht0. rewrite app_nil_r in Hin. apply elem_of_app in Hin as [Hin|Hin].
  - destruct (i_lru _ _ _ _ _ _ _ _ _ _ _ I o ho Hin Hho) as [_ Hr]. unfold HasRefs. rewrite Hr. cbn [Z.ltb Z.compare].
    destruct (LRU_Remove_inv (limits s) s P X [e] m o I Hin) as (p' & Hrem & _ & _).
    destruct (kill (limits s) s P X [e] m o ho p' t0 I Hho Hin Hrem Ht0) as (I1 & _ & Hle). rewrite Hido in I1.
    match goal with |- context [bind (bind (LRU_Remove o) _) _ ?st] => assert (LRU_Remove o st = Ok (tt, set_pools p' st)) as Hrem1 by (apply (LRU_Remove_frame s st o ho (SetInCache false ho)); try done; simpl; by rewrite lookup_insert_eq) end.
    rewrite bind_assoc, (run_bind _ _ _ _ _ Hrem1). rewrite bind_assoc.
    match goal with |- context [bind (sub_usage _) _ ?st] => rewrite (run_bind _ _ _ _ _ (sub_usage_ok (total_charge ho) st ltac:(simpl; lia))) end.
    rewrite !run_ret. eexists [o], _. split; [reflexivity|]. split_and!; [|simpl; by rewrite lookup_insert_ne|done|simpl; pose proof (Hch o ho Hho); lia].
    cbn [usage_ set_pools set_heap set_usage set_table]. replace (usage_ s + total_charge h - total_charge ho) with (usage_ s - total_charge ho + total_charge h) by lia.
    apply (inv_attach _ _ _ _ _ _ _ _ _ e h t' I1); [simpl; by rewrite lookup_insert_ne|done|by rewrite lookup_delete_eq|done|pose proof (Hch o ho Hho); cbn [usage_]; lia|].
    destruct (i_full _ _ _ _ _ _ _ _ _ _ _ I1) as [|]; [by left|right]. cbn [usage_]. pose proof (Hch o ho Hho). destruct Hfull as [Hnil|]; [|lia]. rewrite Hnil in Hin. by apply elem_of_nil in Hin.
  - pose proof (i_pin _ _ _ _ _ _ _ _ _ _ _ I o ho Hin Hho) as Hr. unfold HasRefs. rewrite (proj2 (Z.ltb_lt 0 (refs ho))) by done.
    rewrite run_ret. eexists [], _. split; [reflexivity|]. rewrite app_nil_r. split_and!; [|simpl; by rewrite lookup_insert_ne|done|simpl; lia].
    pose proof (inv_uncache _ _ _ _ _ _ _ _ _ _ _ I o ho t0 Hho ltac:(rewrite elem_of_app; by left) Em Ht0) as I1. rewrite Hido in I1.
    apply (inv_attach _ _ _ _ _ _ _ _ _ e h t' I1); [simpl; by rewrite lookup_insert_ne|done|by rewrite lookup_delete_eq|done|done|done].
Qed.

Lemma run_three {S A B C} (a : M S A) (b : M S unit) (c : A -> M S B) (k : A -> B -> M S C) s x y s' :
  bind a (fun o => bind b (fun _ => bind (c o) (fun r => ret (o, r)))) s = Ok ((x, y), s') ->
  bind a (fun o => bind b (fun _ => bind (c o) (k o))) s = k x y s'.
Proof.
  unfold bind, ret. destruct (a s) as [[o s1]|]; [|done]. destruct (b s1) as [[[] s2]|]; [|done]. destruct (c o s2) as [[r s3]|]; [|done]. by intros [= <- <- <-].
Qed.

(** The rest of [InsertItem], once the entry is to be inserted. *)
Definition insert_tail (takes : LRUHandle -> bool) (e : Z) (h : LRUHandle) (want : bool) (evicted : list Z) : M Shard (Status * option Z) :=
  old <- insert_into_table (mkEntry e (h_hash h) (h_key h)) ;;
  add_usage (total_charge h) ;;;
  more <- match old with
          | None => ret []
          | Some o =>
              ho <- deref o ;;
              assert (in_cache ho) ;;;
              update o (SetInCache false) ;;;
              (if HasRefs ho then ret []
               else LRU_Remove o ;;; sub_usage (total_charge ho) ;;; ret [o])
          end ;;
  (if negb want then LRU_Insert e
   else take_ref e) ;;;
  NotifyEvicted takes (evicted ++ more) ;;;
  ret (match old with None => OK | Some _ => OkOverwritten end, if want then Some e else None).

Lemma insert_tail_ok takes s P ev m e h want :
  invs s P [] ev [e] m -> heap s !! e = Some h -> in_cache h = true -> refs h = 0 ->
  elems_ (table_ s) + 1 < 2 ^ 32 -> usage_ s + total_charge h < 2 ^ 64 -> (lru_ (pools s) = [] \/ usage_ s + total_charge h <= capacity_ (limits s)) ->
  (want = true \/ usage_ s + total_charge h <= capacity_ (limits s)) ->
  exists st s', insert_tail takes e h want ev s = Ok ((st, if want then Some e else None), s') /\
    Inv s' (if want then e :: P else P) (<[id_of_handle h := e]> m) /\ st <> MemoryLimit.
Proof.
  intros I Hh Hc Hr Hroom Hsm Hfull Hwant. unfold insert_tail.
  destruct (replace_ok s P ev m e h I Hh Hc Hroom Hsm Hfull) as (more & s3 & Hrun & I3 & Hh3 & Hlim & Hus).
  rewrite (run_three _ _ _ _ _ _ _ _ Hrun). destruct want; cbn [negb].
  - unfold take_ref. rewrite bind_assoc, (run_deref e h) by done. unfold HasRefs. rewrite Hr. cbn [Z.ltb Z.compare]. rewrite (run_update e _ h) by done.
    pose proof (pin s3 P (ev ++ more) [] _ e h (IncRefs h) I3 Hh3 ltac:(simpl; rewrite Hr; vm_compute; reflexivity) eq_refl eq_refl eq_refl eq_refl) as I4.
    match goal with |- context [bind (NotifyEvicted _ _) _ ?st] => destruct (NotifyEvicted_ok takes (ev ++ more) st (e :: P) [] [] _ ltac:(rewrite app_nil_r; exact I4)) as (hp' & Hrun' & I' & _) end.
    rewrite (run_bind _ _ _ _ _ Hrun'). eexists _, _. split; [reflexivity|]. split; [exact I'|]. by destruct (m !! id_of_handle h).
  - destruct Hwant as [|Hle]; [done|].
    destruct (LRU_Insert_inv s3 P (ev ++ more) [] _ e h I3 Hh3 Hc Hr) as (p' & m' & Hins & I4 & _ & _); [rewrite Hlim; lia|].
    rewrite (run_bind _ _ _ _ _ Hins).
    match goal with |- context [bind (NotifyEvicted _ _) _ ?st] => destruct (NotifyEvicted_ok takes (ev ++ more) st P [] [] _ ltac:(rewrite app_nil_r; exact I4)) as (hp' & Hrun' & I' & _) end.
    rewrite (run_bind _ _ _ _ _ Hrun'). eexists _, _. split; [reflexivity|]. split; [exact I'|]. by destruct (m !! id_of_handle h).
Qed.

(** The order of the dead entries does not matter. *)
Lemma inv_dead_perm l p t u hp n P Q X X' Y m : inv l p t u hp n P Q X Y m -> X ≡ₚ X' -> inv l p t u hp n P Q X' Y m.
Proof.
  intros [? ? Hnd Hdom ? ? Hdead ? ? ? ? ? ? ? ? ?] HX. split; try done.
  - by rewrite <- HX.
  - intros e. rewrite <- HX. apply Hdom.
  - intros e h He. apply Hdead. by rewrite HX.
Qed.

(** [InsertItem] of a pending entry.  [ev] is what it evicts first; the entry
    is inserted unless it does not fit next to what remains. *)
Lemma InsertItem_ok takes s P m e h want :
  invs s P [] [] [e] m -> heap s !! e = Some h -> in_cache h = true -> refs h = 0 ->
  elems_ (table_ s) + 1 < 2 ^ 32 -> usage_ s + total_charge h < 2 ^ 64 ->
  exists st r s' P' m' ev, InsertItem takes e want s = Ok ((st, r), s') /\ Inv s' P' m' /\
    (exists rest, lru_ (pools s) = ev ++ rest /\ (usage_ s - csum (heap s) ev + total_charge h <= capacity_ (limits s) \/ rest = [])) /\
    (forall ev1 x ev2, ev = ev1 ++ x :: ev2 -> capacity_ (limits s) < usage_ s - csum (heap s) ev1 + total_charge h) /\
    let fits := usage_ s - csum (heap s) ev + total_charge h <= capacity_ (limits s) in
    if bool_decide fits || (want && negb (strict_capacity_limit_ (limits s))) then
      (forall i, m' !! i = if decide (i = id_of_handle h) then Some e else match m !! i with Some x => if decide (x ∈ ev) then None else Some x | None => None end) /\
      r = (if want then Some e else None) /\ P' = (if want then e :: P else P) /\ st <> MemoryLimit
    else
      (forall i, m' !! i = match m !! i with Some x => if decide (x ∈ ev) then None else Some x | None => None end) /\
      r = None /\ P' = P /\ st = (if want then MemoryLimit else OK).
Proof.
  intros I Hh Hc Hr Hroom Hsm. pose proof (inv_charges _ _ _ _ _ _ _ _ _ _ _ I e h Hh) as H0. unfold InsertItem. rewrite (run_deref e h) by done.
  destruct (EvictFromLRU_ok (limits s) s P [] [e] m (total_charge h) I H0 Hsm) as (ev & s2 & m2 & Hrun & I2 & Hl & Hlim & Hnext & Hus & Hend & Hheap & Hmap & Hmin).
  rewrite (run_bind _ _ _ _ _ Hrun). rewrite run_gets. cbn [id]. simpl app in I2. rewrite <- Hlim in I2. change (invl (limits s2) s2) with (invs s2) in I2.
  assert (forall i, m2 !! i = match m !! i with Some x => if decide (x ∈ ev) then None else Some x | None => None end) as Hm2.
  { intros i. apply option_eq. intros x. rewrite Hmap. destruct (m !! i) as [y|]; [|split; [by intros [? _]|done]].
    destruct (decide (y ∈ ev)); (split; [by intros [[= ->] ?]|]); [done|by intros [= ->]]. }
  assert (e ∉ ev) as Hev.
  { pose proof (i_nodup _ _ _ _ _ _ _ _ _ _ _ I) as Hnd. apply NoDup_app in Hnd as (_ & Hd & _). intros Hin. apply (Hd e); [rewrite Hl, elem_of_app; by left|]. rewrite !elem_of_app. right. right. right. by left. }
  assert (heap s2 !! e = Some h) as Hh2 by (by rewrite Hheap).
  assert (0 <= usage_ s2) as Hu0.
  { rewrite (i_usage _ _ _ _ _ _ _ _ _ _ _ I2). apply csum_nonneg, (inv_charges _ _ _ _ _ _ _ _ _ _ _ I2). }
  assert (usage_ s2 <= usage_ s) as Hule.
  { rewrite Hus. pose proof (csum_nonneg (heap s) ev (inv_charges _ _ _ _ _ _ _ _ _ _ _ I)). lia. }
  assert (wadd 64 (usage_ s2) (total_charge h) = usage_ s2 + total_charge h) as -> by (unfold wadd; rewrite wrap_id by (split; lia); done).
  assert (exists rest, lru_ (pools s) = ev ++ rest /\ (usage_ s - csum (heap s) ev + total_charge h <= capacity_ (limits s) \/ rest = [])) as Hpre.
  { exists (lru_ (pools s2)). split; [done|]. by rewrite <- Hus. }
  rewrite Hlim.
  assert (elems_ (table_ s2) + 1 < 2 ^ 32) as Hroom2.
  { rewrite (elems_size _ _ (i_table _ _ _ _ _ _ _ _ _ _ _ I2)). rewrite (elems_size _ _ (i_table _ _ _ _ _ _ _ _ _ _ _ I)) in Hroom.
    assert (size m2 <= size m)%nat; [|lia]. apply map_subseteq_size, map_subseteq_spec. intros i x Hx. by apply Hmap in Hx as [? _]. }
  destruct (Z.ltb_spec (capacity_ (limits s)) (usage_ s2 + total_charge h)) as [Hover|Hfits]; cbn [andb].
  - destruct (strict_capacity_limit_ (limits s) || negb want) eqn:Erej; cbn [negb].
    + rewrite (run_update e _ h) by done.
      pose proof (inv_pending _ _ _ _ _ _ _ _ _ e (SetInCache false h) I2 H0 (proj1 (proj2 (i_wf _ _ _ _ _ _ _ _ _ _ _ I e h Hh)))) as I3.
      set (s3 := set_heap (<[e := SetInCache false h]> (heap s2)) s2).
      pose proof (inv_give_up _ _ _ _ _ _ _ _ _ e (SetInCache false h) I3 ltac:(by rewrite lookup_insert_eq) Hr) as I4.
      assert (bool_decide (usage_ s2 + total_charge h <= capacity_ (limits s)) || (want && negb (strict_capacity_limit_ (limits s))) = false) as Hrej.
      { rewrite bool_decide_false by lia. by destruct want, (strict_capacity_limit_ (limits s)). }
      destruct want; cbn [negb].
      * assert (invs s3 P [] (e :: ev) [] m2) as I5 by (apply (inv_dead_perm _ _ _ _ _ _ _ _ (ev ++ [e])); [exact I4|by rewrite (Permutation_app_comm ev [e])]).
        destruct (Free_ok s3 P ev [] m2 e I5) as (_ & _ & _ & _ & Hfr & I6). rewrite (run_bind _ _ _ _ _ Hfr).
        destruct (NotifyEvicted_ok takes ev _ P [] [] m2 ltac:(rewrite app_nil_r; exact I6)) as (hp' & Hrun' & I' & _). rewrite (run_bind _ _ _ _ _ Hrun').
        eexists MemoryLimit, None, _, P, m2, ev. split; [reflexivity|]. split; [exact I'|]. split; [exact Hpre|]. rewrite <- Hus. cbn zeta. by rewrite Hrej.
      * destruct (NotifyEvicted_ok takes (ev ++ [e]) s3 P [] [] m2 ltac:(rewrite app_nil_r; exact I4)) as (hp' & Hrun' & I' & _). rewrite (run_bind _ _ _ _ _ Hrun').
        eexists OK, None, _, P, m2, ev. split; [reflexivity|]. split; [exact I'|]. split; [exact Hpre|]. rewrite <- Hus. cbn zeta. by rewrite Hrej.
    + apply orb_false_iff in Erej as [Hstrict Hw]. apply negb_false_iff in Hw as ->.
      destruct (insert_tail_ok takes s2 P ev m2 e h true I2 Hh2 Hc Hr Hroom2) as (st & s' & Hrun' & I' & Hst); [lia|destruct Hend as [|]; [lia|by left]|by left|].
      eexists st, (Some e), s', (e :: P), _, ev. split; [exact Hrun'|]. split; [exact I'|]. split; [exact Hpre|]. rewrite <- Hus. cbn zeta. rewrite Hstrict, orb_true_r.
      split_and!; try done. intros i. destruct (decide (i = id_of_handle h)) as [->|Hne]; [by rewrite lookup_insert_eq|by rewrite lookup_insert_ne].
  - destruct (insert_tail_ok takes s2 P ev m2 e h want I2 Hh2 Hc Hr Hroom2) as (st & s' & Hrun' & I' & Hst); [lia|right; by rewrite Hlim|right; by rewrite Hlim|].
    eexists st, _, s', _, _, ev. split; [exact Hrun'|]. split; [exact I'|]. split; [exact Hpre|]. rewrite <- Hus. cbn zeta. rewrite bool_decide_true by lia. cbn [orb].
    split_and!; try done. intros i. destruct (decide (i = id_of_handle h)) as [->|Hne]; [by rewrite lookup_insert_eq|by rewrite lookup_insert_ne].
Qed.

(** The handle [CreateHandle] makes. *)
Definition fresh_handle (k : list Z) (hash v c : Z) (p : Priority) : LRUHandle :=
  mkHandle v k hash c 0 true false false false (match p with HIGH => true | _ => false end) (match p with LOW => true | _ => false end) false.

Lemma Insert_start takes meta s P m k hash v charge want pri :
  Inv s P m -> word 32 hash -> 0 <= charge -> 0 <= meta (Z.of_nat (length k)) -> usage_ s + (charge + meta (Z.of_nat (length k))) < 2 ^ 64 ->
  let h := fresh_handle k hash v (charge + meta (Z.of_nat (length k))) pri in
  let s1 := mkShard (limits s) (pools s) (table_ s) (usage_ s) (<[next_ptr s := h]> (heap s)) (next_ptr s + 1) in
  Insert takes meta k hash v charge want pri s = InsertItem takes (next_ptr s) want s1 /\ invs s1 P [] [] [next_ptr s] m.
Proof.
  intros I Hw Hc Hm Hsm h s1. pose proof (csum_nonneg (heap s) (lru_ (pools s) ++ P ++ []) (inv_charges _ _ _ _ _ _ _ _ _ _ _ I)) as H0.
  pose proof (i_usage _ _ _ _ _ _ _ _ _ _ _ I) as Hus. split; [|apply inv_create; [exact I|simpl; lia|done]]. unfold Insert.
  assert (wadd 64 charge (meta (Z.of_nat (length k))) = charge + meta (Z.of_nat (length k))) as Hadd by (unfold wadd; rewrite wrap_id by (split; lia); done).
  unfold CreateHandle. rewrite Hadd. unfold bind at 1. rewrite (run_update (next_ptr s) _ (mkHandle v k hash (charge + meta (Z.of_nat (length k))) 0 false false false false false false false)) by (simpl; by rewrite lookup_insert_eq).
  rewrite (run_update (next_ptr s) _ (SetPriority pri (mkHandle v k hash (charge + meta (Z.of_nat (length k))) 0 false false false false false false false))) by (simpl; by rewrite lookup_insert_eq).
  cbn [set_heap heap limits pools table_ usage_ next_ptr]. by rewrite !insert_insert_eq.
Qed.

(** A pending handle is freed. *)
Lemma inv_discard s P X m e h :
  invs s P [] X [e] m -> heap s !! e = Some h -> invs (set_heap (delete e (heap s)) s) P [] X [] m.
Proof.
  intros I Hh. set (h' := SetRefs 0 h). destruct (i_wf _ _ _ _ _ _ _ _ _ _ _ I e h Hh) as (H0 & Hw & _).
  pose proof (inv_pending _ _ _ _ _ _ _ _ _ e h' I H0 Hw) as I1.
  pose proof (inv_give_up _ _ _ _ _ _ _ _ _ e h' I1 (lookup_insert_eq _ _ _) eq_refl) as I2.
  apply (inv_dead_perm _ _ _ _ _ _ _ _ _ (e :: X)) in I2; [|by rewrite Permutation_app_comm].
  apply inv_free in I2. rewrite delete_insert_eq in I2. exact I2.
Qed.

Lemma CreateStandalone_ok takes meta s P m k hash v charge allow :
  Inv s P m -> word 32 hash -> 0 <= charge -> 0 <= meta (Z.of_nat (length k)) -> usage_ s + (charge + meta (Z.of_nat (length k))) < 2 ^ 64 ->
  exists r s' P' m', CreateStandalone takes meta k hash v charge allow s = Ok (r, s') /\ Inv s' P' m' /\
    match r with Some e => P' = P ++ [e] | None => P' = P end.
Proof.
  intros I Hw Hc Hm Hsm. pose proof (csum_nonneg (heap s) (lru_ (pools s) ++ P ++ []) (inv_charges _ _ _ _ _ _ _ _ _ _ _ I)) as H0.
  pose proof (i_usage _ _ _ _ _ _ _ _ _ _ _ I) as Hus. unfold CreateStandalone.
  set (c := charge + meta (Z.of_nat (length k))) in *. set (e := next_ptr s).
  set (h := mkHandle v k hash c 1 false false false false false false true).
  assert (wadd 64 charge (meta (Z.of_nat (length k))) = c) as Hadd by (unfold wadd; rewrite wrap_id by (split; lia); done).
  unfold CreateHandle. rewrite Hadd. unfold bind at 1.
  rewrite (run_update e _ (mkHandle v k hash c 0 false false false false false false false)) by (simpl; by rewrite lookup_insert_eq).
  rewrite (run_update e _ (SetIsStandalone (mkHandle v k hash c 0 false false false false false false false))) by (simpl; by rewrite lookup_insert_eq).
  cbn [set_heap heap limits pools table_ usage_ next_ptr]. rewrite !insert_insert_eq. change (IncRefs _) with h. fold e.
  match goal with |- context [set_heap ?a (set_heap ?b ?c)] => change (set_heap a (set_heap b c)) with (mkShard (limits s) (pools s) (table_ s) (usage_ s) (<[e := h]> (heap s)) (e + 1)) end.
  set (s1 := mkShard _ _ _ _ (<[e := h]> (heap s)) _). assert (heap s1 !! e = Some h) as Hh by (apply lookup_insert_eq). rewrite (run_deref e h) by done.
  assert (invs s1 P [] [] [e] m) as I1 by (apply inv_create; [exact I|simpl; lia|done]). cbn [total_charge].
  destruct (EvictFromLRU_ok (limits s) s1 P [] [e] m c I1) as (ev & s2 & m2 & Hrun & I2 & Hl & Hlim & Hnext & Hus2 & Hend & Hheap & Hmap & _); [lia|done|].
  change (total_charge h) with c. rewrite (run_bind _ _ _ _ _ Hrun), run_gets. cbn [id]. simpl app in I2. change (limits s1) with (limits s) in Hlim. rewrite <- Hlim in I2. change (invl (limits s2) s2) with (invs s2) in I2.
  assert (e ∉ ev) as Hev.
  { pose proof (i_nodup _ _ _ _ _ _ _ _ _ _ _ I1) as Hnd. apply NoDup_app in Hnd as (_ & Hd & _). intros Hin. apply (Hd e); [rewrite Hl, elem_of_app; by left|]. rewrite !elem_of_app. right. right. right. by left. }
  assert (heap s2 !! e = Some h) as Hh2 by (by rewrite Hheap).
  assert (0 <= usage_ s2) as Hu0 by (rewrite (i_usage _ _ _ _ _ _ _ _ _ _ _ I2); apply csum_nonneg, (inv_charges _ _ _ _ _ _ _ _ _ _ _ I2)).
  assert (usage_ s2 <= usage_ s) as Hule by (pose proof (csum_nonneg (heap s1) ev (inv_charges _ _ _ _ _ _ _ _ _ _ _ I1)); change (usage_ s1) with (usage_ s) in Hus2; lia).
  assert (wadd 64 (usage_ s2) c = usage_ s2 + c) as Hadd2 by (unfold wadd; rewrite wrap_id by (split; lia); done). rewrite Hadd2.
  assert (forall P' s3, invs s3 P' [] ev [] m2 -> exists hp', NotifyEvicted takes ev s3 = Ok (tt, set_heap hp' s3) /\ Inv (set_heap hp' s3) P' m2) as Hnotify.
  { intros P' s3 I3. destruct (NotifyEvicted_ok takes ev s3 P' [] [] m2 ltac:(rewrite app_nil_r; exact I3)) as (hp' & Hrun' & I' & _). eauto. }
  destruct (strict_capacity_limit_ (limits s2) && (capacity_ (limits s2) <? usage_ s2 + c)) eqn:Erej.
  - destruct allow.
    + rewrite bind_assoc, (run_update e _ h), run_ret by done.
      pose proof (inv_pending _ _ _ _ _ _ _ _ _ e (SetCharge 0 h) I2 ltac:(done) Hw) as I3.
      pose proof (inv_standalone _ _ _ _ _ _ _ _ _ e (SetCharge 0 h) I3 ltac:(by rewrite lookup_insert_eq) eq_refl ltac:(simpl; lia)) as I4. cbn [total_charge SetCharge] in I4. rewrite Z.add_0_r in I4.
      destruct (Hnotify (P ++ [e]) (set_heap (<[e := SetCharge 0 h]> (heap s2)) s2)) as (hp' & Hrun' & I').
      { apply I4; [simpl; lia|apply (i_full _ _ _ _ _ _ _ _ _ _ _ I2)]. }
      rewrite (run_bind _ _ _ _ _ Hrun'). eexists (Some e), _, _, m2. split; [reflexivity|]. split; [exact I'|done].
    + destruct (Hnotify P (set_heap (delete e (heap s2)) s2)) as (hp' & Hrun' & I'); [by apply (inv_discard _ _ _ _ _ h I2)|].
      rewrite bind_assoc. rewrite (run_bind (free e) _ s2 tt (set_heap (delete e (heap s2)) s2)) by (unfold free; by rewrite Hh2). rewrite run_ret.
      rewrite (run_bind _ _ _ _ _ Hrun'). eexists None, _, _, m2. split; [reflexivity|]. split; [exact I'|done].
  - unfold add_usage. rewrite bind_assoc, run_modify, run_ret, Hadd2.
    destruct (Hnotify (P ++ [e]) (set_usage (usage_ s2 + c) s2)) as (hp' & Hrun' & I').
    { apply (inv_standalone _ _ _ _ _ _ _ _ _ e h I2 Hh2 eq_refl); [simpl; lia|simpl; lia|]. cbn [total_charge]. rewrite Hlim. destruct Hend as [|]; [by right|by left]. }
    rewrite (run_bind _ _ _ _ _ Hrun'). eexists (Some e), _, _, m2. split; [reflexivity|]. split; [exact I'|done].
Qed.

Lemma new_shard_ok takes c strict hr lr bits :
  0 <= c -> nonneg hr -> nonneg lr -> positive lr = false -> exists s m, new_shard takes c strict hr lr bits = Ok s /\ Inv s [] m /\ capacity_ (limits s) = c.
Proof.
  intros Hc Hh Hl Hp. unfold new_shard. set (s0 := mkShard _ _ _ _ _ _). assert (Inv s0 [] ∅) as I0.
  { split; simpl; try done.
    - exists [], [], []. split; [split|]; simpl; try done; constructor.
    - constructor.
    - intros e. rewrite lookup_empty. split; [by intros [? ?]|by intros ?%elem_of_nil].
    - apply new_table_ok.
    - intros i e. rewrite !lookup_empty. split; [done|]. by intros [?%elem_of_nil _].
    - by left. }
  destruct (SetCapacity_ok takes s0 [] ∅ c I0 Hc) as (s & m & Hrun & I & Hcap). rewrite Hrun. by exists s, m.
Qed.
