(* ===== verification/LruFrame.v ===== *)
(** * What the block cache does to the handles it keeps

    No operation changes the value of a handle or makes a handle it did not
    allocate: [kept] is the relation between the heap before and after, and the
    hints of [frames] carry it through the operations. *)

From S2P Require Import Prelude Words LruTable LruCache.

(** Every handle that is still there holds the value it held, and has no more
    references than it had, or one. *)
Definition kept (s s' : Shard) : Prop :=
  forall e h', heap s' !! e = Some h' -> exists h, heap s !! e = Some h /\ value h' = value h /\ (0 <= refs h -> 0 <= refs h' <= Z.max 1 (refs h)).

#[export] Instance kept_preorder : PreOrder kept.
Proof.
  split.
  - intros s e h Hh. exists h. split_and!; [done|done|lia..].
  - intros s1 s2 s3 H12 H23 e h3 H3. destruct (H23 e h3 H3) as (h2 & H2 & -> & Hr). destruct (H12 e h2 H2) as (h1 & H1 & -> & Hr'). exists h1.
    split_and!; [done|done|lia..].
Qed.

Lemma kept_same s s' : heap s' = heap s -> kept s s'.
Proof. intros Hh e h. rewrite Hh. exists h. split_and!; [done|done|lia..]. Qed.

Lemma frames_modify f : (forall s, heap (f s) = heap s) -> frames kept (modify f).
Proof. intros Hf s a s' [= _ <-]. by apply kept_same. Qed.

Lemma frames_deref e : frames kept (deref e).
Proof. intros s a s'. unfold deref. destruct (heap s !! e); [intros [= _ <-]; reflexivity|done]. Qed.

Lemma kept_update s e h h' :
  heap s !! e = Some h -> value h' = value h -> (0 <= refs h -> 0 <= refs h' <= Z.max 1 (refs h)) -> kept s (set_heap (<[e := h']> (heap s)) s).
Proof.
  intros He Hv Hr x hx. simpl. destruct (decide (x = e)) as [->|Hne].
  - rewrite lookup_insert_eq. intros [= <-]. by exists h.
  - rewrite lookup_insert_ne by done. exists hx. split_and!; [done|done|lia..].
Qed.

Lemma frames_update e f : (forall h, value (f h) = value h /\ refs (f h) = refs h) -> frames kept (update e f).
Proof.
  intros Hf s a s'. unfold update. destruct (heap s !! e) as [h|] eqn:He; [|done]. intros [= _ <-]. apply (kept_update s e h); [done|apply Hf|].
  destruct (Hf h) as [_ ->]. lia.
Qed.

Lemma frames_free e : frames kept (free e).
Proof.
  intros s a s'. unfold free. destruct (heap s !! e) as [h|] eqn:He; [|done]. intros [= _ <-] x hx. simpl.
  rewrite lookup_delete_Some. intros [_ Hx]. exists hx. split_and!; [done|done|lia..].
Qed.

Lemma take_ref_frame e : frames kept (take_ref e).
Proof.
  intros s a s'. unfold take_ref, bind, deref. destruct (heap s !! e) as [h|] eqn:He; [|done]. unfold HasRefs.
  destruct (Z.ltb_spec 0 (refs h)); [intros [= _ <-]; reflexivity|]. unfold update. rewrite He. intros [= _ <-]. apply (kept_update s e h); [done|done|].
  intros H0. cbn [refs IncRefs SetRefs]. assert (refs h = 0) as -> by lia. change (wadd 32 0 1) with 1. lia.
Qed.

#[export] Hint Resolve frames_deref frames_free take_ref_frame : frames.
#[export] Hint Extern 1 (frames kept (modify _)) => apply frames_modify; reflexivity : frames.
#[export] Hint Extern 1 (frames kept (update _ _)) => apply frames_update; split; reflexivity : frames.

Lemma Free_frame e : frames kept (Free e).
Proof. unfold Free. frame. Qed.
Lemma sub_usage_frame c : frames kept (sub_usage c).
Proof. unfold sub_usage. frame. Qed.
Lemma add_usage_frame c : frames kept (add_usage c).
Proof. unfold add_usage. frame. Qed.
Lemma LRU_Remove_kept e : frames kept (LRU_Remove e).
Proof. unfold LRU_Remove. frame. Qed.
Lemma overflow_high_frame n : frames kept (overflow_high n).
Proof. induction n; simpl; frame. Qed.
Lemma overflow_low_frame n : frames kept (overflow_low n).
Proof. induction n; simpl; frame. Qed.
Lemma remove_from_table_frame k h : frames kept (remove_from_table k h).
Proof. unfold remove_from_table. frame. Qed.
Lemma insert_into_table_frame e : frames kept (insert_into_table e).
Proof. unfold insert_into_table. frame. Qed.

#[export] Hint Resolve Free_frame sub_usage_frame add_usage_frame LRU_Remove_kept overflow_high_frame overflow_low_frame
  remove_from_table_frame insert_into_table_frame : frames.

Lemma LRU_Insert_frame e : frames kept (LRU_Insert e).
Proof. unfold LRU_Insert, MaintainPoolSize. frame. Qed.
Lemma evict_oldest_frame e : frames kept (evict_oldest e).
Proof. unfold evict_oldest. frame. Qed.
#[export] Hint Resolve LRU_Insert_frame evict_oldest_frame : frames.

Lemma evict_loop_frame n c d : frames kept (evict_loop n c d).
Proof. revert d. induction n; intros d; simpl; frame. Qed.
Lemma NotifyEvicted_frame takes es : frames kept (NotifyEvicted takes es).
Proof. induction es; simpl; frame. Qed.
#[export] Hint Resolve evict_loop_frame NotifyEvicted_frame : frames.

Lemma InsertItem_frame takes e want : frames kept (InsertItem takes e want).
Proof. unfold InsertItem, EvictFromLRU. frame. Qed.
