(* ===== verification/LruMain.v ===== *)
(** * The block cache, as its clients see it

    The operations of a shard in any order: no assertion of the code fails and
    no freed handle is read (C36), the usage counters are the charges of the
    entries they stand for and the capacity is respected (C37), and what
    [Insert] evicts and [Lookup] finds (C38).  The low-priority pool is turned
    off in these. *)

From Stdlib Require Import SpecFloat.
From S2P Require Import Prelude Words BloomFilter LruTable LruCache LruList LruInv LruSpec LruFrame.

(** ** Clients *)

Inductive cache_op :=
| CInsert (k : list Z) (hash v charge : Z) (want : bool) (pri : Priority)
| CStandalone (k : list Z) (hash v charge : Z) (allow : bool)
| CLookup (k : list Z) (hash : Z)
| CRef (e : Z)
| CRelease (e : Z) (erase : bool)
| CErase (k : list Z) (hash : Z)
| CEraseUnRef
| CSetCapacity (c : Z)
| CSetStrict (b : bool)
| CSetHighRatio (r : spec_float).

Definition after {A} (r : result (A * Shard)) : result Shard := match r with Ok (_, s) => Ok s | Err e => Err e end.

Section client.
Context (takes : LRUHandle -> bool) (meta : Z -> Z).

Definition run_op (o : cache_op) (s : Shard) : result Shard :=
  match o with
  | CInsert k hash v charge want pri => after (Insert takes meta k hash v charge want pri s)
  | CStandalone k hash v charge allow => after (CreateStandalone takes meta k hash v charge allow s)
  | CLookup k hash => after (Lookup k hash s)
  | CRef e => after (Ref e s)
  | CRelease e erase => after (Release e erase s)
  | CErase k hash => after (Erase k hash s)
  | CEraseUnRef => after (EraseUnRefEntries s)
  | CSetCapacity c => after (SetCapacity takes c s)
  | CSetStrict b => after (SetStrictCapacityLimit b s)
  | CSetHighRatio r => after (SetHighPriorityPoolRatio r s)
  end.

(** What a client owes: hashes of 32 bits, a total charge that fits a
    [size_t], a reference to the handles it names, and fewer references to one
    handle than its 32-bit counter holds. *)
Definition referenced (e : Z) (s : Shard) : Prop := exists h, heap s !! e = Some h /\ 0 < refs h.
Definition uncounted (e : Z) (s : Shard) : Prop := forall h, heap s !! e = Some h -> refs h + 1 < 2 ^ 32.
Definition charged (k : list Z) (hash charge : Z) (s : Shard) : Prop :=
  word 32 hash /\ 0 <= charge /\ 0 <= meta (Z.of_nat (length k)) /\ usage_ s + (charge + meta (Z.of_nat (length k))) < 2 ^ 64.
Definition allowed (o : cache_op) (s : Shard) : Prop :=
  match o with
  | CInsert k hash _ charge _ _ => charged k hash charge s /\ GetOccupancyCount s + 1 < 2 ^ 32
  | CStandalone k hash _ charge _ => charged k hash charge s
  | CLookup k hash => word 32 hash /\ forall e h, heap s !! e = Some h -> h_key h = k -> h_hash h = hash -> uncounted e s
  | CErase _ hash => word 32 hash
  | CRef e => referenced e s /\ uncounted e s
  | CRelease e _ => referenced e s
  | CEraseUnRef | CSetStrict _ => True
  | CSetCapacity c => 0 <= c
  | CSetHighRatio r => nonneg r
  end.

(** The states of a shard that was made without a low-priority pool. *)
Inductive reachable : Shard -> Prop :=
| reach_new c strict hr lr bits s :
    0 <= c -> nonneg hr -> nonneg lr -> positive lr = false -> new_shard takes c strict hr lr bits = Ok s -> reachable s
| reach_op o s s' : reachable s -> allowed o s -> run_op o s = Ok s' -> reachable s'.

Lemma referenced_pinned s P m e : Inv s P m -> referenced e s -> e ∈ P.
Proof.
  intros I (h & Hh & Hr). assert (e ∈ lru_ (pools s) ++ P ++ [] ++ [] ++ []) as He by (apply (i_dom _ _ _ _ _ _ _ _ _ _ _ I); by rewrite Hh).
  rewrite !app_nil_r in He. apply elem_of_app in He as [He|]; [|done]. destruct (i_lru _ _ _ _ _ _ _ _ _ _ _ I e h He Hh). lia.
Qed.

Lemma run_op_inv o s P m : Inv s P m -> allowed o s -> exists s' P' m', run_op o s = Ok s' /\ Inv s' P' m'.
Proof.
  intros I Ha. destruct o as [k hash v charge want pri|k hash v charge al|k hash|e|e er|k hash| |c|b|r]; cbn [run_op].
  - destruct Ha as [(Hw & Hc & Hm & Hsm) Hroom]. destruct (Insert_start takes meta s P m k hash v charge want pri I Hw Hc Hm Hsm) as [-> I1].
    destruct (InsertItem_ok takes _ P m (next_ptr s) _ want I1 (lookup_insert_eq _ _ _) eq_refl eq_refl Hroom Hsm) as (st & r & s' & P' & m' & ev & -> & I' & _).
    by eexists s', P', m'.
  - destruct Ha as (Hw & Hc & Hm & Hsm). destruct (CreateStandalone_ok takes meta s P m k hash v charge al I Hw Hc Hm Hsm) as (r & s' & P' & m' & -> & I' & _).
    by eexists s', P', m'.
  - destruct Ha as [Hw Hu]. destruct (Lookup_ok s P m k hash I Hw) as (s' & P' & -> & I' & _); [|by eexists s', P', m].
    intros e h He Hh. apply (i_map _ _ _ _ _ _ _ _ _ _ _ I) in He as (_ & h' & Hh' & _ & [= Hi Hk]). simplify_eq. by eapply Hu.
  - destruct Ha as [Ha Hu]. destruct (Ref_ok s P m e I (referenced_pinned s P m e I Ha) Hu) as (s' & -> & I'). by eexists s', P, m.
  - destruct (Release_ok s P m e er I (referenced_pinned s P m e I Ha)) as (fr & s' & P' & m' & -> & I' & _). by eexists s', P', m'.
  - destruct (Erase_ok s P m k hash I Ha) as (s' & -> & I'). by eexists s', P, _.
  - destruct (EraseUnRefEntries_ok s P m I) as (s' & m' & -> & I' & _). by eexists s', P, m'.
  - destruct (SetCapacity_ok takes s P m c I Ha) as (s' & m' & -> & I' & _). by eexists s', P, m'.
  - destruct (SetStrictCapacityLimit_ok s P m b I) as (s' & -> & I'). by eexists s', P, m.
  - destruct (SetHighPriorityPoolRatio_ok s P m r I Ha) as (s' & -> & I'). by eexists s', P, m.
Qed.

Lemma reachable_inv s : reachable s -> exists P m, Inv s P m.
Proof.
  induction 1 as [c strict hr lr bits s Hc Hh Hl Hp Hrun|o s s' _ (P & m & I) Ha Hrun].
  - destruct (new_shard_ok takes c strict hr lr bits Hc Hh Hl Hp) as (s' & m & Hrun' & I & _). rewrite Hrun in Hrun'. injection Hrun' as <-. by exists [], m.
  - destruct (run_op_inv o s P m I Ha) as (s1 & P' & m' & Hrun' & I'). rewrite Hrun in Hrun'. injection Hrun' as <-. by exists P', m'.
Qed.

End client.

(** ** Charges *)

(** The charges of the handles in memory that satisfy [f]. *)
Definition charge_if (f : LRUHandle -> bool) (h : LRUHandle) : Z := if f h then total_charge h else 0.
Definition charges (f : LRUHandle -> bool) (s : Shard) : Z := foldr Z.add 0 (charge_if f <$> (map_to_list (heap s)).*2).

Lemma sum_perm (l l' : list Z) : l ≡ₚ l' -> foldr Z.add 0 l = foldr Z.add 0 l'.
Proof. induction 1; simpl; lia. Qed.

Lemma sum_app (l k : list Z) : foldr Z.add 0 (l ++ k) = foldr Z.add 0 l + foldr Z.add 0 k.
Proof. induction l as [|x l IH]; simpl; lia. Qed.

(** The handles of a state, listed by their pointers. *)
Lemma charges_of f s es :
  NoDup es -> (forall e, is_Some (heap s !! e) <-> e ∈ es) ->
  charges f s = foldr Z.add 0 ((fun e => match heap s !! e with Some h => charge_if f h | None => 0 end) <$> es).
Proof.
  intros Hnd Hdom. assert ((map_to_list (heap s)).*1 ≡ₚ es) as Hp.
  { apply NoDup_Permutation; [apply NoDup_fst_map_to_list|done|]. intros e. rewrite <- Hdom, list_elem_of_fmap. split.
    - intros ([e' h] & -> & Hin%elem_of_map_to_list). simpl. eauto.
    - intros [h Hh]. exists (e, h). split; [done|by apply elem_of_map_to_list]. }
  unfold charges. rewrite <- (sum_perm _ _ (fmap_Permutation _ _ _ Hp)), <- !list_fmap_compose. f_equal. apply list_fmap_ext.
  intros i [e h] Hi. simpl. apply list_elem_of_lookup_2, elem_of_map_to_list in Hi. by rewrite Hi.
Qed.

Lemma sum_csum f hp es b :
  (forall e h, e ∈ es -> hp !! e = Some h -> f h = b) ->
  foldr Z.add 0 ((fun e => match hp !! e with Some h => charge_if f h | None => 0 end) <$> es) = if b then csum hp es else 0.
Proof.
  induction es as [|e es IH]; intros Hb; [by destruct b|]. rewrite fmap_cons. simpl. rewrite IH by (intros; eapply Hb; [by right|done]).
  unfold charge. destruct (hp !! e) as [h|] eqn:He; [|destruct b; lia]. unfold charge_if. rewrite (Hb e h) by (by left || done). by destruct b.
Qed.

Definition everything (h : LRUHandle) : bool := true.

Lemma charges_split s P m : Inv s P m ->
  charges everything s = usage_ s /\ charges HasRefs s = csum (heap s) P /\ usage_ s = lru_usage_ (pools s) + csum (heap s) P.
Proof.
  intros I. pose proof (i_nodup _ _ _ _ _ _ _ _ _ _ _ I) as Hnd. pose proof (i_dom _ _ _ _ _ _ _ _ _ _ _ I) as Hdom.
  pose proof (i_usage _ _ _ _ _ _ _ _ _ _ _ I) as Hu. simpl in Hnd, Hdom. rewrite app_nil_r in Hnd, Hdom, Hu.
  split_and!.
  - rewrite (charges_of _ _ _ Hnd Hdom), (sum_csum everything _ _ true) by done. by rewrite Hu.
  - rewrite (charges_of _ _ _ Hnd Hdom), fmap_app, sum_app, (sum_csum HasRefs _ P true).
    + rewrite (sum_csum HasRefs _ _ false); [lia|]. intros e h He Hh. destruct (i_lru _ _ _ _ _ _ _ _ _ _ _ I e h He Hh) as [_ Hr]. unfold HasRefs. by rewrite Hr.
    + intros e h He Hh. apply Z.ltb_lt, (i_pin _ _ _ _ _ _ _ _ _ _ _ I e h He Hh).
  - rewrite Hu, csum_app, (i_lru_usage _ _ _ _ _ _ _ _ _ _ _ I). done.
Qed.

(** What a client finds under a key: the value of the handle that [Lookup]
    returns. *)
Definition found (k : list Z) (hash : Z) (s : Shard) : result (option Z) :=
  match Lookup k hash s with
  | Ok (Some e, s') => match heap s' !! e with Some h => Ok (Some (value h)) | None => Err ENull end
  | Ok (None, _) => Ok None
  | Err e => Err e
  end.

Definition unsaturated (s : Shard) : Prop := forall e, uncounted e s.

Lemma found_ok s P m k hash :
  Inv s P m -> word 32 hash -> unsaturated s ->
  found k hash s = Ok (match m !! (hash, k) with Some e => value <$> heap s !! e | None => None end).
Proof.
  intros I Hw Hu. unfold found. destruct (Lookup_ok s P m k hash I Hw) as (s' & P' & -> & _ & H); [intros e h _; apply Hu|]. destruct (m !! (hash, k)) as [e|]; [|done].
  destruct H as (_ & _ & h & h' & -> & -> & Hv & _). simpl. by rewrite Hv.
Qed.

Lemma bool_decide_Zle a b : bool_decide (a <= b) = (a <=? b).
Proof. case_bool_decide; symmetry; [by apply Z.leb_le|by apply Z.leb_gt; lia]. Qed.

(** What [found] reports after an insertion that evicts [ev]: under a key whose
    entry stays, what it reported before. *)
Lemma found_kept s s1 s' P P' m m' k hash (ev : list Z) e0 :
  Inv s P m -> Inv s' P' m' -> word 32 hash -> unsaturated s -> unsaturated s' -> kept s1 s' -> (forall x, x <> e0 -> heap s1 !! x = heap s !! x) -> heap s !! e0 = None ->
  m' !! (hash, k) = match m !! (hash, k) with Some x => if decide (x ∈ ev) then None else Some x | None => None end ->
  found k hash s' = match Lookup k hash s with Ok (Some x, _) => if bool_decide (x ∈ ev) then Ok None else found k hash s | _ => Ok None end.
Proof.
  intros I I' Hw Hu Hu' Hkept Hsame Hnone Hm. rewrite (found_ok s' P' m' k hash I' Hw Hu'), (found_ok s P m k hash I Hw Hu), Hm.
  destruct (Lookup_ok s P m k hash I Hw) as (s2 & P2 & -> & _); [intros e h _; apply Hu|]. destruct (m !! (hash, k)) as [x|] eqn:Ex; [|done].
  destruct (decide (x ∈ ev)) as [Hx|Hx]; [by rewrite bool_decide_true|]. rewrite bool_decide_false by done. f_equal.
  apply (i_map _ _ _ _ _ _ _ _ _ _ _ I) in Ex as (_ & h & Hh & _).
  apply (i_map _ _ _ _ _ _ _ _ _ _ _ I') in Hm as (_ & h' & Hh' & _). rewrite Hh, Hh'. simpl. f_equal.
  destruct (Hkept x h' Hh') as (h1 & Hh1 & -> & _). rewrite Hsame, Hh in Hh1 by congruence. by simplify_eq.
Qed.

Lemma inv_refs s P m e h : Inv s P m -> heap s !! e = Some h -> 0 <= refs h.
Proof.
  intros I Hh. assert (e ∈ lru_ (pools s) ++ P ++ [] ++ [] ++ []) as He by (apply (i_dom _ _ _ _ _ _ _ _ _ _ _ I); by rewrite Hh).
  rewrite !app_nil_r in He. apply elem_of_app in He as [He|He]; [destruct (i_lru _ _ _ _ _ _ _ _ _ _ _ I e h He Hh); lia|].
  pose proof (i_pin _ _ _ _ _ _ _ _ _ _ _ I e h He Hh). lia.
Qed.

Lemma kept_unsaturated s s' : kept s s' -> (forall e h, heap s !! e = Some h -> 0 <= refs h) -> unsaturated s -> unsaturated s'.
Proof. intros Hk H0 Hu e h' Hh'. destruct (Hk e h' Hh') as (h & Hh & _ & Hr). specialize (H0 e h Hh). specialize (Hu e h Hh). lia. Qed.

(** ** Properties *)

(** C36: in every state that a shard without a low-priority pool can reach, an
    operation whose arguments are as its contract demands runs to its end: no
    assertion fails, no freed or null handle is read, and the loops terminate.
    The contract limits the references to one handle to what its 32-bit counter
    holds. *)
Theorem lru_cache_safe takes meta s o : reachable takes meta s -> allowed meta o s -> exists s', run_op takes meta o s = Ok s' /\ reachable takes meta s'.
Proof.
  intros Hr Ha. destruct (reachable_inv takes meta s Hr) as (P & m & I). destruct (run_op_inv takes meta o s P m I Ha) as (s' & _ & _ & Hrun & _).
  exists s'. split; [done|]. by apply (reach_op takes meta o s).
Qed.

(** C37: in every state that a shard without a low-priority pool can reach,
    [GetUsage] is the sum of the charges of all handles in memory,
    [GetPinnedUsage] the sum over the handles that clients hold, its assertion
    never fails, and the usage is above the capacity only while clients hold
    every handle. *)
Theorem lru_usage_accounting takes meta s :
  reachable takes meta s ->
  GetUsage s = charges everything s /\ GetPinnedUsage s = Ok (charges HasRefs s) /\
  (capacity_ (limits s) < GetUsage s -> forall e h, heap s !! e = Some h -> HasRefs h = true).
Proof.
  intros Hr. destruct (reachable_inv takes meta s Hr) as (P & m & I). destruct (charges_split s P m I) as (Hall & Hpin & Hu).
  pose proof (csum_nonneg (heap s) P (inv_charges _ _ _ _ _ _ _ _ _ _ _ I)) as H0. unfold GetUsage, GetPinnedUsage. split_and!.
  - by rewrite Hall.
  - rewrite (proj2 (Z.leb_le _ _)) by lia. f_equal. lia.
  - intros Hover e h Hh. apply Z.ltb_lt, (i_pin _ _ _ _ _ _ _ _ _ _ _ I e h); [|done].
    destruct (i_full _ _ _ _ _ _ _ _ _ _ _ I) as [Hl|]; [|lia]. assert (e ∈ lru_ (pools s) ++ P ++ [] ++ [] ++ []) as He by (apply (i_dom _ _ _ _ _ _ _ _ _ _ _ I); by rewrite Hh).
    rewrite Hl, !app_nil_r in He. done.
Qed.

(** C38: in a shard without a low-priority pool, and with fewer references to
    every handle than its counter holds, [Insert] evicts the oldest unreferenced
    entries, as few as make room and until there is room or none is left; then
    the entry is in the cache under its key, unless it still does not fit
    and the caller wants no handle or the limit is strict; a lookup under
    another key finds what it found before, unless its entry was evicted. *)
Theorem lru_insert_lookup takes meta s k hash v charge want pri :
  reachable takes meta s -> charged meta k hash charge s -> GetOccupancyCount s + 1 < 2 ^ 32 -> unsaturated s ->
  let c := charge + meta (Z.of_nat (length k)) in
  exists st r s' ev rest, Insert takes meta k hash v charge want pri s = Ok ((st, r), s') /\
    lru_ (pools s) = ev ++ rest /\
    (forall ev1 x ev2, ev = ev1 ++ x :: ev2 -> capacity_ (limits s) < GetUsage s - csum (heap s) ev1 + c) /\
    (GetUsage s - csum (heap s) ev + c <= capacity_ (limits s) \/ rest = []) /\
    let inserted := (GetUsage s - csum (heap s) ev + c <=? capacity_ (limits s)) || (want && negb (strict_capacity_limit_ (limits s))) in
    (if inserted then found k hash s' = Ok (Some v) /\ r = (if want then Some (next_ptr s) else None) /\ st <> MemoryLimit
     else r = None /\ st = if want then MemoryLimit else OK) /\
    (forall k' hash', word 32 hash' -> (hash', k') <> (hash, k) \/ inserted = false ->
      found k' hash' s' = match Lookup k' hash' s with Ok (Some x, _) => if bool_decide (x ∈ ev) then Ok None else found k' hash' s | _ => Ok None end).
Proof.
  intros Hr (Hw & Hc & Hm & Hsm) Hroom Hun c. destruct (reachable_inv takes meta s Hr) as (P & m & I).
  destruct (Insert_start takes meta s P m k hash v charge want pri I Hw Hc Hm Hsm) as [-> I1].
  set (h := fresh_handle k hash v (charge + meta (Z.of_nat (length k))) pri) in *. set (s1 := mkShard _ _ _ _ _ _) in *.
  assert (heap s1 !! next_ptr s = Some h) as Hh1 by apply lookup_insert_eq.
  assert (heap s !! next_ptr s = None) as Hnone by (destruct (heap s !! next_ptr s) as [hx|] eqn:E; [apply (i_wf _ _ _ _ _ _ _ _ _ _ _ I) in E; lia|done]).
  assert (forall x, x <> next_ptr s -> heap s1 !! x = heap s !! x) as Hsame by (intros x Hx; by apply lookup_insert_ne).
  destruct (InsertItem_ok takes s1 P m (next_ptr s) h want I1 Hh1 eq_refl eq_refl Hroom Hsm) as (st & r & s' & P' & m' & ev & Hrun & I' & (rest & Hl & Hend) & Hmin & Hres).
  change (lru_ (pools s1)) with (lru_ (pools s)) in Hl.
  assert (forall l, next_ptr s ∉ l -> csum (heap s1) l = csum (heap s) l) as Hsum by (intros l Hnl; by apply csum_out).
  assert (next_ptr s ∉ ev) as Hnew.
  { intros Hin. assert (is_Some (heap s !! next_ptr s)) as [hx Hx]; [|congruence]. apply (i_dom _ _ _ _ _ _ _ _ _ _ _ I). rewrite Hl, !elem_of_app. tauto. }
  pose proof (InsertItem_frame takes (next_ptr s) want _ _ _ Hrun) as Hkept. rewrite Hsum in Hres, Hend by done.
  assert (unsaturated s') as Hun'.
  { apply (kept_unsaturated s1 s' Hkept); intros x; [intros hx|]; (destruct (decide (x = next_ptr s)) as [->|Hx]; [rewrite ?Hh1|rewrite ?Hsame by done]).
    - by intros [= <-].
    - by apply (inv_refs s P m).
    - intros hx Hx. rewrite Hh1 in Hx. injection Hx as <-. done.
    - intros hx Hhx. rewrite Hsame in Hhx by done. by apply (Hun x). } cbn zeta in Hres.
  rewrite bool_decide_Zle in Hres. change (total_charge h) with c in *. change (usage_ s1) with (usage_ s) in *. change (limits s1) with (limits s) in *.
  exists st, r, s', ev, rest. split; [exact Hrun|]. split; [exact Hl|]. split.
  { intros ev1 x ev2 Hev. rewrite <- Hsum; [by apply (Hmin ev1 x ev2)|]. intros Hin. apply Hnew. rewrite Hev. apply elem_of_app. by left. }
  split; [exact Hend|].
  unfold GetUsage. cbn zeta. destruct ((usage_ s - csum (heap s) ev + c <=? capacity_ (limits s)) || _); destruct Hres as (Hm' & -> & -> & Hst); split; try done.
  - split; [|done]. rewrite (found_ok s' _ m' k hash I' Hw Hun'), Hm', decide_True by done. assert (m' !! (hash, k) = Some (next_ptr s)) as Hin by by rewrite Hm', decide_True.
    apply (i_map _ _ _ _ _ _ _ _ _ _ _ I') in Hin as (_ & h' & Hh' & _). rewrite Hh'. simpl. destruct (Hkept _ h' Hh') as (h0 & Hh0 & -> & _). rewrite Hh1 in Hh0. by simplify_eq.
  - intros k' hash' Hw' [Hne|]; [|done]. eapply (found_kept s s1 s' P _ m m' k' hash' ev (next_ptr s)); try done. by rewrite Hm', decide_False.
  - intros k' hash' Hw' _. by eapply (found_kept s s1 s' P _ m m' k' hash' ev (next_ptr s)).
Qed.

(** ** A concrete shard *)

Module Example.

Definition never (h : LRUHandle) : bool := false.
Definition free_meta (n : Z) : Z := 0.
Definition half : spec_float := SFdiv 53 1024 (double_of 1) (double_of 2).
Definition quarter : spec_float := SFdiv 53 1024 (double_of 1) (double_of 4).
Definition zero : spec_float := S754_zero false.

(** [shard ops low]: a shard of capacity 100 after [ops]. *)
Fixpoint run_ops (ops : list cache_op) (s : Shard) : result Shard :=
  match ops with
  | [] => Ok s
  | o :: ops => match run_op never free_meta o s with Ok s => run_ops ops s | Err e => Err e end
  end.
Definition shard (low : spec_float) (ops : list cache_op) : result Shard :=
  match new_shard never 100 false half low 28 with Ok s => run_ops ops s | Err e => Err e end.

Definition fill : list cache_op := [CInsert [1] 11 5 40 false HIGH; CInsert [2] 22 6 50 true LOW].

(** The shard, and the shard with an unreferenced and a pinned entry. *)
Definition start : Shard := match shard zero [] with Ok s => s | Err _ => mkShard (mkLimits 0 false zero zero zero zero) (mkPools [] None None 0 0 0) (new_table 0) 0 ∅ 1 end.
Definition one : Shard := match run_op never free_meta (CInsert [1] 11 5 40 false HIGH) start with Ok s => s | Err _ => start end.
Definition two : Shard := match run_op never free_meta (CInsert [2] 22 6 50 true LOW) one with Ok s => s | Err _ => one end.

Lemma start_reachable : reachable never free_meta start.
Proof. apply (reach_new never free_meta 100 false half zero 28); [lia|exact I|exact I|reflexivity|vm_compute; reflexivity]. Qed.

Lemma one_reachable : reachable never free_meta one.
Proof.
  apply (reach_op never free_meta (CInsert [1] 11 5 40 false HIGH) start); [apply start_reachable| |vm_compute; reflexivity].
  vm_compute. intuition congruence.
Qed.

Lemma two_reachable : reachable never free_meta two.
Proof.
  apply (reach_op never free_meta (CInsert [2] 22 6 50 true LOW) one); [apply one_reachable| |vm_compute; reflexivity].
  vm_compute. intuition congruence.
Qed.

Lemma two_unsaturated : unsaturated two.
Proof.
  assert (map_Forall (fun _ h => refs h + 1 < 2 ^ 32) (heap two)) as H by (apply (bool_decide_unpack _); vm_compute; exact I).
  intros e h. apply H.
Qed.

Lemma two_full : GetUsage two = 90 /\ GetPinnedUsage two = Ok 50.
Proof. split; vm_compute; reflexivity. Qed.

End Example.

(** ** Witnesses *)

(** C36 at a shard with an unreferenced and a pinned entry. *)
Lemma lru_cache_safe_witness :
  exists s', run_op Example.never Example.free_meta (CLookup [1] 11) Example.two = Ok s' /\ reachable Example.never Example.free_meta s'.
Proof. apply (lru_cache_safe Example.never Example.free_meta Example.two (CLookup [1] 11)); [apply Example.two_reachable|]. split; [split; lia|intros e h _ _ _; apply Example.two_unsaturated]. Defined.

(** C37 at the same shard: 90 in use, 50 of it pinned. *)
Lemma lru_usage_accounting_witness :
  GetUsage Example.two = charges everything Example.two /\ GetPinnedUsage Example.two = Ok (charges HasRefs Example.two) /\
  (capacity_ (limits Example.two) < GetUsage Example.two -> forall e h, heap Example.two !! e = Some h -> HasRefs h = true).
Proof. apply (lru_usage_accounting Example.never Example.free_meta Example.two), Example.two_reachable. Defined.

(** C38: a third entry that needs the place of the first. *)
Lemma lru_insert_lookup_witness :
  exists st r s' ev rest, Insert Example.never Example.free_meta [3] 33 7 45 false LOW Example.two = Ok ((st, r), s') /\ lru_ (pools Example.two) = ev ++ rest /\
    (GetUsage Example.two - csum (heap Example.two) ev + 45 <=? capacity_ (limits Example.two) = true -> found [3] 33 s' = Ok (Some 7)).
Proof.
  destruct (lru_insert_lookup Example.never Example.free_meta Example.two [3] 33 7 45 false LOW Example.two_reachable) as (st & r & s' & ev & rest & Hrun & Hl & _ & _ & Hin & _);
    [vm_compute; intuition congruence|vm_compute; reflexivity|apply Example.two_unsaturated|].
  exists st, r, s', ev, rest. split; [exact Hrun|]. split; [exact Hl|]. intros Hfit. change (45 + Example.free_meta _) with 45 in Hin. rewrite Hfit in Hin. apply Hin.
Defined.
