(* ===== verification/LruPools.v ===== *)
(** * The pools after a change of the capacity

    [SetCapacity] changes the capacities of the pools without moving entries
    between them, so the high-priority pool may be left larger than its
    capacity.  [LRU_Insert] of a low-priority entry then calls
    [MaintainPoolSize] before it moves [lru_low_pri_] to the new entry: the loop
    takes the new entry, which is not in the high-priority pool, for its first
    entry, and subtracts its charge from the usage of that pool. *)

From Stdlib Require Import SpecFloat.
From S2P Require Import Prelude Words BloomFilter LruTable LruCache LruList LruInv LruMain.

(** The charges of the listed entries that are in the high-priority pool. *)
Definition high_charge (m : gmap Z LRUHandle) (e : Z) : Z :=
  match m !! e with Some h => if in_high_pri_pool h then total_charge h else 0 | None => 0 end.
Fixpoint high_sum (m : gmap Z LRUHandle) (l : list Z) : Z := match l with [] => 0 | e :: l => high_charge m e + high_sum m l end.

Lemma high_sum_app m l k : high_sum m (l ++ k) = high_sum m l + high_sum m k.
Proof. induction l as [|e l IH]; simpl; [done|]. rewrite IH. lia. Qed.

Lemma high_sum_flag m a b l : Forall (flag_ok m a b) l -> high_sum m l = if a then csum m l else 0.
Proof.
  induction 1 as [|e l (h & Hh & Ha & _) _ IH]; [by destruct a|]. simpl. rewrite IH. unfold high_charge, charge. rewrite Hh, Ha. by destruct a.
Qed.

(** Taking the first entry out, if no assertion fails. *)
Lemma LRU_Remove_head e l h s :
  lru_ (pools s) = e :: l -> heap s !! e = Some h -> 0 <= high_pri_pool_usage_ (pools s) ->
  LRU_Remove e s = Err EAssert \/
  exists low bot lo u, let hi := high_pri_pool_usage_ (pools s) - high_charge (heap s) e in
    LRU_Remove e s = Ok (tt, set_pools (mkPools l low bot hi lo u) s) /\ 0 <= hi.
Proof.
  intros Hl Hh H0. unfold LRU_Remove. rewrite (run_deref e h) by done. rewrite run_gets. unfold high_charge. rewrite Hh.
  rewrite Hl, bool_decide_true by by left. unfold unlink. rewrite Z.eqb_refl. unfold bind, assert, modify.
  destruct (total_charge h <=? lru_usage_ _); [|by left]. destruct (in_high_pri_pool h), (in_low_pri_pool h); cbn [negb orb]; [by left| | |].
  - destruct (Z.leb_spec (total_charge h) (high_pri_pool_usage_ (pools s))); [|by left]. right. do 4 eexists. split; [done|lia].
  - destruct (_ <=? low_pri_pool_usage_ _); [|by left]. right. do 4 eexists. rewrite Z.sub_0_r. by split.
  - right. do 4 eexists. rewrite Z.sub_0_r. by split.
Qed.

Definition hashed (m : gmap Z LRUHandle) (e : Z) : Prop := exists h, m !! e = Some h /\ word 32 (h_hash h).

(** Changing the cache flag of an entry moves nothing between the pools. *)
Lemma hashed_uncache m e h l : m !! e = Some h -> Forall (hashed m) l -> Forall (hashed (<[e := SetInCache false h]> m)) l.
Proof.
  intros He Hall. apply (Forall_impl _ _ _ Hall). intros x (hx & Hx & Hw). unfold hashed. destruct (decide (x = e)) as [->|Hne].
  - simplify_eq. exists (SetInCache false h). by rewrite lookup_insert_eq.
  - exists hx. by rewrite lookup_insert_ne.
Qed.

Lemma high_sum_uncache m e h l : m !! e = Some h -> high_sum (<[e := SetInCache false h]> m) l = high_sum m l.
Proof.
  intros He. induction l as [|x l IH]; [done|]. simpl. rewrite IH. f_equal. unfold high_charge. destruct (decide (x = e)) as [->|Hne].
  - by rewrite lookup_insert_eq, He.
  - by rewrite lookup_insert_ne.
Qed.

(** A pool that records less than the charges of its entries: erasing all
    entries fails an assertion, at the latest for the last entry of the pool. *)
Lemma erase_fails fuel l s m del :
  lru_ (pools s) = l -> Forall (hashed (heap s)) l -> table_ok (table_ s) m -> (length l < fuel)%nat ->
  0 <= high_pri_pool_usage_ (pools s) < high_sum (heap s) l -> erase_unref_loop fuel del s = Err EAssert.
Proof.
  revert l s m del. induction fuel as [|fuel IH]; intros l s m del Hl Hall Ht Hf Hlt; [lia|]. destruct l as [|e l]; cbn [high_sum] in Hlt; [lia|].
  cbn [erase_unref_loop]. rewrite run_gets, Hl. inversion_clear Hall as [|? ? (h & Hh & Hw) Hall']. unfold evict_oldest.
  rewrite !bind_assoc, (run_deref e h) by done. rewrite bind_assoc. destruct (in_cache h && negb (HasRefs h)); [|done]. rewrite run_assert, bind_assoc by done.
  destruct (LRU_Remove_head e l h s Hl Hh ltac:(lia)) as [Hr|(low & bot & lo & u & Hr & H0)]; [unfold bind at 1; by rewrite Hr|].
  rewrite (run_bind _ _ _ _ _ Hr). unfold remove_from_table. rewrite !bind_assoc, run_gets. cbn [set_pools table_].
  destruct (table_remove_ok (table_ s) m (h_key h) (h_hash h) Ht Hw) as (t' & Hrun & Ht').
  unfold lift. rewrite Hrun, bind_assoc. erewrite run_bind by reflexivity. rewrite bind_assoc, run_modify, run_ret, bind_assoc, (run_update e _ h) by done.
  unfold sub_usage. rewrite !bind_assoc, run_gets, bind_assoc. destruct (total_charge h <=? _); [|done]. rewrite run_assert, run_modify by done.
  eapply (IH l); [done|by apply hashed_uncache|exact Ht'|simpl in Hf; lia|].
  cbn [set_usage set_table set_pools set_heap pools heap high_pri_pool_usage_]. rewrite high_sum_uncache by done. lia.
Qed.

(** ** The loops *)

(** The pools with [c] moved from the low to the high usage. *)
Definition restored (c : Z) (p : Pools) : Pools :=
  mkPools (lru_ p) (lru_low_pri_ p) (lru_bottom_pri_ p) (high_pri_pool_usage_ p + c) (low_pri_pool_usage_ p - c) (lru_usage_ p).

(** The lists are right and the usage of the high pool is too small by [c]. *)
Definition short (c : Z) (p : Pools) (m : gmap Z LRUHandle) (B L H : list Z) : Prop :=
  seg (restored c p) m B L H /\ 0 <= high_pri_pool_usage_ p.

Lemma charges_flag m e h a b : charges_ok m -> m !! e = Some h -> charges_ok (<[e := SetPools a b h]> m).
Proof.
  intros Hc He x hx Hx. destruct (decide (x = e)) as [->|Hne]; [rewrite lookup_insert_eq in Hx; simplify_eq; by apply (Hc e h)|].
  rewrite lookup_insert_ne in Hx by done. by apply (Hc x).
Qed.

Lemma short_high fuel c s B L H :
  short c (pools s) (heap s) B L H -> charges_ok (heap s) -> 0 < c -> csum (heap s) (B ++ L ++ H) + c < 2 ^ 64 -> (length H < fuel)%nat ->
  overflow_high fuel s = Err EAssert \/
  exists p' m' L' H', overflow_high fuel s = Ok (tt, set_pools p' (set_heap m' s)) /\ short c p' m' B L' H' /\ flags_only (heap s) m' /\ lru_ p' = lru_ (pools s).
Proof.
  revert s L H. induction fuel as [|fuel IH]; intros s L H [Hseg H0] Hc Hpos Hsum Hf; [lia|]. cbn [overflow_high]. rewrite !run_gets.
  pose proof Hseg as [[Hl Hnd Hbot HB HL HH Hhi Hlo] Hlow]. cbn [restored lru_ lru_low_pri_ high_pri_pool_usage_ low_pri_pool_usage_] in Hl, Hhi, Hlo, Hlow.
  destruct (SFltb _ _); [|right; exists (pools s), (heap s), L, H; split_and!; [by destruct s|done|apply flags_only_refl|done]].
  assert (next_of (lru_low_pri_ (pools s)) (lru_ (pools s)) = head H) as -> by (rewrite Hlow, Hl, app_assoc; by rewrite next_of_split by (by rewrite <- app_assoc)).
  destruct H as [|e H']; [by left|]. cbn [head].
  destruct (Forall_inv HH) as (h & He & _). rewrite (run_update e _ h) by done. rewrite (run_deref e (SetPools false true h)) by (simpl; by rewrite lookup_insert_eq).
  cbn [total_charge SetPools]. destruct (Z.leb_spec (total_charge h) (high_pri_pool_usage_ (pools s))) as [Hle|]; [|by left].
  rewrite run_assert, run_modify by done. pose proof (charge_lookup _ _ _ He) as Hce. pose proof (Hc e h He). rewrite !csum_app in Hsum. simpl in Hsum.
  pose proof (csum_nonneg (heap s) H' Hc). pose proof (csum_nonneg (heap s) B Hc). pose proof (csum_nonneg (heap s) L Hc).
  pose proof (seg_overflow_high _ _ B L e H' h Hseg He ltac:(cbn [restored low_pri_pool_usage_]; lia) Hc) as Hseg'.
  match goal with |- overflow_high fuel ?t = _ \/ _ => set (s1 := t) end.
  destruct (IH s1 (L ++ [e]) H') as [|(p' & m' & L' & H'' & Hrun & Hs & Hc' & Hlr)]; [|by apply charges_flag|done| |simpl in Hf; lia|by left|].
  - split; [|simpl; lia]. cbn [restored lru_ lru_low_pri_ lru_bottom_pri_ high_pri_pool_usage_ low_pri_pool_usage_ lru_usage_] in Hseg'.
    unfold restored. cbn [s1 set_pools pools heap set_heap lru_ lru_low_pri_ lru_bottom_pri_ high_pri_pool_usage_ low_pri_pool_usage_ lru_usage_].
    unfold wadd in *. rewrite wrap_id in Hseg' by (split; lia). rewrite wrap_id by (split; lia).
    replace (high_pri_pool_usage_ (pools s) - total_charge h + c) with (high_pri_pool_usage_ (pools s) + c - total_charge h) by lia.
    replace (low_pri_pool_usage_ (pools s) + total_charge h - c) with (low_pri_pool_usage_ (pools s) - c + total_charge h) by lia.
    exact Hseg'.
  - cbn [s1 set_pools set_heap heap]. rewrite (flags_only_csum (heap s)) by by apply flags_only_insert. rewrite !csum_app. simpl. lia.
  - right. exists p', m', L', H''. split_and!; [exact Hrun|done| |by rewrite Hlr]. eapply flags_only_trans; [by apply flags_only_insert|exact Hc'].
Qed.

Lemma short_low fuel c s B L H :
  short c (pools s) (heap s) B L H -> charges_ok (heap s) -> SFltb (low_pri_pool_capacity_ (limits s)) (double_of c) = false -> (length L < fuel)%nat -> 0 < c ->
  exists p' m' B' L', overflow_low fuel s = Ok (tt, set_pools p' (set_heap m' s)) /\ short c p' m' B' L' H /\ flags_only (heap s) m' /\ lru_ p' = lru_ (pools s).
Proof.
  revert s B L. induction fuel as [|fuel IH]; intros s B L [Hseg H0] Hc Hcap Hf Hpos; [lia|]. cbn [overflow_low]. rewrite !run_gets.
  pose proof Hseg as [Hseg0 Hlow]. pose proof Hseg0 as [Hl Hnd Hbot HB HL HH Hhi Hlo].
  cbn [restored lru_ lru_bottom_pri_ lru_low_pri_ high_pri_pool_usage_ low_pri_pool_usage_] in Hl, Hbot, Hhi, Hlo, Hlow.
  destruct (SFltb _ (double_of (low_pri_pool_usage_ _))) eqn:Eo; [|exists (pools s), (heap s), B, L; split_and!; [by destruct s|done|apply flags_only_refl|done]].
  destruct L as [|e L']; [simpl in Hlo; assert (low_pri_pool_usage_ (pools s) = c) as Hlc by lia; congruence|].
  assert (next_of (lru_bottom_pri_ (pools s)) (lru_ (pools s)) = Some e) as -> by (rewrite Hbot, Hl; by rewrite next_of_split).
  destruct (Forall_inv HL) as (h & He & _). rewrite (run_update e _ h) by done. rewrite (run_deref e (SetPools false false h)) by (simpl; by rewrite lookup_insert_eq).
  cbn [total_charge SetPools]. pose proof (charge_lookup _ _ _ He) as Hce. pose proof (csum_nonneg (heap s) L' Hc). simpl in Hlo.
  rewrite run_assert by (apply Z.leb_le; lia). rewrite run_modify.
  pose proof (seg_overflow_low _ _ B e L' H h Hseg0 He Hc) as Hseg'.
  match goal with |- exists p' m' B' L'', overflow_low fuel ?t = _ /\ _ => set (s1 := t) end.
  destruct (IH s1 (B ++ [e]) L') as (p' & m' & B' & L'' & Hrun & Hs & Hc' & Hlr); [|by apply charges_flag|done|simpl in Hf; lia|done|].
  - split; [|done]. split; [|simpl; by rewrite <- app_assoc].
    cbn [restored lru_ lru_low_pri_ lru_bottom_pri_ high_pri_pool_usage_ low_pri_pool_usage_ lru_usage_] in Hseg'.
    unfold restored. cbn [s1 set_pools pools heap set_heap lru_ lru_low_pri_ lru_bottom_pri_ high_pri_pool_usage_ low_pri_pool_usage_ lru_usage_].
    replace (low_pri_pool_usage_ (pools s) - total_charge h - c) with (low_pri_pool_usage_ (pools s) - c - total_charge h) by lia. exact Hseg'.
  - exists p', m', B', L''. split_and!; [exact Hrun|done| |by rewrite Hlr]. eapply flags_only_trans; [by apply flags_only_insert|exact Hc'].
Qed.

(** [MaintainPoolSize] on pools whose new entry [e] is not behind [lru_low_pri_]. *)
Lemma maintain_short s e h B L H :
  seg0 (pools s) (heap s) B (L ++ [e]) H -> lru_low_pri_ (pools s) = last (B ++ L) -> heap s !! e = Some h -> charges_ok (heap s) ->
  0 < total_charge h -> csum (heap s) (B ++ (L ++ [e]) ++ H) + total_charge h < 2 ^ 64 ->
  SFltb (high_pri_pool_capacity_ (limits s)) (double_of (high_pri_pool_usage_ (pools s))) = true ->
  SFltb (low_pri_pool_capacity_ (limits s)) (double_of (total_charge h)) = false ->
  MaintainPoolSize s = Err EAssert \/
  exists p' m' B' L' H', MaintainPoolSize s = Ok (tt, set_pools p' (set_heap m' s)) /\ short (total_charge h) p' m' B' L' H' /\
    flags_only (heap s) m' /\ lru_ p' = lru_ (pools s).
Proof.
  intros Hseg Hlow He Hc Hpos Hsum Hover Hfit. pose proof Hseg as [Hl Hnd Hbot HB HL HH Hhi Hlo]. unfold MaintainPoolSize. rewrite run_gets.
  cbn [overflow_high]. rewrite bind_assoc, run_gets, bind_assoc, run_gets, Hover.
  assert (next_of (lru_low_pri_ (pools s)) (lru_ (pools s)) = Some e) as ->.
  { rewrite Hlow, Hl, <- (app_assoc L), app_assoc. apply next_of_split. by rewrite <- !app_assoc, app_assoc in *. }
  rewrite bind_assoc, (run_update e _ h) by done. rewrite bind_assoc, (run_deref e (SetPools false true h)) by (simpl; by rewrite lookup_insert_eq).
  cbn [total_charge SetPools]. rewrite bind_assoc. destruct (Z.leb_spec (total_charge h) (high_pri_pool_usage_ (pools s))) as [Hle|]; [|by left].
  rewrite run_assert by done. rewrite bind_assoc, run_modify. rewrite !csum_app in Hsum. simpl in Hsum. rewrite (charge_lookup _ _ _ He) in Hsum.
  pose proof (csum_nonneg (heap s) B Hc). pose proof (csum_nonneg (heap s) L Hc). pose proof (csum_nonneg (heap s) H Hc).
  assert (SetPools false true h = h) as Hsame.
  { apply Forall_app in HL as [_ HL]. destruct (Forall_inv HL) as (h' & Hh' & Ha & Hb). simplify_eq. destruct h; simpl in *. by rewrite Ha, Hb. }
  rewrite Hsame, (insert_id (heap s)) by done. replace (set_heap (heap s) s) with s by by destruct s.
  set (s1 := set_pools _ s). assert (short (total_charge h) (pools s1) (heap s1) B (L ++ [e]) H) as Hs1.
  { split; [|simpl; lia]. unfold restored. cbn [s1 set_pools pools heap lru_ lru_low_pri_ lru_bottom_pri_ high_pri_pool_usage_ low_pri_pool_usage_ lru_usage_].
    unfold wadd. rewrite wrap_id by (rewrite Hlo, csum_app; simpl; rewrite (charge_lookup _ _ _ He); split; lia).
    split; [split; cbn; try done; lia|]. cbn. by rewrite app_assoc, last_snoc. }
  destruct (short_high (length (lru_ (pools s))) (total_charge h) s1 B (L ++ [e]) H Hs1 Hc Hpos) as [Hr|(p2 & m2 & L2 & G2 & Hr & Hs2 & Hc2 & Hlr)].
  - cbn. rewrite !csum_app. simpl. rewrite (charge_lookup _ _ _ He). lia.
  - rewrite Hl, !length_app. simpl. lia.
  - left. unfold bind at 1. by rewrite Hr.
  - right. rewrite (run_bind _ _ _ _ _ Hr). pose proof Hs2 as [[[Hl2 _ _ _ _ _ _ _] _] _]. cbn in Hl2. rewrite Hlr in Hl2. cbn in Hl2.
    destruct (short_low (S (length (lru_ (pools s)))) (total_charge h) (set_pools p2 (set_heap m2 s1)) B L2 G2 Hs2 (flags_only_charges _ _ Hc2 Hc) Hfit) as (p3 & m3 & B3 & L3 & Hrun & Hs3 & Hf3 & Hlr3).
    + rewrite Hl2, !length_app. lia.
    + done.
    + exists p3, m3, B3, L3, G2. split_and!; [exact Hrun|done|by eapply flags_only_trans|by rewrite Hlr3].
Qed.

Section low_insert.
Context (s : Shard) (e : Z) (h : LRUHandle) (B L H : list Z) (m : gmap (Z * list Z) Z).
Context (Hseg : seg (pools s) (heap s) B L H) (Hc : charges_ok (heap s)) (Ht : table_ok (table_ s) m).
Context (He : heap s !! e = Some h) (Hn : e ∉ lru_ (pools s)) (Hw : Forall (hashed (heap s)) (e :: lru_ (pools s))).
Context (Hpos : 0 < total_charge h) (Hsum : csum (heap s) (e :: lru_ (pools s)) + total_charge h < 2 ^ 64).
Context (Hlowpri : is_high_pri h || has_hit h = false /\ is_low_pri h = true) (Hratio : positive (low_pri_pool_ratio_ (limits s)) = true).
Context (Hover : SFltb (high_pri_pool_capacity_ (limits s)) (double_of (high_pri_pool_usage_ (pools s))) = true).
Context (Hfit : SFltb (low_pri_pool_capacity_ (limits s)) (double_of (total_charge h)) = false).

(** [LRU_Insert] stops at an assertion or leaves the usage of the high pool too
    small by the charge of the new entry. *)
Lemma low_insert_short :
  LRU_Insert e s = Err EAssert \/
  exists p' m', LRU_Insert e s = Ok (tt, set_pools p' (set_heap m' s)) /\ 0 <= high_pri_pool_usage_ p' /\
    high_pri_pool_usage_ p' + total_charge h = high_sum m' (lru_ p') /\ Forall (hashed m') (lru_ p').
Proof.
  destruct Hlowpri as [Hp1 Hp2]. unfold LRU_Insert. rewrite (run_deref e h) by done. rewrite !run_gets, run_assert by (by rewrite bool_decide_false).
  assert (is_high_pri h || is_low_pri h || has_hit h = true) as -> by (rewrite Hp2; by destruct (is_high_pri h)).
  rewrite Hp1, andb_false_r, Hratio. cbn [andb]. rewrite bind_assoc, (run_update e _ h), bind_assoc, run_modify, bind_assoc by done.
  destruct (insert_low_seg0 s e h B L H Hseg Hc He Hn ltac:(lia)) as [Hs1 Hins]. pose proof (flags_only_insert (heap s) e h false true He) as Hf1.
  match goal with |- bind MaintainPoolSize _ ?t = _ \/ _ => set (s1 := t) end. pose proof Hseg as [[Hl _ _ _ _ _ _ _] Hlow].
  destruct (maintain_short s1 e (SetPools false true h) B L H Hs1 Hlow) as [Hr|(p2 & m2 & B2 & L2 & H2 & Hr & [[Hs2 _] H0] & Hf2 & Hl2)].
  - simpl. by rewrite lookup_insert_eq.
  - by apply (flags_only_charges (heap s)).
  - done.
  - cbn [s1 set_pools set_heap heap]. rewrite (flags_only_csum (heap s)) by done. rewrite Hl in Hsum. simpl in Hsum |- *. rewrite !csum_app in *. simpl. lia.
  - exact Hover.
  - exact Hfit.
  - left. unfold bind at 1. by rewrite Hr.
  - right. rewrite (run_bind _ _ _ _ _ Hr), run_modify. eexists _, m2. split; [reflexivity|]. split; [exact H0|]. cbn [set_pools pools lru_ high_pri_pool_usage_].
    destruct Hs2 as [Hl3 _ _ HB HL HH Hhi _]. cbn in Hl3, Hhi. split.
    + rewrite Hl3, !high_sum_app. rewrite (high_sum_flag _ _ _ _ HB), (high_sum_flag _ _ _ _ HL), (high_sum_flag _ _ _ _ HH). simpl. rewrite <- Hhi. done.
    + rewrite Hl2. cbn [s1 set_pools pools lru_]. rewrite Hins. apply Forall_forall. intros x Hx.
      assert (x ∈ e :: lru_ (pools s)) as Hx' by (rewrite Hl; set_solver). rewrite Forall_forall in Hw. destruct (Hw x Hx') as (hx & Hhx & Hwx).
      destruct (flags_only_lookup_1 _ _ _ _ (flags_only_trans _ _ _ Hf1 Hf2) Hhx) as (a & b & Hx2). by exists (SetPools a b hx).
Qed.

(** C39. A shard with a low-priority pool whose high-priority pool has outgrown
    its capacity, as [SetCapacity] leaves it: if the next entry that becomes
    unreferenced is a low-priority one that fits its pool, [LRU_Insert] fails an
    assertion or records for the high-priority pool less than its entries
    weigh, by the charge of the new entry; and then [EraseUnRefEntries] fails an
    assertion. *)
Theorem lru_low_insert_breaks_pools :
  (forall s', LRU_Insert e s = Ok (tt, s') -> high_pri_pool_usage_ (pools s') + total_charge h = high_sum (heap s') (lru_ (pools s'))) /\
  (LRU_Insert e ;;; EraseUnRefEntries) s = Err EAssert.
Proof.
  destruct low_insert_short as [Hr|(p' & m' & Hr & H0 & Hhi & Hall)]; [unfold bind; rewrite Hr; by split|]. split.
  - intros s' Hs'. rewrite Hr in Hs'. by injection Hs' as <-.
  - rewrite (run_bind _ _ _ _ _ Hr). unfold EraseUnRefEntries. rewrite run_gets. unfold bind. erewrite erase_fails; [done|done|done|exact Ht|lia|].
    cbn [set_pools set_heap pools heap]. lia.
Qed.
End low_insert.

(** ** A concrete shard *)

(** A high-priority entry of 40 in a shard of capacity 100, half of it for that
    pool, whose capacity is lowered to 60; and a low-priority entry of 10 that
    has not been inserted yet. *)
Definition lowered : Shard :=
  match Example.shard Example.quarter [CInsert [1] 11 5 40 false HIGH; CSetCapacity 60] with Ok s => s | Err _ => Example.start end.
Definition pending : Shard :=
  match (e <- CreateHandle Example.free_meta [2] 22 6 10 ;; update e (SetPriority LOW)) lowered with Ok (_, s) => s | Err _ => lowered end.

Lemma pending_seg : seg (pools pending) (heap pending) [] [] [1].
Proof.
  split; [split|]; try (vm_compute; reflexivity).
  - apply NoDup_singleton.
  - constructor.
  - constructor.
  - constructor; [|constructor]. eexists. split; [vm_compute; reflexivity|done].
Qed.

Lemma pending_charges : charges_ok (heap pending).
Proof.
  assert (map_Forall (fun _ h => 0 <= total_charge h) (heap pending)) as H by (apply (bool_decide_unpack _); vm_compute; exact I).
  intros x h. apply H.
Qed.

Lemma pending_table : table_ok (table_ pending) {[(11, [1]) := 1]}.
Proof.
  destruct (table_insert_ok (new_table 28) ∅ (mkEntry 1 11 [1])) as (t' & Hr & Hok); [apply new_table_ok|split; vm_compute; congruence|done|].
  vm_compute in Hr. injection Hr as <-. exact Hok.
Qed.

(** C39 at this shard. *)
Lemma lru_low_insert_breaks_pools_witness :
  (exists s, LRU_Insert 2 pending = Ok (tt, s) /\ high_pri_pool_usage_ (pools s) + 10 = high_sum (heap s) (lru_ (pools s))) /\
  (LRU_Insert 2 ;;; EraseUnRefEntries) pending = Err EAssert.
Proof.
  destruct (lru_low_insert_breaks_pools pending 2 (mkHandle 6 [2] 22 10 0 false false false false false true false) [] [] [1] {[(11, [1]) := 1]}
    pending_seg pending_charges pending_table) as [H1 H2].
  1, 5-9: vm_compute; auto.
  - apply (bool_decide_unpack _). vm_compute. exact I.
  - repeat constructor; eexists; (split; [vm_compute; reflexivity|split; vm_compute; congruence]).
  - reflexivity.
  - split; [|exact H2]. destruct (LRU_Insert 2 pending) as [[[] s]|err] eqn:Er; [exists s; split; [done|by apply H1]|].
    exfalso. revert Er. vm_compute. discriminate.
Defined.
