(* ===== verification/BPlusTree.v ===== *)
(** * The on-disk B+ tree of bplustree/lib: data, cache and operations

    A transliteration of [bplustree.c].  A [struct bplus_node *] is the index
    of one of the [MIN_CACHE_NUM] block buffers of the tree, a null pointer is
    [None]; the index file is a map from block offsets to blocks. *)

From S2P Require Import Prelude.

(** ** Constants and the globals set by [bplus_tree_init] *)

Definition INVALID_OFFSET : Z := 0xdeadbeef.
Definition BPLUS_TREE_LEAF : Z := 0.
Definition BPLUS_TREE_NON_LEAF : Z := 1.
Definition LEFT_SIBLING : Z := 0.
Definition RIGHT_SIBLING : Z := 1.
Definition MIN_CACHE_NUM : nat := 5.

(** [_block_size], [_max_entries], [_max_order]. *)
Class Config := mkConfig {
  _block_size : Z;
  _max_entries : Z;
  _max_order : Z
}.

(** ** Nodes and trees *)

(** A block: the header fields, the cells [key(node)[]], and the cells
    [data(node)[]] of a leaf or [sub(node)[]] of a non-leaf. *)
Record bplus_node := mkNode {
  n_self : Z;
  n_parent : Z;
  n_prev : Z;
  n_next : Z;
  n_type : Z;
  n_children : Z;
  n_key : list Z;
  n_val : list Z
}.

Record bplus_tree := mkTree {
  t_caches : list bplus_node;
  t_used : list bool;
  t_fd : gmap Z bplus_node;
  t_level : Z;
  t_root : Z;
  t_file_size : Z;
  t_free_blocks : list Z
}.

Definition set_self (v : Z) (n : bplus_node) : bplus_node :=
  mkNode v (n_parent n) (n_prev n) (n_next n) (n_type n) (n_children n) (n_key n) (n_val n).
Definition set_parent (v : Z) (n : bplus_node) : bplus_node :=
  mkNode (n_self n) v (n_prev n) (n_next n) (n_type n) (n_children n) (n_key n) (n_val n).
Definition set_prev (v : Z) (n : bplus_node) : bplus_node :=
  mkNode (n_self n) (n_parent n) v (n_next n) (n_type n) (n_children n) (n_key n) (n_val n).
Definition set_next (v : Z) (n : bplus_node) : bplus_node :=
  mkNode (n_self n) (n_parent n) (n_prev n) v (n_type n) (n_children n) (n_key n) (n_val n).
Definition set_type (v : Z) (n : bplus_node) : bplus_node :=
  mkNode (n_self n) (n_parent n) (n_prev n) (n_next n) v (n_children n) (n_key n) (n_val n).
Definition set_children (v : Z) (n : bplus_node) : bplus_node :=
  mkNode (n_self n) (n_parent n) (n_prev n) (n_next n) (n_type n) v (n_key n) (n_val n).
Definition set_keys (v : list Z) (n : bplus_node) : bplus_node :=
  mkNode (n_self n) (n_parent n) (n_prev n) (n_next n) (n_type n) (n_children n) v (n_val n).
Definition set_vals (v : list Z) (n : bplus_node) : bplus_node :=
  mkNode (n_self n) (n_parent n) (n_prev n) (n_next n) (n_type n) (n_children n) (n_key n) v.

Definition set_caches (v : list bplus_node) (t : bplus_tree) : bplus_tree :=
  mkTree v (t_used t) (t_fd t) (t_level t) (t_root t) (t_file_size t) (t_free_blocks t).
Definition set_used (v : list bool) (t : bplus_tree) : bplus_tree :=
  mkTree (t_caches t) v (t_fd t) (t_level t) (t_root t) (t_file_size t) (t_free_blocks t).
Definition set_fd (v : gmap Z bplus_node) (t : bplus_tree) : bplus_tree :=
  mkTree (t_caches t) (t_used t) v (t_level t) (t_root t) (t_file_size t) (t_free_blocks t).
Definition set_level (v : Z) (t : bplus_tree) : bplus_tree :=
  mkTree (t_caches t) (t_used t) (t_fd t) v (t_root t) (t_file_size t) (t_free_blocks t).
Definition set_root (v : Z) (t : bplus_tree) : bplus_tree :=
  mkTree (t_caches t) (t_used t) (t_fd t) (t_level t) v (t_file_size t) (t_free_blocks t).
Definition set_file_size (v : Z) (t : bplus_tree) : bplus_tree :=
  mkTree (t_caches t) (t_used t) (t_fd t) (t_level t) (t_root t) v (t_free_blocks t).
Definition set_free_blocks (v : list Z) (t : bplus_tree) : bplus_tree :=
  mkTree (t_caches t) (t_used t) (t_fd t) (t_level t) (t_root t) (t_file_size t) v.

Definition T (A : Type) : Type := M bplus_tree A.

Section ops.
Context `{cfg : Config}.

Definition is_leaf (node : bplus_node) : bool := n_type node =? BPLUS_TREE_LEAF.

(** The number of cells the block layout gives to [key(node)] and to
    [data(node)] or [sub(node)]. *)
Definition key_cap (node : bplus_node) : Z :=
  if is_leaf node then _max_entries else _max_order - 1.
Definition val_cap (node : bplus_node) : Z :=
  if is_leaf node then _max_entries else _max_order.

(** ** Access through node pointers *)

Definition get_node (p : nat) : T bplus_node :=
  fun t => match t_caches t !! p with
           | Some n => Ok (n, t)
           | None => Err EBounds
           end.

Definition put_node (p : nat) (n : bplus_node) : T unit :=
  modify (fun t => set_caches (<[p := n]> (t_caches t)) t).

Definition upd (p : nat) (f : bplus_node -> bplus_node) : T unit :=
  n <- get_node p ;; put_node p (f n).

(** [p->...] for a pointer that may be null. *)
Definition deref (p : option nat) : T nat :=
  match p with Some i => ret i | None => fail ENull end.

Definition key_at (p : nat) (i : Z) : T Z :=
  n <- get_node p ;; lift (rd (n_key n) (key_cap n) i).
Definition val_at (p : nat) (i : Z) : T Z :=
  n <- get_node p ;; lift (rd (n_val n) (val_cap n) i).

Definition set_key_at (p : nat) (i v : Z) : T unit :=
  n <- get_node p ;;
  k <- lift (wr (n_key n) (key_cap n) i v) ;;
  put_node p (set_keys k n).
Definition set_val_at (p : nat) (i v : Z) : T unit :=
  n <- get_node p ;;
  k <- lift (wr (n_val n) (val_cap n) i v) ;;
  put_node p (set_vals k n).

Definition memmove_key (dst : nat) (di : Z) (src : nat) (si n : Z) : T unit :=
  nd <- get_node dst ;;
  ns <- get_node src ;;
  k <- lift (memmove (n_key nd) (key_cap nd) di (n_key ns) (key_cap ns) si n) ;;
  put_node dst (set_keys k nd).
Definition memmove_val (dst : nat) (di : Z) (src : nat) (si n : Z) : T unit :=
  nd <- get_node dst ;;
  ns <- get_node src ;;
  k <- lift (memmove (n_val nd) (val_cap nd) di (n_val ns) (val_cap ns) si n) ;;
  put_node dst (set_vals k nd).

(** ** Binary search in a node *)

Fixpoint key_binary_search_loop (fuel : nat) (arr : list Z) (cap target low high : Z)
  : result Z :=
  match fuel with
  | O => Err EFuel
  | S fuel =>
      if low + 1 <? high then
        let mid := low + (high - low) / 2 in
        match rd arr cap mid with
        | Ok a =>
            if a <? target then key_binary_search_loop fuel arr cap target mid high
            else key_binary_search_loop fuel arr cap target low mid
        | Err e => Err e
        end
      else Ok high
  end.

Definition key_binary_search (node : bplus_node) (target : Z) : result Z :=
  let arr := n_key node in
  let len := if is_leaf node then n_children node else n_children node - 1 in
  match key_binary_search_loop (S (S (Z.to_nat len))) arr (key_cap node) target (-1) len with
  | Ok high =>
      if len <=? high then Ok (- high - 1)
      else match rd arr (key_cap node) high with
           | Ok a => if negb (a =? target) then Ok (- high - 1) else Ok high
           | Err e => Err e
           end
  | Err e => Err e
  end.

Definition parent_key_index (parent : bplus_node) (key : Z) : result Z :=
  match key_binary_search parent key with
  | Ok index => Ok (if 0 <=? index then index else - index - 2)
  | Err e => Err e
  end.

(** ** The block cache *)

(** The first buffer that is not in use. *)
Fixpoint first_unused (i : nat) (used : list bool) : option nat :=
  match used with
  | [] => None
  | u :: used => if negb u then Some i else first_unused (S i) used
  end.

Definition cache_refer : T nat :=
  used <- gets t_used ;;
  match first_unused 0 (take MIN_CACHE_NUM used) with
  | Some i => modify (set_used (<[i := true]> used)) ;;; ret i
  | None => fail EAssert
  end.

Definition cache_defer (node : nat) : T unit :=
  modify (fun t => set_used (<[node := false]> (t_used t)) t).

(** [tree->used[i] = 1] for the buffer [node] points into. *)
Definition cache_mark (node : nat) : T unit :=
  modify (fun t => set_used (<[node := true]> (t_used t)) t).

Definition node_new : T nat :=
  node <- cache_refer ;;
  upd node (fun n => set_children 0 (set_next INVALID_OFFSET (set_prev INVALID_OFFSET
                       (set_parent INVALID_OFFSET (set_self INVALID_OFFSET n))))) ;;;
  ret node.

Definition non_leaf_new : T nat :=
  node <- node_new ;; upd node (set_type BPLUS_TREE_NON_LEAF) ;;; ret node.

Definition leaf_new : T nat :=
  node <- node_new ;; upd node (set_type BPLUS_TREE_LEAF) ;;; ret node.

(** [pread] of one block into a buffer, with the length check. *)
Definition pread (buf : nat) (offset : Z) : T unit :=
  file <- gets t_fd ;;
  match file !! offset with
  | Some n => put_node buf n
  | None => fail EAssert
  end.

Definition pwrite (n : bplus_node) : T unit :=
  modify (fun t => set_fd (<[n_self n := n]> (t_fd t)) t).

Definition node_fetch (offset : Z) : T (option nat) :=
  if offset =? INVALID_OFFSET then ret None
  else
    node <- cache_refer ;;
    pread node offset ;;;
    ret (Some node).

Definition node_seek (offset : Z) : T (option nat) :=
  if offset =? INVALID_OFFSET then ret None
  else
    used <- gets t_used ;;
    match first_unused 0 (take MIN_CACHE_NUM used) with
    | Some i => pread i offset ;;; ret (Some i)
    | None => fail EAssert
    end.

Definition node_flush (node : option nat) : T unit :=
  match node with
  | Some p => n <- get_node p ;; pwrite n ;;; cache_defer p
  | None => ret tt
  end.

Definition new_node_append (node : nat) : T Z :=
  free <- gets t_free_blocks ;;
  match free with
  | [] =>
      fs <- gets t_file_size ;;
      upd node (set_self fs) ;;;
      modify (set_file_size (fs + _block_size)) ;;;
      ret fs
  | offset :: free' =>
      modify (set_free_blocks free') ;;;
      upd node (set_self offset) ;;;
      ret offset
  end.

Definition node_delete (node : nat) (left right : option nat) : T unit :=
  (match left with
   | Some l =>
       (match right with
        | Some r =>
            rn <- get_node r ;;
            upd l (set_next (n_self rn)) ;;;
            ln <- get_node l ;;
            upd r (set_prev (n_self ln)) ;;;
            node_flush (Some r)
        | None => upd l (set_next INVALID_OFFSET)
        end) ;;;
       node_flush (Some l)
   | None =>
       match right with
       | Some r => upd r (set_prev INVALID_OFFSET) ;;; node_flush (Some r)
       | None => ret tt
       end
   end) ;;;
  n <- get_node node ;;
  assert (negb (n_self n =? INVALID_OFFSET)) ;;;
  modify (fun t => set_free_blocks (t_free_blocks t ++ [n_self n]) t) ;;;
  cache_defer node.

Definition sub_node_update (parent : nat) (index : Z) (sub_node : nat) : T unit :=
  s <- get_node sub_node ;;
  assert (negb (n_self s =? INVALID_OFFSET)) ;;;
  set_val_at parent index (n_self s) ;;;
  p <- get_node parent ;;
  upd sub_node (set_parent (n_self p)) ;;;
  node_flush (Some sub_node).

Definition sub_node_flush (parent : nat) (sub_offset : Z) : T unit :=
  sub_node <- node_fetch sub_offset ;;
  match sub_node with
  | None => fail EAssert
  | Some sp =>
      p <- get_node parent ;;
      upd sp (set_parent (n_self p)) ;;;
      node_flush (Some sp)
  end.

End ops.
