(* ===== verification/BPlusList.v ===== *)
(** * The intrusive lists of bplustree.h

    [struct list_head]: circular doubly linked lists with a head node, used
    for the free blocks of an index.  A list is a sequence of nodes; the
    pointer updates implement insertion and removal in that sequence. *)

From S2P Require Import Prelude.

(** ** Links

    The [prev] and the [next] field of every node, by the node's address. *)
Record links := mkLinks { prevs : gmap nat nat; nexts : gmap nat nat }.

Abbreviation LM := (M links).

Definition get_prev (p : nat) : LM nat :=
  fun h => match prevs h !! p with Some q => Ok (q, h) | None => Err ENull end.
Definition get_next (p : nat) : LM nat :=
  fun h => match nexts h !! p with Some q => Ok (q, h) | None => Err ENull end.
Definition set_prev_link (p q : nat) : LM unit :=
  fun h => match prevs h !! p with
           | Some _ => Ok (tt, mkLinks (<[p := q]> (prevs h)) (nexts h))
           | None => Err ENull
           end.
Definition set_next_link (p q : nat) : LM unit :=
  fun h => match nexts h !! p with
           | Some _ => Ok (tt, mkLinks (prevs h) (<[p := q]> (nexts h)))
           | None => Err ENull
           end.

(** ** The operations *)

Definition list_init (link : nat) : LM unit :=
  set_prev_link link link ;;; set_next_link link link.

Definition __list_add (link prev next : nat) : LM unit :=
  set_next_link link next ;;;
  set_prev_link link prev ;;;
  set_prev_link next link ;;;
  set_next_link prev link.

Definition __list_del (prev next : nat) : LM unit :=
  set_next_link prev next ;;;
  set_prev_link next prev.

Definition list_add (link prev : nat) : LM unit :=
  n <- get_next prev ;; __list_add link prev n.

Definition list_add_tail (link head : nat) : LM unit :=
  p <- get_prev head ;; __list_add link p head.

Definition list_del (link : nat) : LM unit :=
  p <- get_prev link ;; n <- get_next link ;;
  __list_del p n ;;;
  list_init link.

Definition list_empty (head : nat) : LM bool :=
  n <- get_next head ;; ret (n =? head)%nat.

Definition list_first (head : nat) : LM nat := get_next head.

(** [list_for_each_safe]: the nodes the loop visits; [body] may unlink the
    node it is given. *)
Fixpoint for_each_safe (fuel : nat) (pos n head : nat) (body : nat -> LM unit) : LM (list nat) :=
  match fuel with
  | O => fail EFuel
  | S fuel =>
      if (pos =? head)%nat then ret []
      else body pos ;;; n' <- get_next n ;; l <- for_each_safe fuel n n' head body ;; ret (pos :: l)
  end.

Definition list_for_each_safe (fuel head : nat) (body : nat -> LM unit) : LM (list nat) :=
  pos <- get_next head ;; n <- get_next pos ;; for_each_safe fuel pos n head body.

(** ** The sequence a list stands for *)

Fixpoint dseg (h : links) (a : nat) (l : list nat) (b : nat) : Prop :=
  match l with
  | [] => nexts h !! a = Some b /\ prevs h !! b = Some a
  | x :: l => nexts h !! a = Some x /\ prevs h !! x = Some a /\ dseg h x l b
  end.

Definition dlist (h : links) (head : nat) (l : list nat) : Prop :=
  NoDup (head :: l) /\ dseg h head l head.

(** A node outside every list. *)
Definition node_at (h : links) (p : nat) : Prop :=
  is_Some (prevs h !! p) /\ is_Some (nexts h !! p).

Lemma dseg_app h a l x l' b : dseg h a (l ++ x :: l') b <-> dseg h a l x /\ dseg h x l' b.
Proof. revert a. induction l as [|y l IH]; intros a; simpl; [tauto|]. rewrite IH. tauto. Qed.

Lemma dseg_frame h h' a l b :
  dseg h a l b -> (forall p, p ∈ a :: l -> nexts h' !! p = nexts h !! p) ->
  (forall p, p ∈ l ++ [b] -> prevs h' !! p = prevs h !! p) -> dseg h' a l b.
Proof.
  revert a. induction l as [|x l IH]; intros a Hd Hn Hp; simpl in *.
  - destruct Hd. rewrite Hn, Hp by (by left). done.
  - destruct Hd as (? & ? & Hd). rewrite Hn, Hp by (by left). split_and!; [done|done|].
    apply (IH x Hd); intros p Hi; [apply Hn|apply Hp]; by right.
Qed.

Lemma dseg_nodes h a l b : dseg h a l b -> is_Some (nexts h !! a) /\ is_Some (prevs h !! b).
Proof.
  revert a. induction l as [|x l IH]; intros a Hd; simpl in *; [by destruct Hd; eauto|].
  destruct Hd as (? & ? & Hd). split; [eauto|apply (IH x Hd)].
Qed.

Lemma last_shift {A} (l : list A) x a : List.last (x :: l) a = List.last l x.
Proof.
  revert x a. induction l as [|y l IH]; intros x a; [done|]. change (List.last (x :: y :: l) a) with (List.last (y :: l) a).
  rewrite (IH y a). symmetry. apply (IH y x).
Qed.

Lemma last_in (l : list nat) x : List.last l x ∈ x :: l.
Proof.
  revert x. induction l as [|y l IH]; intros x; [by left|]. right. rewrite last_shift. apply IH.
Qed.

(** The last node of a segment, and a segment that ends elsewhere. *)
Lemma dseg_last h a l b : dseg h a l b -> nexts h !! List.last l a = Some b /\ prevs h !! b = Some (List.last l a).
Proof.
  revert a. induction l as [|x l IH]; intros a Hd; [done|]. destruct Hd as (_ & _ & Hd). rewrite last_shift. apply (IH x Hd).
Qed.

Lemma dseg_retarget h h' a l b c :
  dseg h a l b -> NoDup (a :: l) -> nexts h' !! List.last l a = Some c -> prevs h' !! c = Some (List.last l a) ->
  (forall p, p ∈ a :: l -> p <> List.last l a -> nexts h' !! p = nexts h !! p) ->
  (forall p, p ∈ l -> prevs h' !! p = prevs h !! p) -> dseg h' a l c.
Proof.
  revert a. induction l as [|x l IH]; intros a Hd Hnd Hn Hp Hfn Hfp; [done|]. destruct Hd as (H1 & H2 & Hd).
  apply NoDup_cons in Hnd as [Ha Hnd].
  rewrite last_shift in *. simpl. split_and!.
  - rewrite Hfn; [done|by left|]. intros ->. apply Ha, last_in.
  - rewrite Hfp by (by left). done.
  - apply (IH x Hd Hnd Hn Hp); intros p Hi; [intros Hne; apply Hfn; [by right|done]|apply Hfp; by right].
Qed.

(** ** Correctness *)

Lemma list_add_at h link a b :
  node_at h link -> link <> a -> link <> b -> is_Some (nexts h !! a) -> is_Some (prevs h !! b) ->
  __list_add link a b h =
    Ok (tt, mkLinks (<[b := link]> (<[link := a]> (prevs h))) (<[a := link]> (<[link := b]> (nexts h)))).
Proof.
  intros [[? Hp] [? Hn]] Ha Hb [? Hna] [? Hpb]. unfold __list_add, set_next_link, set_prev_link, bind, ret. simpl.
  rewrite Hn. simpl. rewrite Hp. simpl. rewrite lookup_insert_ne by done. rewrite Hpb. simpl.
  rewrite lookup_insert_ne by done. by rewrite Hna.
Qed.

Section ops.
Context (h : links) (head : nat) (l : list nat) (Hl : dlist h head l).

Lemma list_add_ok link :
  (link ∉ head :: l) -> node_at h link ->
  exists h', list_add link head h = Ok (tt, h') /\ dlist h' head (link :: l).
Proof.
  intros Hk Hnode. destruct Hl as [Hnd Hd]. apply not_elem_of_cons in Hk as [Hk1 Hk2]. apply NoDup_cons in Hnd as [Hh Hnd].
  assert (NoDup (head :: link :: l)) as Hnd'.
  { rewrite !NoDup_cons, not_elem_of_cons. auto. }
  destruct l as [|x l'].
  - destruct Hd as [Hn Hp]. eexists. split; [unfold list_add, get_next, bind; rewrite Hn; by apply list_add_at|].
    split; [done|]. simpl. split_and!; by simplify_map_eq.
  - destruct Hd as (Hn & Hp & Hd). apply not_elem_of_cons in Hk2 as [Hkx Hkl]. apply not_elem_of_cons in Hh as [Hhx Hhl].
    apply NoDup_cons in Hnd as [Hx Hnd].
    eexists. split; [unfold list_add, get_next, bind; rewrite Hn; by apply list_add_at|]. split; [done|]. simpl.
    split_and!; [by simplify_map_eq..|].
    eapply dseg_frame; [exact Hd| |]; simpl; intros p Hi.
    + apply elem_of_cons in Hi as [->|Hi]; [by simplify_map_eq|]. rewrite !lookup_insert_ne; [done|by intros <-..].
    + apply elem_of_app in Hi as [Hi| ->%list_elem_of_singleton]; [|by simplify_map_eq].
      rewrite !lookup_insert_ne; [done|by intros <-..].
Qed.

Lemma list_add_tail_ok link :
  (link ∉ head :: l) -> node_at h link ->
  exists h', list_add_tail link head h = Ok (tt, h') /\ dlist h' head (l ++ [link]).
Proof.
  intros Hk Hnode. destruct Hl as [Hnd Hd]. destruct (dseg_last _ _ _ _ Hd) as [Hn Hp].
  pose proof (last_in l head) as Hin.
  assert (link <> List.last l head) as Hkz by (by intros ->). apply not_elem_of_cons in Hk as [Hk1 Hk2].
  eexists. split; [unfold list_add_tail, get_prev, bind; rewrite Hp; apply list_add_at; eauto|]. split.
  - rewrite app_comm_cons. apply NoDup_app. split_and!; [done| |apply NoDup_singleton].
    intros y Hy ->%list_elem_of_singleton. apply elem_of_cons in Hy as [?|?]; congruence.
  - apply dseg_app. split.
    + eapply dseg_retarget; [exact Hd|done| | | |]; simpl.
      * by rewrite lookup_insert_eq.
      * by rewrite lookup_insert_ne, lookup_insert_eq by done.
      * intros p Hi Hne. rewrite !lookup_insert_ne; [done| |done]. intros <-. apply elem_of_cons in Hi as [?|?]; done.
      * intros p Hi. apply NoDup_cons in Hnd as [Hh _]. rewrite !lookup_insert_ne; [done| |]; by intros <-.
    + simpl. rewrite lookup_insert_ne, !lookup_insert_eq by done. done.
Qed.

Lemma list_del_ok l1 link l2 :
  l = l1 ++ link :: l2 ->
  exists h', list_del link h = Ok (tt, h') /\ dlist h' head (l1 ++ l2) /\ dlist h' link [] /\
    (forall p, (p ∉ head :: l) -> prevs h' !! p = prevs h !! p /\ nexts h' !! p = nexts h !! p).
Proof.
  intros El. destruct Hl as [Hnd Hd]. rewrite El in Hnd, Hd. apply dseg_app in Hd as [Hd1 Hd2].
  destruct (dseg_last _ _ _ _ Hd1) as [Hna Hpl]. set (a := List.last l1 head) in *. pose proof (last_in l1 head) as Hain.
  set (b := List.hd head l2). assert (nexts h !! link = Some b /\ prevs h !! b = Some link) as [Hnl Hpb].
  { unfold b. destruct l2; [done|]. simpl. by destruct Hd2 as (? & ? & _). }
  assert (b ∈ head :: l2) as Hbin by (unfold b; destruct l2; [by left|right; by left]).
  rewrite app_comm_cons in Hnd. apply NoDup_app in Hnd as (Hnd1 & Hdis & Hnd2). apply NoDup_cons in Hnd2 as [Hl2 Hnd2].
  assert (link ∉ head :: l1) as Hl1 by (intros Hi; apply (Hdis _ Hi); by left).
  assert (a <> link /\ b <> link) as [Hal Hbl].
  { split; [by intros <-|]. intros <-. apply elem_of_cons in Hbin as [->|Hb]; [|done]. apply Hl1. by left. }
  exists (mkLinks (<[link := link]> (<[b := a]> (prevs h))) (<[link := link]> (<[a := b]> (nexts h)))). split_and!.
  - unfold list_del, __list_del, list_init, get_prev, get_next, set_prev_link, set_next_link, bind, ret. simpl.
    rewrite Hpl, Hnl. simpl. rewrite Hna. simpl. rewrite Hpb. simpl. rewrite lookup_insert_ne, Hpl by done. simpl.
    rewrite lookup_insert_ne, Hnl by done. done.
  - split.
    + rewrite app_comm_cons. apply NoDup_app. split_and!; [done| |done]. intros y Hy Hy2. apply (Hdis _ Hy). by right.
    + assert (dseg (mkLinks (<[link := link]> (<[b := a]> (prevs h))) (<[link := link]> (<[a := b]> (nexts h)))) head l1 b) as Hd1'.
      { eapply dseg_retarget; [exact Hd1|done| | | |]; simpl; fold a.
        - by rewrite lookup_insert_ne, lookup_insert_eq by done.
        - by rewrite lookup_insert_ne, lookup_insert_eq by done.
        - intros p Hi Hne. rewrite !lookup_insert_ne; [done|done|]. by intros <-.
        - intros p Hi. rewrite !lookup_insert_ne; [done| |].
          + intros <-. apply elem_of_cons in Hbin as [->|Hb].
            * by apply NoDup_cons in Hnd1 as [? _].
            * apply (Hdis b); by right.
          + intros <-. apply Hl1. by right. }
      destruct l2 as [|x l2]; [by rewrite app_nil_r|]. apply dseg_app. split; [done|].
      destruct Hd2 as (_ & _ & Hd2). apply NoDup_cons in Hnd2 as [Hx Hnd2]. unfold b. simpl.
      eapply dseg_frame; [exact Hd2| |]; simpl; intros p Hi.
      * rewrite !lookup_insert_ne; [done| |].
        -- intros <-. apply (Hdis a); [done|by right].
        -- intros <-. done.
      * assert (p <> x /\ p <> link) as [Hp1 Hp2].
        { apply elem_of_app in Hi as [Hi| ->%list_elem_of_singleton].
          - split; [by intros ->|]. intros ->. apply Hl2. by right.
          - split; [|intros ->; apply Hl1; by left]. intros ->. apply (Hdis x); [by left|right; by left]. }
        by rewrite !lookup_insert_ne by auto.
  - split; [apply NoDup_singleton|]. simpl. by rewrite !lookup_insert_eq.
  - intros p Hp. rewrite El, not_elem_of_cons, not_elem_of_app, not_elem_of_cons in Hp. destruct Hp as (Hp1 & Hp2 & Hp3 & Hp4). simpl.
    rewrite !lookup_insert_ne; [done| | | |]; try (by intros <-).
    + intros <-. apply elem_of_cons in Hain as [?|?]; done.
    + intros <-. apply elem_of_cons in Hbin as [?|?]; done.
Qed.

Lemma list_empty_ok : list_empty head h = Ok (bool_decide (l = []), h).
Proof.
  destruct Hl as [Hnd Hd]. unfold list_empty, get_next, bind, ret. destruct l as [|x l0].
  - destruct Hd as [-> _]. by rewrite Nat.eqb_refl.
  - destruct Hd as (-> & _). apply NoDup_cons in Hnd as [Hh _]. apply not_elem_of_cons in Hh as [Hx _].
    by rewrite (proj2 (Nat.eqb_neq _ _)) by auto.
Qed.
End ops.

(** Emptying a list while walking it, as [bplus_tree_deinit] does. *)
Lemma for_each_del fuel h head l :
  dlist h head l -> (length l < fuel)%nat ->
  exists h', for_each_safe fuel (List.hd head l) (List.hd head (tail l)) head list_del h = Ok (l, h') /\ dlist h' head [].
Proof.
  revert h l. induction fuel as [|fuel IH]; intros h l Hl Hf; [lia|]. destruct l as [|x l]; simpl.
  - rewrite Nat.eqb_refl. by exists h.
  - pose proof Hl as [Hnd _]. apply NoDup_cons in Hnd as [Hh Hnd]. apply not_elem_of_cons in Hh as [Hx Hh].
    rewrite (proj2 (Nat.eqb_neq _ _)) by auto.
    destruct (list_del_ok h head (x :: l) Hl [] x l eq_refl) as (h1 & Hdel & Hl1 & _ & _). simpl in Hl1.
    destruct (IH h1 l Hl1) as (h2 & Hrun & Hl2); [simpl in Hf; lia|]. exists h2. split; [|done].
    unfold bind, ret. rewrite Hdel. unfold get_next at 1.
    assert (nexts h1 !! List.hd head l = Some (List.hd head (tail l))) as ->; [|by rewrite Hrun].
    destruct Hl1 as [_ Hd]. destruct l as [|y [|z l]]; simpl in *; by destruct_and?.
Qed.

(** ** The properties *)

(** [list_del] takes its node out of the sequence, leaves it linked to
    itself and touches no node outside the list; the loop of
    [bplus_tree_deinit], which unlinks every node it visits, visits them all
    in order and leaves the list empty. *)
Lemma list_del_refines h head l :
  dlist h head l ->
  (forall l1 link l2, l = l1 ++ link :: l2 ->
     exists h', list_del link h = Ok (tt, h') /\ dlist h' head (l1 ++ l2) /\ dlist h' link [] /\
       forall p, (p ∉ head :: l) -> prevs h' !! p = prevs h !! p /\ nexts h' !! p = nexts h !! p) /\
  (forall fuel, (length l < fuel)%nat ->
     exists h', list_for_each_safe fuel head list_del h = Ok (l, h') /\ dlist h' head []).
Proof.
  intros Hl. split; [intros; by apply list_del_ok|]. intros fuel Hf.
  destruct (for_each_del fuel h head l Hl Hf) as (h' & Hr & He). exists h'. split; [|done].
  unfold list_for_each_safe, bind, get_next. destruct Hl as [_ Hd].
  destruct l as [|x [|y l]]; simpl in Hd; destruct_and?; repeat match goal with H : _ !! _ = Some _ |- _ => rewrite H end; exact Hr.
Qed.

(** C10. The operations of the list refine those of a sequence: [list_add] puts a
    node in front and [list_add_tail] at the end, [list_empty] tells whether there
    are nodes, [list_del] takes its node out, leaves it linked to itself and
    touches no node outside the list; the unlinking loop of [bplus_tree_deinit]
    visits all nodes in order and leaves the list empty. *)
Theorem list_refines h head l :
  dlist h head l ->
  list_empty head h = Ok (bool_decide (l = []), h) /\
  (forall link, (link ∉ head :: l) -> node_at h link ->
     (exists h', list_add link head h = Ok (tt, h') /\ dlist h' head (link :: l)) /\
     (exists h', list_add_tail link head h = Ok (tt, h') /\ dlist h' head (l ++ [link]))) /\
  (forall l1 link l2, l = l1 ++ link :: l2 ->
     exists h', list_del link h = Ok (tt, h') /\ dlist h' head (l1 ++ l2) /\ dlist h' link [] /\
       forall p, (p ∉ head :: l) -> prevs h' !! p = prevs h !! p /\ nexts h' !! p = nexts h !! p) /\
  (forall fuel, (length l < fuel)%nat ->
     exists h', list_for_each_safe fuel head list_del h = Ok (l, h') /\ dlist h' head []).
Proof.
  intros Hl. destruct (list_del_refines h head l Hl) as [Hd Hw]. split_and!; [by apply list_empty_ok| |exact Hd|exact Hw].
  intros link Hk Hn. by split; [apply list_add_ok|apply list_add_tail_ok].
Qed.

(** Three nodes: the head 0, a linked node 1 and a fresh node 2. *)
Definition three_links : links := mkLinks {[0%nat := 1%nat; 1%nat := 0%nat; 2%nat := 2%nat]} {[0%nat := 1%nat; 1%nat := 0%nat; 2%nat := 2%nat]}.

Lemma three_links_ok : dlist three_links 0 [1%nat].
Proof. split; [|done]. by apply (bool_decide_unpack _). Qed.

Lemma list_refines_witness :
  list_empty 0 three_links = Ok (false, three_links) /\
  ((exists h', list_add 2 0 three_links = Ok (tt, h') /\ dlist h' 0 [2%nat; 1%nat]) /\
   (exists h', list_add_tail 2 0 three_links = Ok (tt, h') /\ dlist h' 0 [1%nat; 2%nat])) /\
  (exists h', list_del 1 three_links = Ok (tt, h') /\ dlist h' 0 [] /\ dlist h' 1 [] /\
     forall p, (p ∉ [0%nat; 1%nat]) -> prevs h' !! p = prevs three_links !! p /\ nexts h' !! p = nexts three_links !! p) /\
  (exists h', list_for_each_safe 5 0 list_del three_links = Ok ([1%nat], h') /\ dlist h' 0 []).
Proof.
  destruct (list_refines three_links 0 [1%nat] three_links_ok) as (He & Ha & Hd & Hw). split; [exact He|]. split.
  - apply Ha; [|split; vm_compute; eauto]. rewrite !not_elem_of_cons. repeat split; try discriminate. apply not_elem_of_nil.
  - split; [apply (Hd [] 1%nat []); reflexivity|apply Hw; vm_compute; lia].
Defined.
