(* ===== verification/BPlusOps.v ===== *)
(** * The B+ tree's algorithms: search, insertion, deletion, range search

    The second half of the transliteration of [bplustree.c], on the nodes and
    the cache of [BPlusTree].  A loop or a recursion of the code that is not
    structural takes fuel; the theorems of the files that follow show which
    fuel is enough. *)

From S2P Require Import Prelude BPlusTree.

Section algorithms.
Context `{cfg : Config}.

(** One step down a non-leaf: the child whose key range holds [key]. *)
Definition child_of (node : nat) (key : Z) : T Z :=
  n <- get_node node ;;
  i <- lift (key_binary_search n key) ;;
  if 0 <=? i then val_at node (i + 1) else val_at node (- i - 1).

(** ** Search *)

(** [int ret]: the value read from the leaf is stored in an [int]. *)
Definition int_of_long (v : Z) : Z := (v + 2 ^ 31) mod 2 ^ 32 - 2 ^ 31.

Fixpoint bplus_tree_search_loop (fuel : nat) (node : option nat) (key : Z) : T Z :=
  match fuel with
  | O => fail EFuel
  | S fuel =>
      match node with
      | None => ret (-1)
      | Some p =>
          n <- get_node p ;;
          i <- lift (key_binary_search n key) ;;
          if is_leaf n then
            if 0 <=? i then (d <- val_at p i ;; ret (int_of_long d)) else ret (-1)
          else
            o <- (if 0 <=? i then val_at p (i + 1) else val_at p (- i - 1)) ;;
            node' <- node_seek o ;;
            bplus_tree_search_loop fuel node' key
      end
  end.

Definition bplus_tree_search (fuel : nat) (key : Z) : T Z :=
  r <- gets t_root ;;
  node <- node_seek r ;;
  bplus_tree_search_loop fuel node key.

(** ** Insertion *)

Definition left_node_add (node left : nat) : T unit :=
  new_node_append left ;;;
  n <- get_node node ;;
  prev <- node_fetch (n_prev n) ;;
  (match prev with
   | Some pv =>
       l <- get_node left ;;
       upd pv (set_next (n_self l)) ;;;
       pn <- get_node pv ;;
       upd left (set_prev (n_self pn)) ;;;
       node_flush (Some pv)
   | None => upd left (set_prev INVALID_OFFSET)
   end) ;;;
  n <- get_node node ;;
  upd left (set_next (n_self n)) ;;;
  l <- get_node left ;;
  upd node (set_prev (n_self l)).

Definition right_node_add (node right : nat) : T unit :=
  new_node_append right ;;;
  n <- get_node node ;;
  next <- node_fetch (n_next n) ;;
  (match next with
   | Some nx =>
       r <- get_node right ;;
       upd nx (set_prev (n_self r)) ;;;
       nn <- get_node nx ;;
       upd right (set_next (n_self nn)) ;;;
       node_flush (Some nx)
   | None => upd right (set_next INVALID_OFFSET)
   end) ;;;
  n <- get_node node ;;
  upd right (set_prev (n_self n)) ;;;
  r <- get_node right ;;
  upd node (set_next (n_self r)).

(** [for (i = from; i < from + n; i++)] flushing [sub(p)[i]], the indices
    [skip] and [skip + 1] left out. *)
Fixpoint flush_subs (p : nat) (i : Z) (n : nat) (skip : Z) : T unit :=
  match n with
  | O => ret tt
  | S n =>
      (if negb (i =? skip) && negb (i =? skip + 1)
       then (o <- val_at p i ;; sub_node_flush p o) else ret tt) ;;;
      flush_subs p (i + 1) n skip
  end.

Definition non_leaf_split_left (node left l_ch r_ch : nat) (key insert split : Z) : T Z :=
  left_node_add node left ;;;
  let pivot := insert in
  upd left (set_children (split + 1)) ;;;
  upd node (set_children (_max_order - split)) ;;;
  memmove_key left 0 node 0 pivot ;;;
  memmove_val left 0 node 0 pivot ;;;
  memmove_key left (pivot + 1) node pivot (split - pivot) ;;;
  memmove_val left (pivot + 1) node pivot (split - pivot) ;;;
  l <- get_node left ;;
  flush_subs left 0 (Z.to_nat (n_children l)) pivot ;;;
  set_key_at left pivot key ;;;
  split_key <-
    (if pivot =? split then
       sub_node_update left pivot l_ch ;;;
       sub_node_update node 0 r_ch ;;;
       ret key
     else
       sub_node_update left pivot l_ch ;;;
       sub_node_update left (pivot + 1) r_ch ;;;
       v <- val_at node split ;;
       set_val_at node 0 v ;;;
       key_at node (split - 1)) ;;
  n <- get_node node ;;
  memmove_key node 0 node split (n_children n - 1) ;;;
  memmove_val node 1 node (split + 1) (n_children n - 1) ;;;
  ret split_key.

Definition non_leaf_split_right1 (node right l_ch r_ch : nat) (key insert split : Z) : T Z :=
  right_node_add node right ;;;
  split_key <- key_at node (split - 1) ;;
  let pivot := 0 in
  upd node (set_children split) ;;;
  upd right (set_children (_max_order - split + 1)) ;;;
  set_key_at right 0 key ;;;
  sub_node_update right pivot l_ch ;;;
  sub_node_update right (pivot + 1) r_ch ;;;
  r <- get_node right ;;
  memmove_key right (pivot + 1) node split (n_children r - 2) ;;;
  memmove_val right (pivot + 2) node (split + 1) (n_children r - 2) ;;;
  flush_subs right (pivot + 2) (Z.to_nat (n_children r - (pivot + 2))) pivot ;;;
  ret split_key.

Definition non_leaf_split_right2 (node right l_ch r_ch : nat) (key insert split : Z) : T Z :=
  right_node_add node right ;;;
  split_key <- key_at node split ;;
  let pivot := insert - split - 1 in
  upd node (set_children (split + 1)) ;;;
  upd right (set_children (_max_order - split)) ;;;
  memmove_key right 0 node (split + 1) pivot ;;;
  memmove_val right 0 node (split + 1) pivot ;;;
  set_key_at right pivot key ;;;
  sub_node_update right pivot l_ch ;;;
  sub_node_update right (pivot + 1) r_ch ;;;
  memmove_key right (pivot + 1) node insert (_max_order - insert - 1) ;;;
  memmove_val right (pivot + 2) node (insert + 1) (_max_order - insert - 1) ;;;
  r <- get_node right ;;
  flush_subs right 0 (Z.to_nat (n_children r)) pivot ;;;
  ret split_key.

Definition non_leaf_simple_insert (node l_ch r_ch : nat) (key insert : Z) : T unit :=
  n <- get_node node ;;
  memmove_key node (insert + 1) node insert (n_children n - 1 - insert) ;;;
  memmove_val node (insert + 2) node (insert + 1) (n_children n - 1 - insert) ;;;
  set_key_at node insert key ;;;
  sub_node_update node insert l_ch ;;;
  sub_node_update node (insert + 1) r_ch ;;;
  upd node (fun n => set_children (n_children n + 1) n).

(** [parent_node_build], with the recursive [non_leaf_insert] as an argument. *)
Definition parent_node_build_with (non_leaf_insert : option nat -> nat -> nat -> Z -> T Z)
    (l_ch r_ch : nat) (key : Z) : T Z :=
  l <- get_node l_ch ;;
  r <- get_node r_ch ;;
  if (n_parent l =? INVALID_OFFSET) && (n_parent r =? INVALID_OFFSET) then
    parent <- non_leaf_new ;;
    set_key_at parent 0 key ;;;
    set_val_at parent 0 (n_self l) ;;;
    set_val_at parent 1 (n_self r) ;;;
    upd parent (set_children 2) ;;;
    off <- new_node_append parent ;;
    modify (set_root off) ;;;
    p <- get_node parent ;;
    upd l_ch (set_parent (n_self p)) ;;;
    upd r_ch (set_parent (n_self p)) ;;;
    modify (fun t => set_level (t_level t + 1) t) ;;;
    node_flush (Some l_ch) ;;;
    node_flush (Some r_ch) ;;;
    node_flush (Some parent) ;;;
    ret 0
  else if n_parent r =? INVALID_OFFSET then
    parent <- node_fetch (n_parent l) ;;
    non_leaf_insert parent l_ch r_ch key
  else
    parent <- node_fetch (n_parent r) ;;
    non_leaf_insert parent l_ch r_ch key.

Fixpoint non_leaf_insert (fuel : nat) (nodep : option nat) (l_ch r_ch : nat) (key : Z) : T Z :=
  match fuel with
  | O => fail EFuel
  | S fuel =>
      node <- deref nodep ;;
      n <- get_node node ;;
      i <- lift (key_binary_search n key) ;;
      assert (i <? 0) ;;;
      let insert := - i - 1 in
      if n_children n =? _max_order then
        let split := n_children n / 2 in
        sibling <- non_leaf_new ;;
        split_key <-
          (if insert <? split then
             non_leaf_split_left node sibling l_ch r_ch key insert split
           else if insert =? split then
             non_leaf_split_right1 node sibling l_ch r_ch key insert split
           else
             non_leaf_split_right2 node sibling l_ch r_ch key insert split) ;;
        if insert <? split then
          parent_node_build_with (non_leaf_insert fuel) sibling node split_key
        else
          parent_node_build_with (non_leaf_insert fuel) node sibling split_key
      else
        non_leaf_simple_insert node l_ch r_ch key insert ;;;
        node_flush (Some node) ;;;
        ret 0
  end.

Definition parent_node_build (fuel : nat) (l_ch r_ch : nat) (key : Z) : T Z :=
  parent_node_build_with (non_leaf_insert fuel) l_ch r_ch key.

Definition leaf_split_left (leaf left : nat) (key data insert : Z) : T Z :=
  n <- get_node leaf ;;
  let split := (n_children n + 1) / 2 in
  left_node_add leaf left ;;;
  let pivot := insert in
  upd left (set_children split) ;;;
  upd leaf (set_children (_max_entries - split + 1)) ;;;
  memmove_key left 0 leaf 0 pivot ;;;
  memmove_val left 0 leaf 0 pivot ;;;
  set_key_at left pivot key ;;;
  set_val_at left pivot data ;;;
  memmove_key left (pivot + 1) leaf pivot (split - pivot - 1) ;;;
  memmove_val left (pivot + 1) leaf pivot (split - pivot - 1) ;;;
  n <- get_node leaf ;;
  memmove_key leaf 0 leaf (split - 1) (n_children n) ;;;
  memmove_val leaf 0 leaf (split - 1) (n_children n) ;;;
  key_at leaf 0.

Definition leaf_split_right (leaf right : nat) (key data insert : Z) : T Z :=
  n <- get_node leaf ;;
  let split := (n_children n + 1) / 2 in
  right_node_add leaf right ;;;
  let pivot := insert - split in
  upd leaf (set_children split) ;;;
  upd right (set_children (_max_entries - split + 1)) ;;;
  memmove_key right 0 leaf split pivot ;;;
  memmove_val right 0 leaf split pivot ;;;
  set_key_at right pivot key ;;;
  set_val_at right pivot data ;;;
  memmove_key right (pivot + 1) leaf insert (_max_entries - insert) ;;;
  memmove_val right (pivot + 1) leaf insert (_max_entries - insert) ;;;
  key_at right 0.

Definition leaf_simple_insert (leaf : nat) (key data insert : Z) : T unit :=
  n <- get_node leaf ;;
  memmove_key leaf (insert + 1) leaf insert (n_children n - insert) ;;;
  memmove_val leaf (insert + 1) leaf insert (n_children n - insert) ;;;
  set_key_at leaf insert key ;;;
  set_val_at leaf insert data ;;;
  upd leaf (fun n => set_children (n_children n + 1) n).

Definition leaf_insert (fuel : nat) (leaf : nat) (key data : Z) : T Z :=
  n <- get_node leaf ;;
  i <- lift (key_binary_search n key) ;;
  if 0 <=? i then ret (-1)
  else
    let insert := - i - 1 in
    cache_mark leaf ;;;
    if n_children n =? _max_entries then
      let split := (_max_entries + 1) / 2 in
      sibling <- leaf_new ;;
      split_key <-
        (if insert <? split then leaf_split_left leaf sibling key data insert
         else leaf_split_right leaf sibling key data insert) ;;
      if insert <? split then parent_node_build fuel sibling leaf split_key
      else parent_node_build fuel leaf sibling split_key
    else
      leaf_simple_insert leaf key data insert ;;;
      node_flush (Some leaf) ;;;
      ret 0.

(** The loop of [bplus_tree_insert]; it returns [None] when it leaves by
    [node == NULL].  [up] is the fuel of the way back up. *)
Fixpoint bplus_tree_insert_loop (fuel up : nat) (node : option nat) (key data : Z)
  : T (option Z) :=
  match fuel with
  | O => fail EFuel
  | S fuel =>
      match node with
      | None => ret None
      | Some p =>
          n <- get_node p ;;
          if is_leaf n then (r <- leaf_insert up p key data ;; ret (Some r))
          else
            o <- child_of p key ;;
            node' <- node_seek o ;;
            bplus_tree_insert_loop fuel up node' key data
      end
  end.

Definition bplus_tree_insert (fuel : nat) (key data : Z) : T Z :=
  r <- gets t_root ;;
  node <- node_seek r ;;
  done <- bplus_tree_insert_loop fuel fuel node key data ;;
  match done with
  | Some ret_val => ret ret_val
  | None =>
      root <- leaf_new ;;
      set_key_at root 0 key ;;;
      set_val_at root 0 data ;;;
      upd root (set_children 1) ;;;
      off <- new_node_append root ;;
      modify (set_root off) ;;;
      modify (set_level 1) ;;;
      node_flush (Some root) ;;;
      ret 0
  end.

(** ** Deletion *)

Definition sibling_select (l_sib r_sib : option nat) (parent : nat) (i : Z) : T Z :=
  pn <- get_node parent ;;
  if i =? -1 then ret RIGHT_SIBLING
  else if i =? n_children pn - 2 then ret LEFT_SIBLING
  else
    lp <- deref l_sib ;; l <- get_node lp ;;
    rp <- deref r_sib ;; r <- get_node rp ;;
    ret (if n_children r <=? n_children l then LEFT_SIBLING else RIGHT_SIBLING).

Definition non_leaf_shift_from_left (node left parent : nat) (parent_key_index remove : Z)
  : T unit :=
  memmove_key node 1 node 0 remove ;;;
  memmove_val node 1 node 0 (remove + 1) ;;;
  k <- key_at parent parent_key_index ;;
  set_key_at node 0 k ;;;
  l <- get_node left ;;
  k <- key_at left (n_children l - 2) ;;
  set_key_at parent parent_key_index k ;;;
  v <- val_at left (n_children l - 1) ;;
  set_val_at node 0 v ;;;
  o <- val_at node 0 ;;
  sub_node_flush node o ;;;
  upd left (fun l => set_children (n_children l - 1) l).

(** [for (i = from, j = 0; j < n; i++, j++) sub_node_flush(tree, p, sub(p)[i])]. *)
Fixpoint flush_subs_from (p : nat) (i : Z) (n : nat) : T unit :=
  match n with
  | O => ret tt
  | S n => o <- val_at p i ;; sub_node_flush p o ;;; flush_subs_from p (i + 1) n
  end.

Definition non_leaf_merge_into_left (node left parent : nat) (parent_key_index remove : Z)
  : T unit :=
  l <- get_node left ;;
  let lc := n_children l in
  k <- key_at parent parent_key_index ;;
  set_key_at left (lc - 1) k ;;;
  memmove_key left lc node 0 remove ;;;
  memmove_val left lc node 0 (remove + 1) ;;;
  n <- get_node node ;;
  let nc := n_children n in
  memmove_key left (lc + remove) node (remove + 1) (nc - remove - 2) ;;;
  memmove_val left (lc + remove + 1) node (remove + 2) (nc - remove - 2) ;;;
  flush_subs_from left lc (Z.to_nat (nc - 1)) ;;;
  upd left (set_children (lc + (nc - 1))).

Definition non_leaf_shift_from_right (node right parent : nat) (parent_key_index : Z) : T unit :=
  n <- get_node node ;;
  let nc := n_children n in
  k <- key_at parent parent_key_index ;;
  set_key_at node (nc - 1) k ;;;
  k <- key_at right 0 ;;
  set_key_at parent parent_key_index k ;;;
  v <- val_at right 0 ;;
  set_val_at node nc v ;;;
  o <- val_at node nc ;;
  sub_node_flush node o ;;;
  upd node (set_children (nc + 1)) ;;;
  r <- get_node right ;;
  memmove_key right 0 right 1 (n_children r - 2) ;;;
  memmove_val right 0 right 1 (n_children r - 1) ;;;
  upd right (fun r => set_children (n_children r - 1) r).

Definition non_leaf_merge_from_right (node right parent : nat) (parent_key_index : Z) : T unit :=
  n <- get_node node ;;
  k <- key_at parent parent_key_index ;;
  set_key_at node (n_children n - 1) k ;;;
  upd node (set_children (n_children n + 1)) ;;;
  n <- get_node node ;;
  r <- get_node right ;;
  memmove_key node (n_children n - 1) right 0 (n_children r - 1) ;;;
  memmove_val node (n_children n - 1) right 0 (n_children r) ;;;
  flush_subs_from node (n_children n - 1) (Z.to_nat (n_children r)) ;;;
  upd node (set_children (n_children n + (n_children r - 1))).

Definition non_leaf_simple_remove (node : nat) (remove : Z) : T unit :=
  n <- get_node node ;;
  assert (2 <=? n_children n) ;;;
  memmove_key node remove node (remove + 1) (n_children n - remove - 2) ;;;
  memmove_val node (remove + 1) node (remove + 2) (n_children n - remove - 2) ;;;
  upd node (fun n => set_children (n_children n - 1) n).

Fixpoint non_leaf_remove (fuel : nat) (node : nat) (remove : Z) : T unit :=
  match fuel with
  | O => fail EFuel
  | S fuel =>
      n <- get_node node ;;
      if n_parent n =? INVALID_OFFSET then
        if n_children n =? 2 then
          o <- val_at node 0 ;;
          rootp <- node_fetch o ;;
          root <- deref rootp ;;
          upd root (set_parent INVALID_OFFSET) ;;;
          rn <- get_node root ;;
          modify (set_root (n_self rn)) ;;;
          modify (fun t => set_level (t_level t - 1) t) ;;;
          node_delete node None None ;;;
          node_flush (Some root)
        else
          non_leaf_simple_remove node remove ;;;
          node_flush (Some node)
      else if n_children n <=? (_max_order + 1) / 2 then
        l_sib <- node_fetch (n_prev n) ;;
        r_sib <- node_fetch (n_next n) ;;
        parentp <- node_fetch (n_parent n) ;;
        k0 <- key_at node 0 ;;
        parent <- deref parentp ;;
        pn <- get_node parent ;;
        i <- lift (parent_key_index pn k0) ;;
        sel <- sibling_select l_sib r_sib parent i ;;
        if sel =? LEFT_SIBLING then
          l <- deref l_sib ;;
          ln <- get_node l ;;
          if (_max_order + 1) / 2 <? n_children ln then
            non_leaf_shift_from_left node l parent i remove ;;;
            node_flush (Some node) ;;;
            node_flush l_sib ;;;
            node_flush r_sib ;;;
            node_flush (Some parent)
          else
            non_leaf_merge_into_left node l parent i remove ;;;
            node_delete node l_sib r_sib ;;;
            non_leaf_remove fuel parent i
        else
          non_leaf_simple_remove node remove ;;;
          r <- deref r_sib ;;
          rn <- get_node r ;;
          if (_max_order + 1) / 2 <? n_children rn then
            non_leaf_shift_from_right node r parent (i + 1) ;;;
            node_flush (Some node) ;;;
            node_flush l_sib ;;;
            node_flush r_sib ;;;
            node_flush (Some parent)
          else
            non_leaf_merge_from_right node r parent (i + 1) ;;;
            rn <- get_node r ;;
            rr_sib <- node_fetch (n_next rn) ;;
            node_delete r (Some node) rr_sib ;;;
            node_flush l_sib ;;;
            non_leaf_remove fuel parent (i + 1)
      else
        non_leaf_simple_remove node remove ;;;
        node_flush (Some node)
  end.

Definition leaf_shift_from_left (leaf left parent : nat) (parent_key_index remove : Z) : T unit :=
  memmove_key leaf 1 leaf 0 remove ;;;
  memmove_val leaf 1 leaf 0 remove ;;;
  l <- get_node left ;;
  k <- key_at left (n_children l - 1) ;;
  set_key_at leaf 0 k ;;;
  v <- val_at left (n_children l - 1) ;;
  set_val_at leaf 0 v ;;;
  upd left (set_children (n_children l - 1)) ;;;
  k <- key_at leaf 0 ;;
  set_key_at parent parent_key_index k.

Definition leaf_merge_into_left (leaf left : nat) (parent_key_index remove : Z) : T unit :=
  l <- get_node left ;;
  n <- get_node leaf ;;
  memmove_key left (n_children l) leaf 0 remove ;;;
  memmove_val left (n_children l) leaf 0 remove ;;;
  memmove_key left (n_children l + remove) leaf (remove + 1) (n_children n - remove - 1) ;;;
  memmove_val left (n_children l + remove) leaf (remove + 1) (n_children n - remove - 1) ;;;
  upd left (set_children (n_children l + (n_children n - 1))).

Definition leaf_shift_from_right (leaf right parent : nat) (parent_key_index : Z) : T unit :=
  n <- get_node leaf ;;
  k <- key_at right 0 ;;
  set_key_at leaf (n_children n) k ;;;
  v <- val_at right 0 ;;
  set_val_at leaf (n_children n) v ;;;
  upd leaf (set_children (n_children n + 1)) ;;;
  r <- get_node right ;;
  memmove_key right 0 right 1 (n_children r - 1) ;;;
  memmove_val right 0 right 1 (n_children r - 1) ;;;
  upd right (set_children (n_children r - 1)) ;;;
  k <- key_at right 0 ;;
  set_key_at parent parent_key_index k.

Definition leaf_merge_from_right (leaf right : nat) : T unit :=
  n <- get_node leaf ;;
  r <- get_node right ;;
  memmove_key leaf (n_children n) right 0 (n_children r) ;;;
  memmove_val leaf (n_children n) right 0 (n_children r) ;;;
  upd leaf (set_children (n_children n + n_children r)).

Definition leaf_simple_remove (leaf : nat) (remove : Z) : T unit :=
  n <- get_node leaf ;;
  memmove_key leaf remove leaf (remove + 1) (n_children n - remove - 1) ;;;
  memmove_val leaf remove leaf (remove + 1) (n_children n - remove - 1) ;;;
  upd leaf (set_children (n_children n - 1)).

Definition leaf_remove (fuel : nat) (leaf : nat) (key : Z) : T Z :=
  n <- get_node leaf ;;
  remove <- lift (key_binary_search n key) ;;
  if remove <? 0 then ret (-1)
  else
    cache_mark leaf ;;;
    (if n_parent n =? INVALID_OFFSET then
       if n_children n =? 1 then
         k0 <- key_at leaf 0 ;;
         assert (key =? k0) ;;;
         modify (set_root INVALID_OFFSET) ;;;
         modify (set_level 0) ;;;
         node_delete leaf None None
       else
         leaf_simple_remove leaf remove ;;;
         node_flush (Some leaf)
     else if n_children n <=? (_max_entries + 1) / 2 then
       l_sib <- node_fetch (n_prev n) ;;
       r_sib <- node_fetch (n_next n) ;;
       parentp <- node_fetch (n_parent n) ;;
       k0 <- key_at leaf 0 ;;
       parent <- deref parentp ;;
       pn <- get_node parent ;;
       i <- lift (parent_key_index pn k0) ;;
       sel <- sibling_select l_sib r_sib parent i ;;
       if sel =? LEFT_SIBLING then
         l <- deref l_sib ;;
         ln <- get_node l ;;
         if (_max_entries + 1) / 2 <? n_children ln then
           leaf_shift_from_left leaf l parent i remove ;;;
           node_flush (Some leaf) ;;;
           node_flush l_sib ;;;
           node_flush r_sib ;;;
           node_flush (Some parent)
         else
           leaf_merge_into_left leaf l i remove ;;;
           node_delete leaf l_sib r_sib ;;;
           non_leaf_remove fuel parent i
       else
         leaf_simple_remove leaf remove ;;;
         r <- deref r_sib ;;
         rn <- get_node r ;;
         if (_max_entries + 1) / 2 <? n_children rn then
           leaf_shift_from_right leaf r parent (i + 1) ;;;
           node_flush (Some leaf) ;;;
           node_flush l_sib ;;;
           node_flush r_sib ;;;
           node_flush (Some parent)
         else
           leaf_merge_from_right leaf r ;;;
           rn <- get_node r ;;
           rr_sib <- node_fetch (n_next rn) ;;
           node_delete r (Some leaf) rr_sib ;;;
           node_flush l_sib ;;;
           non_leaf_remove fuel parent (i + 1)
     else
       leaf_simple_remove leaf remove ;;;
       node_flush (Some leaf)) ;;;
    ret 0.

Fixpoint bplus_tree_delete_loop (fuel up : nat) (node : option nat) (key : Z) : T Z :=
  match fuel with
  | O => fail EFuel
  | S fuel =>
      match node with
      | None => ret (-1)
      | Some p =>
          n <- get_node p ;;
          if is_leaf n then leaf_remove up p key
          else
            o <- child_of p key ;;
            node' <- node_seek o ;;
            bplus_tree_delete_loop fuel up node' key
      end
  end.

Definition bplus_tree_delete (fuel : nat) (key : Z) : T Z :=
  r <- gets t_root ;;
  node <- node_seek r ;;
  bplus_tree_delete_loop fuel fuel node key.

(** ** The public operations *)

Definition bplus_tree_get (fuel : nat) (key : Z) : T Z := bplus_tree_search fuel key.

Definition bplus_tree_put (fuel : nat) (key data : Z) : T Z :=
  if negb (data =? 0) then bplus_tree_insert fuel key data
  else bplus_tree_delete fuel key.

(** The inner loop of [bplus_tree_get_range]:
    [while (node != NULL && key(node)[i] <= max)]. *)
Fixpoint range_scan (fuel : nat) (node : option nat) (i max start : Z) : T Z :=
  match fuel with
  | O => fail EFuel
  | S fuel =>
      match node with
      | None => ret start
      | Some p =>
          k <- key_at p i ;;
          if k <=? max then
            start <- val_at p i ;;
            n <- get_node p ;;
            if n_children n <=? i + 1 then
              node' <- node_seek (n_next n) ;;
              range_scan fuel node' 0 max start
            else range_scan fuel (Some p) (i + 1) max start
          else ret start
      end
  end.

Fixpoint bplus_tree_get_range_loop (fuel scan : nat) (node : option nat) (min max : Z) : T Z :=
  match fuel with
  | O => fail EFuel
  | S fuel =>
      match node with
      | None => ret (-1)
      | Some p =>
          n <- get_node p ;;
          i <- lift (key_binary_search n min) ;;
          if is_leaf n then
            if i <? 0 then
              let i := - i - 1 in
              if n_children n <=? i then
                node' <- node_seek (n_next n) ;;
                range_scan scan node' i max (-1)
              else range_scan scan node i max (-1)
            else range_scan scan node i max (-1)
          else
            o <- (if 0 <=? i then val_at p (i + 1) else val_at p (- i - 1)) ;;
            node' <- node_seek o ;;
            bplus_tree_get_range_loop fuel scan node' min max
      end
  end.

Definition bplus_tree_get_range (fuel scan : nat) (key1 key2 : Z) : T Z :=
  let min := if key1 <=? key2 then key1 else key2 in
  let max := if min =? key1 then key2 else key1 in
  r <- gets t_root ;;
  node <- node_seek r ;;
  bplus_tree_get_range_loop fuel scan node min max.

End algorithms.

(** ** A tree with no index file yet, as [bplus_tree_init] leaves it

    The [MIN_CACHE_NUM] buffers come from [malloc], with any contents. *)
Definition empty_tree (buffers : list bplus_node) : bplus_tree :=
  mkTree buffers (replicate MIN_CACHE_NUM false) ∅ 0 INVALID_OFFSET 0 [].
