(* ===== verification/BPlusView.v ===== *)
(** * The cache as an abstract state

    The code works on block buffers chosen at run time.  [cview] forgets which
    buffers are free: it keeps the buffers in use with their contents, the
    buffer the last [node_seek] filled, and the persistent part of the tree.
    [awp] is total correctness over that view; the lemmas below give one rule
    for each primitive of [BPlusTree]. *)

From S2P Require Import Prelude BPlusTree.

(** What [bplus_tree_init] establishes of the globals (see [BPlusBoot]): the
    two capacities coincide, and a node has room for at least four children. *)
Class ConfigOk `(cfg : Config) : Prop := {
  cfg_order : _max_order = _max_entries;
  cfg_min : 4 <= _max_order;
  cfg_block : 0 < _block_size;
  cfg_even : _block_size mod 2 = 0
}.

Record cview := mkView {
  v_mem : gmap nat bplus_node;
  v_seek : option (nat * bplus_node);
  v_fd : gmap Z bplus_node;
  v_level : Z;
  v_root : Z;
  v_fsize : Z;
  v_free : list Z
}.

Section view.
Context `{Hcfg : ConfigOk}.

(** The arrays of a block have one cell per entry (or child). *)
Definition node_sized (n : bplus_node) : Prop :=
  length (n_key n) = Z.to_nat _max_entries /\ length (n_val n) = Z.to_nat _max_entries.

Record shows (t : bplus_tree) (a : cview) : Prop := {
  shows_caches : length (t_caches t) = MIN_CACHE_NUM;
  shows_used_len : length (t_used t) = MIN_CACHE_NUM;
  shows_used : forall i, (i < MIN_CACHE_NUM)%nat ->
    t_used t !! i = Some (bool_decide (is_Some (v_mem a !! i)));
  shows_mem : forall i n, v_mem a !! i = Some n -> t_caches t !! i = Some n;
  shows_seek : forall i n, v_seek a = Some (i, n) -> v_mem a !! i = None /\ t_caches t !! i = Some n;
  shows_sized : Forall node_sized (t_caches t);
  shows_fd_sized : map_Forall (fun _ => node_sized) (v_fd a);
  shows_fd : t_fd t = v_fd a;
  shows_level : t_level t = v_level a;
  shows_root : t_root t = v_root a;
  shows_fsize : t_file_size t = v_fsize a;
  shows_free : t_free_blocks t = v_free a
}.

Definition awp {A} (m : T A) (Q : A -> cview -> Prop) (a : cview) : Prop :=
  forall t, shows t a -> wp m (fun x t' => exists a', shows t' a' /\ Q x a') t.

Lemma awp_ret {A} (x : A) (Q : A -> cview -> Prop) a : Q x a -> awp (ret x) Q a.
Proof. intros H t Ht. apply wp_ret. eauto. Qed.

Lemma awp_bind {A B} (m : T A) (k : A -> T B) Q a :
  awp m (fun x a' => awp (k x) Q a') a -> awp (bind m k) Q a.
Proof.
  intros H t Ht. apply wp_bind. eapply wp_mono; [by apply H|].
  intros x t' (a' & Ht' & Hk). by apply Hk.
Qed.

Lemma awp_mono {A} (m : T A) (P Q : A -> cview -> Prop) a :
  awp m P a -> (forall x a', P x a' -> Q x a') -> awp m Q a.
Proof. intros H HPQ t Ht. eapply wp_mono; [by apply H|].
  intros x t' (a' & ? & ?). eauto.
Qed.

Lemma awp_lift {A} (r : result A) (x : A) (Q : A -> cview -> Prop) a :
  r = Ok x -> Q x a -> awp (lift r) Q a.
Proof. intros Hr HQ t Ht. eapply wp_lift; eauto. Qed.

Lemma awp_assert (b : bool) (Q : unit -> cview -> Prop) a :
  b = true -> Q tt a -> awp (assert b) Q a.
Proof. intros Hb HQ t Ht. apply wp_assert; eauto. Qed.

Lemma awp_gets {A} (f : bplus_tree -> A) (g : cview -> A) (Q : A -> cview -> Prop) a :
  (forall t, shows t a -> f t = g a) -> Q (g a) a -> awp (gets f) Q a.
Proof. intros Hfg HQ t Ht. apply wp_gets. rewrite (Hfg t Ht). eauto. Qed.

Lemma awp_get_node p n Q a :
  v_mem a !! p = Some n -> Q n a -> awp (get_node p) Q a.
Proof.
  intros Hp HQ t Ht. exists n, t. unfold get_node.
  rewrite (shows_mem _ _ Ht _ _ Hp). eauto.
Qed.

Lemma awp_get_seek p n Q a :
  v_seek a = Some (p, n) -> Q n a -> awp (get_node p) Q a.
Proof.
  intros Hp HQ t Ht. exists n, t. unfold get_node.
  rewrite (proj2 (shows_seek _ _ Ht _ _ Hp)). eauto.
Qed.

(** Setters of the view. *)
Definition w_mem (v : gmap nat bplus_node) (a : cview) : cview :=
  mkView v (v_seek a) (v_fd a) (v_level a) (v_root a) (v_fsize a) (v_free a).
Definition w_seek (v : option (nat * bplus_node)) (a : cview) : cview :=
  mkView (v_mem a) v (v_fd a) (v_level a) (v_root a) (v_fsize a) (v_free a).
Definition w_fd (v : gmap Z bplus_node) (a : cview) : cview :=
  mkView (v_mem a) (v_seek a) v (v_level a) (v_root a) (v_fsize a) (v_free a).
Definition w_level (v : Z) (a : cview) : cview :=
  mkView (v_mem a) (v_seek a) (v_fd a) v (v_root a) (v_fsize a) (v_free a).
Definition w_root (v : Z) (a : cview) : cview :=
  mkView (v_mem a) (v_seek a) (v_fd a) (v_level a) v (v_fsize a) (v_free a).
Definition w_fsize (v : Z) (a : cview) : cview :=
  mkView (v_mem a) (v_seek a) (v_fd a) (v_level a) (v_root a) v (v_free a).
Definition w_free (v : list Z) (a : cview) : cview :=
  mkView (v_mem a) (v_seek a) (v_fd a) (v_level a) (v_root a) (v_fsize a) v.

Lemma shows_mem_lt t a i n : shows t a -> v_mem a !! i = Some n -> (i < MIN_CACHE_NUM)%nat.
Proof.
  intros Ht Hi. rewrite <- (shows_caches _ _ Ht).
  eapply lookup_lt_Some, shows_mem; eauto.
Qed.

Lemma shows_node_sized t a p n : shows t a -> v_mem a !! p = Some n -> node_sized n.
Proof.
  intros Ht Hp. eapply (Forall_lookup_1 _ _ p); [apply (shows_sized _ _ Ht)|].
  by apply (shows_mem _ _ Ht).
Qed.

Lemma awp_put_node p n n0 Q a :
  v_mem a !! p = Some n0 -> node_sized n ->
  Q tt (w_mem (<[p := n]> (v_mem a)) a) -> awp (put_node p n) Q a.
Proof.
  intros Hp Hn HQ t Ht. apply wp_modify. eexists. split; [|exact HQ].
  pose proof (shows_mem_lt _ _ _ _ Ht Hp) as Hlt.
  destruct Ht. split; simpl; try done.
  - by rewrite length_insert.
  - intros i Hi. rewrite shows_used0 by done. f_equal. apply bool_decide_ext.
    rewrite lookup_insert. case_decide; subst; [|done].
    rewrite Hp. by split.
  - intros i n' Hi. rewrite lookup_insert in Hi. case_decide; simplify_eq.
    + apply list_lookup_insert_eq. lia.
    + rewrite list_lookup_insert_ne by done. by apply shows_mem0.
  - intros i n' Hs. destruct (shows_seek0 _ _ Hs) as [H1 H2].
    assert (p <> i) by congruence.
    rewrite lookup_insert_ne, list_lookup_insert_ne by done. done.
  - by apply Forall_insert.
Qed.

Lemma awp_upd p f n Q a :
  v_mem a !! p = Some n -> (node_sized n -> node_sized (f n)) ->
  (node_sized n -> Q tt (w_mem (<[p := f n]> (v_mem a)) a)) -> awp (upd p f) Q a.
Proof.
  intros Hp Hn HQ t Ht. pose proof (shows_node_sized _ _ _ _ Ht Hp) as Hs.
  revert t Ht. apply awp_bind. eapply awp_get_node; [done|].
  eapply awp_put_node; eauto.
Qed.

Lemma awp_lift_put p n0 (r : result (list Z)) g k Q a :
  v_mem a !! p = Some n0 -> r = Ok k -> node_sized (g k n0) ->
  Q tt (w_mem (<[p := g k n0]> (v_mem a)) a) ->
  awp (k <- lift r ;; put_node p (g k n0)) Q a.
Proof.
  intros Hp Hr Hs HQ. apply awp_bind. eapply awp_lift; [done|].
  by eapply awp_put_node.
Qed.

(** A node in a used buffer has full-size arrays. *)
Lemma awp_sized {A} (m : T A) Q a p n :
  v_mem a !! p = Some n -> (node_sized n -> awp m Q a) -> awp m Q a.
Proof. intros Hp H t Ht. apply H; [|done]. by eapply shows_node_sized. Qed.

Lemma awp_fd_sized {A} (m : T A) Q a :
  (map_Forall (fun _ => node_sized) (v_fd a) -> awp m Q a) -> awp m Q a.
Proof. intros H t Ht. apply H; [|done]. apply (shows_fd_sized _ _ Ht). Qed.

(** The view may forget the buffer of the last [node_seek]. *)
Lemma shows_drop_seek t a : shows t a -> shows t (w_seek None a).
Proof. intros []. split; simpl; done. Qed.

(** *** Reading and writing cells *)

Lemma key_cap_le n : key_cap n <= _max_entries.
Proof. unfold key_cap. rewrite cfg_order. destruct (is_leaf n); lia. Qed.
Lemma val_cap_eq n : val_cap n = _max_entries.
Proof. unfold val_cap. rewrite cfg_order. by destruct (is_leaf n). Qed.

Lemma awp_key_at p i n k Q a :
  v_mem a !! p = Some n -> 0 <= i < key_cap n -> n_key n !! Z.to_nat i = Some k ->
  Q k a -> awp (key_at p i) Q a.
Proof.
  intros Hp Hi Hk HQ. apply awp_bind. eapply awp_get_node; [done|].
  eapply awp_lift; [|done]. by apply rd_ok.
Qed.

Lemma awp_val_at p i n k Q a :
  v_mem a !! p = Some n -> 0 <= i < val_cap n -> n_val n !! Z.to_nat i = Some k ->
  Q k a -> awp (val_at p i) Q a.
Proof.
  intros Hp Hi Hk HQ. apply awp_bind. eapply awp_get_node; [done|].
  eapply awp_lift; [|done]. by apply rd_ok.
Qed.

Lemma awp_val_at_seek p i n k Q a :
  v_seek a = Some (p, n) -> 0 <= i < val_cap n -> n_val n !! Z.to_nat i = Some k ->
  Q k a -> awp (val_at p i) Q a.
Proof.
  intros Hp Hi Hk HQ. apply awp_bind. eapply awp_get_seek; [done|].
  eapply awp_lift; [|done]. by apply rd_ok.
Qed.

Lemma awp_set_key_at p i x n Q a :
  v_mem a !! p = Some n -> 0 <= i < key_cap n ->
  Q tt (w_mem (<[p := set_keys (<[Z.to_nat i := x]> (n_key n)) n]> (v_mem a)) a) ->
  awp (set_key_at p i x) Q a.
Proof.
  intros Hp Hi HQ. pose proof (key_cap_le n). eapply awp_sized; [done|]. intros [Hk Hv].
  apply awp_bind. eapply awp_get_node; [done|].
  eapply (awp_lift_put _ _ _ set_keys); [done|apply wr_ok; lia| |done].
  split; simpl; [by rewrite length_insert | done].
Qed.

Lemma awp_set_val_at p i x n Q a :
  v_mem a !! p = Some n -> 0 <= i < val_cap n ->
  Q tt (w_mem (<[p := set_vals (<[Z.to_nat i := x]> (n_val n)) n]> (v_mem a)) a) ->
  awp (set_val_at p i x) Q a.
Proof.
  intros Hp Hi HQ. pose proof (val_cap_eq n). eapply awp_sized; [done|]. intros [Hk Hv].
  apply awp_bind. eapply awp_get_node; [done|].
  eapply (awp_lift_put _ _ _ set_vals); [done|apply wr_ok; lia| |done].
  split; simpl; [done | by rewrite length_insert].
Qed.

Lemma awp_memmove_key dst di src si n nd ns Q a :
  v_mem a !! dst = Some nd -> v_mem a !! src = Some ns ->
  0 <= n -> 0 <= di -> di + n <= key_cap nd -> 0 <= si -> si + n <= key_cap ns ->
  Q tt (w_mem (<[dst := set_keys (mm (n_key nd) (Z.to_nat di) (n_key ns) (Z.to_nat si) (Z.to_nat n)) nd]>
                 (v_mem a)) a) ->
  awp (memmove_key dst di src si n) Q a.
Proof.
  intros Hd Hs H1 H2 H3 H4 H5 HQ. pose proof (key_cap_le nd). pose proof (key_cap_le ns).
  eapply awp_sized; [exact Hd|]. intros [Hdk Hdv]. eapply awp_sized; [exact Hs|]. intros [Hsk Hsv].
  apply awp_bind. eapply awp_get_node; [done|]. apply awp_bind. eapply awp_get_node; [done|].
  eapply (awp_lift_put _ _ _ set_keys); [done|apply memmove_ok; lia| |done].
  split; simpl; [rewrite length_mm; lia | done].
Qed.

Lemma awp_memmove_val dst di src si n nd ns Q a :
  v_mem a !! dst = Some nd -> v_mem a !! src = Some ns ->
  0 <= n -> 0 <= di -> di + n <= val_cap nd -> 0 <= si -> si + n <= val_cap ns ->
  Q tt (w_mem (<[dst := set_vals (mm (n_val nd) (Z.to_nat di) (n_val ns) (Z.to_nat si) (Z.to_nat n)) nd]>
                 (v_mem a)) a) ->
  awp (memmove_val dst di src si n) Q a.
Proof.
  intros Hd Hs H1 H2 H3 H4 H5 HQ. pose proof (val_cap_eq nd). pose proof (val_cap_eq ns).
  eapply awp_sized; [exact Hd|]. intros [Hdk Hdv]. eapply awp_sized; [exact Hs|]. intros [Hsk Hsv].
  apply awp_bind. eapply awp_get_node; [done|]. apply awp_bind. eapply awp_get_node; [done|].
  eapply (awp_lift_put _ _ _ set_vals); [done|apply memmove_ok; lia| |done].
  split; simpl; [done | rewrite length_mm; lia].
Qed.

(** *** Taking and returning buffers *)

Lemma first_unused_Some i used p :
  first_unused i used = Some p -> exists j, p = (i + j)%nat /\ used !! j = Some false.
Proof.
  revert i. induction used as [|u used IH]; intros i H; simpl in H; [done|].
  destruct u; simpl in H.
  - destruct (IH _ H) as (j & -> & Hj). exists (S j). split; [lia | done].
  - simplify_eq. exists 0%nat. split; [lia | done].
Qed.

Lemma first_unused_None i used : first_unused i used = None -> Forall (fun b => b = true) used.
Proof.
  revert i. induction used as [|u used IH]; intros i H; simpl in H; [constructor|].
  destruct u; simpl in H; [|done]. constructor; eauto.
Qed.

(** While fewer than [MIN_CACHE_NUM] buffers are in use, there is a free one. *)
Lemma first_unused_shows t a :
  shows t a -> (size (v_mem a) < MIN_CACHE_NUM)%nat ->
  exists p, first_unused 0 (take MIN_CACHE_NUM (t_used t)) = Some p /\
    (p < MIN_CACHE_NUM)%nat /\ v_mem a !! p = None.
Proof.
  intros Ht Hsize. rewrite take_ge by (rewrite (shows_used_len _ _ Ht); lia).
  destruct (first_unused 0 (t_used t)) as [p|] eqn:Hf.
  - apply first_unused_Some in Hf as (j & -> & Hj). exists j. split; [done|].
    pose proof (lookup_lt_Some _ _ _ Hj) as Hlt. rewrite (shows_used_len _ _ Ht) in Hlt.
    split; [lia|]. rewrite (shows_used _ _ Ht) in Hj by done.
    simplify_eq. apply bool_decide_eq_false in Hj. by apply eq_None_not_Some.
  - exfalso. apply first_unused_None in Hf.
    assert (set_seq 0 MIN_CACHE_NUM ⊆ dom (v_mem a)) as Hsub.
    { intros i Hi%elem_of_set_seq. apply elem_of_dom.
      assert (t_used t !! i = Some (bool_decide (is_Some (v_mem a !! i)))) as Hu
        by (apply (shows_used _ _ Ht); lia).
      pose proof (Forall_lookup_1 _ _ _ _ Hf Hu) as Hb. simpl in Hb.
      by apply bool_decide_eq_true in Hb. }
    apply subseteq_size in Hsub. rewrite size_set_seq, size_dom in Hsub. lia.
Qed.

(** Filling a free buffer and marking it used. *)
Lemma shows_use t a p n :
  shows t a -> (p < MIN_CACHE_NUM)%nat -> v_mem a !! p = None -> node_sized n ->
  t_caches t !! p = Some n ->
  shows (set_used (<[p := true]> (t_used t)) t)
        (w_seek None (w_mem (<[p := n]> (v_mem a)) a)).
Proof.
  intros Ht Hp Hnone Hn Hc. pose proof Ht as []. split; simpl; try done.
  - by rewrite length_insert.
  - intros i Hi. rewrite lookup_insert_if by lia. rewrite lookup_insert.
    repeat case_decide; simplify_eq; [by rewrite bool_decide_eq_true_2|by apply shows_used0].
  - intros i n' Hi. rewrite lookup_insert in Hi. case_decide; simplify_eq; [done|].
    by apply shows_mem0.
Qed.

Lemma awp_cache_refer Q a :
  (size (v_mem a) < MIN_CACHE_NUM)%nat ->
  (forall p n, v_mem a !! p = None -> node_sized n ->
     Q p (w_seek None (w_mem (<[p := n]> (v_mem a)) a))) ->
  awp cache_refer Q a.
Proof.
  intros Hsize HQ t Ht. destruct (first_unused_shows t a Ht Hsize) as (p & Hf & Hp & Hnone).
  destruct (lookup_lt_is_Some_2 (t_caches t) p) as [n Hn];
    [by rewrite (shows_caches _ _ Ht)|].
  assert (node_sized n) as Hs by (eapply Forall_lookup_1; [apply (shows_sized _ _ Ht)|done]).
  exists p, (set_used (<[p := true]> (t_used t)) t).
  split; [unfold cache_refer, bind, gets; by rewrite Hf|].
  eexists. split; [by apply shows_use | by apply HQ].
Qed.

Lemma awp_cache_defer p n Q a :
  v_mem a !! p = Some n -> Q tt (w_mem (delete p (v_mem a)) a) -> awp (cache_defer p) Q a.
Proof.
  intros Hp HQ t Ht. apply wp_modify. eexists. split; [|exact HQ].
  pose proof (shows_mem_lt _ _ _ _ Ht Hp). destruct Ht. split; simpl; try done.
  - by rewrite length_insert.
  - intros i Hi. rewrite lookup_insert_if by lia. destruct (decide (i = p)) as [->|].
    + by rewrite lookup_delete_eq.
    + rewrite lookup_delete_ne by done. by apply shows_used0.
  - intros i n' [_ Hi]%lookup_delete_Some. by apply shows_mem0.
  - intros i n' Hs. destruct (shows_seek0 _ _ Hs). split; [|done].
    rewrite lookup_delete. by case_decide.
Qed.

(** [tree->used[i] = 1] for the buffer [node_seek] returned. *)
Lemma awp_cache_mark p n Q a :
  v_seek a = Some (p, n) ->
  Q tt (w_seek None (w_mem (<[p := n]> (v_mem a)) a)) -> awp (cache_mark p) Q a.
Proof.
  intros Hs HQ t Ht. destruct (shows_seek _ _ Ht _ _ Hs) as [H1 H2]. apply wp_modify.
  pose proof (lookup_lt_Some _ _ _ H2) as Hlt. rewrite (shows_caches _ _ Ht) in Hlt.
  eexists. split; [|exact HQ]. apply shows_use; try done.
  eapply Forall_lookup_1; [apply (shows_sized _ _ Ht)|done].
Qed.

(** *** Nodes in and out of the cache *)

Lemma awp_root v Q a : Q tt (w_root v a) -> awp (modify (set_root v)) Q a.
Proof. intros HQ t []. apply wp_modify. eexists. split; [|exact HQ]. by split. Qed.

Lemma awp_level f Q a :
  Q tt (w_level (f (v_level a)) a) -> awp (modify (fun t => set_level (f (t_level t)) t)) Q a.
Proof.
  intros HQ t []. apply wp_modify. eexists. split; [|exact HQ]. split; simpl; first [done | congruence].
Qed.

Lemma awp_level_set l Q a : Q tt (w_level l a) -> awp (modify (set_level l)) Q a.
Proof. apply (awp_level (fun _ => l)). Qed.

Lemma awp_free_add o Q a :
  Q tt (w_free (v_free a ++ [o]) a) ->
  awp (modify (fun t => set_free_blocks (t_free_blocks t ++ [o]) t)) Q a.
Proof.
  intros HQ t []. apply wp_modify. eexists. split; [|exact HQ]. split; simpl; first [done | congruence].
Qed.

Lemma awp_pread p n0 n off Q a :
  v_mem a !! p = Some n0 -> v_fd a !! off = Some n ->
  Q tt (w_mem (<[p := n]> (v_mem a)) a) -> awp (pread p off) Q a.
Proof.
  intros Hp Hn HQ. apply awp_fd_sized. intros Hfd. apply awp_bind.
  eapply (awp_gets _ v_fd); [by intros t []|]. rewrite Hn.
  eapply awp_put_node; [done|by eapply Hfd|done].
Qed.

Lemma awp_node_fetch off n Q a :
  off <> INVALID_OFFSET -> v_fd a !! off = Some n -> (size (v_mem a) < MIN_CACHE_NUM)%nat ->
  (forall p, v_mem a !! p = None ->
     Q (Some p) (w_seek None (w_mem (<[p := n]> (v_mem a)) a))) ->
  awp (node_fetch off) Q a.
Proof.
  intros Hoff Hn Hsize HQ. unfold node_fetch. rewrite (proj2 (Z.eqb_neq _ _) Hoff).
  apply awp_bind, awp_cache_refer; [done|]. intros p n0 Hp Hs.
  apply awp_bind. eapply awp_pread; simpl; [by rewrite lookup_insert_eq|done|].
  apply awp_ret. rewrite insert_insert_eq. by apply HQ.
Qed.

Lemma awp_node_fetch_null Q a : Q None a -> awp (node_fetch INVALID_OFFSET) Q a.
Proof. intros HQ. by apply awp_ret. Qed.

Lemma awp_node_seek off n Q a :
  off <> INVALID_OFFSET -> v_fd a !! off = Some n -> (size (v_mem a) < MIN_CACHE_NUM)%nat ->
  (forall p, v_mem a !! p = None -> Q (Some p) (w_seek (Some (p, n)) a)) ->
  awp (node_seek off) Q a.
Proof.
  intros Hoff Hn Hsize HQ t Ht. unfold node_seek. rewrite (proj2 (Z.eqb_neq _ _) Hoff).
  destruct (first_unused_shows t a Ht Hsize) as (p & Hf & Hp & Hnone).
  exists (Some p), (set_caches (<[p := n]> (t_caches t)) t).
  split.
  { unfold bind, gets. rewrite Hf. unfold pread, bind, gets.
    rewrite (shows_fd _ _ Ht), Hn. done. }
  eexists. split; [|by apply HQ].
  pose proof (shows_fd_sized _ _ Ht _ _ Hn). destruct Ht. split; simpl; try done.
  - by rewrite length_insert.
  - intros i n' Hi. rewrite lookup_insert_if by lia. case_decide; [congruence|by apply shows_mem0].
  - intros i n' [= <- <-]. split; [done|]. rewrite lookup_insert_if by lia. by rewrite decide_True.
  - by apply Forall_insert.
Qed.

Lemma awp_node_seek_null Q a : Q None a -> awp (node_seek INVALID_OFFSET) Q a.
Proof. intros HQ. by apply awp_ret. Qed.

Lemma awp_pwrite n Q a :
  node_sized n -> Q tt (w_fd (<[n_self n := n]> (v_fd a)) a) -> awp (pwrite n) Q a.
Proof.
  intros Hn HQ t []. apply wp_modify. eexists. split; [|exact HQ]. split; simpl; try done.
  - by apply map_Forall_insert_2.
  - congruence.
Qed.

Lemma awp_node_flush p n Q a :
  v_mem a !! p = Some n ->
  Q tt (w_mem (delete p (v_mem a)) (w_fd (<[n_self n := n]> (v_fd a)) a)) ->
  awp (node_flush (Some p)) Q a.
Proof.
  intros Hp HQ. eapply awp_sized; [exact Hp|]. intros Hs.
  apply awp_bind. eapply awp_get_node; [done|].
  apply awp_bind. apply awp_pwrite; [done|]. by eapply awp_cache_defer.
Qed.

Lemma awp_node_flush_null Q a : Q tt a -> awp (node_flush None) Q a.
Proof. apply awp_ret. Qed.

Lemma awp_node_new Q a :
  (size (v_mem a) < MIN_CACHE_NUM)%nat ->
  (forall p n, v_mem a !! p = None -> node_sized n -> n_self n = INVALID_OFFSET ->
     n_parent n = INVALID_OFFSET -> n_prev n = INVALID_OFFSET -> n_next n = INVALID_OFFSET ->
     Q p (w_seek None (w_mem (<[p := n]> (v_mem a)) a))) ->
  awp node_new Q a.
Proof.
  intros Hsize HQ. apply awp_bind, awp_cache_refer; [done|]. intros p n Hp Hs.
  apply awp_bind. eapply awp_upd; simpl; [by rewrite lookup_insert_eq|done|].
  intros _. apply awp_ret. rewrite insert_insert_eq. by apply HQ.
Qed.

(** A new node of either type. *)
Lemma awp_new_typed ty Q a :
  (size (v_mem a) < MIN_CACHE_NUM)%nat ->
  (forall p n, v_mem a !! p = None -> node_sized n -> n_parent n = INVALID_OFFSET ->
     n_prev n = INVALID_OFFSET -> n_next n = INVALID_OFFSET -> n_type n = ty ->
     Q p (w_seek None (w_mem (<[p := n]> (v_mem a)) a))) ->
  awp (node <- node_new ;; upd node (set_type ty) ;;; ret node) Q a.
Proof.
  intros Hsize HQ. apply awp_bind, awp_node_new; [done|]. intros p n Hp Hs H1 H2 H3 H4.
  apply awp_bind. eapply awp_upd; simpl; [by rewrite lookup_insert_eq|done|].
  intros _. apply awp_ret. rewrite insert_insert_eq. by apply HQ.
Qed.

Lemma awp_leaf_new Q a :
  (size (v_mem a) < MIN_CACHE_NUM)%nat ->
  (forall p n, v_mem a !! p = None -> node_sized n -> n_parent n = INVALID_OFFSET ->
     n_prev n = INVALID_OFFSET -> n_next n = INVALID_OFFSET -> n_type n = BPLUS_TREE_LEAF ->
     Q p (w_seek None (w_mem (<[p := n]> (v_mem a)) a))) ->
  awp leaf_new Q a.
Proof. apply awp_new_typed. Qed.

Lemma awp_non_leaf_new Q a :
  (size (v_mem a) < MIN_CACHE_NUM)%nat ->
  (forall p n, v_mem a !! p = None -> node_sized n -> n_parent n = INVALID_OFFSET ->
     n_prev n = INVALID_OFFSET -> n_next n = INVALID_OFFSET -> n_type n = BPLUS_TREE_NON_LEAF ->
     Q p (w_seek None (w_mem (<[p := n]> (v_mem a)) a))) ->
  awp non_leaf_new Q a.
Proof. apply awp_new_typed. Qed.

(** *** Allocation of blocks *)

(** The block a new node gets, the file size and the free blocks after. *)
Definition alloc (fs : Z) (fr : list Z) : Z * Z * list Z :=
  match fr with
  | [] => (fs, fs + _block_size, [])
  | o :: fr => (o, fs, fr)
  end.

Lemma awp_new_node_append p n Q a o fs fr :
  v_mem a !! p = Some n -> alloc (v_fsize a) (v_free a) = (o, fs, fr) ->
  Q o (w_free fr (w_fsize fs (w_mem (<[p := set_self o n]> (v_mem a)) a))) ->
  awp (new_node_append p) Q a.
Proof.
  intros Hp Ha HQ. apply awp_bind. eapply (awp_gets _ v_free); [by intros t []|].
  unfold alloc in Ha. destruct (v_free a) as [|o' fr'] eqn:Hf; simplify_eq.
  - apply awp_bind. eapply (awp_gets _ v_fsize); [by intros t []|].
    apply awp_bind. eapply awp_upd; [done|done|]. intros _.
    intros t []. simpl in *. eexists _, _. split; [done|]. eexists. split; [|exact HQ].
    split; simpl; first [done | congruence].
  - apply awp_bind. intros t Ht. apply wp_modify.
    exists (w_free fr a). split; [by destruct Ht|].
    apply awp_bind. eapply awp_upd; [done|done|]. intros _. by apply awp_ret.
Qed.

End view.
