(* ===== verification/BPlusNode.v ===== *)
(** * Node contents: binary search and the edits of one or two nodes

    [node_is] says which keys and values a block holds, whatever its stale
    cells are.  The search in a node is shown to find the rank of a key, and
    every array manipulation of the code to be a list operation on the
    contents. *)

From S2P Require Import Prelude BPlusTree BPlusOps BPlusView.
From Stdlib Require Import Sorting.Sorted.

(** ** Sorted lists and ranks *)

Abbreviation sorted := (StronglySorted Z.lt).

(** The index of the first key that is not below [x]; the number of keys that
    are at most [x], which is the index of the child to follow. *)
Fixpoint rank (x : Z) (ks : list Z) : nat :=
  match ks with
  | [] => 0
  | k :: ks => if k <? x then S (rank x ks) else 0
  end.
Fixpoint crank (x : Z) (ks : list Z) : nat :=
  match ks with
  | [] => 0
  | k :: ks => if k <=? x then S (crank x ks) else 0
  end.

Lemma sorted_lookup ks i j a b :
  sorted ks -> ks !! i = Some a -> ks !! j = Some b -> (i < j)%nat -> a < b.
Proof.
  intros Hs. revert i j. induction Hs as [|k ks Hs IH Hk]; intros i j Hi Hj Hij; [done|].
  destruct i as [|i], j as [|j]; simpl in *; try lia.
  - simplify_eq. eapply Forall_lookup_1 in Hk; eauto.
  - eapply IH; eauto. lia.
Qed.

Lemma sorted_app ks1 ks2 :
  sorted (ks1 ++ ks2) <->
  sorted ks1 /\ sorted ks2 /\ (forall a b, a ∈ ks1 -> b ∈ ks2 -> a < b).
Proof.
  induction ks1 as [|k ks1 IH]; simpl.
  - split; [|by intros (_ & ? & _)]. intros H. repeat split; [constructor|done|].
    intros a b Ha. by apply not_elem_of_nil in Ha.
  - split.
    + intros [Hs Hk]%StronglySorted_inv. apply IH in Hs as (H1 & H2 & H3).
      apply Forall_app in Hk as [Hk1 Hk2]. repeat split; [by constructor|done|].
      intros a b [->|Ha]%elem_of_cons Hb; [|by apply H3].
      by eapply Forall_forall in Hk2; eauto using list_elem_of_In.
    + intros (H1 & H2 & H3). apply StronglySorted_inv in H1 as [H1 Hk]. constructor.
      * apply IH. repeat split; [done|done|]. intros a b Ha Hb. apply H3; [by right|done].
      * apply Forall_app. split; [done|]. apply Forall_forall. intros b Hb. apply H3; [by left|].
        done.
Qed.

Lemma sorted_cons k ks : sorted (k :: ks) <-> sorted ks /\ (forall b, b ∈ ks -> k < b).
Proof.
  change (k :: ks) with ([k] ++ ks). rewrite sorted_app. split.
  - intros (_ & H & H3). split; [done|]. intros b Hb. apply H3; [by left | done].
  - intros [H1 H2]. repeat split; [repeat constructor|done|].
    intros a b ->%list_elem_of_singleton Hb. by apply H2.
Qed.

Lemma rank_le x ks : (rank x ks <= length ks)%nat.
Proof. induction ks as [|k ks IH]; simpl; [done|]. destruct (k <? x); lia. Qed.
Lemma crank_le x ks : (crank x ks <= length ks)%nat.
Proof. induction ks as [|k ks IH]; simpl; [done|]. destruct (k <=? x); lia. Qed.

(** A position that separates the keys below [x] from the others is the rank. *)
Lemma rank_unique x ks r :
  (r <= length ks)%nat ->
  (forall i k, ks !! i = Some k -> (i < r)%nat -> k < x) ->
  (forall k, ks !! r = Some k -> x <= k) -> rank x ks = r.
Proof.
  revert r. induction ks as [|k ks IH]; intros r Hr Hlt Hge; simpl in *; [lia|].
  destruct r as [|r].
  - rewrite (proj2 (Z.ltb_ge k x)); [done|]. by apply Hge.
  - rewrite (proj2 (Z.ltb_lt k x)) by (apply (Hlt 0%nat); [done|lia]). f_equal.
    apply IH; [lia| |done]. intros i a Hi Hir. apply (Hlt (S i)); [done|lia].
Qed.

Lemma rank_lt x ks i k : ks !! i = Some k -> (i < rank x ks)%nat -> k < x.
Proof.
  revert i. induction ks as [|a ks IH]; intros i Hi Hr; simpl in *; [lia|].
  destruct (Z.ltb_spec a x); [|lia]. destruct i; simplify_eq/=; [done|].
  eapply IH; [done|lia].
Qed.

Lemma rank_ge x ks i k : sorted ks -> ks !! i = Some k -> (rank x ks <= i)%nat -> x <= k.
Proof.
  intros Hs. revert i. induction Hs as [|a ks Hs IH Ha]; intros i Hi Hr; simpl in *; [done|].
  destruct (Z.ltb_spec a x).
  - destruct i; simpl in *; [lia|]. eapply IH; [done|lia].
  - destruct i; simplify_eq/=; [done|]. eapply Forall_lookup_1 in Ha; [|done]. lia.
Qed.

(** The child index against the rank: one more when the key is present. *)
Lemma crank_rank x ks :
  sorted ks -> crank x ks = (rank x ks + if decide (x ∈ ks) then 1 else 0)%nat.
Proof.
  induction 1 as [|a ks Hs IH Ha]; [done|]. simpl.
  destruct (Z.leb_spec a x), (Z.ltb_spec a x); try lia.
  - rewrite IH, (decide_ext (x ∈ a :: ks) (x ∈ ks)); [done|]. rewrite elem_of_cons. intuition lia.
  - assert (a = x) as -> by lia. rewrite decide_True by (by left).
    assert (crank x ks = 0%nat) as ->; [|done]. destruct ks as [|b ks]; [done|]. simpl.
    apply Forall_cons in Ha as [Ha _]. by rewrite (proj2 (Z.leb_gt b x)) by lia.
  - rewrite decide_False; [done|]. rewrite elem_of_cons. intros [->|Hx]; [lia|].
    rewrite Forall_forall in Ha. specialize (Ha _ Hx). lia.
Qed.

Lemma rank_elem x ks : sorted ks -> x ∈ ks -> ks !! rank x ks = Some x.
Proof.
  induction 1 as [|a ks Hs IH Ha]; intros Hx; [by apply not_elem_of_nil in Hx|].
  simpl. apply elem_of_cons in Hx as [->|Hx].
  - by rewrite Z.ltb_irrefl.
  - rewrite Forall_forall in Ha. pose proof (Ha _ Hx).
    rewrite (proj2 (Z.ltb_lt a x)) by done. simpl. by apply IH.
Qed.

Section node.
Context `{Hcfg : ConfigOk}.

Abbreviation cap := (Z.to_nat _max_entries).

Lemma cfg_entries : 4 <= _max_entries.
Proof. rewrite <- cfg_order. apply cfg_min. Qed.

(** [N] is a leaf with the keys [ks] and the data [vs], or a non-leaf with the
    keys [ks] and the children [vs]. *)
Record node_is (N : bplus_node) (lf : bool) (ks vs : list Z) : Prop := {
  ni_type : n_type N = if lf then BPLUS_TREE_LEAF else BPLUS_TREE_NON_LEAF;
  ni_children : n_children N = Z.of_nat (length vs);
  ni_keys : take (length ks) (n_key N) = ks;
  ni_vals : take (length vs) (n_val N) = vs;
  ni_len : length vs = (length ks + if lf then 0 else 1)%nat;
  ni_cap : (length vs <= cap)%nat
}.

Lemma ni_leaf N lf ks vs : node_is N lf ks vs -> is_leaf N = lf.
Proof. intros [Ht _ _ _ _ _]. unfold is_leaf. rewrite Ht. by destruct lf. Qed.

Lemma ni_key_cap N lf ks vs :
  node_is N lf ks vs -> key_cap N = _max_entries - if lf then 0 else 1.
Proof. intros H. unfold key_cap. rewrite (ni_leaf _ _ _ _ H), cfg_order. destruct lf; lia. Qed.

Lemma ni_key_len N lf ks vs : node_is N lf ks vs -> Z.of_nat (length ks) <= key_cap N.
Proof.
  intros H. rewrite (ni_key_cap _ _ _ _ H). pose proof (ni_len _ _ _ _ H). pose proof (ni_cap _ _ _ _ H).
  pose proof cfg_entries. destruct lf; lia.
Qed.

Lemma ni_key_lookup N lf ks vs i :
  node_is N lf ks vs -> (i < length ks)%nat -> n_key N !! i = ks !! i.
Proof. intros H Hi. rewrite <- (ni_keys _ _ _ _ H), lookup_take_if. by rewrite decide_True. Qed.

Lemma ni_val_lookup N lf ks vs i :
  node_is N lf ks vs -> (i < length vs)%nat -> n_val N !! i = vs !! i.
Proof. intros H Hi. rewrite <- (ni_vals _ _ _ _ H), lookup_take_if. by rewrite decide_True. Qed.

(** ** Binary search *)

Lemma key_binary_search_loop_ok fuel arr kcap ks x low high :
  sorted ks -> (forall i, (i < length ks)%nat -> arr !! i = ks !! i) ->
  Z.of_nat (length ks) <= kcap ->
  -1 <= low -> low < high -> high <= Z.of_nat (length ks) ->
  (forall i k, ks !! i = Some k -> Z.of_nat i <= low -> k < x) ->
  (forall i k, ks !! i = Some k -> high <= Z.of_nat i -> x <= k) ->
  high - low < Z.of_nat fuel ->
  key_binary_search_loop fuel arr kcap x low high = Ok (Z.of_nat (rank x ks)).
Proof.
  intros Hs Harr Hcap. revert low high.
  induction fuel as [|fuel IH]; intros low high Hl Hlh Hh Hlt Hge Hf; [lia|]. simpl.
  destruct (Z.ltb_spec (low + 1) high).
  - set (mid := low + (high - low) / 2).
    assert (low < mid < high) as Hmid by (unfold mid; div_lia).
    destruct (lookup_lt_is_Some_2 ks (Z.to_nat mid)) as [k Hk]; [lia|].
    rewrite (rd_ok arr kcap mid k); [|lia|rewrite Harr; [done|lia]].
    destruct (Z.ltb_spec k x); apply IH; try lia; try done.
    + intros i a Hi Hil. destruct (decide (i = Z.to_nat mid)) as [->|]; [congruence|].
      assert (a < k) by (eapply (sorted_lookup ks i); eauto; lia). lia.
    + intros i a Hi Hih. destruct (decide (i = Z.to_nat mid)) as [->|]; [simplify_eq; lia|].
      assert (k < a) by (eapply (sorted_lookup ks (Z.to_nat mid)); eauto; lia). lia.
  - assert (high = low + 1) as -> by lia. f_equal.
    rewrite (rank_unique x ks (Z.to_nat (low + 1))); [lia|lia| |].
    + intros i k Hi Hir. apply (Hlt i); [done|lia].
    + intros k Hk. apply (Hge _ _ Hk). lia.
Qed.

(** The search of a node returns the key's index, or the complement of the
    index it would have; it never reads outside the used cells. *)
Lemma key_binary_search_ok N lf ks vs x :
  node_is N lf ks vs -> sorted ks ->
  key_binary_search N x =
    Ok (if decide (x ∈ ks) then Z.of_nat (rank x ks) else - Z.of_nat (rank x ks) - 1).
Proof.
  intros HN Hs. unfold key_binary_search. rewrite (ni_leaf _ _ _ _ HN), (ni_children _ _ _ _ HN).
  set (len := if lf then _ else _).
  assert (len = Z.of_nat (length ks)) as -> by (unfold len; rewrite (ni_len _ _ _ _ HN); destruct lf; lia).
  pose proof (ni_key_len _ _ _ _ HN). pose proof (rank_le x ks).
  rewrite (key_binary_search_loop_ok _ _ _ ks);
    [|done|intros i Hi; by eapply ni_key_lookup|lia..| | |lia].
  2, 3: intros i k Hk%lookup_lt_Some; lia.
  destruct (Z.leb_spec (Z.of_nat (length ks)) (Z.of_nat (rank x ks))).
  - rewrite decide_False; [done|]. intros Hx. pose proof (lookup_lt_Some _ _ _ (rank_elem x ks Hs Hx)). lia.
  - destruct (lookup_lt_is_Some_2 ks (rank x ks)) as [k Hk]; [lia|].
    rewrite (rd_ok _ _ _ k); [|lia|rewrite Nat2Z.id; erewrite ni_key_lookup; eauto; lia].
    destruct (Z.eqb_spec k x) as [->|Hne]; simpl.
    + rewrite decide_True; [done|]. by eapply list_elem_of_lookup_2.
    + rewrite decide_False; [done|]. intros Hx. rewrite (rank_elem x ks Hs Hx) in Hk. congruence.
Qed.

(** The child followed for [x] is the one at index [crank x ks]. *)
Lemma child_index_ok x ks :
  sorted ks ->
  (if 0 <=? (if decide (x ∈ ks) then Z.of_nat (rank x ks) else - Z.of_nat (rank x ks) - 1)
   then (if decide (x ∈ ks) then Z.of_nat (rank x ks) else - Z.of_nat (rank x ks) - 1) + 1
   else - (if decide (x ∈ ks) then Z.of_nat (rank x ks) else - Z.of_nat (rank x ks) - 1) - 1)
  = Z.of_nat (crank x ks).
Proof.
  intros Hs. rewrite (crank_rank x ks Hs).
  destruct (decide (x ∈ ks)).
  - rewrite (proj2 (Z.leb_le _ _)); lia.
  - rewrite (proj2 (Z.leb_gt _ _)); lia.
Qed.

(** [parent_key_index] gives the index of the separator left of the child that
    holds the key, [-1] for the first child. *)
Lemma parent_key_index_ok N ks vs x :
  node_is N false ks vs -> sorted ks ->
  parent_key_index N x = Ok (Z.of_nat (crank x ks) - 1).
Proof.
  intros HN Hs. unfold parent_key_index. rewrite (key_binary_search_ok _ _ _ _ x HN Hs), (crank_rank x ks Hs).
  destruct (decide (x ∈ ks)).
  - rewrite (proj2 (Z.leb_le _ _)) by lia. f_equal. lia.
  - rewrite (proj2 (Z.leb_gt _ _)) by lia. f_equal. lia.
Qed.

End node.
