(* ===== verification/BPlusEdit.v ===== *)
(** * Specifications of the routines that edit nodes

    For each routine of [BPlusOps] below the recursive ones: the nodes it
    leaves in the cache and what it writes to the index file, given the
    contents ([node_is]) of the nodes it works on. *)

From S2P Require Import Prelude BPlusTree BPlusOps BPlusView BPlusNode.

(** ** Automation: symbolic execution over the cache view *)

Ltac view_simpl :=
  cbv beta iota delta
    [v_mem v_seek v_fd v_level v_root v_fsize v_free
     w_mem w_seek w_fd w_level w_root w_fsize w_free];
  cbn [n_self n_parent n_prev n_next n_type n_children n_key n_val
       set_self set_parent set_prev set_next set_type set_children set_keys set_vals].
Ltac view_simpl_in H :=
  cbv beta iota delta
    [v_mem v_seek v_fd v_level v_root v_fsize v_free
     w_mem w_seek w_fd w_level w_root w_fsize w_free] in H;
  cbn [n_self n_parent n_prev n_next n_type n_children n_key n_val
       set_self set_parent set_prev set_next set_type set_children set_keys set_vals] in H.

(** The lookup of a buffer in a map of inserts and deletes. *)
Ltac neq := first [ assumption | apply not_eq_sym; assumption ].
Ltac mem_lookup :=
  repeat first
    [ reflexivity | eassumption
    | rewrite lookup_insert_eq | rewrite lookup_insert_ne by neq
    | rewrite lookup_delete_ne by neq ].

Section mem_norm.
Context {V : Type}.
Implicit Types m : gmap nat V.

Lemma insert_over2 m p q x y z :
  p <> q -> <[p := x]> (<[q := y]> (<[p := z]> m)) = <[p := x]> (<[q := y]> m).
Proof. intros. apply map_eq. intros i. rewrite !lookup_insert. repeat case_decide; congruence. Qed.

Lemma insert_over3 m p q r x y z w :
  p <> q -> p <> r ->
  <[p := x]> (<[q := y]> (<[r := z]> (<[p := w]> m))) = <[p := x]> (<[q := y]> (<[r := z]> m)).
Proof. intros. apply map_eq. intros i. rewrite !lookup_insert. repeat case_decide; congruence. Qed.

Lemma insert_over4 m p q r s x y z w v :
  p <> q -> p <> r -> p <> s ->
  <[p := x]> (<[q := y]> (<[r := z]> (<[s := w]> (<[p := v]> m))))
  = <[p := x]> (<[q := y]> (<[r := z]> (<[s := w]> m))).
Proof. intros. apply map_eq. intros i. rewrite !lookup_insert. repeat case_decide; congruence. Qed.

Lemma size_insert_le m p x : (size (<[p := x]> m) <= S (size m))%nat.
Proof. rewrite map_size_insert. destruct (m !! p); simpl; lia. Qed.

Lemma size_insert_Some m p x y : m !! p = Some y -> size (<[p := x]> m) = size m.
Proof. intros H. by rewrite map_size_insert, H. Qed.

Lemma size_insert_lt m p x n : (size m < n)%nat -> (size (<[p := x]> m) < S n)%nat.
Proof. pose proof (size_insert_le m p x). lia. Qed.

Lemma size_delete_le m p : (size (delete p m) <= size m)%nat.
Proof. rewrite map_size_delete. destruct (m !! p); simpl; lia. Qed.

Lemma size_delete_lt m p n : (size m < n)%nat -> (size (delete p m) < n)%nat.
Proof. pose proof (size_delete_le m p). lia. Qed.

Lemma insert_None_ne m p q x : m !! p = None -> m !! q = Some x -> p <> q.
Proof. intros H1 H2 ->. congruence. Qed.
End mem_norm.

(** One write per buffer. *)
Ltac mem_norm :=
  repeat first
    [ rewrite insert_insert_eq | rewrite insert_over2 by neq
    | rewrite insert_over3 by neq | rewrite insert_over4 by neq ].

(** The number of buffers in use. *)
Ltac mem_size :=
  repeat first [ erewrite size_insert_Some by mem_lookup
               | eapply Nat.le_lt_trans; [apply size_delete_le|] ]; arith.

(** The same, from an empty cache. *)
Ltac mem_small :=
  view_simpl; unfold MIN_CACHE_NUM; repeat first [apply size_insert_lt | apply size_delete_lt];
  rewrite map_size_empty; lia.

(** Equality of two cache maps. *)
Ltac mem_eq :=
  apply map_eq; let i := fresh "i" in intros i;
  repeat first [rewrite lookup_insert | rewrite lookup_delete | rewrite lookup_empty];
  repeat case_decide; congruence.

(** Two buffers in use. *)
Ltac to_mem2 p N q M :=
  match goal with |- awp _ _ (mkView ?m _ _ _ _ _ _) =>
    replace m with (<[p := N]> (<[q := M]> (∅ : gmap nat bplus_node))) by mem_eq end.

(** One step of symbolic execution; arithmetic and lookups are left to the
    caller when they are not immediate. *)
Ltac astep :=
  view_simpl;
  lazymatch goal with
  | |- awp (bind _ _) _ _ => apply awp_bind
  | |- awp (ret _) _ _ => apply awp_ret
  | |- awp (get_node _) _ _ => eapply awp_get_node; [view_simpl; mem_lookup|]
  | |- awp (upd _ _) _ _ => eapply awp_upd; [view_simpl; mem_lookup|done|intros _]
  | |- awp (key_at _ _) _ _ => eapply awp_key_at; [view_simpl; mem_lookup| | |]
  | |- awp (val_at _ _) _ _ => eapply awp_val_at; [view_simpl; mem_lookup| | |]
  | |- awp (set_key_at _ _ _) _ _ => eapply awp_set_key_at; [view_simpl; mem_lookup| |]
  | |- awp (set_val_at _ _ _) _ _ => eapply awp_set_val_at; [view_simpl; mem_lookup| |]
  | |- awp (memmove_key _ _ _ _ _) _ _ =>
      eapply awp_memmove_key; [view_simpl; mem_lookup|view_simpl; mem_lookup| | | | | |]
  | |- awp (memmove_val _ _ _ _ _) _ _ =>
      eapply awp_memmove_val; [view_simpl; mem_lookup|view_simpl; mem_lookup| | | | | |]
  | |- awp (node_flush (Some _)) _ _ => eapply awp_node_flush; [view_simpl; mem_lookup|]
  | |- awp (node_flush None) _ _ => apply awp_node_flush_null
  | |- awp (cache_defer _) _ _ => eapply awp_cache_defer; [view_simpl; mem_lookup|]
  | |- awp (assert _) _ _ => apply awp_assert
  | |- awp (modify (set_root _)) _ _ => apply awp_root
  | |- awp (modify (set_level _)) _ _ => apply awp_level_set
  | |- awp (modify (fun t => set_level (t_level t + ?d) t)) _ _ => apply (awp_level (fun l => l + d))
  | |- awp (modify (fun t => set_level (t_level t - ?d) t)) _ _ => apply (awp_level (fun l => l - d))
  | |- awp (modify (fun t => set_free_blocks (t_free_blocks t ++ [_]) t)) _ _ => apply awp_free_add
  end.

Section caps.
Context `{Hcfg : ConfigOk}.

Lemma key_cap_leaf N : n_type N = BPLUS_TREE_LEAF -> key_cap N = _max_entries.
Proof. intros H. unfold key_cap, is_leaf. by rewrite H. Qed.
Lemma key_cap_non N : n_type N = BPLUS_TREE_NON_LEAF -> key_cap N = _max_entries - 1.
Proof. intros H. unfold key_cap, is_leaf. rewrite H, cfg_order. done. Qed.
End caps.

Ltac caps :=
  rewrite ?val_cap_eq, ?cfg_order;
  repeat first [ rewrite key_cap_leaf by (view_simpl; assumption)
               | rewrite key_cap_non by (view_simpl; assumption) ].

Ltac aside :=
  lazymatch goal with
  | |- awp _ _ _ => idtac
  | |- negb (_ =? _) = true => apply negb_true_iff, Z.eqb_neq; congruence
  | |- (_ <=? _) = true => apply Z.leb_le; arith
  | |- _ => caps; view_simpl; arith
  end.
Ltac asteps := repeat (astep; try aside).

(** Close a goal about a view by a hypothesis about a view with the same
    components, leaving the equality of the cache and of the file. *)
Ltac view_apply HQ :=
  match goal with |- ?P _ (mkView ?M _ ?F _ _ _ _) =>
    match type of HQ with P _ (mkView ?M' _ ?F' _ _ _ _) =>
      replace M with M'; [replace F with F'; [exact HQ|]|] end end;
  swap 1 2.

(** [node_is] of a node whose arrays were edited. *)
Ltac ni_solve :=
  split; view_simpl; rewrite ?cfg_order; [done|len|list_ext|list_ext|len|len].

(** Replace the contents of a node by prefixes of its cells. *)
Ltac ni_cells HN :=
  let Ht := fresh "Ht" in let Hc := fresh "Hc" in let Hks := fresh "Hks" in
  let Hvs := fresh "Hvs" in let Hl := fresh "Hl" in let Hcap := fresh "Hcap" in
  destruct HN as [Ht Hc Hks Hvs Hl Hcap];
  match type of Hks with take (length ?ks) ?K = _ =>
  match type of Hvs with take (length ?vs) ?V = _ =>
    let nk := fresh "nk" in let nv := fresh "nv" in
    let Ek := fresh "Ek" in let Ev := fresh "Ev" in
    remember (length ks) as nk eqn:Ek; remember (length vs) as nv eqn:Ev;
    subst ks; subst vs; clear Ek Ev
  end end.

Section edits.
Context `{Hcfg : ConfigOk}.

Abbreviation cap := (Z.to_nat _max_entries).

(** A block of the index file that knows its own offset. *)
Definition self_at (fd : gmap Z bplus_node) (o : Z) : Prop :=
  exists N, fd !! o = Some N /\ n_self N = o.

(** [o] is a null link or such a block. *)
Definition link_at (fd : gmap Z bplus_node) (o : Z) : Prop :=
  o <> INVALID_OFFSET -> self_at fd o.

(** Change the block at [o], unless [o] is a null link. *)
Definition relink (f : bplus_node -> bplus_node) (o : Z) (fd : gmap Z bplus_node)
  : gmap Z bplus_node :=
  if decide (o = INVALID_OFFSET) then fd else alter f o fd.

Lemma alter_as_insert (f : bplus_node -> bplus_node) (fd : gmap Z bplus_node) o N :
  fd !! o = Some N -> alter f o fd = <[o := f N]> fd.
Proof.
  intros HN. apply map_eq. intros i. rewrite lookup_alter, lookup_insert.
  case_decide; subst; [by rewrite HN | done].
Qed.

Lemma awp_left_node_add node left N L o fs' fr' mem fd lv rt fs fr Q :
  mem !! node = Some N -> mem !! left = Some L -> node <> left ->
  (size mem < MIN_CACHE_NUM)%nat -> alloc fs fr = (o, fs', fr') -> link_at fd (n_prev N) ->
  Q tt (mkView (<[node := set_prev o N]>
                 (<[left := set_next (n_self N) (set_prev (n_prev N) (set_self o L))]> mem)) None
          (relink (set_next o) (n_prev N) fd) lv rt fs' fr') ->
  awp (left_node_add node left) Q (mkView mem None fd lv rt fs fr).
Proof.
  intros HN HL Hne Hsize Ha Hlink HQ. unfold left_node_add.
  astep. eapply awp_new_node_append; [view_simpl; mem_lookup|done|]. astep. astep. astep.
  unfold relink in HQ. case_decide as Hp.
  - rewrite Hp in *. apply awp_node_fetch_null. astep. astep. do 7 astep.
    view_simpl. mem_norm. exact HQ.
  - destruct (Hlink Hp) as (PV & HPV & Hself).
    eapply awp_node_fetch; [done|exact HPV| |].
    { view_simpl. by rewrite (size_insert_Some _ _ _ L). }
    intros p Hpn. view_simpl_in Hpn.
    assert (p <> left) by (intros ->; rewrite lookup_insert_eq in Hpn; done).
    assert (p <> node) by (intros ->; rewrite lookup_insert_ne, HN in Hpn by done; done).
    rewrite lookup_insert_ne in Hpn by done.
    repeat astep. view_simpl.
    rewrite (alter_as_insert _ _ _ _ HPV) in HQ.
    rewrite Hself. view_apply HQ; [mem_eq | done].
Qed.

Lemma awp_right_node_add node right N R o fs' fr' mem fd lv rt fs fr Q :
  mem !! node = Some N -> mem !! right = Some R -> node <> right ->
  (size mem < MIN_CACHE_NUM)%nat -> alloc fs fr = (o, fs', fr') -> link_at fd (n_next N) ->
  Q tt (mkView (<[node := set_next o N]>
                 (<[right := set_prev (n_self N) (set_next (n_next N) (set_self o R))]> mem)) None
          (relink (set_prev o) (n_next N) fd) lv rt fs' fr') ->
  awp (right_node_add node right) Q (mkView mem None fd lv rt fs fr).
Proof.
  intros HN HR Hne Hsize Ha Hlink HQ. unfold right_node_add.
  astep. eapply awp_new_node_append; [view_simpl; mem_lookup|done|]. astep. astep. astep.
  unfold relink in HQ. case_decide as Hp.
  - rewrite Hp in *. apply awp_node_fetch_null. astep. astep. do 7 astep.
    view_simpl. mem_norm. exact HQ.
  - destruct (Hlink Hp) as (NX & HNX & Hself).
    eapply awp_node_fetch; [done|exact HNX| |].
    { view_simpl. by rewrite (size_insert_Some _ _ _ R). }
    intros p Hpn. view_simpl_in Hpn.
    assert (p <> right) by (intros ->; rewrite lookup_insert_eq in Hpn; done).
    assert (p <> node) by (intros ->; rewrite lookup_insert_ne, HN in Hpn by done; done).
    rewrite lookup_insert_ne in Hpn by done.
    repeat astep. view_simpl.
    rewrite (alter_as_insert _ _ _ _ HNX) in HQ.
    rewrite Hself. view_apply HQ; [mem_eq | done].
Qed.

Lemma awp_sub_node_update parent idx sub P S mem fd lv rt fs fr Q :
  mem !! parent = Some P -> mem !! sub = Some S -> parent <> sub ->
  0 <= idx < val_cap P -> n_self S <> INVALID_OFFSET ->
  Q tt (mkView (delete sub (<[parent := set_vals (<[Z.to_nat idx := n_self S]> (n_val P)) P]> mem)) None
          (<[n_self S := set_parent (n_self P) S]> fd) lv rt fs fr) ->
  awp (sub_node_update parent idx sub) Q (mkView mem None fd lv rt fs fr).
Proof.
  intros HP HS Hne Hidx Hinv HQ. rewrite val_cap_eq in Hidx. unfold sub_node_update.
  asteps. view_simpl. view_apply HQ; [mem_eq | done].
Qed.

Lemma awp_sub_node_flush parent off P S mem fd lv rt fs fr Q :
  mem !! parent = Some P -> (size mem < MIN_CACHE_NUM)%nat -> off <> INVALID_OFFSET ->
  fd !! off = Some S -> n_self S = off ->
  Q tt (mkView mem None (alter (set_parent (n_self P)) off fd) lv rt fs fr) ->
  awp (sub_node_flush parent off) Q (mkView mem None fd lv rt fs fr).
Proof.
  intros HP Hsize Hoff HS Hself HQ. unfold sub_node_flush. astep.
  eapply awp_node_fetch; [done|exact HS|done|]. intros p Hp. view_simpl_in Hp.
  assert (p <> parent) by congruence.
  asteps. view_simpl. rewrite (alter_as_insert _ _ _ _ HS) in HQ. rewrite Hself.
  view_apply HQ; [mem_eq | done].
Qed.

(** The blocks at [cs] get the parent [np]. *)
Definition reparent (np : Z) (cs : list Z) (fd : gmap Z bplus_node) : gmap Z bplus_node :=
  foldl (fun fd c => alter (set_parent np) c fd) fd cs.

Lemma lookup_reparent np cs fd o :
  reparent np cs fd !! o = if decide (o ∈ cs) then set_parent np <$> fd !! o else fd !! o.
Proof.
  revert fd. induction cs as [|c cs IH]; intros fd; [done|].
  change (reparent np (c :: cs) fd) with (reparent np cs (alter (set_parent np) c fd)).
  rewrite IH, lookup_alter. destruct (decide (c = o)) as [->|Hne].
  - rewrite (decide_True (P := o ∈ o :: cs)) by (by left).
    case_decide; [|done]. by destruct (fd !! o).
  - rewrite (decide_ext (o ∈ c :: cs) (o ∈ cs)); [done|]. rewrite elem_of_cons.
    split; [|by right]. intros [->|?]; done.
Qed.

Lemma self_at_reparent np cs fd o : self_at (reparent np cs fd) o <-> self_at fd o.
Proof.
  unfold self_at. rewrite lookup_reparent. case_decide; [|done].
  destruct (fd !! o) as [N|]; simpl; [|split; intros (? & ? & _); done].
  split; intros (N' & ? & ?); simplify_eq/=; eauto.
Qed.

Lemma reparent_insert np cs fd N :
  reparent np cs (<[n_self N := set_parent np N]> fd)
  = <[n_self N := set_parent np N]> (reparent np cs fd).
Proof.
  apply map_eq. intros x. rewrite !lookup_insert, !lookup_reparent, !lookup_insert.
  by repeat case_decide.
Qed.

Lemma self_at_insert fd N x : self_at fd x -> self_at (<[n_self N := N]> fd) x.
Proof.
  intros (X & HX & <-). destruct (decide (n_self N = n_self X)) as [E|E].
  - exists N. by rewrite E, lookup_insert_eq.
  - exists X. by rewrite lookup_insert_ne.
Qed.

Lemma self_at_new fd np N x :
  self_at fd x -> self_at (<[n_self N := set_parent np N]> fd) x.
Proof. apply (self_at_insert fd (set_parent np N)). Qed.

(** The cells [i, i + 1, ..., i + n - 1] of [vals], less [skip] and [skip + 1]. *)
Fixpoint cells (vals : list Z) (i n : nat) (skip : nat) : list Z :=
  match n with
  | O => []
  | S n =>
      (if decide (i = skip \/ i = S skip) then [] else option_list (vals !! i))
      ++ cells vals (S i) n skip
  end.

Lemma elem_of_cells vals i n skip x :
  x ∈ cells vals i n skip <->
  exists j, (i <= j < i + n)%nat /\ j <> skip /\ j <> S skip /\ vals !! j = Some x.
Proof.
  revert i. induction n as [|n IH]; intros i; simpl.
  { rewrite elem_of_nil. split; [done|]. intros (j & ? & _). lia. }
  rewrite elem_of_app, IH. split.
  - intros [Hx|(j & ? & ? & ? & ?)]; [|exists j; repeat split; [lia..|done]].
    exists i. case_decide; [by apply not_elem_of_nil in Hx|]. split; [lia|].
    destruct (vals !! i); simpl in Hx; [|by apply not_elem_of_nil in Hx].
    apply list_elem_of_singleton in Hx as ->. tauto.
  - intros (j & Hj & H1 & H2 & Hx). destruct (decide (j = i)) as [->|].
    + left. rewrite decide_False by tauto. rewrite Hx. by left.
    + right. exists j. repeat split; [lia..|done|done|done].
Qed.

(** The cells read by the loop are the children of the new node, apart from
    the two new ones. *)
Lemma cells_children vals i n skip (W : list Z) l r x :
  (forall j, (i <= j < i + n)%nat -> j <> skip -> j <> S skip -> vals !! j = W !! j) ->
  (forall j, (j < i \/ i + n <= j \/ j = skip \/ j = S skip)%nat ->
     W !! j = None \/ W !! j = Some l \/ W !! j = Some r) ->
  x <> l -> x <> r -> x ∈ cells vals i n skip <-> x ∈ W.
Proof.
  intros H1 H2 Hl Hr. rewrite elem_of_cells, list_elem_of_lookup. split.
  - intros (j & Hj & ? & ? & Hx). exists j. by rewrite <- H1.
  - intros (j & Hx). exists j.
    destruct (decide (j < i \/ i + n <= j \/ j = skip \/ j = S skip)%nat) as [Hd|Hd].
    + destruct (H2 j Hd) as [|[|]]; congruence.
    + repeat split; try lia. rewrite H1 by lia. done.
Qed.

Lemma awp_flush_subs p i n skip P mem fd lv rt fs fr Q :
  mem !! p = Some P -> (size mem < MIN_CACHE_NUM)%nat ->
  (i + n <= cap)%nat -> length (n_val P) = cap ->
  (forall c, c ∈ cells (n_val P) i n skip -> c <> INVALID_OFFSET /\ self_at fd c) ->
  Q tt (mkView mem None (reparent (n_self P) (cells (n_val P) i n skip) fd) lv rt fs fr) ->
  awp (flush_subs p (Z.of_nat i) n (Z.of_nat skip)) Q (mkView mem None fd lv rt fs fr).
Proof.
  intros HP Hsize Hin Hlen. revert i fd Hin. induction n as [|n IH]; intros i fd Hin Hc HQ; simpl.
  { by apply awp_ret. }
  destruct (lookup_lt_is_Some_2 (n_val P) i) as [c Hci]; [lia|].
  replace (Z.of_nat i + 1) with (Z.of_nat (S i)) by lia.
  simpl in Hc, HQ. astep. case_decide as Hd.
  - assert (negb (Z.of_nat i =? Z.of_nat skip) && negb (Z.of_nat i =? Z.of_nat skip + 1) = false) as ->.
    { destruct (Z.eqb_spec (Z.of_nat i) (Z.of_nat skip)); [done|].
      destruct (Z.eqb_spec (Z.of_nat i) (Z.of_nat skip + 1)); [done|]. lia. }
    astep. apply IH; [lia|done|done].
  - rewrite (proj2 (Z.eqb_neq _ _)), (proj2 (Z.eqb_neq _ _)) by lia. simpl.
    rewrite Hci in Hc, HQ. simpl in Hc, HQ.
    destruct (Hc c) as [Hinv (S0 & HS0 & Hself)]; [by left|].
    pose proof (val_cap_eq P).
    astep. astep; [lia|by rewrite Nat2Z.id|].
    eapply awp_sub_node_flush; [done|done|done|done|done|].
    apply IH; [lia| |done].
    intros c' Hc'. destruct (Hc c') as [? ?]; [by right|]. split; [done|].
    by apply (self_at_reparent (n_self P) [c]).
Qed.

Lemma awp_flush_subs_from p i n P mem fd lv rt fs fr Q :
  mem !! p = Some P -> (size mem < MIN_CACHE_NUM)%nat ->
  (i + n <= cap)%nat -> length (n_val P) = cap ->
  (forall c, c ∈ take n (drop i (n_val P)) -> c <> INVALID_OFFSET /\ self_at fd c) ->
  Q tt (mkView mem None (reparent (n_self P) (take n (drop i (n_val P))) fd) lv rt fs fr) ->
  awp (flush_subs_from p (Z.of_nat i) n) Q (mkView mem None fd lv rt fs fr).
Proof.
  intros HP Hsize Hin Hlen. revert i fd Hin. induction n as [|n IH]; intros i fd Hin Hc HQ; simpl.
  { by apply awp_ret. }
  destruct (lookup_lt_is_Some_2 (n_val P) i) as [c Hci]; [lia|].
  replace (Z.of_nat i + 1) with (Z.of_nat (S i)) by lia.
  rewrite (drop_S _ _ _ Hci) in Hc, HQ. simpl in Hc, HQ.
  destruct (Hc c) as [Hinv (S0 & HS0 & Hself)]; [by left|].
  pose proof (val_cap_eq P).
  astep. astep; [lia|by rewrite Nat2Z.id|]. astep.
  eapply awp_sub_node_flush; [done|done|done|done|done|].
  apply IH; [lia| |done].
  intros c' Hc'. destruct (Hc c') as [? ?]; [by right|]. split; [done|].
  by apply (self_at_reparent (n_self P) [c]).
Qed.

End edits.
