(* ===== verification/BPlusEditIns.v ===== *)
(** * Specifications of the node edits of insertion *)

From S2P Require Import Prelude BPlusTree BPlusOps BPlusView BPlusNode BPlusEdit.

Section edits.
Context `{Hcfg : ConfigOk}.

Abbreviation cap := (Z.to_nat _max_entries).

(** The link fields of a node: own offset, parent, previous, next. *)
Definition hdr (N : bplus_node) : Z * Z * Z * Z :=
  (n_self N, n_parent N, n_prev N, n_next N).

Lemma awp_leaf_simple_insert p N ks vs i k d mem fd lv rt fs fr Q :
  mem !! p = Some N -> node_is N true ks vs -> (length vs < cap)%nat -> (i <= length ks)%nat ->
  (forall N', hdr N' = hdr N -> node_is N' true (list_ins i k ks) (list_ins i d vs) ->
     Q tt (mkView (<[p := N']> mem) None fd lv rt fs fr)) ->
  awp (leaf_simple_insert p k d (Z.of_nat i)) Q (mkView mem None fd lv rt fs fr).
Proof.
  intros Hp HN Hlt Hi HQ. eapply awp_sized; [exact Hp|]. intros [Hk Hv].
  ni_cells HN. pose proof cfg_entries.
  unfold leaf_simple_insert. asteps. view_simpl. mem_norm. apply HQ; [done|].
  split; view_simpl; rewrite ?length_ins, ?length_take_le by len; try done; try lia; list_ext.
Qed.
(** The split point of a full leaf. *)
Definition lsplit : nat := ((cap + 1) / 2)%nat.

Lemma leaf_split_point N ks vs :
  node_is N true ks vs -> length vs = cap -> (n_children N + 1) / 2 = Z.of_nat lsplit.
Proof.
  intros HN Hfull. rewrite (ni_children _ _ _ _ HN), Hfull.
  unfold lsplit. by rewrite Nat2Z.inj_div, Nat2Z.inj_add.
Qed.

Lemma lsplit_bounds : (2 <= lsplit)%nat /\ (lsplit < cap)%nat /\ (cap <= 2 * lsplit <= cap + 1)%nat.
Proof.
  pose proof cfg_entries. unfold lsplit. pose proof (Nat.div_mod_eq (cap + 1) 2).
  pose proof (Nat.mod_upper_bound (cap + 1) 2). lia.
Qed.

Lemma awp_leaf_split_left leaf left N L ks vs i k d o fs' fr' mem fd lv rt fs fr Q :
  mem !! leaf = Some N -> mem !! left = Some L -> leaf <> left ->
  (size mem < MIN_CACHE_NUM)%nat -> alloc fs fr = (o, fs', fr') -> link_at fd (n_prev N) ->
  node_is N true ks vs -> length vs = cap -> n_type L = BPLUS_TREE_LEAF -> (i < lsplit)%nat ->
  (forall N' L' kk,
     hdr L' = (o, n_parent L, n_prev N, n_self N) ->
     hdr N' = (n_self N, n_parent N, o, n_next N) ->
     node_is L' true (take lsplit (list_ins i k ks)) (take lsplit (list_ins i d vs)) ->
     node_is N' true (drop lsplit (list_ins i k ks)) (drop lsplit (list_ins i d vs)) ->
     list_ins i k ks !! lsplit = Some kk ->
     Q kk (mkView (<[leaf := N']> (<[left := L']> mem)) None
             (relink (set_next o) (n_prev N) fd) lv rt fs' fr')) ->
  awp (leaf_split_left leaf left k d (Z.of_nat i)) Q (mkView mem None fd lv rt fs fr).
Proof.
  intros HN HL Hne Hsize Ha Hlink Hni Hfull HtL Hi HQ.
  eapply awp_sized; [exact HN|]. intros [HkN HvN]. eapply awp_sized; [exact HL|]. intros [HkL HvL].
  pose proof cfg_entries as Hce. pose proof lsplit_bounds as (Hs1 & Hs2 & Hs3).
  pose proof (leaf_split_point _ _ _ Hni Hfull) as Hsp. unfold leaf_split_left.
  astep. astep. rewrite Hsp. astep.
  eapply awp_left_node_add; [done..|].
  ni_cells Hni. subst nv. assert (nk = cap) as -> by lia. rewrite (take_ge (n_key N)), (take_ge (n_val N)) in HQ by lia.
  destruct (lookup_lt_is_Some_2 (list_ins i k (n_key N)) lsplit) as [kk Hkk]; [len|].
  asteps; view_simpl.
  - rewrite lookup_mm, decide_True by lia. rewrite lookup_ins in Hkk by lia.
    rewrite !decide_False in Hkk by lia. rewrite <- Hkk. f_equal. lia.
  - mem_norm. apply HQ; [done|done| | |done];
      split; view_simpl; rewrite ?length_drop, ?length_take_le, ?length_ins by len;
      try done; try lia.
    all: list_ext.
Qed.

Lemma awp_leaf_split_right leaf right N R ks vs i k d o fs' fr' mem fd lv rt fs fr Q :
  mem !! leaf = Some N -> mem !! right = Some R -> leaf <> right ->
  (size mem < MIN_CACHE_NUM)%nat -> alloc fs fr = (o, fs', fr') -> link_at fd (n_next N) ->
  node_is N true ks vs -> length vs = cap -> n_type R = BPLUS_TREE_LEAF ->
  (lsplit <= i <= length ks)%nat ->
  (forall N' R' kk,
     hdr N' = (n_self N, n_parent N, n_prev N, o) ->
     hdr R' = (o, n_parent R, n_self N, n_next N) ->
     node_is N' true (take lsplit (list_ins i k ks)) (take lsplit (list_ins i d vs)) ->
     node_is R' true (drop lsplit (list_ins i k ks)) (drop lsplit (list_ins i d vs)) ->
     list_ins i k ks !! lsplit = Some kk ->
     Q kk (mkView (<[leaf := N']> (<[right := R']> mem)) None
             (relink (set_prev o) (n_next N) fd) lv rt fs' fr')) ->
  awp (leaf_split_right leaf right k d (Z.of_nat i)) Q (mkView mem None fd lv rt fs fr).
Proof.
  intros HN HR Hne Hsize Ha Hlink Hni Hfull HtR Hi HQ.
  eapply awp_sized; [exact HN|]. intros [HkN HvN]. eapply awp_sized; [exact HR|]. intros [HkR HvR].
  pose proof cfg_entries as Hce. pose proof lsplit_bounds as (Hs1 & Hs2 & Hs3).
  pose proof (leaf_split_point _ _ _ Hni Hfull) as Hsp. unfold leaf_split_right.
  astep. astep. rewrite Hsp. astep.
  eapply awp_right_node_add; [done..|].
  ni_cells Hni. subst nv. assert (nk = cap) as -> by lia.
  rewrite (take_ge (n_key N)), (take_ge (n_val N)) in * by lia.
  destruct (lookup_lt_is_Some_2 (list_ins i k (n_key N)) lsplit) as [kk Hkk]; [len|].
  asteps; view_simpl.
  - rewrite <- Hkk, lookup_mm, decide_False by len. rewrite lookup_insert_if by len.
    rewrite lookup_mm by len. rewrite lookup_ins by len. repeat split_range; first [done | f_equal; lia].
  - mem_norm. rewrite (insert_insert_ne _ right leaf) by done. apply HQ; [done|done| | |done];
      split; view_simpl; rewrite ?length_drop, ?length_take_le, ?length_ins by len;
      try done; try lia.
    all: list_ext.
Qed.

(** ** Non-leaf nodes *)

(** The children after the child at [i] was split into [l] and [r]. *)
Definition list_split (i : nat) (l r : Z) (vs : list Z) : list Z := list_ins i l (<[i := r]> vs).

Lemma length_list_split i l r vs :
  (i < length vs)%nat -> length (list_split i l r vs) = S (length vs).
Proof. intros H. unfold list_split. rewrite length_ins; rewrite length_insert; lia. Qed.

Lemma awp_non_leaf_simple_insert node l_ch r_ch N L R ks vs i k mem fd lv rt fs fr Q :
  mem !! node = Some N -> mem !! l_ch = Some L -> mem !! r_ch = Some R ->
  node <> l_ch -> node <> r_ch -> l_ch <> r_ch ->
  n_self L <> INVALID_OFFSET -> n_self R <> INVALID_OFFSET ->
  node_is N false ks vs -> (length vs < cap)%nat -> (i <= length ks)%nat ->
  (forall N', hdr N' = hdr N ->
     node_is N' false (list_ins i k ks) (list_split i (n_self L) (n_self R) vs) ->
     Q tt (mkView (<[node := N']> (delete r_ch (delete l_ch mem))) None
             (<[n_self R := set_parent (n_self N) R]> (<[n_self L := set_parent (n_self N) L]> fd))
             lv rt fs fr)) ->
  awp (non_leaf_simple_insert node l_ch r_ch k (Z.of_nat i)) Q (mkView mem None fd lv rt fs fr).
Proof.
  intros HN HL HR Hne1 Hne2 Hne3 HiL HiR Hni Hlt Hi HQ.
  eapply awp_sized; [exact HN|]. intros [Hk Hv].
  ni_cells Hni. pose proof cfg_entries.
  unfold non_leaf_simple_insert. asteps.
  eapply awp_sub_node_update; [mem_lookup|mem_lookup|done|rewrite val_cap_eq; lia|done|].
  asteps.
  eapply awp_sub_node_update; [mem_lookup|mem_lookup|done|rewrite val_cap_eq; lia|done|].
  asteps. view_simpl.
  match goal with |- Q _ (mkView (<[node := ?A]> ?M) _ _ _ _ _ _) =>
    replace (<[node := A]> M) with (<[node := A]> (delete r_ch (delete l_ch mem))) by mem_eq end.
  apply HQ; [done|].
  unfold list_split.
  split; view_simpl; rewrite ?length_ins, ?length_insert, ?length_take_le by len; try done; try lia; list_ext.
Qed.
End edits.
