(* ===== verification/BPlusEditSplit.v ===== *)
(** * Specifications of the splits of a full non-leaf node *)

From S2P Require Import Prelude BPlusTree BPlusOps BPlusView BPlusNode BPlusEdit BPlusEditIns.

Section splits.
Context `{Hcfg : ConfigOk}.

Abbreviation cap := (Z.to_nat _max_entries).

(** The split point of a full non-leaf node. *)
Definition nsplit : nat := (cap / 2)%nat.

Lemma nsplit_bounds : (2 <= nsplit)%nat /\ (nsplit < cap)%nat /\ (cap - 1 <= 2 * nsplit <= cap)%nat.
Proof.
  pose proof cfg_entries. unfold nsplit. pose proof (Nat.div_mod_eq cap 2).
  pose proof (Nat.mod_upper_bound cap 2). lia.
Qed.

(** Moving children between blocks keeps every block's own offset. *)
Lemma self_at_relink f o fd x :
  (forall N, n_self (f N) = n_self N) -> self_at (relink f o fd) x <-> self_at fd x.
Proof.
  intros Hf. unfold relink, self_at. case_decide; [done|]. rewrite lookup_alter.
  destruct (decide (o = x)) as [->|]; [|done].
  destruct (fd !! x) as [N|]; simpl; [|split; intros (? & ? & _); done].
  split; intros (N' & [= <-] & Hx); [exists N|exists (f N)]; rewrite ?Hf in *; done.
Qed.

(** What a split leaves on disk: the children of the new block [o] point to
    it, the two new children written last. *)
Definition split_fd (o : Z) (L R : bplus_node) (cs : list Z) (fd : gmap Z bplus_node)
  : gmap Z bplus_node :=
  <[n_self R := set_parent o R]> (<[n_self L := set_parent o L]> (reparent o cs fd)).

Lemma split_fd_ext o L R cs cs' fd :
  (forall x, x <> n_self L -> x <> n_self R -> x ∈ cs <-> x ∈ cs') ->
  split_fd o L R cs fd = split_fd o L R cs' fd.
Proof.
  intros H. apply map_eq. intros x. unfold split_fd. rewrite !lookup_insert, !lookup_reparent.
  case_decide; [done|]. case_decide; [done|].
  by rewrite (decide_ext (x ∈ cs) (x ∈ cs')) by (apply H; congruence).
Qed.

Lemma awp_non_leaf_split_left node left l_ch r_ch N S L R ks vs i k o fs' fr' mem fd lv rt fs fr Q :
  mem !! node = Some N -> mem !! left = Some S -> mem !! l_ch = Some L -> mem !! r_ch = Some R ->
  NoDup [node; left; l_ch; r_ch] ->
  (size mem < MIN_CACHE_NUM)%nat -> alloc fs fr = (o, fs', fr') -> link_at fd (n_prev N) ->
  n_self L <> INVALID_OFFSET -> n_self R <> INVALID_OFFSET ->
  node_is N false ks vs -> length vs = cap -> n_type S = BPLUS_TREE_NON_LEAF -> (i < nsplit)%nat ->
  (forall j c, vs !! j = Some c -> j <> i -> c <> INVALID_OFFSET /\ self_at fd c) ->
  (forall N' S' kk,
     hdr S' = (o, n_parent S, n_prev N, n_self N) ->
     hdr N' = (n_self N, n_parent N, o, n_next N) ->
     node_is S' false (take nsplit (list_ins i k ks))
       (take (nsplit + 1) (list_split i (n_self L) (n_self R) vs)) ->
     node_is N' false (drop (nsplit + 1) (list_ins i k ks))
       (drop (nsplit + 1) (list_split i (n_self L) (n_self R) vs)) ->
     list_ins i k ks !! nsplit = Some kk ->
     Q kk (mkView (<[node := N']> (<[left := S']> (delete r_ch (delete l_ch mem)))) None
             (split_fd o L R (take (nsplit + 1) (list_split i (n_self L) (n_self R) vs))
                (relink (set_next o) (n_prev N) fd)) lv rt fs' fr')) ->
  awp (non_leaf_split_left node left l_ch r_ch k (Z.of_nat i) (Z.of_nat nsplit)) Q
    (mkView mem None fd lv rt fs fr).
Proof.
  intros HN HS HL HR Hnd Hsize Ha Hlink HiL HiR Hni Hfull HtS Hi Hself HQ.
  rewrite !NoDup_cons, !not_elem_of_cons in Hnd.
  destruct Hnd as ((? & ? & ? & _) & (? & ? & _) & (? & _) & _).
  eapply awp_sized; [exact HN|]. intros [HkN HvN]. eapply awp_sized; [exact HS|]. intros [HkS HvS].
  pose proof cfg_entries as Hce. pose proof nsplit_bounds as (Hs1 & Hs2 & Hs3).
  unfold non_leaf_split_left. astep. eapply awp_left_node_add; [done..|].
  ni_cells Hni. subst nv. 
  rewrite (take_ge (n_val N)) in * by lia.
  destruct (lookup_lt_is_Some_2 (n_val N) nsplit) as [v Hv]; [lia|].
  destruct (lookup_lt_is_Some_2 (n_key N) (nsplit - 1)) as [kk Hkk]; [lia|].
  asteps. mem_norm.
  eapply (awp_flush_subs left 0%nat _ i); [mem_lookup|mem_size|lia|view_simpl; len| |].
  { view_simpl. drop_distinct. intros c (j & Hj & Hj1 & Hj2 & Hcj)%elem_of_cells.
    rewrite self_at_relink by done. rewrite !lookup_mm in Hcj by len.
    repeat case_decide; try arith; eapply Hself; try exact Hcj; arith. }
  asteps. rewrite (proj2 (Z.eqb_neq (Z.of_nat i) _)) by lia. asteps.
  eapply awp_sub_node_update; [mem_lookup|mem_lookup|done|caps; arith|done|]. asteps.
  eapply awp_sub_node_update; [mem_lookup|mem_lookup|done|caps; arith|done|]. asteps; view_simpl.
  { by rewrite Nat2Z.id. }
  { rewrite <- Hkk. f_equal. lia. }
  match goal with |- Q _ (mkView (<[node := ?A]> ?M) _ ?F _ _ _ _) =>
    match M with context [<[left := ?B]> (delete l_ch _)] => 
    replace (<[node := A]> M) with (<[node := A]> (<[left := B]> (delete r_ch (delete l_ch mem)))) by mem_eq end end.
  erewrite <- (split_fd_ext _ _ _ (cells _ _ _ _)) in HQ;
    [apply HQ; [done|done|unfold list_split; ni_solve|unfold list_split; ni_solve|]|].
  { rewrite lookup_ins, !decide_False by len. rewrite lookup_take_if, decide_True by lia. done. }
  clear HQ Hself. drop_distinct. intros x Hx1 Hx2.
  apply (cells_children _ _ _ _ _ (n_self L) (n_self R)); [| |done|done];
    clear Hx1 Hx2 HiL HiR; unfold list_split; name_indices; intros j Hj; [intros Hj1 Hj2|].
  - lookup_cases.
  - rewrite lookup_take_if, lookup_ins, !lookup_insert_if by len.
    repeat split_range; eauto.
Qed.

Lemma awp_non_leaf_split_right1 node right l_ch r_ch N S L R ks vs i k o fs' fr' mem fd lv rt fs fr Q :
  mem !! node = Some N -> mem !! right = Some S -> mem !! l_ch = Some L -> mem !! r_ch = Some R ->
  NoDup [node; right; l_ch; r_ch] ->
  (size mem < MIN_CACHE_NUM)%nat -> alloc fs fr = (o, fs', fr') -> link_at fd (n_next N) ->
  n_self L <> INVALID_OFFSET -> n_self R <> INVALID_OFFSET ->
  node_is N false ks vs -> length vs = cap -> n_type S = BPLUS_TREE_NON_LEAF -> i = nsplit ->
  (forall j c, vs !! j = Some c -> j <> i -> c <> INVALID_OFFSET /\ self_at fd c) ->
  (forall N' S' kk,
     hdr S' = (o, n_parent S, n_self N, n_next N) ->
     hdr N' = (n_self N, n_parent N, n_prev N, o) ->
     node_is N' false (take (nsplit - 1)%nat (list_ins i k ks))
       (take nsplit (list_split i (n_self L) (n_self R) vs)) ->
     node_is S' false (drop nsplit (list_ins i k ks))
       (drop nsplit (list_split i (n_self L) (n_self R) vs)) ->
     list_ins i k ks !! (nsplit - 1)%nat = Some kk ->
     Q kk (mkView (<[node := N']> (<[right := S']> (delete r_ch (delete l_ch mem)))) None
             (split_fd o L R (drop nsplit (list_split i (n_self L) (n_self R) vs))
                (relink (set_prev o) (n_next N) fd)) lv rt fs' fr')) ->
  awp (non_leaf_split_right1 node right l_ch r_ch k (Z.of_nat i) (Z.of_nat nsplit)) Q
    (mkView mem None fd lv rt fs fr).
Proof.
  intros HN HS HL HR Hnd Hsize Ha Hlink HiL HiR Hni Hfull HtS Hi Hself HQ.
  rewrite !NoDup_cons, !not_elem_of_cons in Hnd.
  destruct Hnd as ((? & ? & ? & _) & (? & ? & _) & (? & _) & _).
  eapply awp_sized; [exact HN|]. intros [HkN HvN]. eapply awp_sized; [exact HS|]. intros [HkS HvS].
  pose proof cfg_entries as Hce. pose proof nsplit_bounds as (Hs1 & Hs2 & Hs3).
  unfold non_leaf_split_right1. rewrite !cfg_order. astep. eapply awp_right_node_add; [done..|].
  ni_cells Hni. subst nv.
  rewrite (take_ge (n_val N)) in * by lia.
  destruct (lookup_lt_is_Some_2 (n_key N) (nsplit - 1)) as [kk Hkk]; [lia|].
  asteps.
  { view_simpl. rewrite <- Hkk. f_equal. lia. }
  eapply awp_sub_node_update; [mem_lookup|mem_lookup|done|caps; arith|done|]. asteps.
  eapply awp_sub_node_update; [mem_lookup|mem_lookup|done|caps; arith|done|]. asteps. mem_norm.
  
  eapply (awp_flush_subs right 2%nat _ 0); [mem_lookup|mem_size|view_simpl; arith|view_simpl; len| |].
  { view_simpl. drop_distinct. intros c (j & Hj & Hj1 & Hj2 & Hcj)%elem_of_cells.
    cut (c <> INVALID_OFFSET /\ self_at fd c).
    { intros [? ?]. split; [done|]. do 2 apply self_at_new. by rewrite self_at_relink. }
    revert Hcj. name_indices.
    repeat first [rewrite lookup_mm by len | rewrite lookup_insert_if by len].
    repeat split_range; intros Hcj; eapply Hself; try exact Hcj; arith. }
  asteps. view_simpl. rewrite !reparent_insert. 
  match goal with |- Q _ (mkView ?M _ ?F _ _ _ _) =>
    match M with context [<[right := ?B]> (delete r_ch _)] => 
    match M with context [<[node := ?A]> _] => 
    replace M with (<[node := A]> (<[right := B]> (delete r_ch (delete l_ch mem)))) by mem_eq end end end.
  erewrite <- (split_fd_ext _ _ _ (cells _ _ _ _)) in HQ;
    [apply HQ; [done|done|unfold list_split; ni_solve|unfold list_split; ni_solve|]|].
  { rewrite lookup_ins, !decide_True by len. rewrite lookup_take_if, decide_True by lia. done. }
  clear HQ Hself. drop_distinct. intros x Hx1 Hx2.
  apply (cells_children _ _ _ _ _ (n_self L) (n_self R)); [| |done|done];
    clear Hx1 Hx2 HiL HiR; unfold list_split; name_indices; intros j Hj; [intros Hj1 Hj2|].
  - lookup_cases.
  - rewrite lookup_drop, lookup_ins, !lookup_insert_if by len.
    repeat split_range; eauto. left. apply lookup_ge_None_2. arith.
Qed.

Lemma awp_non_leaf_split_right2 node right l_ch r_ch N S L R ks vs i k o fs' fr' mem fd lv rt fs fr Q :
  mem !! node = Some N -> mem !! right = Some S -> mem !! l_ch = Some L -> mem !! r_ch = Some R ->
  NoDup [node; right; l_ch; r_ch] ->
  (size mem < MIN_CACHE_NUM)%nat -> alloc fs fr = (o, fs', fr') -> link_at fd (n_next N) ->
  n_self L <> INVALID_OFFSET -> n_self R <> INVALID_OFFSET ->
  node_is N false ks vs -> length vs = cap -> n_type S = BPLUS_TREE_NON_LEAF -> (nsplit < i < cap)%nat ->
  (forall j c, vs !! j = Some c -> j <> i -> c <> INVALID_OFFSET /\ self_at fd c) ->
  (forall N' S' kk,
     hdr S' = (o, n_parent S, n_self N, n_next N) ->
     hdr N' = (n_self N, n_parent N, n_prev N, o) ->
     node_is N' false (take nsplit (list_ins i k ks))
       (take (nsplit + 1) (list_split i (n_self L) (n_self R) vs)) ->
     node_is S' false (drop (nsplit + 1) (list_ins i k ks))
       (drop (nsplit + 1) (list_split i (n_self L) (n_self R) vs)) ->
     list_ins i k ks !! nsplit = Some kk ->
     Q kk (mkView (<[node := N']> (<[right := S']> (delete r_ch (delete l_ch mem)))) None
             (split_fd o L R (drop (nsplit + 1) (list_split i (n_self L) (n_self R) vs))
                (relink (set_prev o) (n_next N) fd)) lv rt fs' fr')) ->
  awp (non_leaf_split_right2 node right l_ch r_ch k (Z.of_nat i) (Z.of_nat nsplit)) Q
    (mkView mem None fd lv rt fs fr).
Proof.
  intros HN HS HL HR Hnd Hsize Ha Hlink HiL HiR Hni Hfull HtS Hi Hself HQ.
  rewrite !NoDup_cons, !not_elem_of_cons in Hnd.
  destruct Hnd as ((? & ? & ? & _) & (? & ? & _) & (? & _) & _).
  eapply awp_sized; [exact HN|]. intros [HkN HvN]. eapply awp_sized; [exact HS|]. intros [HkS HvS].
  pose proof cfg_entries as Hce. pose proof nsplit_bounds as (Hs1 & Hs2 & Hs3).
  unfold non_leaf_split_right2. rewrite !cfg_order. astep. eapply awp_right_node_add; [done..|].
  ni_cells Hni. subst nv.
  rewrite (take_ge (n_val N)) in * by lia.
  destruct (lookup_lt_is_Some_2 (n_key N) (nsplit)) as [kk Hkk]; [lia|].
  asteps.
  { view_simpl. rewrite <- Hkk. f_equal. lia. }
  eapply awp_sub_node_update; [mem_lookup|mem_lookup|done|caps; arith|done|]. asteps.
  eapply awp_sub_node_update; [mem_lookup|mem_lookup|done|caps; arith|done|]. asteps. mem_norm.
  replace (Z.of_nat i - Z.of_nat nsplit - 1) with (Z.of_nat (i - nsplit - 1)) by arith.
  eapply (awp_flush_subs right 0%nat _ (i - nsplit - 1)%nat); [mem_lookup|mem_size|view_simpl; arith|view_simpl; len| |].
  { view_simpl. drop_distinct. intros c (j & Hj & Hj1 & Hj2 & Hcj)%elem_of_cells.
    cut (c <> INVALID_OFFSET /\ self_at fd c).
    { intros [? ?]. split; [done|]. do 2 apply self_at_new. by rewrite self_at_relink. }
    revert Hcj. name_indices.
    repeat first [rewrite lookup_mm by len | rewrite lookup_insert_if by len].
    repeat split_range; intros Hcj; eapply Hself; try exact Hcj; arith. }
  asteps. view_simpl. rewrite !reparent_insert. 
  match goal with |- Q _ (mkView ?M _ ?F _ _ _ _) =>
    match M with context [<[right := ?B]> (delete r_ch _)] => 
    match M with context [<[node := ?A]> _] => 
    replace M with (<[node := A]> (<[right := B]> (delete r_ch (delete l_ch mem)))) by mem_eq end end end.
  erewrite <- (split_fd_ext _ _ _ (cells _ _ _ _)) in HQ;
    [apply HQ; [done|done|unfold list_split; ni_solve|unfold list_split; ni_solve|]|].
  { rewrite lookup_ins, !decide_True by len. rewrite lookup_take_if, decide_True by lia. done. }
  clear HQ Hself. drop_distinct. intros x Hx1 Hx2.
  apply (cells_children _ _ _ _ _ (n_self L) (n_self R)); [| |done|done];
    clear Hx1 Hx2 HiL HiR; unfold list_split; name_indices; intros j Hj; [intros Hj1 Hj2|].
  - lookup_cases.
  - rewrite lookup_drop, lookup_ins, !lookup_insert_if by len.
    repeat split_range; eauto. left. apply lookup_ge_None_2. arith.
Qed.
End splits.
