(* ===== verification/BPlusEditDel.v ===== *)
(** * Specifications of the removals, shifts and merges *)

From S2P Require Import Prelude BPlusTree BPlusOps BPlusView BPlusNode BPlusEdit BPlusEditIns.

Section removals.
Context `{Hcfg : ConfigOk}.

Abbreviation cap := (Z.to_nat _max_entries).

(** ** Leaves *)

Lemma awp_leaf_simple_remove p N ks vs i mem fd lv rt fs fr Q :
  mem !! p = Some N -> node_is N true ks vs -> (i < length ks)%nat ->
  (forall N', hdr N' = hdr N -> node_is N' true (list_del i ks) (list_del i vs) ->
     Q tt (mkView (<[p := N']> mem) None fd lv rt fs fr)) ->
  awp (leaf_simple_remove p (Z.of_nat i)) Q (mkView mem None fd lv rt fs fr).
Proof.
  intros HN Hni Hi HQ. eapply awp_sized; [exact HN|]. intros [Hk Hv]. pose proof cfg_entries.
  unfold leaf_simple_remove. ni_cells Hni. asteps. view_simpl. mem_norm.
  apply HQ; [done|]. ni_solve.
Qed.

Lemma awp_leaf_shift_from_left leaf left parent N L P ks vs kl vl kp vp i j mem fd lv rt fs fr Q :
  mem !! leaf = Some N -> mem !! left = Some L -> mem !! parent = Some P -> NoDup [leaf; left; parent] ->
  node_is N true ks vs -> node_is L true kl vl -> node_is P false kp vp ->
  (i < length ks)%nat -> (0 < length kl)%nat -> (j < length kp)%nat ->
  (forall N' L' P' k v,
     hdr N' = hdr N -> hdr L' = hdr L -> hdr P' = hdr P ->
     kl !! (length kl - 1)%nat = Some k -> vl !! (length kl - 1)%nat = Some v ->
     node_is N' true (k :: list_del i ks) (v :: list_del i vs) ->
     node_is L' true (take (length kl - 1) kl) (take (length kl - 1) vl) ->
     node_is P' false (<[j := k]> kp) vp ->
     Q tt (mkView (<[parent := P']> (<[left := L']> (<[leaf := N']> mem))) None fd lv rt fs fr)) ->
  awp (leaf_shift_from_left leaf left parent (Z.of_nat j) (Z.of_nat i)) Q (mkView mem None fd lv rt fs fr).
Proof.
  intros HN HL HP Hnd HnN HnL HnP Hi Hl Hj HQ.
  rewrite !NoDup_cons, !not_elem_of_cons in Hnd. destruct Hnd as ((? & ? & _) & (? & _) & _).
  eapply awp_sized; [exact HN|]. intros [HkN HvN]. eapply awp_sized; [exact HL|]. intros [HkL HvL].
  eapply awp_sized; [exact HP|]. intros [HkP HvP]. pose proof cfg_entries.
  unfold leaf_shift_from_left. ni_cells HnN. ni_cells HnL. ni_cells HnP.
  destruct (lookup_lt_is_Some_2 (n_key L) (nk0 - 1)) as [k Hk]; [lia|].
  destruct (lookup_lt_is_Some_2 (n_val L) (nk0 - 1)) as [v Hv]; [lia|].
  asteps; view_simpl; [rewrite <- Hk; f_equal; lia|rewrite <- Hv; f_equal; lia|..].
  { rewrite lookup_insert_if, decide_True by len. done. }
  mem_norm. apply (HQ _ _ _ k v); [done|done|done| | |ni_solve|ni_solve|ni_solve].
  - rewrite lookup_take_lt by lia. done.
  - rewrite lookup_take_lt by lia. done.
Qed.

Lemma awp_leaf_merge_into_left leaf left N L ks vs kl vl pki i mem fd lv rt fs fr Q :
  mem !! leaf = Some N -> mem !! left = Some L -> leaf <> left ->
  node_is N true ks vs -> node_is L true kl vl ->
  (i < length ks)%nat -> (length vl + length vs <= cap + 1)%nat ->
  (forall L', hdr L' = hdr L -> node_is L' true (kl ++ list_del i ks) (vl ++ list_del i vs) ->
     Q tt (mkView (<[left := L']> mem) None fd lv rt fs fr)) ->
  awp (leaf_merge_into_left leaf left pki (Z.of_nat i)) Q (mkView mem None fd lv rt fs fr).
Proof.
  intros HN HL Hne HnN HnL Hi Hcap2 HQ.
  eapply awp_sized; [exact HN|]. intros [HkN HvN]. eapply awp_sized; [exact HL|]. intros [HkL HvL].
  pose proof cfg_entries. unfold leaf_merge_into_left. ni_cells HnN. ni_cells HnL.
  asteps. view_simpl. mem_norm. apply HQ; [done|]. ni_solve.
Qed.

Lemma awp_leaf_shift_from_right leaf right parent N R P ks vs kr vr kp vp j mem fd lv rt fs fr Q :
  mem !! leaf = Some N -> mem !! right = Some R -> mem !! parent = Some P -> NoDup [leaf; right; parent] ->
  node_is N true ks vs -> node_is R true kr vr -> node_is P false kp vp ->
  (length vs < cap)%nat -> (1 < length kr)%nat -> (j < length kp)%nat ->
  (forall N' R' P' k v k1,
     hdr N' = hdr N -> hdr R' = hdr R -> hdr P' = hdr P ->
     kr !! 0%nat = Some k -> vr !! 0%nat = Some v -> kr !! 1%nat = Some k1 ->
     node_is N' true (ks ++ [k]) (vs ++ [v]) -> node_is R' true (drop 1 kr) (drop 1 vr) ->
     node_is P' false (<[j := k1]> kp) vp ->
     Q tt (mkView (<[parent := P']> (<[right := R']> (<[leaf := N']> mem))) None fd lv rt fs fr)) ->
  awp (leaf_shift_from_right leaf right parent (Z.of_nat j)) Q (mkView mem None fd lv rt fs fr).
Proof.
  intros HN HR HP Hnd HnN HnR HnP Hi Hr Hj HQ.
  rewrite !NoDup_cons, !not_elem_of_cons in Hnd. destruct Hnd as ((? & ? & _) & (? & _) & _).
  eapply awp_sized; [exact HN|]. intros [HkN HvN]. eapply awp_sized; [exact HR|]. intros [HkR HvR].
  eapply awp_sized; [exact HP|]. intros [HkP HvP]. pose proof cfg_entries.
  unfold leaf_shift_from_right. ni_cells HnN. ni_cells HnR. ni_cells HnP.
  destruct (lookup_lt_is_Some_2 (n_key R) 0) as [k Hk]; [lia|].
  destruct (lookup_lt_is_Some_2 (n_val R) 0) as [v Hv]; [lia|].
  destruct (lookup_lt_is_Some_2 (n_key R) 1) as [k1 Hk1]; [lia|].
  asteps; view_simpl; [rewrite <- Hk; f_equal; lia|rewrite <- Hv; f_equal; lia|..].
  { rewrite lookup_mm, decide_True by len. rewrite <- Hk1. done. }
  mem_norm. apply (HQ _ _ _ k v k1); [done|done|done| | | |ni_solve|ni_solve|ni_solve].
  - rewrite lookup_take_lt by lia. done.
  - rewrite lookup_take_lt by lia. done.
  - rewrite lookup_take_lt by lia. done.
Qed.

Lemma awp_leaf_merge_from_right leaf right N R ks vs kr vr mem fd lv rt fs fr Q :
  mem !! leaf = Some N -> mem !! right = Some R -> leaf <> right ->
  node_is N true ks vs -> node_is R true kr vr -> (length vs + length vr <= cap)%nat ->
  (forall N', hdr N' = hdr N -> node_is N' true (ks ++ kr) (vs ++ vr) ->
     Q tt (mkView (<[leaf := N']> mem) None fd lv rt fs fr)) ->
  awp (leaf_merge_from_right leaf right) Q (mkView mem None fd lv rt fs fr).
Proof.
  intros HN HR Hne HnN HnR Hcap2 HQ.
  eapply awp_sized; [exact HN|]. intros [HkN HvN]. eapply awp_sized; [exact HR|]. intros [HkR HvR].
  pose proof cfg_entries. unfold leaf_merge_from_right. ni_cells HnN. ni_cells HnR.
  asteps. view_simpl. mem_norm. apply HQ; [done|]. ni_solve.
Qed.

(** ** Non-leaf nodes *)

Lemma awp_non_leaf_simple_remove p N ks vs i mem fd lv rt fs fr Q :
  mem !! p = Some N -> node_is N false ks vs -> (i < length ks)%nat ->
  (forall N', hdr N' = hdr N -> node_is N' false (list_del i ks) (list_del (S i) vs) ->
     Q tt (mkView (<[p := N']> mem) None fd lv rt fs fr)) ->
  awp (non_leaf_simple_remove p (Z.of_nat i)) Q (mkView mem None fd lv rt fs fr).
Proof.
  intros HN Hni Hi HQ. eapply awp_sized; [exact HN|]. intros [Hk Hv]. pose proof cfg_entries.
  unfold non_leaf_simple_remove. ni_cells Hni. asteps. view_simpl. mem_norm.
  apply HQ; [done|]. ni_solve.
Qed.

Lemma awp_non_leaf_shift_from_left node left parent N L P ks vs kl vl kp vp i j k v mem fd lv rt fs fr Q :
  mem !! node = Some N -> mem !! left = Some L -> mem !! parent = Some P -> NoDup [node; left; parent] ->
  (size mem < MIN_CACHE_NUM)%nat ->
  node_is N false ks vs -> node_is L false kl vl -> node_is P false kp vp ->
  (i < length ks)%nat -> (0 < length kl)%nat -> kp !! j = Some k ->
  vl !! length kl = Some v -> v <> INVALID_OFFSET -> self_at fd v ->
  (forall N' L' P' k',
     hdr N' = hdr N -> hdr L' = hdr L -> hdr P' = hdr P ->
     kl !! (length kl - 1)%nat = Some k' ->
     node_is N' false (k :: list_del i ks) (v :: list_del (S i) vs) ->
     node_is L' false (take (length kl - 1) kl) (take (length kl) vl) ->
     node_is P' false (<[j := k']> kp) vp ->
     Q tt (mkView (<[parent := P']> (<[left := L']> (<[node := N']> mem))) None
             (reparent (n_self N) [v] fd) lv rt fs fr)) ->
  awp (non_leaf_shift_from_left node left parent (Z.of_nat j) (Z.of_nat i)) Q (mkView mem None fd lv rt fs fr).
Proof.
  intros HN HL HP Hnd Hsize HnN HnL HnP Hi Hl Hj Hv Hvi (V & HV & HVs) HQ.
  rewrite !NoDup_cons, !not_elem_of_cons in Hnd. destruct Hnd as ((? & ? & _) & (? & _) & _).
  eapply awp_sized; [exact HN|]. intros [HkN HvN]. eapply awp_sized; [exact HL|]. intros [HkL HvL].
  eapply awp_sized; [exact HP|]. intros [HkP HvP]. pose proof cfg_entries. pose proof (lookup_lt_Some _ _ _ Hj) as Hjl.
  unfold non_leaf_shift_from_left. ni_cells HnN. ni_cells HnL. ni_cells HnP.
  destruct (lookup_lt_is_Some_2 (n_key L) (nk0 - 1)) as [k' Hk']; [lia|].
  rewrite lookup_take_lt in Hv by lia. rewrite lookup_take_lt in Hj by lia.
  asteps; view_simpl; [rewrite Nat2Z.id; exact Hj|rewrite <- Hk'; f_equal; lia|rewrite <- Hv; f_equal; lia|..].
  { rewrite lookup_insert_if, decide_True by len. done. }
  mem_norm. eapply awp_sub_node_flush; [mem_lookup|mem_size|done|exact HV|done|].
  asteps. view_simpl. mem_norm.
  match goal with |- Q _ (mkView ?M _ _ _ _ _ _) =>
    match M with context [<[node := ?n]> _] => match M with context [<[left := ?l]> _] =>
    match M with context [<[parent := ?p]> _] =>
      replace M with (<[parent := p]> (<[left := l]> (<[node := n]> mem))) by mem_eq end end end end.
  apply (HQ _ _ _ k'); [done|done|done| |ni_solve|ni_solve|ni_solve].
  rewrite lookup_take_lt by lia. done.
Qed.

Lemma awp_non_leaf_merge_into_left node left parent N L P ks vs kl vl kp vp i j k mem fd lv rt fs fr Q :
  mem !! node = Some N -> mem !! left = Some L -> mem !! parent = Some P -> NoDup [node; left; parent] ->
  (size mem < MIN_CACHE_NUM)%nat ->
  node_is N false ks vs -> node_is L false kl vl -> node_is P false kp vp ->
  (i < length ks)%nat -> (length vl + length vs <= cap + 1)%nat -> kp !! j = Some k ->
  (forall c, c ∈ list_del (S i) vs -> c <> INVALID_OFFSET /\ self_at fd c) ->
  (forall L', hdr L' = hdr L ->
     node_is L' false (kl ++ k :: list_del i ks) (vl ++ list_del (S i) vs) ->
     Q tt (mkView (<[left := L']> mem) None (reparent (n_self L) (list_del (S i) vs) fd) lv rt fs fr)) ->
  awp (non_leaf_merge_into_left node left parent (Z.of_nat j) (Z.of_nat i)) Q (mkView mem None fd lv rt fs fr).
Proof.
  intros HN HL HP Hnd Hsize HnN HnL HnP Hi Hcap2 Hj Hself HQ.
  rewrite !NoDup_cons, !not_elem_of_cons in Hnd. destruct Hnd as ((? & ? & _) & (? & _) & _).
  eapply awp_sized; [exact HN|]. intros [HkN HvN]. eapply awp_sized; [exact HL|]. intros [HkL HvL].
  eapply awp_sized; [exact HP|]. intros [HkP HvP]. pose proof cfg_entries. pose proof (lookup_lt_Some _ _ _ Hj) as Hjl.
  unfold non_leaf_merge_into_left. ni_cells HnN. ni_cells HnL. ni_cells HnP.
  rewrite lookup_take_lt in Hj by lia.
  asteps; view_simpl; [rewrite Nat2Z.id; exact Hj|..]. mem_norm. rewrite Hc0 at 1.
  set (V := mm _ (Z.to_nat (n_children L + Z.of_nat i + 1)) _ _ _).
  assert (take (Z.to_nat (n_children N - 1)) (drop nv0 V) = list_del (S i) (take nv (n_val N))) as HV
    by (unfold V; list_ext).
  eapply awp_flush_subs_from; [mem_lookup|mem_size|arith|view_simpl; unfold V; len|view_simpl; rewrite HV; exact Hself|].
  view_simpl. rewrite HV. unfold V. asteps. view_simpl. mem_norm. apply HQ; [done|]. ni_solve.
Qed.

Lemma awp_non_leaf_shift_from_right node right parent N R P ks vs kr vr kp vp j k v mem fd lv rt fs fr Q :
  mem !! node = Some N -> mem !! right = Some R -> mem !! parent = Some P -> NoDup [node; right; parent] ->
  (size mem < MIN_CACHE_NUM)%nat ->
  node_is N false ks vs -> node_is R false kr vr -> node_is P false kp vp ->
  (length vs < cap)%nat -> (0 < length kr)%nat -> kp !! j = Some k ->
  vr !! 0%nat = Some v -> v <> INVALID_OFFSET -> self_at fd v ->
  (forall N' R' P' k',
     hdr N' = hdr N -> hdr R' = hdr R -> hdr P' = hdr P -> kr !! 0%nat = Some k' ->
     node_is N' false (ks ++ [k]) (vs ++ [v]) -> node_is R' false (drop 1 kr) (drop 1 vr) ->
     node_is P' false (<[j := k']> kp) vp ->
     Q tt (mkView (<[parent := P']> (<[right := R']> (<[node := N']> mem))) None
             (reparent (n_self N) [v] fd) lv rt fs fr)) ->
  awp (non_leaf_shift_from_right node right parent (Z.of_nat j)) Q (mkView mem None fd lv rt fs fr).
Proof.
  intros HN HR HP Hnd Hsize HnN HnR HnP Hi Hr Hj Hv Hvi (V & HV & HVs) HQ.
  rewrite !NoDup_cons, !not_elem_of_cons in Hnd. destruct Hnd as ((? & ? & _) & (? & _) & _).
  eapply awp_sized; [exact HN|]. intros [HkN HvN]. eapply awp_sized; [exact HR|]. intros [HkR HvR].
  eapply awp_sized; [exact HP|]. intros [HkP HvP]. pose proof cfg_entries. pose proof (lookup_lt_Some _ _ _ Hj) as Hjl.
  unfold non_leaf_shift_from_right. ni_cells HnN. ni_cells HnR. ni_cells HnP.
  destruct (lookup_lt_is_Some_2 (n_key R) 0) as [k' Hk']; [lia|].
  rewrite lookup_take_lt in Hv by lia. rewrite lookup_take_lt in Hj by lia.
  asteps; view_simpl; [rewrite Nat2Z.id; exact Hj|rewrite <- Hk'; f_equal; lia|rewrite <- Hv; f_equal; lia|..].
  { rewrite lookup_insert_if, decide_True by len. done. }
  mem_norm. eapply awp_sub_node_flush; [mem_lookup|mem_size|done|exact HV|done|].
  asteps. view_simpl. mem_norm.
  match goal with |- Q _ (mkView ?M _ _ _ _ _ _) =>
    match M with context [<[node := ?n]> _] => match M with context [<[right := ?r]> _] =>
    match M with context [<[parent := ?p]> _] =>
      replace M with (<[parent := p]> (<[right := r]> (<[node := n]> mem))) by mem_eq end end end end.
  apply (HQ _ _ _ k'); [done|done|done| |ni_solve|ni_solve|ni_solve].
  rewrite lookup_take_lt by lia. done.
Qed.

Lemma awp_non_leaf_merge_from_right node right parent N R P ks vs kr vr kp vp j k mem fd lv rt fs fr Q :
  mem !! node = Some N -> mem !! right = Some R -> mem !! parent = Some P -> NoDup [node; right; parent] ->
  (size mem < MIN_CACHE_NUM)%nat ->
  node_is N false ks vs -> node_is R false kr vr -> node_is P false kp vp ->
  (length vs + length vr <= cap)%nat -> kp !! j = Some k ->
  (forall c, c ∈ vr -> c <> INVALID_OFFSET /\ self_at fd c) ->
  (forall N', hdr N' = hdr N -> node_is N' false (ks ++ k :: kr) (vs ++ vr) ->
     Q tt (mkView (<[node := N']> mem) None (reparent (n_self N) vr fd) lv rt fs fr)) ->
  awp (non_leaf_merge_from_right node right parent (Z.of_nat j)) Q (mkView mem None fd lv rt fs fr).
Proof.
  intros HN HR HP Hnd Hsize HnN HnR HnP Hcap2 Hj Hself HQ.
  rewrite !NoDup_cons, !not_elem_of_cons in Hnd. destruct Hnd as ((? & ? & _) & (? & _) & _).
  eapply awp_sized; [exact HN|]. intros [HkN HvN]. eapply awp_sized; [exact HR|]. intros [HkR HvR].
  eapply awp_sized; [exact HP|]. intros [HkP HvP]. pose proof cfg_entries. pose proof (lookup_lt_Some _ _ _ Hj) as Hjl.
  unfold non_leaf_merge_from_right. ni_cells HnN. ni_cells HnR. ni_cells HnP.
  rewrite lookup_take_lt in Hj by lia.
  asteps; view_simpl; [rewrite Nat2Z.id; exact Hj|..]. mem_norm.
  replace (n_children N + 1 - 1) with (Z.of_nat nv) by lia.
  match goal with |- context [set_vals (mm ?a ?b ?c ?d ?e)] => set (V := mm a b c d e) end.
  assert (take (Z.to_nat (n_children R)) (drop nv V) = take nv0 (n_val R)) as HV by (unfold V; list_ext).
  eapply awp_flush_subs_from; [mem_lookup|mem_size|arith|view_simpl; unfold V; len|view_simpl; rewrite HV; exact Hself|].
  view_simpl. rewrite HV. unfold V. asteps. view_simpl. mem_norm. apply HQ; [done|]. ni_solve.
Qed.

(** ** Unlinking a node *)

(** The links of the neighbours, then the node itself. *)
Definition unlink_mem (l : nat) (ro : option (nat * bplus_node)) (mem : gmap nat bplus_node) : gmap nat bplus_node :=
  match ro with Some (r, _) => delete l (delete r mem) | None => delete l mem end.
Definition unlink_fd (L : bplus_node) (ro : option (nat * bplus_node)) (fd : gmap Z bplus_node) : gmap Z bplus_node :=
  match ro with
  | Some (_, R) => <[n_self L := set_next (n_self R) L]> (<[n_self R := set_prev (n_self L) R]> fd)
  | None => <[n_self L := set_next INVALID_OFFSET L]> fd
  end.

Lemma awp_node_delete node l N L (ro : option (nat * bplus_node)) mem fd lv rt fs fr Q :
  mem !! node = Some N -> mem !! l = Some L -> node <> l -> n_self N <> INVALID_OFFSET ->
  match ro with Some (r, R) => mem !! r = Some R /\ node <> r /\ l <> r | None => True end ->
  Q tt (mkView (delete node (unlink_mem l ro mem)) None (unlink_fd L ro fd) lv rt fs (fr ++ [n_self N])) ->
  awp (node_delete node (Some l) (fst <$> ro)) Q (mkView mem None fd lv rt fs fr).
Proof.
  intros HN HL Hne Hi Hro HQ. unfold node_delete. destruct ro as [[r R]|]; cbn [fmap option_fmap option_map fst].
  - destruct Hro as (HR & ? & ?). asteps. view_simpl.
    unfold unlink_mem, unlink_fd in HQ. view_apply HQ; [mem_eq|done].
  - asteps. view_simpl.
    unfold unlink_mem, unlink_fd in HQ. view_apply HQ; [mem_eq|done].
Qed.

Lemma awp_node_delete_only node N mem fd lv rt fs fr Q :
  mem !! node = Some N -> n_self N <> INVALID_OFFSET ->
  Q tt (mkView (delete node mem) None fd lv rt fs (fr ++ [n_self N])) ->
  awp (node_delete node None None) Q (mkView mem None fd lv rt fs fr).
Proof. intros HN Hi HQ. unfold node_delete. asteps. exact HQ. Qed.

(** ** The siblings *)

Definition ins_opt (r : option (nat * bplus_node)) (mem : gmap nat bplus_node) : gmap nat bplus_node :=
  match r with Some (p, M) => <[p := M]> mem | None => mem end.

(** What [node_fetch] of a link returns. *)
Definition fetched (fd : gmap Z bplus_node) (o : Z) (mem : gmap nat bplus_node) (r : option (nat * bplus_node)) : Prop :=
  match r with
  | Some (p, M) => o <> INVALID_OFFSET /\ fd !! o = Some M /\ n_self M = o /\ mem !! p = None
  | None => o = INVALID_OFFSET
  end.

Lemma awp_fetch_link o mem fd lv rt fs fr Q :
  link_at fd o -> (size mem < MIN_CACHE_NUM)%nat ->
  (forall r, fetched fd o mem r -> Q (fst <$> r) (mkView (ins_opt r mem) None fd lv rt fs fr)) ->
  awp (node_fetch o) Q (mkView mem None fd lv rt fs fr).
Proof.
  intros Hl Hs HQ. destruct (decide (o = INVALID_OFFSET)) as [->|Ho].
  - apply awp_node_fetch_null. by apply (HQ None).
  - destruct (Hl Ho) as (M & HM & HMs). eapply awp_node_fetch; [done|exact HM|done|].
    intros p Hp. by apply (HQ (Some (p, M))).
Qed.

Lemma awp_sibling_select_end (l r : option nat) parent P i mem fd lv rt fs fr Q :
  mem !! parent = Some P -> (i = -1 -> Q RIGHT_SIBLING (mkView mem None fd lv rt fs fr)) ->
  (i <> -1 -> i = n_children P - 2 -> Q LEFT_SIBLING (mkView mem None fd lv rt fs fr)) ->
  (i <> -1 -> i <> n_children P - 2 ->
     exists pl L pr R, l = Some pl /\ r = Some pr /\ mem !! pl = Some L /\ mem !! pr = Some R /\
       forall s, s = LEFT_SIBLING \/ s = RIGHT_SIBLING -> Q s (mkView mem None fd lv rt fs fr)) ->
  awp (sibling_select l r parent i) Q (mkView mem None fd lv rt fs fr).
Proof.
  intros HP H1 H2 H3. unfold sibling_select. asteps.
  destruct (Z.eqb_spec i (-1)); [apply awp_ret; auto|].
  destruct (Z.eqb_spec i (n_children P - 2)); [apply awp_ret; auto|].
  destruct H3 as (pl & L & pr & R & -> & -> & HL & HR & HQ); [done..|].
  unfold deref. asteps. apply HQ. destruct (_ <=? _); auto.
Qed.
End removals.
