(* ===== verification/BPlusLevels.v ===== *)
(** * The tree as a stack of levels

    The abstract state of the B+ tree: a list of levels, each level the list
    of its nodes from left to right.  A node carries its block offset, its
    parent pointer and the separator below it, so that one equation
    ([ids lower = kids upper]) says that the children of a level are the
    nodes of the next one, that their parent pointers are right and that the
    keys separate them.  The sibling pointers of a level form a doubly linked
    list ([seg]). *)

From stdpp Require Import sorting.
From S2P Require Import Prelude BPlusTree BPlusOps BPlusView BPlusNode BPlusEdit BPlusEditIns.

Lemma elem_take {A} (x : A) n l : x ∈ take n l -> x ∈ l.
Proof. intros H. rewrite <- (take_drop n l). apply elem_of_app. by left. Qed.
Lemma elem_drop {A} (x : A) n l : x ∈ drop n l -> x ∈ l.
Proof. intros H. rewrite <- (take_drop n l). apply elem_of_app. by right. Qed.

(** ** Bounds: keys with both infinities *)

Inductive bound : Type := NInf | Fin (z : Z) | PInf.

Definition blt (a b : bound) : Prop :=
  match a, b with
  | NInf, Fin _ | NInf, PInf | Fin _, PInf => True
  | Fin x, Fin y => x < y
  | _, _ => False
  end.
Arguments blt !_ !_ /.
Definition ble (a b : bound) : Prop := blt a b \/ a = b.

Lemma blt_trans a b c : blt a b -> blt b c -> blt a c.
Proof. destruct a, b, c; simpl; try done; lia. Qed.
Lemma ble_blt_trans a b c : ble a b -> blt b c -> blt a c.
Proof. intros [?| ->]; eauto using blt_trans. Qed.
Lemma blt_ble_trans a b c : blt a b -> ble b c -> blt a c.
Proof. intros ? [?| <-]; eauto using blt_trans. Qed.
Lemma blt_ble a b : blt a b -> ble a b.
Proof. by left. Qed.
Lemma ble_refl a : ble a a.
Proof. by right. Qed.
Lemma blt_irrefl a : ~ blt a a.
Proof. destruct a; simpl; lia. Qed.
Lemma ble_trans a b c : ble a b -> ble b c -> ble a c.
Proof. intros [H1| <-] [H2| <-]; unfold ble; eauto using blt_trans. Qed.
Lemma ble_fin x y : ble (Fin x) (Fin y) <-> x <= y.
Proof. unfold ble; simpl. split; [intros [?|[= ->]]; lia|]. intros. destruct (decide (x = y)); [right|left]; [by f_equal|lia]. Qed.

(** ** Nodes and levels *)

Record lnode := mkL { l_off : Z; l_par : Z; l_low : bound; l_keys : list Z; l_vals : list Z }.

Definition set_par (p : Z) (a : lnode) : lnode :=
  mkL (l_off a) p (l_low a) (l_keys a) (l_vals a).

(** Block offset, parent and separator of a node. *)
Definition ident : Type := (Z * Z * bound)%type.
Definition id_off (i : ident) : Z := i.1.1.
Definition id_par (i : ident) : Z := i.1.2.
Definition id_low (i : ident) : bound := i.2.
Definition id_of (a : lnode) : ident := (l_off a, l_par a, l_low a).
Definition ids (lv : list lnode) : list ident := id_of <$> lv.

Definition mk_id (p c : Z) (lo : bound) : ident := (c, p, lo).

(** The children of a non-leaf node. *)
Definition kid (a : lnode) : list ident :=
  zip_with (mk_id (l_off a)) (l_vals a) (l_low a :: (Fin <$> l_keys a)).
Definition kids (lv : list lnode) : list ident := concat (kid <$> lv).

Definition offs_of (lv : list lnode) : list Z := l_off <$> lv.
Definition offs (Ls : list (list lnode)) : list Z := concat (offs_of <$> Ls).

(** The entries of a level of leaves. *)
Definition entry (a : lnode) : list (Z * Z) := zip (l_keys a) (l_vals a).
Definition entries (lv : list lnode) : list (Z * Z) := concat (entry <$> lv).
Definition contents (Ls : list (list lnode)) : list (Z * Z) :=
  match last Ls with Some lv => entries lv | None => [] end.

Lemma kids_app A B : kids (A ++ B) = kids A ++ kids B.
Proof. unfold kids. by rewrite fmap_app, concat_app. Qed.
Lemma kids_cons a B : kids (a :: B) = kid a ++ kids B.
Proof. done. Qed.
Lemma ids_app A B : ids (A ++ B) = ids A ++ ids B.
Proof. apply fmap_app. Qed.
Lemma ids_cons a B : ids (a :: B) = id_of a :: ids B.
Proof. done. Qed.
Lemma entries_app A B : entries (A ++ B) = entries A ++ entries B.
Proof. unfold entries. by rewrite fmap_app, concat_app. Qed.
Lemma entries_cons a B : entries (a :: B) = entry a ++ entries B.
Proof. done. Qed.

Lemma length_kid a : length (l_vals a) = S (length (l_keys a)) -> length (kid a) = length (l_vals a).
Proof. intros H. unfold kid. rewrite length_zip_with. simpl. rewrite length_fmap. lia. Qed.

Lemma lookup_kid a j :
  kid a !! j = (c ← l_vals a !! j; lo ← (l_low a :: (Fin <$> l_keys a)) !! j; Some (mk_id (l_off a) c lo)).
Proof. unfold kid. rewrite lookup_zip_with. done. Qed.

(** The children of a level, one by one. *)
Lemma kids_split U X c Y :
  kids U = X ++ c :: Y ->
  exists A a B j, U = A ++ a :: B /\ kid a !! j = Some c /\
    X = kids A ++ take j (kid a) /\ Y = drop (S j) (kid a) ++ kids B.
Proof.
  revert X. induction U as [|a U IH]; intros X HU; [by destruct X|].
  rewrite kids_cons in HU. apply app_eq_app in HU as [l [[Ha HY]|[-> HU]]].
  - destruct l as [|c' l]; simpl in HY.
    + destruct (IH []) as (A & b & B & j & -> & Hj & HX & HY'); [by rewrite <- HY|].
      exists (a :: A), b, B, j. rewrite kids_cons, <- app_assoc, <- HX, Ha. repeat split; auto.
      by rewrite !app_nil_r.
    + simplify_eq. exists [], a, U, (length X). rewrite Ha, lookup_app_r, Nat.sub_diag by lia.
      rewrite take_app_length, drop_app_ge, Nat.sub_succ_l, Nat.sub_diag by lia.
      simpl. by rewrite drop_0.
  - destruct (IH l) as (A & b & B & j & -> & Hj & -> & ->); [done|].
    exists (a :: A), b, B, j. rewrite kids_cons, <- app_assoc. done.
Qed.

(** The nodes of a level, by their identities. *)
Lemma ids_split D X c Y :
  ids D = X ++ c :: Y -> exists A d B, D = A ++ d :: B /\ ids A = X /\ id_of d = c /\ ids B = Y.
Proof.
  intros H. apply fmap_app_inv in H as (A & l & -> & HD & ->).
  symmetry in HD. apply fmap_cons_inv in HD as (d & B & -> & -> & ->).
  exists A, d, B. done.
Qed.
Lemma ids_app_inv D X Y : ids D = X ++ Y -> exists A B, D = A ++ B /\ ids A = X /\ ids B = Y.
Proof. intros H. apply fmap_app_inv in H as (A & B & -> & -> & ->). eauto. Qed.

(** ** Separators *)

Definition hd_low (lv : list lnode) (hi : bound) : bound :=
  match lv with [] => hi | a :: _ => l_low a end.
Definition hd_ilow (I : list ident) (hi : bound) : bound :=
  match I with [] => hi | a :: _ => id_low a end.

Lemma hd_low_ids lv hi : hd_low lv hi = hd_ilow (ids lv) hi.
Proof. by destruct lv. Qed.

Definition lows (I : list ident) : list bound := id_low <$> I.
Abbreviation lows_ok I := (StronglySorted blt (lows I)).

(** Leaves in key order: the keys of a leaf are at least its separator and
    below the separator of the next leaf. *)
Fixpoint asc (lv : list lnode) (hi : bound) : Prop :=
  match lv with
  | [] => True
  | a :: lv =>
      sorted (l_keys a) /\ (forall k, k ∈ l_keys a -> ble (l_low a) (Fin k)) /\
      (forall k, k ∈ l_keys a -> blt (Fin k) (hd_low lv hi)) /\ asc lv hi
  end.

Lemma asc_app A B hi : asc (A ++ B) hi <-> asc A (hd_low B hi) /\ asc B hi.
Proof.
  induction A as [|a A IH]; simpl; [tauto|]. rewrite IH.
  assert (hd_low (A ++ B) hi = hd_low A (hd_low B hi)) as -> by (by destruct A). tauto.
Qed.

Definition keys_of (lv : list lnode) : list Z := concat (l_keys <$> lv).
Definition nonempty (a : lnode) : Prop := l_keys a <> [].

Lemma keys_of_app A B : keys_of (A ++ B) = keys_of A ++ keys_of B.
Proof. unfold keys_of. by rewrite fmap_app, concat_app. Qed.
Lemma keys_of_cons a B : keys_of (a :: B) = l_keys a ++ keys_of B.
Proof. done. Qed.

Lemma nonempty_key a : nonempty a -> exists k, k ∈ l_keys a.
Proof. unfold nonempty. destruct (l_keys a) as [|k ks]; [done|]. exists k. by left. Qed.

Lemma asc_step a lv hi : asc (a :: lv) hi -> nonempty a -> blt (l_low a) (hd_low lv hi).
Proof.
  intros (_ & Hlo & Hhi & _) (k & Hk)%nonempty_key.
  eapply ble_blt_trans; [by apply Hlo|by apply Hhi].
Qed.

Lemma asc_low_hi lv hi : asc lv hi -> Forall nonempty lv -> ble (hd_low lv hi) hi.
Proof.
  induction lv as [|a lv IH]; intros Ha Hne; [apply ble_refl|]. inversion_clear Hne. left.
  eapply blt_ble_trans; [by apply asc_step|]. by apply IH; [apply Ha|].
Qed.

Lemma asc_keys_hi lv hi k : asc lv hi -> Forall nonempty lv -> k ∈ keys_of lv -> blt (Fin k) hi.
Proof.
  induction lv as [|a lv IH]; intros Ha Hne Hk; [by apply elem_of_nil in Hk|].
  inversion_clear Hne. destruct Ha as (_ & _ & Hhi & Ha). rewrite keys_of_cons in Hk.
  apply elem_of_app in Hk as [Hk|Hk]; [|by apply IH].
  eapply blt_ble_trans; [by apply Hhi|]. by apply asc_low_hi.
Qed.

Lemma asc_keys_low lv hi k : asc lv hi -> Forall nonempty lv -> k ∈ keys_of lv -> ble (hd_low lv hi) (Fin k).
Proof.
  induction lv as [|a lv IH]; intros Ha Hne Hk; [by apply elem_of_nil in Hk|].
  inversion_clear Hne as [|? ? Hna Hnl]. pose proof (asc_step _ _ _ Ha Hna) as Hst.
  destruct Ha as (_ & Hlo & _ & Ha). rewrite keys_of_cons in Hk.
  apply elem_of_app in Hk as [Hk|Hk]; [by apply Hlo|].
  eapply ble_trans; [apply blt_ble, Hst|]. by apply IH.
Qed.

(** The keys of a level are in increasing order. *)
Lemma asc_sorted lv hi : asc lv hi -> Forall nonempty lv -> sorted (keys_of lv).
Proof.
  induction lv as [|a lv IH]; intros Ha Hne; [constructor|]. inversion_clear Hne.
  destruct Ha as (Hs & _ & Hhi & Ha). rewrite keys_of_cons. apply sorted_app.
  repeat split; [done|by apply IH|]. intros k k' Hk Hk'.
  pose proof (blt_ble_trans _ _ _ (Hhi _ Hk) (asc_keys_low _ _ _ Ha H0 Hk')). done.
Qed.

Lemma asc_lows lv hi :
  asc lv hi -> Forall nonempty lv -> lows_ok (ids lv) /\ (forall b, b ∈ lows (ids lv) -> ble (hd_low lv hi) b).
Proof.
  induction lv as [|a lv IH]; intros Ha Hne; [split; [constructor|intros b Hb; by apply elem_of_nil in Hb]|].
  inversion_clear Hne as [|? ? Hna Hnl]. pose proof (asc_step _ _ _ Ha Hna) as Hst.
  destruct Ha as (_ & _ & _ & Ha). destruct (IH Ha Hnl) as [IH1 IH2]. split.
  - constructor; [done|]. apply Forall_forall. intros b Hb.
    eapply blt_ble_trans; [exact Hst|by apply IH2].
  - intros b [->|Hb]%elem_of_cons; [apply ble_refl|].
    eapply ble_trans; [apply blt_ble, Hst|by apply IH2].
Qed.

(** Separators of the children of a level. *)
Definition wide (a : lnode) : Prop := length (l_vals a) = S (length (l_keys a)).

Lemma lows_kid a : wide a -> lows (kid a) = l_low a :: (Fin <$> l_keys a).
Proof.
  unfold wide, lows, kid. intros Ha. set (bs := _ :: _).
  assert (length (l_vals a) = length bs) as Hl by (unfold bs; simpl; by rewrite length_fmap).
  clearbody bs. revert bs Hl. clear Ha. induction (l_vals a) as [|v vs IH]; intros [|b bs] [=]; [done|].
  simpl. f_equal. by apply IH.
Qed.

Lemma lows_app I J : lows (I ++ J) = lows I ++ lows J.
Proof. apply fmap_app. Qed.

Lemma sorted_fin ks : StronglySorted blt (Fin <$> ks) -> sorted ks.
Proof.
  induction ks as [|k ks IH]; intros H; [constructor|]. inversion_clear H as [|? ? Hs Hf].
  constructor; [by apply IH|]. rewrite Forall_fmap in Hf. done.
Qed.

(** A level whose children are separated is itself in key order. *)
Lemma lows_kids_asc lv : lows_ok (kids lv) -> Forall wide lv -> asc lv PInf.
Proof.
  induction lv as [|a lv IH]; intros Hs Hw; [done|]. inversion_clear Hw as [|? ? Hwa Hwl].
  rewrite kids_cons, lows_app, lows_kid in Hs by done.
  apply StronglySorted_app in Hs as (Hx & Ha & Hl). inversion_clear Ha as [|? ? Hk Hlo].
  rewrite Forall_forall in Hlo. simpl. repeat split; [by apply sorted_fin| | |by apply IH].
  - intros k Hk'. left. apply Hlo. by apply list_elem_of_fmap_2.
  - intros k Hk'. destruct lv as [|b lv]; [done|]. inversion_clear Hwl. simpl.
    apply Hx; [right; by apply list_elem_of_fmap_2|].
    rewrite kids_cons, lows_app, lows_kid by done. by left.
Qed.

(** ** Descending one level

    The node that covers [x] (its separator is at most [x], the next one
    above) has, as its child number [crank x], the node that covers [x] on
    the level below. *)

Lemma hd_ilow_kids B hi : Forall wide B -> hd_ilow (kids B) hi = hd_low B hi.
Proof.
  destruct B as [|b B]; [done|]. inversion_clear 1. rewrite kids_cons. simpl.
  pose proof (lows_kid b H0) as Hl. destruct (kid b) as [|i I]; simpl in *; congruence.
Qed.

Lemma crank_lookup_le x ks i k : sorted ks -> ks !! i = Some k -> (i < crank x ks)%nat -> k <= x.
Proof.
  intros Hs Hk Hi. rewrite crank_rank in Hi by done. case_decide as Hx.
  - destruct (decide (i = rank x ks)) as [->|].
    + rewrite rank_elem in Hk by done. simplify_eq. done.
    + pose proof (rank_lt x ks i k Hk). lia.
  - pose proof (rank_lt x ks i k Hk). lia.
Qed.

Lemma crank_lookup_gt x ks i k : sorted ks -> ks !! i = Some k -> (crank x ks <= i)%nat -> x < k.
Proof.
  intros Hs Hk Hi. rewrite crank_rank in Hi by done.
  assert (x <= k) by (eapply rank_ge; [done..|lia]).
  destruct (decide (x = k)) as [->|]; [|lia].
  rewrite decide_True in Hi by (by eapply list_elem_of_lookup_2).
  assert (k < k); [|lia]. eapply (sorted_lookup ks (rank k ks) i); [done| |done|lia].
  apply rank_elem; [done|]. by eapply list_elem_of_lookup_2.
Qed.

Lemma descend D E A a B x :
  D = A ++ a :: B -> ids E = kids D -> Forall wide D -> sorted (l_keys a) ->
  ble (l_low a) (Fin x) -> blt (Fin x) (hd_low B PInf) ->
  exists A' d B', l_vals a !! crank x (l_keys a) = Some (l_off d) /\ E = A' ++ d :: B' /\
    ble (l_low d) (Fin x) /\ blt (Fin x) (hd_low B' PInf).
Proof.
  intros -> HE Hw Hs Hlo Hhi. apply Forall_app in Hw as [_ Hw]. inversion_clear Hw as [|? ? Hwa HwB].
  rewrite kids_app, kids_cons in HE. set (j := crank x (l_keys a)).
  assert (j <= length (l_keys a))%nat by apply crank_le. unfold wide in Hwa.
  destruct (lookup_lt_is_Some_2 (kid a) j) as [c Hc]; [rewrite length_kid; lia|].
  rewrite <- (take_drop_middle _ _ _ Hc) in HE. rewrite <- app_assoc, app_assoc in HE. simpl in HE.
  apply ids_split in HE as (A' & d & B' & -> & _ & Hd & HB'). exists A', d, B'.
  rewrite lookup_kid in Hc. destruct (l_vals a !! j) as [v|] eqn:Ev; simplify_eq/=.
  destruct ((l_low a :: (Fin <$> l_keys a)) !! j) as [lo|] eqn:El; simplify_eq/=.
  unfold id_of, mk_id in Hc. injection Hc as H1 H2 H3. subst v lo. repeat split.
  - apply lookup_cons_Some in El as [[_ <-]|[Hj El]]; [done|].
    rewrite list_lookup_fmap in El. destruct (l_keys a !! (j - 1)%nat) as [k|] eqn:Ek; [|done].
    injection El as <-. apply ble_fin. apply (crank_lookup_le x (l_keys a) (j - 1)); [done|done|lia].
  - rewrite hd_low_ids, HB'. destruct (l_keys a !! j) as [k|] eqn:Ek.
    + assert (lows (drop (S j) (kid a)) !! 0%nat = Some (Fin k)) as Hl.
      { unfold lows. rewrite fmap_drop. fold (lows (kid a)). rewrite lows_kid by done.
        rewrite lookup_drop, Nat.add_0_r. simpl. by rewrite list_lookup_fmap, Ek. }
      destruct (drop (S j) (kid a)) as [|e es]; simplify_eq/=.
      rewrite Hl. simpl. by apply (crank_lookup_gt x (l_keys a) j).
    + apply lookup_ge_None_1 in Ek. rewrite drop_ge by (rewrite length_kid; lia).
      simpl. by rewrite hd_ilow_kids.
Qed.

(** ** The entries of the leaves *)

Definition full (a : lnode) : Prop := length (l_vals a) = length (l_keys a).

Lemma entries_keys lv : Forall full lv -> (entries lv).*1 = keys_of lv.
Proof.
  induction 1 as [|a lv Ha Hl IH]; [done|]. rewrite entries_cons, fmap_app, IH, keys_of_cons.
  f_equal. unfold entry. apply fst_zip. unfold full in Ha. lia.
Qed.

Lemma sorted_NoDup ks : sorted ks -> NoDup ks.
Proof.
  induction 1 as [|k ks Hs IH Hk]; constructor; [|done].
  intros Hin. rewrite Forall_forall in Hk. specialize (Hk _ Hin). lia.
Qed.

Definition leaves_ok (lv : list lnode) : Prop := asc lv PInf /\ Forall nonempty lv /\ Forall full lv.

Lemma leaves_NoDup lv : leaves_ok lv -> NoDup ((entries lv).*1).
Proof. intros (Ha & Hn & Hf). rewrite entries_keys by done. eapply sorted_NoDup, asc_sorted; done. Qed.

(** The leaf that covers [x] decides whether [x] is in the tree. *)
Lemma leaf_lookup A a B x :
  leaves_ok (A ++ a :: B) -> ble (l_low a) (Fin x) -> blt (Fin x) (hd_low B PInf) ->
  (list_to_map (entries (A ++ a :: B)) : gmap Z Z) !! x =
    if decide (x ∈ l_keys a) then l_vals a !! rank x (l_keys a) else None.
Proof.
  intros Hok Hlo Hhi. pose proof (leaves_NoDup _ Hok) as Hnd. destruct Hok as (Ha & Hn & Hf).
  case_decide as Hx.
  - apply asc_app in Ha as (_ & Hs & _). apply Forall_app in Hf as [_ Hf]. inversion_clear Hf as [|? ? Hfa _].
    pose proof (rank_elem _ _ Hs Hx) as Hr. pose proof (lookup_lt_Some _ _ _ Hr). unfold full in Hfa.
    destruct (lookup_lt_is_Some_2 (l_vals a) (rank x (l_keys a))) as [v Hv]; [lia|]. rewrite Hv.
    apply elem_of_list_to_map_1; [done|]. rewrite entries_app, entries_cons, !elem_of_app.
    right; left. apply (list_elem_of_lookup_2 _ (rank x (l_keys a))). unfold entry.
    rewrite lookup_zip_with, Hr, Hv. done.
  - apply not_elem_of_list_to_map_1. rewrite entries_keys by done.
    rewrite keys_of_app, keys_of_cons, !elem_of_app. apply asc_app in Ha as (HA & _ & _ & _ & HB).
    apply Forall_app in Hn as [HnA HnB]. inversion_clear HnB. intros [Hk|[Hk|Hk]]; [|done|].
    + pose proof (asc_keys_hi _ _ _ HA HnA Hk) as Hlt. simpl in Hlt.
      by apply (blt_irrefl (Fin x)), (blt_ble_trans _ (l_low a)).
    + pose proof (asc_keys_low _ _ _ HB H0 Hk) as Hle.
      by apply (blt_irrefl (Fin x)), (blt_ble_trans _ (hd_low B PInf)).
Qed.

(** ** Inserting and cutting the children of a node *)

Definition kid_of (p : Z) (lo : bound) (ks vs : list Z) : list ident :=
  zip_with (mk_id p) vs (lo :: (Fin <$> ks)).

Lemma kid_kid_of nd : kid nd = kid_of (l_off nd) (l_low nd) (l_keys nd) (l_vals nd).
Proof. done. Qed.

Lemma list_split_app i l r vs :
  (i < length vs)%nat -> list_split i l r vs = take i vs ++ l :: r :: drop (S i) vs.
Proof.
  intros Hi. unfold list_split, list_ins. rewrite insert_take_drop by done.
  rewrite take_app_length', drop_app_length' by (rewrite length_take; lia). done.
Qed.

Lemma kid_of_app p lo ks1 k ks2 vs1 vs2 :
  length vs1 = S (length ks1) ->
  kid_of p lo (ks1 ++ k :: ks2) (vs1 ++ vs2) = kid_of p lo ks1 vs1 ++ kid_of p (Fin k) ks2 vs2.
Proof.
  intros Hl. unfold kid_of. rewrite fmap_app, fmap_cons, app_comm_cons.
  rewrite zip_with_app; [done|]. rewrite length_cons, length_fmap. done.
Qed.

(** A new separator: child [i] becomes two. *)
Lemma kid_of_split p lo ks vs i k l r c clo :
  length vs = S (length ks) -> kid_of p lo ks vs !! i = Some (mk_id p c clo) ->
  kid_of p lo (list_ins i k ks) (list_split i l r vs)
  = take i (kid_of p lo ks vs) ++ mk_id p l clo :: mk_id p r (Fin k) :: drop (S i) (kid_of p lo ks vs).
Proof.
  intros Hl Hc. assert (i < length vs)%nat as Hi.
  { apply lookup_lt_Some in Hc. unfold kid_of in Hc. rewrite length_zip_with in Hc. lia. }
  rewrite list_split_app by done. unfold kid_of in *.
  rewrite zip_with_take, zip_with_drop. set (bs := lo :: (Fin <$> ks)) in *.
  assert (bs !! i = Some clo) as Hb.
  { rewrite lookup_zip_with in Hc. destruct (vs !! i); [|done]. simpl in Hc.
    destruct (bs !! i); simpl in Hc; [|done]. unfold mk_id in Hc. congruence. }
  assert (lo :: (Fin <$> list_ins i k ks) = take i bs ++ clo :: Fin k :: drop (S i) bs) as ->.
  { unfold list_ins, bs in *. rewrite fmap_app, fmap_cons, fmap_take, fmap_drop. simpl.
    set (fs := Fin <$> ks) in *. destruct i as [|i]; simpl in *; [congruence|].
    by rewrite (take_S_r _ _ _ Hb), <- app_assoc. }
  rewrite zip_with_app; [done|]. rewrite !length_take. unfold bs. simpl. rewrite length_fmap. lia.
Qed.

(** A node cut after its child [s]. *)
Lemma kid_of_cut p lo ks vs s k :
  length vs = S (length ks) -> ks !! s = Some k ->
  kid_of p lo ks vs
  = kid_of p lo (take s ks) (take (S s) vs) ++ kid_of p (Fin k) (drop (S s) ks) (drop (S s) vs).
Proof.
  intros Hl Hk. pose proof (lookup_lt_Some _ _ _ Hk).
  rewrite <- kid_of_app by (rewrite !length_take; lia).
  by rewrite take_drop, take_drop_middle.
Qed.

Lemma rank_list_ins k ks i :
  (i <= length ks)%nat -> sorted (list_ins i k ks) -> rank k ks = i /\ k ∉ ks.
Proof.
  intros Hi Hs. unfold list_ins in Hs. apply sorted_app in Hs as (_ & Hs2 & Hlt).
  apply sorted_cons in Hs2 as (_ & Hgt).
  assert (forall j x, ks !! j = Some x -> (j < i)%nat -> x < k) as H1.
  { intros j x Hx Hj. apply Hlt; [|by left]. apply (list_elem_of_lookup_2 _ j). by rewrite lookup_take_lt. }
  assert (forall j x, ks !! j = Some x -> (i <= j)%nat -> k < x) as H2.
  { intros j x Hx Hj. apply Hgt. apply (list_elem_of_lookup_2 _ (j - i)). rewrite lookup_drop.
    by replace (i + (j - i))%nat with j by lia. }
  split.
  - apply rank_unique; [done|done|]. intros x Hx. pose proof (H2 _ _ Hx). lia.
  - intros (j & Hj)%list_elem_of_lookup.
    destruct (decide (j < i)%nat) as [Hd|Hd]; [pose proof (H1 _ _ Hj Hd)|pose proof (H2 _ _ Hj)]; lia.
Qed.
