(* ===== verification/BPlusInv.v ===== *)
(** * The levels in the index file

    [seg]: a level as a doubly linked list of blocks.  [up_ok], [down_ok]: the
    levels above and below a given one, so that the operations that climb the
    tree rebuild the part above from the part below.  [space]: the blocks of
    the file are those of the tree and the free ones, each once. *)

From S2P Require Import Prelude BPlusTree BPlusOps BPlusView BPlusNode BPlusEdit BPlusEditIns BPlusEditSplit BPlusLevels.

Section inv.
Context `{Hcfg : ConfigOk}.

Implicit Types fd : gmap Z bplus_node.
Implicit Types a b : lnode.
Implicit Types A B D lv : list lnode.
Implicit Types Ls U Ds : list (list lnode).

(** ** A level *)

(** The block of the node [a]. *)
Definition blk fd (lf : bool) a (pv nx : Z) : Prop :=
  exists N, fd !! l_off a = Some N /\ hdr N = (l_off a, l_par a, pv, nx) /\
    node_is N lf (l_keys a) (l_vals a).

Definition hd_off lv (nx : Z) : Z := match lv with [] => nx | a :: _ => l_off a end.
Fixpoint last_off (pv : Z) lv : Z := match lv with [] => pv | a :: lv => last_off (l_off a) lv end.

Fixpoint seg fd (lf : bool) (pv : Z) lv (nx : Z) : Prop :=
  match lv with
  | [] => True
  | a :: lv => blk fd lf a pv (hd_off lv nx) /\ seg fd lf (l_off a) lv nx
  end.

Lemma hd_off_app A B nx : hd_off (A ++ B) nx = hd_off A (hd_off B nx).
Proof. by destruct A. Qed.
Lemma last_off_app pv A B : last_off pv (A ++ B) = last_off (last_off pv A) B.
Proof. revert pv. induction A; simpl; auto. Qed.

Lemma last_off_in pv A : last_off pv A = pv \/ last_off pv A ∈ offs_of A.
Proof.
  revert pv. induction A as [|a A IH]; intros pv; simpl; [by left|]. right.
  destruct (IH (l_off a)) as [->|H]; [by left|by right].
Qed.
Lemma hd_off_in B nx : hd_off B nx = nx \/ hd_off B nx ∈ offs_of B.
Proof. destruct B; [by left|right; by left]. Qed.

Lemma seg_app fd lf pv A B nx :
  seg fd lf pv (A ++ B) nx <-> seg fd lf pv A (hd_off B nx) /\ seg fd lf (last_off pv A) B nx.
Proof.
  revert pv. induction A as [|a A IH]; intros pv; simpl; [tauto|].
  rewrite IH, hd_off_app. tauto.
Qed.

(** The same nodes, some with another parent, in a file that has their new
    parents. *)
Definition moved fd fd' a a' : Prop :=
  exists p, a' = set_par p a /\
    (fd' !! l_off a = fd !! l_off a /\ p = l_par a \/
     fd' !! l_off a = set_parent p <$> fd !! l_off a).

Lemma moved_off fd fd' A A' : Forall2 (moved fd fd') A A' -> offs_of A' = offs_of A.
Proof. induction 1 as [|a a' A A' (p & -> & _) _ IH]; [done|]. unfold offs_of in *. simpl. by f_equal. Qed.

Lemma moved_hd fd fd' A A' nx : Forall2 (moved fd fd') A A' -> hd_off A' nx = hd_off A nx.
Proof. destruct 1 as [|a a' A A' (p & -> & _) _]; done. Qed.

Lemma blk_moved fd fd' lf a a' pv nx : moved fd fd' a a' -> blk fd lf a pv nx -> blk fd' lf a' pv nx.
Proof.
  intros (p & -> & Hm) (N & HN & HH & Hni). unfold blk. simpl. destruct Hm as [[Hm ->]|Hm].
  - exists N. rewrite Hm, HN. done.
  - exists (set_parent p N). rewrite Hm, HN. split; [done|]. unfold hdr in *. split; [simpl; congruence|]. destruct Hni. by split.
Qed.

Lemma seg_moved fd fd' lf pv A A' nx :
  Forall2 (moved fd fd') A A' -> seg fd lf pv A nx -> seg fd' lf pv A' nx.
Proof.
  intros H. revert pv. induction H as [|a a' A A' Ha HA IH]; intros pv; simpl; [done|].
  rewrite (moved_hd _ _ _ _ _ HA). intros [Hb Hs]. split; [by eapply blk_moved|].
  destruct Ha as (p & -> & _). by apply IH.
Qed.

Definition same_on fd fd' (os : list Z) : Prop := forall o, o ∈ os -> fd' !! o = fd !! o.

Lemma same_on_moved fd fd' A : same_on fd fd' (offs_of A) -> Forall2 (moved fd fd') A A.
Proof.
  intros H. apply Forall_Forall2_diag, Forall_forall. intros a Ha. exists (l_par a). split; [by destruct a|].
  left. split; [|done]. apply H. by apply list_elem_of_fmap_2.
Qed.

Lemma seg_same fd fd' lf pv A nx :
  same_on fd fd' (offs_of A) -> seg fd lf pv A nx -> seg fd' lf pv A nx.
Proof. intros H. eapply seg_moved. by apply same_on_moved. Qed.

Lemma seg_blk fd lf pv A a B nx :
  seg fd lf pv (A ++ a :: B) nx -> blk fd lf a (last_off pv A) (hd_off B nx).
Proof. rewrite seg_app. intros (_ & H & _). done. Qed.

(** Every block of a level knows its offset. *)
Lemma seg_self fd lf pv A nx o : seg fd lf pv A nx -> o ∈ offs_of A -> self_at fd o.
Proof.
  intros Hs (a & -> & Ha)%list_elem_of_fmap. apply list_elem_of_split in Ha as (A1 & A2 & ->).
  apply seg_blk in Hs as (N & HN & HH & _). exists N. unfold hdr in HH. split; congruence.
Qed.

(** *** Changing the links around a node *)

Lemma last_off_snoc pv A a : last_off pv (A ++ [a]) = l_off a.
Proof. by rewrite last_off_app. Qed.

Lemma seg_relink_next fd lf pv A nx o :
  seg fd lf pv A nx -> NoDup (offs_of A) -> pv = INVALID_OFFSET ->
  Forall (fun x => x <> INVALID_OFFSET) (offs_of A) ->
  seg (relink (set_next o) (last_off pv A) fd) lf pv A o.
Proof.
  intros Hs Hnd -> Hi. destruct A as [|z A _] using rev_ind; [done|].
  rewrite last_off_snoc. unfold offs_of in *. rewrite fmap_app, NoDup_app in Hnd. rewrite fmap_app, Forall_app in Hi.
  destruct Hnd as (Hn1 & Hn2 & _), Hi as (_ & Hi). inversion_clear Hi.
  unfold relink. rewrite decide_False by done. apply seg_app in Hs as (H1 & H2).
  apply seg_app. split.
  - eapply seg_same; [|exact H1]. intros x Hx. rewrite lookup_alter_ne; [done|].
    intros <-. eapply Hn2; [exact Hx|]. by left.
  - destruct H2 as [(N & HN & HH & Hni) _]. split; [|done]. exists (set_next o N).
    rewrite lookup_alter_eq, HN. split; [done|]. unfold hdr in *. split; [simpl; congruence|].
    destruct Hni. by split.
Qed.

Lemma seg_relink_prev fd lf pv A o nx :
  seg fd lf pv A nx -> NoDup (offs_of A) ->
  Forall (fun x => x <> INVALID_OFFSET) (offs_of A) -> nx = INVALID_OFFSET ->
  seg (relink (set_prev o) (hd_off A nx) fd) lf o A nx.
Proof.
  intros Hs Hnd Hi ->. destruct A as [|z A]; [done|]. simpl.
  inversion_clear Hnd as [|? ? Hn Hnd']. inversion_clear Hi as [|? ? Hz _].
  unfold relink. rewrite decide_False by done. destruct Hs as [(N & HN & HH & Hni) Hs]. split.
  - exists (set_prev o N). rewrite lookup_alter_eq, HN. split; [done|]. unfold hdr in *. split; [simpl; congruence|]. destruct Hni. by split.
  - eapply seg_same; [|exact Hs]. intros x Hx. rewrite lookup_alter_ne; [done|]. by intros <-.
Qed.

(** ** The stack of levels *)

Abbreviation cap := (Z.to_nat _max_entries).

(** The least number of children or entries of a node: half of the capacity,
    but for the root. *)
Definition min_fill (lf top : bool) : nat :=
  if top then (if lf then 1 else 2) else (if lf then lsplit else nsplit).

Definition filled (lf top : bool) a : Prop := (min_fill lf top <= length (l_vals a))%nat.

Definition lvl_ok fd (lf top : bool) lv : Prop :=
  seg fd lf INVALID_OFFSET lv INVALID_OFFSET /\ Forall (filled lf top) lv.

Definition is_nil {T} (l : list T) : bool := match l with [] => true | _ => false end.

(** The levels [U] above, nearest first, of a level with the nodes [I]. *)
Fixpoint up_ok fd (root : Z) (U : list (list lnode)) (I : list ident) : Prop :=
  match U with
  | [] => I = [mk_id INVALID_OFFSET root NInf]
  | lv :: U => I = kids lv /\ lvl_ok fd false (is_nil U) lv /\ up_ok fd root U (ids lv)
  end.

(** The levels [Ds] from one with the nodes [I] down to the leaves. *)
Fixpoint down_ok fd (top : bool) (I : list ident) (Ds : list (list lnode)) : Prop :=
  match Ds with
  | [] => False
  | lv :: Ds =>
      I = ids lv /\ lvl_ok fd (is_nil Ds) top lv /\
      match Ds with [] => asc lv PInf | _ => down_ok fd false (kids lv) Ds end
  end.

Lemma lsplit_bounds' : (1 <= lsplit)%nat.
Proof. pose proof lsplit_bounds. lia. Qed.

Lemma min_fill_pos (lf top : bool) : (1 + (if lf then 0 else 1) <= min_fill lf top)%nat.
Proof.
  unfold min_fill. pose proof lsplit_bounds'. pose proof nsplit_bounds. destruct lf, top; lia.
Qed.

Lemma seg_len fd (lf : bool) pv A nx :
  seg fd lf pv A nx -> Forall (fun a => length (l_vals a) = (length (l_keys a) + if lf then 0 else 1)%nat) A.
Proof.
  revert pv. induction A as [|a A IH]; intros pv; simpl; [done|].
  intros [(N & _ & _ & Hni) Hs]. constructor; [apply (ni_len _ _ _ _ Hni)|by eapply IH].
Qed.

Lemma lvl_wide fd top lv : lvl_ok fd false top lv -> Forall wide lv.
Proof. intros [Hs _]. eapply Forall_impl; [by eapply seg_len|]. unfold wide. simpl. lia. Qed.
Lemma lvl_full fd top lv : lvl_ok fd true top lv -> Forall full lv.
Proof. intros [Hs _]. eapply Forall_impl; [by eapply seg_len|]. unfold full. simpl. lia. Qed.
Lemma lvl_nonempty fd lf top lv : lvl_ok fd lf top lv -> Forall nonempty lv.
Proof.
  intros [Hs Hf]. pose proof (seg_len _ _ _ _ _ Hs) as Hl. pose proof (min_fill_pos lf top).
  rewrite Forall_forall in *. intros a Ha. specialize (Hf a Ha). specialize (Hl a Ha).
  unfold nonempty, filled in *. intros E. rewrite E in Hl. simpl in Hl. lia.
Qed.

Lemma down_asc fd top I D Ds : down_ok fd top I (D :: Ds) -> asc D PInf.
Proof.
  revert top I D. induction Ds as [|E Ds IH]; intros top I D (-> & Hl & Hd); [done|].
  apply lows_kids_asc; [|by eapply lvl_wide].
  pose proof (IH _ _ _ Hd) as Ha. destruct Hd as (-> & Hl' & _).
  apply (asc_lows _ PInf); [done|by eapply lvl_nonempty].
Qed.

Lemma down_lows fd top I Ds : down_ok fd top I Ds -> lows_ok I.
Proof.
  destruct Ds as [|D Ds]; [done|]. intros Hd. pose proof (down_asc _ _ _ _ _ Hd).
  destruct Hd as (-> & Hl & _). apply (asc_lows _ PInf); [done|by eapply lvl_nonempty].
Qed.

Lemma up_same fd fd' root U I : same_on fd fd' (offs U) -> up_ok fd root U I -> up_ok fd' root U I.
Proof.
  revert I. induction U as [|lv U IH]; intros I Hs; [done|]. intros (-> & [Hl Hf] & Hu).
  unfold offs in Hs. simpl in Hs. split; [done|]. split; [split; [|done]|].
  - eapply seg_same; [|done]. intros o Ho. apply Hs, elem_of_app. by left.
  - apply IH; [|done]. intros o Ho. apply Hs, elem_of_app. by right.
Qed.

Lemma down_same fd fd' top I Ds : same_on fd fd' (offs Ds) -> down_ok fd top I Ds -> down_ok fd' top I Ds.
Proof.
  revert top I. induction Ds as [|lv Ds IH]; intros top I Hs; [done|]. intros (-> & [Hl Hf] & Hu).
  unfold offs in Hs. simpl in Hs. split; [done|]. split; [split; [|done]|].
  - eapply seg_same; [|done]. intros o Ho. apply Hs, elem_of_app. by left.
  - destruct Ds; [done|]. apply IH; [|done]. intros o Ho. apply Hs, elem_of_app. by right.
Qed.

Lemma moved_kids fd fd' D D' : Forall2 (moved fd fd') D D' -> kids D' = kids D.
Proof. induction 1 as [|a a' A A' (p & -> & _) _ IH]; [done|]. rewrite !kids_cons. by f_equal. Qed.
Lemma moved_asc fd fd' D D' hi : Forall2 (moved fd fd') D D' -> asc D hi -> asc D' hi.
Proof.
  induction 1 as [|a a' A A' (p & -> & _) HA IH]; [done|]. intros (? & ? & ? & ?). split_and!; [done..| |by apply IH].
  by destruct HA as [|? ? ? ? (? & -> & _) ?].
Qed.
Lemma moved_filled fd fd' lf top D D' :
  Forall2 (moved fd fd') D D' -> Forall (filled lf top) D -> Forall (filled lf top) D'.
Proof. induction 1 as [|a a' A A' (p & -> & _) _ IH]; [done|]. inversion_clear 1. constructor; auto. Qed.

(** The top level of a stack gets other parents. *)
Lemma down_moved fd fd' top I D D' Ds :
  Forall2 (moved fd fd') D D' -> same_on fd fd' (offs Ds) ->
  down_ok fd top I (D :: Ds) -> down_ok fd' top (ids D') (D' :: Ds).
Proof.
  intros HD Hs (-> & [Hl Hf] & Hd). split; [done|]. split; [split|].
  - by eapply seg_moved.
  - by eapply moved_filled.
  - destruct Ds; [by eapply moved_asc|]. rewrite (moved_kids _ _ _ _ HD). by eapply down_same.
Qed.

(** ** The blocks of the file *)

(** The blocks of the file are those in [os], in use, and those in [fr],
    free, each once. *)
Definition space (os : list Z) (fs : Z) (fr : list Z) : Prop :=
  NoDup (os ++ fr) /\ Forall (fun o => 0 <= o < fs /\ (_block_size | o)) (os ++ fr) /\
  fs = _block_size * Z.of_nat (length (os ++ fr)).

Lemma space_perm os os' fs fr fr' : os ++ fr ≡ₚ os' ++ fr' -> space os fs fr -> space os' fs fr'.
Proof.
  intros Hp (Hnd & Hf & Hfs). split_and!.
  - by apply (NoDup_Permutation_proper _ _ Hp).
  - by apply (Forall_Permutation _ _ (reflexivity _) _ _ Hp).
  - by rewrite <- (Permutation_length Hp).
Qed.

Lemma space_alloc os fs fr o fs' fr' :
  alloc fs fr = (o, fs', fr') -> space os fs fr -> space (o :: os) fs' fr'.
Proof.
  pose proof cfg_block. unfold alloc, space. intros Ha (Hnd & Hf & Hfs).
  destruct fr as [|o' fr]; simplify_eq.
  - rewrite app_nil_r in *. simpl. rewrite app_nil_r. set (fs := _block_size * _) in *.
    assert (0 <= fs) by (apply Z.mul_nonneg_nonneg; lia). split_and!.
    + constructor; [|done]. intros Hin. rewrite Forall_forall in Hf.
      destruct (Hf _ Hin) as [? _]. lia.
    + constructor.
      * split; [lia|]. exists (Z.of_nat (length os)). unfold fs. lia.
      * eapply Forall_impl; [exact Hf|]. simpl. intros x [? ?]. split; [lia|done].
    + unfold fs. lia.
  - apply (space_perm os _ _ (o :: fr')); [|done]. simpl. by rewrite Permutation_middle.
Qed.

Lemma space_free o os fs fr : space (o :: os) fs fr -> space os fs (fr ++ [o]).
Proof. apply space_perm. simpl. rewrite app_assoc. apply Permutation_cons_append. Qed.

Lemma space_NoDup os fs fr : space os fs fr -> NoDup os.
Proof. intros (Hnd & _). by apply NoDup_app in Hnd as [? _]. Qed.

Lemma space_valid os fs fr o : space os fs fr -> o ∈ os -> o <> INVALID_OFFSET.
Proof.
  intros (_ & Hf & _) Hin ->. rewrite Forall_forall in Hf.
  destruct (Hf INVALID_OFFSET) as (_ & [q Hq]); [apply elem_of_app; by left|].
  pose proof cfg_even as He. apply Z.mod_divide in He as [h Hh]; [|done].
  rewrite Hh in Hq. unfold INVALID_OFFSET in Hq. lia.
Qed.

Lemma space_valid_all os fs fr : space os fs fr -> Forall (fun x => x <> INVALID_OFFSET) os.
Proof. intros H. apply Forall_forall. intros x Hx. by eapply space_valid. Qed.

(** ** The invariant of the tree *)

(** With no operation running: no buffer in use, and the levels [Ds] in the
    file. *)
Record tree_inv (Ds : list (list lnode)) (a : cview) : Prop := {
  inv_mem : v_mem a = ∅;
  inv_seek : v_seek a = None;
  inv_space : space (offs Ds) (v_fsize a) (v_free a);
  inv_level : v_level a = Z.of_nat (length Ds);
  inv_tree : match Ds with
             | [] => v_root a = INVALID_OFFSET
             | _ => down_ok (v_fd a) true [mk_id INVALID_OFFSET (v_root a) NInf] Ds
             end
}.

(** The tree [t] stores the map [m]. *)
Definition tree_rep (t : bplus_tree) (m : gmap Z Z) : Prop :=
  exists (a : cview) Ds, shows t a /\ tree_inv Ds a /\ m = list_to_map (contents Ds).

Lemma offs_cons D Ds : offs (D :: Ds) = offs_of D ++ offs Ds.
Proof. done. Qed.
Lemma offs_of_app A B : offs_of (A ++ B) = offs_of A ++ offs_of B.
Proof. apply fmap_app. Qed.
Lemma offs_of_ids D : offs_of D = id_off <$> ids D.
Proof. unfold offs_of, ids. by rewrite <- list_fmap_compose. Qed.

End inv.
