(* ===== verification/BPlusSearch.v ===== *)
(** * Search

    The descent from the root to the leaf that covers a key, shared by search,
    insertion and deletion, and the correctness of [bplus_tree_search]. *)

From S2P Require Import Prelude BPlusTree BPlusOps BPlusView BPlusNode BPlusEdit BPlusEditIns BPlusEditSplit BPlusLevels BPlusInv.

Section search.
Context `{Hcfg : ConfigOk}.

(** ** The descent *)

(** The descent has reached the node [nd] of the level [A ++ nd :: B], with
    the levels [U] above and [Ds] below; [x] is in the range of [nd], which
    the last [node_seek] left in the buffer [p]. *)
Record at_node (x : Z) (U : list (list lnode)) (A : list lnode) (nd : lnode) (B : list lnode)
    (Ds : list (list lnode)) (p : nat) (N : bplus_node) (a : cview) : Prop := {
  at_up : up_ok (v_fd a) (v_root a) U (ids (A ++ nd :: B));
  at_down : down_ok (v_fd a) (is_nil U) (ids (A ++ nd :: B)) ((A ++ nd :: B) :: Ds);
  at_lo : ble (l_low nd) (Fin x);
  at_hi : blt (Fin x) (hd_low B PInf);
  at_seek : v_seek a = Some (p, N);
  at_mem : v_mem a = ∅;
  at_fd : v_fd a !! l_off nd = Some N;
  at_node_is : node_is N (is_nil Ds) (l_keys nd) (l_vals nd);
  at_hdr : hdr N = (l_off nd, l_par nd, last_off INVALID_OFFSET A, hd_off B INVALID_OFFSET);
  at_space : space (offs U ++ offs ((A ++ nd :: B) :: Ds)) (v_fsize a) (v_free a)
}.

(** The cache is empty and the tree is as before. *)
Definition rest (a a' : cview) : Prop := w_seek None a' = w_seek None a.

Lemma at_sorted x U A nd B Ds p N a : at_node x U A nd B Ds p N a -> sorted (l_keys nd).
Proof. intros H. apply at_down, down_asc, asc_app in H as (_ & H & _). done. Qed.

Lemma size_empty_lt a : v_mem a = ∅ -> (size (v_mem a) < MIN_CACHE_NUM)%nat.
Proof. intros ->. rewrite map_size_empty. unfold MIN_CACHE_NUM. lia. Qed.

Lemma awp_node_seek_at x U A nd B Ds a Q :
  up_ok (v_fd a) (v_root a) U (ids (A ++ nd :: B)) ->
  down_ok (v_fd a) (is_nil U) (ids (A ++ nd :: B)) ((A ++ nd :: B) :: Ds) ->
  ble (l_low nd) (Fin x) -> blt (Fin x) (hd_low B PInf) -> v_mem a = ∅ ->
  space (offs U ++ offs ((A ++ nd :: B) :: Ds)) (v_fsize a) (v_free a) ->
  (forall p N a', at_node x U A nd B Ds p N a' -> rest a a' -> Q (Some p) a') ->
  awp (node_seek (l_off nd)) Q a.
Proof.
  intros Hup Hdown Hlo Hhi Hmem Hsp HQ.
  assert (blk (v_fd a) (is_nil Ds) nd (last_off INVALID_OFFSET A) (hd_off B INVALID_OFFSET)) as Hblk.
  { destruct Hdown as (_ & [Hs _] & _). by apply seg_blk in Hs. }
  destruct Hblk as (N & HN & HH & Hni). eapply awp_node_seek; [|exact HN|by apply size_empty_lt|].
  { eapply space_valid; [done|]. rewrite offs_cons, offs_of_app. rewrite !elem_of_app.
    right; left; right. by left. }
  intros p Hp. eapply (HQ p N); [|done]. by split.
Qed.

(** One step: the child that covers [x]. *)
Lemma at_child x U A nd B E Ds p N a :
  at_node x U A nd B (E :: Ds) p N a ->
  exists A' nd' B', E = A' ++ nd' :: B' /\ l_vals nd !! crank x (l_keys nd) = Some (l_off nd') /\
    up_ok (v_fd a) (v_root a) ((A ++ nd :: B) :: U) (ids E) /\
    down_ok (v_fd a) false (ids E) (E :: Ds) /\
    ble (l_low nd') (Fin x) /\ blt (Fin x) (hd_low B' PInf) /\
    space (offs ((A ++ nd :: B) :: U) ++ offs (E :: Ds)) (v_fsize a) (v_free a).
Proof.
  intros H. pose proof (at_sorted _ _ _ _ _ _ _ _ _ H) as Hs. destruct H as [Hup (_ & Hl & Hd) ? ? _ _ _ _ _ Hsp].
  pose proof (lvl_wide _ _ _ Hl) as Hw.
  assert (ids E = kids (A ++ nd :: B)) as HE by (by destruct Hd as [-> _]).
  destruct (descend _ E A nd B x eq_refl HE Hw Hs) as (A' & nd' & B' & Hv & HEq & Hlo & Hhi); [done..|].
  exists A', nd', B'. split_and!; try done.
  - by rewrite HE.
  - eapply space_perm; [|exact Hsp]. rewrite (offs_cons _ (E :: Ds)), (offs_cons _ U).
    apply Permutation_app_tail. rewrite app_assoc. apply Permutation_app_tail, Permutation_app_comm.
Qed.

(** The result of [key_binary_search] for a node with the keys [ks]. *)
Definition found_at (x : Z) (ks : list Z) : Z :=
  if decide (x ∈ ks) then Z.of_nat (rank x ks) else - Z.of_nat (rank x ks) - 1.

Lemma found_at_nonneg x ks : (0 <=? found_at x ks) = bool_decide (x ∈ ks).
Proof.
  unfold found_at. case_decide.
  - rewrite bool_decide_true by done. apply Z.leb_le. lia.
  - rewrite bool_decide_false by done. apply Z.leb_gt. lia.
Qed.

(** With the offset of the child. *)
Lemma awp_child_off x U A nd B E Ds p N a (Q : option nat -> cview -> Prop) :
  at_node x U A nd B (E :: Ds) p N a ->
  (forall A' nd' B' p' N' a', E = A' ++ nd' :: B' -> l_vals nd !! crank x (l_keys nd) = Some (l_off nd') ->
     at_node x ((A ++ nd :: B) :: U) A' nd' B' Ds p' N' a' -> rest a a' -> Q (Some p') a') ->
  let i := found_at x (l_keys nd) in
  awp (if 0 <=? i then val_at p (i + 1) else val_at p (- i - 1))
    (fun o a' => awp (node_seek o) Q a') a.
Proof.
  intros H HQ. pose proof (at_sorted _ _ _ _ _ _ _ _ _ H) as Hs.
  destruct (at_child _ _ _ _ _ _ _ _ _ _ H) as (A' & nd' & B' & -> & Hv & Hup & Hd & Hlo & Hhi & Hsp).
  pose proof (at_node_is _ _ _ _ _ _ _ _ _ H) as Hni.
  assert (awp (val_at p (Z.of_nat (crank x (l_keys nd)))) (fun o a' => awp (node_seek o) Q a') a) as Hval.
  { pose proof (lookup_lt_Some _ _ _ Hv) as Hlt. pose proof (ni_cap _ _ _ _ Hni).
    pose proof cfg_entries.
    eapply awp_val_at_seek; [by apply H|rewrite val_cap_eq, ?cfg_order; lia| |].
    - rewrite Nat2Z.id, (ni_val_lookup _ _ _ _ _ Hni) by done. exact Hv.
    - eapply awp_node_seek_at; try done; [by apply H|]. intros. by eapply HQ. }
  intros i. rewrite <- (child_index_ok x (l_keys nd)) in Hval by done.
  fold (found_at x (l_keys nd)) in Hval. fold i in Hval. by destruct (0 <=? i).
Qed.

Lemma awp_child_val x U A nd B E Ds p N a (Q : option nat -> cview -> Prop) :
  at_node x U A nd B (E :: Ds) p N a ->
  (forall A' nd' B' p' N' a', E = A' ++ nd' :: B' ->
     at_node x ((A ++ nd :: B) :: U) A' nd' B' Ds p' N' a' -> rest a a' -> Q (Some p') a') ->
  let i := found_at x (l_keys nd) in
  awp (if 0 <=? i then val_at p (i + 1) else val_at p (- i - 1))
    (fun o a' => awp (node_seek o) Q a') a.
Proof. intros H HQ. apply (awp_child_off _ _ _ _ _ _ _ _ _ _ _ H). intros; by eapply HQ. Qed.

Lemma awp_child x U A nd B E Ds p N a (Q : option nat -> cview -> Prop) :
  at_node x U A nd B (E :: Ds) p N a ->
  (forall A' nd' B' p' N' a', E = A' ++ nd' :: B' ->
     at_node x ((A ++ nd :: B) :: U) A' nd' B' Ds p' N' a' -> rest a a' -> Q (Some p') a') ->
  awp (child_of p x) (fun o a' => awp (node_seek o) Q a') a.
Proof.
  intros H HQ. unfold child_of. apply awp_bind. eapply awp_get_seek; [by apply H|].
  apply awp_bind. eapply awp_lift; [eapply key_binary_search_ok; [by apply H|by eapply at_sorted]|].
  by eapply awp_child_val.
Qed.

(** From the root to the level below. *)
Lemma awp_root_seek x Ds a (Q : option nat -> cview -> Prop) :
  tree_inv Ds a ->
  (Ds = [] -> Q None a) ->
  (forall nd Ds' p N a', Ds = [nd] :: Ds' -> at_node x [] [] nd [] Ds' p N a' -> rest a a' -> Q (Some p) a') ->
  awp (gets t_root) (fun r a' => awp (node_seek r) Q a') a.
Proof.
  intros Hinv Hnil HQ. eapply (awp_gets _ v_root); [by intros t []|].
  destruct Hinv as [Hm Hsk Hsp Hlv Ht]. destruct Ds as [|D Ds].
  { rewrite Ht. apply awp_node_seek_null. by apply Hnil. }
  assert (exists nd, D = [nd] /\ id_of nd = mk_id INVALID_OFFSET (v_root a) NInf) as (nd & -> & Hid).
  { destruct Ht as (Hi & _). destruct D as [|nd [|]]; simplify_eq/=. eauto. }
  replace (v_root a) with (l_off nd) by (unfold id_of, mk_id in Hid; congruence).
  eapply (awp_node_seek_at x [] [] nd [] Ds); try done.
  - simpl. by rewrite Hid.
  - by rewrite (proj1 Ht) in Ht.
  - unfold id_of, mk_id in Hid. injection Hid as _ _ ->. by left.
  - intros p N a' Hat Hr. by eapply HQ.
Qed.

(** ** [bplus_tree_search] *)

Lemma at_leaf_lookup x U A nd B p N a :
  at_node x U A nd B [] p N a ->
  (list_to_map (entries (A ++ nd :: B)) : gmap Z Z) !! x =
    if decide (x ∈ l_keys nd) then l_vals nd !! rank x (l_keys nd) else None.
Proof.
  intros [_ (_ & Hl & Ha) Hlo Hhi _ _ _ _ _ _]. apply leaf_lookup; [|done|done].
  split_and!; [done|by eapply lvl_nonempty|by eapply lvl_full].
Qed.

Lemma rest_trans a a' a'' : rest a a' -> rest a' a'' -> rest a a''.
Proof. unfold rest. congruence. Qed.

Definition search_result (o : option Z) : Z :=
  match o with Some d => int_of_long d | None => -1 end.

Lemma search_loop_ok x fuel U A nd B Ds p N a :
  at_node x U A nd B Ds p N a -> (length Ds < fuel)%nat ->
  awp (bplus_tree_search_loop fuel (Some p) x)
    (fun r a' => r = search_result ((list_to_map (contents ((A ++ nd :: B) :: Ds)) : gmap Z Z) !! x)
                 /\ rest a a') a.
Proof.
  revert U A nd B Ds p N a. induction fuel as [|fuel IH]; intros U A nd B Ds p N a H Hf; [lia|].
  pose proof (at_sorted _ _ _ _ _ _ _ _ _ H) as Hs. pose proof (at_node_is _ _ _ _ _ _ _ _ _ H) as Hni.
  simpl. apply awp_bind. eapply awp_get_seek; [by apply H|].
  apply awp_bind. eapply awp_lift; [by eapply key_binary_search_ok|].
  fold (found_at x (l_keys nd)). rewrite (ni_leaf _ _ _ _ Hni). destruct Ds as [|E Ds]; simpl.
  - unfold contents. simpl. rewrite (at_leaf_lookup _ _ _ _ _ _ _ _ H), found_at_nonneg.
    unfold found_at. destruct (decide (x ∈ l_keys nd)) as [Hx|Hx];
      [rewrite bool_decide_true by done|rewrite bool_decide_false by done; by apply awp_ret].
    pose proof (lookup_lt_Some _ _ _ (rank_elem _ _ Hs Hx)) as Hr.
    pose proof (ni_len _ _ _ _ Hni) as Hl. pose proof (ni_cap _ _ _ _ Hni). simpl in Hl. pose proof cfg_entries.
    destruct (lookup_lt_is_Some_2 (l_vals nd) (rank x (l_keys nd))) as [v Hv]; [lia|].
    apply awp_bind. eapply awp_val_at_seek; [by apply H|rewrite val_cap_eq, ?cfg_order; lia| |].
    + rewrite Nat2Z.id, (ni_val_lookup _ _ _ _ _ Hni) by lia. exact Hv.
    + apply awp_ret. by rewrite Hv.
  - apply awp_bind. eapply awp_mono; [eapply (awp_child_val _ _ _ _ _ _ _ _ _ _ _ H)|intros o a' Ho; apply awp_bind, Ho].
    intros A' nd' B' p' N' a' -> Hat Hr.
    eapply awp_mono; [apply (IH _ _ _ _ _ _ _ _ Hat)|]; [simpl in Hf; lia|].
    intros r a'' [-> Hr']. split; [done|by eapply rest_trans].
Qed.

(** The view may forget the buffer of the last [node_seek]. *)
Lemma awp_forget {R} (m : T R) (Q : R -> cview -> Prop) a :
  awp m (fun x a' => Q x (w_seek None a')) a -> awp m Q a.
Proof.
  intros H t Ht. eapply wp_mono; [by apply H|]. intros x t' (a' & Hs & HQ).
  exists (w_seek None a'). split; [by apply shows_drop_seek|done].
Qed.

Lemma rest_inv Ds a a' : tree_inv Ds a -> rest a a' -> tree_inv Ds (w_seek None a').
Proof. unfold rest. intros H ->. by destruct H. Qed.

Lemma search_ok fuel x Ds a :
  tree_inv Ds a -> (length Ds < fuel)%nat ->
  awp (bplus_tree_search fuel x)
    (fun r a' => r = search_result ((list_to_map (contents Ds) : gmap Z Z) !! x) /\ tree_inv Ds a') a.
Proof.
  intros Hinv Hf. apply awp_forget. unfold bplus_tree_search. apply awp_bind.
  eapply awp_mono; [eapply (awp_root_seek x Ds a _ Hinv)|intros r a' Hr; apply awp_bind, Hr].
  - intros ->. destruct fuel; [lia|]. simpl. apply awp_ret. split; [done|by eapply rest_inv].
  - intros nd Ds' p N a' -> Hat Hr.
    eapply awp_mono; [apply (search_loop_ok _ _ _ _ _ _ _ _ _ _ Hat)|]; [simpl in Hf; lia|].
    intros r a'' [-> Hr']. split; [done|]. eapply rest_inv; [done|by eapply rest_trans].
Qed.
End search.
