(* ===== verification/BPlusClimb.v ===== *)
(** * Rebuilding the tree on the way up

    The level-list lemmas shared by insertion and deletion: closing a stack of
    levels into a tree, giving a run of nodes another parent, splitting a node
    of a level in two. *)

From S2P Require Import Prelude BPlusTree BPlusOps BPlusView BPlusNode BPlusEdit BPlusEditIns BPlusEditSplit BPlusLevels BPlusInv.

Section climb.
Context `{Hcfg : ConfigOk}.

Implicit Types fd : gmap Z bplus_node.
Implicit Types A B D lv : list lnode.
Implicit Types U Ds : list (list lnode).

Lemma lsplit_Z : (_max_entries + 1) / 2 = Z.of_nat lsplit.
Proof.
  pose proof cfg_entries. unfold lsplit. rewrite Nat2Z.inj_div. f_equal. lia.
Qed.

(** ** Closing the stack *)

Lemma up_down fd root U I Ds :
  Ds <> [] -> up_ok fd root U I -> down_ok fd (is_nil U) I Ds ->
  down_ok fd true [mk_id INVALID_OFFSET root NInf] (rev_append U Ds).
Proof.
  revert I Ds. induction U as [|lv U IH]; intros I Ds Hne Hu Hd; simpl in *; [by subst|].
  destruct Hu as (-> & Hl & Hu). apply (IH (ids lv)); [done..|]. destruct Ds as [|D Ds]; done.
Qed.

Lemma offs_rev_append U Ds : offs (rev_append U Ds) ≡ₚ offs U ++ offs Ds.
Proof.
  revert Ds. induction U as [|lv U IH]; intros Ds; [done|]. simpl. rewrite IH, !offs_cons.
  rewrite app_assoc. apply Permutation_app_tail. apply Permutation_app_comm.
Qed.

Lemma contents_rev_append U D Ds : contents (rev_append U (D :: Ds)) = contents (D :: Ds).
Proof.
  revert D Ds. induction U as [|lv U IH]; intros D Ds; [done|]. simpl. rewrite IH. done.
Qed.

Lemma rev_append_not_nil {T} (U Ds : list T) : Ds <> [] -> rev_append U Ds <> [].
Proof. revert Ds. induction U as [|u U IH]; intros Ds H; [done|]. simpl. by apply IH. Qed.

Lemma rebuild fd root U I D Ds lvl fs fr :
  up_ok fd root U I -> down_ok fd (is_nil U) I (D :: Ds) ->
  space (offs U ++ offs (D :: Ds)) fs fr ->
  lvl = Z.of_nat (length U) + Z.of_nat (length (D :: Ds)) ->
  tree_inv (rev_append U (D :: Ds)) (mkView ∅ None fd lvl root fs fr).
Proof.
  intros Hu Hd Hs Hl. split; simpl; [done|done| | |].
  - eapply space_perm; [|exact Hs]. apply Permutation_app_tail. symmetry. apply offs_rev_append.
  - rewrite rev_append_rev, length_app, length_rev. simpl in *. lia.
  - pose proof (rev_append_not_nil U (D :: Ds)). destruct (rev_append U (D :: Ds)) eqn:E; [by destruct H|].
    rewrite <- E. by eapply up_down.
Qed.

(** ** Another parent for some nodes of a level *)

Definition redad (o : Z) (cs : list Z) (d : lnode) : lnode :=
  if decide (l_off d ∈ cs) then set_par o d else d.
Definition reid (o : Z) (cs : list Z) (i : ident) : ident :=
  if decide (id_off i ∈ cs) then mk_id o (id_off i) (id_low i) else i.

Lemma ids_redad o cs D : ids (redad o cs <$> D) = reid o cs <$> ids D.
Proof.
  unfold ids. rewrite <- !list_fmap_compose. apply list_fmap_ext. intros _ d _. simpl.
  unfold redad, reid. cbn. by case_decide.
Qed.

Lemma offs_redad o cs D : offs_of (redad o cs <$> D) = offs_of D.
Proof.
  unfold offs_of. rewrite <- list_fmap_compose. apply list_fmap_ext. intros _ d _. simpl.
  unfold redad. by case_decide.
Qed.

Lemma offs_redad_cons o cs D Ds : offs ((redad o cs <$> D) :: Ds) = offs (D :: Ds).
Proof. rewrite !offs_cons. by rewrite offs_redad. Qed.

Lemma contents_redad o cs D Ds : contents ((redad o cs <$> D) :: Ds) = contents (D :: Ds).
Proof.
  destruct Ds; [|done]. unfold contents, entries. simpl. f_equal. rewrite <- list_fmap_compose.
  apply list_fmap_ext. intros _ d _. simpl. unfold redad. by case_decide.
Qed.

Lemma moved_redad fd fd' o cs D :
  (forall x, x ∈ offs_of D ->
     fd' !! x = if decide (x ∈ cs) then set_parent o <$> fd !! x else fd !! x) ->
  Forall2 (moved fd fd') D (redad o cs <$> D).
Proof.
  intros H. apply Forall2_fmap_r, Forall_Forall2_diag, Forall_forall. intros d Hd.
  specialize (H (l_off d) (list_elem_of_fmap_2 _ _ _ Hd)). cbn. unfold redad, moved.
  destruct (decide (l_off d ∈ cs)).
  - exists o. split; [done|]. by right.
  - exists (l_par d). split; [by destruct d|]. by left.
Qed.

Lemma reid_out o cs (I : list ident) : (forall x, x ∈ id_off <$> I -> x ∉ cs) -> reid o cs <$> I = I.
Proof.
  intros H. rewrite <- (list_fmap_id I) at 2. apply list_fmap_ext. intros j i Hi. unfold reid.
  rewrite decide_False; [done|]. apply H. apply list_elem_of_fmap_2. by eapply list_elem_of_lookup_2.
Qed.

Lemma reid_in o cs p lo ks vs :
  (forall v, v ∈ vs -> v ∈ cs) -> reid o cs <$> kid_of p lo ks vs = kid_of o lo ks vs.
Proof.
  unfold kid_of. generalize (lo :: (Fin <$> ks)). clear. intros bs. revert bs.
  induction vs as [|v vs IH]; intros [|b bs] H; simpl; [done..|]. f_equal.
  - unfold reid. cbn. rewrite decide_True; [done|]. apply H. by left.
  - apply IH. intros w Hw. apply H. by right.
Qed.

Lemma kid_of_offs p lo ks vs : length vs = S (length ks) -> id_off <$> kid_of p lo ks vs = vs.
Proof.
  unfold kid_of. intros H. assert (length vs = length (lo :: (Fin <$> ks))) as Hl by (simpl; by rewrite length_fmap).
  revert Hl. generalize (lo :: (Fin <$> ks)). clear. intros bs. revert bs.
  induction vs as [|v vs IH]; intros [|b bs] [=]; simpl; [done..|]. f_equal. by apply IH.
Qed.

(** ** Splitting a node of a level *)

Lemma offs_middle A a B : offs_of (A ++ a :: B) ≡ₚ l_off a :: offs_of A ++ offs_of B.
Proof. unfold offs_of. rewrite fmap_app. simpl. by rewrite Permutation_middle. Qed.

Lemma offs_split A a1 a2 nd B o :
  l_off a1 = o /\ l_off a2 = l_off nd \/ l_off a1 = l_off nd /\ l_off a2 = o ->
  offs_of (A ++ a1 :: a2 :: B) ≡ₚ o :: offs_of (A ++ nd :: B).
Proof.
  intros H. rewrite !offs_middle. unfold offs_of at 2. rewrite fmap_cons. fold (offs_of B).
  rewrite <- Permutation_middle. destruct H as [[-> ->]|[-> ->]]; [done|apply Permutation_swap].
Qed.

Lemma seg_relinked_next fd fd' lf A nx o :
  seg fd lf INVALID_OFFSET A nx -> NoDup (offs_of A) -> Forall (fun x => x <> INVALID_OFFSET) (offs_of A) ->
  same_on (relink (set_next o) (last_off INVALID_OFFSET A) fd) fd' (offs_of A) ->
  seg fd' lf INVALID_OFFSET A o.
Proof. intros. eapply seg_same; [done|]. by eapply seg_relink_next. Qed.

Lemma seg_relinked_prev fd fd' lf pv B o :
  seg fd lf pv B INVALID_OFFSET -> NoDup (offs_of B) -> Forall (fun x => x <> INVALID_OFFSET) (offs_of B) ->
  same_on (relink (set_prev o) (hd_off B INVALID_OFFSET) fd) fd' (offs_of B) ->
  seg fd' lf o B INVALID_OFFSET.
Proof. intros. eapply seg_same; [done|]. by eapply seg_relink_prev. Qed.

Lemma same_on_app fd fd' os os' : same_on fd fd' (os ++ os') <-> same_on fd fd' os /\ same_on fd fd' os'.
Proof.
  unfold same_on. split.
  - intros H. split; intros o Ho; apply H, elem_of_app; auto.
  - intros [H1 H2] o [Ho|Ho]%elem_of_app; auto.
Qed.

Lemma relink_out f o fd x : x <> o -> relink f o fd !! x = fd !! x.
Proof. intros H. unfold relink. case_decide; [done|]. by rewrite lookup_alter_ne. Qed.

Lemma seg_replace fd fd' lf pv A nd nd' B nx :
  seg fd lf pv (A ++ nd :: B) nx -> same_on fd fd' (offs_of A ++ offs_of B) -> l_off nd' = l_off nd ->
  blk fd' lf nd' (last_off pv A) (hd_off B nx) -> seg fd' lf pv (A ++ nd' :: B) nx.
Proof.
  intros Hs [HA HB]%same_on_app Ho Hb. apply seg_app in Hs as (H1 & H2 & H3). apply seg_app.
  simpl in *. rewrite Ho. split_and!; [by eapply seg_same|done|by eapply seg_same].
Qed.

Lemma seg_two fd lf A a1 a2 B :
  seg fd lf INVALID_OFFSET A (l_off a1) ->
  blk fd lf a1 (last_off INVALID_OFFSET A) (l_off a2) ->
  blk fd lf a2 (l_off a1) (hd_off B INVALID_OFFSET) ->
  seg fd lf (l_off a2) B INVALID_OFFSET ->
  seg fd lf INVALID_OFFSET (A ++ a1 :: a2 :: B) INVALID_OFFSET.
Proof. intros. apply seg_app. by split_and!. Qed.

End climb.
