(* ===== verification/BPlusInsert.v ===== *)
(** * Insertion

    A split leaves two nodes in the cache where the level above knows one: the
    [hole].  [parent_node_build] closes it, one level at a time. *)

From S2P Require Import Prelude BPlusTree BPlusOps BPlusView BPlusNode BPlusEdit BPlusEditIns BPlusEditSplit BPlusLevels BPlusInv BPlusSearch BPlusClimb.

Section insert.
Context `{Hcfg : ConfigOk}.

Abbreviation cap := (Z.to_nat _max_entries).
Abbreviation INV := INVALID_OFFSET.

Implicit Types fd : gmap Z bplus_node.
Implicit Types A B D lv : list lnode.
Implicit Types U Ds : list (list lnode).

(** The file with the two nodes written, their parent [p]. *)
Definition over (p : Z) (L R : bplus_node) fd : gmap Z bplus_node :=
  <[n_self R := set_parent p R]> (<[n_self L := set_parent p L]> fd).

Record hole U (X Y : list ident) (p c : Z) (lo : bound) (kk : Z) D Ds (L R : bplus_node)
    fd (lvl root fs : Z) (fr : list Z) : Prop := {
  h_up : up_ok fd root U (X ++ mk_id p c lo :: Y);
  h_down : down_ok (over p L R fd) false
             (X ++ mk_id p (n_self L) lo :: mk_id p (n_self R) (Fin kk) :: Y) (D :: Ds);
  h_par : n_parent L = p /\ n_parent R = INV \/ n_parent L = INV /\ n_parent R = p;
  h_space : space (offs U ++ offs (D :: Ds)) fs fr;
  h_level : lvl = Z.of_nat (length U) + Z.of_nat (length (D :: Ds))
}.

(** The tree is whole again, with the same entries. *)
Definition closed D Ds (r : Z) (a : cview) : Prop :=
  r = 0 /\ exists Ls, tree_inv Ls a /\ contents Ls = contents (D :: Ds).

Lemma over_out p L R fd x : x <> n_self L -> x <> n_self R -> over p L R fd !! x = fd !! x.
Proof. intros. unfold over. by rewrite !lookup_insert_ne by auto. Qed.
Lemma over_l p L R fd : n_self L <> n_self R -> over p L R fd !! n_self L = Some (set_parent p L).
Proof. intros. unfold over. rewrite lookup_insert_ne by auto. by rewrite lookup_insert_eq. Qed.
Lemma over_r p L R fd : over p L R fd !! n_self R = Some (set_parent p R).
Proof. unfold over. by rewrite lookup_insert_eq. Qed.

Lemma closed_same D Ds D' Ds' r a : contents (D' :: Ds') = contents (D :: Ds) -> closed D' Ds' r a -> closed D Ds r a.
Proof. intros Hc (Hr & Ls & Hi & Hl). split; [done|]. exists Ls. by rewrite Hl. Qed.

(** ** Growing a new root *)

Lemma awp_new_root nli kk L R X Y p c lo D Ds l_ch r_ch fd lvl root fs fr :
  hole [] X Y p c lo kk D Ds L R fd lvl root fs fr -> l_ch <> r_ch ->
  awp (parent_node_build_with nli l_ch r_ch kk) (closed D Ds)
    (mkView (<[l_ch := L]> (<[r_ch := R]> ∅)) None fd lvl root fs fr).
Proof.
  intros [Hu Hd Hp Hs Hl] Hne. simpl in Hu, Hs.
  assert (X = [] /\ Y = [] /\ p = INV /\ lo = NInf) as (-> & -> & -> & ->).
  { destruct X as [|? [|? ?]]; simplify_eq/=. unfold mk_id in *. by simplify_eq. }
  assert (n_parent L = INV /\ n_parent R = INV) as [HpL HpR] by tauto.
  unfold parent_node_build_with. asteps. rewrite HpL, HpR, Z.eqb_refl. cbn [andb].
  apply awp_bind, awp_non_leaf_new.
  { mem_small. }
  intros pb P0 Hpb [HkP HvP] HpP Hpv Hnx Hty. view_simpl_in Hpb.
  assert (pb <> l_ch /\ pb <> r_ch) as [Hbl Hbr].
  { split; [apply (insert_None_ne _ _ _ L Hpb)|apply (insert_None_ne _ _ _ R Hpb)]; mem_lookup. }
  destruct (alloc fs fr) as [[o fs'] fr'] eqn:Ha. pose proof cfg_entries as Hce.
  view_simpl. asteps.
  eapply awp_new_node_append; [view_simpl; mem_lookup|done|]. asteps.
  split; [done|].
  match goal with |- context [<[o := ?n]> _] => set (P := n) end.
  assert (node_is P false [kk] [n_self L; n_self R]) as HP.
  { unfold P. split; view_simpl; [done|done| | |done|simpl; lia].
    - destruct (n_key P0) as [|k0 ks0]; simpl in HkP; [lia|done].
    - destruct (n_val P0) as [|v0 [|v1 vs0]]; simpl in HvP; [lia|lia|done]. }
  assert (hdr P = (o, INV, INV, INV)) as HhP by (unfold P, hdr; simpl; congruence).
  match goal with |- context [mkView ?m _ _ _ _ _ _] => replace m with (∅ : gmap nat bplus_node) by mem_eq end.
  clearbody P. exists ([mkL o INV NInf [kk] [n_self L; n_self R]] :: (redad o [n_self L; n_self R] <$> D) :: Ds).
  apply (space_alloc _ _ _ _ _ _ Ha) in Hs. pose proof (space_NoDup _ _ _ Hs) as Hnd.
  rewrite offs_cons in Hnd. apply NoDup_cons in Hnd as [Ho Hnd]. rewrite elem_of_app in Ho.
  apply NoDup_app in Hnd as (_ & Hdis & _).
  assert (ids D = [mk_id INV (n_self L) NInf; mk_id INV (n_self R) (Fin kk)]) as HD by (by destruct Hd).
  assert (offs_of D = [n_self L; n_self R]) as HoD by (by rewrite offs_of_ids, HD).
  rewrite HoD in Ho, Hdis. split; [|apply contents_redad].
  apply (rebuild _ _ [[_]] (ids (redad o [n_self L; n_self R] <$> D))).
  - rewrite ids_redad, HD. split_and!.
    + unfold reid. cbn. rewrite !decide_True by (rewrite !elem_of_cons; auto). done.
    + split; [|by repeat constructor]. simpl. split; [|done]. exists P. by rewrite lookup_insert_eq.
    + done.
  - eapply down_moved; [| |exact Hd].
    + apply moved_redad. intros x Hx. rewrite HoD in Hx. rewrite decide_True by done.
      rewrite lookup_insert_ne by (intros <-; tauto). unfold over. rewrite !lookup_insert.
      case_decide; [done|]. case_decide; [done|]. rewrite !elem_of_cons, elem_of_nil in Hx.
      destruct Hx as [|[|[]]]; congruence.
    + intros x Hx. rewrite lookup_insert_ne by (intros <-; tauto). fold (over o L R fd).
      assert (x <> n_self L /\ x <> n_self R) as [? ?].
      { split; intros ->; eapply Hdis; try exact Hx; rewrite !elem_of_cons; auto. }
      rewrite (over_out o), (over_out INV) by done. done.
  - rewrite (offs_cons (_ <$> _)), offs_redad. exact Hs.
  - rewrite Hl. simpl. lia.
Qed.

(** ** The parent of the two nodes *)

(** The node of the level above that has the hole, at its child [j]. *)
Record parent_at A nd B (j : nat) (N : bplus_node) D (p : Z) (kk : Z) (L R : bplus_node) fd : Prop := {
  pa_off : l_off nd = p;
  pa_wide : wide nd;
  pa_pos : (j <= length (l_keys nd))%nat;
  pa_rank : rank kk (l_keys nd) = j;
  pa_new : kk ∉ l_keys nd;
  pa_sorted : sorted (l_keys nd);
  pa_ids : ids D = kids A ++ kid_of p (l_low nd) (list_ins j kk (l_keys nd))
                               (list_split j (n_self L) (n_self R) (l_vals nd)) ++ kids B;
  pa_fd : fd !! p = Some N;
  pa_hdr : hdr N = (p, l_par nd, last_off INV A, hd_off B INV);
  pa_node : node_is N false (l_keys nd) (l_vals nd)
}.

Lemma sorted_del i k ks : sorted (list_ins i k ks) -> sorted ks.
Proof.
  unfold list_ins. rewrite sorted_app, sorted_cons. intros (H1 & (H2 & H3) & H4).
  rewrite <- (take_drop i ks). apply sorted_app. split_and!; [done|done|].
  intros x y Hx Hy. apply H4; [done|by right].
Qed.

Lemma hole_parent lv U X Y p c lo kk D Ds L R fd lvl root fs fr :
  hole (lv :: U) X Y p c lo kk D Ds L R fd lvl root fs fr ->
  exists A nd B j N, lv = A ++ nd :: B /\ parent_at A nd B j N D p kk L R fd.
Proof.
  intros [Hu Hd _ _ _]. destruct Hu as (HX & Hl & Hu). symmetry in HX.
  apply kids_split in HX as (A & nd & B & j & -> & Hj & -> & ->).
  pose proof (lvl_wide _ _ _ Hl) as Hw. pose proof Hw as Hw'.
  apply Forall_app in Hw as [HwA Hw]. inversion_clear Hw as [|? ? Hwn HwB]. pose proof Hwn as Hwn'. unfold wide in Hwn.
  pose proof (lookup_lt_Some _ _ _ Hj) as Hlt. rewrite length_kid in Hlt by done.
  assert (l_off nd = p) as Hoff.
  { rewrite lookup_kid in Hj. destruct (l_vals nd !! j); [|done]. simpl in Hj.
    destruct ((l_low nd :: (Fin <$> l_keys nd)) !! j); [|done]. simpl in Hj. unfold mk_id in Hj. congruence. }
  pose proof (down_lows _ _ _ _ Hd) as Hlows. destruct Hl as [Hs Hf].
  pose proof (seg_blk _ _ _ _ _ _ _ Hs) as (N & HN & HH & Hni).
  rewrite kid_kid_of, Hoff in *.
  pose proof (kid_of_split _ _ _ _ j kk (n_self L) (n_self R) _ _ Hwn Hj) as Hk.
  assert (ids D = kids A ++ kid_of p (l_low nd) (list_ins j kk (l_keys nd))
                               (list_split j (n_self L) (n_self R) (l_vals nd)) ++ kids B) as HD.
  { destruct Hd as (<- & _). rewrite Hk, <- !app_assoc. done. }
  assert (sorted (list_ins j kk (l_keys nd))) as Hsort.
  { set (nd' := mkL p (l_par nd) (l_low nd) (list_ins j kk (l_keys nd)) (list_split j (n_self L) (n_self R) (l_vals nd))).
    assert (asc (A ++ nd' :: B) PInf) as Ha.
    { apply lows_kids_asc.
      - rewrite kids_app, kids_cons, kid_kid_of. unfold nd'. cbn [l_off l_low l_keys l_vals].
        rewrite <- HD. by destruct Hd as (<- & _).
      - apply Forall_app. split; [done|]. constructor; [|done]. unfold wide, nd'. cbn [l_keys l_vals].
        rewrite length_list_split, length_ins by lia. lia. }
    apply asc_app in Ha as (_ & Ha & _). done. }
  destruct (rank_list_ins kk (l_keys nd) j) as [Hr Hnew]; [lia|done|].
  exists A, nd, B, j, N. split; [done|]. split; try done; [lia|by eapply sorted_del].
Qed.

Lemma hole_disj A nd B U X Y p c lo kk D Ds L R fd lvl root fs fr j N :
  hole ((A ++ nd :: B) :: U) X Y p c lo kk D Ds L R fd lvl root fs fr ->
  parent_at A nd B j N D p kk L R fd ->
  (forall x, x ∈ offs ((A ++ nd :: B) :: U) -> x <> n_self L /\ x <> n_self R) /\
  (forall x, x ∈ offs Ds -> x <> n_self L /\ x <> n_self R) /\
  (forall x, x ∈ offs (D :: Ds) -> x <> p) /\ (forall x, x ∈ offs U -> x <> p) /\
  (forall x, x ∈ offs_of A ++ offs_of B -> x <> p) /\ n_self L <> n_self R.
Proof.
  intros Hh [Hoff _ _ _ _ _ _ _ _ _]. pose proof (space_NoDup _ _ _ (h_space _ _ _ _ _ _ _ _ _ _ _ _ _ _ _ _ Hh)) as Hnd.
  assert (exists X' Y', offs_of D = X' ++ n_self L :: n_self R :: Y') as (X' & Y' & HoD).
  { rewrite offs_of_ids. destruct (h_down _ _ _ _ _ _ _ _ _ _ _ _ _ _ _ _ Hh) as (<- & _).
    rewrite fmap_app. simpl. eauto. }
  assert (p ∈ offs_of (A ++ nd :: B)) as Hp.
  { rewrite offs_of_app, elem_of_app. right. unfold offs_of. rewrite <- Hoff. by left. }
  assert (n_self L ∈ offs_of D /\ n_self R ∈ offs_of D) as [HL HR].
  { rewrite HoD, !elem_of_app, !elem_of_cons. tauto. }
  apply NoDup_app in Hnd as (Hn1 & Hn2 & Hn3). rewrite offs_cons in Hn3.
  rewrite offs_cons in Hn1. apply NoDup_app in Hn1 as (Hn1 & Hn4 & _).
  apply NoDup_app in Hn3 as (Hn3 & Hn5 & _). split_and!.
  - intros x Hx. specialize (Hn2 x Hx). rewrite offs_cons, elem_of_app in Hn2. split; intros ->; tauto.
  - intros x Hx. split; intros ->; [by apply (Hn5 _ HL)|by apply (Hn5 _ HR)].
  - intros x Hx ->. apply (Hn2 p); [|done]. rewrite offs_cons, elem_of_app. by left.
  - intros x Hx ->. by apply (Hn4 p).
  - intros x Hx ->. rewrite offs_middle in Hn1. apply NoDup_cons in Hn1 as [Hn1 _]. by rewrite Hoff in Hn1.
  - rewrite HoD in Hn3. apply NoDup_app in Hn3 as (_ & _ & Hn3). apply NoDup_cons in Hn3 as [Hn3 _].
    intros HE. rewrite HE, elem_of_cons in Hn3. auto.
Qed.

(** There was room in the parent. *)
Lemma close_simple A nd B U X Y p c lo kk D Ds L R fd lvl root fs fr j N N' :
  hole ((A ++ nd :: B) :: U) X Y p c lo kk D Ds L R fd lvl root fs fr ->
  parent_at A nd B j N D p kk L R fd ->
  hdr N' = hdr N ->
  node_is N' false (list_ins j kk (l_keys nd)) (list_split j (n_self L) (n_self R) (l_vals nd)) ->
  closed D Ds 0 (mkView ∅ None (<[p := N']> (over p L R fd)) lvl root fs fr).
Proof.
  intros Hh Hpa Hhdr Hni. destruct (hole_disj _ _ _ _ _ _ _ _ _ _ _ _ _ _ _ _ _ _ _ _ _ Hh Hpa) as (Hd1 & _ & Hd2 & Hd3 & Hd4 & Hlr).
  destruct Hh as [Hu Hd _ Hs Hl]. destruct Hpa as [Hoff Hw Hj _ _ _ Hids HN HhN _].
  destruct Hu as (_ & [Hseg Hfill] & Hu). split; [done|].
  set (nd' := mkL p (l_par nd) (l_low nd) (list_ins j kk (l_keys nd)) (list_split j (n_self L) (n_self R) (l_vals nd))).
  exists (rev_append ((A ++ nd' :: B) :: U) (D :: Ds)). split; [|apply contents_rev_append].
  assert (id_of nd' = id_of nd) as Hid by (unfold id_of, nd'; simpl; congruence).
  assert (forall x, x ∈ offs ((A ++ nd :: B) :: U) -> x <> p -> <[p:=N']> (over p L R fd) !! x = fd !! x) as Hup.
  { intros x Hx Hxp. rewrite lookup_insert_ne by auto. by apply over_out; apply Hd1. }
  apply (rebuild _ _ _ (ids D)).
  - split_and!.
    + by rewrite Hids, kids_app, kids_cons, kid_kid_of.
    + split.
      * eapply seg_replace; [exact Hseg| |done|].
        -- intros x Hx. apply Hup; [|by apply Hd4]. rewrite offs_cons, offs_middle.
           rewrite elem_of_app. left. by right.
        -- exists N'. unfold nd'. simpl. rewrite lookup_insert_eq. split_and!; [done| |done].
           by rewrite Hhdr, HhN.
      * apply Forall_app in Hfill as [Hf1 Hf2]. inversion_clear Hf2 as [|? ? Hf3 Hf4].
        apply Forall_app. split; [done|]. constructor; [|done]. unfold filled, nd' in *. simpl.
        unfold wide in Hw. rewrite length_list_split by lia. lia.
    + rewrite ids_app, ids_cons, Hid. rewrite ids_app, ids_cons in Hu. eapply up_same; [|exact Hu].
      intros x Hx. apply Hup; [|by apply Hd3]. rewrite offs_cons, elem_of_app. by right.
  - eapply down_same; [|destruct Hd as (Hd & Hd'); by rewrite <- Hd].
    intros x Hx. rewrite lookup_insert_ne; [done|]. intros <-. by apply (Hd2 p).
  - eapply space_perm; [|exact Hs]. rewrite !(offs_cons _ U), !offs_middle. by rewrite Hoff.
  - rewrite Hl. done.
Qed.

(** ** The parent was full: the hole moves up one level *)

Lemma split_fd_out o L R cs fd x :
  x <> n_self L -> x <> n_self R -> x ∉ cs -> split_fd o L R cs fd !! x = fd !! x.
Proof.
  intros. unfold split_fd. rewrite !lookup_insert_ne by auto. rewrite lookup_reparent.
  by rewrite decide_False.
Qed.

Lemma split_fd_in p o L R cs fd fd' x :
  n_self L ∈ cs -> n_self R ∈ cs -> fd' !! x = fd !! x ->
  split_fd o L R cs fd' !! x =
    if decide (x ∈ cs) then set_parent o <$> over p L R fd !! x else over p L R fd !! x.
Proof.
  intros HL HR Hx. unfold split_fd, over. rewrite !lookup_insert, lookup_reparent, Hx.
  destruct (decide (n_self R = x)) as [<-|]; [by rewrite decide_True|].
  destruct (decide (n_self L = x)) as [<-|]; [by rewrite decide_True|].
  by case_decide.
Qed.

Lemma next_hole A nd B U X Y p c lo kk D Ds L R fd lvl root fs fr j N o fs' fr' cs fdr a1 a2 L2 R2 kk2 :
  hole ((A ++ nd :: B) :: U) X Y p c lo kk D Ds L R fd lvl root fs fr ->
  parent_at A nd B j N D p kk L R fd ->
  alloc fs fr = (o, fs', fr') ->
  n_self L ∈ cs -> n_self R ∈ cs -> (forall x, x ∈ cs -> x ∈ offs_of D) ->
  same_on fd fdr (offs U ++ offs (D :: Ds)) ->
  id_of a1 = mk_id (l_par nd) (n_self L2) (l_low nd) -> id_of a2 = mk_id (l_par nd) (n_self R2) (Fin kk2) ->
  n_self L2 = o /\ n_self R2 = p \/ n_self L2 = p /\ n_self R2 = o ->
  n_parent L2 = l_par nd /\ n_parent R2 = INV \/ n_parent L2 = INV /\ n_parent R2 = l_par nd ->
  filled false false a1 -> filled false false a2 -> (U <> [] -> Forall (filled false false) (A ++ B)) ->
  (U = [] -> A = [] /\ B = []) ->
  seg (over (l_par nd) L2 R2 (split_fd o L R cs fdr)) false INV (A ++ a1 :: a2 :: B) INV ->
  ids (redad o cs <$> D) = kids (A ++ a1 :: a2 :: B) ->
  hole U (ids A) (ids B) (l_par nd) p (l_low nd) kk2 (A ++ a1 :: a2 :: B) ((redad o cs <$> D) :: Ds)
    L2 R2 (split_fd o L R cs fdr) lvl root fs' fr'.
Proof.
  intros Hh Hpa Ha HLc HRc Hcs Hsame Hid1 Hid2 Hoff2 Hpar2 Hf1 Hf2 HfU HU Hseg Hids.
  destruct (hole_disj _ _ _ _ _ _ _ _ _ _ _ _ _ _ _ _ _ _ _ _ _ Hh Hpa) as (Hd1 & Hd1' & Hd2 & Hd3 & Hd4 & Hlr).
  destruct Hh as [Hu Hd _ Hs Hl]. destruct Hpa as [Hoff _ _ _ _ _ _ _ _ _].
  destruct Hu as (_ & _ & Hu). apply (space_alloc _ _ _ _ _ _ Ha) in Hs.
  pose proof (space_NoDup _ _ _ Hs) as Hnd. apply NoDup_cons in Hnd as [Ho Hnd]. rewrite elem_of_app in Ho.
  apply NoDup_app in Hnd as (_ & Hud & Hdd). rewrite offs_cons in Hdd. apply NoDup_app in Hdd as (_ & Hdd & _).
  apply same_on_app in Hsame as [HsU HsD].
  assert (forall x, x <> p -> x <> o -> x <> n_self L2 /\ x <> n_self R2) as Hne2.
  { intros x ? ?. destruct Hoff2 as [[-> ->]|[-> ->]]; done. }
  assert (forall x, x ∈ offs U -> x ∉ offs_of D) as HUD.
  { intros x Hx Hx'. apply (Hud x); [|rewrite offs_cons]; rewrite ?offs_cons, elem_of_app; auto. }
  split.
  - rewrite ids_app, ids_cons in Hu. unfold id_of at 1 in Hu. rewrite Hoff in Hu.
    eapply up_same; [|exact Hu]. intros x Hx.
    assert (x ∈ offs ((A ++ nd :: B) :: U)) as Hx' by (rewrite offs_cons, elem_of_app; auto).
    destruct (Hd1 x Hx'). rewrite split_fd_out; [by apply HsU|done..|].
    intros Hc. apply (HUD x); auto.
  - split_and!.
    + rewrite ids_app, !ids_cons, Hid1, Hid2. done.
    + split; [done|]. apply Forall_app. destruct U as [|u U].
      * destruct HU as [-> ->]; [done|]. split; by repeat constructor.
      * specialize (HfU ltac:(done)). apply Forall_app in HfU as [? ?]. split; [done|]. by repeat constructor.
    + rewrite <- Hids. eapply down_moved; [| |exact Hd].
      * apply moved_redad. intros x Hx.
        assert (x ∈ offs (D :: Ds)) as Hx' by (rewrite offs_cons, elem_of_app; auto).
        assert (x <> p) by (by apply Hd2). assert (x <> o) by (intros ->; tauto).
        rewrite over_out by (by apply Hne2). apply split_fd_in; [done..|by apply HsD].
      * intros x Hx. assert (x ∈ offs (D :: Ds)) as Hx' by (rewrite offs_cons, elem_of_app; auto).
        assert (x <> p) by (by apply Hd2). assert (x <> o) by (intros ->; tauto).
        destruct (Hd1' x Hx).
        rewrite (over_out p) by done. rewrite over_out by (by apply Hne2). rewrite split_fd_out; [by apply HsD|done..|]. intros Hc. apply (Hdd x); auto.
  - tauto.
  - eapply space_perm; [|exact Hs]. apply Permutation_app_tail.
    rewrite !offs_cons, offs_redad, (app_assoc (offs U)), app_comm_cons.
    apply Permutation_app_tail. rewrite (Permutation_app_comm (offs U)), app_comm_cons.
    apply Permutation_app_tail. symmetry. apply offs_split. rewrite Hoff.
    unfold id_of, mk_id in Hid1, Hid2. injection Hid1 as -> _ _. injection Hid2 as -> _ _. done.
  - rewrite Hl. simpl. lia.
Qed.

Lemma hole_fill A nd B U X Y p c lo kk D Ds L R fd lvl root fs fr :
  hole ((A ++ nd :: B) :: U) X Y p c lo kk D Ds L R fd lvl root fs fr ->
  (U <> [] -> Forall (filled false false) (A ++ B)) /\ (U = [] -> A = [] /\ B = []).
Proof.
  intros [(_ & [_ Hf] & Hu) _ _ _ _]. split.
  - intros HU. destruct U; [done|]. apply Forall_app in Hf as [? Hf]. inversion_clear Hf. by apply Forall_app.
  - intros ->. simpl in Hu. rewrite ids_app, ids_cons in Hu. destruct A as [|? [|]], B; by simplify_eq/=.
Qed.

(** The blocks of the parent's level are none of those the split writes. *)
Lemma hole_level_ne A nd B U X Y p c lo kk D Ds L R fd lvl root fs fr j N o fs' fr' x :
  hole ((A ++ nd :: B) :: U) X Y p c lo kk D Ds L R fd lvl root fs fr ->
  parent_at A nd B j N D p kk L R fd -> alloc fs fr = (o, fs', fr') ->
  x ∈ offs_of A ++ offs_of B ->
  x <> INV /\ x <> p /\ x <> o /\ x <> n_self L /\ x <> n_self R /\ (x ∉ offs U ++ offs (D :: Ds)) /\ x ∉ offs_of D.
Proof.
  intros Hh Hpa Ha Hx. destruct (hole_disj _ _ _ _ _ _ _ _ _ _ _ _ _ _ _ _ _ _ _ _ _ Hh Hpa) as (Hd1 & _ & _ & _ & Hd4 & _).
  assert (x ∈ offs_of (A ++ nd :: B)) as Hx1 by (rewrite offs_middle; by right).
  assert (x ∈ offs ((A ++ nd :: B) :: U)) as Hx2 by (rewrite offs_cons, elem_of_app; by left).
  pose proof (h_space _ _ _ _ _ _ _ _ _ _ _ _ _ _ _ _ Hh) as Hs. split_and!.
  - eapply space_valid; [exact Hs|]. rewrite elem_of_app. by left.
  - by apply Hd4.
  - intros ->. apply (space_alloc _ _ _ _ _ _ Ha), space_NoDup, NoDup_cons in Hs as [Hs _].
    apply Hs. rewrite elem_of_app. by left.
  - by apply Hd1.
  - by apply Hd1.
  - apply space_NoDup in Hs. rewrite offs_cons, <- app_assoc in Hs. apply NoDup_app in Hs as (_ & Hs & _). by apply Hs.
  - apply space_NoDup in Hs. rewrite offs_cons, <- app_assoc in Hs. apply NoDup_app in Hs as (_ & Hs & _).
    intros Hx3. apply (Hs x Hx1). rewrite elem_of_app, offs_cons, elem_of_app. auto.
Qed.

(** The children of the two halves are those of the level below, with the new
    parent for one of the halves. *)
Lemma ids_cut A B D p o lo kk2 s (ks vs : list Z) V1 V2 :
  ids D = kids A ++ kid_of p lo ks vs ++ kids B -> NoDup (offs_of D) ->
  length vs = S (length ks) -> ks !! s = Some kk2 -> V1 = take (S s) vs -> V2 = drop (S s) vs ->
  ids (redad o V1 <$> D) = kids A ++ kid_of o lo (take s ks) V1 ++ kid_of p (Fin kk2) (drop (S s) ks) V2 ++ kids B /\
  ids (redad o V2 <$> D) = kids A ++ kid_of p lo (take s ks) V1 ++ kid_of o (Fin kk2) (drop (S s) ks) V2 ++ kids B.
Proof.
  intros HD Hnd Hl Hk HV1 HV2. pose proof (lookup_lt_Some _ _ _ Hk).
  assert (length V1 = S (length (take s ks))) as Hl1 by (subst; rewrite !length_take; lia).
  assert (length V2 = S (length (drop (S s) ks))) as Hl2 by (subst; rewrite !length_drop; lia).
  rewrite (kid_of_cut _ _ _ _ _ _ Hl Hk), <- HV1, <- HV2, <- app_assoc in HD.
  rewrite offs_of_ids, HD, !fmap_app, !kid_of_offs in Hnd by done.
  apply NoDup_app in Hnd as (_ & HnA & Hnd). apply NoDup_app in Hnd as (_ & HnV & Hnd).
  apply NoDup_app in Hnd as (_ & HnV2 & _).
  assert (forall cs, cs = V1 \/ cs = V2 -> reid o cs <$> kids A = kids A) as HA.
  { intros cs Hcs. apply reid_out. intros x Hx Hc. apply (HnA x Hx). rewrite !elem_of_app. destruct Hcs as [-> | ->]; auto. }
  assert (forall cs, cs = V1 \/ cs = V2 -> reid o cs <$> kids B = kids B) as HB.
  { intros cs Hcs. apply reid_out. intros x Hx Hc. destruct Hcs as [-> | ->].
    - apply (HnV x Hc). rewrite elem_of_app. auto.
    - by apply (HnV2 x Hc). }
  split; rewrite ids_redad, HD, !fmap_app, HA, HB by auto; do 2 f_equal.
  - by apply reid_in.
  - f_equal. apply reid_out. rewrite kid_of_offs by done. intros x Hx Hc. apply (HnV x Hc). rewrite elem_of_app. auto.
  - apply reid_out. rewrite kid_of_offs by done. intros x Hx Hc. apply (HnV x Hx). rewrite elem_of_app. auto.
  - f_equal. by apply reid_in.
Qed.

Section next.
Context (A : list lnode) (nd : lnode) (B : list lnode) (U : list (list lnode)) (X Y : list ident).
Context (p c : Z) (lo : bound) (kk : Z) (D : list lnode) (Ds : list (list lnode)) (L R : bplus_node).
Context (fd : gmap Z bplus_node) (lvl root fs : Z) (fr : list Z) (j : nat) (N : bplus_node).
Context (o fs' : Z) (fr' : list Z).
Context (Hh : hole ((A ++ nd :: B) :: U) X Y p c lo kk D Ds L R fd lvl root fs fr).
Context (Hpa : parent_at A nd B j N D p kk L R fd).
Context (Ha : alloc fs fr = (o, fs', fr')).

Let K' := list_ins j kk (l_keys nd).
Let V' := list_split j (n_self L) (n_self R) (l_vals nd).

Lemma next_len : length V' = S (length K').
Proof.
  destruct Hpa as [_ Hw Hj _ _ _ _ _ _ _]. unfold K', V', wide in *.
  rewrite length_list_split, length_ins by lia. lia.
Qed.

Lemma next_child x : x ∈ V' -> x ∈ offs_of D.
Proof.
  intros Hx. rewrite offs_of_ids, (pa_ids _ _ _ _ _ _ _ _ _ _ _ Hpa), !fmap_app, !elem_of_app.
  right; left. rewrite kid_of_offs by apply next_len. done.
Qed.

Lemma next_vals_l : V' !! j = Some (n_self L).
Proof.
  destruct Hpa as [_ Hw Hj _ _ _ _ _ _ _]. unfold V', wide in *. rewrite list_split_app by lia.
  rewrite lookup_app_r, length_take_le, Nat.sub_diag by (rewrite ?length_take; lia). done.
Qed.
Lemma next_vals_r : V' !! S j = Some (n_self R).
Proof.
  destruct Hpa as [_ Hw Hj _ _ _ _ _ _ _]. unfold V', wide in *. rewrite list_split_app by lia.
  rewrite lookup_app_r, length_take_le by (rewrite ?length_take; lia).
  by replace (S j - j)%nat with 1%nat by lia.
Qed.

Lemma next_old x : x ∈ offs U ++ offs (D :: Ds) -> (x ∉ offs_of A ++ offs_of B) /\ x <> INV.
Proof.
  intros Hx. split.
  - intros Hx'. eapply hole_level_ne in Hx'; [|exact Hh|exact Hpa|exact Ha]. tauto.
  - eapply space_valid; [apply Hh|]. rewrite offs_cons, !elem_of_app. rewrite elem_of_app in Hx. tauto.
Qed.

Lemma next_seg : seg fd false INV (A ++ nd :: B) INV.
Proof. destruct Hh as [(_ & [Hs _] & _) _ _ _ _]. done. Qed.

Lemma next_NoDup : NoDup (offs_of A ++ offs_of B) /\ NoDup (offs_of D) /\
  Forall (fun x => x <> INV) (offs_of A ++ offs_of B) /\ o <> p.
Proof.
  pose proof (h_space _ _ _ _ _ _ _ _ _ _ _ _ _ _ _ _ Hh) as Hs. pose proof (pa_off _ _ _ _ _ _ _ _ _ _ _ Hpa) as Hoff.
  split_and!.
  - apply space_NoDup, NoDup_app in Hs as [Hs _]. rewrite offs_cons in Hs. apply NoDup_app in Hs as [Hs _].
    rewrite offs_middle in Hs. by apply NoDup_cons in Hs as [_ ?].
  - apply space_NoDup, NoDup_app in Hs as (_ & _ & Hs). rewrite offs_cons in Hs. by apply NoDup_app in Hs as [? _].
  - apply Forall_forall. intros x Hx. eapply hole_level_ne in Hx; [|exact Hh|exact Hpa|exact Ha]. tauto.
  - intros ->. apply (space_alloc _ _ _ _ _ _ Ha), space_NoDup, NoDup_cons in Hs as [Hs _].
    apply Hs. rewrite elem_of_app, offs_cons, elem_of_app, offs_middle, Hoff. left; left. by left.
Qed.

(** Elsewhere in the level the split writes only the link to the new node. *)
Lemma next_same par L2 R2 cs fdr :
  (forall x, x ∈ cs -> x ∈ V') ->
  n_self L2 = o /\ n_self R2 = p \/ n_self L2 = p /\ n_self R2 = o ->
  same_on fdr (over par L2 R2 (split_fd o L R cs fdr)) (offs_of A ++ offs_of B).
Proof.
  intros Hcs Hoff2 x Hx. eapply hole_level_ne in Hx; [|exact Hh|exact Hpa|exact Ha].
  destruct Hx as (_ & ? & ? & ? & ? & _ & HxD).
  rewrite over_out by (destruct Hoff2 as [[E1 E2]|[E1 E2]]; rewrite ?E1, ?E2; done).
  apply split_fd_out; [done..|]. intros Hc. by apply HxD, next_child, Hcs.
Qed.

Lemma next_hole_left s kk2 S' N' :
  K' !! s = Some kk2 -> (j < s)%nat -> (nsplit <= S s)%nat -> (nsplit + S s <= length V')%nat ->
  hdr S' = (o, INV, last_off INV A, p) -> hdr N' = (p, l_par nd, o, hd_off B INV) ->
  node_is S' false (take s K') (take (S s) V') -> node_is N' false (drop (S s) K') (drop (S s) V') ->
  exists D' Ds', hole U (ids A) (ids B) (l_par nd) p (l_low nd) kk2 D' Ds' S' N'
    (split_fd o L R (take (S s) V') (relink (set_next o) (last_off INV A) fd)) lvl root fs' fr' /\
    contents (D' :: Ds') = contents (D :: Ds).
Proof.
  intros Hk Hjs Hf1 Hf2 HhS HhN HS HN. destruct next_NoDup as (Hnd & HndD & Hval & Hop).
  set (cs := take (S s) V'). set (fdr := relink _ _ _).
  assert (forall x, x ∈ cs -> x ∈ V') as Hcs by (intros x; apply elem_take).
  pose proof (ids_cut A B D p o (l_low nd) kk2 s K' V' _ _ (pa_ids _ _ _ _ _ _ _ _ _ _ _ Hpa) HndD next_len Hk eq_refl eq_refl) as [Hids _].
  set (a1 := mkL o (l_par nd) (l_low nd) (take s K') (take (S s) V')).
  set (a2 := mkL p (l_par nd) (Fin kk2) (drop (S s) K') (drop (S s) V')).
  assert (n_self S' = o /\ n_self N' = p) as [HsS HsN] by (unfold hdr in *; split; congruence).
  assert (same_on fdr (over (l_par nd) S' N' (split_fd o L R cs fdr)) (offs_of A ++ offs_of B)) as Hsame.
  { apply next_same; [done|]. by left. }
  apply same_on_app in Hsame as [HsA HsB]. pose proof next_seg as Hseg.
  apply seg_app in Hseg as (HgA & _ & HgB).
  apply NoDup_app in Hnd as (HndA & HAB & HndB). apply Forall_app in Hval as [HvA HvB].
  exists (A ++ a1 :: a2 :: B), ((redad o cs <$> D) :: Ds). split.
  - eapply (next_hole _ _ _ _ _ _ _ _ _ _ _ _ _ _ _ _ _ _ _ _ _ _ _ _ _ _ _ _ _ _ _ Hh Hpa Ha).
    + unfold cs. apply (list_elem_of_lookup_2 _ j). rewrite lookup_take_lt by lia. apply next_vals_l.
    + unfold cs. apply (list_elem_of_lookup_2 _ (S j)). rewrite lookup_take_lt by lia. apply next_vals_r.
    + intros x Hx. by apply next_child, Hcs.
    + intros x Hx. destruct (next_old x Hx) as [HxA Hxi]. unfold fdr. apply relink_out. intros ->.
      destruct (last_off_in INV A); [done|]. apply HxA. rewrite elem_of_app. by left.
    + unfold id_of, a1. simpl. by rewrite HsS.
    + unfold id_of, a2. simpl. by rewrite HsN.
    + by left.
    + right. unfold hdr in *. split; congruence.
    + unfold filled, a1. simpl. rewrite length_take_le by lia. done.
    + unfold filled, a2. simpl. rewrite length_drop. lia.
    + by apply (hole_fill _ _ _ _ _ _ _ _ _ _ _ _ _ _ _ _ _ _ _ Hh).
    + by apply (hole_fill _ _ _ _ _ _ _ _ _ _ _ _ _ _ _ _ _ _ _ Hh).
    + apply seg_two.
      * by apply (seg_relinked_next fd _ _ _ (l_off nd)).
      * exists (set_parent (l_par nd) S'). simpl. rewrite <- HsS, over_l by congruence.
        split_and!; [done|unfold hdr in *; simpl; congruence|by destruct HS].
      * exists (set_parent (l_par nd) N'). simpl. rewrite <- HsN, over_r.
        split_and!; [done|unfold hdr in *; simpl; congruence|by destruct HN].
      * simpl. rewrite <- (pa_off _ _ _ _ _ _ _ _ _ _ _ Hpa). eapply seg_same; [|exact HgB].
        intros x Hx. rewrite HsB by done. unfold fdr. apply relink_out. intros ->.
        rewrite Forall_forall in HvB. destruct (last_off_in INV A) as [E|HxA]; [by apply (HvB _ Hx)|by apply (HAB _ HxA)].
    + fold cs in Hids. rewrite Hids, kids_app, !kids_cons. done.
  - unfold contents. simpl. pose proof (contents_redad o cs D Ds) as Hc. unfold contents in Hc. simpl in Hc. done.
Qed.

Lemma next_hole_right s kk2 S' N' :
  K' !! s = Some kk2 -> (s < j)%nat -> (nsplit <= S s)%nat -> (nsplit + S s <= length V')%nat ->
  hdr S' = (o, INV, p, hd_off B INV) -> hdr N' = (p, l_par nd, last_off INV A, o) ->
  node_is N' false (take s K') (take (S s) V') -> node_is S' false (drop (S s) K') (drop (S s) V') ->
  exists D' Ds', hole U (ids A) (ids B) (l_par nd) p (l_low nd) kk2 D' Ds' N' S'
    (split_fd o L R (drop (S s) V') (relink (set_prev o) (hd_off B INV) fd)) lvl root fs' fr' /\
    contents (D' :: Ds') = contents (D :: Ds).
Proof.
  intros Hk Hjs Hf1 Hf2 HhS HhN HN HS. destruct next_NoDup as (Hnd & HndD & Hval & Hop).
  set (cs := drop (S s) V'). set (fdr := relink _ _ _).
  assert (forall x, x ∈ cs -> x ∈ V') as Hcs by (intros x; apply elem_drop).
  pose proof (ids_cut A B D p o (l_low nd) kk2 s K' V' _ _ (pa_ids _ _ _ _ _ _ _ _ _ _ _ Hpa) HndD next_len Hk eq_refl eq_refl) as [_ Hids].
  set (a1 := mkL p (l_par nd) (l_low nd) (take s K') (take (S s) V')).
  set (a2 := mkL o (l_par nd) (Fin kk2) (drop (S s) K') (drop (S s) V')).
  assert (n_self S' = o /\ n_self N' = p) as [HsS HsN] by (unfold hdr in *; split; congruence).
  assert (same_on fdr (over (l_par nd) N' S' (split_fd o L R cs fdr)) (offs_of A ++ offs_of B)) as Hsame.
  { apply next_same; [done|]. by right. }
  apply same_on_app in Hsame as [HsA HsB]. pose proof next_seg as Hseg.
  apply seg_app in Hseg as (HgA & _ & HgB).
  apply NoDup_app in Hnd as (HndA & HAB & HndB). apply Forall_app in Hval as [HvA HvB].
  exists (A ++ a1 :: a2 :: B), ((redad o cs <$> D) :: Ds). split.
  - eapply (next_hole _ _ _ _ _ _ _ _ _ _ _ _ _ _ _ _ _ _ _ _ _ _ _ _ _ _ _ _ _ _ _ Hh Hpa Ha).
    + unfold cs. apply (list_elem_of_lookup_2 _ (j - S s)). rewrite lookup_drop.
      replace (S s + (j - S s))%nat with j by lia. apply next_vals_l.
    + unfold cs. apply (list_elem_of_lookup_2 _ (S j - S s)). rewrite lookup_drop.
      replace (S s + (S j - S s))%nat with (S j) by lia. apply next_vals_r.
    + intros x Hx. by apply next_child, Hcs.
    + intros x Hx. destruct (next_old x Hx) as [HxA Hxi]. unfold fdr. apply relink_out. intros ->.
      destruct (hd_off_in B INV); [done|]. apply HxA. rewrite elem_of_app. by right.
    + unfold id_of, a1. simpl. by rewrite HsN.
    + unfold id_of, a2. simpl. by rewrite HsS.
    + by right.
    + left. unfold hdr in *. split; congruence.
    + unfold filled, a1. simpl. rewrite length_take_le by lia. done.
    + unfold filled, a2. simpl. rewrite length_drop. lia.
    + by apply (hole_fill _ _ _ _ _ _ _ _ _ _ _ _ _ _ _ _ _ _ _ Hh).
    + by apply (hole_fill _ _ _ _ _ _ _ _ _ _ _ _ _ _ _ _ _ _ _ Hh).
    + apply seg_two.
      * simpl. rewrite <- (pa_off _ _ _ _ _ _ _ _ _ _ _ Hpa). eapply seg_same; [|exact HgA].
        intros x Hx. rewrite HsA by done. unfold fdr. apply relink_out. intros ->.
        rewrite Forall_forall in HvA. destruct (hd_off_in B INV) as [E|HxB]; [by apply (HvA _ Hx)|by apply (HAB _ Hx)].
      * exists (set_parent (l_par nd) N'). simpl. rewrite <- HsN, over_l by congruence.
        split_and!; [done|unfold hdr in *; simpl; congruence|by destruct HN].
      * exists (set_parent (l_par nd) S'). simpl. rewrite <- HsS, over_r.
        split_and!; [done|unfold hdr in *; simpl; congruence|by destruct HS].
      * by apply (seg_relinked_prev fd _ _ (l_off nd)).
    + fold cs in Hids. rewrite Hids, kids_app, !kids_cons. done.
  - unfold contents. simpl. pose proof (contents_redad o cs D Ds) as Hc. unfold contents in Hc. simpl in Hc. done.
Qed.

Lemma next_vals_NoDup : NoDup V'.
Proof.
  destruct next_NoDup as (_ & HnD & _). rewrite offs_of_ids, (pa_ids _ _ _ _ _ _ _ _ _ _ _ Hpa), !fmap_app in HnD.
  apply NoDup_app in HnD as (_ & _ & HnD). apply NoDup_app in HnD as (HnD & _).
  rewrite kid_of_offs in HnD by apply next_len. done.
Qed.

(** The other children of the parent are whole blocks. *)
Lemma next_self i x : l_vals nd !! i = Some x -> i <> j -> x <> INV /\ self_at fd x.
Proof.
  intros Hx Hij. destruct Hpa as [_ Hw Hj _ _ _ _ _ _ _]. unfold wide in Hw.
  pose proof next_vals_NoDup as HnV. unfold V' in HnV. rewrite list_split_app in HnV by lia.
  assert (x ∈ take j (l_vals nd) ++ drop (S j) (l_vals nd)) as Hin.
  { rewrite elem_of_app. destruct (decide (i < j)%nat).
    - left. apply (list_elem_of_lookup_2 _ i). by rewrite lookup_take_lt.
    - right. apply (list_elem_of_lookup_2 _ (i - S j)). rewrite lookup_drop. rewrite <- Hx. f_equal. lia. }
  assert (x <> n_self L /\ x <> n_self R) as [HxL HxR].
  { rewrite <- !Permutation_middle in HnV. apply NoDup_cons in HnV as [Hn1 HnV]. apply NoDup_cons in HnV as [Hn2 _].
    rewrite elem_of_cons in Hn1. split; intros ->; tauto. }
  assert (x ∈ offs_of D) as HxD.
  { apply next_child. unfold V'. rewrite list_split_app by lia. rewrite <- !Permutation_middle. do 2 right. done. }
  split; [apply next_old; rewrite elem_of_app, offs_cons, elem_of_app; auto|].
  destruct Hh as [_ (_ & [Hs _] & _) _ _ _]. eapply seg_self in Hs as (M & HM & HMo); [|exact HxD].
  exists M. by rewrite over_out in HM.
Qed.

Lemma next_link_prev : link_at fd (n_prev N).
Proof.
  intros Hi. pose proof (pa_hdr _ _ _ _ _ _ _ _ _ _ _ Hpa) as HN. unfold hdr in HN. assert (n_prev N = last_off INV A) as E by congruence.
  rewrite E in *. destruct (last_off_in INV A) as [?|Hin]; [done|]. eapply seg_self; [exact next_seg|].
  rewrite offs_middle. right. rewrite elem_of_app. by left.
Qed.
Lemma next_link_next : link_at fd (n_next N).
Proof.
  intros Hi. pose proof (pa_hdr _ _ _ _ _ _ _ _ _ _ _ Hpa) as HN. unfold hdr in HN. assert (n_next N = hd_off B INV) as E by congruence.
  rewrite E in *. destruct (hd_off_in B INV) as [?|Hin]; [done|]. eapply seg_self; [exact next_seg|].
  rewrite offs_middle. right. rewrite elem_of_app. by right.
Qed.

Lemma next_valid : p <> INV /\ n_self L <> INV /\ n_self R <> INV.
Proof.
  pose proof (h_space _ _ _ _ _ _ _ _ _ _ _ _ _ _ _ _ Hh) as Hs. pose proof (pa_off _ _ _ _ _ _ _ _ _ _ _ Hpa) as Hoff.
  split_and!.
  - eapply space_valid; [exact Hs|]. rewrite elem_of_app, offs_cons, elem_of_app, offs_middle, Hoff. left; left; by left.
  - apply next_old. rewrite elem_of_app, offs_cons, elem_of_app. right; left. apply next_child.
    eapply list_elem_of_lookup_2, next_vals_l.
  - apply next_old. rewrite elem_of_app, offs_cons, elem_of_app. right; left. apply next_child.
    eapply list_elem_of_lookup_2, next_vals_r.
Qed.
End next.

(** ** [non_leaf_insert] and [parent_node_build] *)

Lemma nsplit_Z n : Z.of_nat n = _max_entries -> Z.of_nat n / 2 = Z.of_nat nsplit.
Proof. intros H. unfold nsplit. rewrite Nat2Z.inj_div, <- H, Nat2Z.id. done. Qed.

Abbreviation mem2 p N q M := (<[p := N]> (<[q := M]> (∅ : gmap nat bplus_node))).

Definition builds (fuel : nat) U : Prop :=
  forall X Y p c lo kk D Ds L R l_ch r_ch fd lvl root fs fr,
    hole U X Y p c lo kk D Ds L R fd lvl root fs fr -> l_ch <> r_ch ->
    awp (parent_node_build_with (non_leaf_insert fuel) l_ch r_ch kk) (closed D Ds)
      (mkView (mem2 l_ch L r_ch R) None fd lvl root fs fr).

Lemma awp_non_leaf_insert A nd B U X Y p c lo kk D Ds L R fd lvl root fs fr j N node l_ch r_ch fuel :
  hole ((A ++ nd :: B) :: U) X Y p c lo kk D Ds L R fd lvl root fs fr ->
  parent_at A nd B j N D p kk L R fd -> builds fuel U -> NoDup [node; l_ch; r_ch] ->
  awp (non_leaf_insert (S fuel) (Some node) l_ch r_ch kk) (closed D Ds)
    (mkView (<[node := N]> (mem2 l_ch L r_ch R)) None fd lvl root fs fr).
Proof.
  intros Hh Hpa IH Hnd. rewrite !NoDup_cons, !not_elem_of_cons in Hnd.
  destruct Hnd as ((? & ? & _) & (? & _) & _). pose proof cfg_entries as Hce.
  destruct (alloc fs fr) as [[o fs'] fr'] eqn:Ha.
  pose proof (next_valid _ _ _ _ _ _ _ _ _ _ _ _ _ _ _ _ _ _ _ _ _ _ _ _ Hh Hpa Ha) as (Hpi & HLi & HRi).
  pose proof (pa_node _ _ _ _ _ _ _ _ _ _ _ Hpa) as Hni.
  assert (n_self N = p /\ n_parent N = l_par nd /\ n_prev N = last_off INV A /\ n_next N = hd_off B INV)
    as (HsN & HpN & HpvN & HnxN).
  { pose proof (pa_hdr _ _ _ _ _ _ _ _ _ _ _ Hpa) as HhN. unfold hdr in HhN. split_and!; congruence. }
  cbn [non_leaf_insert deref]. asteps. eapply awp_lift.
  { eapply key_binary_search_ok; [exact Hni|apply Hpa]. }
  rewrite decide_False by apply Hpa. rewrite (pa_rank _ _ _ _ _ _ _ _ _ _ _ Hpa).
  asteps; [apply Z.ltb_lt; lia|].
  replace (- (- Z.of_nat j - 1) - 1) with (Z.of_nat j) by lia.
  rewrite (ni_children _ _ _ _ Hni), cfg_order. pose proof (ni_cap _ _ _ _ Hni) as Hcap.
  destruct (Z.eqb_spec (Z.of_nat (length (l_vals nd))) _max_entries) as [Hfull|Hroom].
  - rewrite (nsplit_Z _ Hfull). apply awp_bind, awp_non_leaf_new; [mem_small|].
    intros sib SN Hsib _ HpS _ _ HtS. view_simpl_in Hsib.
    assert (sib <> node /\ sib <> l_ch /\ sib <> r_ch) as (? & ? & ?).
    { split_and!; [apply (insert_None_ne _ _ _ N Hsib)|apply (insert_None_ne _ _ _ L Hsib)|
        apply (insert_None_ne _ _ _ R Hsib)]; mem_lookup. }
    assert (NoDup [node; sib; l_ch; r_ch]) as Hnd4.
    { rewrite !NoDup_cons, !not_elem_of_cons. split_and!; auto using not_elem_of_nil, NoDup_nil_2. }
    pose proof (pa_wide _ _ _ _ _ _ _ _ _ _ _ Hpa) as Hw. pose proof (pa_pos _ _ _ _ _ _ _ _ _ _ _ Hpa) as Hjk.
    unfold wide in Hw. pose proof (length_list_split j (n_self L) (n_self R) (l_vals nd) ltac:(lia)) as HlV.
    pose proof nsplit_bounds as (Hs1 & Hs2 & Hs3).
    asteps. destruct (Z.ltb_spec (Z.of_nat j) (Z.of_nat nsplit)) as [Hj|Hj].
    { eapply (awp_non_leaf_split_left node sib l_ch r_ch);
        [mem_lookup|mem_lookup|mem_lookup|mem_lookup|exact Hnd4|mem_small|exact Ha| |done|done|exact Hni| | | | |].
      1: by eapply next_link_prev.
      1: lia. 1: done. 1: lia. 1: by eapply next_self.
      intros N' S' kk2 HhS HhN HnS HnN Hkk2. rewrite Nat.add_1_r in *. rewrite HpvN in *.
      destruct (next_hole_left _ _ _ _ _ _ _ _ _ _ _ _ _ _ _ _ _ _ _ _ _ _ _ _ Hh Hpa Ha nsplit kk2 S' N')
        as (D' & Ds' & Hh' & Hc); [done|lia|lia|lia|congruence|congruence|done|done|].
      eapply awp_mono; [|intros ? ?; by apply closed_same].
      to_mem2 sib S' node N'. by apply (IH _ _ _ _ _ _ _ _ _ _ _ _ _ _ _ _ _ Hh'). }
    destruct (Z.eqb_spec (Z.of_nat j) (Z.of_nat nsplit)) as [Hj'|Hj'].
    { eapply (awp_non_leaf_split_right1 node sib l_ch r_ch);
        [mem_lookup|mem_lookup|mem_lookup|mem_lookup|exact Hnd4|mem_small|exact Ha| |done|done|exact Hni| | | | |].
      1: by eapply next_link_next.
      1: lia. 1: done. 1: lia. 1: by eapply next_self.
      intros N' S' kk2 HhS HhN HnN HnS Hkk2. rewrite HnxN in *.
      assert (nsplit = S (nsplit - 1))%nat as Hsn by lia.
      rewrite Hsn in HnN at 2. rewrite Hsn in HnS at 1 2. rewrite Hsn at 1.
      destruct (next_hole_right _ _ _ _ _ _ _ _ _ _ _ _ _ _ _ _ _ _ _ _ _ _ _ _ Hh Hpa Ha (nsplit - 1) kk2 S' N')
        as (D' & Ds' & Hh' & Hc); [done|lia|lia|lia|congruence|congruence|done|done|].
      eapply awp_mono; [|intros ? ?; by apply closed_same].
      to_mem2 node N' sib S'. by apply (IH _ _ _ _ _ _ _ _ _ _ _ _ _ _ _ _ _ Hh'). }
    eapply (awp_non_leaf_split_right2 node sib l_ch r_ch);
      [mem_lookup|mem_lookup|mem_lookup|mem_lookup|exact Hnd4|mem_small|exact Ha| |done|done|exact Hni| | | | |].
    1: by eapply next_link_next.
    1: lia. 1: done. 1: lia. 1: by eapply next_self.
    intros N' S' kk2 HhS HhN HnN HnS Hkk2. rewrite Nat.add_1_r in *. rewrite HnxN in *.
    destruct (next_hole_right _ _ _ _ _ _ _ _ _ _ _ _ _ _ _ _ _ _ _ _ _ _ _ _ Hh Hpa Ha nsplit kk2 S' N')
      as (D' & Ds' & Hh' & Hc); [done|lia|lia|lia|congruence|congruence|done|done|].
    eapply awp_mono; [|intros ? ?; by apply closed_same].
    to_mem2 node N' sib S'. by apply (IH _ _ _ _ _ _ _ _ _ _ _ _ _ _ _ _ _ Hh').
  - asteps. eapply awp_non_leaf_simple_insert; [mem_lookup|mem_lookup|mem_lookup|done|done|done|done|done|exact Hni|lia|apply Hpa|].
    intros N' HhN' Hni'. asteps.
    assert (n_self N' = p) as HsN' by (unfold hdr in HhN'; congruence).
    pose proof (close_simple _ _ _ _ _ _ _ _ _ _ _ _ _ _ _ _ _ _ _ _ _ _ Hh Hpa HhN' Hni') as Hc.
    unfold over in Hc. rewrite <- HsN' in Hc at 1. rewrite HsN. view_apply Hc; [mem_eq|done].
Qed.

Lemma parent_build_ok fuel U : (length U <= fuel)%nat -> builds fuel U.
Proof.
  revert U. induction fuel as [|fuel IH]; intros U Hf; intros X Y p c lo kk D Ds L R l_ch r_ch fd lvl root fs fr Hh Hne.
  { destruct U; [by eapply awp_new_root|simpl in Hf; lia]. }
  destruct U as [|lv U]; [by eapply awp_new_root|].
  destruct (hole_parent _ _ _ _ _ _ _ _ _ _ _ _ _ _ _ _ _ Hh) as (A & nd & B & j & N & -> & Hpa).
  destruct (alloc fs fr) as [[o fs'] fr'] eqn:Ha.
  pose proof (next_valid _ _ _ _ _ _ _ _ _ _ _ _ _ _ _ _ _ _ _ _ _ _ _ _ Hh Hpa Ha) as (Hpi & _ & _).
  assert (awp (parent <- node_fetch p ;; non_leaf_insert (S fuel) parent l_ch r_ch kk) (closed D Ds)
            (mkView (mem2 l_ch L r_ch R) None fd lvl root fs fr)) as Hgo.
  { apply awp_bind. eapply awp_node_fetch; [done|apply Hpa|mem_small|]. intros node Hnode. view_simpl.
    view_simpl_in Hnode. eapply awp_non_leaf_insert; [exact Hh|exact Hpa|apply IH; simpl in Hf; lia|].
    rewrite !NoDup_cons, !not_elem_of_cons. split_and!; auto using not_elem_of_nil, NoDup_nil_2.
    - apply (insert_None_ne _ _ _ L Hnode). mem_lookup.
    - apply (insert_None_ne _ _ _ R Hnode). mem_lookup. }
  unfold parent_node_build_with. asteps.
  destruct (h_par _ _ _ _ _ _ _ _ _ _ _ _ _ _ _ _ Hh) as [[HpL HpR]|[HpL HpR]]; rewrite HpL, HpR.
  - rewrite (proj2 (Z.eqb_neq p INV)) by done. rewrite Z.eqb_refl. exact Hgo.
  - rewrite (proj2 (Z.eqb_neq p INV)), andb_false_r by done. exact Hgo.
Qed.
End insert.
