(* ===== verification/BPlusPut.v ===== *)
(** * Insertion into a leaf, and [bplus_tree_insert] *)

From S2P Require Import Prelude BPlusTree BPlusOps BPlusView BPlusNode BPlusEdit BPlusEditIns BPlusEditSplit BPlusLevels BPlusInv BPlusSearch BPlusClimb BPlusInsert.

(** ** Keys and entries *)

Lemma list_ins_perm {T} i (x : T) l : list_ins i x l ≡ₚ x :: l.
Proof. unfold list_ins. rewrite <- Permutation_middle, take_drop. done. Qed.

Lemma elem_list_ins {T} i (x y : T) l : y ∈ list_ins i x l <-> y = x \/ y ∈ l.
Proof. rewrite list_ins_perm, elem_of_cons. done. Qed.

Lemma sorted_ins x ks : sorted ks -> x ∉ ks -> sorted (list_ins (rank x ks) x ks).
Proof.
  intros Hs Hx. unfold list_ins.
  assert (forall y, y ∈ take (rank x ks) ks -> y < x) as H1.
  { intros y (j & Hj)%list_elem_of_lookup. apply lookup_take_Some in Hj as [Hj ?]. by eapply rank_lt. }
  assert (forall y, y ∈ drop (rank x ks) ks -> x < y) as H2.
  { intros y (j & Hj)%list_elem_of_lookup. rewrite lookup_drop in Hj.
    assert (x <= y) by (eapply (rank_ge x ks); [done|done|lia]).
    assert (x <> y) by (intros ->; apply Hx; by eapply list_elem_of_lookup_2). lia. }
  pose proof Hs as Hs'. rewrite <- (take_drop (rank x ks) ks) in Hs'. apply sorted_app in Hs' as (? & ? & H3).
  apply sorted_app. split_and!; [done|by apply sorted_cons|].
  intros a b Ha [->|Hb]%elem_of_cons; auto.
Qed.

Lemma zip_ins i (x d : Z) ks vs :
  length vs = length ks -> zip (list_ins i x ks) (list_ins i d vs) = list_ins i (x, d) (zip ks vs).
Proof.
  intros Hl. unfold list_ins. rewrite zip_with_app by (rewrite !length_take; lia). simpl.
  by rewrite zip_with_take, zip_with_drop.
Qed.

Section leaf_level.
Implicit Types A B : list lnode.

(** A leaf with one more entry. *)
Lemma asc_insert A nd nd' B x :
  asc (A ++ nd :: B) PInf -> ble (l_low nd) (Fin x) -> blt (Fin x) (hd_low B PInf) -> x ∉ l_keys nd ->
  l_low nd' = l_low nd -> l_keys nd' = list_ins (rank x (l_keys nd)) x (l_keys nd) ->
  asc (A ++ nd' :: B) PInf.
Proof.
  intros Ha Hlo Hhi Hx Hl Hk. apply asc_app in Ha as (HA & Hs & H1 & H2 & HB). apply asc_app.
  split; [simpl in *; by rewrite Hl|]. simpl. rewrite Hl, Hk. split_and!; [by apply sorted_ins| | |done].
  - intros k [->|Hin]%elem_list_ins; auto.
  - intros k [->|Hin]%elem_list_ins; auto.
Qed.

(** A leaf cut in two. *)
Lemma asc_cut A nd a1 a2 B s k :
  asc (A ++ nd :: B) PInf -> l_keys nd !! s = Some k -> l_low a1 = l_low nd -> l_low a2 = Fin k ->
  l_keys a1 = take s (l_keys nd) -> l_keys a2 = drop s (l_keys nd) ->
  asc (A ++ a1 :: a2 :: B) PInf.
Proof.
  intros Ha Hk Hl1 Hl2 Hk1 Hk2. apply asc_app in Ha as (HA & Hs & H1 & H2 & HB). apply asc_app.
  split; [simpl in *; by rewrite Hl1|]. simpl. rewrite Hl1, Hl2, Hk1, Hk2.
  pose proof Hs as Hs'. rewrite <- (take_drop s (l_keys nd)) in Hs'. apply sorted_app in Hs' as (? & Hs2 & H3).
  assert (k ∈ drop s (l_keys nd)) as Hkin.
  { apply (list_elem_of_lookup_2 _ 0). by rewrite lookup_drop, Nat.add_0_r. }
  split_and!; [done| | |done| | |done].
  - intros y Hy. apply H1. by eapply elem_take.
  - intros y Hy. by apply H3.
  - intros y Hy. apply ble_fin. rewrite (drop_S _ _ _ Hk) in Hy, Hs2. apply sorted_cons in Hs2 as [_ Hs2].
    apply elem_of_cons in Hy as [->|Hy]; [lia|]. specialize (Hs2 _ Hy). lia.
  - intros y Hy. apply H2. by eapply elem_drop.
Qed.

Lemma entries_insert A nd nd' B x d i :
  full nd -> entry nd' = list_ins i (x, d) (entry nd) -> entries (A ++ nd' :: B) ≡ₚ (x, d) :: entries (A ++ nd :: B).
Proof.
  intros Hf He. rewrite !entries_app, !entries_cons, He, list_ins_perm. simpl. by rewrite <- Permutation_middle.
Qed.

Lemma entry_cut a1 a2 ks vs s :
  length vs = length ks -> l_keys a1 = take s ks -> l_vals a1 = take s vs ->
  l_keys a2 = drop s ks -> l_vals a2 = drop s vs -> entry a1 ++ entry a2 = zip ks vs.
Proof.
  intros Hl H1 H2 H3 H4. unfold entry. rewrite H1, H2, H3, H4, <- zip_with_take, <- zip_with_drop.
  apply take_drop.
Qed.

Lemma list_to_map_insert (l l' : list (Z * Z)) x d :
  NoDup (l'.*1) -> l' ≡ₚ (x, d) :: l -> (list_to_map l' : gmap Z Z) = <[x := d]> (list_to_map l).
Proof. intros Hnd Hp. rewrite (list_to_map_proper _ _ Hnd Hp). done. Qed.
End leaf_level.

Section put.
Context `{Hcfg : ConfigOk}.

Abbreviation cap := (Z.to_nat _max_entries).
Abbreviation INV := INVALID_OFFSET.

Implicit Types fd : gmap Z bplus_node.
Implicit Types A B D lv : list lnode.
Implicit Types U Ds : list (list lnode).

Definition as_map Ds : gmap Z Z := list_to_map (contents Ds).

(** The tree now stores [m]. *)
Definition stores (m : gmap Z Z) (r : Z) (a : cview) : Prop :=
  r = 0 /\ exists Ls, tree_inv Ls a /\ as_map Ls = m.

(** The leaf [nd] of the leaf level has become [nd']. *)
Lemma close_leaf A nd nd' B U fd fd' root fs fr lvl x d N' :
  up_ok fd root U (ids (A ++ nd :: B)) -> down_ok fd (is_nil U) (ids (A ++ nd :: B)) [A ++ nd :: B] ->
  space (offs U ++ offs [A ++ nd :: B]) fs fr -> lvl = Z.of_nat (length U) + 1 ->
  ble (l_low nd) (Fin x) -> blt (Fin x) (hd_low B PInf) -> x ∉ l_keys nd ->
  fd' = <[l_off nd := N']> fd ->
  nd' = mkL (l_off nd) (l_par nd) (l_low nd) (list_ins (rank x (l_keys nd)) x (l_keys nd)) (list_ins (rank x (l_keys nd)) d (l_vals nd)) ->
  hdr N' = (l_off nd, l_par nd, last_off INV A, hd_off B INV) -> node_is N' true (l_keys nd') (l_vals nd') ->
  stores (<[x := d]> (as_map [A ++ nd :: B])) 0 (mkView ∅ None fd' lvl root fs fr).
Proof.
  intros Hu (_ & [Hseg Hfill] & Hasc) Hs Hl Hlo Hhi Hx -> Hnd' HhN Hni.
  set (U' := rev_append U [A ++ nd' :: B]). split; [done|]. exists U'.
  pose proof (lvl_full _ _ _ (conj Hseg Hfill)) as Hfull. simpl in Hseg, Hfill.
  assert (length (l_vals nd) = length (l_keys nd)) as Hln.
  { apply Forall_app in Hfull as [_ Hfull]. inversion_clear Hfull. done. }
  assert (id_of nd' = id_of nd) as Hid by (by rewrite Hnd').
  pose proof (space_NoDup _ _ _ Hs) as Hnd. rewrite (offs_cons (A ++ nd :: B)), offs_middle in Hnd.
  apply NoDup_app in Hnd as (_ & HdU & Hnd). rewrite app_nil_r in *. apply NoDup_cons in Hnd as [Hnd _].
  assert (down_ok (<[l_off nd := N']> fd) (is_nil U) (ids (A ++ nd' :: B)) [A ++ nd' :: B]) as Hdown.
  { split; [done|]. split; [split|].
    - eapply seg_replace; [exact Hseg| |by rewrite Hnd'|].
      + intros y Hy. apply lookup_insert_ne. by intros <-.
      + exists N'. rewrite Hnd'. simpl. rewrite lookup_insert_eq. split_and!; [done|done|]. by rewrite Hnd' in Hni.
    - apply Forall_app in Hfill as [? Hf]. inversion_clear Hf as [|? ? Hfn ?].
      apply Forall_app. split; [done|]. constructor; [|done]. unfold filled in *. rewrite Hnd'. simpl.
      rewrite length_ins by (rewrite Hln; apply rank_le). lia.
    - eapply (asc_insert _ nd); [done..| |]; by rewrite Hnd'. }
  assert (up_ok (<[l_off nd := N']> fd) root U (ids (A ++ nd' :: B))) as Hup.
  { rewrite ids_app, ids_cons, Hid. rewrite ids_app, ids_cons in Hu. eapply up_same; [|exact Hu].
    intros y Hy. apply lookup_insert_ne. intros <-. apply (HdU _ Hy). by left. }
  split.
  - eapply rebuild; [exact Hup|exact Hdown| |done]. eapply space_perm; [|exact Hs].
    rewrite !(offs_cons (_ ++ _)), !offs_middle, Hnd'. done.
  - unfold as_map, U'. rewrite contents_rev_append. apply list_to_map_insert.
    + apply leaves_NoDup. destruct Hdown as (_ & Hl' & Ha'). split_and!; [done|by eapply lvl_nonempty|by eapply lvl_full].
    + unfold contents. simpl. eapply entries_insert; [done|]. unfold entry. rewrite Hnd'. simpl. by apply zip_ins.
Qed.

(** ** A full leaf *)

Section split.
Context (A : list lnode) (nd : lnode) (B : list lnode) (U : list (list lnode)).
Context (fd : gmap Z bplus_node) (lvl root fs : Z) (fr : list Z) (o fs' : Z) (fr' : list Z) (x d : Z).
Context (Hu : up_ok fd root U (ids (A ++ nd :: B))).
Context (Hdn : down_ok fd (is_nil U) (ids (A ++ nd :: B)) [A ++ nd :: B]).
Context (Hs : space (offs U ++ offs [A ++ nd :: B]) fs fr) (Hlvl : lvl = Z.of_nat (length U) + 1).
Context (Hlo : ble (l_low nd) (Fin x)) (Hhi : blt (Fin x) (hd_low B PInf)) (Hx : x ∉ l_keys nd).
Context (Ha : alloc fs fr = (o, fs', fr')).

Let i := rank x (l_keys nd).
Let K' := list_ins i x (l_keys nd).
Let V' := list_ins i d (l_vals nd).

Lemma split_full : Forall full (A ++ nd :: B).
Proof. destruct Hdn as (_ & Hl & _). by eapply lvl_full. Qed.

Lemma split_len : length V' = length K' /\ length V' = S (length (l_vals nd)) /\ length (l_vals nd) = length (l_keys nd).
Proof.
  pose proof split_full as Hf. apply Forall_app in Hf as [_ Hf]. inversion_clear Hf as [|? ? Hfn _]. unfold full in Hfn.
  unfold K', V'. rewrite !length_ins by (rewrite ?Hfn; apply rank_le). lia.
Qed.

Lemma split_seg : seg fd true INV (A ++ nd :: B) INV.
Proof. destruct Hdn as (_ & [Hl _] & _). done. Qed.

Lemma split_fill : (U <> [] -> Forall (filled true false) (A ++ B)) /\ (U = [] -> A = [] /\ B = []).
Proof.
  destruct Hdn as (_ & [_ Hf] & _). split.
  - intros HU. destruct U; [done|]. apply Forall_app in Hf as [? Hf]. inversion_clear Hf. by apply Forall_app.
  - intros ->. simpl in Hu. rewrite ids_app, ids_cons in Hu. destruct A as [|? [|]], B; by simplify_eq/=.
Qed.

(** The blocks in use are distinct. *)
Lemma split_ne :
  NoDup (offs_of A ++ offs_of B) /\ Forall (fun y => y <> INV) (offs_of A ++ offs_of B) /\
  (forall y, y ∈ offs_of A ++ offs_of B -> y <> l_off nd /\ y <> o) /\ o <> l_off nd /\
  (forall y, y ∈ offs U -> (y ∉ offs_of A ++ offs_of B) /\ y <> INV).
Proof.
  pose proof (space_valid_all _ _ _ Hs) as Hv. pose proof (space_alloc _ _ _ _ _ _ Ha Hs) as Hs2.
  apply space_NoDup, NoDup_cons in Hs2 as [Ho Hnd]. rewrite elem_of_app in Ho.
  rewrite (offs_cons (A ++ nd :: B)), app_nil_r, offs_middle in *. apply NoDup_app in Hnd as (_ & HUd & Hnd).
  apply NoDup_cons in Hnd as [Hn1 Hn2]. apply Forall_app in Hv as [HvU Hv]. inversion_clear Hv as [|? ? Hv1 Hv2].
  rewrite elem_of_cons in Ho. rewrite Forall_forall in HvU. split_and!; [done|done| |tauto|].
  - intros y Hy. split; intros ->; tauto.
  - intros y Hy. split; [|by apply HvU]. intros Hy'. apply (HUd y Hy). by right.
Qed.

Lemma leaf_hole fdr L2 R2 s kk2 a1 a2 :
  K' !! s = Some kk2 -> (lsplit <= s)%nat -> (lsplit + s <= length V')%nat ->
  same_on fd fdr (offs U) ->
  a1 = mkL (n_self L2) (l_par nd) (l_low nd) (take s K') (take s V') ->
  a2 = mkL (n_self R2) (l_par nd) (Fin kk2) (drop s K') (drop s V') ->
  n_self L2 = o /\ n_self R2 = l_off nd \/ n_self L2 = l_off nd /\ n_self R2 = o ->
  n_parent L2 = l_par nd /\ n_parent R2 = INV \/ n_parent L2 = INV /\ n_parent R2 = l_par nd ->
  seg (over (l_par nd) L2 R2 fdr) true INV (A ++ a1 :: a2 :: B) INV ->
  hole U (ids A) (ids B) (l_par nd) (l_off nd) (l_low nd) kk2 (A ++ a1 :: a2 :: B) [] L2 R2 fdr lvl root fs' fr' /\
  as_map [A ++ a1 :: a2 :: B] = <[x := d]> (as_map [A ++ nd :: B]).
Proof.
  intros Hk Hf1 Hf2 Hsame Ha1 Ha2 Hoff Hpar Hseg. destruct split_len as (HlKV & HlV & HlK).
  set (nd' := mkL (l_off nd) (l_par nd) (l_low nd) K' V').
  assert (Forall (filled true false) (A ++ a1 :: a2 :: B)) as Hfill.
  { destruct split_fill as [HfU HU]. assert (filled true false a1 /\ filled true false a2) as [? ?].
    { rewrite Ha1, Ha2. unfold filled. simpl. rewrite length_take, length_drop. lia. }
    apply Forall_app. destruct U as [|u U'].
    - destruct HU as [-> ->]; [done|]. split; by repeat constructor.
    - specialize (HfU ltac:(done)). apply Forall_app in HfU as [? ?]. split; [done|]. by repeat constructor. }
  assert (asc (A ++ a1 :: a2 :: B) PInf) as Hasc.
  { apply (asc_cut _ nd' _ _ _ s kk2); [|done|by rewrite Ha1|by rewrite Ha2|by rewrite Ha1|by rewrite Ha2].
    eapply (asc_insert _ nd); [by destruct Hdn as (_ & _ & ?)|done..]. }
  split; [split|].
  - rewrite ids_app, ids_cons in Hu. by eapply up_same.
  - split_and!; [|by split|done]. rewrite ids_app, !ids_cons, Ha1, Ha2. done.
  - done.
  - eapply space_perm; [|exact (space_alloc _ _ _ _ _ _ Ha Hs)]. apply Permutation_app_tail.
    rewrite !(offs_cons (_ ++ _)), !app_nil_r, (offs_split A a1 a2 nd B o) by (by rewrite Ha1, Ha2).
    apply Permutation_middle.
  - rewrite Hlvl. simpl. lia.
  - apply list_to_map_insert.
    + apply leaves_NoDup. split; [done|]. pose proof (conj Hseg Hfill) as Hl. fold (lvl_ok (over (l_par nd) L2 R2 fdr) true false (A ++ a1 :: a2 :: B)) in Hl.
      split; [by eapply lvl_nonempty|by eapply lvl_full].
    + unfold contents. simpl. rewrite <- (entries_insert A nd nd' B x d i).
      * rewrite !entries_app, !entries_cons, (app_assoc (entry a1)).
        rewrite (entry_cut a1 a2 K' V' s); [done|done|by rewrite Ha1|by rewrite Ha1|by rewrite Ha2|by rewrite Ha2].
      * done.
      * unfold entry, nd'. simpl. by apply zip_ins.
Qed.

Lemma leaf_hole_left s kk2 S' N' :
  K' !! s = Some kk2 -> (lsplit <= s)%nat -> (lsplit + s <= length V')%nat ->
  hdr S' = (o, INV, last_off INV A, l_off nd) -> hdr N' = (l_off nd, l_par nd, o, hd_off B INV) ->
  node_is S' true (take s K') (take s V') -> node_is N' true (drop s K') (drop s V') ->
  exists D, hole U (ids A) (ids B) (l_par nd) (l_off nd) (l_low nd) kk2 D [] S' N'
    (relink (set_next o) (last_off INV A) fd) lvl root fs' fr' /\
    as_map [D] = <[x := d]> (as_map [A ++ nd :: B]).
Proof.
  intros Hk Hf1 Hf2 HhS HhN HS HN. destruct split_ne as (Hnd & Hval & Hne & Ho & HUne).
  assert (n_self S' = o /\ n_self N' = l_off nd) as [HsS HsN] by (unfold hdr in *; split; congruence).
  assert (forall y, y ∈ offs_of A ++ offs_of B -> y <> n_self S' /\ y <> n_self N') as Hne'.
  { rewrite HsS, HsN. intros y Hy. destruct (Hne y Hy). done. }
  pose proof split_seg as Hseg. apply seg_app in Hseg as (HgA & _ & HgB).
  apply NoDup_app in Hnd as (HndA & HAB & HndB). apply Forall_app in Hval as [HvA HvB].
  exists (A ++ mkL (n_self S') (l_par nd) (l_low nd) (take s K') (take s V')
            :: mkL (n_self N') (l_par nd) (Fin kk2) (drop s K') (drop s V') :: B).
  eapply leaf_hole; [done..| |reflexivity|reflexivity|by left|right; unfold hdr in *; split; congruence|].
  - intros y Hy. destruct (HUne y Hy) as [Hy1 Hy2]. apply relink_out. intros ->.
    destruct (last_off_in INV A); [done|]. apply Hy1. rewrite elem_of_app. by left.
  - apply seg_two.
    + simpl. rewrite HsS. eapply (seg_relinked_next fd); [done..|]. intros y Hy.
      by apply over_out; apply Hne'; rewrite elem_of_app; left.
    + exists (set_parent (l_par nd) S'). simpl. rewrite over_l by congruence.
      split_and!; [done|unfold hdr in *; simpl; congruence|by destruct HS].
    + exists (set_parent (l_par nd) N'). simpl. rewrite over_r.
      split_and!; [done|unfold hdr in *; simpl; congruence|by destruct HN].
    + simpl. rewrite HsN. eapply seg_same; [|exact HgB]. intros y Hy.
      rewrite over_out by (apply Hne'; rewrite elem_of_app; by right). apply relink_out. intros ->.
      rewrite Forall_forall in HvB. destruct (last_off_in INV A) as [E|HA]; [by apply (HvB _ Hy)|by apply (HAB _ HA)].
Qed.

Lemma leaf_hole_right s kk2 S' N' :
  K' !! s = Some kk2 -> (lsplit <= s)%nat -> (lsplit + s <= length V')%nat ->
  hdr S' = (o, INV, l_off nd, hd_off B INV) -> hdr N' = (l_off nd, l_par nd, last_off INV A, o) ->
  node_is N' true (take s K') (take s V') -> node_is S' true (drop s K') (drop s V') ->
  exists D, hole U (ids A) (ids B) (l_par nd) (l_off nd) (l_low nd) kk2 D [] N' S'
    (relink (set_prev o) (hd_off B INV) fd) lvl root fs' fr' /\
    as_map [D] = <[x := d]> (as_map [A ++ nd :: B]).
Proof.
  intros Hk Hf1 Hf2 HhS HhN HN HS. destruct split_ne as (Hnd & Hval & Hne & Ho & HUne).
  assert (n_self S' = o /\ n_self N' = l_off nd) as [HsS HsN] by (unfold hdr in *; split; congruence).
  assert (forall y, y ∈ offs_of A ++ offs_of B -> y <> n_self N' /\ y <> n_self S') as Hne'.
  { rewrite HsS, HsN. intros y Hy. destruct (Hne y Hy). done. }
  pose proof split_seg as Hseg. apply seg_app in Hseg as (HgA & _ & HgB).
  apply NoDup_app in Hnd as (HndA & HAB & HndB). apply Forall_app in Hval as [HvA HvB].
  exists (A ++ mkL (n_self N') (l_par nd) (l_low nd) (take s K') (take s V')
            :: mkL (n_self S') (l_par nd) (Fin kk2) (drop s K') (drop s V') :: B).
  eapply leaf_hole; [done..| |reflexivity|reflexivity|by right|left; unfold hdr in *; split; congruence|].
  - intros y Hy. destruct (HUne y Hy) as [Hy1 Hy2]. apply relink_out. intros ->.
    destruct (hd_off_in B INV); [done|]. apply Hy1. rewrite elem_of_app. by right.
  - apply seg_two.
    + simpl. rewrite HsN. eapply seg_same; [|exact HgA]. intros y Hy.
      rewrite over_out by (apply Hne'; rewrite elem_of_app; by left). apply relink_out. intros ->.
      rewrite Forall_forall in HvA. destruct (hd_off_in B INV) as [E|HB]; [by apply (HvA _ Hy)|by apply (HAB _ Hy)].
    + exists (set_parent (l_par nd) N'). simpl. rewrite over_l by congruence.
      split_and!; [done|unfold hdr in *; simpl; congruence|by destruct HN].
    + exists (set_parent (l_par nd) S'). simpl. rewrite over_r.
      split_and!; [done|unfold hdr in *; simpl; congruence|by destruct HS].
    + simpl. rewrite HsS. eapply (seg_relinked_prev fd); [done..|]. intros y Hy.
      by apply over_out; apply Hne'; rewrite elem_of_app; right.
Qed.
End split.

(** ** [leaf_insert] *)

Lemma closed_stores m D Ds r a : as_map (D :: Ds) = m -> closed D Ds r a -> stores m r a.
Proof.
  intros <- (Hr & Ls & Hi & Hc). split; [done|]. exists Ls. split; [done|]. unfold as_map. by rewrite Hc.
Qed.

Lemma leaf_insert_ok x d fuel U A nd B p N a :
  at_node x U A nd B [] p N a -> v_level a = Z.of_nat (length U) + 1 -> (length U <= fuel)%nat ->
  awp (leaf_insert fuel p x d)
    (fun r a' => if decide (x ∈ l_keys nd) then r = -1 /\ rest a a'
                 else stores (<[x := d]> (as_map [A ++ nd :: B])) r a') a.
Proof.
  intros H Hlv Hf. pose proof (at_sorted _ _ _ _ _ _ _ _ _ H) as Hsort.
  destruct H as [Hu Hdn Hlo Hhi Hsk Hmem HN Hni Hhdr Hs]. simpl in Hni.
  destruct a as [mem sk fd lv rt fs fr]. simpl in *. subst mem sk.
  unfold leaf_insert. apply awp_bind. eapply awp_get_seek; [done|].
  apply awp_bind. eapply awp_lift; [by eapply key_binary_search_ok|].
  fold (found_at x (l_keys nd)). rewrite found_at_nonneg. unfold found_at.
  destruct (decide (x ∈ l_keys nd)) as [Hx|Hx]; [rewrite bool_decide_true by done; by apply awp_ret|].
  rewrite bool_decide_false by done. replace (- (- Z.of_nat (rank x (l_keys nd)) - 1) - 1) with (Z.of_nat (rank x (l_keys nd))) by lia.
  apply awp_bind. eapply awp_cache_mark; [done|]. view_simpl.
  rewrite (ni_children _ _ _ _ Hni). pose proof (ni_cap _ _ _ _ Hni) as Hcap. pose proof (ni_len _ _ _ _ Hni) as Hlen.
  pose proof (rank_le x (l_keys nd)) as Hrank. pose proof cfg_entries as Hce. simpl in Hlen.
  assert (n_self N = l_off nd /\ n_parent N = l_par nd /\ n_prev N = last_off INV A /\ n_next N = hd_off B INV)
    as (HsN & HpN & HpvN & HnxN) by (unfold hdr in Hhdr; split_and!; congruence).
  destruct (Z.eqb_spec (Z.of_nat (length (l_vals nd))) _max_entries) as [Hfull|Hroom].
  - rewrite lsplit_Z. destruct (alloc fs fr) as [[o fs'] fr'] eqn:Ha.
    apply awp_bind, awp_leaf_new; [mem_small|].
    intros sib SN Hsib _ HpS _ _ HtS. view_simpl_in Hsib. view_simpl.
    assert (sib <> p) as Hne by (apply (insert_None_ne _ _ _ N Hsib); mem_lookup).
    pose proof lsplit_bounds as (Hs1 & Hs2 & Hs3).
    pose proof (split_len A nd B U fd x d Hdn) as (HlKV & HlV & _).
    pose proof split_seg A nd B U fd Hdn as Hseg.
    assert (link_at fd (n_prev N) /\ link_at fd (n_next N)) as [Hlp Hln].
    { rewrite HpvN, HnxN. split; intros Hi.
      - destruct (last_off_in INV A) as [?|Hin]; [done|]. eapply seg_self; [exact Hseg|].
        rewrite offs_middle. right. rewrite elem_of_app. by left.
      - destruct (hd_off_in B INV) as [?|Hin]; [done|]. eapply seg_self; [exact Hseg|].
        rewrite offs_middle. right. rewrite elem_of_app. by right. }
    asteps. destruct (Z.ltb_spec (Z.of_nat (rank x (l_keys nd))) (Z.of_nat lsplit)) as [Hj|Hj].
    + eapply awp_leaf_split_left; [mem_lookup|mem_lookup|auto|mem_small|exact Ha|exact Hlp|exact Hni|lia|done|lia|].
      intros N' S' kk2 HhS HhN HnS HnN Hkk2. rewrite HpvN in *.
      destruct (leaf_hole_left A nd B U fd lv rt fs fr o fs' fr' x d Hu Hdn Hs Hlv Hlo Hhi Hx Ha lsplit kk2 S' N')
        as (D & Hh & Hm); [done|lia|lia|congruence|congruence|done|done|].
      eapply awp_mono; [|intros ? ?; by apply closed_stores]. to_mem2 sib S' p N'. by eapply parent_build_ok.
    + eapply awp_leaf_split_right; [mem_lookup|mem_lookup|auto|mem_small|exact Ha|exact Hln|exact Hni|lia|done|lia|].
      intros N' S' kk2 HhN HhS HnN HnS Hkk2. rewrite HnxN in *.
      destruct (leaf_hole_right A nd B U fd lv rt fs fr o fs' fr' x d Hu Hdn Hs Hlv Hlo Hhi Hx Ha lsplit kk2 S' N')
        as (D & Hh & Hm); [done|lia|lia|congruence|congruence|done|done|].
      eapply awp_mono; [|intros ? ?; by apply closed_stores]. to_mem2 p N' sib S'. by eapply parent_build_ok.
  - asteps. eapply awp_leaf_simple_insert; [mem_lookup|exact Hni|lia|done|].
    intros N' HhN' Hni'. asteps. view_simpl.
    assert (n_self N' = l_off nd) as HsN' by (unfold hdr in HhN'; congruence).
    pose proof (close_leaf A nd _ B U fd _ rt fs fr lv x d N' Hu Hdn Hs Hlv Hlo Hhi Hx eq_refl eq_refl (eq_trans HhN' Hhdr) Hni') as Hc.
    rewrite HsN'. view_apply Hc; [mem_eq|done].
Qed.

Lemma insert_loop_ok x d up fuel U A nd B Ds p N a :
  at_node x U A nd B Ds p N a -> v_level a = Z.of_nat (length U) + Z.of_nat (length ((A ++ nd :: B) :: Ds)) ->
  (length Ds < fuel)%nat -> (length U + length Ds <= up)%nat ->
  awp (bplus_tree_insert_loop fuel up (Some p) x d)
    (fun r a' => let m := as_map ((A ++ nd :: B) :: Ds) in
       match m !! x with Some _ => r = Some (-1) /\ rest a a'
       | None => exists v, r = Some v /\ stores (<[x := d]> m) v a' end) a.
Proof.
  revert U A nd B Ds p N a. induction fuel as [|fuel IH]; intros U A nd B Ds p N a H Hlv Hf Hup; [lia|].
  pose proof (at_node_is _ _ _ _ _ _ _ _ _ H) as Hni.
  cbn [bplus_tree_insert_loop]. apply awp_bind. eapply awp_get_seek; [by apply H|].
  rewrite (ni_leaf _ _ _ _ Hni). destruct Ds as [|E Ds]; cbn [is_nil].
  - apply awp_bind. eapply awp_mono; [apply (leaf_insert_ok x d up _ _ _ _ _ _ _ H); [done|simpl in Hup; lia]|].
    intros r a' Hr. apply awp_ret. unfold as_map, contents at 1. simpl. rewrite (at_leaf_lookup _ _ _ _ _ _ _ _ H).
    destruct (decide (x ∈ l_keys nd)) as [Hx|Hx].
    + pose proof (at_sorted _ _ _ _ _ _ _ _ _ H) as Hs. pose proof (lookup_lt_Some _ _ _ (rank_elem _ _ Hs Hx)) as Hlt.
      pose proof (ni_len _ _ _ _ Hni) as Hl. simpl in Hl.
      destruct (lookup_lt_is_Some_2 (l_vals nd) (rank x (l_keys nd))) as [v ->]; [lia|].
      destruct Hr as [-> ?]. done.
    + by exists r.
  - apply awp_bind. eapply awp_mono; [eapply (awp_child _ _ _ _ _ _ _ _ _ _ _ H)|intros o a' Ho; apply awp_bind, Ho].
    intros A' nd' B' p' N' a' -> Hat Hr.
    eapply awp_mono; [apply (IH _ _ _ _ _ _ _ _ Hat)|].
    + unfold rest in Hr. assert (v_level a' = v_level a) as -> by (destruct a, a'; by simplify_eq/=).
      rewrite Hlv. simpl. lia.
    + simpl in Hf. lia.
    + simpl in *. lia.
    + intros r a'' Hpost. cbn zeta in *. unfold as_map, contents in *. simpl in *.
      destruct (_ !! x); [|done]. destruct Hpost as [-> ?]. split; [done|by eapply rest_trans].
Qed.

(** ** [bplus_tree_insert] *)

(** The first key: a leaf that is the root. *)
Lemma first_leaf_ok x d a :
  tree_inv [] a ->
  awp (root <- leaf_new ;; set_key_at root 0 x ;;; set_val_at root 0 d ;;; upd root (set_children 1) ;;;
       off <- new_node_append root ;; modify (set_root off) ;;; modify (set_level 1) ;;;
       node_flush (Some root) ;;; ret 0) (stores {[x := d]}) a.
Proof.
  intros [Hmem Hsk Hs Hlv Hrt]. destruct a as [mem sk fd lv rt fs fr]. simpl in Hmem, Hsk, Hs. subst mem sk.
  apply awp_bind, awp_leaf_new; [mem_small|]. intros p P0 Hp [HkP HvP] HpP Hpv Hnx Hty. pose proof cfg_entries.
  destruct (alloc fs fr) as [[o fs'] fr'] eqn:Ha. view_simpl. asteps.
  eapply awp_new_node_append; [view_simpl; mem_lookup|done|]. asteps.
  split; [done|].
  match goal with |- context [<[o := ?n]> _] => set (P := n) end.
  assert (node_is P true [x] [d]) as HP.
  { unfold P. split; view_simpl; [done|done| | |done|simpl; lia].
    - destruct (n_key P0) as [|k0 ks0]; simpl in HkP; [lia|done].
    - destruct (n_val P0) as [|v0 vs0]; simpl in HvP; [lia|done]. }
  assert (hdr P = (o, INV, INV, INV)) as HhP by (unfold P, hdr; simpl; congruence).
  match goal with |- context [mkView ?m _ _ _ _ _ _] => replace m with (∅ : gmap nat bplus_node) by mem_eq end.
  clearbody P. exists [[mkL o INV NInf [x] [d]]]. split; [|done].
  apply (rebuild _ _ [] [mk_id INV o NInf]); [done| |exact (space_alloc _ _ _ _ _ _ Ha Hs)|done].
  split_and!; [done| |].
  - split; [|by repeat constructor]. simpl. split; [|done]. exists P. by rewrite lookup_insert_eq.
  - simpl. split_and!; [by repeat constructor|by left|done|done].
Qed.

Lemma insert_ok fuel x d Ds a :
  tree_inv Ds a -> (length Ds < fuel)%nat ->
  awp (bplus_tree_insert fuel x d)
    (fun r a' => match as_map Ds !! x with
                 | Some _ => r = -1 /\ tree_inv Ds a'
                 | None => stores (<[x := d]> (as_map Ds)) r a'
                 end) a.
Proof.
  intros Hinv Hf. apply awp_forget. unfold bplus_tree_insert. apply awp_bind.
  eapply awp_mono; [eapply (awp_root_seek x Ds a _ Hinv)|intros r a' Hr; apply awp_bind, Hr].
  - intros ->. apply awp_bind. destruct fuel; [lia|]. simpl. apply awp_ret.
    eapply awp_mono; [by apply first_leaf_ok|]. intros r a' (Hr & Ls & Hi & Hm). split; [done|].
    exists Ls. split; [|done]. destruct Hi. by split.
  - intros nd Ds' p N a' -> Hat Hr. apply awp_bind.
    assert (v_level a' = v_level a) as Hlv by (unfold rest in Hr; destruct a, a'; by simplify_eq/=).
    eapply awp_mono; [apply (insert_loop_ok x d fuel fuel _ _ _ _ _ _ _ _ Hat)|].
    + rewrite Hlv, (inv_level _ _ Hinv). simpl. lia.
    + simpl in Hf. lia.
    + simpl in *. lia.
    + intros r a'' Hpost. cbn zeta in *. change ([] ++ [nd]) with [nd] in Hpost. destruct (as_map ([nd] :: Ds') !! x).
      * destruct Hpost as [-> Hr']. apply awp_ret. split; [done|]. eapply rest_inv; [done|by eapply rest_trans].
      * destruct Hpost as (v & -> & Hr' & Ls & Hi & Hm). apply awp_ret. split; [done|]. exists Ls. split; [|done].
        destruct Hi. by split.
Qed.
End put.
