(* ===== verification/BPlusRemove.v ===== *)
(** * Closing the tree after a removal

    The levels after a node got smaller, after an entry moved between two
    siblings, and after two siblings were merged, for leaves and non-leaves
    alike.  A merge leaves a child too many in the level above: the [dhole]. *)

From S2P Require Import Prelude BPlusTree BPlusOps BPlusView BPlusNode BPlusEdit BPlusEditIns BPlusEditSplit BPlusLevels BPlusInv BPlusSearch BPlusClimb.

Section remove.
Context `{Hcfg : ConfigOk}.

Abbreviation cap := (Z.to_nat _max_entries).
Abbreviation INV := INVALID_OFFSET.

Implicit Types fd : gmap Z bplus_node.
Implicit Types A B D lv : list lnode.
Implicit Types U Ds : list (list lnode).

Definition low_ok fd lv Ds : Prop :=
  match Ds with [] => asc lv PInf | _ => down_ok fd false (kids lv) Ds end.

Lemma down_ok_intro fd top lv Ds :
  lvl_ok fd (is_nil Ds) top lv -> low_ok fd lv Ds -> down_ok fd top (ids lv) (lv :: Ds).
Proof. intros. by destruct Ds. Qed.

Lemma down_ok_low fd top I lv Ds : down_ok fd top I (lv :: Ds) -> low_ok fd lv Ds.
Proof. intros (_ & _ & ?). by destruct Ds. Qed.

Lemma offs_shift v v' U Es Es' :
  offs_of v' ≡ₚ offs_of v -> offs Es' = offs Es -> offs (v :: U) ++ offs Es ≡ₚ offs U ++ offs (v' :: Es').
Proof.
  intros H HE. rewrite !offs_cons, H, HE, (app_assoc (offs U)). apply Permutation_app_tail, Permutation_app_comm.
Qed.

(** ** One node changed *)

Lemma close_one fd fd' root U A nd nd' B Ds fs fr lvl :
  up_ok fd root U (ids (A ++ nd :: B)) -> seg fd (is_nil Ds) INV (A ++ nd :: B) INV ->
  Forall (filled (is_nil Ds) (is_nil U)) (A ++ nd' :: B) -> id_of nd' = id_of nd ->
  blk fd' (is_nil Ds) nd' (last_off INV A) (hd_off B INV) ->
  same_on fd fd' (offs_of A ++ offs_of B) -> same_on fd fd' (offs U) ->
  low_ok fd' (A ++ nd' :: B) Ds -> space (offs U ++ offs ((A ++ nd' :: B) :: Ds)) fs fr ->
  lvl = Z.of_nat (length U) + Z.of_nat (length ((A ++ nd' :: B) :: Ds)) ->
  tree_inv (rev_append U ((A ++ nd' :: B) :: Ds)) (mkView ∅ None fd' lvl root fs fr).
Proof.
  intros Hu Hseg Hfill Hid Hblk HsAB HsU Hlow Hs Hl.
  eapply (rebuild _ _ U (ids (A ++ nd' :: B))); [| |done|done].
  - rewrite ids_app, ids_cons, Hid. rewrite ids_app, ids_cons in Hu. by eapply up_same.
  - apply down_ok_intro; [|done]. split; [|done]. eapply seg_replace; [exact Hseg|done| |done].
    unfold id_of in Hid. congruence.
Qed.

(** ** A node among the children of its parent *)

Record child_at fd U A (nd : lnode) B A2 (qn : lnode) B2 U2 (jj : nat) (Q : bplus_node) : Prop := {
  ca_U : U = (A2 ++ qn :: B2) :: U2;
  ca_kid : kid qn !! jj = Some (id_of nd);
  ca_A : ids A = kids A2 ++ take jj (kid qn);
  ca_B : ids B = drop (S jj) (kid qn) ++ kids B2;
  ca_par : l_par nd = l_off qn;
  ca_fd : fd !! l_off qn = Some Q;
  ca_hdr : hdr Q = (l_off qn, l_par qn, last_off INV A2, hd_off B2 INV);
  ca_node : node_is Q false (l_keys qn) (l_vals qn);
  ca_wide : wide qn;
  ca_sorted : sorted (l_keys qn)
}.

Lemma kid_par qn j i : kid qn !! j = Some i -> id_par i = l_off qn.
Proof.
  rewrite lookup_kid. destruct (l_vals qn !! j); [|done]. simpl.
  destruct ((l_low qn :: (Fin <$> l_keys qn)) !! j); [|done]. simpl. by intros [= <-].
Qed.

Lemma kid_low qn j i : kid qn !! S j = Some i -> exists k, l_keys qn !! j = Some k /\ id_low i = Fin k.
Proof.
  rewrite lookup_kid. destruct (l_vals qn !! S j); [|done]. simpl. rewrite list_lookup_fmap.
  destruct (l_keys qn !! j) as [k|]; [|done]. simpl. intros [= <-]. by exists k.
Qed.

Lemma parent_of fd root U A nd B :
  up_ok fd root U (ids (A ++ nd :: B)) -> lows_ok (ids (A ++ nd :: B)) -> U <> [] ->
  exists A2 qn B2 U2 jj Q, child_at fd U A nd B A2 qn B2 U2 jj Q.
Proof.
  intros Hu Hlows HU. destruct U as [|lv2 U2]; [done|]. destruct Hu as (Hids & Hl & Hu).
  pose proof (lvl_wide _ _ _ Hl) as Hw. pose proof (lows_kids_asc lv2) as Hasc. rewrite <- Hids in Hasc.
  specialize (Hasc Hlows Hw). rewrite ids_app, ids_cons in Hids. symmetry in Hids.
  apply kids_split in Hids as (A2 & qn & B2 & jj & -> & Hj & HA & HB).
  destruct Hl as [Hs _]. pose proof (seg_blk _ _ _ _ _ _ _ Hs) as (Q & HQ & HH & Hni).
  apply asc_app in Hasc as (_ & Hsq & _). apply Forall_app in Hw as [_ Hw]. inversion_clear Hw.
  exists A2, qn, B2, U2, jj, Q. split; try done. apply (kid_par _ _ _ Hj).
Qed.

Lemma crank_unique x ks r :
  sorted ks -> (r <= length ks)%nat -> (forall k, (0 < r)%nat -> ks !! (r - 1)%nat = Some k -> k <= x) ->
  (forall k, ks !! r = Some k -> x < k) -> crank x ks = r.
Proof.
  intros Hs Hr H1 H2. pose proof (crank_le x ks) as Hc.
  destruct (Nat.lt_trichotomy (crank x ks) r) as [Hlt|[?|Hlt]]; [|done|].
  - destruct (lookup_lt_is_Some_2 ks (r - 1)) as [k Hk]; [lia|]. pose proof (H1 k ltac:(lia) Hk).
    pose proof (crank_lookup_gt x ks _ _ Hs Hk). lia.
  - destruct (lookup_lt_is_Some_2 ks r) as [k Hk]; [lia|]. pose proof (H2 k Hk).
    pose proof (crank_lookup_le x ks _ _ Hs Hk Hlt). lia.
Qed.

Section child.
Context fd U A (nd : lnode) B A2 (qn : lnode) B2 U2 (jj : nat) (Q : bplus_node).
Context (Hca : child_at fd U A nd B A2 qn B2 U2 jj Q).

Lemma ca_bound : (jj <= length (l_keys qn))%nat.
Proof.
  destruct Hca as [_ Hk _ _ _ _ _ _ Hw _]. pose proof (lookup_lt_Some _ _ _ Hk) as Hlt.
  rewrite length_kid in Hlt by done. unfold wide in Hw. lia.
Qed.

(** [parent_key_index] finds the node. *)
Lemma ca_index k0 : ble (l_low nd) (Fin k0) -> blt (Fin k0) (hd_low B PInf) -> crank k0 (l_keys qn) = jj.
Proof.
  intros Hlo Hhi. pose proof ca_bound as Hb. destruct Hca as [_ Hk _ HB _ _ _ _ Hw Hs].
  apply crank_unique; [done|done| |].
  - intros k Hj Hk0. destruct jj as [|j]; [lia|]. apply kid_low in Hk as (k' & Hk' & Hl).
    simpl in Hk0. rewrite Nat.sub_0_r in Hk0. assert (k' = k) as -> by congruence.
    unfold id_low, id_of in Hl. simpl in Hl. rewrite Hl in Hlo. by apply ble_fin.
  - intros k Hk0. rewrite hd_low_ids, HB in Hhi. unfold wide in Hw. pose proof (lookup_lt_Some _ _ _ Hk0).
    destruct (lookup_lt_is_Some_2 (kid qn) (S jj)) as [i Hi]; [rewrite length_kid by done; lia|].
    rewrite (drop_S _ _ _ Hi) in Hhi. simpl in Hhi. apply kid_low in Hi as (k' & Hk' & Hl).
    rewrite Hl in Hhi. simpl in Hhi. congruence.
Qed.

Lemma ca_left : (0 < jj)%nat -> exists A0 al, A = A0 ++ [al] /\ kid qn !! (jj - 1)%nat = Some (id_of al) /\
  ids A0 = kids A2 ++ take (jj - 1) (kid qn).
Proof.
  intros Hj. destruct Hca as [_ Hk HA _ _ _ _ _ _ _]. pose proof (lookup_lt_Some _ _ _ Hk).
  destruct (lookup_lt_is_Some_2 (kid qn) (jj - 1)) as [i Hi]; [lia|].
  replace jj with (S (jj - 1)) in HA by lia. rewrite (take_S_r _ _ _ Hi), app_assoc in HA.
  apply ids_app_inv in HA as (A0 & l & -> & HA & Hl). destruct l as [|al [|]]; simplify_eq/=.
  exists A0, al. done.
Qed.

Lemma ca_right : (jj < length (l_keys qn))%nat -> exists br B0, B = br :: B0 /\ kid qn !! S jj = Some (id_of br) /\
  ids B0 = drop (S (S jj)) (kid qn) ++ kids B2.
Proof.
  intros Hj. destruct Hca as [_ Hk _ HB _ _ _ _ Hw _].
  destruct (lookup_lt_is_Some_2 (kid qn) (S jj)) as [i Hi]; [rewrite length_kid by done; unfold wide in Hw; lia|].
  rewrite (drop_S _ _ _ Hi) in HB. destruct B as [|br B0]; [done|]. rewrite ids_cons in HB. simplify_eq/=.
  exists br, B0. done.
Qed.
End child.

(** ** Two siblings under the same parent *)

Record pair_at fd U A (a1 a2 : lnode) B A2 (qn : lnode) B2 U2 (j : nat) (k : Z) (Q : bplus_node) : Prop := {
  pr_U : U = (A2 ++ qn :: B2) :: U2;
  pr_kid1 : kid qn !! j = Some (id_of a1);
  pr_kid2 : kid qn !! S j = Some (id_of a2);
  pr_A : ids A = kids A2 ++ take j (kid qn);
  pr_B : ids B = drop (S (S j)) (kid qn) ++ kids B2;
  pr_key : l_keys qn !! j = Some k;
  pr_low : l_low a2 = Fin k;
  pr_par1 : l_par a1 = l_off qn;
  pr_par2 : l_par a2 = l_off qn;
  pr_fd : fd !! l_off qn = Some Q;
  pr_hdr : hdr Q = (l_off qn, l_par qn, last_off INV A2, hd_off B2 INV);
  pr_node : node_is Q false (l_keys qn) (l_vals qn);
  pr_wide : wide qn
}.

Lemma child_pair_left fd U A nd B A2 qn B2 U2 jj Q :
  child_at fd U A nd B A2 qn B2 U2 jj Q -> (0 < jj)%nat ->
  exists A0 al k, A = A0 ++ [al] /\ pair_at fd U A0 al nd B A2 qn B2 U2 (jj - 1) k Q.
Proof.
  intros Hca Hj. destruct (ca_left _ _ _ _ _ _ _ _ _ _ _ Hca Hj) as (A0 & al & -> & Hal & HA0).
  destruct Hca as [HU Hk HA HB Hp Hfd Hh Hni Hw Hs].
  replace jj with (S (jj - 1)) in Hk by lia. destruct (kid_low _ _ _ Hk) as (k & Hkk & Hl).
  exists A0, al, k. split; [done|]. split; try done.
  - by replace (S (S (jj - 1))) with (S jj) by lia.
  - apply (kid_par _ _ _ Hal).
Qed.

Lemma child_pair_right fd U A nd B A2 qn B2 U2 jj Q :
  child_at fd U A nd B A2 qn B2 U2 jj Q -> (jj < length (l_keys qn))%nat ->
  exists br B0 k, B = br :: B0 /\ pair_at fd U A nd br B0 A2 qn B2 U2 jj k Q.
Proof.
  intros Hca Hj. destruct (ca_right _ _ _ _ _ _ _ _ _ _ _ Hca Hj) as (br & B0 & -> & Hbr & HB0).
  destruct Hca as [HU Hk HA HB Hp Hfd Hh Hni Hw Hs]. destruct (kid_low _ _ _ Hbr) as (k & Hkk & Hl).
  exists br, B0, k. split; [done|]. split; try done. apply (kid_par _ _ _ Hbr).
Qed.

(** Another separator between the two. *)
Lemma kid_of_insert p lo ks vs j k c clo :
  length vs = S (length ks) -> kid_of p lo ks vs !! S j = Some (mk_id p c clo) ->
  kid_of p lo (<[j := k]> ks) vs = <[S j := mk_id p c (Fin k)]> (kid_of p lo ks vs).
Proof.
  intros Hl Hc. apply list_eq. intros i. unfold kid_of in *.
  pose proof (lookup_lt_Some _ _ _ Hc) as Hlt. rewrite length_zip_with in Hlt. simpl in Hlt. rewrite length_fmap in Hlt.
  rewrite lookup_insert_if by (rewrite length_zip_with; simpl; rewrite length_fmap; lia).
  rewrite !lookup_zip_with. destruct (decide (i = S j)) as [->|Hne].
  - rewrite lookup_zip_with in Hc. destruct (vs !! S j); [|done]. simpl in *. rewrite list_fmap_insert.
    rewrite list_lookup_insert_eq by (rewrite length_fmap; lia). simpl.
    rewrite list_lookup_fmap in Hc. destruct (ks !! j); [|done]. simpl in *. unfold mk_id in *. congruence.
  - destruct i as [|i]; [done|]. simpl. rewrite list_fmap_insert, list_lookup_insert_ne by congruence. done.
Qed.

Lemma insert_mid {T} (l : list T) j x y z :
  l !! j = Some x -> l !! S j = Some y -> <[S j := z]> l = take j l ++ x :: z :: drop (S (S j)) l.
Proof.
  intros Hx Hy. pose proof (lookup_lt_Some _ _ _ Hy). rewrite insert_take_drop by done.
  rewrite (take_S_r _ _ _ Hx), <- app_assoc. done.
Qed.

Lemma close_pair fd fd' root U A a1 a2 b1 b2 B A2 qn B2 U2 j k k' Q Q' Ds fs fr lvl :
  up_ok fd root U (ids (A ++ a1 :: a2 :: B)) -> pair_at fd U A a1 a2 B A2 qn B2 U2 j k Q ->
  seg fd (is_nil Ds) INV (A ++ a1 :: a2 :: B) INV ->
  Forall (filled (is_nil Ds) false) (A ++ b1 :: b2 :: B) ->
  id_of b1 = id_of a1 -> id_of b2 = mk_id (l_off qn) (l_off a2) (Fin k') ->
  blk fd' (is_nil Ds) b1 (last_off INV A) (l_off a2) -> blk fd' (is_nil Ds) b2 (l_off a1) (hd_off B INV) ->
  same_on fd fd' (offs_of A ++ offs_of B) ->
  fd' !! l_off qn = Some Q' -> hdr Q' = hdr Q -> node_is Q' false (<[j := k']> (l_keys qn)) (l_vals qn) ->
  (forall y, y ∈ offs U -> y <> l_off qn -> fd' !! y = fd !! y) -> NoDup (offs U) ->
  low_ok fd' (A ++ b1 :: b2 :: B) Ds -> space (offs U ++ offs ((A ++ b1 :: b2 :: B) :: Ds)) fs fr ->
  lvl = Z.of_nat (length U) + Z.of_nat (length ((A ++ b1 :: b2 :: B) :: Ds)) ->
  exists Ls, tree_inv Ls (mkView ∅ None fd' lvl root fs fr) /\
    contents Ls = contents ((A ++ b1 :: b2 :: B) :: Ds).
Proof.
  intros Hu [-> Hk1 Hk2 HA HB Hkey Hlow Hp1 Hp2 Hfd Hh Hni Hw] Hseg Hfill Hid1 Hid2 Hb1 Hb2 HsAB HQ' HhQ' HnQ' HsU Hnd Hlo Hs Hl.
  set (qn' := mkL (l_off qn) (l_par qn) (l_low qn) (<[j := k']> (l_keys qn)) (l_vals qn)).
  destruct Hu as (_ & [Hseg2 Hfill2] & Hu2).
  rewrite offs_cons in Hnd, HsU. apply NoDup_app in Hnd as (Hnd1 & Hnd2 & _).
  assert (kid qn' = take j (kid qn) ++ id_of b1 :: id_of b2 :: drop (S (S j)) (kid qn)) as Hkid.
  { rewrite kid_kid_of in *. unfold qn'. cbn [l_off l_low l_keys l_vals].
    rewrite (kid_of_insert _ _ _ _ _ _ (l_off a2) (l_low a2)).
    - rewrite (insert_mid _ _ _ _ _ Hk1 Hk2), Hid1, Hid2. done.
    - done.
    - rewrite Hk2. unfold id_of. by rewrite Hp2. }
  exists (rev_append ((A2 ++ qn' :: B2) :: U2) ((A ++ b1 :: b2 :: B) :: Ds)). split; [|apply contents_rev_append].
  eapply (rebuild _ _ _ (ids (A ++ b1 :: b2 :: B))).
  - split_and!.
    + rewrite kids_app, kids_cons, Hkid, ids_app, !ids_cons, HA, HB, <- !app_assoc. done.
    + split.
      * eapply seg_replace; [exact Hseg2| |done|].
        -- intros y Hy. rewrite offs_middle in Hnd1. apply NoDup_cons in Hnd1 as [Hnd1 _]. apply HsU.
           ++ rewrite elem_of_app, offs_middle. left. by right.
           ++ by intros ->.
        -- exists Q'. simpl. split_and!; [done| |done]. by rewrite HhQ'.
      * apply Forall_app in Hfill2 as [? Hf]. inversion_clear Hf. apply Forall_app. split; [done|]. by constructor.
    + rewrite ids_app, ids_cons. rewrite ids_app, ids_cons in Hu2. eapply up_same; [|exact Hu2].
      intros y Hy. apply HsU; [rewrite elem_of_app; auto|]. intros ->. apply (Hnd2 (l_off qn)); [|done].
      rewrite offs_middle. by left.
  - apply down_ok_intro; [|done]. split; [|done]. apply seg_app in Hseg as (HgA & _ & _ & HgB).
    apply same_on_app in HsAB as [HsA HsB].
    assert (l_off b1 = l_off a1 /\ l_off b2 = l_off a2) as [Ho1 Ho2] by (unfold id_of, mk_id in *; split; congruence).
    apply seg_two; rewrite ?Ho1, ?Ho2; [by eapply seg_same|done|done|by eapply seg_same].
  - eapply space_perm; [|exact Hs]. rewrite !(offs_cons _ U2), !offs_middle. done.
  - rewrite Hl. done.
Qed.

(** ** The hole a merge leaves *)

(** The levels [U] still have the child [c] after [x]; the level below no
    longer has its node, and its block is free. *)
Record dhole U (X : list ident) (p x : Z) (lo : bound) (c k : Z) (Y : list ident) D Ds
    fd (lvl root fs : Z) (fr : list Z) : Prop := {
  dh_up : up_ok fd root U (X ++ mk_id p x lo :: mk_id p c (Fin k) :: Y);
  dh_down : down_ok fd false (X ++ mk_id p x lo :: Y) (D :: Ds);
  dh_lows : lows_ok (X ++ mk_id p x lo :: mk_id p c (Fin k) :: Y);
  dh_space : space (offs U ++ offs (D :: Ds)) fs fr;
  dh_level : lvl = Z.of_nat (length U) + Z.of_nat (length (D :: Ds))
}.

Lemma merge_dhole fd fd' root U A a1 a2 b1 B A2 qn B2 U2 j k Q Ds fs fr lvl :
  up_ok fd root U (ids (A ++ a1 :: a2 :: B)) -> pair_at fd U A a1 a2 B A2 qn B2 U2 j k Q ->
  seg fd (is_nil Ds) INV (A ++ a1 :: a2 :: B) INV ->
  Forall (filled (is_nil Ds) false) (A ++ b1 :: B) -> id_of b1 = id_of a1 ->
  blk fd' (is_nil Ds) b1 (last_off INV A) (hd_off B INV) ->
  same_on fd fd' (offs_of A) -> same_on (relink (set_prev (l_off a1)) (hd_off B INV) fd) fd' (offs_of B) ->
  NoDup (offs_of B) -> Forall (fun y => y <> INV) (offs_of B) -> same_on fd fd' (offs U) ->
  low_ok fd' (A ++ b1 :: B) Ds -> lows_ok (ids (A ++ a1 :: a2 :: B)) ->
  space (offs U ++ offs ((A ++ b1 :: B) :: Ds)) fs fr ->
  lvl = Z.of_nat (length U) + Z.of_nat (length ((A ++ b1 :: B) :: Ds)) ->
  dhole U (ids A) (l_off qn) (l_off a1) (l_low a1) (l_off a2) k (ids B) (A ++ b1 :: B) Ds fd' lvl root fs fr.
Proof.
  intros Hu Hpr Hseg Hfill Hid Hb HsA HsB HndB HvB HsU Hlow Hlows Hs Hl.
  destruct Hpr as [_ _ _ _ _ _ Hl2 Hp1 Hp2 _ _ _ _].
  assert (l_off b1 = l_off a1) as Ho by (unfold id_of in Hid; congruence).
  rewrite ids_app, !ids_cons in Hu, Hlows. unfold id_of at 1 2 in Hu. unfold id_of at 1 2 in Hlows. rewrite Hp1, Hp2, Hl2 in Hu, Hlows.
  split; [| |done|done|done].
  - by eapply up_same.
  - assert (ids A ++ mk_id (l_off qn) (l_off a1) (l_low a1) :: ids B = ids (A ++ b1 :: B)) as ->.
    { rewrite ids_app, ids_cons, Hid. unfold id_of. by rewrite Hp1. }
    apply down_ok_intro; [|done]. split; [|done]. apply seg_app in Hseg as (HgA & _ & _ & HgB). apply seg_app. simpl.
    rewrite Ho. split_and!; [by eapply seg_same|done|by eapply (seg_relinked_prev fd)].
Qed.

(** ** Non-leaf nodes: the children after the removal *)

Definition removed (nd : lnode) (rm : nat) : lnode :=
  mkL (l_off nd) (l_par nd) (l_low nd) (list_del rm (l_keys nd)) (list_del (S rm) (l_vals nd)).

Lemma kid_of_del p lo ks vs i :
  length vs = S (length ks) -> (i < length ks)%nat ->
  kid_of p lo (list_del i ks) (list_del (S i) vs) = list_del (S i) (kid_of p lo ks vs).
Proof.
  intros Hl Hi. unfold kid_of, list_del. rewrite fmap_app, fmap_take, fmap_drop.
  set (bs := Fin <$> ks). assert (length bs = length ks) by apply length_fmap.
  rewrite zip_with_take, zip_with_drop, app_comm_cons.
  change (lo :: take i bs) with (take (S i) (lo :: bs)).
  change (drop (S i) bs) with (drop (S (S i)) (lo :: bs)).
  apply zip_with_app. rewrite !length_take, length_cons. lia.
Qed.

(** The node with the hole. *)
Record rparent_at A (nd : lnode) B (rm : nat) (N : bplus_node) D (p : Z) fd : Prop := {
  rp_off : l_off nd = p;
  rp_wide : wide nd;
  rp_pos : (rm < length (l_keys nd))%nat;
  rp_sorted : sorted (l_keys nd);
  rp_ids : ids D = kids (A ++ removed nd rm :: B);
  rp_fd : fd !! p = Some N;
  rp_hdr : hdr N = (p, l_par nd, last_off INV A, hd_off B INV);
  rp_node : node_is N false (l_keys nd) (l_vals nd)
}.

Lemma pair_rparent fd fd' U A a1 a2 B A2 qn B2 U2 j k Q D Ds lvl root fs fr :
  pair_at fd U A a1 a2 B A2 qn B2 U2 j k Q ->
  dhole U (ids A) (l_off qn) (l_off a1) (l_low a1) (l_off a2) k (ids B) D Ds fd' lvl root fs fr ->
  fd' !! l_off qn = Some Q -> rparent_at A2 qn B2 j Q D (l_off qn) fd'.
Proof.
  intros [HU Hk1 Hk2 HA HB Hkey _ Hp1 _ _ Hh Hni Hw] [Hu Hd Hlows _ _] HQ. rewrite HU in Hu. destruct Hu as (HX & Hl & _).
  pose proof (lookup_lt_Some _ _ _ Hkey) as Hj. split; try done.
  - rewrite HX in Hlows. apply lows_kids_asc in Hlows; [|by eapply lvl_wide].
    by apply asc_app in Hlows as (_ & ? & _).
  - destruct Hd as (<- & _). rewrite kids_app, kids_cons. rewrite (kid_kid_of (removed _ _)).
    unfold removed. cbn [l_off l_low l_keys l_vals]. rewrite kid_of_del by done.
    rewrite <- kid_kid_of. unfold list_del. rewrite (take_S_r _ _ _ Hk1), HA, HB, <- !app_assoc.
    simpl. unfold id_of. by rewrite Hp1.
Qed.

(** ** The level below, with some nodes under another parent *)

Lemma low_moved fd fd' o cs D Ds lv' :
  down_ok fd false (ids D) (D :: Ds) ->
  (forall y, y ∈ offs_of D -> fd' !! y = if decide (y ∈ cs) then set_parent o <$> fd !! y else fd !! y) ->
  same_on fd fd' (offs Ds) -> reid o cs <$> ids D = kids lv' ->
  low_ok fd' lv' ((redad o cs <$> D) :: Ds).
Proof.
  intros Hd H1 H2 Hk. unfold low_ok. rewrite <- Hk, <- ids_redad.
  eapply down_moved; [by apply moved_redad|done|exact Hd].
Qed.

Lemma reid_move o p lo ks vs P S :
  length vs = Datatypes.S (length ks) -> NoDup (id_off <$> (P ++ kid_of p lo ks vs ++ S)) ->
  reid o vs <$> (P ++ kid_of p lo ks vs ++ S) = P ++ kid_of o lo ks vs ++ S.
Proof.
  intros Hl Hnd. rewrite !fmap_app, kid_of_offs in Hnd by done.
  apply NoDup_app in Hnd as (_ & HnP & Hnd). apply NoDup_app in Hnd as (_ & HnV & _).
  rewrite !fmap_app. f_equal; [|f_equal].
  - apply reid_out. intros x Hx Hc. apply (HnP x Hx). rewrite elem_of_app. auto.
  - by apply reid_in.
  - apply reid_out. intros x Hx Hc. by apply (HnV x Hc).
Qed.

(** The blocks of two siblings, of the other nodes and of the other levels. *)
Record apart A (a1 a2 : lnode) B U Es : Prop := {
  ap_ne : l_off a1 <> l_off a2;
  ap_valid1 : l_off a1 <> INV;
  ap_valid2 : l_off a2 <> INV;
  ap_validB : Forall (fun y => y <> INV) (offs_of B);
  ap_level : forall y, y ∈ offs_of A ++ offs_of B -> y <> l_off a1 /\ y <> l_off a2 /\ (y ∉ offs U) /\ (y ∉ offs Es);
  ap_up : forall y, y ∈ offs U -> y <> INV /\ y <> l_off a1 /\ y <> l_off a2 /\ y ∉ offs Es;
  ap_down : forall y, y ∈ offs Es -> y <> INV /\ y <> l_off a1 /\ y <> l_off a2 /\ y ∉ offs U;
  ap_NoDupA : NoDup (offs_of A ++ offs_of B);
  ap_NoDupB : NoDup (offs_of B);
  ap_NoDupU : NoDup (offs U);
  ap_NoDupE : NoDup (offs Es)
}.

Lemma space_apart A a1 a2 B U Es fs fr :
  space (offs ((A ++ a1 :: a2 :: B) :: U) ++ offs Es) fs fr -> apart A a1 a2 B U Es.
Proof.
  intros Hs. pose proof (space_NoDup _ _ _ Hs) as Hnd. pose proof (space_valid_all _ _ _ Hs) as Hv.
  rewrite offs_cons in Hnd, Hv. rewrite (offs_split A a1 a2 a1 B (l_off a2)) in Hnd, Hv by auto.
  rewrite offs_middle in Hnd, Hv. rewrite <- app_assoc in Hnd, Hv. rewrite <- !app_comm_cons in Hnd, Hv.
  apply NoDup_cons in Hnd as [Hn2 Hnd]. apply NoDup_cons in Hnd as [Hn1 Hnd].
  inversion_clear Hv as [|? ? Hv2 Hv']. inversion_clear Hv' as [|? ? Hv1 Hv].
  apply NoDup_app in Hnd as (HnL & HnLU & HnU). apply NoDup_app in HnU as (HnU & HnUE & HnE).
  apply Forall_app in Hv as [HvL HvU]. apply Forall_app in HvU as [HvU HvE]. apply Forall_app in HvL as [_ HvB].
  rewrite Forall_forall in HvU, HvE. rewrite elem_of_cons, !elem_of_app in Hn2. rewrite !elem_of_app in Hn1.
  split; try done.
  - intros E. apply Hn2. by left.
  - intros y Hy. specialize (HnLU y Hy). rewrite elem_of_app in HnLU. rewrite elem_of_app in Hy.
    split_and!; [intros ->; tauto|intros ->; tauto|tauto|tauto].
  - intros y Hy. specialize (HnUE y Hy). split_and!; [by apply HvU|intros ->; tauto|intros ->; tauto|done].
  - intros y Hy. split_and!; [by apply HvE|intros ->; tauto|intros ->; tauto|]. intros Hy'. by apply (HnUE y Hy').
  - by apply NoDup_app in HnL as (_ & _ & ?).
Qed.
End remove.
