(* ===== verification/BPlusSibling.v ===== *)
(** * Choosing the sibling of a node that got too small *)

From S2P Require Import Prelude BPlusTree BPlusOps BPlusView BPlusNode BPlusEdit BPlusEditIns BPlusEditSplit BPlusEditDel BPlusLevels BPlusInv BPlusSearch BPlusClimb BPlusRemove.

Section sibling.
Context `{Hcfg : ConfigOk}.

Abbreviation cap := (Z.to_nat _max_entries).
Abbreviation INV := INVALID_OFFSET.

Implicit Types fd : gmap Z bplus_node.
Implicit Types A B D lv : list lnode.
Implicit Types U Ds : list (list lnode).

Lemma seg_link_prev fd lf A nd B :
  seg fd lf INV (A ++ nd :: B) INV -> link_at fd (last_off INV A).
Proof.
  intros Hs Hi. destruct (last_off_in INV A) as [?|Hin]; [done|]. eapply seg_self; [exact Hs|].
  rewrite offs_middle. right. rewrite elem_of_app. by left.
Qed.
Lemma seg_link_next fd lf A nd B :
  seg fd lf INV (A ++ nd :: B) INV -> link_at fd (hd_off B INV).
Proof.
  intros Hs Hi. destruct (hd_off_in B INV) as [?|Hin]; [done|]. eapply seg_self; [exact Hs|].
  rewrite offs_middle. right. rewrite elem_of_app. by right.
Qed.

(** The buffers while the node, its neighbours and its parent are in the
    cache. *)
Definition with_left (node : nat) (N : bplus_node) (pl : nat) (L : bplus_node)
    (r : option (nat * bplus_node)) (pb : nat) (Q : bplus_node) : gmap nat bplus_node :=
  <[pb := Q]> (ins_opt r (<[pl := L]> (<[node := N]> ∅))).
Definition with_right (node : nat) (N : bplus_node) (pr : nat) (R : bplus_node)
    (l : option (nat * bplus_node)) (pb : nat) (Q : bplus_node) : gmap nat bplus_node :=
  <[pb := Q]> (<[pr := R]> (ins_opt l (<[node := N]> ∅))).

Definition opt_ne (r : option (nat * bplus_node)) (p : nat) : Prop :=
  match r with Some (q, _) => q <> p | None => True end.

Lemma lookup_ins_opt r mem p x : opt_ne r p -> mem !! p = Some x -> ins_opt r mem !! p = Some x.
Proof. destruct r as [[q M]|]; [|done]. simpl. intros. by rewrite lookup_insert_ne. Qed.

Lemma fetched_ne fd o mem r p x : fetched fd o mem r -> mem !! p = Some x -> opt_ne r p.
Proof. destruct r as [[q M]|]; [|done]. simpl. intros (_ & _ & _ & Hn) Hp ->. congruence. Qed.

Lemma fetched_empty fd o mem r : fetched fd o mem r -> fetched fd o ∅ r.
Proof. destruct r as [[q M]|]; [|done]. intros (? & ? & ? & _). by split_and!. Qed.

Lemma None_opt_ne r mem p : ins_opt r mem !! p = None -> opt_ne r p /\ mem !! p = None.
Proof.
  destruct r as [[q M]|]; [|done]. simpl. rewrite lookup_insert. case_decide; [done|]. auto.
Qed.

Lemma size_ins_opt r mem n : (size mem < n)%nat -> (size (ins_opt r mem) < S n)%nat.
Proof. destruct r as [[q M]|]; simpl; [apply size_insert_lt|lia]. Qed.

Section neighbours.
Context (fd : gmap Z bplus_node) (U : list (list lnode)) (A : list lnode) (nd : lnode) (B : list lnode).
Context (A2 : list lnode) (qn : lnode) (B2 : list lnode) (U2 : list (list lnode)) (jj : nat) (Q N : bplus_node).
Context (lf : bool) (node : nat) (k0 : Z).
Context (Hca : child_at fd U A nd B A2 qn B2 U2 jj Q).
Context (Hseg : seg fd lf INV (A ++ nd :: B) INV) (Hq : l_off qn <> INV).
Context (HhN : hdr N = (l_off nd, l_par nd, last_off INV A, hd_off B INV)).
Context (HnN : node_is N lf (l_keys nd) (l_vals nd)).
Context (Hk0 : l_keys nd !! 0%nat = Some k0).
Context (Hlo : ble (l_low nd) (Fin k0)) (Hhi : blt (Fin k0) (hd_low B PInf)).
Context (Hwq : (2 <= length (l_vals qn))%nat).
Context (Hval : forall a, a ∈ A ++ B -> l_off a <> INV).

Lemma awp_neighbours {R} (K : option nat -> option nat -> nat -> Z -> Z -> T R) Qp lvl rt fs fr :
  (forall A0 al k pl L r pb, A = A0 ++ [al] -> (0 < jj)%nat -> pair_at fd U A0 al nd B A2 qn B2 U2 (jj - 1) k Q ->
     fd !! l_off al = Some L -> hdr L = (l_off al, l_par al, last_off INV A0, l_off nd) -> node_is L lf (l_keys al) (l_vals al) ->
     fetched fd (hd_off B INV) ∅ r -> opt_ne r node -> opt_ne r pl -> opt_ne r pb -> pl <> node -> pb <> node -> pb <> pl ->
     awp (K (Some pl) (fst <$> r) pb (Z.of_nat (jj - 1)) LEFT_SIBLING) Qp
       (mkView (with_left node N pl L r pb Q) None fd lvl rt fs fr)) ->
  (forall br B0 k pr Rn l pb, B = br :: B0 -> pair_at fd U A nd br B0 A2 qn B2 U2 jj k Q ->
     fd !! l_off br = Some Rn -> hdr Rn = (l_off br, l_par br, l_off nd, hd_off B0 INV) -> node_is Rn lf (l_keys br) (l_vals br) ->
     fetched fd (last_off INV A) ∅ l -> opt_ne l node -> opt_ne l pr -> opt_ne l pb -> pr <> node -> pb <> node -> pb <> pr ->
     awp (K (fst <$> l) (Some pr) pb (Z.of_nat jj - 1) RIGHT_SIBLING) Qp
       (mkView (with_right node N pr Rn l pb Q) None fd lvl rt fs fr)) ->
  awp (l_sib <- node_fetch (n_prev N) ;; r_sib <- node_fetch (n_next N) ;;
       parentp <- node_fetch (n_parent N) ;; k0 <- key_at node 0 ;; parent <- deref parentp ;;
       pn <- get_node parent ;; i <- lift (parent_key_index pn k0) ;;
       sel <- sibling_select l_sib r_sib parent i ;; K l_sib r_sib parent i sel) Qp
    (mkView (<[node := N]> ∅) None fd lvl rt fs fr).
Proof.
  intros HL HR. assert (n_prev N = last_off INV A /\ n_next N = hd_off B INV /\ n_parent N = l_off qn) as (-> & -> & ->).
  { pose proof (ca_par _ _ _ _ _ _ _ _ _ _ _ Hca). unfold hdr in HhN. split_and!; congruence. }
  apply awp_bind. eapply awp_fetch_link; [by eapply seg_link_prev|mem_small|]. intros l Hl.
  apply awp_bind. eapply awp_fetch_link; [by eapply seg_link_next|apply size_ins_opt; mem_small|]. intros r Hr.
  apply awp_bind. eapply awp_node_fetch; [done|apply Hca|do 2 apply size_ins_opt; mem_small|]. intros pb Hpb.
  view_simpl_in Hpb. view_simpl.
  pose proof (ca_index _ _ _ _ _ _ _ _ _ _ _ Hca k0 Hlo Hhi) as Hidx.
  pose proof (ca_bound _ _ _ _ _ _ _ _ _ _ _ Hca) as Hjb. pose proof (ca_wide _ _ _ _ _ _ _ _ _ _ _ Hca) as Hw. unfold wide in Hw.
  pose proof (fetched_ne _ _ _ _ node N Hl) as Hln. rewrite lookup_insert_eq in Hln. specialize (Hln eq_refl).
  pose proof (lookup_ins_opt l (<[node := N]> ∅) node N Hln (lookup_insert_eq _ _ _)) as Hmn.
  pose proof (fetched_ne _ _ _ _ node N Hr Hmn) as Hrn.
  apply None_opt_ne in Hpb as [Hrp Hpb]. apply None_opt_ne in Hpb as [Hlp Hpb].
  assert (pb <> node) as Hpn by (intros ->; by rewrite lookup_insert_eq in Hpb).
  pose proof (ni_len _ _ _ _ HnN) as HlN. pose proof (ni_cap _ _ _ _ HnN) as HcN. pose proof (lookup_lt_Some _ _ _ Hk0) as Hlt.
  assert ((0 < jj)%nat -> awp (K (fst <$> l) (fst <$> r) pb (Z.of_nat jj - 1) LEFT_SIBLING) Qp
    (mkView (<[pb := Q]> (ins_opt r (ins_opt l (<[node := N]> ∅)))) None fd lvl rt fs fr)) as HLEFT.
  { intros Hj. destruct (child_pair_left _ _ _ _ _ _ _ _ _ _ _ Hca Hj) as (A0 & al & k & HA & Hpr). rewrite HA in Hl, Hseg.
    rewrite last_off_snoc in Hl. rewrite <- app_assoc in Hseg. pose proof (seg_blk _ _ _ _ _ _ _ Hseg) as (L & HL' & HhL & HnL).
    destruct l as [[pl L0]|]; cycle 1.
    { exfalso. apply (Hval al); [|done]. rewrite HA, !elem_of_app. left; right. by left. }
    destruct Hl as (_ & Hl0 & _ & Hl1). assert (L0 = L) as -> by congruence. replace (Z.of_nat jj - 1) with (Z.of_nat (jj - 1)) by lia.
    simpl in Hln, Hlp. apply (HL A0 al k pl L r pb); try done; [by eapply fetched_empty|].
    eapply (fetched_ne _ _ _ _ pl L Hr). simpl. by rewrite lookup_insert_eq. }
  assert ((jj < length (l_keys qn))%nat -> awp (K (fst <$> l) (fst <$> r) pb (Z.of_nat jj - 1) RIGHT_SIBLING) Qp
    (mkView (<[pb := Q]> (ins_opt r (ins_opt l (<[node := N]> ∅)))) None fd lvl rt fs fr)) as HRIGHT.
  { intros Hj. destruct (child_pair_right _ _ _ _ _ _ _ _ _ _ _ Hca Hj) as (br & B0 & k & HB & Hpr). rewrite HB in Hr, Hseg.
    rewrite cons_middle, app_assoc in Hseg. pose proof (seg_blk _ _ _ _ _ _ _ Hseg) as (Rn & HR' & HhR & HnR).
    rewrite last_off_snoc in HhR. simpl in Hr.
    destruct r as [[pr R0]|]; cycle 1.
    { exfalso. apply (Hval br); [|done]. rewrite HB, elem_of_app. right. by left. }
    destruct Hr as (_ & Hr0 & _ & Hr1). assert (R0 = Rn) as -> by congruence.
    apply None_opt_ne in Hr1 as [Hlr Hr1]. simpl in Hrn, Hrp.
    apply (HR br B0 k pr Rn l pb); try done. by eapply fetched_empty. }
  apply awp_bind. eapply (awp_key_at _ _ N k0).
  { view_simpl. rewrite lookup_insert_ne by done. by apply lookup_ins_opt. }
  { rewrite (ni_key_cap _ _ _ _ HnN). destruct lf; lia. }
  { change (Z.to_nat 0) with 0%nat. by rewrite (ni_key_lookup _ _ _ _ _ HnN). }
  apply awp_bind. apply awp_ret. apply awp_bind. eapply awp_get_node; [view_simpl; by rewrite lookup_insert_eq|].
  apply awp_bind. eapply awp_lift; [eapply parent_key_index_ok; [apply Hca|apply Hca]|]. rewrite Hidx.
  apply awp_bind. eapply awp_sibling_select_end; [by rewrite lookup_insert_eq|..];
    rewrite ?(ni_children _ _ _ _ (ca_node _ _ _ _ _ _ _ _ _ _ _ Hca)).
  - intros Hj. apply HRIGHT. lia.
  - intros Hj1 Hj2. apply HLEFT. lia.
  - intros Hj1 Hj2. assert (0 < jj)%nat as Hj3 by lia. assert (jj < length (l_keys qn))%nat as Hj4 by lia.
    destruct (child_pair_left _ _ _ _ _ _ _ _ _ _ _ Hca Hj3) as (A0 & al & k & HA & _).
    destruct (child_pair_right _ _ _ _ _ _ _ _ _ _ _ Hca Hj4) as (br & B0 & k' & HB & _).
    destruct l as [[pl L]|]; [|exfalso; rewrite HA, last_off_snoc in Hl; apply (Hval al); [rewrite HA, !elem_of_app; left; right; by left|done]].
    destruct r as [[pr R0]|]; [|exfalso; rewrite HB in Hr; apply (Hval br); [rewrite HB, elem_of_app; right; by left|done]].
    simpl in Hrn, Hrp, Hln, Hlp. pose proof (fetched_ne _ _ _ _ pl L Hr) as Hrl. simpl in Hrl. rewrite lookup_insert_eq in Hrl. specialize (Hrl eq_refl).
    exists pl, L, pr, R0. split_and!; [done|done| | |].
    + simpl. by rewrite !lookup_insert_ne, lookup_insert_eq by auto.
    + simpl. by rewrite lookup_insert_ne, lookup_insert_eq by auto.
    + intros sel [->| ->]; [by apply HLEFT|by apply HRIGHT].
Qed.
End neighbours.
End sibling.
