(* ===== verification/BPlusDelClimb.v ===== *)
(** * [non_leaf_remove]: closing the hole a merge leaves, level by level *)

From S2P Require Import Prelude BPlusTree BPlusOps BPlusView BPlusNode BPlusEdit BPlusEditIns BPlusEditSplit BPlusEditDel BPlusLevels BPlusInv BPlusSearch BPlusClimb BPlusRemove BPlusSibling.

Section delclimb.
Context `{Hcfg : ConfigOk}.

Abbreviation cap := (Z.to_nat _max_entries).
Abbreviation INV := INVALID_OFFSET.

Implicit Types fd : gmap Z bplus_node.
Implicit Types A B D lv : list lnode.
Implicit Types U Ds : list (list lnode).

(** The tree is whole again, with the same entries. *)
Definition shut D Ds (a : cview) : Prop :=
  exists Ls, tree_inv Ls a /\ contents Ls = contents (D :: Ds).

Lemma down_top fd I Ds : down_ok fd false I Ds -> down_ok fd true I Ds.
Proof.
  destruct Ds as [|lv Ds]; [done|]. intros (-> & [Hs Hf] & Hd). split_and!; [done| |done].
  split; [done|]. eapply Forall_impl; [exact Hf|]. unfold filled, min_fill.
  pose proof lsplit_bounds. pose proof nsplit_bounds. intros a. destruct (is_nil Ds); lia.
Qed.

Section step.
Context (A : list lnode) (nd : lnode) (B : list lnode) (U : list (list lnode)).
Context (X : list ident) (p x : Z) (lo : bound) (c k : Z) (Y : list ident) (D : list lnode) (Ds : list (list lnode)).
Context (fd : gmap Z bplus_node) (lvl root fs : Z) (fr : list Z) (rm : nat) (N : bplus_node).
Context (Hh : dhole ((A ++ nd :: B) :: U) X p x lo c k Y D Ds fd lvl root fs fr).
Context (Hrp : rparent_at A nd B rm N D p fd).

Lemma rm_seg : seg fd false INV (A ++ nd :: B) INV.
Proof. destruct Hh as [(_ & [? _] & _) _ _ _ _]. done. Qed.
Lemma rm_up : up_ok fd root U (ids (A ++ nd :: B)).
Proof. destruct Hh as [(_ & _ & ?) _ _ _ _]. done. Qed.
Lemma rm_fill : Forall (filled false (is_nil U)) (A ++ nd :: B).
Proof. destruct Hh as [(_ & [_ ?] & _) _ _ _ _]. done. Qed.
Lemma rm_down : down_ok fd false (ids D) (D :: Ds).
Proof. destruct Hh as [_ Hd _ _ _]. pose proof Hd as (HI & _). by rewrite HI in Hd. Qed.

Lemma rm_asc : asc (A ++ nd :: B) PInf.
Proof.
  destruct Hh as [(HX & Hl & _) _ Hlows _ _]. rewrite HX in Hlows. apply lows_kids_asc; [done|by eapply lvl_wide].
Qed.

Lemma rm_lows : lows_ok (ids (A ++ nd :: B)).
Proof.
  apply (asc_lows _ PInf); [apply rm_asc|]. eapply lvl_nonempty. split; [apply rm_seg|apply rm_fill].
Qed.

Lemma rm_len : length (l_vals (removed nd rm)) = (length (l_vals nd) - 1)%nat.
Proof.
  destruct Hrp as [_ Hw Hp _ _ _ _ _]. unfold wide in Hw. simpl. unfold list_del.
  rewrite length_app, length_take, length_drop. lia.
Qed.

(** The blocks of this level and of the others. *)
Lemma rm_ne :
  (forall y, y ∈ offs_of A ++ offs_of B -> y <> p) /\ (forall y, y ∈ offs U -> y <> p) /\
  (forall y, y ∈ offs (D :: Ds) -> y <> p) /\ p <> INV.
Proof.
  pose proof (dh_space _ _ _ _ _ _ _ _ _ _ _ _ _ _ _ Hh) as Hs. pose proof (space_valid_all _ _ _ Hs) as Hv.
  apply space_NoDup in Hs. rewrite offs_cons, offs_middle, (rp_off _ _ _ _ _ _ _ _ Hrp) in Hs, Hv.
  rewrite <- app_assoc, <- app_comm_cons in Hs, Hv. apply NoDup_cons in Hs as [Hs _]. inversion_clear Hv as [|? ? Hv0 _].
  rewrite !elem_of_app in Hs. split_and!; [..|done].
  - intros y Hy ->. rewrite elem_of_app in Hy. tauto.
  - intros y Hy ->. tauto.
  - intros y Hy ->. tauto.
Qed.

(** The child is dropped from the node. *)
Lemma rm_simple N' :
  hdr N' = hdr N -> node_is N' false (list_del rm (l_keys nd)) (list_del (S rm) (l_vals nd)) ->
  filled false (is_nil U) (removed nd rm) ->
  shut D Ds (mkView ∅ None (<[p := N']> fd) lvl root fs fr).
Proof.
  intros HhN Hni Hf. destruct rm_ne as (Hn1 & Hn2 & Hn3 & _).
  assert (forall os, (forall y, y ∈ os -> y <> p) -> same_on fd (<[p := N']> fd) os) as Hsame.
  { intros os Hos y Hy. apply lookup_insert_ne. intros <-. by apply (Hos p). }
  exists (rev_append U ((A ++ removed nd rm :: B) :: D :: Ds)). split; [|by rewrite contents_rev_append].
  eapply (close_one fd); [apply rm_up|apply rm_seg| |done| |by apply Hsame|by apply Hsame| | |].
  - pose proof rm_fill as Hfl. apply Forall_app in Hfl as [? Hfl]. inversion_clear Hfl.
    apply Forall_app. split; [done|]. by constructor.
  - exists N'. simpl. rewrite (rp_off _ _ _ _ _ _ _ _ Hrp), lookup_insert_eq. split_and!; [done| |done].
    rewrite HhN. apply Hrp.
  - unfold low_ok. rewrite <- (rp_ids _ _ _ _ _ _ _ _ Hrp). eapply down_same; [|apply rm_down]. by apply Hsame.
  - eapply space_perm; [|apply Hh]. apply Permutation_app_tail, offs_shift; [|done]. by rewrite !offs_middle.
  - rewrite (dh_level _ _ _ _ _ _ _ _ _ _ _ _ _ _ _ Hh). simpl. lia.
Qed.

(** The root with a single child left: the child is the root. *)
Lemma rm_root M :
  U = [] -> length (l_vals nd) = 2%nat -> l_vals nd !! 0%nat = Some x -> fd !! x = Some M -> n_self M = x ->
  shut D Ds (mkView ∅ None (<[x := set_parent INV M]> fd) (lvl - 1) x fs (fr ++ [p])).
Proof.
  intros HU Hl2 Hx HM HMs. destruct rm_ne as (_ & _ & Hn3 & _). pose proof rm_up as Hu. rewrite HU in Hu. simpl in Hu.
  pose proof rm_down as Hdown. pose proof (dh_space _ _ _ _ _ _ _ _ _ _ _ _ _ _ _ Hh) as Hs.
  pose proof (dh_level _ _ _ _ _ _ _ _ _ _ _ _ _ _ _ Hh) as Hlv.
  destruct Hrp as [Hoff Hw Hpos _ Hids _ _ _]. unfold wide in Hw. assert (rm = 0%nat) as Hrm by lia. rewrite Hrm in Hids.
  assert (A = [] /\ B = []) as [HA HB] by (rewrite ids_app, ids_cons in Hu; destruct A as [|? [|]], B; by simplify_eq/=).
  rewrite HA, HB in Hu, Hs, Hids. rewrite HU in Hs, Hlv. simpl in Hu. unfold id_of, mk_id in Hu. injection Hu as _ _ Hlow.
  assert (ids D = [mk_id p x NInf]) as HD.
  { rewrite Hids. unfold kids. simpl. rewrite app_nil_r, kid_kid_of. unfold removed. simpl. rewrite Hlow, Hoff.
    destruct (l_vals nd) as [|v0 [|v1 [|]]]; simplify_eq/=. destruct (l_keys nd) as [|k0 [|]]; simplify_eq/=. done. }
  assert (offs_of D = [x]) as HoD by (by rewrite offs_of_ids, HD).
  assert (ids (redad INV [x] <$> D) = [mk_id INV x NInf]) as HD'.
  { rewrite ids_redad, HD. simpl. unfold reid. cbn. rewrite decide_True by (by left). done. }
  exists ((redad INV [x] <$> D) :: Ds). split; [|apply contents_redad].
  rewrite offs_cons in Hs. unfold offs_of at 1 in Hs. simpl in Hs. rewrite Hoff in Hs. apply space_free in Hs. pose proof (space_NoDup _ _ _ Hs) as Hnd.
  rewrite offs_cons in Hnd. apply NoDup_app in Hnd as (_ & Hnd & _). rewrite HoD in Hnd.
  apply (rebuild _ _ [] (ids (redad INV [x] <$> D))).
  - by rewrite HD'.
  - apply down_top. eapply down_moved; [| |exact Hdown].
    + apply moved_redad. intros y Hy. rewrite HoD in Hy. rewrite decide_True by done. apply list_elem_of_singleton in Hy as ->.
      by rewrite lookup_insert_eq, HM.
    + intros y Hy. apply lookup_insert_ne. intros <-. apply (Hnd x); [by left|done].
  - rewrite offs_cons, offs_redad. exact Hs.
  - rewrite Hlv. simpl. lia.
Qed.

(** ** The children after a shift or a merge *)

Lemma rm_NoDup : NoDup (id_off <$> ids D).
Proof.
  rewrite <- offs_of_ids. pose proof (space_NoDup _ _ _ (dh_space _ _ _ _ _ _ _ _ _ _ _ _ _ _ _ Hh)) as Hnd.
  apply NoDup_app in Hnd as (_ & _ & Hnd). rewrite offs_cons in Hnd. by apply NoDup_app in Hnd as [? _].
Qed.

Lemma rm_wide : wide (removed nd rm).
Proof.
  destruct Hrp as [_ Hw Hp _ _ _ _ _]. unfold wide in *. simpl. unfold list_del.
  rewrite !length_app, !length_take, !length_drop. lia.
Qed.

Lemma kids_shift_left A0 al kq k' v :
  A = A0 ++ [al] -> wide al -> l_low nd = Fin kq ->
  l_keys al !! (length (l_keys al) - 1)%nat = Some k' -> l_vals al !! length (l_keys al) = Some v ->
  (0 < length (l_keys al))%nat ->
  reid (l_off nd) [v] <$> ids D =
  kids (A0 ++ mkL (l_off al) (l_par al) (l_low al) (take (length (l_keys al) - 1) (l_keys al)) (take (length (l_keys al)) (l_vals al))
           :: mkL (l_off nd) (l_par nd) (Fin k') (kq :: list_del rm (l_keys nd)) (v :: list_del (S rm) (l_vals nd)) :: B).
Proof.
  intros HA Hw Hlow Hk Hv Hl. pose proof rm_NoDup as Hnd. pose proof (rp_ids _ _ _ _ _ _ _ _ Hrp) as Hids. unfold wide in Hw.
  set (n := length (l_keys al)) in *.
  assert (kid al = kid_of (l_off al) (l_low al) (take (n - 1) (l_keys al)) (take n (l_vals al)) ++ kid_of (l_off al) (Fin k') [] [v]) as Hal.
  { rewrite kid_kid_of, <- kid_of_app by (rewrite !length_take; lia). f_equal.
    - rewrite <- (take_S_r _ _ _ Hk). symmetry. apply take_ge. lia.
    - rewrite <- (take_S_r _ _ _ Hv). symmetry. apply take_ge. lia. }
  rewrite HA, <- app_assoc, kids_app in Hids. simpl in Hids. rewrite !kids_cons, Hal, <- app_assoc, (app_assoc (kids A0)) in Hids.
  rewrite Hids in *. rewrite reid_move by done. rewrite kids_app, !kids_cons, <- !app_assoc. do 2 f_equal.
  rewrite (app_assoc (kid_of _ _ _ _) (kid (removed nd rm))). f_equal.
  rewrite !kid_kid_of. unfold removed. cbn [l_off l_low l_keys l_vals]. rewrite Hlow.
  exact (eq_sym (kid_of_app (l_off nd) (Fin k') [] kq (list_del rm (l_keys nd)) [v] (list_del (S rm) (l_vals nd)) eq_refl)).
Qed.

Lemma kids_merge_left A0 al kq :
  A = A0 ++ [al] -> wide al -> l_low nd = Fin kq ->
  reid (l_off al) (list_del (S rm) (l_vals nd)) <$> ids D =
  kids (A0 ++ mkL (l_off al) (l_par al) (l_low al) (l_keys al ++ kq :: list_del rm (l_keys nd))
                  (l_vals al ++ list_del (S rm) (l_vals nd)) :: B).
Proof.
  intros HA Hw Hlow. pose proof rm_NoDup as Hnd. pose proof (rp_ids _ _ _ _ _ _ _ _ Hrp) as Hids. pose proof rm_wide as Hw'.
  rewrite HA, <- app_assoc, kids_app in Hids. simpl in Hids. rewrite !kids_cons, (app_assoc (kids A0)) in Hids.
  rewrite (kid_kid_of (removed nd rm)) in Hids. unfold removed, wide in *. cbn [l_off l_low l_keys l_vals] in Hids, Hw'.
  rewrite Hids in *. rewrite reid_move by done. rewrite kids_app, !kids_cons, <- !app_assoc, Hlow. f_equal.
  rewrite (kid_kid_of (mkL _ _ _ _ _)). cbn [l_off l_low l_keys l_vals]. rewrite kid_of_app by done.
  by rewrite <- app_assoc.
Qed.

Lemma kids_shift_right br B0 kq k' v :
  B = br :: B0 -> wide br -> l_low br = Fin kq -> l_keys br !! 0%nat = Some k' -> l_vals br !! 0%nat = Some v ->
  reid (l_off nd) [v] <$> ids D =
  kids (A ++ mkL (l_off nd) (l_par nd) (l_low nd) (list_del rm (l_keys nd) ++ [kq]) (list_del (S rm) (l_vals nd) ++ [v])
          :: mkL (l_off br) (l_par br) (Fin k') (drop 1 (l_keys br)) (drop 1 (l_vals br)) :: B0).
Proof.
  intros HB Hw Hlow Hk Hv. pose proof rm_NoDup as Hnd. pose proof (rp_ids _ _ _ _ _ _ _ _ Hrp) as Hids. pose proof rm_wide as Hw'.
  unfold wide in *.
  assert (kid br = kid_of (l_off br) (Fin kq) [] [v] ++ kid_of (l_off br) (Fin k') (drop 1 (l_keys br)) (drop 1 (l_vals br))) as Hbr.
  { rewrite kid_kid_of, Hlow, <- kid_of_app by done. destruct (l_keys br) as [|kk0 ks]; [done|]. destruct (l_vals br) as [|vv0 vs]; [done|].
    simplify_eq/=. rewrite !drop_0. done. }
  rewrite HB, kids_app, !kids_cons, Hbr, <- (app_assoc (kid_of (l_off br) _ _ _)), (app_assoc (kids A)) in Hids.
  rewrite Hids in *. rewrite reid_move by done. rewrite kids_app, !kids_cons, <- !app_assoc. f_equal.
  rewrite (kid_kid_of (mkL _ _ _ (_ ++ _) _)). cbn [l_off l_low l_keys l_vals]. simpl in Hw'. rewrite kid_of_app by done.
  by rewrite <- app_assoc.
Qed.

Lemma kids_merge_right br B0 kq :
  B = br :: B0 -> wide br -> l_low br = Fin kq ->
  reid (l_off nd) (l_vals br) <$> ids D =
  kids (A ++ mkL (l_off nd) (l_par nd) (l_low nd) (list_del rm (l_keys nd) ++ kq :: l_keys br)
                 (list_del (S rm) (l_vals nd) ++ l_vals br) :: B0).
Proof.
  intros HB Hw Hlow. pose proof rm_NoDup as Hnd. pose proof (rp_ids _ _ _ _ _ _ _ _ Hrp) as Hids. pose proof rm_wide as Hw'.
  unfold wide in *. rewrite HB, kids_app, !kids_cons, (kid_kid_of br), (app_assoc (kids A)) in Hids.
  rewrite Hids in *. rewrite reid_move by done. rewrite kids_app, !kids_cons, <- !app_assoc, Hlow. f_equal.
  rewrite (kid_kid_of (mkL _ _ _ _ _)). cbn [l_off l_low l_keys l_vals]. simpl in Hw'. rewrite kid_of_app by done.
  by rewrite <- app_assoc.
Qed.

(** ** Two siblings *)

Section pair.
Context (A' : list lnode) (a1 a2 : lnode) (B' : list lnode) (A2 : list lnode) (qn : lnode) (B2 : list lnode).
Context (U2 : list (list lnode)) (j : nat) (kq : Z) (Q : bplus_node) (o : Z) (cs : list Z).
Context (Hlv : A ++ nd :: B = A' ++ a1 :: a2 :: B').
Context (Hpr : pair_at fd U A' a1 a2 B' A2 qn B2 U2 j kq Q).
Context (Hcs : forall y, y ∈ cs -> y ∈ offs_of D).

Lemma pair_apart : apart A' a1 a2 B' U (D :: Ds).
Proof.
  eapply space_apart. rewrite <- Hlv. apply Hh.
Qed.

Lemma pair_q : l_off qn ∈ offs U.
Proof.
  destruct Hpr as [HU _ _ _ _ _ _ _ _ _ _ _ _]. rewrite HU, offs_cons, elem_of_app, offs_middle. left. by left.
Qed.

Lemma reparent_out y : y ∉ offs_of D -> reparent o cs fd !! y = fd !! y.
Proof. intros Hy. rewrite lookup_reparent, decide_False; [done|]. intros Hc. by apply Hy, Hcs. Qed.

Lemma pair_low fd' lv' :
  (forall y, y ∈ offs (D :: Ds) -> fd' !! y = reparent o cs fd !! y) ->
  reid o cs <$> ids D = kids lv' -> low_ok fd' lv' ((redad o cs <$> D) :: Ds).
Proof.
  intros Hfd' Hk. pose proof (ap_NoDupE _ _ _ _ _ _ pair_apart) as Hnd. rewrite offs_cons in Hnd, Hfd'.
  apply NoDup_app in Hnd as (_ & Hnd & _). eapply low_moved; [apply rm_down| | |done].
  - intros y Hy. rewrite Hfd', lookup_reparent by (rewrite elem_of_app; auto). done.
  - intros y Hy. rewrite Hfd' by (rewrite elem_of_app; auto). apply reparent_out. intros Hy'. by apply (Hnd y).
Qed.

Lemma pair_fill : Forall (filled false false) (A' ++ B').
Proof.
  pose proof rm_fill as Hf. assert (is_nil U = false) as HU by (by rewrite (pr_U _ _ _ _ _ _ _ _ _ _ _ _ _ Hpr)).
  rewrite HU, Hlv in Hf. apply Forall_app in Hf as [? Hf]. inversion_clear Hf as [|? ? _ Hf']. inversion_clear Hf'.
  by apply Forall_app.
Qed.

Lemma rm_shift b1 b2 k' Q' M1 M2 fd' :
  filled false false b1 -> filled false false b2 ->
  id_of b1 = id_of a1 -> id_of b2 = mk_id (l_off qn) (l_off a2) (Fin k') ->
  fd' !! l_off a1 = Some M1 -> hdr M1 = (l_off a1, l_par a1, last_off INV A', l_off a2) ->
  node_is M1 false (l_keys b1) (l_vals b1) ->
  fd' !! l_off a2 = Some M2 -> hdr M2 = (l_off a2, l_par a2, l_off a1, hd_off B' INV) ->
  node_is M2 false (l_keys b2) (l_vals b2) ->
  fd' !! l_off qn = Some Q' -> hdr Q' = hdr Q -> node_is Q' false (<[j := k']> (l_keys qn)) (l_vals qn) ->
  (forall y, y <> l_off a1 -> y <> l_off a2 -> y <> l_off qn -> fd' !! y = reparent o cs fd !! y) ->
  reid o cs <$> ids D = kids (A' ++ b1 :: b2 :: B') ->
  shut D Ds (mkView ∅ None fd' lvl root fs fr).
Proof.
  intros Hf1 Hf2 Hid1 Hid2 H1 Hh1 Hn1 H2 Hh2 Hn2 H3 Hh3 Hn3 Hsame Hk.
  pose proof pair_apart as Hap. pose proof pair_q as Hq. pose proof (pr_par2 _ _ _ _ _ _ _ _ _ _ _ _ _ Hpr) as Hp2.
  assert (l_off b1 = l_off a1 /\ l_par b1 = l_par a1) as [Ho1 Hp1] by (unfold id_of in Hid1; split; congruence).
  assert (l_off b2 = l_off a2 /\ l_par b2 = l_par a2) as [Ho2 Hp2'] by (unfold id_of, mk_id in Hid2; split; congruence).
  assert (forall y, y ∈ offs_of A' ++ offs_of B' -> fd' !! y = fd !! y) as HAB.
  { intros y Hy. destruct (ap_level _ _ _ _ _ _ Hap y Hy) as (? & ? & HyU & HyE). rewrite offs_cons, elem_of_app in HyE.
    rewrite Hsame; [apply reparent_out; tauto|done|done|by intros ->]. }
  assert (forall y, y ∈ offs U -> y <> l_off qn -> fd' !! y = fd !! y) as HsU.
  { intros y Hy Hyq. destruct (ap_up _ _ _ _ _ _ Hap y Hy) as (_ & ? & ? & HyE). rewrite offs_cons, elem_of_app in HyE.
    rewrite Hsame by done. apply reparent_out. tauto. }
  destruct (close_pair fd fd' root U A' a1 a2 b1 b2 B' A2 qn B2 U2 j kq k' Q Q' ((redad o cs <$> D) :: Ds) fs fr lvl)
    as (Ls & Hinv & Hc); try done.
  - rewrite <- Hlv. apply rm_up.
  - rewrite <- Hlv. apply rm_seg.
  - pose proof pair_fill as Hf. apply Forall_app in Hf as [? ?]. apply Forall_app. split; [done|]. by repeat constructor.
  - exists M1. by rewrite Ho1, Hp1.
  - exists M2. by rewrite Ho2, Hp2'.
  - apply Hap.
  - apply pair_low; [|done]. intros y Hy. destruct (ap_down _ _ _ _ _ _ Hap y Hy) as (_ & ? & ? & HyU).
    apply Hsame; [done|done|by intros ->].
  - pose proof (dh_space _ _ _ _ _ _ _ _ _ _ _ _ _ _ _ Hh) as Hs. rewrite Hlv in Hs. eapply space_perm; [|exact Hs].
    apply Permutation_app_tail, offs_shift; [|apply offs_redad_cons]. rewrite !(offs_split _ _ _ a1 _ (l_off a2)) by (rewrite ?Ho1, ?Ho2; auto). done.
  - rewrite (dh_level _ _ _ _ _ _ _ _ _ _ _ _ _ _ _ Hh). simpl. lia.
  - exists Ls. split; [done|]. rewrite Hc. unfold contents. simpl.
    pose proof (contents_redad o cs D Ds) as Hcr. unfold contents in Hcr. simpl in Hcr. done.
Qed.

Lemma rm_merge b1 M1 fd' :
  filled false false b1 -> id_of b1 = id_of a1 ->
  fd' !! l_off a1 = Some M1 -> hdr M1 = (l_off a1, l_par a1, last_off INV A', hd_off B' INV) ->
  node_is M1 false (l_keys b1) (l_vals b1) ->
  (forall y, y <> l_off a1 -> y <> hd_off B' INV -> fd' !! y = reparent o cs fd !! y) ->
  (hd_off B' INV <> INV -> fd' !! hd_off B' INV = set_prev (l_off a1) <$> fd !! hd_off B' INV) ->
  reid o cs <$> ids D = kids (A' ++ b1 :: B') ->
  dhole U (ids A') (l_off qn) (l_off a1) (l_low a1) (l_off a2) kq (ids B') (A' ++ b1 :: B') ((redad o cs <$> D) :: Ds)
    fd' lvl root fs (fr ++ [l_off a2]) /\
  fd' !! l_off qn = Some Q /\ contents ((A' ++ b1 :: B') :: (redad o cs <$> D) :: Ds) = contents (D :: Ds).
Proof.
  intros Hf1 Hid1 H1 Hh1 Hn1 Hsame Hhd Hk. pose proof pair_apart as Hap. pose proof pair_q as Hq.
  assert (l_off b1 = l_off a1 /\ l_par b1 = l_par a1) as [Ho1 Hp1] by (unfold id_of in Hid1; split; congruence).
  assert (forall y, y ∈ offs U \/ y ∈ offs (D :: Ds) -> y <> l_off a1 /\ y <> hd_off B' INV) as Hne.
  { intros y Hy. assert (y <> INV /\ y <> l_off a1 /\ (y ∉ offs_of A' ++ offs_of B')) as (Hyi & ? & Hy').
    { destruct Hy as [Hy|Hy]; [pose proof (ap_up _ _ _ _ _ _ Hap y Hy)|pose proof (ap_down _ _ _ _ _ _ Hap y Hy)];
        split_and!; try tauto; intros Hy'; pose proof (ap_level _ _ _ _ _ _ Hap y Hy'); tauto. }
    split; [done|]. intros ->. destruct (hd_off_in B' INV) as [?|Hin]; [done|]. apply Hy'. rewrite elem_of_app. by right. }
  assert (same_on fd fd' (offs U)) as HsU.
  { intros y Hy. destruct (Hne y) as [? ?]; [by left|]. rewrite Hsame by done. apply reparent_out.
    destruct (ap_up _ _ _ _ _ _ Hap y Hy) as (_ & _ & _ & HyE). rewrite offs_cons, elem_of_app in HyE. tauto. }
  assert (forall y, y ∈ offs_of A' ++ offs_of B' -> y <> hd_off B' INV -> fd' !! y = fd !! y) as HAB.
  { intros y Hy Hyh. destruct (ap_level _ _ _ _ _ _ Hap y Hy) as (? & ? & HyU & HyE). rewrite offs_cons, elem_of_app in HyE.
    rewrite Hsame by done. apply reparent_out. tauto. }
  split_and!.
  - eapply (merge_dhole fd); try done.
    + rewrite <- Hlv. apply rm_up.
    + rewrite <- Hlv. apply rm_seg.
    + pose proof pair_fill as Hf. apply Forall_app in Hf as [? ?]. apply Forall_app. split; [done|]. by constructor.
    + exists M1. by rewrite Ho1, Hp1.
    + intros y Hy. apply HAB; [rewrite elem_of_app; by left|]. intros ->.
      pose proof (ap_NoDupA _ _ _ _ _ _ Hap) as Hnd. apply NoDup_app in Hnd as (_ & Hnd & _).
      destruct (hd_off_in B' INV) as [E|Hin]; [|by apply (Hnd _ Hy)].
      pose proof (space_valid _ _ _ INV (dh_space _ _ _ _ _ _ _ _ _ _ _ _ _ _ _ Hh)) as Hv. apply Hv; [|done].
      rewrite offs_cons, Hlv, !elem_of_app. left; left. rewrite E in Hy. rewrite offs_of_app, elem_of_app. by left.
    + intros y Hy. unfold relink. case_decide as Hd.
      * apply HAB; [rewrite elem_of_app; by right|]. intros ->. rewrite Hd in Hy.
        pose proof (ap_validB _ _ _ _ _ _ Hap) as Hv. rewrite Forall_forall in Hv. by apply (Hv INV Hy).
      * destruct (decide (y = hd_off B' INV)) as [->|Hyh].
        -- by rewrite lookup_alter_eq, Hhd.
        -- rewrite lookup_alter_ne by auto. apply HAB; [rewrite elem_of_app; by right|done].
    + apply Hap.
    + apply Hap.
    + apply pair_low; [|done]. intros y Hy. apply Hsame; apply Hne; by right.
    + rewrite <- Hlv. apply rm_lows.
    + pose proof (dh_space _ _ _ _ _ _ _ _ _ _ _ _ _ _ _ Hh) as Hs. rewrite Hlv in Hs. apply space_free.
      eapply space_perm; [|exact Hs]. apply Permutation_app_tail.
      rewrite offs_cons, (offs_split _ _ _ a1 _ (l_off a2)) by auto. rewrite <- !app_comm_cons. apply perm_skip.
      rewrite <- offs_cons. apply offs_shift; [by rewrite !offs_middle, Ho1|apply offs_redad_cons].
    + rewrite (dh_level _ _ _ _ _ _ _ _ _ _ _ _ _ _ _ Hh). simpl. lia.
  - rewrite HsU by done. apply Hpr.
  - unfold contents. simpl. pose proof (contents_redad o cs D Ds) as Hcr. unfold contents in Hcr. simpl in Hcr. done.
Qed.
End pair.
End step.

End delclimb.
