(* ===== verification/BPlusShrink.v ===== *)
(** * Removing a child from an inner node: [non_leaf_remove]

    The four ways the code repairs a node that got too small, and the climb
    to the root. *)

From S2P Require Import Prelude BPlusTree BPlusOps BPlusView BPlusNode BPlusEdit BPlusEditIns BPlusEditSplit BPlusEditDel BPlusLevels BPlusInv BPlusSearch BPlusClimb BPlusRemove BPlusSibling BPlusDelClimb.

Section shrink.
Context `{Hcfg : ConfigOk}.

Abbreviation cap := (Z.to_nat _max_entries).
Abbreviation INV := INVALID_OFFSET.

Implicit Types fd : gmap Z bplus_node.
Implicit Types A B D lv : list lnode.
Implicit Types U Ds : list (list lnode).

Definition shrinks (fuel : nat) U : Prop :=
  forall A nd B U' X p x lo c k Y D Ds fd lvl root fs fr rm N node,
    U = (A ++ nd :: B) :: U' -> dhole U X p x lo c k Y D Ds fd lvl root fs fr -> rparent_at A nd B rm N D p fd ->
    awp (non_leaf_remove fuel node (Z.of_nat rm)) (fun _ => shut D Ds)
      (mkView (<[node := N]> ∅) None fd lvl root fs fr).

Lemma order_half : (_max_order + 1) / 2 = Z.of_nat lsplit.
Proof. rewrite cfg_order. apply lsplit_Z. Qed.

(** The buffers in use before the repair. *)
Lemma with_left_node node N pl L r pb Q :
  opt_ne r node -> pl <> node -> pb <> node -> with_left node N pl L r pb Q !! node = Some N.
Proof.
  intros. unfold with_left. rewrite lookup_insert_ne by done. apply lookup_ins_opt; [done|].
  by rewrite lookup_insert_ne, lookup_insert_eq.
Qed.
Lemma with_left_sib node N pl L r pb Q :
  opt_ne r pl -> pb <> pl -> with_left node N pl L r pb Q !! pl = Some L.
Proof.
  intros. unfold with_left. rewrite lookup_insert_ne by done. apply lookup_ins_opt; [done|]. by rewrite lookup_insert_eq.
Qed.
Lemma with_left_parent node N pl L r pb Q : with_left node N pl L r pb Q !! pb = Some Q.
Proof. unfold with_left. by rewrite lookup_insert_eq. Qed.
Lemma with_left_size node N pl L r pb Q : (size (with_left node N pl L r pb Q) < MIN_CACHE_NUM)%nat.
Proof. unfold with_left. apply size_insert_lt. apply (size_ins_opt _ _ 3). mem_small. Qed.

Lemma with_right_node node N pr R l pb Q :
  opt_ne l node -> pr <> node -> pb <> node -> with_right node N pr R l pb Q !! node = Some N.
Proof.
  intros. unfold with_right. rewrite !lookup_insert_ne by done. apply lookup_ins_opt; [done|]. by rewrite lookup_insert_eq.
Qed.
Lemma with_right_sib node N pr R l pb Q : pb <> pr -> with_right node N pr R l pb Q !! pr = Some R.
Proof. intros. unfold with_right. by rewrite lookup_insert_ne, lookup_insert_eq. Qed.
Lemma with_right_parent node N pr R l pb Q : with_right node N pr R l pb Q !! pb = Some Q.
Proof. unfold with_right. by rewrite lookup_insert_eq. Qed.
Lemma with_right_size node N pr R l pb Q : (size (with_right node N pr R l pb Q) < MIN_CACHE_NUM)%nat.
Proof. unfold with_right. do 2 apply size_insert_lt. apply (size_ins_opt _ _ 2). mem_small. Qed.

Lemma three_buffers (a b c : nat) : b <> a -> c <> a -> c <> b -> NoDup [a; b; c].
Proof.
  intros. rewrite !NoDup_cons, !not_elem_of_cons. split_and!; auto using not_elem_of_nil, NoDup_nil_2.
Qed.

(** Writing back a block that did not change. *)
Definition keep (r : option (nat * bplus_node)) fd : Prop :=
  match r with Some (_, R) => fd !! n_self R = Some R | None => True end.

Lemma awp_flush_left node N' pl L' r pb Q' N L Q fd lvl rt fs fr Qp :
  opt_ne r node -> opt_ne r pl -> opt_ne r pb -> pl <> node -> pb <> node -> pb <> pl ->
  keep r (<[n_self L' := L']> (<[n_self N' := N']> fd)) ->
  Qp tt (mkView ∅ None (<[n_self Q' := Q']> (<[n_self L' := L']> (<[n_self N' := N']> fd))) lvl rt fs fr) ->
  awp (node_flush (Some node) ;;; node_flush (Some pl) ;;; node_flush (fst <$> r) ;;; node_flush (Some pb)) Qp
    (mkView (<[pb := Q']> (<[pl := L']> (<[node := N']> (with_left node N pl L r pb Q)))) None fd lvl rt fs fr).
Proof.
  intros Hrn Hrl Hrb Hln Hbn Hbl Hk HQ. unfold with_left. destruct r as [[pr R]|]; simpl in Hrn, Hrl, Hrb, Hk;
    cbn [ins_opt fmap option_fmap option_map fst]; asteps; view_simpl.
  - rewrite (insert_id _ _ _ Hk). view_apply HQ; [mem_eq|done].
  - view_apply HQ; [mem_eq|done].
Qed.

Lemma awp_flush_right node N' pr R' l pb Q' N R Q fd lvl rt fs fr Qp :
  opt_ne l node -> opt_ne l pr -> opt_ne l pb -> pr <> node -> pb <> node -> pb <> pr ->
  keep l (<[n_self N' := N']> fd) ->
  Qp tt (mkView ∅ None (<[n_self Q' := Q']> (<[n_self R' := R']> (<[n_self N' := N']> fd))) lvl rt fs fr) ->
  awp (node_flush (Some node) ;;; node_flush (fst <$> l) ;;; node_flush (Some pr) ;;; node_flush (Some pb)) Qp
    (mkView (<[pb := Q']> (<[pr := R']> (<[node := N']> (with_right node N pr R l pb Q)))) None fd lvl rt fs fr).
Proof.
  intros Hrn Hrl Hrb Hln Hbn Hbl Hk HQ. unfold with_right. destruct l as [[pl L]|]; simpl in Hrn, Hrl, Hrb, Hk;
    cbn [ins_opt fmap option_fmap option_map fst]; asteps; view_simpl.
  - rewrite (insert_id _ _ _ Hk). view_apply HQ; [mem_eq|done].
  - view_apply HQ; [mem_eq|done].
Qed.

(** The blocks after a node was unlinked. *)
Lemma unlink_blocks L r o fd fd1 :
  fetched fd o ∅ r -> (o <> INV -> n_self L <> o) ->
  unlink_fd L r fd1 !! n_self L = Some (set_next o L) /\
  (forall y, y <> n_self L -> y <> o -> unlink_fd L r fd1 !! y = fd1 !! y) /\
  (o <> INV -> unlink_fd L r fd1 !! o = set_prev (n_self L) <$> fd !! o).
Proof.
  intros Hr Hne. destruct r as [[pr R]|]; simpl in Hr |- *.
  - destruct Hr as (Ho & HR & HRs & _). rewrite HRs. split_and!.
    + by rewrite lookup_insert_eq.
    + intros y ? ?. by rewrite !lookup_insert_ne by auto.
    + intros _. by rewrite lookup_insert_ne, lookup_insert_eq, HR by auto.
  - subst o. split_and!; [by rewrite lookup_insert_eq| |done]. intros y ? _. by rewrite lookup_insert_ne by auto.
Qed.

(** Unlinking the right sibling, whose own right sibling has to be fetched. *)
Lemma awp_unlink_right {W} node N' pr R l pb Q N1 fd1 lvl rt fs fr (K : T W) Qp :
  opt_ne l node -> opt_ne l pr -> opt_ne l pb -> pr <> node -> pb <> node -> pb <> pr ->
  link_at fd1 (n_next R) -> n_self R <> INV ->
  (forall rr, fetched fd1 (n_next R) ∅ rr -> keep l (unlink_fd N' rr fd1) /\
     awp K Qp (mkView (<[pb := Q]> ∅) None (unlink_fd N' rr fd1) lvl rt fs (fr ++ [n_self R]))) ->
  awp (rn <- get_node pr ;; rr_sib <- node_fetch (n_next rn) ;; node_delete pr (Some node) rr_sib ;;;
       node_flush (fst <$> l) ;;; K) Qp
    (mkView (<[node := N']> (with_right node N1 pr R l pb Q)) None fd1 lvl rt fs fr).
Proof.
  intros Hln Hlr Hlb Hrn Hbn Hbr Hlk Hi HK.
  apply awp_bind. eapply awp_get_node; [view_simpl; rewrite lookup_insert_ne by done; by apply with_right_sib|].
  apply awp_bind. eapply awp_fetch_link; [done| |].
  { erewrite size_insert_Some by (by apply with_right_node). apply with_right_size. }
  intros rr Hrr. pose proof (HK rr (fetched_empty _ _ _ _ Hrr)) as [Hk HK'].
  pose proof (fetched_ne _ _ _ _ node N' Hrr) as Hrrn. rewrite lookup_insert_eq in Hrrn. specialize (Hrrn eq_refl).
  pose proof (fetched_ne _ _ _ _ pr R Hrr) as Hrrr. rewrite lookup_insert_ne in Hrrr by done. specialize (Hrrr (with_right_sib _ _ _ _ _ _ _ Hbr)).
  pose proof (fetched_ne _ _ _ _ pb Q Hrr) as Hrrb. rewrite lookup_insert_ne in Hrrb by done. specialize (Hrrb (with_right_parent _ _ _ _ _ _ _)).
  assert (match l with Some (pl, L) => opt_ne rr pl | None => True end) as Hrrl.
  { destruct l as [[pl L]|]; [|done]. simpl in Hln, Hlr, Hlb. eapply (fetched_ne _ _ _ _ pl L Hrr). unfold with_right. simpl.
    by rewrite !lookup_insert_ne, lookup_insert_eq by auto. }
  apply awp_bind. eapply (awp_node_delete pr node R N'); [..|].
  - apply lookup_ins_opt; [done|]. rewrite lookup_insert_ne by done. by apply with_right_sib.
  - apply lookup_ins_opt; [done|]. by rewrite lookup_insert_eq.
  - done.
  - done.
  - destruct rr as [[prr RR]|]; [|done]. simpl in *. rewrite lookup_insert_eq. auto.
  - clear HK Hrr Hlk. unfold unlink_mem, with_right in *.
    destruct l as [[pl L]|], rr as [[prr RR]|]; simpl in Hln, Hlr, Hlb, Hrrn, Hrrr, Hrrb, Hrrl, Hk; cbn [ins_opt fmap option_fmap option_map fst];
      asteps; view_simpl; rewrite ?(insert_id _ _ _ Hk); view_apply HK'; try done; mem_eq.
Qed.

(** ** One step of the climb *)

Section repair.
Context (A : list lnode) (nd : lnode) (B : list lnode) (U : list (list lnode)).
Context (X : list ident) (p x : Z) (lo : bound) (c k : Z) (Y : list ident) (D : list lnode) (Ds : list (list lnode)).
Context (fd : gmap Z bplus_node) (lvl root fs : Z) (fr : list Z) (rm : nat) (N : bplus_node) (fuel node : nat).
Context (Hh : dhole ((A ++ nd :: B) :: U) X p x lo c k Y D Ds fd lvl root fs fr).
Context (Hrp : rparent_at A nd B rm N D p fd).
Context (A2 : list lnode) (qn : lnode) (B2 : list lnode) (U2 : list (list lnode)) (kq : Z) (Q : bplus_node).

Lemma rm_child v a :
  a ∈ A ++ removed nd rm :: B -> wide a -> v ∈ l_vals a -> v ∈ offs_of D /\ v <> INV /\ self_at fd v.
Proof.
  intros Ha Hw Hv. assert (v ∈ offs_of D) as HvD.
  { rewrite offs_of_ids, (rp_ids _ _ _ _ _ _ _ _ Hrp). apply list_elem_of_split in Ha as (A1 & B1 & ->).
    rewrite kids_app, kids_cons, !fmap_app, !elem_of_app. right; left. rewrite kid_kid_of, kid_of_offs; done. }
  split; [done|]. split.
  - pose proof (space_valid _ _ _ v (dh_space _ _ _ _ _ _ _ _ _ _ _ _ _ _ _ Hh)) as Hval. apply Hval.
    rewrite offs_cons, !elem_of_app. right. rewrite offs_cons, elem_of_app. by left.
  - assert (down_ok fd false (ids D) (D :: Ds)) as (_ & [Hs _] & _) by (by eapply rm_down). by eapply seg_self.
Qed.

Lemma rm_fillnd a : U <> [] -> a ∈ A ++ nd :: B -> (nsplit <= length (l_vals a))%nat.
Proof.
  intros HU Ha. assert (Forall (filled false (is_nil U)) (A ++ nd :: B)) as Hf by (by eapply rm_fill). destruct U; [done|].
  rewrite Forall_forall in Hf. by apply Hf.
Qed.

Lemma nd_in : nd ∈ A ++ nd :: B.
Proof. rewrite elem_of_app. right. by left. Qed.

Lemma rm_len' : length (list_del (S rm) (l_vals nd)) = (length (l_vals nd) - 1)%nat.
Proof. by eapply (rm_len A nd). Qed.

(** A neighbour that is not touched keeps its block. *)
Lemma keep_sibling A' a1 a2 B' r o oo cs F :
  A ++ nd :: B = A' ++ a1 :: a2 :: B' -> (o = INV \/ o ∈ offs_of A' ++ offs_of B') ->
  fetched fd o ∅ r -> (forall y, y ∈ cs -> y ∈ offs_of D) ->
  (forall y, y <> l_off a1 -> y <> l_off a2 -> F !! y = reparent oo cs fd !! y) -> keep r F.
Proof.
  intros Hlv Ho Hr Hcs HF. destruct r as [[pr R]|]; [|done]. destruct Hr as (Hi & HR & HRs & _). simpl.
  destruct Ho as [?|Ho]; [done|]. rewrite HRs. assert (apart A' a1 a2 B' U (D :: Ds)) as Hap by (by eapply pair_apart).
  destruct (ap_level _ _ _ _ _ _ Hap o Ho) as (? & ? & _ & HoE). rewrite offs_cons, elem_of_app in HoE.
  rewrite HF by done. erewrite reparent_out; [done|exact Hcs|tauto].
Qed.

(** ** Without a sibling *)

Lemma awp_rm_simple :
  (if is_nil U then 2 < length (l_vals nd) else lsplit < length (l_vals nd))%nat ->
  awp (non_leaf_simple_remove node (Z.of_nat rm) ;;; node_flush (Some node)) (fun _ => shut D Ds)
    (mkView (<[node := N]> ∅) None fd lvl root fs fr).
Proof.
  intros Hl. pose proof (rp_hdr _ _ _ _ _ _ _ _ Hrp) as HhN. pose proof rm_len' as Hrl. pose proof lsplit_bounds. pose proof nsplit_bounds.
  apply awp_bind. eapply awp_non_leaf_simple_remove; [by rewrite lookup_insert_eq|apply Hrp|apply Hrp|].
  intros N' HhN' HnN'. asteps. assert (n_self N' = p) as -> by (unfold hdr in *; congruence).
  view_simpl. match goal with |- shut _ _ (mkView ?m _ _ _ _ _ _) => replace m with (∅ : gmap nat bplus_node) by mem_eq end.
  eapply rm_simple; [exact Hh|exact Hrp|done|done|]. unfold filled. simpl. destruct (is_nil U); simpl; lia.
Qed.

Lemma rm_root_child : U = [] -> length (l_vals nd) = 2%nat -> rm = 0%nat /\ l_vals nd !! 0%nat = Some x.
Proof.
  intros HU Hl. pose proof (dh_down _ _ _ _ _ _ _ _ _ _ _ _ _ _ _ Hh) as (HI & _).
  assert (up_ok fd root U (ids (A ++ nd :: B))) as Hu by (by eapply rm_up). rewrite HU in Hu. simpl in Hu.
  assert (A = [] /\ B = []) as [HA HB] by (rewrite ids_app, ids_cons in Hu; destruct A as [|? [|]], B; by simplify_eq/=).
  destruct Hrp as [_ Hw Hpos _ Hids _ _ _]. unfold wide in Hw. assert (rm = 0%nat) as Hrm by lia. split; [done|].
  rewrite <- HI, HA, HB, Hrm in Hids. unfold kids in Hids. simpl in Hids. rewrite app_nil_r, kid_kid_of in Hids. unfold removed in Hids. simpl in Hids.
  destruct (l_vals nd) as [|v0 [|v1 [|]]]; simplify_eq/=. destruct (l_keys nd) as [|k0 [|]]; simplify_eq/=.
  unfold kid_of, mk_id in Hids. simpl in Hids. destruct X as [|? [|]]; by simplify_eq/=.
Qed.

Lemma awp_rm_root :
  U = [] -> length (l_vals nd) = 2%nat ->
  awp (o <- val_at node 0 ;; rootp <- node_fetch o ;; root <- deref rootp ;; upd root (set_parent INVALID_OFFSET) ;;;
       rn <- get_node root ;; modify (set_root (n_self rn)) ;;; modify (fun t => set_level (t_level t - 1) t) ;;;
       node_delete node None None ;;; node_flush (Some root)) (fun _ => shut D Ds)
    (mkView (<[node := N]> ∅) None fd lvl root fs fr).
Proof.
  intros HU Hl. destruct (rm_root_child HU Hl) as [Hrm Hx].
  destruct (rm_child x (removed nd rm)) as (HxD & Hxi & (M & HM & HMs)).
  { rewrite elem_of_app. right. by left. }
  { by eapply rm_wide. }
  { rewrite Hrm. simpl. destruct (l_vals nd) as [|v0 [|v1 [|]]]; simplify_eq/=. by left. }
  pose proof (rp_node _ _ _ _ _ _ _ _ Hrp) as HnN. pose proof cfg_entries. pose proof (rp_hdr _ _ _ _ _ _ _ _ Hrp) as HhN.
  destruct (rm_ne A nd B U X p x lo c k Y D Ds fd lvl root fs fr rm N Hh Hrp) as (_ & _ & _ & Hpi).
  apply awp_bind. eapply (awp_val_at _ _ N x); [view_simpl; by rewrite lookup_insert_eq| | |].
  { rewrite val_cap_eq. lia. }
  { change (Z.to_nat 0) with 0%nat. rewrite (ni_val_lookup _ _ _ _ _ HnN) by lia. done. }
  apply awp_bind. eapply awp_node_fetch; [done|exact HM|mem_small|]. intros rb Hrb. view_simpl_in Hrb.
  assert (rb <> node) as Hne by (intros ->; by rewrite lookup_insert_eq in Hrb).
  apply awp_bind, awp_ret. asteps. eapply awp_node_delete_only; [view_simpl; mem_lookup|unfold hdr in *; congruence|]. asteps.
  view_simpl. match goal with |- shut _ _ (mkView ?m _ _ _ _ _ _) => replace m with (∅ : gmap nat bplus_node) by mem_eq end.
  assert (n_self N = p) as -> by (unfold hdr in *; congruence). rewrite HMs.
  eapply rm_root; [exact Hh|exact Hrp|done..].
Qed.

(** ** With a sibling *)

Lemma awp_shift_left A0 al jj pl L r pb :
  A = A0 ++ [al] -> pair_at fd U A0 al nd B A2 qn B2 U2 jj kq Q -> (lsplit < length (l_vals al))%nat ->
  hdr L = (l_off al, l_par al, last_off INV A0, l_off nd) -> node_is L false (l_keys al) (l_vals al) ->
  fetched fd (hd_off B INV) ∅ r -> opt_ne r node -> opt_ne r pl -> opt_ne r pb -> pl <> node -> pb <> node -> pb <> pl ->
  awp (non_leaf_shift_from_left node pl pb (Z.of_nat jj) (Z.of_nat rm) ;;;
       node_flush (Some node) ;;; node_flush (Some pl) ;;; node_flush (fst <$> r) ;;; node_flush (Some pb))
    (fun _ => shut D Ds) (mkView (with_left node N pl L r pb Q) None fd lvl root fs fr).
Proof.
  intros HA Hpr Hbig HhL HnL Hr Hrn Hrl Hrb Hln Hbn Hbl.
  assert (A ++ nd :: B = A0 ++ al :: nd :: B) as Hlv by (rewrite HA, <- app_assoc; done).
  assert (U <> []) as HUne by (by rewrite (pr_U _ _ _ _ _ _ _ _ _ _ _ _ _ Hpr)).
  pose proof (ni_len _ _ _ _ HnL) as HlL. simpl in HlL. pose proof lsplit_bounds. pose proof nsplit_bounds.
  destruct (lookup_lt_is_Some_2 (l_vals al) (length (l_keys al))) as [v Hv]; [lia|].
  destruct (rm_child v al) as (HvD & Hvi & Hvs).
  { rewrite HA, !elem_of_app. left; right. by left. }
  { unfold wide. lia. }
  { by eapply list_elem_of_lookup_2. }
  assert (forall y, y ∈ [v] -> y ∈ offs_of D) as Hcs by (intros y ->%list_elem_of_singleton; done).
  pose proof (rp_hdr _ _ _ _ _ _ _ _ Hrp) as HhN. pose proof (rp_off _ _ _ _ _ _ _ _ Hrp) as Hp.
  pose proof (pr_hdr _ _ _ _ _ _ _ _ _ _ _ _ _ Hpr) as HhQ. assert (apart A0 al nd B U (D :: Ds)) as Hap by (by eapply pair_apart).
  pose proof (ap_ne _ _ _ _ _ _ Hap) as Hne.
  assert (l_off qn ∈ offs U) as Hq by (by eapply pair_q). destruct (ap_up _ _ _ _ _ _ Hap _ Hq) as (_ & Hq1 & Hq2 & _).
  apply awp_bind. eapply awp_non_leaf_shift_from_left;
    [by apply with_left_node|by apply with_left_sib|apply with_left_parent|by apply three_buffers|apply with_left_size
    |apply Hrp|done|apply Hpr|apply Hrp|lia|apply Hpr|exact Hv|done|done|].
  intros N' L' Q' k' HhN' HhL' HhQ' Hk' HnN' HnL' HnQ'.
  assert (n_self N = l_off nd /\ n_self N' = l_off nd /\ n_self L' = l_off al /\ n_self Q' = l_off qn) as (HsN & HsN' & HsL' & HsQ').
  { unfold hdr in *. split_and!; congruence. }
  apply awp_flush_left; [done..| |].
  { eapply (keep_sibling A0 al nd B); [exact Hlv| |exact Hr|exact Hcs|].
    - destruct (hd_off_in B INV) as [?|?]; [by left|right; rewrite elem_of_app; by right].
    - intros y Hy1 Hy2. rewrite HsL', HsN', !lookup_insert_ne by auto. done. }
  rewrite HsN, HsN', HsL', HsQ'. eapply rm_shift;
    [exact Hh|exact Hlv|exact Hpr|exact Hcs|..
    |eapply kids_shift_left; [exact Hh|exact Hrp|exact HA|unfold wide; lia|apply Hpr|exact Hk'|exact Hv|lia]].
  all: unfold filled; cbn [l_keys l_vals min_fill].
  - rewrite length_take. lia.
  - pose proof (rm_fillnd nd HUne nd_in). pose proof rm_len'. simpl. lia.
  - done.
  - unfold id_of, mk_id; simpl. by rewrite (pr_par2 _ _ _ _ _ _ _ _ _ _ _ _ _ Hpr).
  - rewrite lookup_insert_ne, lookup_insert_eq by done. done.
  - by rewrite HhL'.
  - done.
  - rewrite !lookup_insert_ne, lookup_insert_eq by done. done.
  - by rewrite HhN', HhN, HA, last_off_snoc, Hp.
  - done.
  - rewrite lookup_insert_eq. done.
  - done.
  - done.
  - intros y Hy1 Hy2 Hy3. by rewrite !lookup_insert_ne by auto.
Qed.

Context (Hsmall : (length (l_vals nd) <= lsplit)%nat).

Lemma awp_shift_right br B0 jj pr R l pb N1 :
  B = br :: B0 -> pair_at fd U A nd br B0 A2 qn B2 U2 jj kq Q -> (lsplit < length (l_vals br))%nat ->
  hdr R = (l_off br, l_par br, l_off nd, hd_off B0 INV) -> node_is R false (l_keys br) (l_vals br) ->
  fetched fd (last_off INV A) ∅ l -> opt_ne l node -> opt_ne l pr -> opt_ne l pb -> pr <> node -> pb <> node -> pb <> pr ->
  hdr N1 = hdr N -> node_is N1 false (list_del rm (l_keys nd)) (list_del (S rm) (l_vals nd)) ->
  awp (non_leaf_shift_from_right node pr pb (Z.of_nat jj) ;;;
       node_flush (Some node) ;;; node_flush (fst <$> l) ;;; node_flush (Some pr) ;;; node_flush (Some pb))
    (fun _ => shut D Ds) (mkView (with_right node N1 pr R l pb Q) None fd lvl root fs fr).
Proof.
  intros HB Hpr Hbig HhR HnR Hr Hrn Hrl Hrb Hln Hbn Hbl HhN1 HnN1.
  assert (A ++ nd :: B = A ++ nd :: br :: B0) as Hlv by (by rewrite HB).
  assert (U <> []) as HUne by (by rewrite (pr_U _ _ _ _ _ _ _ _ _ _ _ _ _ Hpr)).
  pose proof (ni_len _ _ _ _ HnR) as HlR. simpl in HlR. pose proof lsplit_bounds. pose proof nsplit_bounds.
  pose proof rm_len' as Hrl'. pose proof (rm_fillnd nd HUne nd_in) as Hfn.
  destruct (lookup_lt_is_Some_2 (l_vals br) 0) as [v Hv]; [lia|].
  destruct (rm_child v br) as (HvD & Hvi & Hvs).
  { rewrite HB, !elem_of_app. right. right. by left. }
  { unfold wide. lia. }
  { by eapply list_elem_of_lookup_2. }
  assert (forall y, y ∈ [v] -> y ∈ offs_of D) as Hcs by (intros y ->%list_elem_of_singleton; done).
  pose proof (rp_hdr _ _ _ _ _ _ _ _ Hrp) as HhN. pose proof (rp_off _ _ _ _ _ _ _ _ Hrp) as Hp.
  pose proof (pr_hdr _ _ _ _ _ _ _ _ _ _ _ _ _ Hpr) as HhQ. assert (apart A nd br B0 U (D :: Ds)) as Hap by (by eapply pair_apart).
  pose proof (ap_ne _ _ _ _ _ _ Hap) as Hne.
  assert (l_off qn ∈ offs U) as Hq by (by eapply pair_q). destruct (ap_up _ _ _ _ _ _ Hap _ Hq) as (_ & Hq1 & Hq2 & _).
  apply awp_bind. eapply awp_non_leaf_shift_from_right;
    [by apply with_right_node|by apply with_right_sib|apply with_right_parent|by apply three_buffers|apply with_right_size
    |exact HnN1|exact HnR|apply Hpr|lia|lia|apply Hpr|exact Hv|done|done|].
  intros N' R' Q' k' HhN' HhR' HhQ' Hk' HnN' HnR' HnQ'.
  assert (n_self N1 = l_off nd /\ n_self N' = l_off nd /\ n_self R' = l_off br /\ n_self Q' = l_off qn) as (HsN & HsN' & HsR' & HsQ').
  { unfold hdr in *. split_and!; congruence. }
  apply awp_flush_right; [done..| |].
  { eapply (keep_sibling A nd br B0); [exact Hlv| |exact Hr|exact Hcs|].
    - destruct (last_off_in INV A) as [?|?]; [by left|right; rewrite elem_of_app; by left].
    - intros y Hy1 Hy2. rewrite HsN', !lookup_insert_ne by auto. done. }
  rewrite HsN, HsN', HsR', HsQ'. eapply rm_shift;
    [exact Hh|exact Hlv|exact Hpr|exact Hcs|..
    |eapply kids_shift_right; [exact Hh|exact Hrp|exact HB|unfold wide; lia|apply Hpr|exact Hk'|exact Hv]].
  all: unfold filled; cbn [l_keys l_vals min_fill].
  - rewrite length_app. simpl. lia.
  - rewrite length_drop. lia.
  - done.
  - unfold id_of, mk_id; simpl. by rewrite (pr_par2 _ _ _ _ _ _ _ _ _ _ _ _ _ Hpr).
  - rewrite !lookup_insert_ne, lookup_insert_eq by auto. done.
  - by rewrite HhN', HhN1, HhN, HB, Hp.
  - done.
  - rewrite lookup_insert_ne, lookup_insert_eq by auto. done.
  - by rewrite HhR'.
  - done.
  - rewrite lookup_insert_eq. done.
  - done.
  - done.
  - intros y Hy1 Hy2 Hy3. by rewrite !lookup_insert_ne by auto.
Qed.

Context (IH : shrinks fuel U).

Lemma awp_merge_left A0 al jj pl L r pb :
  A = A0 ++ [al] -> pair_at fd U A0 al nd B A2 qn B2 U2 jj kq Q -> (length (l_vals al) <= lsplit)%nat ->
  hdr L = (l_off al, l_par al, last_off INV A0, l_off nd) -> node_is L false (l_keys al) (l_vals al) ->
  fetched fd (hd_off B INV) ∅ r -> opt_ne r node -> opt_ne r pl -> opt_ne r pb -> pl <> node -> pb <> node -> pb <> pl ->
  awp (non_leaf_merge_into_left node pl pb (Z.of_nat jj) (Z.of_nat rm) ;;;
       node_delete node (Some pl) (fst <$> r) ;;; non_leaf_remove fuel pb (Z.of_nat jj))
    (fun _ => shut D Ds) (mkView (with_left node N pl L r pb Q) None fd lvl root fs fr).
Proof.
  intros HA Hpr Hbig HhL HnL Hr Hrn Hrl Hrb Hln Hbn Hbl.
  assert (A ++ nd :: B = A0 ++ al :: nd :: B) as Hlv by (rewrite HA, <- app_assoc; done).
  assert (U <> []) as HUne by (by rewrite (pr_U _ _ _ _ _ _ _ _ _ _ _ _ _ Hpr)).
  pose proof (ni_len _ _ _ _ HnL) as HlL. simpl in HlL. pose proof lsplit_bounds. pose proof nsplit_bounds.
  assert (forall y, y ∈ list_del (S rm) (l_vals nd) -> y ∈ offs_of D /\ y <> INV /\ self_at fd y) as Hcs'.
  { intros y Hy. apply (rm_child y (removed nd rm)); [rewrite elem_of_app; right; by left|by eapply rm_wide|done]. }
  assert (forall y, y ∈ list_del (S rm) (l_vals nd) -> y ∈ offs_of D) as Hcs by (intros; by apply Hcs').
  pose proof (rp_hdr _ _ _ _ _ _ _ _ Hrp) as HhN. pose proof (rp_off _ _ _ _ _ _ _ _ Hrp) as Hp.
  assert (apart A0 al nd B U (D :: Ds)) as Hap by (by eapply pair_apart).
  pose proof (ap_valid2 _ _ _ _ _ _ Hap) as Hndi.
  apply awp_bind. eapply awp_non_leaf_merge_into_left;
    [by apply with_left_node|by apply with_left_sib|apply with_left_parent|by apply three_buffers|apply with_left_size
    |apply Hrp|done|apply Hpr|apply Hrp|lia|apply Hpr|intros; by apply Hcs'|].
  intros L' HhL' HnL'.
  assert (n_self N = l_off nd /\ n_self L = l_off al /\ n_self L' = l_off al) as (HsN & HsL & HsL').
  { unfold hdr in *. split_and!; congruence. }
  apply awp_bind. eapply awp_node_delete;
    [rewrite lookup_insert_ne by done; by apply with_left_node|by rewrite lookup_insert_eq|auto|congruence| |].
  { destruct r as [[pr R]|]; [|done]. simpl in Hrn, Hrl, Hrb. split_and!; [|auto..].
    unfold with_left. simpl. by rewrite !lookup_insert_ne, lookup_insert_eq by auto. }
  destruct (unlink_blocks L' r (hd_off B INV) fd (reparent (l_off al) (list_del (S rm) (l_vals nd)) fd) Hr) as (Hf1 & Hf2 & Hf3).
  { intros Hi. rewrite HsL'. destruct (hd_off_in B INV) as [?|Hin]; [done|]. apply not_eq_sym.
    apply (ap_level _ _ _ _ _ _ Hap). rewrite elem_of_app. by right. }
  rewrite HsL' in Hf1, Hf2, Hf3. rewrite HsN, HsL. set (fd' := unlink_fd _ _ _) in *.
  replace (delete node (unlink_mem pl r (<[pl:=L']> (with_left node N pl L r pb Q)))) with (<[pb := Q]> (∅ : gmap nat bplus_node)).
  2: { unfold unlink_mem, with_left. destruct r as [[pr R]|]; simpl in *; mem_eq. }
  edestruct (rm_merge A nd B U X p x lo c k Y D Ds fd lvl root fs fr) with (fd' := fd') (o := l_off al) (M1 := set_next (hd_off B INV) L')
    as (Hd' & HQ' & Hc'); [exact Hh|exact Hlv|exact Hpr|exact Hcs|..
    |eapply kids_merge_left; [exact Hh|exact Hrp|exact HA|unfold wide; lia|apply Hpr]|].
  - unfold filled. simpl. pose proof (rm_fillnd nd HUne nd_in). pose proof rm_len'. rewrite length_app. lia.
  - done.
  - done.
  - unfold hdr in *. simpl. congruence.
  - destruct HnL'. by split.
  - done.
  - done.
  - eapply awp_mono.
    + eapply (IH A2 qn B2 U2); [apply Hpr|exact Hd'|by eapply pair_rparent].
    + intros ? a' (Ls & ? & ?). exists Ls. split; [done|congruence].
Qed.

Lemma awp_merge_right br B0 jj pr R l pb N1 :
  B = br :: B0 -> pair_at fd U A nd br B0 A2 qn B2 U2 jj kq Q -> (length (l_vals br) <= lsplit)%nat ->
  hdr R = (l_off br, l_par br, l_off nd, hd_off B0 INV) -> node_is R false (l_keys br) (l_vals br) ->
  fetched fd (last_off INV A) ∅ l -> opt_ne l node -> opt_ne l pr -> opt_ne l pb -> pr <> node -> pb <> node -> pb <> pr ->
  hdr N1 = hdr N -> node_is N1 false (list_del rm (l_keys nd)) (list_del (S rm) (l_vals nd)) ->
  awp (non_leaf_merge_from_right node pr pb (Z.of_nat jj) ;;;
       rn <- get_node pr ;; rr_sib <- node_fetch (n_next rn) ;; node_delete pr (Some node) rr_sib ;;;
       node_flush (fst <$> l) ;;; non_leaf_remove fuel pb (Z.of_nat jj))
    (fun _ => shut D Ds) (mkView (with_right node N1 pr R l pb Q) None fd lvl root fs fr).
Proof.
  intros HB Hpr Hbig HhR HnR Hr Hrn Hrl Hrb Hln Hbn Hbl HhN1 HnN1.
  assert (A ++ nd :: B = A ++ nd :: br :: B0) as Hlv by (by rewrite HB).
  assert (U <> []) as HUne by (by rewrite (pr_U _ _ _ _ _ _ _ _ _ _ _ _ _ Hpr)).
  pose proof (ni_len _ _ _ _ HnR) as HlR. simpl in HlR. pose proof lsplit_bounds. pose proof nsplit_bounds.
  pose proof rm_len' as Hrl'. pose proof (rm_fillnd nd HUne nd_in) as Hfn.
  assert (forall y, y ∈ l_vals br -> y ∈ offs_of D /\ y <> INV /\ self_at fd y) as Hcs'.
  { intros y Hy. apply (rm_child y br); [rewrite HB, elem_of_app; right; right; by left|unfold wide; lia|done]. }
  assert (forall y, y ∈ l_vals br -> y ∈ offs_of D) as Hcs by (intros; by apply Hcs').
  pose proof (rp_hdr _ _ _ _ _ _ _ _ Hrp) as HhN. pose proof (rp_off _ _ _ _ _ _ _ _ Hrp) as Hp.
  assert (apart A nd br B0 U (D :: Ds)) as Hap by (by eapply pair_apart).
  pose proof (ap_valid2 _ _ _ _ _ _ Hap) as Hndi.
  apply awp_bind. eapply awp_non_leaf_merge_from_right;
    [by apply with_right_node|by apply with_right_sib|apply with_right_parent|by apply three_buffers|apply with_right_size
    |exact HnN1|exact HnR|apply Hpr|lia|apply Hpr|intros; by apply Hcs'|].
  intros N' HhN' HnN'.
  assert (n_self N1 = l_off nd /\ n_self R = l_off br /\ n_self N' = l_off nd /\ n_next R = hd_off B0 INV) as (HsN & HsR & HsN' & HnxR).
  { unfold hdr in *. split_and!; congruence. }
  rewrite HsN. set (fd1 := reparent _ _ _).
  assert (hd_off B0 INV = INV \/ hd_off B0 INV ∈ offs_of A ++ offs_of B0) as Ho0.
  { destruct (hd_off_in B0 INV) as [?|?]; [by left|right; rewrite elem_of_app; by right]. }
  assert (hd_off B0 INV <> INV -> fd1 !! hd_off B0 INV = fd !! hd_off B0 INV) as Hfd1.
  { intros Hi. destruct Ho0 as [?|Ho0]; [done|]. destruct (ap_level _ _ _ _ _ _ Hap _ Ho0) as (_ & _ & _ & HoE).
    rewrite offs_cons, elem_of_app in HoE. unfold fd1. erewrite reparent_out; [done|exact Hcs|tauto]. }
  apply awp_unlink_right; [done..| | |].
  { rewrite HnxR. intros Hi. unfold self_at. rewrite Hfd1 by done. assert (seg fd false INV (A ++ nd :: B) INV) as Hseg by (by eapply rm_seg).
    rewrite HB, cons_middle, app_assoc in Hseg. by apply (seg_link_next _ _ _ _ _ Hseg). }
  { congruence. }
  rewrite HnxR, HsR. intros rr Hrr.
  destruct (unlink_blocks N' rr (hd_off B0 INV) fd1 fd1 Hrr) as (Hf1 & Hf2 & Hf3).
  { intros Hi. rewrite HsN'. destruct Ho0 as [?|Ho0]; [done|]. apply not_eq_sym. by apply (ap_level _ _ _ _ _ _ Hap). }
  rewrite HsN' in Hf1, Hf2, Hf3. set (fd' := unlink_fd _ _ _) in *. split.
  { destruct l as [[pl L]|]; [|done]. destruct Hr as (Hi & HL & HLs & _). simpl. rewrite HLs.
    destruct (last_off_in INV A) as [?|HoA]; [done|]. destruct (ap_level _ _ _ _ _ _ Hap (last_off INV A)) as (? & _ & _ & HoE).
    { rewrite elem_of_app. by left. }
    rewrite offs_cons, elem_of_app in HoE. rewrite Hf2; [|done|].
    - unfold fd1. erewrite reparent_out; [done|exact Hcs|tauto].
    - intros Heq. destruct (hd_off_in B0 INV) as [?|HoB]; [congruence|]. rewrite <- Heq in HoB.
      pose proof (ap_NoDupA _ _ _ _ _ _ Hap) as Hnd. apply NoDup_app in Hnd as (_ & Hnd & _). by apply (Hnd _ HoA). }
  edestruct (rm_merge A nd B U X p x lo c k Y D Ds fd lvl root fs fr) with (fd' := fd') (o := l_off nd) (M1 := set_next (hd_off B0 INV) N')
    as (Hd' & HQ' & Hc'); [exact Hh|exact Hlv|exact Hpr|exact Hcs|..
    |eapply kids_merge_right; [exact Hh|exact Hrp|exact HB|unfold wide; lia|apply Hpr]|].
  - unfold filled. simpl. rewrite length_app. lia.
  - done.
  - done.
  - unfold hdr in *. simpl. congruence.
  - destruct HnN'. by split.
  - done.
  - intros Hi. by rewrite Hf3, Hfd1.
  - eapply awp_mono.
    + eapply (IH A2 qn B2 U2); [apply Hpr|exact Hd'|by eapply pair_rparent].
    + intros ? a' (Ls & ? & ?). exists Ls. split; [done|congruence].
Qed.

End repair.

(** A node has a parent exactly when there is a level above. *)
Lemma parent_cases fd root A nd B U Es fs fr :
  up_ok fd root U (ids (A ++ nd :: B)) -> lows_ok (ids (A ++ nd :: B)) -> space (offs ((A ++ nd :: B) :: U) ++ offs Es) fs fr ->
  (U = [] /\ l_par nd = INV) \/
  (U <> [] /\ l_par nd <> INV /\ exists A2 qn B2 U2 jj Q, child_at fd U A nd B A2 qn B2 U2 jj Q /\
    l_off qn <> INV /\ (2 <= length (l_vals qn))%nat).
Proof.
  intros Hu Hlo Hs. destruct (decide (U = [])) as [->|HU].
  - left. split; [done|]. simpl in Hu.
    assert (A = [] /\ B = []) as [-> ->] by (rewrite ids_app, ids_cons in Hu; destruct A as [|? [|]], B; by simplify_eq/=).
    unfold ids, id_of, mk_id in Hu. simpl in Hu. congruence.
  - right. split; [done|]. destruct (parent_of _ _ _ _ _ _ Hu Hlo HU) as (A2 & qn & B2 & U2 & jj & Q & Hca).
    assert (l_off qn <> INV) as Hq.
    { pose proof (space_valid _ _ _ (l_off qn) Hs) as Hv. apply Hv.
      rewrite (ca_U _ _ _ _ _ _ _ _ _ _ _ Hca), !offs_cons, !elem_of_app, (offs_middle A2). left; right; left. by left. }
    split; [by rewrite (ca_par _ _ _ _ _ _ _ _ _ _ _ Hca)|]. exists A2, qn, B2, U2, jj, Q. split; [done|]. split; [done|].
    rewrite (ca_U _ _ _ _ _ _ _ _ _ _ _ Hca) in Hu. destruct Hu as (_ & [_ Hf] & _). apply Forall_app in Hf as [_ Hf].
    inversion_clear Hf as [|? ? Hq2 _]. unfold filled, min_fill in Hq2. pose proof nsplit_bounds. destruct (is_nil U2); lia.
Qed.

Lemma shrinks_ok fuel U : (length U <= fuel)%nat -> shrinks fuel U.
Proof.
  revert U. induction fuel as [|fuel IH]; intros U Hf A nd B U' X p x lo c k Y D Ds fd lvl root fs fr rm N node -> Hh Hrp; [simpl in Hf; lia|].
  pose proof (rp_hdr _ _ _ _ _ _ _ _ Hrp) as HhN. pose proof (rp_node _ _ _ _ _ _ _ _ Hrp) as HnN.
  assert (n_parent N = l_par nd /\ n_children N = Z.of_nat (length (l_vals nd))) as [HpN HcN].
  { split; [unfold hdr in HhN; congruence|apply HnN]. }
  assert (Forall (filled false (is_nil U')) (A ++ nd :: B)) as Hfill by (by eapply rm_fill).
  apply Forall_app in Hfill as [_ Hfill]. inversion_clear Hfill as [|? ? Hfn _]. unfold filled, min_fill in Hfn.
  cbn [non_leaf_remove]. apply awp_bind. eapply awp_get_node; [view_simpl; by rewrite lookup_insert_eq|]. rewrite HpN, HcN.
  assert (up_ok fd root U' (ids (A ++ nd :: B))) as Hu by (by eapply rm_up).
  assert (lows_ok (ids (A ++ nd :: B))) as Hlows by (by eapply rm_lows).
  destruct (parent_cases _ _ _ _ _ _ _ _ _ Hu Hlows (dh_space _ _ _ _ _ _ _ _ _ _ _ _ _ _ _ Hh)) as [(HU & Hpar)|(HU & Hpar & A2 & qn & B2 & U2 & jj & Q & Hca & Hq & Hwq)].
  - subst U'. simpl in Hfn. rewrite Hpar, Z.eqb_refl. destruct (Z.eqb_spec (Z.of_nat (length (l_vals nd))) 2) as [H2|H2].
    + eapply awp_rm_root; [exact Hh|exact Hrp|done|lia].
    + eapply awp_rm_simple; [exact Hh|exact Hrp|]. simpl. lia.
  - rewrite (proj2 (Z.eqb_neq _ _) Hpar), order_half. assert (is_nil U' = false) as HUn by (by destruct U'). rewrite HUn in Hfn.
    destruct (Z.leb_spec (Z.of_nat (length (l_vals nd))) (Z.of_nat lsplit)) as [Hsm|Hsm]; cycle 1.
    { eapply awp_rm_simple; [exact Hh|exact Hrp|]. rewrite HUn. lia. }
    pose proof (rp_pos _ _ _ _ _ _ _ _ Hrp) as Hpos. destruct (lookup_lt_is_Some_2 (l_keys nd) 0) as [k0 Hk0]; [lia|].
    assert (asc (A ++ nd :: B) PInf) as Hasc by (by eapply rm_asc). apply asc_app in Hasc as (_ & _ & Hlo & Hhi & _).
    assert (k0 ∈ l_keys nd) as Hin by (by eapply list_elem_of_lookup_2).
    rewrite <- HpN. eapply awp_neighbours; [exact Hca|by eapply rm_seg|exact Hq| |exact HnN|exact Hk0|by apply Hlo|by apply Hhi|exact Hwq| | |].
    + by rewrite HhN, (rp_off _ _ _ _ _ _ _ _ Hrp).
    + intros a Ha. pose proof (space_valid _ _ _ (l_off a) (dh_space _ _ _ _ _ _ _ _ _ _ _ _ _ _ _ Hh)) as Hv. apply Hv.
      rewrite offs_cons, !elem_of_app, offs_middle. left; left; right. rewrite <- offs_of_app. unfold offs_of. by apply list_elem_of_fmap_2.
    + intros A0 al kq pl L r pb HA Hj Hpr HL HhL HnL Hr ? ? ? ? ? ?. change (LEFT_SIBLING =? LEFT_SIBLING) with true. cbn iota.
      apply awp_bind, awp_ret. apply awp_bind. eapply awp_get_node; [view_simpl; by apply with_left_sib|].
      rewrite (ni_children _ _ _ _ HnL). destruct (Z.ltb_spec (Z.of_nat lsplit) (Z.of_nat (length (l_vals al)))).
      * eapply awp_shift_left; [exact Hh|exact Hrp|exact HA|exact Hpr|lia|done..].
      * eapply awp_merge_left; [exact Hh|exact Hrp|lia|apply IH; simpl in Hf; lia|exact HA|exact Hpr|lia|done..].
    + intros br B0 kq pr R l pb HB Hpr HR HhR HnR Hl ? ? ? ? ? ?. change (RIGHT_SIBLING =? LEFT_SIBLING) with false. cbn iota.
      apply awp_bind. eapply awp_non_leaf_simple_remove; [by apply with_right_node|exact HnN|exact Hpos|]. intros N1 HhN1 HnN1.
      replace (<[node:=N1]> (with_right node N pr R l pb Q)) with (with_right node N1 pr R l pb Q).
      2: { unfold with_right. destruct l as [[pl L]|]; simpl in *; mem_eq. }
      replace (Z.of_nat jj - 1 + 1) with (Z.of_nat jj) by lia.
      apply awp_bind, awp_ret. apply awp_bind. eapply awp_get_node; [view_simpl; by apply with_right_sib|].
      rewrite (ni_children _ _ _ _ HnR). destruct (Z.ltb_spec (Z.of_nat lsplit) (Z.of_nat (length (l_vals br)))).
      * eapply awp_shift_right; [exact Hh|exact Hrp|lia|exact HB|exact Hpr|lia|done..].
      * eapply awp_merge_right; [exact Hh|exact Hrp|lia|apply IH; simpl in Hf; lia|exact HB|exact Hpr|lia|done..].
Qed.

End shrink.
