(* ===== verification/BPlusDelete.v ===== *)
(** * Deletion: [leaf_remove], [bplus_tree_delete] and [bplus_tree_put] *)

From S2P Require Import Prelude BPlusTree BPlusOps BPlusView BPlusNode BPlusEdit BPlusEditIns BPlusEditSplit BPlusEditDel BPlusLevels BPlusInv BPlusSearch BPlusClimb BPlusInsert BPlusPut BPlusRemove BPlusSibling BPlusDelClimb BPlusShrink.

Section delete.
Context `{Hcfg : ConfigOk}.

Abbreviation cap := (Z.to_nat _max_entries).
Abbreviation INV := INVALID_OFFSET.

Implicit Types fd : gmap Z bplus_node.
Implicit Types A B D lv : list lnode.
Implicit Types U Ds : list (list lnode).

(** ** Lists of entries *)

Lemma list_to_map_delete (l l' : list (Z * Z)) x d :
  NoDup (l.*1) -> l ≡ₚ (x, d) :: l' -> (list_to_map l' : gmap Z Z) = delete x (list_to_map l).
Proof.
  intros Hnd Hp. rewrite (list_to_map_proper _ _ Hnd Hp). simpl.
  assert (NoDup (((x, d) :: l').*1)) as Hnd' by (by rewrite <- Hp). simpl in Hnd'. apply NoDup_cons in Hnd' as [Hx _].
  rewrite delete_insert_id; [done|]. by apply not_elem_of_list_to_map_1.
Qed.

Lemma zip_del (ks vs : list Z) i x d :
  ks !! i = Some x -> vs !! i = Some d -> zip ks vs ≡ₚ (x, d) :: zip (list_del i ks) (list_del i vs).
Proof.
  intros Hk Hv. unfold list_del. pose proof (lookup_lt_Some _ _ _ Hk). pose proof (lookup_lt_Some _ _ _ Hv).
  rewrite <- (take_drop_middle ks i x Hk) at 1. rewrite <- (take_drop_middle vs i d Hv) at 1.
  rewrite !zip_with_app by (rewrite !length_take; lia). simpl. by rewrite Permutation_middle.
Qed.

Lemma elem_list_del (l : list Z) i y : y ∈ list_del i l -> y ∈ l.
Proof. unfold list_del. rewrite elem_of_app. intros [H|H]; [by eapply elem_take|by eapply elem_drop]. Qed.

Lemma sorted_list_del l i : sorted l -> sorted (list_del i l).
Proof.
  intros Hs. unfold list_del. destruct (le_lt_dec (length l) i) as [Hi|Hi].
  - rewrite take_ge, drop_ge, app_nil_r by lia. done.
  - destruct (lookup_lt_is_Some_2 l i Hi) as [y Hy]. rewrite <- (take_drop_middle l i y Hy) in Hs.
    apply sorted_app in Hs as (H1 & H2 & H3). apply sorted_cons in H2 as [H2 H4]. apply sorted_app. split_and!; [done|done|].
    intros a b Ha Hb. apply H3; [done|by right].
Qed.

(** The leaf without the entry at [rm]. *)
Definition pruned (nd : lnode) (rm : nat) : lnode :=
  mkL (l_off nd) (l_par nd) (l_low nd) (list_del rm (l_keys nd)) (list_del rm (l_vals nd)).

Lemma asc_prune A nd B rm hi : asc (A ++ nd :: B) hi -> asc (A ++ pruned nd rm :: B) hi.
Proof.
  rewrite !asc_app. simpl. intros (HA & Hs & H1 & H2 & HB). split_and!; [done|by apply sorted_list_del| | |done].
  - intros k Hk. by eapply H1, elem_list_del.
  - intros k Hk. by eapply H2, elem_list_del.
Qed.

Lemma asc_join A a1 a2 b B hi :
  asc (A ++ a1 :: a2 :: B) hi -> blt (l_low a2) (hd_low B hi) -> l_low b = l_low a1 -> l_keys b = l_keys a1 ++ l_keys a2 ->
  ble (l_low a1) (l_low a2) -> asc (A ++ b :: B) hi.
Proof.
  intros H Hlt Hb Hk Hle. apply asc_app in H as (HA & Hs1 & H1 & H1' & Hs2 & H2 & H2' & HB). apply asc_app. simpl in *.
  rewrite Hb, Hk. split; [done|]. split_and!.
  - apply sorted_app. split_and!; [done|done|]. intros k k' Hk1 Hk2.
    change (blt (Fin k) (Fin k')). eapply blt_ble_trans; [by apply H1'|by apply H2].
  - intros k [Hk1|Hk2]%elem_of_app; [by apply H1|]. eapply ble_trans; [exact Hle|by apply H2].
  - intros k [Hk1|Hk2]%elem_of_app; [|by apply H2']. eapply blt_trans; [by apply H1'|done].
  - done.
Qed.

Lemma entries_pair A a1 a2 B : entries (A ++ a1 :: a2 :: B) = entries A ++ entry a1 ++ entry a2 ++ entries B.
Proof. by rewrite entries_app, !entries_cons. Qed.

Lemma entry_shift_left (kl vl : list Z) k v E :
  length vl = length kl -> kl !! (length kl - 1)%nat = Some k -> vl !! (length kl - 1)%nat = Some v ->
  zip (take (length kl - 1) kl) (take (length kl - 1) vl) ++ (k, v) :: E = zip kl vl ++ E.
Proof.
  intros Hl Hk Hv. rewrite cons_middle, app_assoc. f_equal. pose proof (lookup_lt_Some _ _ _ Hk).
  transitivity (zip (take (length kl - 1) kl ++ [k]) (take (length kl - 1) vl ++ [v])).
  - by rewrite zip_with_app by (rewrite !length_take; lia).
  - rewrite <- (take_S_r _ _ _ Hk), <- (take_S_r _ _ _ Hv), !take_ge by lia. done.
Qed.

Lemma entry_shift_right (kr vr : list Z) k v :
  kr !! 0%nat = Some k -> vr !! 0%nat = Some v -> (k, v) :: zip (drop 1 kr) (drop 1 vr) = zip kr vr.
Proof. destruct kr, vr; intros; by simplify_eq/=. Qed.

Lemma offs_one lv : offs [lv] = offs_of lv.
Proof. unfold offs. simpl. apply app_nil_r. Qed.

(** ** The leaf level without the deleted entry *)

Section leaf.
Context (A : list lnode) (nd : lnode) (B : list lnode) (U : list (list lnode)).
Context (fd : gmap Z bplus_node) (lvl root fs : Z) (fr : list Z) (x : Z) (rm : nat) (N : bplus_node) (node : nat).
Context (Hu : up_ok fd root U (ids (A ++ nd :: B))).
Context (Hdn : down_ok fd (is_nil U) (ids (A ++ nd :: B)) [A ++ nd :: B]).
Context (Hs : space (offs U ++ offs [A ++ nd :: B]) fs fr) (Hlvl : lvl = Z.of_nat (length U) + 1).
Context (HN : fd !! l_off nd = Some N) (HnN : node_is N true (l_keys nd) (l_vals nd)).
Context (HhN : hdr N = (l_off nd, l_par nd, last_off INV A, hd_off B INV)).
Context (Hrm : l_keys nd !! rm = Some x).

Abbreviation done_map := (delete x (as_map [A ++ nd :: B])).

Lemma lf_seg : seg fd true INV (A ++ nd :: B) INV.
Proof. destruct Hdn as (_ & [? _] & _). done. Qed.
Lemma lf_fill : Forall (filled true (is_nil U)) (A ++ nd :: B).
Proof. destruct Hdn as (_ & [_ ?] & _). done. Qed.
Lemma lf_asc : asc (A ++ nd :: B) PInf.
Proof. destruct Hdn as (_ & _ & ?). done. Qed.
Lemma lf_nonempty : Forall nonempty (A ++ nd :: B).
Proof. destruct Hdn as (_ & Hl & _). by eapply lvl_nonempty. Qed.
Lemma lf_full : Forall full (A ++ nd :: B).
Proof. destruct Hdn as (_ & Hl & _). by eapply lvl_full. Qed.
Lemma lf_lows : lows_ok (ids (A ++ nd :: B)).
Proof. apply (asc_lows _ PInf); [apply lf_asc|apply lf_nonempty]. Qed.
Lemma lf_space : space (offs ((A ++ nd :: B) :: U) ++ offs []) fs fr.
Proof.
  eapply space_perm; [|exact Hs]. by rewrite (offs_cons _ U), offs_one, app_nil_r, (Permutation_app_comm (offs U)).
Qed.
Lemma lf_len : length (l_vals nd) = length (l_keys nd) /\ (rm < length (l_keys nd))%nat.
Proof. split; [pose proof (ni_len _ _ _ _ HnN) as H; simpl in H; lia|by eapply lookup_lt_Some]. Qed.

(** Any leaf level with the remaining entries stores the right map. *)
Lemma lf_map lv : entries lv ≡ₚ entries (A ++ pruned nd rm :: B) -> as_map [lv] = done_map.
Proof.
  intros Hp. destruct lf_len as [Hl Hlt]. destruct (lookup_lt_is_Some_2 (l_vals nd) rm) as [d Hd]; [lia|].
  unfold as_map, contents. simpl. apply (list_to_map_delete _ _ _ d).
  - apply leaves_NoDup. split_and!; [apply lf_asc|apply lf_nonempty|apply lf_full].
  - rewrite Hp, !entries_app, !entries_cons. unfold entry at 1. rewrite (zip_del _ _ _ _ _ Hrm Hd).
    rewrite <- app_comm_cons, <- Permutation_middle. done.
Qed.

Section pair.
Context (A' : list lnode) (a1 a2 : lnode) (B' : list lnode) (A2 : list lnode) (qn : lnode) (B2 : list lnode).
Context (U2 : list (list lnode)) (j : nat) (kq : Z) (Q : bplus_node).
Context (Hlv : A ++ nd :: B = A' ++ a1 :: a2 :: B').
Context (Hpr : pair_at fd U A' a1 a2 B' A2 qn B2 U2 j kq Q).

Lemma lf_apart : apart A' a1 a2 B' U [].
Proof. eapply space_apart. rewrite <- Hlv. apply lf_space. Qed.

Lemma lf_q : l_off qn ∈ offs U.
Proof. rewrite (pr_U _ _ _ _ _ _ _ _ _ _ _ _ _ Hpr), offs_cons, elem_of_app, offs_middle. left. by left. Qed.

Lemma lf_pair_fill : Forall (filled true false) (A' ++ B').
Proof.
  pose proof lf_fill as Hf. assert (is_nil U = false) as HU by (by rewrite (pr_U _ _ _ _ _ _ _ _ _ _ _ _ _ Hpr)).
  rewrite HU, Hlv in Hf. apply Forall_app in Hf as [? Hf]. inversion_clear Hf as [|? ? _ Hf']. inversion_clear Hf'.
  by apply Forall_app.
Qed.

Lemma lf_shift b1 b2 k' Q' M1 M2 fd' :
  filled true false b1 -> filled true false b2 ->
  id_of b1 = id_of a1 -> id_of b2 = mk_id (l_off qn) (l_off a2) (Fin k') ->
  fd' !! l_off a1 = Some M1 -> hdr M1 = (l_off a1, l_par a1, last_off INV A', l_off a2) ->
  node_is M1 true (l_keys b1) (l_vals b1) ->
  fd' !! l_off a2 = Some M2 -> hdr M2 = (l_off a2, l_par a2, l_off a1, hd_off B' INV) ->
  node_is M2 true (l_keys b2) (l_vals b2) ->
  fd' !! l_off qn = Some Q' -> hdr Q' = hdr Q -> node_is Q' false (<[j := k']> (l_keys qn)) (l_vals qn) ->
  (forall y, y <> l_off a1 -> y <> l_off a2 -> y <> l_off qn -> fd' !! y = fd !! y) ->
  asc (A' ++ b1 :: b2 :: B') PInf -> entries (A' ++ b1 :: b2 :: B') ≡ₚ entries (A ++ pruned nd rm :: B) ->
  stores done_map 0 (mkView ∅ None fd' lvl root fs fr).
Proof.
  intros Hf1 Hf2 Hid1 Hid2 H1 Hh1 Hn1 H2 Hh2 Hn2 H3 Hh3 Hn3 Hsame Hasc Hent.
  pose proof lf_apart as Hap. pose proof lf_q as Hq. pose proof (pr_par2 _ _ _ _ _ _ _ _ _ _ _ _ _ Hpr) as Hp2.
  assert (l_off b1 = l_off a1 /\ l_par b1 = l_par a1) as [Ho1 Hp1] by (unfold id_of in Hid1; split; congruence).
  assert (l_off b2 = l_off a2 /\ l_par b2 = l_par a2) as [Ho2 Hp2'] by (unfold id_of, mk_id in Hid2; split; congruence).
  split; [done|].
  destruct (close_pair fd fd' root U A' a1 a2 b1 b2 B' A2 qn B2 U2 j kq k' Q Q' [] fs fr lvl) as (Ls & Hinv & Hc); try done.
  - rewrite <- Hlv. exact Hu.
  - rewrite <- Hlv. apply lf_seg.
  - pose proof lf_pair_fill as Hf. apply Forall_app in Hf as [? ?]. apply Forall_app. split; [done|]. by repeat constructor.
  - exists M1. by rewrite Ho1, Hp1.
  - exists M2. by rewrite Ho2, Hp2'.
  - intros y Hy. destruct (ap_level _ _ _ _ _ _ Hap y Hy) as (? & ? & HyU & _). apply Hsame; [done|done|by intros ->].
  - intros y Hy Hyq. destruct (ap_up _ _ _ _ _ _ Hap y Hy) as (_ & ? & ? & _). by apply Hsame.
  - apply Hap.
  - eapply space_perm; [|exact Hs]. rewrite Hlv, !(offs_cons (_ ++ _)). 
    by rewrite !(offs_split _ _ _ a1 _ (l_off a2)) by (rewrite ?Ho1, ?Ho2; auto).
  - exists Ls. split; [done|]. rewrite <- (lf_map _ Hent). unfold as_map. by rewrite Hc.
Qed.

Lemma lf_merge b1 M1 fd' :
  filled true false b1 -> id_of b1 = id_of a1 ->
  fd' !! l_off a1 = Some M1 -> hdr M1 = (l_off a1, l_par a1, last_off INV A', hd_off B' INV) ->
  node_is M1 true (l_keys b1) (l_vals b1) ->
  (forall y, y <> l_off a1 -> y <> hd_off B' INV -> fd' !! y = fd !! y) ->
  (hd_off B' INV <> INV -> fd' !! hd_off B' INV = set_prev (l_off a1) <$> fd !! hd_off B' INV) ->
  asc (A' ++ b1 :: B') PInf ->
  dhole U (ids A') (l_off qn) (l_off a1) (l_low a1) (l_off a2) kq (ids B') (A' ++ b1 :: B') [] fd' lvl root fs (fr ++ [l_off a2]) /\
  fd' !! l_off qn = Some Q.
Proof.
  intros Hf1 Hid1 H1 Hh1 Hn1 Hsame Hhd Hasc. pose proof lf_apart as Hap. pose proof lf_q as Hq.
  assert (l_off b1 = l_off a1 /\ l_par b1 = l_par a1) as [Ho1 Hp1] by (unfold id_of in Hid1; split; congruence).
  assert (same_on fd fd' (offs U)) as HsU.
  { intros y Hy. destruct (ap_up _ _ _ _ _ _ Hap y Hy) as (Hyi & ? & _ & _). apply Hsame; [done|]. intros ->.
    destruct (hd_off_in B' INV) as [?|Hin]; [done|]. destruct (ap_level _ _ _ _ _ _ Hap (hd_off B' INV)) as (_ & _ & Hn & _); [rewrite elem_of_app; by right|]. by apply Hn. }
  assert (forall y, y ∈ offs_of A' ++ offs_of B' -> y <> hd_off B' INV -> fd' !! y = fd !! y) as HAB.
  { intros y Hy Hyh. destruct (ap_level _ _ _ _ _ _ Hap y Hy) as (? & _). by apply Hsame. }
  split; [|rewrite HsU by done; apply Hpr]. eapply (merge_dhole fd); try done.
  - rewrite <- Hlv. exact Hu.
  - rewrite <- Hlv. apply lf_seg.
  - pose proof lf_pair_fill as Hf. apply Forall_app in Hf as [? ?]. apply Forall_app. split; [done|]. by constructor.
  - exists M1. by rewrite Ho1, Hp1.
  - intros y Hy. apply HAB; [rewrite elem_of_app; by left|]. intros ->.
    pose proof (ap_NoDupA _ _ _ _ _ _ Hap) as Hnd. apply NoDup_app in Hnd as (_ & Hnd & _).
    destruct (hd_off_in B' INV) as [E|Hin]; [|by apply (Hnd _ Hy)].
    pose proof (space_valid _ _ _ INV lf_space) as Hv. apply Hv; [|done].
    rewrite offs_cons, Hlv, !elem_of_app. left; left. rewrite E in Hy. rewrite offs_of_app, elem_of_app. by left.
  - intros y Hy. unfold relink. case_decide as Hd.
    + apply HAB; [rewrite elem_of_app; by right|]. intros ->. rewrite Hd in Hy.
      pose proof (ap_validB _ _ _ _ _ _ Hap) as Hv. rewrite Forall_forall in Hv. by apply (Hv INV Hy).
    + destruct (decide (y = hd_off B' INV)) as [->|Hyh].
      * by rewrite lookup_alter_eq, Hhd.
      * rewrite lookup_alter_ne by auto. apply HAB; [rewrite elem_of_app; by right|done].
  - apply Hap.
  - apply Hap.
  - rewrite <- Hlv. apply lf_lows.
  - pose proof lf_space as Hs'. rewrite Hlv in Hs'. apply space_free. eapply space_perm; [|exact Hs'].
    apply Permutation_app_tail. rewrite (offs_cons _ U), (offs_split _ _ _ a1 _ (l_off a2)), offs_one by auto.
    rewrite (offs_middle A' b1), Ho1, (Permutation_app_comm (offs U)), app_nil_r. by rewrite (offs_middle A' a1).
Qed.
End pair.

(** ** [leaf_remove] without a sibling *)

Lemma awp_lf_simple :
  (if is_nil U then 1 < length (l_vals nd) else lsplit < length (l_vals nd))%nat ->
  awp (leaf_simple_remove node (Z.of_nat rm) ;;; node_flush (Some node)) (fun _ => stores done_map 0)
    (mkView (<[node := N]> ∅) None fd lvl root fs fr).
Proof.
  intros Hl. destruct lf_len as [Hlen Hlt]. pose proof lsplit_bounds.
  apply awp_bind. eapply awp_leaf_simple_remove; [by rewrite lookup_insert_eq|exact HnN|exact Hlt|].
  intros N' HhN' HnN'. asteps. assert (n_self N' = l_off nd) as -> by (unfold hdr in *; congruence). view_simpl.
  match goal with |- stores _ _ (mkView ?m _ _ _ _ _ _) => replace m with (∅ : gmap nat bplus_node) by mem_eq end.
  split; [done|]. exists (rev_append U [A ++ pruned nd rm :: B]). split.
  - pose proof (space_NoDup _ _ _ Hs) as Hnd. rewrite (offs_cons (A ++ nd :: B)), offs_middle in Hnd.
    apply NoDup_app in Hnd as (_ & HdU & Hnd). rewrite app_nil_r in HdU, Hnd. apply NoDup_cons in Hnd as [Hnd _].
    eapply (close_one fd); [exact Hu|apply lf_seg| |done|..].
    + pose proof lf_fill as Hf. apply Forall_app in Hf as [? Hf]. inversion_clear Hf. apply Forall_app. split; [done|].
      constructor; [|done]. unfold filled, min_fill. simpl. unfold list_del. rewrite length_app, length_take, length_drop.
      destruct (is_nil U); lia.
    + exists N'. simpl. rewrite lookup_insert_eq. split_and!; [done|congruence|done].
    + intros y Hy. apply lookup_insert_ne. by intros <-.
    + intros y Hy. apply lookup_insert_ne. intros <-. apply (HdU _ Hy). by left.
    + simpl. apply asc_prune, lf_asc.
    + eapply space_perm; [|exact Hs]. by rewrite !(offs_cons (_ ++ _)), !offs_middle.
    + done.
  - unfold as_map. rewrite contents_rev_append. by apply (lf_map (A ++ pruned nd rm :: B)).
Qed.

Lemma awp_lf_last :
  U = [] -> length (l_vals nd) = 1%nat ->
  awp (k0 <- key_at node 0 ;; assert (x =? k0) ;;; modify (set_root INVALID_OFFSET) ;;; modify (set_level 0) ;;;
       node_delete node None None) (fun _ => stores done_map 0)
    (mkView (<[node := N]> ∅) None fd lvl root fs fr).
Proof.
  intros HU Hl. destruct lf_len as [Hlen Hlt]. assert (rm = 0%nat) as Hrm0 by lia. pose proof Hrm as Hx. rewrite Hrm0 in Hx.
  pose proof Hu as Hu'. rewrite HU in Hu'. simpl in Hu'.
  assert (A = [] /\ B = []) as [HA HB] by (rewrite ids_app, ids_cons in Hu'; destruct A as [|? [|]], B; by simplify_eq/=).
  assert (l_off nd <> INV) as Hi.
  { pose proof (space_valid _ _ _ (l_off nd) lf_space) as Hv. apply Hv. rewrite offs_cons, !elem_of_app, offs_middle. left; left. by left. }
  apply awp_bind. eapply (awp_key_at _ _ N x); [view_simpl; by rewrite lookup_insert_eq| | |].
  { rewrite (ni_key_cap _ _ _ _ HnN). pose proof cfg_entries. lia. }
  { change (Z.to_nat 0) with 0%nat. by rewrite (ni_key_lookup _ _ _ _ _ HnN) by lia. }
  asteps. view_simpl. eapply awp_node_delete_only; [view_simpl; mem_lookup|unfold hdr in *; congruence|].
  assert (n_self N = l_off nd) as -> by (unfold hdr in *; congruence). 
  view_simpl. match goal with |- stores _ _ (mkView ?m _ _ _ _ _ _) => replace m with (∅ : gmap nat bplus_node) by mem_eq end.
  split; [done|]. exists []. split.
  - split; [done|done| |done|done]. pose proof lf_space as Hs'. rewrite HA, HB, HU in Hs'.
    rewrite offs_cons in Hs'. unfold offs_of, offs in Hs'. simpl in Hs'. by apply space_free in Hs'.
  - rewrite <- (lf_map (A ++ pruned nd rm :: B)) by done. rewrite HA, HB. unfold as_map, contents, entries, pruned, entry. simpl.
    rewrite Hrm0. destruct (l_keys nd) as [|? [|]], (l_vals nd) as [|? [|]]; by simplify_eq/=.
Qed.

(** ** [leaf_remove] with a sibling *)

Context (A2 : list lnode) (qn : lnode) (B2 : list lnode) (U2 : list (list lnode)) (kq : Z) (Q : bplus_node).

Lemma lf_fillnd a : U <> [] -> a ∈ A ++ nd :: B -> (lsplit <= length (l_vals a))%nat.
Proof. intros HU Ha. pose proof lf_fill as Hf. destruct U; [done|]. rewrite Forall_forall in Hf. by apply Hf. Qed.

Lemma lf_nd_in : nd ∈ A ++ nd :: B.
Proof. rewrite elem_of_app. right. by left. Qed.

Lemma lf_del_len : length (list_del rm (l_vals nd)) = (length (l_vals nd) - 1)%nat /\
  length (list_del rm (l_keys nd)) = (length (l_vals nd) - 1)%nat.
Proof.
  destruct lf_len as [Hl Hlt]. unfold list_del. rewrite !length_app, !length_take, !length_drop. lia.
Qed.

(** The bounds of two neighbours. *)
Lemma lf_bounds A' a1 a2 B' :
  A ++ nd :: B = A' ++ a1 :: a2 :: B' -> blt (l_low a2) (hd_low B' PInf) /\ ble (l_low a1) (l_low a2).
Proof.
  intros Hlv. pose proof lf_asc as Ha. pose proof lf_nonempty as Hn. rewrite Hlv in Ha, Hn.
  apply asc_app in Ha as [_ Ha]. apply Forall_app in Hn as [_ Hn]. inversion_clear Hn as [|? ? Hn1 Hn']. inversion_clear Hn' as [|? ? Hn2 _].
  pose proof (asc_step _ _ _ Ha Hn1) as H1. destruct Ha as (_ & _ & _ & Ha). pose proof (asc_step _ _ _ Ha Hn2) as H2.
  split; [done|]. by apply blt_ble.
Qed.

Lemma lf_keep A' a1 a2 B' r o F :
  A ++ nd :: B = A' ++ a1 :: a2 :: B' -> (o = INV \/ o ∈ offs_of A' ++ offs_of B') ->
  fetched fd o ∅ r -> (forall y, y <> l_off a1 -> y <> l_off a2 -> F !! y = fd !! y) -> keep r F.
Proof.
  intros Hlv Ho Hr HF. destruct r as [[pr R]|]; [|done]. destruct Hr as (Hi & HR & HRs & _). simpl.
  destruct Ho as [?|Ho]; [done|]. rewrite HRs. pose proof (lf_apart _ _ _ _ Hlv) as Hap.
  destruct (ap_level _ _ _ _ _ _ Hap o Ho) as (? & ? & _ & _). by rewrite HF.
Qed.

Lemma awp_lf_shift_left A0 al jj pl L r pb :
  A = A0 ++ [al] -> pair_at fd U A0 al nd B A2 qn B2 U2 jj kq Q -> (lsplit < length (l_vals al))%nat ->
  hdr L = (l_off al, l_par al, last_off INV A0, l_off nd) -> node_is L true (l_keys al) (l_vals al) ->
  fetched fd (hd_off B INV) ∅ r -> opt_ne r node -> opt_ne r pl -> opt_ne r pb -> pl <> node -> pb <> node -> pb <> pl ->
  awp (leaf_shift_from_left node pl pb (Z.of_nat jj) (Z.of_nat rm) ;;;
       node_flush (Some node) ;;; node_flush (Some pl) ;;; node_flush (fst <$> r) ;;; node_flush (Some pb))
    (fun _ => stores done_map 0) (mkView (with_left node N pl L r pb Q) None fd lvl root fs fr).
Proof.
  intros HA Hpr Hbig HhL HnL Hr Hrn Hrl Hrb Hln Hbn Hbl.
  assert (A ++ nd :: B = A0 ++ al :: nd :: B) as Hlv by (rewrite HA, <- app_assoc; done).
  assert (U <> []) as HUne by (by rewrite (pr_U _ _ _ _ _ _ _ _ _ _ _ _ _ Hpr)).
  pose proof (ni_len _ _ _ _ HnL) as HlL. simpl in HlL. pose proof lsplit_bounds. destruct lf_del_len as [Hdl1 Hdl2].
  destruct lf_len as [Hlen Hlt]. pose proof (lf_fillnd nd HUne lf_nd_in) as Hfn. pose proof (pr_hdr _ _ _ _ _ _ _ _ _ _ _ _ _ Hpr) as HhQ.
  pose proof (lf_apart _ _ _ _ Hlv) as Hap. pose proof (ap_ne _ _ _ _ _ _ Hap) as Hne.
  pose proof (lf_q _ _ _ _ _ _ _ _ _ _ _ Hpr) as Hq. destruct (ap_up _ _ _ _ _ _ Hap _ Hq) as (_ & Hq1 & Hq2 & _).
  destruct (lf_bounds _ _ _ _ Hlv) as [Hb1 Hb2].
  apply awp_bind. eapply awp_leaf_shift_from_left;
    [by apply with_left_node|by apply with_left_sib|apply with_left_parent|by apply three_buffers
    |exact HnN|exact HnL|apply Hpr|exact Hlt|lia|eapply lookup_lt_Some, Hpr|].
  intros N' L' Q' k' v HhN' HhL' HhQ' Hk' Hv HnN' HnL' HnQ'.
  assert (n_self N' = l_off nd /\ n_self L' = l_off al /\ n_self Q' = l_off qn) as (HsN' & HsL' & HsQ').
  { unfold hdr in *. split_and!; congruence. }
  apply awp_flush_left; [done..| |].
  { eapply (lf_keep A0 al nd B); [exact Hlv| |exact Hr|].
    - destruct (hd_off_in B INV) as [?|?]; [by left|right; rewrite elem_of_app; by right].
    - intros y Hy1 Hy2. rewrite HsL', HsN', !lookup_insert_ne by auto. done. }
  rewrite HsN', HsL', HsQ'.
  set (b1 := mkL (l_off al) (l_par al) (l_low al) (take (length (l_keys al) - 1) (l_keys al)) (take (length (l_keys al) - 1) (l_vals al))).
  set (b2 := mkL (l_off nd) (l_par nd) (Fin k') (k' :: list_del rm (l_keys nd)) (v :: list_del rm (l_vals nd))).
  eapply (lf_shift _ _ _ _ _ _ _ _ _ _ _ Hlv Hpr b1 b2 k' Q' L' N'); try done.
  - unfold filled. simpl. rewrite length_take. lia.
  - unfold filled. simpl. lia.
  - unfold id_of, mk_id; simpl. by rewrite (pr_par2 _ _ _ _ _ _ _ _ _ _ _ _ _ Hpr).
  - rewrite lookup_insert_ne, lookup_insert_eq by done. done.
  - by rewrite HhL'.
  - rewrite !lookup_insert_ne, lookup_insert_eq by done. done.
  - by rewrite HhN', HhN, HA, last_off_snoc.
  - by rewrite lookup_insert_eq.
  - intros y Hy1 Hy2 Hy3. by rewrite !lookup_insert_ne by auto.
  - pose proof lf_asc as Hasc. rewrite HA in Hasc. apply (asc_prune _ _ _ rm) in Hasc. rewrite <- app_assoc in Hasc. simpl in Hasc.
    eapply (asc_join A0 al (pruned nd rm) (mkL (l_off al) (l_par al) (l_low al) (l_keys al ++ list_del rm (l_keys nd)) [])) in Hasc; [|done..].
    eapply (asc_cut _ _ b1 b2 _ (length (l_keys al) - 1) k' Hasc); simpl; [|done|done| |].
    + by rewrite lookup_app_l by lia.
    + by rewrite take_app_le by lia.
    + rewrite drop_app_le by lia. rewrite (drop_S _ _ _ Hk'), drop_ge by lia. done.
  - rewrite HA, <- app_assoc. cbn [app]. rewrite !entries_pair. change (entry b2) with ((k', v) :: entry (pruned nd rm)).
    rewrite <- app_comm_cons. unfold entry at 1, b1. cbn [l_keys l_vals]. by rewrite entry_shift_left by (done || lia).
Qed.

Lemma awp_lf_shift_right br B0 jj pr R l pb N1 :
  B = br :: B0 -> pair_at fd U A nd br B0 A2 qn B2 U2 jj kq Q -> (lsplit < length (l_vals br))%nat ->
  hdr R = (l_off br, l_par br, l_off nd, hd_off B0 INV) -> node_is R true (l_keys br) (l_vals br) ->
  fetched fd (last_off INV A) ∅ l -> opt_ne l node -> opt_ne l pr -> opt_ne l pb -> pr <> node -> pb <> node -> pb <> pr ->
  hdr N1 = hdr N -> node_is N1 true (list_del rm (l_keys nd)) (list_del rm (l_vals nd)) ->
  awp (leaf_shift_from_right node pr pb (Z.of_nat jj) ;;;
       node_flush (Some node) ;;; node_flush (fst <$> l) ;;; node_flush (Some pr) ;;; node_flush (Some pb))
    (fun _ => stores done_map 0) (mkView (with_right node N1 pr R l pb Q) None fd lvl root fs fr).
Proof.
  intros HB Hpr Hbig HhR HnR Hr Hrn Hrl Hrb Hln Hbn Hbl HhN1 HnN1.
  assert (A ++ nd :: B = A ++ nd :: br :: B0) as Hlv by (by rewrite HB).
  assert (U <> []) as HUne by (by rewrite (pr_U _ _ _ _ _ _ _ _ _ _ _ _ _ Hpr)).
  pose proof (ni_len _ _ _ _ HnR) as HlR. simpl in HlR. pose proof lsplit_bounds. destruct lf_del_len as [Hdl1 Hdl2].
  destruct lf_len as [Hlen Hlt]. pose proof (lf_fillnd nd HUne lf_nd_in) as Hfn. pose proof (pr_hdr _ _ _ _ _ _ _ _ _ _ _ _ _ Hpr) as HhQ.
  pose proof (lf_apart _ _ _ _ Hlv) as Hap. pose proof (ap_ne _ _ _ _ _ _ Hap) as Hne. pose proof (ni_cap _ _ _ _ HnN) as HcN.
  pose proof (lf_q _ _ _ _ _ _ _ _ _ _ _ Hpr) as Hq. destruct (ap_up _ _ _ _ _ _ Hap _ Hq) as (_ & Hq1 & Hq2 & _).
  destruct (lf_bounds _ _ _ _ Hlv) as [Hb1 Hb2].
  apply awp_bind. eapply awp_leaf_shift_from_right;
    [by apply with_right_node|by apply with_right_sib|apply with_right_parent|by apply three_buffers
    |exact HnN1|exact HnR|apply Hpr|lia|lia|eapply lookup_lt_Some, Hpr|].
  intros N' R' Q' k v k' HhN' HhR' HhQ' Hk Hv Hk' HnN' HnR' HnQ'.
  assert (n_self N' = l_off nd /\ n_self R' = l_off br /\ n_self Q' = l_off qn) as (HsN' & HsR' & HsQ').
  { unfold hdr in *. split_and!; congruence. }
  apply awp_flush_right; [done..| |].
  { eapply (lf_keep A nd br B0); [exact Hlv| |exact Hr|].
    - destruct (last_off_in INV A) as [?|?]; [by left|right; rewrite elem_of_app; by left].
    - intros y Hy1 Hy2. rewrite HsN', !lookup_insert_ne by auto. done. }
  rewrite HsN', HsR', HsQ'.
  set (b1 := mkL (l_off nd) (l_par nd) (l_low nd) (list_del rm (l_keys nd) ++ [k]) (list_del rm (l_vals nd) ++ [v])).
  set (b2 := mkL (l_off br) (l_par br) (Fin k') (drop 1 (l_keys br)) (drop 1 (l_vals br))).
  eapply (lf_shift _ _ _ _ _ _ _ _ _ _ _ Hlv Hpr b1 b2 k' Q' N' R'); try done.
  - unfold filled. simpl. rewrite length_app. simpl. lia.
  - unfold filled. simpl. rewrite length_drop. lia.
  - unfold id_of, mk_id; simpl. by rewrite (pr_par2 _ _ _ _ _ _ _ _ _ _ _ _ _ Hpr).
  - rewrite !lookup_insert_ne, lookup_insert_eq by done. done.
  - by rewrite HhN', HhN1, HhN, HB.
  - rewrite lookup_insert_ne, lookup_insert_eq by done. done.
  - by rewrite HhR'.
  - by rewrite lookup_insert_eq.
  - intros y Hy1 Hy2 Hy3. by rewrite !lookup_insert_ne by auto.
  - pose proof lf_asc as Hasc. rewrite HB in Hasc. apply (asc_prune _ _ _ rm) in Hasc.
    eapply (asc_join A (pruned nd rm) br (mkL (l_off nd) (l_par nd) (l_low nd) (list_del rm (l_keys nd) ++ l_keys br) [])) in Hasc; [|done..].
    eapply (asc_cut _ _ b1 b2 _ (length (list_del rm (l_keys nd)) + 1) k' Hasc); simpl; [|done|done| |].
    + rewrite lookup_app_r by lia. rewrite <- Hk'. f_equal. lia.
    + rewrite take_app_add. f_equal. by rewrite (take_S_r _ 0 _ Hk).
    + by rewrite drop_app_add.
  - rewrite HB, !entries_pair. assert (entry b1 = entry (pruned nd rm) ++ [(k, v)]) as ->.
    { unfold entry, b1. simpl. by rewrite zip_with_app by lia. }
    rewrite <- app_assoc. simpl. change ((k, v) :: entry b2 ++ entries B0) with (((k, v) :: entry b2) ++ entries B0).
    unfold entry at 2, b2. cbn [l_keys l_vals]. by rewrite entry_shift_right.
Qed.

Context (fuel : nat) (Hfuel : (length U <= fuel)%nat) (Hsmall : (length (l_vals nd) <= lsplit)%nat).

(** After a merge the parent loses a child. *)
Lemma awp_lf_up A' b1 B' p' c' x' lo' k' X' Y' fd' fr' pb jj :
  dhole U X' p' x' lo' c' k' Y' (A' ++ b1 :: B') [] fd' lvl root fs fr' -> rparent_at A2 qn B2 jj Q (A' ++ b1 :: B') p' fd' ->
  U = (A2 ++ qn :: B2) :: U2 -> entries (A' ++ b1 :: B') ≡ₚ entries (A ++ pruned nd rm :: B) ->
  awp (non_leaf_remove fuel pb (Z.of_nat jj)) (fun _ => stores done_map 0) (mkView (<[pb := Q]> ∅) None fd' lvl root fs fr').
Proof.
  intros Hd Hrp HU Hent. eapply awp_mono; [eapply (shrinks_ok fuel U Hfuel); [exact HU|exact Hd|exact Hrp]|].
  intros ? a' (Ls & Hi & Hc). split; [done|]. exists Ls. split; [done|]. rewrite <- (lf_map _ Hent). unfold as_map. by rewrite Hc.
Qed.

Lemma awp_lf_merge_left A0 al jj pl L r pb pki :
  A = A0 ++ [al] -> pair_at fd U A0 al nd B A2 qn B2 U2 jj kq Q -> (length (l_vals al) <= lsplit)%nat ->
  hdr L = (l_off al, l_par al, last_off INV A0, l_off nd) -> node_is L true (l_keys al) (l_vals al) ->
  fetched fd (hd_off B INV) ∅ r -> opt_ne r node -> opt_ne r pl -> opt_ne r pb -> pl <> node -> pb <> node -> pb <> pl ->
  awp (leaf_merge_into_left node pl pki (Z.of_nat rm) ;;;
       node_delete node (Some pl) (fst <$> r) ;;; non_leaf_remove fuel pb (Z.of_nat jj))
    (fun _ => stores done_map 0) (mkView (with_left node N pl L r pb Q) None fd lvl root fs fr).
Proof.
  intros HA Hpr Hbig HhL HnL Hr Hrn Hrl Hrb Hln Hbn Hbl.
  assert (A ++ nd :: B = A0 ++ al :: nd :: B) as Hlv by (rewrite HA, <- app_assoc; done).
  assert (U <> []) as HUne by (by rewrite (pr_U _ _ _ _ _ _ _ _ _ _ _ _ _ Hpr)).
  pose proof (ni_len _ _ _ _ HnL) as HlL. simpl in HlL. pose proof lsplit_bounds. destruct lf_del_len as [Hdl1 Hdl2].
  destruct lf_len as [Hlen Hlt]. pose proof (lf_fillnd nd HUne lf_nd_in) as Hfn.
  assert (lsplit <= length (l_vals al))%nat as Hfa by (apply (lf_fillnd al HUne); rewrite Hlv, elem_of_app; right; by left).
  pose proof (lf_apart _ _ _ _ Hlv) as Hap. pose proof (ap_valid2 _ _ _ _ _ _ Hap) as Hndi. destruct (lf_bounds _ _ _ _ Hlv) as [Hb1 Hb2].
  apply awp_bind. eapply awp_leaf_merge_into_left;
    [by apply with_left_node|by apply with_left_sib|auto|exact HnN|exact HnL|exact Hlt|lia|].
  intros L' HhL' HnL'.
  assert (n_self N = l_off nd /\ n_self L' = l_off al) as (HsN & HsL') by (unfold hdr in *; split; congruence).
  apply awp_bind. eapply awp_node_delete;
    [rewrite lookup_insert_ne by done; by apply with_left_node|by rewrite lookup_insert_eq|auto|congruence| |].
  { destruct r as [[pr R]|]; [|done]. simpl in Hrn, Hrl, Hrb. split_and!; [|auto..].
    unfold with_left. simpl. by rewrite !lookup_insert_ne, lookup_insert_eq by auto. }
  destruct (unlink_blocks L' r (hd_off B INV) fd fd Hr) as (Hf1 & Hf2 & Hf3).
  { intros Hi. rewrite HsL'. destruct (hd_off_in B INV) as [?|Hin]; [done|]. apply not_eq_sym.
    apply (ap_level _ _ _ _ _ _ Hap). rewrite elem_of_app. by right. }
  rewrite HsL' in Hf1, Hf2, Hf3. rewrite HsN. set (fd' := unlink_fd _ _ _) in *.
  replace (delete node (unlink_mem pl r (<[pl:=L']> (with_left node N pl L r pb Q)))) with (<[pb := Q]> (∅ : gmap nat bplus_node)).
  2: { unfold unlink_mem, with_left. destruct r as [[pr R]|]; simpl in *; mem_eq. }
  set (b1 := mkL (l_off al) (l_par al) (l_low al) (l_keys al ++ list_del rm (l_keys nd)) (l_vals al ++ list_del rm (l_vals nd))).
  destruct (lf_merge _ _ _ _ _ _ _ _ _ _ _ Hlv Hpr b1 (set_next (hd_off B INV) L') fd') as (Hd' & HQ'); try done.
  - unfold filled. simpl. rewrite length_app. lia.
  - unfold hdr in *. simpl. congruence.
  - destruct HnL'. by split.
  - pose proof lf_asc as Hasc. rewrite HA in Hasc. apply (asc_prune _ _ _ rm) in Hasc. rewrite <- app_assoc in Hasc. simpl in Hasc.
    by eapply (asc_join A0 al (pruned nd rm)).
  - eapply awp_lf_up; [exact Hd'|by eapply pair_rparent|apply Hpr|].
    rewrite HA, <- app_assoc. cbn [app]. rewrite entries_pair, entries_app, entries_cons. unfold entry at 1, b1. simpl.
    rewrite zip_with_app, <- app_assoc by lia. done.
Qed.

Lemma awp_lf_merge_right br B0 jj pr R l pb N1 :
  B = br :: B0 -> pair_at fd U A nd br B0 A2 qn B2 U2 jj kq Q -> (length (l_vals br) <= lsplit)%nat ->
  hdr R = (l_off br, l_par br, l_off nd, hd_off B0 INV) -> node_is R true (l_keys br) (l_vals br) ->
  fetched fd (last_off INV A) ∅ l -> opt_ne l node -> opt_ne l pr -> opt_ne l pb -> pr <> node -> pb <> node -> pb <> pr ->
  hdr N1 = hdr N -> node_is N1 true (list_del rm (l_keys nd)) (list_del rm (l_vals nd)) ->
  awp (leaf_merge_from_right node pr ;;;
       rn <- get_node pr ;; rr_sib <- node_fetch (n_next rn) ;; node_delete pr (Some node) rr_sib ;;;
       node_flush (fst <$> l) ;;; non_leaf_remove fuel pb (Z.of_nat jj))
    (fun _ => stores done_map 0) (mkView (with_right node N1 pr R l pb Q) None fd lvl root fs fr).
Proof.
  intros HB Hpr Hbig HhR HnR Hr Hrn Hrl Hrb Hln Hbn Hbl HhN1 HnN1.
  assert (A ++ nd :: B = A ++ nd :: br :: B0) as Hlv by (by rewrite HB).
  assert (U <> []) as HUne by (by rewrite (pr_U _ _ _ _ _ _ _ _ _ _ _ _ _ Hpr)).
  pose proof (ni_len _ _ _ _ HnR) as HlR. simpl in HlR. pose proof lsplit_bounds. destruct lf_del_len as [Hdl1 Hdl2].
  destruct lf_len as [Hlen Hlt]. pose proof (lf_fillnd nd HUne lf_nd_in) as Hfn.
  assert (lsplit <= length (l_vals br))%nat as Hfb by (apply (lf_fillnd br HUne); rewrite Hlv, elem_of_app; right; right; by left).
  pose proof (lf_apart _ _ _ _ Hlv) as Hap. pose proof (ap_valid2 _ _ _ _ _ _ Hap) as Hndi. destruct (lf_bounds _ _ _ _ Hlv) as [Hb1 Hb2].
  apply awp_bind. eapply awp_leaf_merge_from_right;
    [by apply with_right_node|by apply with_right_sib|auto|exact HnN1|exact HnR|lia|].
  intros N' HhN' HnN'.
  assert (n_self R = l_off br /\ n_self N' = l_off nd /\ n_next R = hd_off B0 INV) as (HsR & HsN' & HnxR).
  { unfold hdr in *. split_and!; congruence. }
  apply awp_unlink_right; [done..| | |].
  { rewrite HnxR. pose proof lf_seg as Hseg. rewrite HB, cons_middle, app_assoc in Hseg. by apply (seg_link_next _ _ _ _ _ Hseg). }
  { congruence. }
  rewrite HnxR, HsR. intros rr Hrr.
  destruct (unlink_blocks N' rr (hd_off B0 INV) fd fd Hrr) as (Hf1 & Hf2 & Hf3).
  { intros Hi. rewrite HsN'. destruct (hd_off_in B0 INV) as [?|Hin]; [done|]. apply not_eq_sym.
    apply (ap_level _ _ _ _ _ _ Hap). rewrite elem_of_app. by right. }
  rewrite HsN' in Hf1, Hf2, Hf3. set (fd' := unlink_fd _ _ _) in *. split.
  { destruct l as [[pl L]|]; [|done]. destruct Hr as (Hi & HL & HLs & _). simpl. rewrite HLs.
    destruct (last_off_in INV A) as [?|HoA]; [done|]. destruct (ap_level _ _ _ _ _ _ Hap (last_off INV A)) as (? & _).
    { rewrite elem_of_app. by left. }
    rewrite Hf2; [done|done|]. intros Heq. destruct (hd_off_in B0 INV) as [?|HoB]; [congruence|]. rewrite <- Heq in HoB.
    pose proof (ap_NoDupA _ _ _ _ _ _ Hap) as Hnd. apply NoDup_app in Hnd as (_ & Hnd & _). by apply (Hnd _ HoA). }
  set (b1 := mkL (l_off nd) (l_par nd) (l_low nd) (list_del rm (l_keys nd) ++ l_keys br) (list_del rm (l_vals nd) ++ l_vals br)).
  destruct (lf_merge _ _ _ _ _ _ _ _ _ _ _ Hlv Hpr b1 (set_next (hd_off B0 INV) N') fd') as (Hd' & HQ'); try done.
  - unfold filled. simpl. rewrite length_app. lia.
  - rewrite HB in HhN. unfold hdr in *. simpl in *. congruence.
  - destruct HnN'. by split.
  - pose proof lf_asc as Hasc. rewrite HB in Hasc. apply (asc_prune _ _ _ rm) in Hasc.
    by eapply (asc_join A (pruned nd rm) br).
  - eapply awp_lf_up; [exact Hd'|by eapply pair_rparent|apply Hpr|].
    rewrite HB, entries_pair, entries_app, entries_cons. unfold entry at 1, b1. simpl.
    rewrite zip_with_app, <- app_assoc by lia. done.
Qed.
End leaf.

(** ** [leaf_remove] *)

Lemma leaf_remove_ok x fuel U A nd B p N a :
  at_node x U A nd B [] p N a -> v_level a = Z.of_nat (length U) + 1 -> (length U <= fuel)%nat ->
  awp (leaf_remove fuel p x)
    (fun r a' => if decide (x ∈ l_keys nd) then stores (delete x (as_map [A ++ nd :: B])) r a'
                 else r = -1 /\ rest a a') a.
Proof.
  intros H Hlv Hf. pose proof (at_sorted _ _ _ _ _ _ _ _ _ H) as Hsort.
  destruct H as [Hu Hdn Hlo Hhi Hsk Hmem HN Hni Hhdr Hs]. simpl in Hni.
  destruct a as [mem sk fd lv rt fs fr]. simpl in *. subst mem sk.
  unfold leaf_remove. apply awp_bind. eapply awp_get_seek; [done|].
  apply awp_bind. eapply awp_lift; [by eapply key_binary_search_ok|].
  fold (found_at x (l_keys nd)). pose proof (found_at_nonneg x (l_keys nd)) as Hnn. unfold found_at in *.
  destruct (decide (x ∈ l_keys nd)) as [Hx|Hx]; cycle 1.
  { rewrite (proj2 (Z.ltb_lt _ _)) by lia. by apply awp_ret. }
  rewrite (proj2 (Z.ltb_ge _ _)) by lia. pose proof (rank_elem _ _ Hsort Hx) as Hrm. set (rm := rank x (l_keys nd)) in *.
  apply awp_bind. eapply awp_cache_mark; [done|]. view_simpl. apply awp_bind.
  eapply awp_mono; [|intros ? a' Ha'; apply awp_ret; exact Ha'].
  rewrite (ni_children _ _ _ _ Hni). assert (n_parent N = l_par nd) as HpN by (unfold hdr in Hhdr; congruence).
  pose proof (ni_len _ _ _ _ Hni) as Hlen. simpl in Hlen. pose proof (lookup_lt_Some _ _ _ Hrm) as Hlt.
  pose proof (lf_space A nd B U fs fr Hs) as Hs'.
  destruct (parent_cases _ _ _ _ _ _ _ _ _ Hu (lf_lows _ _ _ _ _ Hdn) Hs') as [(HU & Hpar)|(HU & Hpar & A2 & qn & B2 & U2 & jj & Q & Hca & Hq & Hwq)].
  - rewrite HpN, Hpar, Z.eqb_refl. destruct (Z.eqb_spec (Z.of_nat (length (l_vals nd))) 1) as [H1|H1].
    + eapply awp_lf_last; try done. lia.
    + eapply awp_lf_simple; try done. rewrite HU. simpl. lia.
  - rewrite HpN, (proj2 (Z.eqb_neq _ _) Hpar), lsplit_Z. assert (is_nil U = false) as HUn by (by destruct U).
    destruct (Z.leb_spec (Z.of_nat (length (l_vals nd))) (Z.of_nat lsplit)) as [Hsm|Hsm]; cycle 1.
    { eapply awp_lf_simple; try done. rewrite HUn. lia. }
    destruct (lookup_lt_is_Some_2 (l_keys nd) 0) as [k0 Hk0]; [lia|].
    pose proof (lf_asc _ _ _ _ _ Hdn) as Hasc. apply asc_app in Hasc as (_ & _ & Hlo' & Hhi' & _).
    assert (k0 ∈ l_keys nd) as Hin by (by eapply list_elem_of_lookup_2).
    rewrite <- HpN. eapply awp_neighbours; [exact Hca|by eapply lf_seg|exact Hq|exact Hhdr|exact Hni|exact Hk0|by apply Hlo'|by apply Hhi'|exact Hwq| | |].
    + intros b Hb. pose proof (space_valid _ _ _ (l_off b) Hs') as Hv. apply Hv.
      rewrite offs_cons, !elem_of_app, offs_middle. left; left; right. rewrite <- offs_of_app. unfold offs_of. by apply list_elem_of_fmap_2.
    + intros A0 al kq pl L r pb HA Hj Hpr HL HhL HnL Hr ? ? ? ? ? ?. change (LEFT_SIBLING =? LEFT_SIBLING) with true. cbn iota.
      apply awp_bind, awp_ret. apply awp_bind. eapply awp_get_node; [view_simpl; by apply with_left_sib|].
      rewrite (ni_children _ _ _ _ HnL). destruct (Z.ltb_spec (Z.of_nat lsplit) (Z.of_nat (length (l_vals al)))).
      * eapply awp_lf_shift_left; try done. lia.
      * eapply awp_lf_merge_left; try done; lia.
    + intros br B0 kq pr R l pb HB Hpr HR HhR HnR Hl ? ? ? ? ? ?. change (RIGHT_SIBLING =? LEFT_SIBLING) with false. cbn iota.
      apply awp_bind. eapply awp_leaf_simple_remove; [by apply with_right_node|exact Hni|exact Hlt|]. intros N1 HhN1 HnN1.
      replace (<[p:=N1]> (with_right p N pr R l pb Q)) with (with_right p N1 pr R l pb Q).
      2: { unfold with_right. destruct l as [[pl L]|]; simpl in *; mem_eq. }
      replace (Z.of_nat jj - 1 + 1) with (Z.of_nat jj) by lia.
      apply awp_bind, awp_ret. apply awp_bind. eapply awp_get_node; [view_simpl; by apply with_right_sib|].
      rewrite (ni_children _ _ _ _ HnR). destruct (Z.ltb_spec (Z.of_nat lsplit) (Z.of_nat (length (l_vals br)))).
      * eapply awp_lf_shift_right; try done. lia.
      * eapply awp_lf_merge_right; try done; lia.
Qed.

Lemma delete_loop_ok x up fuel U A nd B Ds p N a :
  at_node x U A nd B Ds p N a -> v_level a = Z.of_nat (length U) + Z.of_nat (length ((A ++ nd :: B) :: Ds)) ->
  (length Ds < fuel)%nat -> (length U + length Ds <= up)%nat ->
  awp (bplus_tree_delete_loop fuel up (Some p) x)
    (fun r a' => let m := as_map ((A ++ nd :: B) :: Ds) in
       match m !! x with Some _ => stores (delete x m) r a' | None => r = -1 /\ rest a a' end) a.
Proof.
  revert U A nd B Ds p N a. induction fuel as [|fuel IH]; intros U A nd B Ds p N a H Hlv Hf Hup; [lia|].
  pose proof (at_node_is _ _ _ _ _ _ _ _ _ H) as Hni.
  cbn [bplus_tree_delete_loop]. apply awp_bind. eapply awp_get_seek; [by apply H|].
  rewrite (ni_leaf _ _ _ _ Hni). destruct Ds as [|E Ds]; cbn [is_nil].
  - eapply awp_mono; [apply (leaf_remove_ok x up _ _ _ _ _ _ _ H); [done|simpl in Hup; lia]|].
    intros r a' Hr. unfold as_map at 1, contents at 1. simpl. rewrite (at_leaf_lookup _ _ _ _ _ _ _ _ H).
    destruct (decide (x ∈ l_keys nd)) as [Hx|Hx]; [|done].
    pose proof (at_sorted _ _ _ _ _ _ _ _ _ H) as Hs. pose proof (lookup_lt_Some _ _ _ (rank_elem _ _ Hs Hx)) as Hlt.
    pose proof (ni_len _ _ _ _ Hni) as Hl. simpl in Hl.
    destruct (lookup_lt_is_Some_2 (l_vals nd) (rank x (l_keys nd))) as [v ->]; [lia|]. done.
  - apply awp_bind. eapply awp_mono; [eapply (awp_child _ _ _ _ _ _ _ _ _ _ _ H)|intros o a' Ho; apply awp_bind, Ho].
    intros A' nd' B' p' N' a' -> Hat Hr.
    eapply awp_mono; [apply (IH _ _ _ _ _ _ _ _ Hat)|].
    + unfold rest in Hr. assert (v_level a' = v_level a) as -> by (destruct a, a'; by simplify_eq/=).
      rewrite Hlv. simpl. lia.
    + simpl in Hf. lia.
    + simpl in *. lia.
    + intros r a'' Hpost. cbn zeta in *. unfold as_map, contents in *. simpl in *.
      destruct (_ !! x); [done|]. destruct Hpost as [-> ?]. split; [done|by eapply rest_trans].
Qed.

Lemma delete_ok fuel x Ds a :
  tree_inv Ds a -> (length Ds < fuel)%nat ->
  awp (bplus_tree_delete fuel x)
    (fun r a' => match as_map Ds !! x with
                 | Some _ => stores (delete x (as_map Ds)) r a'
                 | None => r = -1 /\ tree_inv Ds a'
                 end) a.
Proof.
  intros Hinv Hf. apply awp_forget. unfold bplus_tree_delete. apply awp_bind.
  eapply awp_mono; [eapply (awp_root_seek x Ds a _ Hinv)|intros r a' Hr; apply awp_bind, Hr].
  - intros ->. destruct fuel; [lia|]. simpl. apply awp_ret. split; [done|by eapply rest_inv].
  - intros nd Ds' p N a' -> Hat Hr.
    assert (v_level a' = v_level a) as Hlv by (unfold rest in Hr; destruct a, a'; by simplify_eq/=).
    eapply awp_mono; [apply (delete_loop_ok x fuel fuel _ _ _ _ _ _ _ _ Hat)|].
    + rewrite Hlv, (inv_level _ _ Hinv). simpl. lia.
    + simpl in Hf. lia.
    + simpl in *. lia.
    + intros r a'' Hpost. cbn zeta in *. change ([] ++ [nd]) with [nd] in Hpost. destruct (as_map ([nd] :: Ds') !! x).
      * destruct Hpost as (Hr' & Ls & Hi & Hm). split; [done|]. exists Ls. split; [|done]. destruct Hi. by split.
      * destruct Hpost as [-> Hr']. split; [done|]. eapply rest_inv; [done|by eapply rest_trans].
Qed.

(** ** [bplus_tree_put] *)

(** What [bplus_tree_put] does to the map: [data = 0] deletes. *)
Definition put_spec (m : gmap Z Z) (key data : Z) : Z * gmap Z Z :=
  if data =? 0 then match m !! key with Some _ => (0, delete key m) | None => (-1, m) end
  else match m !! key with Some _ => (-1, m) | None => (0, <[key := data]> m) end.

Lemma put_ok fuel x d Ds a :
  tree_inv Ds a -> (length Ds < fuel)%nat ->
  awp (bplus_tree_put fuel x d)
    (fun r a' => r = fst (put_spec (as_map Ds) x d) /\
                 exists Ls, tree_inv Ls a' /\ as_map Ls = snd (put_spec (as_map Ds) x d)) a.
Proof.
  intros Hinv Hf. unfold bplus_tree_put, put_spec. destruct (Z.eqb_spec d 0) as [->|Hd]; cbn [negb].
  - eapply awp_mono; [by apply delete_ok|]. intros r a' Hr. destruct (as_map Ds !! x); simpl; [by destruct Hr|].
    destruct Hr. split; [done|]. by exists Ds.
  - eapply awp_mono; [by apply insert_ok|]. intros r a' Hr. destruct (as_map Ds !! x); simpl; [|by destruct Hr].
    destruct Hr. split; [done|]. by exists Ds.
Qed.

End delete.
