(* ===== verification/BPlusRange.v ===== *)
(** * Range queries: [bplus_tree_get_range]

    The routine descends to the leaf of the smaller bound and follows the
    leaves while the keys stay below the larger one. *)

From S2P Require Import Prelude BPlusTree BPlusOps BPlusView BPlusNode BPlusEdit BPlusEditIns BPlusLevels BPlusInv BPlusSearch BPlusClimb BPlusPut BPlusDelete.

Section range.
Context `{Hcfg : ConfigOk}.

Abbreviation INV := INVALID_OFFSET.

(** What the scan returns over the entries [l] it passes. *)
Fixpoint scan (max start : Z) (l : list (Z * Z)) : Z :=
  match l with
  | [] => start
  | (k, d) :: l => if k <=? max then scan max d l else start
  end.

Lemma scan_last max start l :
  sorted (l.*1) -> (exists e, e ∈ l /\ e.1 <= max) ->
  exists k, (k, scan max start l) ∈ l /\ k <= max /\ forall e, e ∈ l -> e.1 <= max -> e.1 <= k.
Proof.
  revert start. induction l as [|[k d] l IH]; intros start Hs (e & He & Hle); [by apply elem_of_nil in He|].
  simpl in Hs. apply sorted_cons in Hs as [Hs Hlt].
  assert (k <= max) as Hk.
  { apply elem_of_cons in He as [->|He]; [done|]. specialize (Hlt e.1). rewrite list_elem_of_fmap in Hlt.
    assert (k < e.1) by (apply Hlt; eauto). lia. }
  simpl. rewrite (proj2 (Z.leb_le _ _) Hk). destruct (decide (Exists (fun e => e.1 <= max) l)) as [Hex|Hno].
  - apply Exists_exists in Hex as (e' & He' & Hle'). destruct (IH d Hs) as (k' & Hin & Hk' & Hmax); [eauto|].
    exists k'. split_and!; [by right|done|]. intros e0 [->|He0]%elem_of_cons Hm0; [|by apply Hmax]. simpl.
    assert (k < k'); [|lia]. apply Hlt. rewrite list_elem_of_fmap. exists (k', scan max d l). done.
  - exists k. assert (scan max d l = d) as ->.
    { destruct l as [|[k' d'] l]; [done|]. simpl. destruct (Z.leb_spec k' max) as [Hle'|]; [|done].
      exfalso. apply Hno. by left. }
    split_and!; [by left|done|]. intros e0 [->|He0]%elem_of_cons Hm0; [done|].
    exfalso. apply Hno, Exists_exists. eauto.
Qed.

Lemma entry_lookup N a i :
  node_is N true (l_keys a) (l_vals a) -> (i < length (l_keys a))%nat ->
  exists k d, l_keys a !! i = Some k /\ l_vals a !! i = Some d /\ n_key N !! i = Some k /\ n_val N !! i = Some d /\
    drop i (entry a) = (k, d) :: drop (S i) (entry a).
Proof.
  intros HnN Hi. pose proof (ni_len _ _ _ _ HnN) as Hl. simpl in Hl.
  destruct (lookup_lt_is_Some_2 (l_keys a) i Hi) as [k Hk]. destruct (lookup_lt_is_Some_2 (l_vals a) i ltac:(lia)) as [d Hd].
  exists k, d. rewrite (ni_key_lookup _ _ _ _ _ HnN), (ni_val_lookup _ _ _ _ _ HnN) by lia. split_and!; try done.
  apply drop_S. unfold entry. rewrite lookup_zip_with, Hk. simpl. by rewrite Hd.
Qed.

Lemma awp_key_at_seek p i n k Q a :
  v_seek a = Some (p, n) -> 0 <= i < key_cap n -> n_key n !! Z.to_nat i = Some k ->
  Q k a -> awp (key_at p i) Q a.
Proof.
  intros Hp Hi Hk HQ. apply awp_bind. eapply awp_get_seek; [done|].
  eapply awp_lift; [|done]. by apply rd_ok.
Qed.

Lemma range_scan_ok fuel A a B i p N max start v :
  seg (v_fd v) true INV (A ++ a :: B) INV -> Forall (fun y => y <> INV) (offs_of B) -> Forall nonempty B ->
  v_mem v = ∅ -> v_seek v = Some (p, N) -> v_fd v !! l_off a = Some N ->
  (i < length (l_keys a))%nat -> (length (drop i (entry a) ++ entries B) < fuel)%nat ->
  awp (range_scan fuel (Some p) (Z.of_nat i) max start)
    (fun r v' => r = scan max start (drop i (entry a) ++ entries B) /\ rest v v') v.
Proof.
  revert A a B i p N start v. induction fuel as [|fuel IH]; intros A a B i p N start v Hs Hv Hne Hm Hsk HN Hi Hf; [lia|].
  pose proof (seg_blk _ _ _ _ _ _ _ Hs) as (N' & HN' & HhN & HnN). assert (N' = N) as -> by congruence.
  destruct (entry_lookup N a i HnN Hi) as (k & d & Hk & Hd & Hnk & Hnd & Hdrop). rewrite Hdrop in Hf |- *. simpl in Hf.
  pose proof (ni_len _ _ _ _ HnN) as Hl. simpl in Hl. pose proof (ni_cap _ _ _ _ HnN). pose proof cfg_entries.
  cbn [range_scan]. apply awp_bind. eapply awp_key_at_seek; [done|rewrite (ni_key_cap _ _ _ _ HnN); lia|by rewrite Nat2Z.id|].
  simpl. destruct (Z.leb_spec k max) as [Hle|Hgt]; [|by apply awp_ret].
  apply awp_bind. eapply awp_val_at_seek; [done|rewrite val_cap_eq; lia|by rewrite Nat2Z.id|].
  apply awp_bind. eapply awp_get_seek; [done|]. rewrite (ni_children _ _ _ _ HnN).
  destruct (Z.leb_spec (Z.of_nat (length (l_vals a))) (Z.of_nat i + 1)) as [Hend|Hmore].
  - assert (drop (S i) (entry a) = []) as Hnil by (apply drop_ge; unfold entry; rewrite length_zip_with; lia).
    rewrite Hnil in Hf |- *. simpl in Hf |- *.
    assert (n_next N = hd_off B INV) as -> by (unfold hdr in HhN; congruence). apply awp_bind. destruct B as [|b B].
    + apply awp_node_seek_null. destruct fuel; [simpl in Hf; lia|]. by apply awp_ret.
    + rewrite cons_middle, app_assoc in Hs. pose proof (seg_blk _ _ _ _ _ _ _ Hs) as (M & HM & _).
      inversion_clear Hv. inversion_clear Hne as [|? ? Hnb ?]. simpl.
      eapply awp_node_seek; [done|exact HM|by apply size_empty_lt|]. intros p' _.
      eapply awp_mono; [eapply (IH (A ++ [a]) b B 0%nat p' M d (w_seek (Some (p', M)) v)); try done|].
      * unfold nonempty in Hnb. destruct (l_keys b); [done|simpl; lia].
      * rewrite drop_0. rewrite entries_cons in Hf. simpl in Hf. lia.
      * intros r v' [-> Hr]. rewrite drop_0, entries_cons. split; [done|]. by destruct v.
  - replace (Z.of_nat i + 1) with (Z.of_nat (S i)) by lia. eapply (IH A a B (S i)); try done; lia.
Qed.

(** [r] is stored under the largest key up to [hi], and that key is at least [lo]. *)
Definition in_range (m : gmap Z Z) (lo hi r : Z) : Prop :=
  exists k, m !! k = Some r /\ lo <= k <= hi /\ forall k', is_Some (m !! k') -> k' <= hi -> k' <= k.

Lemma scan_in_range (P : list (Z * Z)) x d L max start :
  sorted ((P ++ (x, d) :: L).*1) -> x <= max ->
  in_range (list_to_map (P ++ (x, d) :: L)) x max (scan max start ((x, d) :: L)).
Proof.
  intros Hs Hle. pose proof (sorted_NoDup _ Hs) as Hnd. pose proof Hs as Hs'. rewrite fmap_app in Hs'.
  apply sorted_app in Hs' as (_ & HsL & Hlt).
  destruct (scan_last max start ((x, d) :: L) HsL) as (k & Hin & Hk & Hmax); [exists (x, d); split; [by left|done]|].
  assert (x <= k) as Hxk by (apply (Hmax (x, d)); [by left|done]).
  exists k. split_and!; [|done|done|].
  - apply elem_of_list_to_map_1; [done|]. rewrite elem_of_app. by right.
  - intros k' [d' Hd'] Hk'. apply elem_of_list_to_map_2 in Hd'. apply elem_of_app in Hd' as [Hd'|Hd']; [|by apply (Hmax (k', d'))].
    assert (k' < x); [|lia]. apply Hlt; [by apply (list_elem_of_fmap_2 fst _ (k', d'))|by left].
Qed.

Lemma range_loop_ok fuel sc x max U A nd B Ds p N a :
  at_node x U A nd B Ds p N a -> (length Ds < fuel)%nat -> (length (contents ((A ++ nd :: B) :: Ds)) < sc)%nat ->
  is_Some (as_map ((A ++ nd :: B) :: Ds) !! x) -> x <= max ->
  awp (bplus_tree_get_range_loop fuel sc (Some p) x max)
    (fun r a' => in_range (as_map ((A ++ nd :: B) :: Ds)) x max r /\ rest a a') a.
Proof.
  revert U A nd B Ds p N a. induction fuel as [|fuel IH]; intros U A nd B Ds p N a H Hf Hsc Hx Hmax; [lia|].
  pose proof (at_sorted _ _ _ _ _ _ _ _ _ H) as Hs. pose proof (at_node_is _ _ _ _ _ _ _ _ _ H) as Hni.
  cbn [bplus_tree_get_range_loop]. apply awp_bind. eapply awp_get_seek; [by apply H|].
  apply awp_bind. eapply awp_lift; [by eapply key_binary_search_ok|].
  fold (found_at x (l_keys nd)). rewrite (ni_leaf _ _ _ _ Hni). destruct Ds as [|E Ds]; cbn [is_nil].
  - unfold as_map, contents in Hx, Hsc |- *. simpl in Hx, Hsc |- *. rewrite (at_leaf_lookup _ _ _ _ _ _ _ _ H) in Hx.
    destruct (decide (x ∈ l_keys nd)) as [Hin|Hin]; [|by destruct Hx].
    unfold found_at. rewrite decide_True by done. rewrite (proj2 (Z.ltb_ge _ _)) by lia.
    pose proof (rank_elem _ _ Hs Hin) as Hr. pose proof (lookup_lt_Some _ _ _ Hr) as Hrl.
    destruct (at_down _ _ _ _ _ _ _ _ _ H) as (_ & Hl & Ha). pose proof (lvl_nonempty _ _ _ _ Hl) as Hne. pose proof (lvl_full _ _ _ Hl) as Hfu.
    pose proof (at_space _ _ _ _ _ _ _ _ _ H) as Hsp.
    eapply awp_mono; [eapply (range_scan_ok sc A nd B); [apply Hl| |by apply Forall_app in Hne as [_ Hne]; inversion_clear Hne|apply H|apply H|apply H|done|]|].
    + apply Forall_forall. intros y Hy. apply (space_valid _ _ _ y Hsp). rewrite elem_of_app. right.
      rewrite offs_one, offs_middle. right. rewrite elem_of_app. by right.
    + rewrite entries_app, entries_cons, !length_app in Hsc. rewrite length_app, length_drop. lia.
    + intros r a' [-> Hr']. split; [|done].
      destruct (lookup_lt_is_Some_2 (entry nd) (rank x (l_keys nd))) as [e He].
      { unfold entry. rewrite length_zip_with. pose proof (ni_len _ _ _ _ Hni) as Hlen. simpl in Hlen. lia. }
      pose proof He as He'. unfold entry in He'. apply lookup_zip_with_Some in He' as (k & d & -> & Hk & _). assert (k = x) as -> by congruence.
      assert (entries (A ++ nd :: B) = (entries A ++ take (rank x (l_keys nd)) (entry nd)) ++ (x, d) :: drop (S (rank x (l_keys nd))) (entry nd) ++ entries B) as Hent.
      { rewrite entries_app, entries_cons, <- app_assoc. f_equal. rewrite <- (take_drop_middle _ _ _ He) at 1. by rewrite <- app_assoc. }
      rewrite Hent, (drop_S _ _ _ He), <- app_comm_cons. apply scan_in_range; [|done]. rewrite <- Hent, entries_keys by done. by eapply asc_sorted.
  - apply awp_bind. eapply awp_mono; [eapply (awp_child_val _ _ _ _ _ _ _ _ _ _ _ H)|intros o a' Ho; apply awp_bind, Ho].
    intros A' nd' B' p' N' a' -> Hat Hr.
    eapply awp_mono; [apply (IH _ _ _ _ _ _ _ _ Hat); [simpl in Hf; lia|exact Hsc|exact Hx|exact Hmax]|].
    intros r a'' [Hr1 Hr2]. split; [done|by eapply rest_trans].
Qed.

Lemma get_range_ok fuel sc key1 key2 Ds a :
  tree_inv Ds a -> (length Ds < fuel)%nat -> (length (contents Ds) < sc)%nat -> is_Some (as_map Ds !! Z.min key1 key2) ->
  awp (bplus_tree_get_range fuel sc key1 key2)
    (fun r a' => in_range (as_map Ds) (Z.min key1 key2) (Z.max key1 key2) r /\ tree_inv Ds a') a.
Proof.
  intros Hinv Hf Hsc Hx. apply awp_forget. unfold bplus_tree_get_range.
  assert ((if key1 <=? key2 then key1 else key2) = Z.min key1 key2) as Hmn by (destruct (Z.leb_spec key1 key2); lia). rewrite Hmn.
  assert ((if Z.min key1 key2 =? key1 then key2 else key1) = Z.max key1 key2) as ->.
  { destruct (Z.eqb_spec (Z.min key1 key2) key1); lia. }
  apply awp_bind. eapply awp_mono; [eapply (awp_root_seek (Z.min key1 key2) Ds a _ Hinv)|intros r a' Hr; apply awp_bind, Hr].
  - intros ->. by destruct Hx.
  - intros nd Ds' p N a' -> Hat Hr.
    eapply awp_mono; [apply (range_loop_ok _ sc _ _ _ _ _ _ _ _ _ _ Hat); [simpl in Hf; lia|exact Hsc|exact Hx|lia]|].
    intros r a'' [Hq Hr']. split; [done|]. eapply rest_inv; [done|by eapply rest_trans].
Qed.

End range.
