(* ===== verification/BPlusSpec.v ===== *)
(** * What the B+ tree promises: a finite map kept in a file

    The theorems below speak of [tree_rep t m], "the tree [t] stores the map
    [m]", and of traces of the public operations from an empty index. *)

From S2P Require Import Prelude BPlusTree BPlusOps BPlusView BPlusNode BPlusEdit BPlusEditIns BPlusEditSplit BPlusLevels BPlusInv BPlusSearch BPlusClimb BPlusPut BPlusDelete BPlusRange.

Section spec.
Context `{Hcfg : ConfigOk}.

Abbreviation INV := INVALID_OFFSET.

Implicit Types t : bplus_tree.
Implicit Types m : gmap Z Z.

(** ** One operation *)

Lemma rep_run {A} (f : T A) t a Q :
  shows t a -> awp f Q a -> exists r t' a', f t = Ok (r, t') /\ shows t' a' /\ Q r a'.
Proof. intros Hs Hf. destruct (Hf t Hs) as (r & t' & Hr & a' & ? & ?). eauto 10. Qed.

Lemma rep_get fuel key t m :
  tree_rep t m -> t_level t < Z.of_nat fuel ->
  exists t', bplus_tree_get fuel key t = Ok (search_result (m !! key), t') /\ tree_rep t' m.
Proof.
  intros (a & Ds & Hs & Hi & ->) Hl. rewrite (shows_level _ _ Hs), (inv_level _ _ Hi) in Hl.
  destruct (rep_run (bplus_tree_get fuel key) t a _ Hs (search_ok fuel key Ds a Hi ltac:(lia))) as (r & t' & a' & Hr & Hs' & Hq & Hi').
  exists t'. rewrite Hr, Hq. split; [done|]. by exists a', Ds.
Qed.

Lemma rep_put fuel key data t m :
  tree_rep t m -> t_level t < Z.of_nat fuel ->
  exists t', bplus_tree_put fuel key data t = Ok (fst (put_spec m key data), t') /\ tree_rep t' (snd (put_spec m key data)).
Proof.
  intros (a & Ds & Hs & Hi & ->) Hl. rewrite (shows_level _ _ Hs), (inv_level _ _ Hi) in Hl.
  destruct (rep_run (bplus_tree_put fuel key data) t a _ Hs (put_ok fuel key data Ds a Hi ltac:(lia))) as (r & t' & a' & Hr & Hs' & Hq & Ls & Hi' & Hm).
  exists t'. rewrite Hr, Hq. split; [done|]. by exists a', Ls.
Qed.

(** ** The empty index *)

Lemma rep_empty buffers :
  length buffers = MIN_CACHE_NUM -> Forall node_sized buffers -> tree_rep (empty_tree buffers) ∅.
Proof.
  intros Hl Hb. exists (mkView ∅ None ∅ 0 INV 0 []), []. split_and!; [split| |done]; simpl; try done.
  - intros i Hi. rewrite lookup_empty, bool_decide_false by (by intros [? ?]).
    by apply (lookup_replicate_2 MIN_CACHE_NUM).
  - split; try done. split_and!; simpl; [constructor|constructor|lia].
Qed.

(** ** The height *)

Lemma length_kids_ge n lv :
  Forall wide lv -> Forall (fun a => n <= length (l_vals a))%nat lv -> (n * length lv <= length (kids lv))%nat.
Proof.
  induction 1 as [|a lv Ha _ IH]; intros Hf; simpl; [lia|]. inversion_clear Hf as [|? ? Hn Hf'].
  rewrite kids_cons, length_app. specialize (IH Hf').
  assert (length (kid a) = length (l_vals a)) as -> by (rewrite kid_kid_of, <- (length_fmap id_off), kid_of_offs; done). lia.
Qed.

Lemma length_entries_ge n lv :
  Forall full lv -> Forall (fun a => n <= length (l_vals a))%nat lv -> (n * length lv <= length (entries lv))%nat.
Proof.
  induction 1 as [|a lv Ha _ IH]; intros Hf; simpl; [lia|]. inversion_clear Hf as [|? ? Hn Hf'].
  rewrite entries_cons, length_app. specialize (IH Hf'). unfold entry, full in *. rewrite length_zip_with. lia.
Qed.

Lemma count_down fd I D Ds :
  down_ok fd false I (D :: Ds) -> (length D * nsplit ^ S (length Ds) <= length (contents (D :: Ds)))%nat.
Proof.
  revert I D. induction Ds as [|E Ds IH]; intros I D (-> & Hl & Hd).
  - pose proof (length_entries_ge lsplit D (lvl_full _ _ _ Hl) (proj2 Hl)) as H.
    pose proof lsplit_bounds. pose proof nsplit_bounds. unfold contents. simpl. nia.
  - pose proof (length_kids_ge nsplit D (lvl_wide _ _ _ Hl) (proj2 Hl)) as H. pose proof (IH _ _ Hd) as HE.
    destruct Hd as (Hk & _). assert (length E = length (kids D)) as HlE by (rewrite Hk; unfold ids; by rewrite length_fmap).
    change (contents (D :: E :: Ds)) with (contents (E :: Ds)). rewrite HlE in HE.
    change (length (E :: Ds)) with (S (length Ds)). rewrite (Nat.pow_succ_r' _ (S (length Ds))). nia.
Qed.

Lemma height_inv Ds a :
  tree_inv Ds a -> (2 <= length Ds)%nat -> (2 * nsplit ^ (length Ds - 1) <= length (contents Ds))%nat.
Proof.
  intros Hi Hl. destruct Ds as [|D [|E Ds]]; simpl in Hl; [lia|lia|]. pose proof (inv_tree _ _ Hi) as (HI & Hd & Hd').
  pose proof (count_down _ _ _ _ Hd') as HE. destruct Hd' as (Hk & _).
  assert (length E = length (kids D)) as HlE by (rewrite Hk; unfold ids; by rewrite length_fmap).
  pose proof (length_kids_ge 2 D (lvl_wide _ _ _ Hd) (proj2 Hd)) as HD.
  assert (length D = 1%nat) as HlD by (rewrite <- (length_fmap id_of); change (id_of <$> D) with (ids D); by rewrite <- HI).
  change (contents (D :: E :: Ds)) with (contents (E :: Ds)). simpl (_ - 1)%nat. 
  transitivity (length E * nsplit ^ S (length Ds))%nat; [|done]. apply Nat.mul_le_mono_r. lia.
Qed.

(** The leaves of a tree. *)
Lemma down_leaves fd top I D Ds :
  down_ok fd top I (D :: Ds) -> exists lv, contents (D :: Ds) = entries lv /\ leaves_ok lv /\ seg fd true INV lv INV.
Proof.
  revert top I D. induction Ds as [|E Ds IH]; intros top I D Hd.
  - destruct Hd as (_ & Hl & Ha). exists D. split; [done|]. split; [|apply Hl].
    split_and!; [done|by eapply lvl_nonempty|by eapply lvl_full].
  - destruct Hd as (_ & _ & Hd). apply (IH _ _ _ Hd).
Qed.

Lemma contents_NoDup Ds a : tree_inv Ds a -> NoDup ((contents Ds).*1).
Proof.
  intros Hi. pose proof (inv_tree _ _ Hi) as Ht. destruct Ds as [|D Ds]; [constructor|].
  destruct (down_leaves _ _ _ _ _ Ht) as (lv & -> & Hlv & _). by apply leaves_NoDup.
Qed.

Lemma size_contents Ds a : tree_inv Ds a -> size (as_map Ds) = length (contents Ds).
Proof.
  intros Hi. unfold as_map. rewrite map_size_list_to_map; [done|]. by eapply contents_NoDup.
Qed.

(** ** The leaves as a chain *)

(** The leftmost leaf below the block at [o], [h] levels down. *)
Fixpoint first_leaf (h : nat) (fd : gmap Z bplus_node) (o : Z) : Z :=
  match h with
  | O => o
  | S h => match fd !! o with Some n => first_leaf h fd (default INV (head (n_val n))) | None => INV end
  end.

(** The entries of the leaves from [o] on, along the [next] links. *)
Fixpoint leaf_walk (fuel : nat) (fd : gmap Z bplus_node) (o : Z) : list (Z * Z) :=
  match fuel with
  | O => []
  | S fuel =>
      if o =? INV then [] else
      match fd !! o with
      | Some n => zip (take (Z.to_nat (n_children n)) (n_key n)) (take (Z.to_nat (n_children n)) (n_val n)) ++
                  leaf_walk fuel fd (n_next n)
      | None => []
      end
  end.

Lemma seg_walk fd pv lv fuel :
  seg fd true pv lv INV -> Forall (fun y => y <> INV) (offs_of lv) -> (length lv <= fuel)%nat -> leaf_walk fuel fd (hd_off lv INV) = entries lv.
Proof.
  revert pv fuel. induction lv as [|a lv IH]; intros pv fuel Hs Hi Hf.
  - by destruct fuel.
  - destruct fuel as [|fuel]; simpl in Hf; [lia|]. destruct Hs as ((N & HN & HhN & HnN) & Hs). simpl.
    inversion_clear Hi as [|? ? Hi1 Hi2]. rewrite (proj2 (Z.eqb_neq _ _) Hi1), HN, (ni_children _ _ _ _ HnN), Nat2Z.id, (ni_vals _ _ _ _ HnN), entries_cons.
    pose proof (ni_len _ _ _ _ HnN) as Hl. simpl in Hl. rewrite Hl, Nat.add_0_r, (ni_keys _ _ _ _ HnN). f_equal.
    assert (n_next N = hd_off lv INV) as -> by (unfold hdr in HhN; congruence). apply (IH _ _ Hs Hi2). lia.
Qed.

Lemma seg_first fd lf a lv nx : seg fd lf INV (a :: lv) nx -> exists N, fd !! l_off a = Some N /\ node_is N lf (l_keys a) (l_vals a).
Proof. intros ((N & ? & _ & ?) & _). eauto. Qed.

Lemma first_leaf_down fd top I a D Ds :
  down_ok fd top I ((a :: D) :: Ds) ->
  exists lv, contents ((a :: D) :: Ds) = entries lv /\ leaves_ok lv /\ seg fd true INV lv INV /\
    first_leaf (length Ds) fd (l_off a) = hd_off lv INV /\ (forall y, y ∈ offs_of lv -> y ∈ offs ((a :: D) :: Ds)).
Proof.
  revert top I a D. induction Ds as [|E Ds IH]; intros top I a D Hd.
  - destruct Hd as (_ & Hl & Ha). exists (a :: D). split; [done|]. split_and!; [|apply Hl|done|by rewrite offs_one].
    split_and!; [done|by eapply lvl_nonempty|by eapply lvl_full].
  - destruct Hd as (_ & Hl & Hd). pose proof Hd as (Hk & _). destruct (seg_first _ _ _ _ _ (proj1 Hl)) as (N & HN & HnN).
    pose proof (lvl_wide _ _ _ Hl) as Hw. inversion_clear Hw as [|? ? Hw' _]. unfold wide in Hw'.
    destruct (l_vals a) as [|v vs] eqn:Ev; [done|]. rewrite kids_cons, kid_kid_of, Ev in Hk.
    destruct E as [|e E]; [done|]. unfold kid_of in Hk. simpl in Hk. injection Hk as He _.
    destruct (IH _ _ _ _ Hd) as (lv & ? & ? & ? & Hf & Hin). exists lv. split_and!; [done..| |intros y Hy; rewrite offs_cons, elem_of_app; right; by apply Hin].
    simpl. rewrite HN.
    pose proof (ni_vals _ _ _ _ HnN) as Hv. destruct (n_val N) as [|v' ?]; [done|]. simpl in Hv. injection Hv as -> _. simpl.
    unfold id_of, mk_id in He. assert (v = l_off e) as -> by congruence. done.
Qed.

(** ** The blocks of the file *)

(** The blocks of the subtree below [o], [h] levels high. *)
Fixpoint subtree (h : nat) (fd : gmap Z bplus_node) (o : Z) : list Z :=
  match h with
  | O => [o]
  | S h => o :: match fd !! o with
                | Some n => concat (subtree h fd <$> take (Z.to_nat (n_children n)) (n_val n))
                | None => []
                end
  end.

Lemma concat_cons_perm {X : Type} (f : X -> Z) (g : X -> list Z) (l : list X) :
  concat ((fun x => f x :: g x) <$> l) ≡ₚ (f <$> l) ++ concat (g <$> l).
Proof.
  induction l as [|x l IH]; [done|]. simpl. rewrite IH. apply perm_skip. rewrite !app_assoc.
  apply Permutation_app_tail, Permutation_app_comm.
Qed.

Lemma kids_offs lv : Forall wide lv -> id_off <$> kids lv = concat (l_vals <$> lv).
Proof.
  induction 1 as [|a lv Ha _ IH]; [done|]. rewrite kids_cons, fmap_app, IH, kid_kid_of, kid_of_offs; done.
Qed.

Lemma subtree_down fd top I D Ds :
  down_ok fd top I (D :: Ds) -> concat (subtree (length Ds) fd <$> offs_of D) ≡ₚ offs (D :: Ds).
Proof.
  revert top I D. induction Ds as [|E Ds IH]; intros top I D Hd.
  - rewrite offs_one. simpl. generalize (offs_of D). clear. intros l. induction l; simpl; [done|]. by rewrite IHl.
  - destruct Hd as (_ & Hl & Hd). pose proof Hd as (Hk & _). rewrite (offs_cons D), <- (IH _ _ _ Hd), (offs_of_ids E), <- Hk.
    pose proof (lvl_wide _ _ _ Hl) as Hw. rewrite (kids_offs _ Hw). destruct Hl as [Hs _]. clear Hd Hk IH Hw.
    unfold offs_of. rewrite <- list_fmap_compose.
    transitivity (concat ((fun a => l_off a :: concat (subtree (length Ds) fd <$> l_vals a)) <$> D)).
    + apply reflexive_eq. f_equal. apply list_fmap_ext. intros i a Ha. simpl.
      apply list_elem_of_lookup_2, list_elem_of_split in Ha as (A & B & ->). apply seg_blk in Hs as (N & HN & _ & HnN).
      by rewrite HN, (ni_children _ _ _ _ HnN), Nat2Z.id, (ni_vals _ _ _ _ HnN).
    + rewrite concat_cons_perm. apply Permutation_app_head, reflexive_eq.
      clear Hs. induction D as [|a D IH]; [done|]. cbn [fmap list_fmap concat]. by rewrite fmap_app, concat_app, IH.
Qed.

Lemma space_blocks os fs fr :
  space os fs fr -> os ++ fr ≡ₚ (fun i => _block_size * Z.of_nat i) <$> seq 0 (Z.to_nat (fs / _block_size)).
Proof.
  intros (Hnd & Hf & Hfs). pose proof cfg_block as Hb.
  assert (Z.to_nat (fs / _block_size) = length (os ++ fr)) as -> by (rewrite Hfs, Z.mul_comm, Z.div_mul by lia; lia).
  apply submseteq_length_Permutation; [|by rewrite length_fmap, length_seq].
  apply NoDup_submseteq; [done|]. intros o Ho. rewrite Forall_forall in Hf. destruct (Hf o Ho) as [Hr [q Hq]].
  apply list_elem_of_fmap. exists (Z.to_nat q). assert (0 <= q) by nia. split; [rewrite Z2Nat.id by lia; lia|].
  apply elem_of_seq. assert (q < Z.of_nat (length (os ++ fr))) by nia. lia.
Qed.
(** ** Sequences of operations *)

Inductive op : Type :=
  | OpPut (key data : Z)
  | OpGet (key : Z).

Definition run_op (fuel : nat) (o : op) : T Z :=
  match o with
  | OpPut key data => bplus_tree_put fuel key data
  | OpGet key => bplus_tree_get fuel key
  end.

Fixpoint run_ops (fuel : nat) (os : list op) : T (list Z) :=
  match os with
  | [] => ret []
  | o :: os => r <- run_op fuel o ;; rs <- run_ops fuel os ;; ret (r :: rs)
  end.

Definition spec_op m (o : op) : Z * gmap Z Z :=
  match o with
  | OpPut key data => put_spec m key data
  | OpGet key => (search_result (m !! key), m)
  end.

Fixpoint spec_ops m (os : list op) : list Z * gmap Z Z :=
  match os with
  | [] => ([], m)
  | o :: os => let (r, m') := spec_op m o in let (rs, m'') := spec_ops m' os in (r :: rs, m'')
  end.

Lemma rep_op fuel o t m :
  tree_rep t m -> t_level t < Z.of_nat fuel ->
  exists t', run_op fuel o t = Ok (fst (spec_op m o), t') /\ tree_rep t' (snd (spec_op m o)).
Proof. destruct o; [apply rep_put|apply rep_get]. Qed.

Lemma size_spec_op m o : (size (snd (spec_op m o)) <= S (size m))%nat.
Proof.
  destruct o as [key data|key]; simpl; [|lia]. unfold put_spec. destruct (data =? 0), (m !! key) eqn:E; simpl; try lia.
  - rewrite map_size_delete, E. lia.
  - rewrite map_size_insert, E. lia.
Qed.

Lemma rep_height t m :
  tree_rep t m -> 2 <= t_level t -> 2 * (_max_order / 2) ^ (t_level t - 1) <= Z.of_nat (size m).
Proof.
  intros (a & Ds & Hs & Hi & ->) Hl. rewrite (shows_level _ _ Hs), (inv_level _ _ Hi) in *. change (list_to_map (contents Ds)) with (as_map Ds).
  pose proof (height_inv _ _ Hi ltac:(lia)) as Hh. pose proof cfg_entries.
  rewrite (size_contents _ _ Hi). apply Nat2Z.inj_le in Hh. rewrite Nat2Z.inj_mul, Nat2Z.inj_pow in Hh.
  assert (Z.of_nat nsplit = _max_order / 2) as <-.
  { unfold nsplit. rewrite Nat2Z.inj_div, cfg_order. f_equal. lia. }
  replace (Z.of_nat (length Ds) - 1) with (Z.of_nat (length Ds - 1)) by lia. exact Hh.
Qed.

Lemma rep_level_size t m : tree_rep t m -> t_level t <= Z.of_nat (size m).
Proof.
  intros Hrep. destruct (Z.le_gt_cases 2 (t_level t)) as [Hl|Hl].
  - pose proof (rep_height _ _ Hrep Hl) as Hh. assert (t_level t - 1 < 2 ^ (t_level t - 1)) by (apply Z.pow_gt_lin_r; lia).
    assert (2 <= _max_order / 2) as Ho by (apply Z.div_le_lower_bound; pose proof cfg_min; lia).
    pose proof (Z.pow_le_mono_l 2 (_max_order / 2) (t_level t - 1) (conj (Z.le_0_2) Ho)). lia.
  - destruct Hrep as (a & Ds & Hs & Hi & ->). rewrite (shows_level _ _ Hs), (inv_level _ _ Hi) in *.
    change (list_to_map (contents Ds)) with (as_map Ds). rewrite (size_contents _ _ Hi).
    destruct Ds as [|D Ds]; [simpl; lia|]. destruct Ds as [|E Ds]; [|simpl in Hl; lia].
    pose proof (inv_tree _ _ Hi) as (HI & Hl' & _). unfold contents. simpl.
    pose proof (length_entries_ge 1 D (lvl_full _ _ _ Hl') (proj2 Hl')) as He.
    assert (length D = 1%nat) as HlD by (rewrite <- (length_fmap id_of); change (id_of <$> D) with (ids D); by rewrite <- HI). lia.
Qed.

Lemma rep_ops fuel os t m :
  tree_rep t m -> (size m + length os < fuel)%nat ->
  exists t', run_ops fuel os t = Ok (fst (spec_ops m os), t') /\ tree_rep t' (snd (spec_ops m os)).
Proof.
  revert t m. induction os as [|o os IH]; intros t m Hrep Hf; [by exists t|]. simpl in Hf.
  destruct (rep_op fuel o t m Hrep) as (t' & Hr & Hrep'); [pose proof (rep_level_size _ _ Hrep); lia|].
  pose proof (size_spec_op m o) as Hsz. simpl. destruct (spec_op m o) as [r m'] eqn:Eo. simpl in *.
  destruct (IH t' m' Hrep') as (t'' & Hrs & Hrep''); [lia|]. destruct (spec_ops m' os) as [rs m''] eqn:Es. simpl in *.
  exists t''. split; [|done]. unfold bind, ret. by rewrite Hr, Hrs.
Qed.

Lemma rep_space t m :
  tree_rep t m ->
  (if t_level t =? 0 then [] else subtree (Z.to_nat (t_level t) - 1) (t_fd t) (t_root t)) ++ t_free_blocks t ≡ₚ
  (fun i => _block_size * Z.of_nat i) <$> seq 0 (Z.to_nat (t_file_size t / _block_size)).
Proof.
  intros (a & Ds & Hs & Hi & ->). rewrite (shows_level _ _ Hs), (shows_fsize _ _ Hs), (shows_free _ _ Hs), (shows_fd _ _ Hs), (shows_root _ _ Hs).
  rewrite (inv_level _ _ Hi). pose proof (inv_space _ _ Hi) as Hsp. rewrite <- (space_blocks _ _ _ Hsp). apply Permutation_app_tail.
  pose proof (inv_tree _ _ Hi) as Ht. destruct Ds as [|D Ds]; [done|].
  rewrite (proj2 (Z.eqb_neq _ _)) by (simpl; lia). rewrite <- (subtree_down _ _ _ _ _ Ht). destruct Ht as (HI & _).
  assert (offs_of D = [v_root a]) as -> by (by rewrite offs_of_ids, <- HI). rewrite Nat2Z.id. cbn [length fmap list_fmap concat]. by rewrite app_nil_r, Nat.sub_succ, Nat.sub_0_r.
Qed.

Lemma rep_chain t m fuel :
  tree_rep t m -> 0 < t_level t -> (size m <= fuel)%nat ->
  let l := leaf_walk fuel (t_fd t) (first_leaf (Z.to_nat (t_level t) - 1) (t_fd t) (t_root t)) in
  sorted (l.*1) /\ list_to_map l = m.
Proof.
  intros (a & Ds & Hs & Hi & ->) Hl Hf. rewrite (shows_level _ _ Hs), (shows_fd _ _ Hs), (shows_root _ _ Hs) in *.
  change (list_to_map (contents Ds)) with (as_map Ds) in *. rewrite (size_contents _ _ Hi) in Hf.
  rewrite (inv_level _ _ Hi) in *. pose proof (inv_tree _ _ Hi) as Ht. destruct Ds as [|D Ds]; [simpl in Hl; lia|].
  pose proof Ht as (HI & _). destruct D as [|d D]; [done|]. assert (v_root a = l_off d) as Hr by (unfold ids, id_of, mk_id in HI; simpl in HI; congruence).
  destruct (first_leaf_down _ _ _ _ _ _ Ht) as (lv & Hc & Hok & Hseg & Hfirst & Hin).
  rewrite Nat2Z.id, Hr. cbn [length]. rewrite Nat.sub_succ, Nat.sub_0_r, Hfirst. cbn zeta. destruct Hok as (Ha & Hn & Hfu).
  rewrite (seg_walk _ INV lv fuel Hseg).
  - split; [rewrite entries_keys by done; by eapply asc_sorted|]. unfold as_map. by rewrite Hc.
  - apply Forall_forall. intros y Hy. by apply (space_valid _ _ _ y (inv_space _ _ Hi)), Hin.
  - rewrite Hc in Hf. pose proof (length_entries_ge 1 lv Hfu) as He. rewrite Nat.mul_1_l in He. etransitivity; [apply He|done].
    apply Forall_forall. intros b Hb. rewrite Forall_forall in Hn, Hfu. specialize (Hn b Hb). specialize (Hfu b Hb).
    unfold full, nonempty in *. destruct (l_keys b); [done|]. rewrite Hfu. simpl. lia.
Qed.

Lemma rep_get_range fuel sc key1 key2 t m :
  tree_rep t m -> t_level t < Z.of_nat fuel -> (size m < sc)%nat -> is_Some (m !! Z.min key1 key2) ->
  exists r t', bplus_tree_get_range fuel sc key1 key2 t = Ok (r, t') /\ tree_rep t' m /\
    in_range m (Z.min key1 key2) (Z.max key1 key2) r.
Proof.
  intros (a & Ds & Hs & Hi & ->) Hl Hsc Hx. rewrite (shows_level _ _ Hs), (inv_level _ _ Hi) in Hl.
  change (list_to_map (contents Ds)) with (as_map Ds) in *. rewrite (size_contents _ _ Hi) in Hsc.
  destruct (rep_run (bplus_tree_get_range fuel sc key1 key2) t a _ Hs (get_range_ok fuel sc key1 key2 Ds a Hi ltac:(lia) Hsc Hx))
    as (r & t' & a' & Hr & Hs' & Hq & Hi').
  exists r, t'. split_and!; [done| |done]. by exists a', Ds.
Qed.
End spec.
