(* ===== verification/BPlusMain.v ===== *)
(** * The properties of the B+ tree

    A tree that stores a map keeps storing the right map; nothing fails, no
    block of the file is lost, and the height is logarithmic.  The last
    statement shows what the code does with data that do not fit an [int]. *)

From S2P Require Import Prelude BPlusTree BPlusOps BPlusView BPlusNode BPlusLevels BPlusInv BPlusSearch BPlusPut BPlusDelete BPlusRange BPlusSpec.

(** ** A small configuration, to run the model on

    The globals for 128-byte blocks: seven entries or children per node. *)
Definition cfg128 : Config := mkConfig 128 7 7.

#[export] Instance cfg128_ok : ConfigOk cfg128.
Proof. split; vm_compute; congruence. Qed.

(** A buffer full of zeros, as [malloc] may return it. *)
Definition blank : bplus_node := mkNode 0 0 0 0 0 0 (replicate 7 0) (replicate 7 0).
Definition tree128 : bplus_tree := empty_tree (replicate MIN_CACHE_NUM blank).

Lemma tree128_rep : tree_rep (cfg := cfg128) tree128 ∅.
Proof. apply rep_empty; [done|]. by repeat constructor. Qed.

Section main.
Context `{Hcfg : ConfigOk}.

(** C1. [bplus_tree_put] on a tree that stores [m] never fails, and leaves a
    tree that stores the map of the specification: a non-zero datum is added
    under a new key (result 0) and refused for a key that is there (-1); a zero
    datum deletes the key (0), or is refused when it is not there (-1).  The
    fuel is enough as soon as it exceeds the height. *)
Theorem bplus_tree_put_refines fuel key data t m :
  tree_rep t m -> t_level t < Z.of_nat fuel ->
  exists t', bplus_tree_put fuel key data t = Ok (fst (put_spec m key data), t') /\
    tree_rep t' (snd (put_spec m key data)).
Proof. apply rep_put. Qed.

(** C2. [bplus_tree_get] on a tree that stores [m] never fails, changes
    nothing, and returns -1 for an absent key and otherwise the stored datum
    converted to [int]. *)
Theorem bplus_tree_get_refines fuel key t m :
  tree_rep t m -> t_level t < Z.of_nat fuel ->
  exists t', bplus_tree_get fuel key t =
      Ok (match m !! key with Some d => int_of_long d | None => -1 end, t') /\ tree_rep t' m.
Proof. apply rep_get. Qed.

(** C3. Any sequence of [bplus_tree_put] and [bplus_tree_get] from an empty
    index runs to its end without a failed assertion, an access outside a
    node, a null dereference or more than the five cache buffers, and answers
    as the map does; as many steps per operation as there are operations are
    enough. *)
Theorem bplus_tree_trace os buffers fuel :
  length buffers = MIN_CACHE_NUM -> Forall node_sized buffers -> (length os < fuel)%nat ->
  exists t', run_ops fuel os (empty_tree buffers) = Ok (fst (spec_ops ∅ os), t') /\
    tree_rep t' (snd (spec_ops ∅ os)).
Proof. intros Hl Hb Hf. apply rep_ops; [by apply rep_empty|]. by rewrite map_size_empty. Qed.

(** C4. The shape of a tree that stores a map.  No block of the index file is
    lost and none is used twice: the blocks of the tree, found by a walk from
    the root, and the free list together are exactly the blocks of the file,
    each once.  From the leftmost leaf the [next] links pass all the entries of
    the map, in the order of their keys.  A tree of [h >= 2] levels stores at
    least [2 * (order / 2) ^ (h - 1)] entries. *)
Theorem bplus_tree_structure t m :
  tree_rep t m ->
  (if t_level t =? 0 then [] else subtree (Z.to_nat (t_level t) - 1) (t_fd t) (t_root t)) ++ t_free_blocks t ≡ₚ
    (fun i => _block_size * Z.of_nat i) <$> seq 0 (Z.to_nat (t_file_size t / _block_size)) /\
  (0 < t_level t -> forall fuel, (size m <= fuel)%nat ->
     let l := leaf_walk fuel (t_fd t) (first_leaf (Z.to_nat (t_level t) - 1) (t_fd t) (t_root t)) in
     sorted (l.*1) /\ list_to_map l = m) /\
  (2 <= t_level t -> 2 * (_max_order / 2) ^ (t_level t - 1) <= Z.of_nat (size m)).
Proof. intros Ht. split_and!; [by eapply rep_space|intros Hl fuel; by apply rep_chain|by apply rep_height]. Qed.

(** C7. [bplus_tree_get_range], when its smaller bound is a key of the tree,
    never fails and returns the datum under the largest key of the range. *)
Theorem bplus_tree_get_range_present fuel sc key1 key2 t m :
  tree_rep t m -> t_level t < Z.of_nat fuel -> (size m < sc)%nat -> is_Some (m !! Z.min key1 key2) ->
  exists r t', bplus_tree_get_range fuel sc key1 key2 t = Ok (r, t') /\ tree_rep t' m /\
    in_range m (Z.min key1 key2) (Z.max key1 key2) r.
Proof. apply rep_get_range. Qed.
End main.

(** ** The theorems at a concrete tree *)

Lemma bplus_tree_put_refines_witness :
  exists t', bplus_tree_put (cfg := cfg128) 5 3 30 tree128 = Ok (0, t') /\ tree_rep (cfg := cfg128) t' {[3 := 30]}.
Proof. apply (bplus_tree_put_refines (cfg := cfg128) 5 3 30 tree128 ∅ tree128_rep). reflexivity. Defined.

Lemma bplus_tree_get_refines_witness :
  exists t', bplus_tree_get (cfg := cfg128) 5 3 tree128 = Ok (-1, t') /\ tree_rep (cfg := cfg128) t' ∅.
Proof. apply (bplus_tree_get_refines (cfg := cfg128) 5 3 tree128 ∅ tree128_rep). reflexivity. Defined.

(** Eight insertions split the only leaf; deletions merge it again. *)
Definition ops_split : list op :=
  [OpPut 10 1; OpPut 20 2; OpPut 30 3; OpPut 40 4; OpPut 50 5; OpPut 60 6; OpPut 70 7; OpPut 80 8].
Definition ops_merge : list op :=
  [OpPut 80 0; OpGet 50; OpPut 20 0; OpPut 10 0; OpPut 10 0; OpGet 20; OpGet 40].

Lemma bplus_tree_trace_witness :
  exists t', run_ops (cfg := cfg128) 20 (ops_split ++ ops_merge) tree128 =
      Ok ([0; 0; 0; 0; 0; 0; 0; 0; 0; 5; 0; 0; -1; -1; 4], t') /\
    tree_rep (cfg := cfg128) t' (snd (spec_ops ∅ (ops_split ++ ops_merge))).
Proof.
  apply (bplus_tree_trace (cfg := cfg128) (ops_split ++ ops_merge) (replicate MIN_CACHE_NUM blank) 20);
    [reflexivity|by repeat constructor|vm_compute; lia].
Defined.

(** The tree after the eight insertions: a root over two leaves. *)
Definition split_tree : bplus_tree :=
  match run_ops (cfg := cfg128) 20 ops_split tree128 with Ok (_, t) => t | Err _ => tree128 end.
Definition split_map : gmap Z Z := snd (spec_ops ∅ ops_split).

Lemma split_rep : tree_rep (cfg := cfg128) split_tree split_map.
Proof.
  destruct (rep_ops (cfg := cfg128) 20 ops_split tree128 ∅ tree128_rep) as (t' & Hr & Ht); [vm_compute; lia|].
  unfold split_tree. by rewrite Hr.
Qed.

Lemma bplus_tree_structure_witness :
  (if t_level split_tree =? 0 then [] else subtree (Z.to_nat (t_level split_tree) - 1) (t_fd split_tree) (t_root split_tree)) ++
    t_free_blocks split_tree ≡ₚ [0; 128; 256] /\
  (let l := leaf_walk 8 (t_fd split_tree) (first_leaf (Z.to_nat (t_level split_tree) - 1) (t_fd split_tree) (t_root split_tree)) in
   sorted (l.*1) /\ list_to_map l = split_map) /\
  2 * (7 / 2) ^ (t_level split_tree - 1) <= Z.of_nat (size split_map).
Proof.
  destruct (bplus_tree_structure (cfg := cfg128) split_tree split_map split_rep) as (H1 & H2 & H3). split_and!.
  - apply H1.
  - apply (H2 eq_refl 8%nat). vm_compute. lia.
  - apply H3. vm_compute. congruence.
Defined.

Lemma bplus_tree_get_range_present_witness :
  exists r t', bplus_tree_get_range (cfg := cfg128) 3 10 75 30 split_tree = Ok (r, t') /\ tree_rep (cfg := cfg128) t' split_map /\
    in_range split_map 30 75 r.
Proof.
  apply (bplus_tree_get_range_present (cfg := cfg128) 3 10 75 30 split_tree split_map split_rep);
    [reflexivity|vm_compute; lia|vm_compute; eauto].
Defined.

(** ** Data that do not fit an [int] *)

(** [bplus_tree_search] keeps the datum, a [long], in an [int]: a datum of
    2^32 stored under a key comes back as 0. *)
Example bplus_tree_get_truncates :
  exists t1 t2, bplus_tree_put (cfg := cfg128) 5 1 (2 ^ 32) tree128 = Ok (0, t1) /\
    tree_rep (cfg := cfg128) t1 {[1 := 2 ^ 32]} /\ bplus_tree_get (cfg := cfg128) 5 1 t1 = Ok (0, t2).
Proof.
  destruct (rep_put (cfg := cfg128) 5 1 (2 ^ 32) tree128 ∅ tree128_rep) as (t1 & H1 & Hr1); [done|].
  destruct (rep_get (cfg := cfg128) 5 1 t1 _ Hr1) as (t2 & H2 & _).
  { pose proof (rep_level_size _ _ Hr1) as Hl.
    assert (size (snd (put_spec ∅ 1 (2 ^ 32))) = 1%nat) as Hsz by reflexivity. lia. }
  by exists t1, t2.
Qed.
