(* ===== verification/BPlusLevel.v ===== *)
(** * The level count of a tree is not read

    The operations change [level] with the height of the tree but never look at
    it, so they do the same on trees that differ in it only.  A tree read back
    from its boot file has lost its level count; what holds of the tree that was
    closed carries over to it. *)

From S2P Require Import Prelude BPlusTree BPlusOps BPlusView BPlusNode BPlusLevels BPlusInv BPlusSpec.

(** Two trees that differ at most in [level]. *)
Definition same (t t' : bplus_tree) : Prop := t' = set_level (t_level t') t.

(** A computation that does the same on such trees. *)
Definition blind {A} (m : T A) : Prop :=
  forall t t', same t t' ->
    match m t, m t' with
    | Ok (a, t1), Ok (a', t1') => a = a' /\ same t1 t1'
    | Err e, Err e' => e = e'
    | _, _ => False
    end.

Lemma same_level l t : same t (set_level l t).
Proof. done. Qed.

Lemma blind_ret {A} (a : A) : blind (ret a).
Proof. intros t t' H. by split. Qed.

Lemma blind_fail {A} e : blind (fail e : T A).
Proof. intros t t' H. reflexivity. Qed.

Lemma blind_lift {A} (r : result A) : blind (lift r).
Proof. intros t t' H. unfold lift. by destruct r. Qed.

Lemma blind_assert b : blind (assert b).
Proof. destruct b; [apply blind_ret|apply blind_fail]. Qed.

Lemma blind_bind {A B} (m : T A) (k : A -> T B) : blind m -> (forall a, blind (k a)) -> blind (bind m k).
Proof.
  intros Hm Hk t t' H. unfold bind. specialize (Hm t t' H). destruct (m t) as [[a t1]|e], (m t') as [[a' t1']|e']; try done.
  destruct Hm as [<- H1]. by apply Hk.
Qed.

Lemma blind_gets {A} (f : bplus_tree -> A) : (forall l t, f (set_level l t) = f t) -> blind (gets f).
Proof. intros Hf t t' H. rewrite H. unfold gets. split; [by rewrite Hf|done]. Qed.

Lemma blind_modify (f : bplus_tree -> bplus_tree) : (forall l t, same (f t) (f (set_level l t))) -> blind (modify f).
Proof. intros Hf t t' H. rewrite H. by split. Qed.

Lemma blind_get_node p : blind (get_node p).
Proof. intros t t' H. rewrite H. unfold get_node. simpl. by destruct (t_caches t !! p). Qed.

Create HintDb blind.
#[export] Hint Resolve blind_ret blind_fail blind_lift blind_assert blind_get_node : blind.
#[export] Hint Extern 1 (blind (gets _)) => apply blind_gets; reflexivity : blind.
#[export] Hint Extern 1 (blind (modify _)) => apply blind_modify; reflexivity : blind.

(** Case analysis on the tests and matches of a computation, hints between. *)
Ltac blind :=
  repeat first
    [ progress auto with blind nocore
    | apply blind_bind; [|intros ?]
    | match goal with
      | |- blind (if ?b then _ else _) => destruct b
      | |- blind (match ?x with _ => _ end) => destruct x
      | |- blind (let _ := _ in _) => cbv zeta
      end ].

Section operations.
Context `{cfg : Config}.

Lemma blind_upd p f : blind (upd p f).
Proof. unfold upd, put_node. blind. Qed.

Lemma blind_put_node p n : blind (put_node p n).
Proof. unfold put_node. blind. Qed.
Hint Resolve blind_upd blind_put_node : blind.

Lemma blind_deref p : blind (deref p).
Proof. unfold deref. blind. Qed.

Lemma blind_key_at p i : blind (key_at p i).
Proof. unfold key_at. blind. Qed.

Lemma blind_val_at p i : blind (val_at p i).
Proof. unfold val_at. blind. Qed.

Lemma blind_set_key_at p i v : blind (set_key_at p i v).
Proof. unfold set_key_at. blind. Qed.

Lemma blind_set_val_at p i v : blind (set_val_at p i v).
Proof. unfold set_val_at. blind. Qed.

Lemma blind_memmove_key d di s si n : blind (memmove_key d di s si n).
Proof. unfold memmove_key. blind. Qed.

Lemma blind_memmove_val d di s si n : blind (memmove_val d di s si n).
Proof. unfold memmove_val. blind. Qed.
Hint Resolve blind_deref blind_key_at blind_val_at blind_set_key_at blind_set_val_at blind_memmove_key blind_memmove_val : blind.

(** The cache. *)
Lemma blind_cache_refer : blind cache_refer.
Proof. unfold cache_refer. blind. Qed.

Lemma blind_cache_defer p : blind (cache_defer p).
Proof. unfold cache_defer. blind. Qed.

Lemma blind_cache_mark p : blind (cache_mark p).
Proof. unfold cache_mark. blind. Qed.

Lemma blind_pread b o : blind (pread b o).
Proof. unfold pread. blind. Qed.
Hint Resolve blind_cache_refer blind_cache_defer blind_cache_mark blind_pread : blind.

Lemma blind_non_leaf_new : blind non_leaf_new.
Proof. unfold non_leaf_new, node_new. blind. Qed.

Lemma blind_leaf_new : blind leaf_new.
Proof. unfold leaf_new, node_new. blind. Qed.

Lemma blind_node_fetch o : blind (node_fetch o).
Proof. unfold node_fetch. blind. Qed.

Lemma blind_node_seek o : blind (node_seek o).
Proof. unfold node_seek. blind. Qed.

Lemma blind_node_flush p : blind (node_flush p).
Proof. unfold node_flush, pwrite. blind. Qed.

Lemma blind_new_node_append p : blind (new_node_append p).
Proof. unfold new_node_append. blind. Qed.
Hint Resolve blind_non_leaf_new blind_leaf_new blind_node_fetch blind_node_seek blind_node_flush blind_new_node_append : blind.

Lemma blind_node_delete p l r : blind (node_delete p l r).
Proof. unfold node_delete. blind. Qed.

Lemma blind_sub_node_update p i s : blind (sub_node_update p i s).
Proof. unfold sub_node_update. blind. Qed.

Lemma blind_sub_node_flush p o : blind (sub_node_flush p o).
Proof. unfold sub_node_flush. blind. Qed.
Hint Resolve blind_node_delete blind_sub_node_update blind_sub_node_flush : blind.

Lemma blind_child_of p k : blind (child_of p k).
Proof. unfold child_of. blind. Qed.
Hint Resolve blind_child_of : blind.

(** Search. *)
Lemma blind_search_loop fuel p k : blind (bplus_tree_search_loop fuel p k).
Proof. revert p. induction fuel as [|fuel IH]; intros p; cbn [bplus_tree_search_loop]; blind. Qed.

(** Insertion. *)
Lemma blind_left_node_add p l : blind (left_node_add p l).
Proof. unfold left_node_add. blind. Qed.

Lemma blind_right_node_add p r : blind (right_node_add p r).
Proof. unfold right_node_add. blind. Qed.

Lemma blind_flush_subs p i n s : blind (flush_subs p i n s).
Proof. revert i. induction n as [|n IH]; intros i; cbn [flush_subs]; blind. Qed.

Lemma blind_flush_subs_from p i n : blind (flush_subs_from p i n).
Proof. revert i. induction n as [|n IH]; intros i; cbn [flush_subs_from]; blind. Qed.
Hint Resolve blind_search_loop blind_left_node_add blind_right_node_add blind_flush_subs blind_flush_subs_from : blind.

Lemma blind_split_left p l lc rc k i s : blind (non_leaf_split_left p l lc rc k i s).
Proof. unfold non_leaf_split_left. blind. Qed.

Lemma blind_split_right1 p l lc rc k i s : blind (non_leaf_split_right1 p l lc rc k i s).
Proof. unfold non_leaf_split_right1. blind. Qed.

Lemma blind_split_right2 p l lc rc k i s : blind (non_leaf_split_right2 p l lc rc k i s).
Proof. unfold non_leaf_split_right2. blind. Qed.

Lemma blind_simple_insert p lc rc k i : blind (non_leaf_simple_insert p lc rc k i).
Proof. unfold non_leaf_simple_insert. blind. Qed.
Hint Resolve blind_split_left blind_split_right1 blind_split_right2 blind_simple_insert : blind.

Lemma blind_parent_build ins lc rc k : (forall p l r x, blind (ins p l r x)) -> blind (parent_node_build_with ins lc rc k).
Proof. intros Hi. unfold parent_node_build_with. blind. Qed.
Hint Resolve blind_parent_build : blind.

Lemma blind_non_leaf_insert fuel p lc rc k : blind (non_leaf_insert fuel p lc rc k).
Proof. revert p lc rc k. induction fuel as [|fuel IH]; intros p lc rc k; cbn [non_leaf_insert]; blind. Qed.
Hint Resolve blind_non_leaf_insert : blind.

Lemma blind_leaf_insert fuel p k d : blind (leaf_insert fuel p k d).
Proof. unfold leaf_insert, leaf_split_left, leaf_split_right, leaf_simple_insert, parent_node_build. blind. Qed.
Hint Resolve blind_leaf_insert : blind.

Lemma blind_insert_loop fuel up p k d : blind (bplus_tree_insert_loop fuel up p k d).
Proof. revert p. induction fuel as [|fuel IH]; intros p; cbn [bplus_tree_insert_loop]; blind. Qed.
Hint Resolve blind_insert_loop : blind.

(** Deletion. *)
Lemma blind_sibling_select l r p i : blind (sibling_select l r p i).
Proof. unfold sibling_select. blind. Qed.

Lemma blind_shift_from_left p l q i r : blind (non_leaf_shift_from_left p l q i r).
Proof. unfold non_leaf_shift_from_left. blind. Qed.

Lemma blind_merge_into_left p l q i r : blind (non_leaf_merge_into_left p l q i r).
Proof. unfold non_leaf_merge_into_left. blind. Qed.

Lemma blind_shift_from_right p l q i : blind (non_leaf_shift_from_right p l q i).
Proof. unfold non_leaf_shift_from_right. blind. Qed.

Lemma blind_merge_from_right p l q i : blind (non_leaf_merge_from_right p l q i).
Proof. unfold non_leaf_merge_from_right. blind. Qed.

Lemma blind_simple_remove p i : blind (non_leaf_simple_remove p i).
Proof. unfold non_leaf_simple_remove. blind. Qed.
Hint Resolve blind_sibling_select blind_shift_from_left blind_merge_into_left blind_shift_from_right blind_merge_from_right blind_simple_remove : blind.

Lemma blind_non_leaf_remove fuel p i : blind (non_leaf_remove fuel p i).
Proof. revert p i. induction fuel as [|fuel IH]; intros p i; cbn [non_leaf_remove]; blind. Qed.
Hint Resolve blind_non_leaf_remove : blind.

Lemma blind_leaf_remove fuel p k : blind (leaf_remove fuel p k).
Proof.
  unfold leaf_remove, leaf_shift_from_left, leaf_merge_into_left, leaf_shift_from_right, leaf_merge_from_right, leaf_simple_remove. blind.
Qed.
Hint Resolve blind_leaf_remove : blind.

Lemma blind_delete_loop fuel up p k : blind (bplus_tree_delete_loop fuel up p k).
Proof. revert p. induction fuel as [|fuel IH]; intros p; cbn [bplus_tree_delete_loop]; blind. Qed.
Hint Resolve blind_delete_loop : blind.

Lemma blind_run_ops fuel os : blind (run_ops fuel os).
Proof.
  induction os as [|o os IH]; cbn [run_ops]; [blind|].
  unfold run_op, bplus_tree_put, bplus_tree_get, bplus_tree_insert, bplus_tree_delete, bplus_tree_search. blind.
Qed.

(** A tree that differs in its level count from one that stores a map answers
    as that map does, and goes on to differ in its level count only. *)
Lemma rep_ops_level `{!ConfigOk cfg} fuel os t t' m :
  tree_rep t m -> same t t' -> (size m + length os < fuel)%nat ->
  exists t1 l, run_ops fuel os t' = Ok (fst (spec_ops m os), t1) /\ tree_rep (set_level l t1) (snd (spec_ops m os)).
Proof.
  intros Hrep Hs Hf. destruct (rep_ops fuel os t m Hrep Hf) as (t2 & Hr & Hrep2).
  pose proof (blind_run_ops fuel os t t' Hs) as Hb. rewrite Hr in Hb. destruct (run_ops fuel os t') as [[rs t1]|]; [|done].
  destruct Hb as [<- H1]. exists t1, (t_level t2). split; [done|]. rewrite H1. by destruct t2.
Qed.
End operations.
