(* ===== verification/BPlusAbsent.v ===== *)
(** * Range queries whose smaller bound is not stored

    [bplus_tree_get_range] goes on to the next leaf when its smaller bound lies
    behind the last key of the leaf it reached, but keeps the index it had
    there.  The theorem says what it returns in every case. *)

From S2P Require Import Prelude BPlusTree BPlusOps BPlusView BPlusNode BPlusEdit BPlusEditIns BPlusLevels BPlusInv BPlusSearch BPlusClimb BPlusPut BPlusDelete BPlusRange BPlusSpec BPlusMain.

(** The leaf the search for [x] reaches from the block at [o], [h] levels down. *)
Fixpoint leaf_for (h : nat) (fd : gmap Z bplus_node) (o x : Z) : Z :=
  match h with
  | O => o
  | S h =>
      match fd !! o with
      | Some n => leaf_for h fd (default INVALID_OFFSET (n_val n !! crank x (take (Z.to_nat (n_children n) - 1) (n_key n)))) x
      | None => INVALID_OFFSET
      end
  end.

Definition node_entries (n : bplus_node) : list (Z * Z) :=
  zip (take (Z.to_nat (n_children n)) (n_key n)) (take (Z.to_nat (n_children n)) (n_val n)).

(** What a query from [x] to [y] returns that reached the leaf [n]; [returns r]
    says that it returns [r].  If some key of the leaf is larger than [x], it
    finds the largest key of the range, or there is none.  If none is, and the
    leaf is the last one, it returns -1.  Otherwise it goes on at the next leaf
    [n'] behind as many cells as [n] has entries, although all entries of [n']
    are above [x]: it stops there if that cell holds a key above [y], takes its
    content for an entry even if [n'] has fewer entries, and leaves the array of
    the keys if [n] is full. *)
Definition range_absent `{cfg : Config} (fd : gmap Z bplus_node) (m : gmap Z Z) (sc : nat) (x y : Z) (n : bplus_node)
    (returns : Z -> Prop) (bounds_error : Prop) : Prop :=
  if forallb (fun e => e.1 <? x) (node_entries n) then
    if n_next n =? INVALID_OFFSET then returns (-1) /\ (forall k, is_Some (m !! k) -> k < x)
    else
      exists n', fd !! n_next n = Some n' /\ (forall e, e ∈ node_entries n' -> x < e.1 /\ m !! e.1 = Some e.2) /\
        if _max_entries <=? n_children n then bounds_error
        else
          let i := Z.to_nat (n_children n) in
          exists k d, n_key n' !! i = Some k /\ n_val n' !! i = Some d /\
            returns (scan y (-1) ((k, d) :: drop (S i) (node_entries n') ++ leaf_walk sc fd (n_next n')))
  else exists r, returns r /\ (in_range m x y r \/ r = -1 /\ forall k, is_Some (m !! k) -> ~ x <= k <= y).

Section absent.
Context `{Hcfg : ConfigOk}.

Abbreviation INV := INVALID_OFFSET.

(** [follows m P a]: what [m] returns in a state shown by [a], or the error it
    fails with, satisfies [P]. *)
Definition follows {A} (m : T A) (P : result (A * bplus_tree) -> Prop) (a : cview) : Prop := forall t, shows t a -> P (m t).

Lemma follows_bind {A B} (m : T A) (k : A -> T B) P a :
  awp m (fun x a' => follows (k x) P a') a -> follows (bind m k) P a.
Proof. intros Hm t Ht. destruct (Hm t Ht) as (x & t' & Hr & a' & Hs & Hk). unfold bind. rewrite Hr. by apply Hk. Qed.

Lemma follows_awp {A} (m : T A) (P : result (A * bplus_tree) -> Prop) Q a :
  awp m Q a -> (forall x t' a', shows t' a' -> Q x a' -> P (Ok (x, t'))) -> follows m P a.
Proof. intros Hm HP t Ht. destruct (Hm t Ht) as (x & t' & -> & a' & Hs & Hk). by eapply HP. Qed.

Lemma follows_fail {A B} (r : result A) (k : A -> T B) (P : result (B * bplus_tree) -> Prop) e a :
  r = Err e -> P (Err e) -> follows (bind (lift r) k) P a.
Proof. intros -> HP t Ht. exact HP. Qed.

(** The descent. *)
Lemma range_loop_leaf fuel sc x max P U A nd B Ds p N a :
  at_node x U A nd B Ds p N a -> (length Ds < fuel)%nat ->
  (forall f U' A' nd' B' p' N' a', at_node x U' A' nd' B' [] p' N' a' -> rest a a' ->
     last ((A ++ nd :: B) :: Ds) = Some (A' ++ nd' :: B') -> leaf_for (length Ds) (v_fd a) (l_off nd) x = l_off nd' ->
     follows (bplus_tree_get_range_loop (S f) sc (Some p') x max) P a') ->
  follows (bplus_tree_get_range_loop fuel sc (Some p) x max) P a.
Proof.
  revert U A nd B Ds p N a. induction fuel as [|fuel IH]; intros U A nd B Ds p N a H Hf HP; [lia|].
  destruct Ds as [|E Ds]; [by apply (HP fuel _ _ _ _ _ _ _ H)|].
  pose proof (at_sorted _ _ _ _ _ _ _ _ _ H) as Hs. pose proof (at_node_is _ _ _ _ _ _ _ _ _ H) as Hni.
  cbn [bplus_tree_get_range_loop]. apply follows_bind. eapply awp_get_seek; [by apply H|].
  apply follows_bind. eapply awp_lift; [by eapply key_binary_search_ok|].
  fold (found_at x (l_keys nd)). rewrite (ni_leaf _ _ _ _ Hni). cbn [is_nil].
  apply follows_bind. eapply awp_mono; [eapply (awp_child_off _ _ _ _ _ _ _ _ _ _ _ H)|intros o a' Ho; apply follows_bind, Ho].
  intros A' nd' B' p' N' a' -> Hv Hat Hr. apply (IH _ _ _ _ _ _ _ _ Hat); [simpl in Hf; lia|].
  intros f U2 A2 nd2 B2 p2 N2 a2 Hat2 Hr2 Hl2 Ho2. apply (HP f _ _ _ _ _ _ _ Hat2); [by eapply rest_trans|exact Hl2|].
  assert (v_fd a' = v_fd a) as Hfd by (unfold rest, w_seek in Hr; destruct a, a'; simpl in *; congruence).
  rewrite Hfd in Ho2. cbn [length leaf_for]. rewrite (at_fd _ _ _ _ _ _ _ _ _ H), (ni_children _ _ _ _ Hni), (ni_len _ _ _ _ Hni), Nat2Z.id.
  cbn [is_nil]. replace (length (l_keys nd) + 1 - 1)%nat with (length (l_keys nd)) by lia. rewrite (ni_keys _ _ _ _ Hni).
  rewrite (ni_val_lookup _ _ _ _ _ Hni), Hv by by eapply lookup_lt_Some. exact Ho2.
Qed.

(** ** The leaves *)

Lemma at_leaf_ok x U A nd B p N a : at_node x U A nd B [] p N a -> leaves_ok (A ++ nd :: B) /\ Forall (fun y => y <> INV) (offs_of (A ++ nd :: B)).
Proof.
  intros H. destruct (at_down _ _ _ _ _ _ _ _ _ H) as (_ & Hl & Ha). split.
  - split_and!; [done|by eapply lvl_nonempty|by eapply lvl_full].
  - apply Forall_forall. intros y Hy. apply (space_valid _ _ _ y (at_space _ _ _ _ _ _ _ _ _ H)). rewrite elem_of_app. right. by rewrite offs_one.
Qed.

(** The keys before and behind the leaf that covers [x]. *)
Lemma at_leaf_sides x U A nd B p N a :
  at_node x U A nd B [] p N a -> (forall e, e ∈ entries A -> e.1 < x) /\ (forall e, e ∈ entries B -> x < e.1).
Proof.
  intros H. destruct (at_leaf_ok _ _ _ _ _ _ _ _ H) as [(Ha & Hn & Hf) _]. pose proof (at_lo _ _ _ _ _ _ _ _ _ H) as Hlo. pose proof (at_hi _ _ _ _ _ _ _ _ _ H) as Hhi.
  apply asc_app in Ha as (HA & _ & _ & _ & HB). apply Forall_app in Hn as [HnA HnB]. apply Forall_app in Hf as [HfA HfB]. inversion_clear HnB. inversion_clear HfB.
  assert (forall e lv, Forall full lv -> e ∈ entries lv -> e.1 ∈ keys_of lv) as Hin by (intros e lv Hlv He; rewrite <- entries_keys by done; by apply list_elem_of_fmap_2).
  split; intros e He.
  - pose proof (asc_keys_hi _ _ _ HA HnA (Hin _ _ HfA He)) as Hlt. exact (blt_ble_trans (Fin e.1) (l_low nd) (Fin x) Hlt Hlo).
  - pose proof (asc_keys_low _ _ _ HB ltac:(done) (Hin _ B ltac:(done) He)) as Hle. exact (blt_ble_trans (Fin x) _ (Fin e.1) Hhi Hle).
Qed.

(** What the scan returns over the entries [L] from [x] on. *)
Lemma scan_from P L x max :
  sorted ((P ++ L).*1) -> (forall e, e ∈ P -> e.1 < x) -> (forall e, e ∈ L -> x <= e.1) ->
  in_range (list_to_map (P ++ L)) x max (scan max (-1) L) \/
  scan max (-1) L = -1 /\ forall k, is_Some ((list_to_map (P ++ L) : gmap Z Z) !! k) -> ~ x <= k <= max.
Proof.
  intros Hs HP HL. pose proof (sorted_NoDup _ Hs) as Hnd. pose proof Hs as Hs'. rewrite fmap_app in Hs'. apply sorted_app in Hs' as (_ & HsL & _).
  assert (forall k d, (list_to_map (P ++ L) : gmap Z Z) !! k = Some d -> x <= k -> (k, d) ∈ L) as Hback.
  { intros k d Hk Hx. apply elem_of_list_to_map_2 in Hk. apply elem_of_app in Hk as [Hk|]; [|done]. specialize (HP _ Hk). simpl in HP. lia. }
  destruct (decide (Exists (fun e => e.1 <= max) L)) as [Hex|Hno].
  - left. apply Exists_exists in Hex as (e & He & Hle). destruct (scan_last max (-1) L HsL) as (k & Hin & Hk & Hmax); [eauto|]. exists k.
    pose proof (HL _ Hin) as Hx. simpl in Hx. split_and!; [apply elem_of_list_to_map_1; [done|]; rewrite elem_of_app; by right|done|done|].
    intros k' [d' Hd'] Hk'. destruct (Z.le_gt_cases x k') as [Hx'|]; [|lia]. apply (Hmax (k', d')); [by apply Hback|done].
  - right. split.
    + destruct L as [|[k d] L]; [done|]. simpl. destruct (Z.leb_spec k max); [|done]. exfalso. apply Hno. by left.
    + intros k [d Hd] [Hx Hle]. apply Hno, Exists_exists. exists (k, d). split; [by apply Hback|done].
Qed.

(** The scan from any cell of a leaf on. *)
Lemma range_scan_cell fuel A b B i p M k d max start v :
  seg (v_fd v) true INV (A ++ b :: B) INV -> Forall (fun y => y <> INV) (offs_of B) -> Forall nonempty B ->
  v_mem v = ∅ -> v_seek v = Some (p, M) -> v_fd v !! l_off b = Some M ->
  Z.of_nat i < _max_entries -> n_key M !! i = Some k -> n_val M !! i = Some d -> (length (drop i (entry b) ++ entries B) + 1 < fuel)%nat ->
  awp (range_scan fuel (Some p) (Z.of_nat i) max start)
    (fun r v' => r = scan max start ((k, d) :: drop (S i) (entry b) ++ entries B) /\ rest v v') v.
Proof.
  intros Hs Hv Hne Hm Hsk HM Hi Hk Hd Hf. pose proof (seg_blk _ _ _ _ _ _ _ Hs) as (M' & HM' & HhM & HnM). assert (M' = M) as -> by congruence.
  destruct (decide (i < length (l_keys b))%nat) as [Hlt|Hge].
  - destruct (entry_lookup M b i HnM Hlt) as (k' & d' & _ & _ & Hk' & Hd' & Hdrop). assert (k' = k) as -> by congruence. assert (d' = d) as -> by congruence.
    eapply awp_mono; [eapply (range_scan_ok fuel A b B); try done; lia|]. intros r v' [-> Hr]. by rewrite Hdrop.
  - destruct fuel as [|fuel]; [lia|]. pose proof (ni_len _ _ _ _ HnM) as Hl. simpl in Hl.
    assert (forall n, (length (l_keys b) <= n)%nat -> drop n (entry b) = []) as Hnil by (intros n Hn; apply drop_ge; unfold entry; rewrite length_zip_with; lia).
    rewrite Hnil in Hf by lia. rewrite Hnil by lia. cbn [range_scan app] in *.
    apply awp_bind. eapply awp_key_at_seek; [done|rewrite (ni_key_cap _ _ _ _ HnM); lia|by rewrite Nat2Z.id|].
    simpl. destruct (Z.leb_spec k max) as [Hle|Hgt]; [|by apply awp_ret].
    apply awp_bind. eapply awp_val_at_seek; [done|rewrite val_cap_eq; lia|by rewrite Nat2Z.id|].
    apply awp_bind. eapply awp_get_seek; [done|]. rewrite (ni_children _ _ _ _ HnM). rewrite (proj2 (Z.leb_le _ _)) by lia.
    assert (n_next M = hd_off B INV) as -> by (unfold hdr in HhM; congruence). apply awp_bind. destruct B as [|c B].
    + apply awp_node_seek_null. destruct fuel; [lia|]. by apply awp_ret.
    + rewrite cons_middle, app_assoc in Hs. pose proof (seg_blk _ _ _ _ _ _ _ Hs) as (M2 & HM2 & _).
      inversion_clear Hv. inversion_clear Hne as [|? ? Hnb ?]. simpl.
      eapply awp_node_seek; [done|exact HM2|by apply size_empty_lt|]. intros p' _.
      eapply awp_mono; [eapply (range_scan_ok fuel (A ++ [b]) c B 0%nat p' M2 max d (w_seek (Some (p', M2)) v)); try done|].
      * unfold nonempty in Hnb. destruct (l_keys c); [done|simpl; lia].
      * rewrite drop_0. rewrite entries_cons in Hf. lia.
      * intros r v' [-> Hr]. rewrite drop_0, entries_cons. split; [done|]. by destruct v.
Qed.

Lemma entries_block N nd : node_is N true (l_keys nd) (l_vals nd) -> node_entries N = entry nd.
Proof.
  intros H. pose proof (ni_len _ _ _ _ H) as Hl. simpl in Hl. unfold node_entries, entry.
  rewrite (ni_children _ _ _ _ H), Nat2Z.id, (ni_vals _ _ _ _ H), Hl, Nat.add_0_r. by rewrite (ni_keys _ _ _ _ H).
Qed.

Lemma rank_all x nd : sorted (l_keys nd) -> full nd -> x ∉ l_keys nd ->
  forallb (fun e : Z * Z => e.1 <? x) (entry nd) = (length (l_keys nd) <=? rank x (l_keys nd))%nat.
Proof.
  intros Hs Hf Hx. apply eq_true_iff_eq. rewrite forallb_forall, Nat.leb_le. split.
  - intros H. destruct (Nat.le_gt_cases (length (l_keys nd)) (rank x (l_keys nd))) as [|Hlt]; [done|]. exfalso.
    destruct (lookup_lt_is_Some_2 _ _ Hlt) as [k Hk]. destruct (lookup_lt_is_Some_2 (l_vals nd) (rank x (l_keys nd))) as [d Hd]; [unfold full in Hf; lia|].
    pose proof (rank_ge x _ _ _ Hs Hk ltac:(lia)). specialize (H (k, d)). simpl in H. rewrite Z.ltb_lt in H.
    assert (k < x); [|lia]. apply H, list_elem_of_In, (list_elem_of_lookup_2 _ (rank x (l_keys nd))). unfold entry. by rewrite lookup_zip_with, Hk; simpl; rewrite Hd.
  - intros Hle [k d] Hin%list_elem_of_In. apply list_elem_of_lookup in Hin as [i Hi]. unfold entry in Hi. apply lookup_zip_with_Some in Hi as (k' & d' & [= -> ->] & Hk & _).
    simpl. apply Z.ltb_lt. apply (rank_lt _ _ i _ Hk). pose proof (lookup_lt_Some _ _ _ Hk). lia.
Qed.

(** At the leaf that covers [x]. *)
Section leaf.
Context (x : Z) (U : list (list lnode)) (A : list lnode) (nd : lnode) (B : list lnode) (p : nat) (N : bplus_node) (a : cview).
Context (H : at_node x U A nd B [] p N a) (Hx : x ∉ l_keys nd).
Let m : gmap Z Z := list_to_map (entries (A ++ nd :: B)).

Lemma leaf_full : full nd.
Proof. destruct (at_leaf_ok _ _ _ _ _ _ _ _ H) as [(_ & _ & Hf) _]. apply Forall_app in Hf as [_ Hf]. by inversion_clear Hf. Qed.

(** An entry behind [x] in its leaf. *)
Lemma leaf_inside sc max :
  (rank x (l_keys nd) < length (l_keys nd))%nat -> (length (entries (A ++ nd :: B)) < sc)%nat ->
  awp (range_scan sc (Some p) (Z.of_nat (rank x (l_keys nd))) max (-1))
    (fun r a' => (in_range m x max r \/ r = -1 /\ forall k, is_Some (m !! k) -> ~ x <= k <= max) /\ rest a a') a.
Proof.
  intros Hlt Hsc. pose proof (at_sorted _ _ _ _ _ _ _ _ _ H) as Hs. destruct (at_leaf_ok _ _ _ _ _ _ _ _ H) as [(Ha & Hn & Hfu) Hinv].
  destruct (at_leaf_sides _ _ _ _ _ _ _ _ H) as [HsA HsB]. destruct (at_down _ _ _ _ _ _ _ _ _ H) as (_ & [Hseg _] & _). pose proof leaf_full as Hfn.
  rewrite entries_app, entries_cons, !length_app in Hsc. unfold offs_of in Hinv. rewrite fmap_app, fmap_cons, Forall_app in Hinv. destruct Hinv as [_ Hinv].
  apply Forall_app in Hn as [HnA HnB].
  eapply awp_mono; [eapply (range_scan_ok sc A nd B); [exact Hseg|by inversion_clear Hinv|by inversion_clear HnB|apply H|apply H|apply H|done|]|].
  - rewrite length_app, length_drop. lia.
  - intros r a' [-> Hr]. split; [|done]. set (i := rank x (l_keys nd)) in *.
    assert (entries (A ++ nd :: B) = (entries A ++ take i (entry nd)) ++ drop i (entry nd) ++ entries B) as Hent.
    { rewrite entries_app, entries_cons, <- app_assoc. f_equal. by rewrite app_assoc, take_drop. }
    unfold m. rewrite Hent. apply scan_from.
    + rewrite <- Hent, entries_keys by done. apply (asc_sorted _ PInf); [done|]. by apply Forall_app.
    + intros e [He|He]%elem_of_app; [by apply HsA|]. apply list_elem_of_lookup in He as [j Hj]. apply lookup_take_Some in Hj as [Hj Hji].
      unfold entry in Hj. apply lookup_zip_with_Some in Hj as (k & d & -> & Hk & _). by apply (rank_lt x (l_keys nd) j).
    + intros e [He|He]%elem_of_app; [|by apply Z.lt_le_incl, HsB]. apply list_elem_of_lookup in He as [j Hj]. rewrite lookup_drop in Hj.
      unfold entry in Hj. apply lookup_zip_with_Some in Hj as (k & d & -> & Hk & _). apply (rank_ge x _ (i + j) _ Hs Hk). lia.
Qed.

(** No entry behind [x] in its leaf, which is the last. *)
Lemma leaf_last : B = [] -> (length (l_keys nd) <= rank x (l_keys nd))%nat -> forall k, is_Some (m !! k) -> k < x.
Proof.
  intros HB Hr k [d Hk]. destruct (at_leaf_sides _ _ _ _ _ _ _ _ H) as [HsA _]. apply elem_of_list_to_map_2 in Hk. rewrite HB, entries_app, entries_cons, app_nil_r in Hk.
  apply elem_of_app in Hk as [Hk|Hk]; [apply (HsA _ Hk)|]. apply list_elem_of_lookup in Hk as [j Hj].
  unfold entry in Hj. apply lookup_zip_with_Some in Hj as (k' & d' & [= -> ->] & Hk' & _). apply (rank_lt _ _ j _ Hk'). pose proof (lookup_lt_Some _ _ _ Hk'). lia.
Qed.

(** The next leaf. *)
Lemma leaf_next b B' sc :
  B = b :: B' -> (length (entries (A ++ nd :: B)) <= sc)%nat ->
  exists M, v_fd a !! l_off b = Some M /\ node_is M true (l_keys b) (l_vals b) /\ l_off b <> INV /\ n_next M = hd_off B' INV /\
    leaf_walk sc (v_fd a) (n_next M) = entries B' /\ forall e, e ∈ entry b -> x < e.1 /\ m !! e.1 = Some e.2.
Proof.
  intros HB Hsc. destruct (at_leaf_ok _ _ _ _ _ _ _ _ H) as [Hok Hinv]. pose proof (leaves_NoDup _ Hok) as Hnd. destruct Hok as (Ha & Hn & Hfu).
  destruct (at_leaf_sides _ _ _ _ _ _ _ _ H) as [_ HsB]. destruct (at_down _ _ _ _ _ _ _ _ _ H) as (_ & [Hseg _] & _).
  rewrite HB in *. pose proof Hseg as Hseg2. rewrite cons_middle, app_assoc in Hseg2. pose proof (seg_blk _ _ _ _ _ _ _ Hseg2) as (M & HM & HhM & HnM). exists M.
  unfold offs_of in Hinv. rewrite fmap_app, !fmap_cons, Forall_app in Hinv. destruct Hinv as [_ Hinv]. inversion_clear Hinv as [|? ? _ Hinv2]. inversion_clear Hinv2 as [|? ? Hb HB'].
  assert (n_next M = hd_off B' INV) as Hnx by (unfold hdr in HhM; congruence). split_and!; [done|done|done|done| |].
  - rewrite Hnx. rewrite cons_middle, (app_assoc _ [b]) in Hseg2. apply seg_app in Hseg2 as [_ Hseg3]. eapply seg_walk; [exact Hseg3|done|].
    apply Forall_app in Hn as [_ Hn]. apply Forall_app in Hfu as [_ Hfu]. inversion_clear Hn as [|? ? _ Hn2]. inversion_clear Hn2 as [|? ? _ Hn3]. inversion_clear Hfu as [|? ? _ Hfu2]. inversion_clear Hfu2 as [|? ? _ Hfu3].
    pose proof (length_entries_ge 1 B' Hfu3) as He. rewrite Nat.mul_1_l in He. rewrite entries_app, !entries_cons, !length_app in Hsc. etransitivity; [apply He|lia].
    apply Forall_forall. intros c Hc. rewrite Forall_forall in Hn3, Hfu3. specialize (Hn3 c Hc). specialize (Hfu3 c Hc).
    unfold full, nonempty in *. destruct (l_keys c); [done|]. rewrite Hfu3. simpl. lia.
  - intros [k d] He. split; [apply HsB; rewrite entries_cons, elem_of_app; by left|]. unfold m. rewrite HB. apply elem_of_list_to_map_1; [done|]. rewrite entries_app, !entries_cons, !elem_of_app. tauto.
Qed.

Lemma range_leaf_follows f sc max (good : bplus_tree -> Prop) :
  (S (length (entries (A ++ nd :: B))) < sc)%nat -> map_Forall (fun _ => node_sized) (v_fd a) -> (forall t' a', shows t' a' -> rest a a' -> good t') ->
  follows (bplus_tree_get_range_loop (S f) sc (Some p) x max)
    (fun res => range_absent (v_fd a) m sc x max N (fun r => exists t', res = Ok (r, t') /\ good t') (res = Err EBounds)) a.
Proof.
  intros Hsc Hsz Hgood. pose proof (at_sorted _ _ _ _ _ _ _ _ _ H) as Hs. pose proof (at_node_is _ _ _ _ _ _ _ _ _ H) as Hni.
  cbn [bplus_tree_get_range_loop]. apply follows_bind. eapply awp_get_seek; [by apply H|].
  apply follows_bind. eapply awp_lift; [by eapply key_binary_search_ok|]. rewrite decide_False by done. rewrite (ni_leaf _ _ _ _ Hni). cbn [is_nil].
  rewrite (proj2 (Z.ltb_lt _ _)) by lia. replace (- (- Z.of_nat (rank x (l_keys nd)) - 1) - 1) with (Z.of_nat (rank x (l_keys nd))) by lia. cbv zeta.
  pose proof (ni_len _ _ _ _ Hni) as Hlen. simpl in Hlen. rewrite Nat.add_0_r in Hlen. pose proof (rank_le x (l_keys nd)) as Hrl.
  unfold range_absent. rewrite (entries_block _ _ Hni), (rank_all x nd Hs leaf_full Hx), (ni_children _ _ _ _ Hni), Hlen, Nat2Z.id.
  assert (n_next N = hd_off B INV) as Hnx by (pose proof (at_hdr _ _ _ _ _ _ _ _ _ H) as Hh; unfold hdr in Hh; congruence). rewrite Hnx.
  destruct (Nat.leb_spec (length (l_keys nd)) (rank x (l_keys nd))) as [Hle|Hlt].
  2: { rewrite (proj2 (Z.leb_gt _ _)) by lia. eapply follows_awp; [apply (leaf_inside sc max); [done|lia]|]. intros r t' a' Hsh [Hr Hrest]. exists r. split; [|done]. exists t'. split; [done|]. by apply (Hgood t' a'). }
  rewrite (proj2 (Z.leb_le _ _)) by lia. assert (rank x (l_keys nd) = length (l_keys nd)) as Hrk by lia. rewrite Hrk. apply follows_bind.
  assert (B = [] \/ exists b B', B = b :: B') as [HB|(b & B' & HB)] by (clear; destruct B; eauto); rewrite HB; cbn [hd_off].
  - apply awp_node_seek_null. rewrite Z.eqb_refl. destruct sc as [|sc]; [lia|]. cbn [range_scan].
    eapply follows_awp; [by apply (awp_ret (-1) (fun r a' => r = -1 /\ a' = a))|]. intros r t' a' Hsh [-> ->]. split; [exists t'; split; [done|by apply (Hgood t' a)]|by apply leaf_last].
  - destruct (leaf_next b B' sc HB ltac:(lia)) as (M & HM & HnM & Hoff & HnxM & Hwalk & Hent).
    eapply awp_node_seek; [done|exact HM|apply size_empty_lt, H|]. intros p' _. rewrite (proj2 (Z.eqb_neq _ _) Hoff).
    destruct (Z.leb_spec _max_entries (Z.of_nat (length (l_keys nd)))) as [Hfull|Hroom].
    + destruct sc as [|sc]; [lia|]. cbn [range_scan]. unfold key_at. intros t Ht. exists M. split; [done|]. rewrite (entries_block _ _ HnM). split; [done|].
      destruct (shows_seek _ _ Ht p' M eq_refl) as [_ Hc]. unfold bind at 1 2, get_node. rewrite Hc. unfold lift, rd. rewrite (ni_key_cap _ _ _ _ HnM).
      rewrite (proj2 (Z.ltb_ge _ _)), andb_false_r by lia. done.
    + destruct (Hsz _ _ HM) as [Hk Hd]. destruct (lookup_lt_is_Some_2 (n_key M) (length (l_keys nd))) as [k Hk']; [lia|].
      destruct (lookup_lt_is_Some_2 (n_val M) (length (l_keys nd))) as [d Hd']; [lia|].
      destruct (at_leaf_ok _ _ _ _ _ _ _ _ H) as [(_ & Hn & _) Hinv]. destruct (at_down _ _ _ _ _ _ _ _ _ H) as (_ & [Hseg _] & _).
      rewrite HB in Hseg, Hn, Hinv, Hsc. rewrite cons_middle, app_assoc in Hseg, Hn, Hinv. unfold offs_of in Hinv. rewrite fmap_app, fmap_cons in Hinv.
      apply Forall_app in Hn as [_ Hn]. apply Forall_app in Hinv as [_ Hinv]. rewrite entries_app, !entries_cons, !length_app in Hsc.
      eapply follows_awp.
      * apply (range_scan_cell sc (A ++ [nd]) b B' (length (l_keys nd)) p' M k d max (-1) (w_seek (Some (p', M)) a)); try done.
        -- by inversion_clear Hinv.
        -- by inversion_clear Hn.
        -- apply H.
        -- rewrite length_app, length_drop. lia.
      * intros r t' a' Hsh [-> Hr]. exists M. split; [done|]. rewrite (entries_block _ _ HnM), Hwalk. split; [done|]. exists k, d. split_and!; [done|done|].
        exists t'. split; [done|]. apply (Hgood t' a'); [done|]. by destruct a.
Qed.
End leaf.

(** The query finds nothing if the cell it goes on at holds a key above [y]. *)
Lemma range_absent_miss fd m sc x y n n' k returns bounds_error :
  range_absent fd m sc x y n returns bounds_error -> forallb (fun e => e.1 <? x) (node_entries n) = true -> (n_next n =? INV) = false ->
  fd !! n_next n = Some n' -> (_max_entries <=? n_children n) = false -> n_key n' !! Z.to_nat (n_children n) = Some k -> y < k -> returns (-1).
Proof.
  unfold range_absent. intros Hr Ha Hb Hn' Hc Hk Hy. rewrite Ha, Hb in Hr. destruct Hr as (n2 & Hn2 & _ & Hr). rewrite Hc in Hr. assert (n2 = n') as -> by congruence.
  destruct Hr as (k2 & d & Hk2 & _ & Hr). assert (k2 = k) as -> by congruence. simpl in Hr. by rewrite (proj2 (Z.leb_gt _ _) Hy) in Hr.
Qed.

(** C8. A range query whose smaller bound is not a key of the tree returns what
    [range_absent] says of the leaf its search reaches: the right answer if that
    leaf has a larger key or is the last one; otherwise it skips as many entries
    of the next leaf as the reached one has, all of which are above the bound.
    It leaves the tree as it was. *)
Theorem bplus_tree_get_range_absent fuel sc key1 key2 t m (x := Z.min key1 key2) (y := Z.max key1 key2) :
  tree_rep t m -> 0 < t_level t < Z.of_nat fuel -> (S (size m) < sc)%nat -> m !! x = None ->
  exists n, t_fd t !! leaf_for (Z.to_nat (t_level t) - 1) (t_fd t) (t_root t) x = Some n /\
    let run := bplus_tree_get_range fuel sc key1 key2 t in
    range_absent (t_fd t) m sc x y n (fun r => exists t', run = Ok (r, t') /\ tree_rep t' m) (run = Err EBounds).
Proof.
  intros (a & Ds & Hs & Hi & ->) Hl Hsc Hx. change (list_to_map (contents Ds)) with (as_map Ds) in *. rewrite (size_contents _ _ Hi) in Hsc.
  rewrite (shows_level _ _ Hs), (shows_fd _ _ Hs), (shows_root _ _ Hs), (inv_level _ _ Hi) in *. pose proof (shows_fd_sized _ _ Hs) as Hsz.
  pose (P := fun res => exists n, v_fd a !! leaf_for (Z.to_nat (Z.of_nat (length Ds)) - 1) (v_fd a) (v_root a) x = Some n /\
    range_absent (v_fd a) (as_map Ds) sc x y n (fun r => exists t', res = Ok (r, t') /\ tree_rep t' (as_map Ds)) (res = Err EBounds)).
  enough (follows (bplus_tree_get_range fuel sc key1 key2) P a) as Hfin by exact (Hfin t Hs). unfold bplus_tree_get_range.
  assert ((if key1 <=? key2 then key1 else key2) = x) as -> by (unfold x; destruct (Z.leb_spec key1 key2); lia).
  assert ((if x =? key1 then key2 else key1) = y) as -> by (unfold x, y; destruct (Z.eqb_spec (Z.min key1 key2) key1); lia).
  apply follows_bind. eapply awp_mono; [eapply (awp_root_seek x Ds a _ Hi)|intros r a' Hr; apply follows_bind, Hr]; [intros ->; simpl in Hl; lia|].
  intros nd Ds' p N a' -> Hat Hr. apply (range_loop_leaf _ sc _ _ P _ _ _ _ _ _ _ _ Hat); [simpl in Hl; lia|].
  intros f U' A' nd' B' p' N' a2 Hat2 Hr2 Hlast Hleaf. assert (rest a a2) as Hra by by eapply rest_trans.
  assert (v_fd a' = v_fd a /\ v_fd a2 = v_fd a) as [Hf1 Hf2] by (unfold rest, w_seek in *; destruct a, a', a2; simpl in *; split; congruence).
  assert (contents ([nd] :: Ds') = entries (A' ++ nd' :: B')) as Hcont by (unfold contents; change ([] ++ [nd]) with [nd] in Hlast; by rewrite Hlast).
  assert (v_root a = l_off nd) as Hroot by (pose proof (inv_tree _ _ Hi) as (HI & _); unfold ids, id_of, mk_id in HI; simpl in HI; congruence).
  intros t2 Ht2. exists N'. split.
  - rewrite Nat2Z.id, Hroot. cbn [length]. rewrite Nat.sub_succ, Nat.sub_0_r, <- Hf1, Hleaf, Hf1, <- Hf2. apply Hat2.
  - unfold as_map in *. rewrite Hcont in *. rewrite <- Hf2. apply (range_leaf_follows x U' A' nd' B' p' N' a2 Hat2); [|done|by rewrite Hf2| |done].
    + rewrite (at_leaf_lookup _ _ _ _ _ _ _ _ Hat2) in Hx. intros Hin. rewrite decide_True in Hx by done.
      pose proof (at_sorted _ _ _ _ _ _ _ _ _ Hat2) as Hso. pose proof (lookup_lt_Some _ _ _ (rank_elem _ _ Hso Hin)) as Hlt.
      pose proof (ni_len _ _ _ _ (at_node_is _ _ _ _ _ _ _ _ _ Hat2)) as Hlen. simpl in Hlen. apply lookup_ge_None in Hx. lia.
    + intros t' a3 Hs3 Hr3. exists (w_seek None a3), ([nd] :: Ds'). split_and!; [by apply shows_drop_seek|eapply rest_inv; [exact Hi|by eapply rest_trans]|by rewrite Hcont].
Qed.
End absent.

(** ** A concrete tree

    Leaves with the keys from 10 to 40 and from 50 to 100. *)
Definition two_leaves : bplus_tree :=
  match run_ops (cfg := cfg128) 20 (ops_split ++ [OpPut 90 9; OpPut 100 10]) tree128 with Ok (_, t) => t | Err _ => tree128 end.
Definition two_map : gmap Z Z := snd (spec_ops ∅ (ops_split ++ [OpPut 90 9; OpPut 100 10])).

Lemma two_leaves_rep : tree_rep (cfg := cfg128) two_leaves two_map.
Proof.
  destruct (rep_ops (cfg := cfg128) 20 (ops_split ++ [OpPut 90 9; OpPut 100 10]) tree128 ∅ tree128_rep) as (t' & Hr & Ht); [vm_compute; lia|].
  unfold two_leaves. by rewrite Hr.
Qed.

(** The query from 45 to 85 skips 50, 60, 70 and 80 and finds nothing. *)
Lemma bplus_tree_get_range_absent_witness :
  exists t', bplus_tree_get_range (cfg := cfg128) 3 15 45 85 two_leaves = Ok (-1, t') /\ tree_rep (cfg := cfg128) t' two_map /\
    two_map !! 50 = Some 5 /\ two_map !! 80 = Some 8.
Proof.
  destruct (bplus_tree_get_range_absent (cfg := cfg128) 3 15 45 85 two_leaves two_map two_leaves_rep) as (n & Hn & Hr); [vm_compute; intuition congruence|vm_compute; lia|reflexivity|].
  vm_compute in Hn. injection Hn as <-. cbv zeta in Hr.
  eapply range_absent_miss in Hr; [|vm_compute; reflexivity|reflexivity|vm_compute; reflexivity|reflexivity|reflexivity|reflexivity].
  destruct Hr as (t' & Hrun & Hrep). exists t'. split; [exact Hrun|]. split; [exact Hrep|]. split; reflexivity.
Defined.
