(* ===== verification/BPlusDump.v ===== *)
(** * Dumping the B+ tree

    [bplus_tree_dump] walks the tree with a stack of its own and prints a line
    per node.  The output is modelled as the list of lines; it is the preorder
    traversal of the tree (C9), as long as the tree has at most ten levels. *)

From S2P Require Import Prelude BPlusTree BPlusOps BPlusView BPlusNode BPlusEdit BPlusEditIns BPlusEditSplit BPlusLevels BPlusInv BPlusSearch BPlusClimb BPlusDelete BPlusRange BPlusSpec BPlusMain.

(** ** The code *)

Definition MAX_LEVEL : Z := 10.

Record node_backlog : Type := mkBacklog { b_offset : Z; next_sub_idx : Z }.

(** The pieces of eight characters printed before a node, and a line. *)
Inductive glyph : Type := GPlus | GBar | GBlank.
Record line : Type := mkLine { ln_glyphs : list glyph; ln_leaf : bool; ln_keys : list Z }.

Section dump.
Context {cfg : Config}.

(** [for (i = 0; i < n; i++) printf(" %d", key(node)[i])]. *)
Fixpoint dump_keys (n : nat) (p : nat) (i : Z) : T (list Z) :=
  match n with
  | O => ret []
  | S n => k <- key_at p i ;; ks <- dump_keys n p (i + 1) ;; ret (k :: ks)
  end.

Definition node_key_dump (p : nat) : T (bool * list Z) :=
  n <- get_node p ;;
  if is_leaf n then ks <- dump_keys (Z.to_nat (n_children n)) p 0 ;; ret (true, ks)
  else ks <- dump_keys (Z.to_nat (n_children n - 1)) p 0 ;; ret (false, ks).

(** The loop of [draw], [n] rounds to go. *)
Fixpoint draw_loop (n : nat) (stack : list node_backlog) (i level : Z) : result (list glyph) :=
  match n with
  | O => Ok []
  | S n =>
      let? g := (if i =? level - 1 then Ok GPlus
                 else let? b := rd stack MAX_LEVEL (i - 1) in
                      Ok (if negb (b_offset b =? INVALID_OFFSET) then GBar else GBlank)) in
      let? gs := draw_loop n stack (i + 1) level in
      Ok (g :: gs)
  end.

Definition draw (p : nat) (stack : list node_backlog) (level : Z) : T line :=
  gs <- lift (draw_loop (Z.to_nat (level - 1)) stack 1 level) ;;
  d <- node_key_dump p ;;
  ret (mkLine gs (fst d) (snd d)).

(** The loop: [top] is the index of [top] in the stack; [p_nbl] is what the
    entry it points to holds. *)
Fixpoint dump_loop (fuel : nat) (node : option nat) (p_nbl : option node_backlog) (stack : list node_backlog) (top level : Z)
  : T (list line) :=
  match fuel with
  | O => fail EFuel
  | S fuel =>
      match node with
      | Some p =>
          n <- get_node p ;;
          let sub_idx := match p_nbl with Some b => next_sub_idx b | None => 0 end in
          stack <- lift (wr stack MAX_LEVEL top
                    (if is_leaf n || (n_children n <=? sub_idx + 1) then mkBacklog INVALID_OFFSET 0
                     else mkBacklog (n_self n) (sub_idx + 1))) ;;
          out <- (if sub_idx =? 0 then l <- draw p stack (level + 1) ;; ret [l] else ret []) ;;
          node' <- (if is_leaf n then ret None else o <- val_at p sub_idx ;; node_seek o) ;;
          rest <- dump_loop fuel node' None stack (top + 1) (level + 1) ;;
          ret (out ++ rest)
      | None =>
          if top =? 0 then ret []
          else
            b <- lift (rd stack MAX_LEVEL (top - 1)) ;;
            node' <- node_seek (b_offset b) ;;
            dump_loop fuel node' (Some b) stack (top - 1) (level - 1)
      end
  end.

(** [stack] is what the uninitialised array holds. *)
Definition bplus_tree_dump (fuel : nat) (stack : list node_backlog) : T (list line) :=
  r <- gets t_root ;;
  node <- node_seek r ;;
  dump_loop fuel node None stack 0 0.

End dump.

(** ** The traversal *)

(** [more] tells of every ancestor whether it has children left. *)
Definition bars (more : list bool) : list glyph :=
  match more with
  | [] => []
  | _ => ((fun b : bool => if b then GBar else GBlank) <$> take (length more - 1) more) ++ [GPlus]
  end.

Definition dump_line (more : list bool) (n : bplus_node) : line :=
  mkLine (bars more) (is_leaf n) (take (Z.to_nat (if is_leaf n then n_children n else n_children n - 1)) (n_key n)).

Fixpoint dump_subs (f : list bool -> Z -> list line) (more : list bool) (vs : list Z) : list line :=
  match vs with
  | [] => []
  | v :: vs => f (more ++ [negb (is_nil vs)]) v ++ dump_subs f more vs
  end.

(** The lines of the subtree below [o], [h] levels above its leaves. *)
Fixpoint dump_tree (h : nat) (fd : gmap Z bplus_node) (more : list bool) (o : Z) : list line :=
  match fd !! o with
  | None => []
  | Some n =>
      dump_line more n ::
      match h with
      | O => []
      | S h => dump_subs (dump_tree h fd) more (take (Z.to_nat (n_children n)) (n_val n))
      end
  end.

(** How many rounds the loop takes over it. *)
Fixpoint dump_steps (h : nat) (fd : gmap Z bplus_node) (o : Z) : nat :=
  match h with
  | O => 2
  | S h => match fd !! o with
           | Some n => foldr (fun v s => 2 + dump_steps h fd v + s)%nat 0%nat (take (Z.to_nat (n_children n)) (n_val n))
           | None => 0
           end
  end.

Section proofs.
Context `{Hcfg : ConfigOk}.

(** A subtree whose blocks can be walked. *)
Fixpoint walkable (h : nat) (fd : gmap Z bplus_node) (o : Z) : Prop :=
  o <> INVALID_OFFSET /\ exists N ks vs, fd !! o = Some N /\ n_self N = o /\ vs <> [] /\
    match h with
    | O => node_is N true ks vs
    | S h => node_is N false ks vs /\ Forall (walkable h fd) vs
    end.

Lemma walkable_node h fd o : walkable h fd o -> o <> INVALID_OFFSET /\ exists N ks vs, fd !! o = Some N /\ n_self N = o /\ vs <> [] /\
  node_is N (bool_decide (h = 0%nat)) ks vs /\ (forall h', h = S h' -> Forall (walkable h' fd) vs).
Proof.
  destruct h as [|h]; intros (Ho & N & ks & vs & HN & Hs & Hne & H); (split; [done|]); exists N, ks, vs.
  - by rewrite bool_decide_true.
  - destruct H as [H Hf]. rewrite bool_decide_false by done. split_and!; try done. intros h' [= <-]. done.
Qed.

(** ** A line *)

Lemma dump_keys_ok p N lf ks vs n i a Q :
  v_seek a = Some (p, N) -> node_is N lf ks vs -> (i + n = length ks)%nat -> Q (drop i ks) a -> awp (dump_keys n p (Z.of_nat i)) Q a.
Proof.
  intros Hs HN. revert i Q. induction n as [|n IH]; intros i Q Hi HQ; cbn [dump_keys].
  - apply awp_ret. by rewrite drop_ge in HQ by lia.
  - destruct (lookup_lt_is_Some_2 ks i) as [k Hk]; [lia|]. pose proof (ni_key_len _ _ _ _ HN).
    apply awp_bind. eapply (awp_key_at_seek _ _ _ k); [done|lia|rewrite Nat2Z.id, (ni_key_lookup _ _ _ _ _ HN) by lia; done|].
    apply awp_bind. replace (Z.of_nat i + 1) with (Z.of_nat (S i)) by lia. apply IH; [lia|]. apply awp_ret. by rewrite (drop_S _ _ _ Hk) in HQ.
Qed.

Lemma node_keys N lf ks vs : node_is N lf ks vs -> Z.to_nat (if lf then n_children N else n_children N - 1) = length ks.
Proof. intros H. rewrite (ni_children _ _ _ _ H). pose proof (ni_len _ _ _ _ H). destruct lf; lia. Qed.

Lemma node_key_dump_ok p N lf ks vs a Q :
  v_seek a = Some (p, N) -> node_is N lf ks vs -> Q (lf, ks) a -> awp (node_key_dump p) Q a.
Proof.
  intros Hs HN HQ. unfold node_key_dump. apply awp_bind. eapply awp_get_seek; [done|]. rewrite (ni_leaf _ _ _ _ HN).
  pose proof (node_keys _ _ _ _ HN) as Hk.
  destruct lf; rewrite Hk; apply awp_bind; (eapply (dump_keys_ok p N _ ks vs _ 0); [done|done|lia|]); by apply awp_ret.
Qed.

(** The flags of the entries below the top. *)
Definition flags (stack : list node_backlog) : list bool := (fun b => negb (b_offset b =? INVALID_OFFSET)) <$> stack.

Lemma draw_loop_ok stack k n i :
  length stack = Z.to_nat MAX_LEVEL -> (k <= 10)%nat -> (i + n = S k)%nat -> (1 <= i)%nat ->
  draw_loop n stack (Z.of_nat i) (Z.of_nat (S k)) =
    Ok (match n with O => [] | _ => ((fun b : bool => if b then GBar else GBlank) <$> take (n - 1) (drop (i - 1) (flags stack))) ++ [GPlus] end).
Proof.
  intros Hl Hk. revert i. induction n as [|n IH]; intros i Hi H1; [done|]. cbn [draw_loop].
  destruct (Z.eqb_spec (Z.of_nat i) (Z.of_nat (S k) - 1)) as [He|Hne].
  - assert (n = 0)%nat as -> by lia. done.
  - destruct (lookup_lt_is_Some_2 stack (i - 1)) as [b Hb]; [unfold MAX_LEVEL in Hl; lia|].
    rewrite (rd_ok _ _ _ b) by (unfold MAX_LEVEL in *; try (rewrite <- Hb; f_equal; lia); lia). cbn [rbind].
    replace (Z.of_nat i + 1) with (Z.of_nat (S i)) by lia. rewrite IH by lia. cbn [rbind]. destruct n as [|n]; [lia|].
    replace (S (S n) - 1)%nat with (S n) by lia. replace (S i - 1)%nat with (S (i - 1)) by lia.
    rewrite (drop_S (flags stack) (negb (b_offset b =? INVALID_OFFSET)) (i - 1)) by (unfold flags; by rewrite list_lookup_fmap, Hb).
    cbn [take fmap list_fmap]. replace (S n - 1)%nat with n by lia. done.
Qed.

Lemma draw_ok p N lf ks vs stack k a Q :
  v_seek a = Some (p, N) -> node_is N lf ks vs -> length stack = Z.to_nat MAX_LEVEL -> (k < 10)%nat ->
  Q (dump_line (take k (flags stack)) N) a -> awp (draw p stack (Z.of_nat (S k))) Q a.
Proof.
  intros Hs HN Hl Hk HQ. unfold draw. apply awp_bind. eapply awp_lift.
  { replace (Z.to_nat (Z.of_nat (S k) - 1)) with k by lia. apply (draw_loop_ok stack k k 1); [done|lia|lia|lia]. }
  apply awp_bind. eapply node_key_dump_ok; [done|done|]. apply awp_ret. cbn [fst snd].
  assert (length (flags stack) = 10%nat) as Hf by (unfold flags; by rewrite length_fmap, Hl).
  unfold dump_line in HQ. rewrite (ni_leaf _ _ _ _ HN), (node_keys _ _ _ _ HN), (ni_keys _ _ _ _ HN) in HQ.
  change (1 - 1)%nat with 0%nat. rewrite drop_0. unfold bars in HQ. destruct k as [|k]; [done|].
  destruct (flags stack) as [|f fs] eqn:E; [done|]. cbn [take] in HQ.
  rewrite length_cons, length_take_le in HQ by (simpl in Hf; lia). 
  replace (S k - 1)%nat with k in * by lia. cbn [take] in *.
  destruct k as [|k]; [done|]. cbn [take fmap list_fmap] in *. by rewrite take_take, Nat.min_l in HQ by lia.
Qed.

(** ** The loop *)

Abbreviation full_stack stack := (length stack = Z.to_nat MAX_LEVEL).

Lemma wr_stack (stack : list node_backlog) k b : full_stack stack -> (k < 10)%nat -> wr stack MAX_LEVEL (Z.of_nat k) b = Ok (<[k := b]> stack).
Proof. intros Hl Hk. rewrite wr_ok by (unfold MAX_LEVEL in *; lia). by rewrite Nat2Z.id. Qed.

Lemma flags_insert stack k b : take k (flags (<[k := b]> stack)) = take k (flags stack).
Proof. unfold flags. rewrite list_fmap_insert. apply take_insert_ge. lia. Qed.

Lemma flags_push stack k b : full_stack stack -> (k < 10)%nat ->
  take (S k) (flags (<[k := b]> stack)) = take k (flags stack) ++ [negb (b_offset b =? INVALID_OFFSET)].
Proof.
  intros Hl Hk. rewrite (take_S_r _ _ (negb (b_offset b =? INVALID_OFFSET))); [by rewrite flags_insert|].
  unfold flags. rewrite list_fmap_insert. apply list_lookup_insert_eq. rewrite length_fmap, Hl. unfold MAX_LEVEL. lia.
Qed.

Lemma flags_take stack stack' k : take k stack' = take k stack -> take k (flags stack') = take k (flags stack).
Proof. intros H. unfold flags. by rewrite <- !fmap_take, H. Qed.

(** The walk below [o] from an entry at depth [k]: it prints the lines of the
    subtree and comes back with the stack as it was below [k]. *)
Definition walks (h : nat) : Prop :=
  forall fd o N p k stack fuel a Q,
  walkable h fd o -> v_fd a = fd -> v_mem a = ∅ -> fd !! o = Some N -> v_seek a = Some (p, N) -> full_stack stack -> (k + h < 10)%nat ->
  (forall a' stack' pb, rest a a' -> full_stack stack' -> take k stack' = take k stack ->
     awp (dump_loop fuel None pb stack' (Z.of_nat k) (Z.of_nat k)) (fun r a'' => Q (dump_tree h fd (take k (flags stack)) o ++ r) a'') a') ->
  awp (dump_loop (dump_steps h fd o + fuel) (Some p) None stack (Z.of_nat k) (Z.of_nat k)) Q a.

(** Going back up: the top entry is read, and its node, if any, again. *)
Lemma awp_pop fuel pb stack k b a Q :
  full_stack stack -> stack !! k = Some b -> (k < 10)%nat ->
  awp (node_seek (b_offset b)) (fun node a' => awp (dump_loop fuel node (Some b) stack (Z.of_nat k) (Z.of_nat k)) Q a') a ->
  awp (dump_loop (S fuel) None pb stack (Z.of_nat (S k)) (Z.of_nat (S k))) Q a.
Proof.
  intros Hl Hb Hk H. cbn [dump_loop]. rewrite (proj2 (Z.eqb_neq _ _)) by lia. replace (Z.of_nat (S k) - 1) with (Z.of_nat k) by lia.
  apply awp_bind. eapply awp_lift; [apply rd_ok; [unfold MAX_LEVEL; lia|by rewrite Nat2Z.id]|]. by apply awp_bind.
Qed.

Lemma rest_fields a a' : rest a a' -> v_fd a' = v_fd a /\ v_mem a' = v_mem a.
Proof. unfold rest, w_seek. intros [= -> -> _ _ _ _]. done. Qed.

Lemma awp_seek_walk h fd v a (Q : option nat -> cview -> Prop) :
  walkable h fd v -> v_fd a = fd -> v_mem a = ∅ ->
  (forall p N a', fd !! v = Some N -> v_seek a' = Some (p, N) -> rest a a' -> Q (Some p) a') -> awp (node_seek v) Q a.
Proof.
  intros Hw <- Hm HQ. apply walkable_node in Hw as (Hv & N & ks & vs & HN & _).
  eapply awp_node_seek; [done|exact HN|by apply size_empty_lt|]. intros p Hp. by apply (HQ p N).
Qed.

Lemma walks_leaf : walks 0.
Proof.
  intros fd o N p k stack fuel a Q Hw Hfd Hm HN Hs Hl Hk HQ. apply walkable_node in Hw as (Ho & N' & ks & vs & HN' & Hself & Hne & Hni & _).
  assert (N' = N) as -> by congruence. rewrite bool_decide_true in Hni by done. cbn [dump_steps Nat.add dump_loop dump_tree] in *. rewrite HN in HQ. apply awp_bind. eapply awp_get_seek; [done|].
  rewrite (ni_leaf _ _ _ _ Hni). cbn [orb]. apply awp_bind. eapply awp_lift; [apply wr_stack; [done|lia]|].
  set (st := <[k := _]> stack). assert (full_stack st) as Hst by (unfold st; by rewrite length_insert).
  assert (st !! k = Some (mkBacklog INVALID_OFFSET 0)) as Hb by (apply list_lookup_insert_eq; rewrite Hl; unfold MAX_LEVEL; lia).
  apply awp_bind. rewrite Z.eqb_refl. apply awp_bind. replace (Z.of_nat k + 1) with (Z.of_nat (S k)) by lia.
  eapply draw_ok; [done|done|done|lia|]. apply awp_ret, awp_bind, awp_ret, awp_bind. eapply (awp_pop fuel None); [done|exact Hb|lia|].
  apply awp_node_seek_null. eapply awp_mono; [apply (HQ a st (Some (mkBacklog INVALID_OFFSET 0))); [done|done|unfold st; apply take_insert_ge; lia]|].
  intros r a'' Hr. apply awp_ret. unfold st. by rewrite flags_insert.
Qed.

(** The children [vs'] of a node that are left, from the [length pre]-th on. *)
Lemma walks_subs h fd o N ks pre vs' p pb k stack fuel a Q :
  walks h -> fd !! o = Some N -> o <> INVALID_OFFSET -> n_self N = o -> node_is N false ks (pre ++ vs') -> vs' <> [] -> Forall (walkable h fd) (pre ++ vs') ->
  v_fd a = fd -> v_mem a = ∅ -> v_seek a = Some (p, N) -> full_stack stack -> (k + S h < 10)%nat ->
  match pb with Some b => next_sub_idx b | None => 0 end = Z.of_nat (length pre) ->
  let more := take k (flags stack) in
  (forall a' stack' pb', rest a a' -> full_stack stack' -> take k stack' = take k stack ->
     awp (dump_loop fuel None pb' stack' (Z.of_nat k) (Z.of_nat k))
       (fun r a'' => Q ((if is_nil pre then [dump_line more N] else []) ++ dump_subs (dump_tree h fd) more vs' ++ r) a'') a') ->
  awp (dump_loop (foldr (fun v s => 2 + dump_steps h fd v + s)%nat 0%nat vs' + fuel) (Some p) pb stack (Z.of_nat k) (Z.of_nat k)) Q a.
Proof.
  intros IH HN Ho Hself. revert pre p pb stack a Q.
  induction vs' as [|v vs' IHv]; intros pre p pb stack a Q Hni Hne Hw Hfd Hm Hs Hl Hk Hsub more HQ; [done|]. clear Hne.
  replace (foldr _ _ (v :: vs') + fuel)%nat
    with (S (dump_steps h fd v + S (foldr (fun v s => 2 + dump_steps h fd v + s)%nat 0%nat vs' + fuel)))%nat by (cbn [foldr]; lia).
  cbn [dump_loop]. apply awp_bind. eapply awp_get_seek; [done|]. rewrite Hsub, (ni_leaf _ _ _ _ Hni), (ni_children _ _ _ _ Hni). cbn [orb].
  set (b := if _ <=? _ then _ else _). assert (negb (b_offset b =? INVALID_OFFSET) = negb (is_nil vs')) as Hflag.
  { unfold b. rewrite length_app. simpl length. destruct vs' as [|v' vs']; simpl length.
    - rewrite (proj2 (Z.leb_le _ _)) by lia. done.
    - rewrite (proj2 (Z.leb_gt _ _)) by lia. simpl. rewrite Hself. by rewrite (proj2 (Z.eqb_neq _ _) Ho). }
  apply awp_bind. eapply awp_lift; [apply wr_stack; [done|lia]|]. set (st := <[k := b]> stack).
  assert (full_stack st) as Hst by (unfold st; by rewrite length_insert).
  assert (st !! k = Some b) as Hb by (apply list_lookup_insert_eq; rewrite Hl; unfold MAX_LEVEL; lia).
  assert (take k st = take k stack) as Htk by (apply take_insert_ge; lia).
  replace (Z.of_nat k + 1) with (Z.of_nat (S k)) by lia.
  apply awp_bind. eapply (awp_mono _ (fun out a' => out = (if is_nil pre then [dump_line more N] else []) /\ a' = a)).
  { destruct pre as [|x pre]; simpl length; [|rewrite (proj2 (Z.eqb_neq _ _)) by lia; by apply awp_ret].
    rewrite Z.eqb_refl. apply awp_bind. eapply draw_ok; [done|done|done|lia|]. apply awp_ret. unfold st. by rewrite flags_insert. }
  intros out a0 [-> ->]. apply awp_bind, awp_bind.
  assert ((pre ++ v :: vs') !! length pre = Some v) as Hv by by rewrite list_lookup_middle.
  pose proof (lookup_lt_Some _ _ _ Hv) as Hlt. pose proof (ni_cap _ _ _ _ Hni). pose proof cfg_entries.
  eapply (awp_val_at_seek _ _ _ v); [done|rewrite val_cap_eq; lia|rewrite Nat2Z.id, (ni_val_lookup _ _ _ _ _ Hni) by done; exact Hv|].
  pose proof Hw as Hwv. rewrite Forall_app, Forall_cons in Hwv. destruct Hwv as (_ & Hwv & _).
  eapply (awp_seek_walk h fd); [done|done|done|]. intros p' N' a1 HN' Hs' Hr1. apply awp_bind. destruct (rest_fields _ _ Hr1) as [Hf1 Hm1].
  eapply (IH fd v N' p' (S k) st); [done|congruence|congruence|done|done|done|lia|]. intros a2 st2 pb2 Hr2 Hst2 Ht2.
  assert (st2 !! k = Some b) as Hb2 by (rewrite <- (lookup_take_lt st2 (S k)), Ht2, lookup_take_lt by lia; exact Hb).
  assert (take k st2 = take k stack) as Htk2 by (rewrite <- Htk, <- (Nat.min_l k (S k)), <- !take_take, Ht2 by lia; done).
  assert (rest a a2) as Hr by by eapply rest_trans. destruct (rest_fields _ _ Hr) as [Hf2 Hm2].
  unfold st. rewrite flags_push, Hflag by (done || lia). fold more.
  eapply awp_pop; [done|exact Hb2|lia|]. destruct vs' as [|v' vs'].
  - assert (b_offset b = INVALID_OFFSET) as -> by (apply Z.eqb_eq; simpl in Hflag; by destruct (b_offset b =? INVALID_OFFSET)).
    apply awp_node_seek_null. eapply awp_mono; [apply (HQ a2 st2 (Some b)); done|].
    intros r a3 Hr3. apply awp_ret. cbn [dump_subs is_nil negb] in *. by rewrite app_nil_r in Hr3.
  - assert (b = mkBacklog o (Z.of_nat (length pre) + 1)) as Hbo.
    { unfold b. rewrite length_app. simpl length. rewrite (proj2 (Z.leb_gt _ _)) by lia. by rewrite Hself. }
    rewrite Hbo. cbn [b_offset]. eapply awp_node_seek; [done|rewrite Hf2, Hfd; exact HN|apply size_empty_lt; congruence|]. intros p3 Hp3.
    replace (pre ++ v :: v' :: vs') with ((pre ++ [v]) ++ v' :: vs') in * by by rewrite <- app_assoc.
    eapply (IHv (pre ++ [v]) p3 _ st2); [done|done|done|simpl; congruence|simpl; congruence|done|done|done|simpl; rewrite length_app; simpl; lia|].
    intros a4 st4 pb4 Hr4 Hst4 Ht4. rewrite Htk2 in Ht4. rewrite (flags_take _ _ _ Htk2). fold more.
    eapply awp_mono; [apply (HQ a4 st4 pb4); [|done|done]|].
    + eapply rest_trans; [exact Hr|]. exact Hr4.
    + intros r a5 Hr5. apply awp_ret. replace (is_nil (pre ++ [v])) with false by by destruct pre. cbn [dump_subs is_nil negb app] in *. by rewrite <- !app_assoc in *.
Qed.

Lemma walks_all h : walks h.
Proof.
  induction h as [|h IH]; [apply walks_leaf|]. intros fd o N p k stack fuel a Q Hw Hfd Hm HN Hs Hl Hk HQ.
  apply walkable_node in Hw as (Ho & N' & ks & vs & HN' & Hself & Hne & Hni & Hf). assert (N' = N) as -> by congruence.
  rewrite bool_decide_false in Hni by done. specialize (Hf h eq_refl). cbn [dump_steps dump_tree] in *. rewrite HN in *.
  rewrite (ni_children _ _ _ _ Hni), Nat2Z.id, (ni_vals _ _ _ _ Hni) in *.
  eapply (walks_subs h fd o N ks [] vs p None k stack); try done.
Qed.

(** ** The whole tree *)

(** The block of a node of a level. *)
Lemma level_block fd lf lv a : seg fd lf INVALID_OFFSET lv INVALID_OFFSET -> a ∈ lv ->
  exists N, fd !! l_off a = Some N /\ n_self N = l_off a /\ node_is N lf (l_keys a) (l_vals a).
Proof.
  intros Hs (A & B & ->)%list_elem_of_split. apply seg_blk in Hs as (N & HN & HH & Hni). exists N. split_and!; [done| |done].
  unfold hdr in HH. congruence.
Qed.

Lemma down_walkable fd top I D Ds :
  down_ok fd top I (D :: Ds) -> (forall o, o ∈ offs (D :: Ds) -> o <> INVALID_OFFSET) -> Forall (walkable (length Ds) fd) (offs_of D).
Proof.
  revert top I D. induction Ds as [|E Ds IH]; intros top I D Hd Hv; apply Forall_forall; intros o Ho; pose proof Ho as Ho'; apply list_elem_of_fmap in Ho' as (a & -> & Ha).
  - destruct Hd as (_ & Hl & _). destruct (level_block _ _ _ _ (proj1 Hl) Ha) as (N & HN & Hself & Hni). split; [apply Hv; by rewrite offs_one|].
    exists N, (l_keys a), (l_vals a). split_and!; try done. pose proof (lvl_nonempty _ _ _ _ Hl) as Hne. pose proof (lvl_full _ _ _ Hl) as Hf.
    rewrite Forall_forall in Hne, Hf. specialize (Hne a Ha). specialize (Hf a Ha). unfold nonempty, full in *. destruct (l_vals a), (l_keys a); done.
  - destruct Hd as (_ & Hl & Hd). destruct (level_block _ _ _ _ (proj1 Hl) Ha) as (N & HN & Hself & Hni).
    pose proof (lvl_wide _ _ _ Hl) as Hw. split; [apply Hv; rewrite offs_cons; apply elem_of_app; by left|]. exists N, (l_keys a), (l_vals a). split_and!; try done.
    { rewrite Forall_forall in Hw. specialize (Hw a Ha). unfold wide in Hw. by destruct (l_vals a). }
    assert (Forall (walkable (length Ds) fd) (offs_of E)) as HE by (eapply IH; [done|]; intros x Hx; apply Hv; rewrite offs_cons; apply elem_of_app; by right).
    destruct Hd as (Hk & _). rewrite (offs_of_ids E), <- Hk, (kids_offs _ Hw) in HE. rewrite Forall_forall in HE |- *. intros v Hv'. apply HE.
    apply list_elem_of_In, in_concat. exists (l_vals a). split; apply list_elem_of_In; [by apply list_elem_of_fmap_2|done].
Qed.

Lemma dump_steps_bound h fd o : walkable h fd o -> (dump_steps h fd o + 2 <= 4 * length (subtree h fd o))%nat.
Proof.
  revert o. induction h as [|h IH]; intros o Hw; [simpl; lia|]. apply walkable_node in Hw as (_ & N & ks & vs & HN & _ & _ & Hni & Hf).
  specialize (Hf h eq_refl). cbn [dump_steps subtree]. rewrite HN, (ni_children _ _ _ _ Hni), Nat2Z.id, (ni_vals _ _ _ _ Hni). clear Hni.
  assert (foldr (fun v s => 2 + dump_steps h fd v + s)%nat 0%nat vs <= 4 * length (concat (subtree h fd <$> vs)))%nat; [|rewrite length_cons; lia].
  induction Hf as [|v vs Hv _ IHv]; [simpl; lia|]. cbn [foldr fmap list_fmap concat]. rewrite length_app. specialize (IH v Hv).
  change (list_fmap Z (list Z) (subtree h fd) vs) with (subtree h fd <$> vs). lia.
Qed.

(** ** The keys of the leaves *)

Definition leaf_keys (ls : list line) : list Z := concat ((fun l : line => if ln_leaf l then ln_keys l else []) <$> ls).

Lemma leaf_keys_app l k : leaf_keys (l ++ k) = leaf_keys l ++ leaf_keys k.
Proof. unfold leaf_keys. by rewrite fmap_app, concat_app. Qed.

Lemma leaf_keys_cons l k : leaf_keys (l :: k) = (if ln_leaf l then ln_keys l else []) ++ leaf_keys k.
Proof. done. Qed.

Lemma leaf_keys_more h fd more o : leaf_keys (dump_tree h fd more o) = leaf_keys (dump_tree h fd [] o).
Proof.
  revert more o. induction h as [|h IH]; intros more o; simpl; (destruct (fd !! o) as [N|]; [|done]); [done|].
  rewrite !leaf_keys_cons. f_equal.
  induction (take (Z.to_nat (n_children N)) (n_val N)) as [|v vs IHv]; [done|]. cbn [dump_subs]. rewrite !leaf_keys_app, IHv. f_equal. by rewrite IH, (IH ([] ++ _)).
Qed.

Lemma leaf_keys_subs h fd more vs : leaf_keys (dump_subs (dump_tree h fd) more vs) = concat ((fun v => leaf_keys (dump_tree h fd [] v)) <$> vs).
Proof. induction vs as [|v vs IH]; [done|]. cbn [dump_subs fmap list_fmap concat]. by rewrite leaf_keys_app, IH, leaf_keys_more. Qed.

Lemma leaf_keys_down fd top I D Ds :
  down_ok fd top I (D :: Ds) -> concat ((fun o => leaf_keys (dump_tree (length Ds) fd [] o)) <$> offs_of D) = (contents (D :: Ds)).*1.
Proof.
  revert top I D. induction Ds as [|E Ds IH]; intros top I D Hd.
  - destruct Hd as (_ & Hl & _). unfold contents. simpl last. cbn iota. rewrite entries_keys by by eapply lvl_full. unfold offs_of, keys_of.
    rewrite <- list_fmap_compose. f_equal. apply list_fmap_ext. intros i a Ha. apply list_elem_of_lookup_2 in Ha.
    destruct (level_block _ _ _ _ (proj1 Hl) Ha) as (N & HN & _ & Hni). simpl. rewrite HN. unfold leaf_keys, dump_line. simpl.
    rewrite (ni_leaf _ _ _ _ Hni). simpl. by rewrite app_nil_r, (node_keys _ _ _ _ Hni : Z.to_nat (n_children N) = _), (ni_keys _ _ _ _ Hni).
  - destruct Hd as (_ & Hl & Hd). pose proof Hd as (Hk & _). pose proof (lvl_wide _ _ _ Hl) as Hw.
    change (contents (D :: E :: Ds)) with (contents (E :: Ds)). rewrite <- (IH _ _ _ Hd), (offs_of_ids E), <- Hk, (kids_offs _ Hw).
    unfold offs_of. rewrite <- list_fmap_compose. destruct Hl as [Hs _]. clear Hd Hk IH Hw.
    transitivity (concat ((fun a => concat ((fun o => leaf_keys (dump_tree (length Ds) fd [] o)) <$> l_vals a)) <$> D)).
    + f_equal. apply list_fmap_ext. intros i a Ha. apply list_elem_of_lookup_2 in Ha. destruct (level_block _ _ _ _ Hs Ha) as (N & HN & _ & Hni).
      simpl. rewrite HN, <- leaf_keys_subs with (more := []). rewrite leaf_keys_cons. cbn [dump_line ln_leaf].
      by rewrite (ni_leaf _ _ _ _ Hni), (ni_children _ _ _ _ Hni), Nat2Z.id, (ni_vals _ _ _ _ Hni).
    + clear Hs. induction D as [|a D IH]; [done|]. cbn [fmap list_fmap concat]. by rewrite fmap_app, concat_app, IH.
Qed.

Lemma root_walkable D Ds a : tree_inv (D :: Ds) a -> walkable (length Ds) (v_fd a) (v_root a) /\ offs_of D = [v_root a].
Proof.
  intros Hi. pose proof (inv_tree _ _ Hi) as Ht. assert (offs_of D = [v_root a]) as Ho by (destruct Ht as (HI & _); by rewrite offs_of_ids, <- HI).
  split; [|done]. apply down_walkable in Ht; [|intros o; apply (space_valid _ _ _ _ (inv_space _ _ Hi))]. rewrite Ho in Ht. by inversion Ht.
Qed.

Lemma dump_ok fuel stack Ds a :
  tree_inv Ds a -> (length Ds <= 10)%nat -> full_stack stack -> (4 * length (offs Ds) < fuel)%nat ->
  awp (bplus_tree_dump fuel stack)
    (fun out a' => out = (match Ds with [] => [] | _ => dump_tree (length Ds - 1) (v_fd a) [] (v_root a) end) /\ tree_inv Ds a') a.
Proof.
  intros Hi Hd Hl Hf. apply awp_forget. unfold bplus_tree_dump. apply awp_bind. eapply (awp_gets _ v_root); [by intros t []|].
  apply awp_bind. destruct Ds as [|D Ds].
  { pose proof (inv_tree _ _ Hi) as Hr. simpl in Hr. rewrite Hr. apply awp_node_seek_null. destruct fuel; [simpl in Hf; lia|]. apply awp_ret. split; [done|]. by apply (rest_inv [] a). }
  destruct (root_walkable _ _ _ Hi) as [Hw Ho]. pose proof (dump_steps_bound _ _ _ Hw) as Hb.
  assert (length (subtree (length Ds) (v_fd a) (v_root a)) = length (offs (D :: Ds))) as Hlen.
  { rewrite <- (Permutation_length (subtree_down _ _ _ _ _ (inv_tree _ _ Hi))), Ho. cbn [fmap list_fmap concat]. by rewrite app_nil_r. }
  eapply (awp_seek_walk _ _ _ _ _ Hw eq_refl (inv_mem _ _ Hi)). intros p N a' HN Hs Hr. destruct (rest_fields _ _ Hr) as [Hfd Hm].
  replace fuel with (dump_steps (length Ds) (v_fd a) (v_root a) + S (fuel - dump_steps (length Ds) (v_fd a) (v_root a) - 1))%nat by lia.
  eapply (walks_all (length Ds) (v_fd a) (v_root a) N p 0%nat stack); [done|done|rewrite Hm; apply Hi|done|done|done|simpl in Hd; lia|].
  intros a'' stack' pb Hr' Hl' _. cbn [dump_loop]. apply awp_ret. rewrite app_nil_r. cbn [length]. rewrite Nat.sub_succ, Nat.sub_0_r.
  split; [done|]. eapply rest_inv; [done|by eapply rest_trans].
Qed.

(** ** Too many levels *)

(** [m] fails with [e] in every state that [a] shows. *)
Definition afail {A} (m : T A) (e : error) (a : cview) : Prop := forall t, shows t a -> m t = Err e.

Lemma afail_bind {A B} (m : T A) (k : A -> T B) e a : awp m (fun x a' => afail (k x) e a') a -> afail (bind m k) e a.
Proof. intros H t Ht. destruct (H t Ht) as (x & t' & Hm & a' & Ht' & Hk). unfold bind. rewrite Hm. by apply Hk. Qed.

Lemma afail_seq {A B} (m : T A) (k : A -> T B) e a : afail m e a -> afail (bind m k) e a.
Proof. intros H t Ht. unfold bind. by rewrite (H t Ht). Qed.

(** The walk goes down the leftmost path first; it needs one entry of the
    stack per level. *)
Lemma dump_too_deep h fd o N p k stack fuel a :
  walkable h fd o -> v_fd a = fd -> v_mem a = ∅ -> fd !! o = Some N -> v_seek a = Some (p, N) -> full_stack stack ->
  (10 <= k + h)%nat -> (k <= 10)%nat -> (10 - k < fuel)%nat ->
  afail (dump_loop fuel (Some p) None stack (Z.of_nat k) (Z.of_nat k)) EBounds a.
Proof.
  revert o N p k stack fuel a. induction h as [|h IH]; intros o N p k stack fuel a Hw Hfd Hm HN Hs Hl Hkh Hk Hf; (destruct fuel as [|fuel]; [lia|]); cbn [dump_loop];
    apply afail_bind; (eapply awp_get_seek; [exact Hs|]).
  - assert (k = 10%nat) as -> by lia. apply afail_seq. done.
  - destruct (decide (k = 10%nat)) as [->|Hne]; [apply afail_seq; done|].
    apply walkable_node in Hw as (Ho & N' & ks & vs & HN' & Hself & Hvs & Hni & Hfw). assert (N' = N) as -> by congruence.
    rewrite bool_decide_false in Hni by done. specialize (Hfw h eq_refl). destruct vs as [|v vs]; [done|]. apply Forall_cons in Hfw as [Hwv _].
    apply afail_bind. eapply awp_lift; [apply wr_stack; [done|lia]|]. set (st := <[k := _]> stack).
    assert (full_stack st) as Hst by (unfold st; by rewrite length_insert). replace (Z.of_nat k + 1) with (Z.of_nat (S k)) by lia.
    apply afail_bind. rewrite Z.eqb_refl. apply awp_bind. eapply draw_ok; [done|done|done|lia|]. apply awp_ret.
    apply afail_bind. rewrite (ni_leaf _ _ _ _ Hni). apply awp_bind. pose proof (ni_cap _ _ _ _ Hni). pose proof cfg_entries.
    eapply (awp_val_at_seek _ _ _ v); [done|rewrite val_cap_eq; simpl in *; lia|change (Z.to_nat 0) with 0%nat; rewrite (ni_val_lookup _ _ _ _ _ Hni) by (simpl; lia); done|].
    eapply (awp_seek_walk h fd); [done|done|done|]. intros p' N' a' HN1 Hs' Hr. destruct (rest_fields _ _ Hr) as [Hf1 Hm1].
    apply afail_seq. eapply (IH v N'); [done|congruence|congruence|done|done|done|lia|lia|lia].
Qed.

Lemma dump_deep fuel stack Ds a :
  tree_inv Ds a -> (10 < length Ds)%nat -> full_stack stack -> (10 < fuel)%nat -> afail (bplus_tree_dump fuel stack) EBounds a.
Proof.
  intros Hi Hd Hl Hf. unfold bplus_tree_dump. apply afail_bind. eapply (awp_gets _ v_root); [by intros t []|]. destruct Ds as [|D Ds]; [simpl in Hd; lia|].
  destruct (root_walkable _ _ _ Hi) as [Hw _]. apply afail_bind. eapply (awp_seek_walk _ _ _ _ _ Hw eq_refl (inv_mem _ _ Hi)).
  intros p N a' HN Hs Hr. destruct (rest_fields _ _ Hr) as [Hfd Hm].
  eapply (dump_too_deep (length Ds) (v_fd a) (v_root a) N p 0%nat); [done|done|rewrite Hm; apply Hi|done|done|done|simpl in Hd; lia|lia|lia].
Qed.

(** ** The property *)

(** C9. [bplus_tree_dump] prints a tree of at most ten levels as its preorder
    traversal, each node indented under its parent; the keys of its leaves are
    the keys of the map, in order, and the tree is unchanged.  On a tree with
    more levels it writes behind the end of its stack. *)
Theorem bplus_tree_dump_preorder fuel stack t m :
  tree_rep t m -> length stack = Z.to_nat MAX_LEVEL -> (4 * Z.to_nat (t_file_size t / _block_size) + 10 < fuel)%nat ->
  if t_level t <=? MAX_LEVEL then
    let out := if t_level t =? 0 then [] else dump_tree (Z.to_nat (t_level t) - 1) (t_fd t) [] (t_root t) in
    (exists t', bplus_tree_dump fuel stack t = Ok (out, t') /\ tree_rep t' m) /\
    sorted (leaf_keys out) /\ forall k, k ∈ leaf_keys out <-> is_Some (m !! k)
  else bplus_tree_dump fuel stack t = Err EBounds.
Proof.
  intros (a & Ds & Hs & Hi & ->) Hl Hf. rewrite (shows_fd _ _ Hs), (shows_root _ _ Hs), (shows_fsize _ _ Hs), (shows_level _ _ Hs), (inv_level _ _ Hi) in *.
  assert (length (offs Ds) <= Z.to_nat (v_fsize a / _block_size))%nat as Hblocks.
  { pose proof (space_blocks _ _ _ (inv_space _ _ Hi)) as Hp. apply Permutation_length in Hp. rewrite length_app, length_fmap, length_seq in Hp. lia. }
  destruct (Z.leb_spec (Z.of_nat (length Ds)) MAX_LEVEL) as [Hd|Hd]; unfold MAX_LEVEL in Hd; [|apply (dump_deep fuel stack Ds a); [done|lia|done|lia|done]].
  destruct (rep_run (bplus_tree_dump fuel stack) t a _ Hs (dump_ok fuel stack Ds a Hi ltac:(lia) Hl ltac:(lia))) as (out & t' & a' & Hrun & Hs' & -> & Hi').
  assert ((if Z.of_nat (length Ds) =? 0 then [] else dump_tree (Z.to_nat (Z.of_nat (length Ds)) - 1) (v_fd a) [] (v_root a)) =
    match Ds with [] => [] | _ => dump_tree (length Ds - 1) (v_fd a) [] (v_root a) end) as ->.
  { rewrite Nat2Z.id. by destruct Ds. }
  split; [exists t'; split; [done|]; by exists a', Ds|].
  assert (leaf_keys (match Ds with [] => [] | _ => dump_tree (length Ds - 1) (v_fd a) [] (v_root a) end) = (contents Ds).*1) as ->.
  { destruct Ds as [|D Ds]; [done|]. rewrite <- (leaf_keys_down _ _ _ _ _ (inv_tree _ _ Hi)). destruct (root_walkable _ _ _ Hi) as [_ ->].
    cbn [fmap list_fmap concat length]. by rewrite app_nil_r, Nat.sub_succ, Nat.sub_0_r. }
  split.
  - destruct Ds as [|D Ds]; [constructor|]. destruct (down_leaves _ _ _ _ _ (inv_tree _ _ Hi)) as (lv & -> & (Ha & Hn & Hfu) & _). rewrite entries_keys by done. by eapply asc_sorted.
  - intros k. pose proof (contents_NoDup _ _ Hi) as Hnd. split.
    + intros ([k' d] & -> & Hin)%list_elem_of_fmap. exists d. by apply elem_of_list_to_map.
    + intros [d Hkd]. apply elem_of_list_to_map in Hkd; [|done]. apply list_elem_of_fmap. by exists (k, d).
Qed.
End proofs.

Lemma bplus_tree_dump_preorder_witness :
  (exists t', bplus_tree_dump (cfg := cfg128) 23 (replicate 10 (mkBacklog 7 7)) split_tree =
      Ok ([mkLine [] false [50]; mkLine [GPlus] true [10; 20; 30; 40]; mkLine [GPlus] true [50; 60; 70; 80]], t')).
Proof.
  pose proof (bplus_tree_dump_preorder (cfg := cfg128) 23 (replicate 10 (mkBacklog 7 7)) split_tree split_map split_rep eq_refl ltac:(vm_compute; lia)) as H.
  replace (t_level split_tree <=? MAX_LEVEL) with true in H by (vm_compute; reflexivity). destruct H as [(t' & Hrun & _) _]. exists t'. rewrite Hrun. vm_compute. reflexivity.
Defined.
