(* ===== verification/BPlusBoot.v ===== *)
(** * Opening and closing an index: the boot file

    [bplus_tree_deinit] writes the root, the block size, the file size and the
    free blocks to a boot file, as numbers of sixteen hexadecimal digits;
    [bplus_tree_init] checks its arguments and reads that file back.  The
    files are byte sequences; the index file itself is the map of blocks of
    [BPlusTree]. *)

From S2P Require Import Prelude BPlusTree BPlusOps BPlusView BPlusNode BPlusLevels BPlusInv BPlusSpec BPlusMain BPlusLevel.

(** ** Numbers in hexadecimal *)

Definition ADDR_STR_WIDTH : nat := 16.

(** A value of the 64-bit type [off_t], a value of [int]. *)
Definition off_t_of (v : Z) : Z := (v + 2 ^ 63) mod 2 ^ 64 - 2 ^ 63.
Definition int_of_off (v : Z) : Z := (v + 2 ^ 31) mod 2 ^ 32 - 2 ^ 31.

(** <ctype.h> in the C locale, on ASCII codes. *)
Definition isdigit (c : Z) : bool := (48 <=? c) && (c <=? 57).
Definition islower (c : Z) : bool := (97 <=? c) && (c <=? 122).
Definition isxdigit (c : Z) : bool :=
  isdigit c || ((97 <=? c) && (c <=? 102)) || ((65 <=? c) && (c <=? 70)).

Fixpoint str_to_hex_from (offset : Z) (c : list Z) : Z :=
  match c with
  | [] => offset
  | x :: c =>
      str_to_hex_from
        (if isdigit x then off_t_of (offset * 16 + x - 48)
         else if isxdigit x then
           if islower x then off_t_of (offset * 16 + x - 97 + 10) else off_t_of (offset * 16 + x - 65 + 10)
         else offset) c
  end.

Definition str_to_hex (c : list Z) : Z := str_to_hex_from 0 c.

(** The characters of ["0123456789ABCDEF"]. *)
Definition hex : list Z := [48; 49; 50; 51; 52; 53; 54; 55; 56; 57; 65; 66; 67; 68; 69; 70].

(** The loop fills the buffer from its end. *)
Fixpoint hex_to_str (offset : Z) (len : nat) : list Z :=
  match len with
  | O => []
  | S len => hex_to_str (Z.shiftr offset 4) len ++ [nth (Z.to_nat (Z.land offset 15)) hex 0]
  end.

(** ** The boot file *)

(** A file open for reading or writing: its bytes and the position. *)
Record file := mkFile { f_bytes : list Z; f_pos : nat }.

(** [read]: at most [n] bytes from the position on. *)
Definition read (n : nat) (f : file) : list Z * file :=
  let bs := take n (drop (f_pos f) (f_bytes f)) in
  (bs, mkFile (f_bytes f) (f_pos f + length bs)).

(** [write]: the bytes at the position are replaced, the file grows if needed. *)
Definition write (bs : list Z) (f : file) : file :=
  mkFile (take (f_pos f) (f_bytes f) ++ bs ++ drop (f_pos f + length bs) (f_bytes f)) (f_pos f + length bs).

(** [junk] is what the uninitialised buffer holds: a short [read] leaves its
    end as it was, and [str_to_hex] reads all sixteen characters. *)
Definition offset_load (junk : list Z) (f : file) : Z * file :=
  let (bs, f') := read ADDR_STR_WIDTH f in
  (if (0 <? length bs)%nat then str_to_hex (bs ++ drop (length bs) junk) else INVALID_OFFSET, f').

Definition offset_store (f : file) (offset : Z) : file :=
  write (hex_to_str offset ADDR_STR_WIDTH) f.

(** ** [bplus_tree_init] *)

Definition sizeof_node : Z := 40.
Definition sizeof_key : Z := 4.
Definition sizeof_off : Z := 8.
Definition sizeof_long : Z := 8.

(** The subtraction and the division are on [size_t]; the result is an [int]. *)
Definition max_order_of (block_size : Z) : Z :=
  int_of_off (((block_size - sizeof_node) mod 2 ^ 64) / (sizeof_key + sizeof_off)).

Definition max_entries_of (block_size : Z) : Z :=
  int_of_off (((block_size - sizeof_node) mod 2 ^ 64) / (sizeof_key + sizeof_long)).

(** The files of the directory: the boot file, if there is one, and the blocks
    of the index file. *)
Record disk := mkDisk { d_boot : option (list Z); d_index : gmap Z bplus_node }.

(** [while ((i = offset_load(fd)) != INVALID_OFFSET)]: [i] is an [int], so the
    comparison is on its 32 bits and the offset of the block is [i] again;
    [list_add] puts each block in front. *)
Fixpoint load_free (fuel : nat) (junk : list Z) (f : file) (free : list Z) : result (list Z) :=
  match fuel with
  | O => Err EFuel
  | S fuel =>
      let (o, f') := offset_load junk f in
      let i := int_of_off o in
      if i mod 2 ^ 32 =? INVALID_OFFSET then Ok free
      else load_free fuel junk f' (i :: free)
  end.

(** [None]: the call returns [NULL].  [namelen] is [strlen(filename)]; the
    field [filename] has 1024 characters, to which [.boot] is appended.  The
    cache buffers come from [malloc], with any contents. *)
Definition bplus_tree_init (fuel : nat) (junk : list Z) (buffers : list bplus_node)
    (namelen block_size : Z) (d : disk) : result (option (Config * bplus_tree)) :=
  if 1024 <=? namelen then Ok None
  else if negb (Z.land block_size (block_size - 1) =? 0) then Ok None
  else if block_size <? sizeof_node then Ok None
  else if max_order_of block_size <=? 2 then Ok None
  else if 1024 <? namelen + 5 + 1 then Err EBounds
  else
    match d_boot d with
    | Some bytes =>
        let (root, f1) := offset_load junk (mkFile bytes 0) in
        let (bs, f2) := offset_load junk f1 in
        let (fsize, f3) := offset_load junk f2 in
        match load_free fuel junk f3 [] with
        | Err e => Err e
        | Ok free =>
            let bs := int_of_off bs in
            Ok (Some (mkConfig bs (max_entries_of bs) (max_order_of bs),
                      mkTree buffers (replicate MIN_CACHE_NUM false) (d_index d) 0 root fsize free))
        end
    | None =>
        Ok (Some (mkConfig block_size (max_entries_of block_size) (max_order_of block_size),
                  mkTree buffers (replicate MIN_CACHE_NUM false) (d_index d) 0 INVALID_OFFSET 0 []))
    end.

(** ** [bplus_tree_deinit]

    [open] without [O_TRUNC]: the bytes of an older boot file stay behind the
    ones that are written. *)
Definition bplus_tree_deinit (cfg : Config) (t : bplus_tree) (d : disk) : disk :=
  let f := mkFile (default [] (d_boot d)) 0 in
  let f := offset_store f (t_root t) in
  let f := offset_store f _block_size in
  let f := offset_store f (t_file_size t) in
  let f := fold_left offset_store (t_free_blocks t) f in
  mkDisk (Some (f_bytes f)) (t_fd t).

(** ** Hexadecimal numbers *)

Lemma hex_to_str_S v n : hex_to_str v (S n) = hex_to_str (Z.shiftr v 4) n ++ [nth (Z.to_nat (Z.land v 15)) hex 0].
Proof. done. Qed.
Arguments hex_to_str : simpl never.

Lemma off_t_of_id v : - 2 ^ 63 <= v < 2 ^ 63 -> off_t_of v = v.
Proof. intros. unfold off_t_of. rewrite Z.mod_small by lia. lia. Qed.
Lemma int_of_off_id v : - 2 ^ 31 <= v < 2 ^ 31 -> int_of_off v = v.
Proof. intros. unfold int_of_off. rewrite Z.mod_small by lia. lia. Qed.

Lemma str_to_hex_from_app acc c c' : str_to_hex_from acc (c ++ c') = str_to_hex_from (str_to_hex_from acc c) c'.
Proof. revert acc. induction c as [|x c IH]; intros acc; simpl; [done|]. apply IH. Qed.

(** The digit of a value below 16. *)
Lemma hex_digit acc d :
  0 <= d < 16 -> 0 <= acc -> acc * 16 + d < 2 ^ 63 -> str_to_hex_from acc [nth (Z.to_nat d) hex 0] = acc * 16 + d.
Proof.
  intros Hd Ha Hb. assert (exists n, d = Z.of_nat n /\ (n < 16)%nat) as (n & -> & Hn) by (exists (Z.to_nat d); lia).
  rewrite Nat2Z.id. do 16 (destruct n as [|n]; [simpl; rewrite off_t_of_id by lia; lia|]). lia.
Qed.

Lemma hex_round_from acc v n :
  0 <= acc -> 0 <= v < 16 ^ Z.of_nat n -> acc * 16 ^ Z.of_nat n + v < 2 ^ 63 ->
  str_to_hex_from acc (hex_to_str v n) = acc * 16 ^ Z.of_nat n + v.
Proof.
  revert acc v. induction n as [|n IH]; intros acc v Ha Hv Hb; [change (hex_to_str v 0) with ([] : list Z); simpl in *; lia|].
  rewrite Nat2Z.inj_succ, Z.pow_succ_r in * by lia. rewrite hex_to_str_S, str_to_hex_from_app, Z.shiftr_div_pow2 by lia.
  change 15 with (Z.ones 4). rewrite Z.land_ones by lia. change (2 ^ 4) with 16.
  pose proof (Z.div_mod v 16 ltac:(lia)) as Hdm. pose proof (Z.mod_pos_bound v 16 ltac:(lia)) as Hmb.
  set (q := v / 16) in *. set (r := v mod 16) in *. set (w := 16 ^ Z.of_nat n) in *. assert (0 < w) by (apply Z.pow_pos_nonneg; lia).
  assert (0 <= q < w) as Hq by nia. assert (acc * w + q < 2 ^ 63) as Hq2 by nia.
  rewrite (IH acc q Ha Hq Hq2). rewrite hex_digit by nia. nia.
Qed.

Lemma length_hex_to_str v n : length (hex_to_str v n) = n.
Proof. revert v. induction n as [|n IH]; intros v; [done|]. rewrite hex_to_str_S, length_app, IH. simpl. lia. Qed.

Lemma hex_round v : 0 <= v < 2 ^ 63 -> str_to_hex (hex_to_str v ADDR_STR_WIDTH) = v.
Proof.
  intros Hv. unfold str_to_hex, ADDR_STR_WIDTH. rewrite hex_round_from; [lia|lia| |lia].
  change (16 ^ Z.of_nat 16) with (2 ^ 64). lia.
Qed.

(** ** Storing and loading *)

Definition words (l : list Z) : list Z := concat ((fun v => hex_to_str v ADDR_STR_WIDTH) <$> l).

Lemma words_cons v l : words (v :: l) = hex_to_str v ADDR_STR_WIDTH ++ words l.
Proof. done. Qed.

Lemma length_words l : length (words l) = (16 * length l)%nat.
Proof.
  induction l as [|v l IH]; [done|]. rewrite words_cons, length_app, length_hex_to_str, IH. unfold ADDR_STR_WIDTH. simpl. lia.
Qed.

Lemma words_app l k : words (l ++ k) = words l ++ words k.
Proof. unfold words. by rewrite fmap_app, concat_app. Qed.

Lemma drop_words n l : drop (16 * n) (words l) = words (drop n l).
Proof.
  revert n. induction l as [|v l IH]; intros n; [change (words []) with ([] : list Z); by rewrite !drop_nil|]. destruct n as [|n]; [by rewrite Nat.mul_0_r|].
  rewrite words_cons. replace (16 * S n)%nat with (length (hex_to_str v ADDR_STR_WIDTH) + 16 * n)%nat by (rewrite length_hex_to_str; unfold ADDR_STR_WIDTH; lia).
  rewrite drop_app_add. apply IH.
Qed.

(** Storing [l] at the position behind [pre]. *)
Lemma store_all pre old l :
  fold_left offset_store l (mkFile (pre ++ old) (length pre)) =
    mkFile (pre ++ words l ++ drop (16 * length l) old) (length pre + 16 * length l).
Proof.
  revert pre old. induction l as [|v l IH]; intros pre old; cbn [fold_left].
  - change (words []) with ([] : list Z). cbn [length app]. by rewrite Nat.mul_0_r, drop_0, Nat.add_0_r.
  - unfold offset_store at 2, write. cbn [f_bytes f_pos]. rewrite length_hex_to_str, take_app_length.
    rewrite drop_app_add. set (w := hex_to_str v ADDR_STR_WIDTH).
    assert (length w = 16%nat) as Hw by apply length_hex_to_str.
    rewrite app_assoc. replace (length pre + ADDR_STR_WIDTH)%nat with (length (pre ++ w)) by (rewrite length_app; unfold ADDR_STR_WIDTH; lia).
    rewrite IH, drop_drop, length_app. rewrite words_cons. fold w. unfold ADDR_STR_WIDTH. rewrite <- !app_assoc. cbn [length]. f_equal; [|lia].
    repeat f_equal. lia.
Qed.

Section load.
Context (junk : list Z) (Hjunk : length junk = ADDR_STR_WIDTH).

Lemma load_word pre v rest :
  0 <= v < 2 ^ 63 ->
  offset_load junk (mkFile (pre ++ hex_to_str v ADDR_STR_WIDTH ++ rest) (length pre)) =
    (v, mkFile ((pre ++ hex_to_str v ADDR_STR_WIDTH) ++ rest) (length (pre ++ hex_to_str v ADDR_STR_WIDTH))).
Proof.
  intros Hv. unfold offset_load, read. cbn [f_bytes f_pos]. rewrite drop_app_length, <- app_assoc.
  assert (take ADDR_STR_WIDTH (hex_to_str v ADDR_STR_WIDTH ++ rest) = hex_to_str v ADDR_STR_WIDTH) as ->.
  { rewrite <- (length_hex_to_str v ADDR_STR_WIDTH) at 1. apply take_app_length. }
  rewrite length_app, length_hex_to_str, drop_ge, app_nil_r by lia. cbn [Nat.ltb Nat.leb ADDR_STR_WIDTH].
  by rewrite (hex_round v Hv).
Qed.

Lemma load_end pre : offset_load junk (mkFile pre (length pre)) = (INVALID_OFFSET, mkFile pre (length pre)).
Proof.
  unfold offset_load, read. cbn [f_bytes f_pos]. rewrite drop_all, take_nil. simpl. by rewrite Nat.add_0_r.
Qed.

(** Reading back free blocks below 2 GiB reverses their order. *)
Lemma load_free_words pre l free fuel :
  Forall (fun o => 0 <= o < 2 ^ 31) l -> (length l < fuel)%nat ->
  load_free fuel junk (mkFile (pre ++ words l) (length pre)) free = Ok (reverse l ++ free).
Proof.
  intros Hl. revert pre free fuel. induction Hl as [|o l Ho Hl IH]; intros pre free fuel Hf; (destruct fuel as [|fuel]; [simpl in Hf; lia|]); cbn [load_free].
  - unfold words. simpl (concat _). rewrite app_nil_r, load_end. reflexivity.
  - change (words (o :: l)) with (hex_to_str o ADDR_STR_WIDTH ++ words l). rewrite load_word by lia. rewrite int_of_off_id by lia.
    assert ((o mod 2 ^ 32 =? INVALID_OFFSET) = false) as ->.
    { apply Z.eqb_neq. rewrite Z.mod_small by lia. unfold INVALID_OFFSET. lia. }
    rewrite IH by (simpl in Hf; lia). rewrite reverse_cons, <- app_assoc. done.
Qed.
End load.

(** ** Block sizes *)

Lemma pow2_land b : 0 < b -> Z.land b (b - 1) = 0 -> b = 2 ^ Z.log2 b.
Proof.
  intros Hb Hl. pose proof (Z.log2_spec b Hb) as [H1 H2]. pose proof (Z.log2_nonneg b).
  destruct (Z.eq_dec b (2 ^ Z.log2 b)) as [|Hne]; [done|]. exfalso.
  assert (Z.testbit (Z.land b (b - 1)) (Z.log2 b) = true) as Ht; [|by rewrite Hl, Z.bits_0 in Ht].
  rewrite Z.land_spec, Z.bit_log2 by done. simpl. replace (Z.log2 b) with (Z.log2 (b - 1)).
  - apply Z.bit_log2. lia.
  - apply Z.log2_unique; [done|]. rewrite Z.pow_succ_r in H2 by done. rewrite Z.pow_succ_r by done. lia.
Qed.

Definition valid_block_size (b : Z) : Prop := exists n, 7 <= n < 31 /\ b = 2 ^ n.

Lemma max_order_bounds b : 40 <= b < 2 ^ 31 -> max_order_of b = (b - 40) / 12 /\ max_entries_of b = (b - 40) / 12.
Proof.
  intros Hb. unfold max_order_of, max_entries_of, sizeof_node, sizeof_key, sizeof_off, sizeof_long. simpl (4 + 8).
  rewrite Z.mod_small by lia. split; apply int_of_off_id; split; try (apply Z.div_lt_upper_bound; lia);
    (transitivity 0; [lia|apply Z.div_pos; lia]).
Qed.

Lemma valid_bounds b : valid_block_size b -> 128 <= b < 2 ^ 31.
Proof.
  intros (n & Hn & ->). split.
  - change 128 with (2 ^ 7). apply Z.pow_le_mono_r; lia.
  - apply Z.pow_lt_mono_r; lia.
Qed.

Definition config_of (b : Z) : Config := mkConfig b (max_entries_of b) (max_order_of b).

Lemma config_of_ok b : valid_block_size b -> ConfigOk (config_of b).
Proof.
  intros Hb. pose proof (valid_bounds b Hb) as Hr. destruct (max_order_bounds b) as [Ho He]; [lia|].
  split; unfold config_of; cbn [_max_order _max_entries _block_size]; rewrite ?Ho, ?He; [done| |lia|].
  - apply Z.div_le_lower_bound; lia.
  - destruct Hb as (n & Hn & ->). replace n with (1 + (n - 1)) by lia. rewrite Z.pow_add_r by lia.
    rewrite Z.mul_comm. apply Z.mod_mul. lia.
Qed.

(** The checks [bplus_tree_init] makes of the block size. *)
Lemma block_size_checks b :
  0 <= b < 2 ^ 31 ->
  ((negb (Z.land b (b - 1) =? 0) = false /\ (b <? sizeof_node) = false /\ (max_order_of b <=? 2) = false) <-> valid_block_size b).
Proof.
  intros Hr. split.
  - intros (H1 & H2 & H3). apply negb_false_iff, Z.eqb_eq in H1. apply Z.ltb_ge in H2. apply Z.leb_gt in H3. unfold sizeof_node in H2.
    destruct (max_order_bounds b) as [Ho _]; [lia|]. rewrite Ho in H3. assert (b = 2 ^ Z.log2 b) as Hp by (apply pow2_land; lia).
    exists (Z.log2 b). split; [|done]. split.
    + destruct (Z.le_gt_cases 7 (Z.log2 b)) as [|Hlt]; [done|]. exfalso.
      assert (b <= 2 ^ 6) by (rewrite Hp; apply Z.pow_le_mono_r; lia). assert ((b - 40) / 12 <= 2); [|lia].
      apply Z.lt_succ_r, Z.div_lt_upper_bound; lia.
    + apply Z.log2_lt_pow2; lia.
  - intros Hv. pose proof (valid_bounds b Hv). destruct (max_order_bounds b) as [Ho _]; [lia|]. destruct Hv as (n & Hn & Hb). split_and!.
    + apply negb_false_iff, Z.eqb_eq. rewrite Hb. replace (2 ^ n - 1) with (Z.ones n) by (rewrite Z.ones_equiv; lia).
      rewrite Z.land_ones by lia. apply Z.mod_same. apply Z.pow_nonzero; lia.
    + apply Z.ltb_ge. unfold sizeof_node. lia.
    + apply Z.leb_gt. rewrite Ho. apply Z.lt_le_trans with 7; [lia|]. apply Z.div_le_lower_bound; lia.
Qed.

(** The boot file that [bplus_tree_deinit] leaves: numbers of an older one stay
    behind the ones that are written. *)
Lemma deinit_boot cfg t old fd :
  bplus_tree_deinit cfg t (mkDisk (Some (words old)) fd) =
    mkDisk (Some (words ([t_root t; _block_size; t_file_size t] ++ t_free_blocks t ++ drop (3 + length (t_free_blocks t)) old))) (t_fd t).
Proof.
  unfold bplus_tree_deinit.
  change (mkDisk (Some (f_bytes (fold_left offset_store ([t_root t; _block_size; t_file_size t] ++ t_free_blocks t)
    (mkFile ([] ++ words old) (length ([] : list Z)))))) (t_fd t) =
    mkDisk (Some (words ([t_root t; _block_size; t_file_size t] ++ t_free_blocks t ++ drop (3 + length (t_free_blocks t)) old))) (t_fd t)).
  rewrite store_all. cbn [f_bytes app]. by rewrite drop_words, app_comm_cons, app_comm_cons, app_comm_cons, words_app.
Qed.

Lemma deinit_boot_short cfg t d :
  (length (default [] (d_boot d)) <= 16 * (3 + length (t_free_blocks t)))%nat ->
  bplus_tree_deinit cfg t d = mkDisk (Some (words ([t_root t; _block_size; t_file_size t] ++ t_free_blocks t))) (t_fd t).
Proof.
  intros Hl. unfold bplus_tree_deinit.
  change (mkDisk (Some (f_bytes (fold_left offset_store ([t_root t; _block_size; t_file_size t] ++ t_free_blocks t)
    (mkFile ([] ++ default [] (d_boot d)) (length ([] : list Z)))))) (t_fd t) =
    mkDisk (Some (words ([t_root t; _block_size; t_file_size t] ++ t_free_blocks t))) (t_fd t)).
  rewrite store_all. cbn [f_bytes app]. rewrite drop_ge, app_nil_r; [done|]. cbn [length] in *. lia.
Qed.

Section boot.
Context (junk : list Z) (buffers : list bplus_node) (namelen : Z).
Context (Hname : 0 <= namelen <= 1018).

Lemma init_valid fuel b d :
  valid_block_size b ->
  bplus_tree_init fuel junk buffers namelen b d =
    match d_boot d with
    | Some bytes =>
        let (root, f1) := offset_load junk (mkFile bytes 0) in
        let (bs, f2) := offset_load junk f1 in
        let (fsize, f3) := offset_load junk f2 in
        match load_free fuel junk f3 [] with
        | Err e => Err e
        | Ok free => Ok (Some (config_of (int_of_off bs), mkTree buffers (replicate MIN_CACHE_NUM false) (d_index d) 0 root fsize free))
        end
    | None => Ok (Some (config_of b, mkTree buffers (replicate MIN_CACHE_NUM false) (d_index d) 0 INVALID_OFFSET 0 []))
    end.
Proof.
  intros Hb. pose proof (valid_bounds b Hb). destruct (proj2 (block_size_checks b ltac:(lia)) Hb) as (H1 & H2 & H3).
  unfold bplus_tree_init. rewrite (proj2 (Z.leb_gt _ _)), H1, H2, H3, (proj2 (Z.ltb_ge _ _)) by lia. done.
Qed.

Lemma init_invalid fuel b d : 0 <= b < 2 ^ 31 -> ~ valid_block_size b -> bplus_tree_init fuel junk buffers namelen b d = Ok None.
Proof.
  intros Hr Hb. unfold bplus_tree_init. rewrite (proj2 (Z.leb_gt _ _)) by lia.
  destruct (negb (Z.land b (b - 1) =? 0)) eqn:H1; [done|]. destruct (b <? sizeof_node) eqn:H2; [done|].
  destruct (max_order_of b <=? 2) eqn:H3; [done|]. exfalso. by apply Hb, block_size_checks.
Qed.

Context (Hjunk : length junk = ADDR_STR_WIDTH).

(** Opening an index whose boot file holds whole numbers. *)
Lemma init_words fuel b b' root fsize free fd :
  valid_block_size b -> valid_block_size b' -> 0 <= root < 2 ^ 63 -> 0 <= fsize < 2 ^ 63 ->
  Forall (fun o => 0 <= o < 2 ^ 31) free -> (length free < fuel)%nat ->
  bplus_tree_init fuel junk buffers namelen b' (mkDisk (Some (words ([root; b; fsize] ++ free))) fd) =
    Ok (Some (config_of b, mkTree buffers (replicate MIN_CACHE_NUM false) fd 0 root fsize (reverse free))).
Proof.
  intros Hb Hb' Hr Hs Hf Hfu. pose proof (valid_bounds b Hb). rewrite (init_valid fuel b' _ Hb'). cbn [d_boot d_index app]. rewrite !words_cons.
  pose proof (load_word junk Hjunk [] root) as L1. cbn [app length] in L1. rewrite L1 by lia.
  rewrite (load_word junk Hjunk (hex_to_str root ADDR_STR_WIDTH) b) by lia.
  rewrite (load_word junk Hjunk _ fsize) by lia.
  rewrite (load_free_words junk Hjunk _ free [] fuel Hf Hfu). rewrite app_nil_r, int_of_off_id by lia. done.
Qed.
End boot.

Lemma rep_reopen `{Hcfg : ConfigOk} buffers t m :
  length buffers = MIN_CACHE_NUM -> Forall node_sized buffers -> tree_rep t m ->
  tree_rep (mkTree buffers (replicate MIN_CACHE_NUM false) (t_fd t) (t_level t) (t_root t) (t_file_size t) (reverse (t_free_blocks t))) m.
Proof.
  intros Hl Hb (a & Ds & Hs & Hi & ->).
  exists (mkView ∅ None (v_fd a) (v_level a) (v_root a) (v_fsize a) (reverse (v_free a))), Ds. split_and!; [split| |done]; cbn [t_caches t_used t_fd t_level t_root t_file_size t_free_blocks v_mem v_seek v_fd v_level v_root v_fsize v_free]; try done.
  - intros i Hi'. rewrite lookup_empty, bool_decide_false by (by intros [? ?]). by apply (lookup_replicate_2 MIN_CACHE_NUM).
  - apply Hs.
  - apply Hs.
  - apply Hs.
  - apply Hs.
  - apply Hs.
  - by rewrite (shows_free _ _ Hs).
  - destruct Hi as [? ? Hsp Hlv Ht]. split; try done. eapply space_perm; [|exact Hsp]. cbn [v_free]. by rewrite reverse_Permutation.
Qed.

Lemma rep_offsets `{Hcfg : ConfigOk} t m :
  tree_rep t m ->
  (t_root t = INVALID_OFFSET \/ 0 <= t_root t < t_file_size t) /\ 0 <= t_file_size t /\
  Forall (fun o => 0 <= o < t_file_size t) (t_free_blocks t).
Proof.
  intros (a & Ds & Hs & Hi & ->). rewrite (shows_root _ _ Hs), (shows_fsize _ _ Hs), (shows_free _ _ Hs).
  destruct (inv_space _ _ Hi) as (_ & Hf & Hfs). pose proof cfg_block. apply Forall_app in Hf as [Hf1 Hf2]. split_and!; [|nia|].
  - pose proof (inv_tree _ _ Hi) as Ht. destruct Ds as [|D Ds]; [by left|right]. destruct Ht as (HI & _).
    assert (v_root a ∈ offs (D :: Ds)) as Hin.
    { rewrite offs_cons, elem_of_app, offs_of_ids, <- HI. left. by left. }
    rewrite Forall_forall in Hf1. by apply Hf1.
  - eapply Forall_impl; [exact Hf2|]. intros o [? _]. lia.
Qed.

(** ** The properties *)

(** C12. Sixteen hexadecimal digits hold every non-negative offset:
    [str_to_hex] reads back what [hex_to_str] wrote. *)
Theorem hex_roundtrip v : 0 <= v < 2 ^ 63 -> str_to_hex (hex_to_str v ADDR_STR_WIDTH) = v.
Proof. apply hex_round. Qed.


(** C14. Closing and reopening an index of less than 2 GiB, over a boot file
    that is not longer than the new one: the block size comes from the boot
    file, whatever the caller passes; root, blocks and file size are as before
    and the free list is reversed.  The level count is lost, but no operation
    reads it: every sequence of operations on the reopened tree is answered as
    the map of the closed one answers it. *)
Theorem bplus_tree_reopen fuel junk buffers namelen b b' t m d :
  length junk = ADDR_STR_WIDTH -> 0 <= namelen <= 1018 -> valid_block_size b -> valid_block_size b' ->
  length buffers = MIN_CACHE_NUM -> Forall (node_sized (cfg := config_of b)) buffers ->
  tree_rep (cfg := config_of b) t m -> t_file_size t <= 2 ^ 31 -> (length (t_free_blocks t) < fuel)%nat ->
  (length (default [] (d_boot d)) <= 16 * (3 + length (t_free_blocks t)))%nat ->
  exists t', bplus_tree_init fuel junk buffers namelen b' (bplus_tree_deinit (config_of b) t d) = Ok (Some (config_of b, t')) /\
    (t_fd t', t_root t', t_file_size t', t_level t') = (t_fd t, t_root t, t_file_size t, 0) /\
    t_free_blocks t' = reverse (t_free_blocks t) /\
    forall steps os, (size m + length os < steps)%nat ->
      exists t1 l, run_ops (cfg := config_of b) steps os t' = Ok (fst (spec_ops m os), t1) /\
        tree_rep (cfg := config_of b) (set_level l t1) (snd (spec_ops m os)).
Proof.
  intros Hj Hn Hb Hb' Hl Hs Hrep Hsz Hf Hold. pose proof (config_of_ok b Hb) as Hok.
  destruct (rep_offsets t m Hrep) as (Hroot & Hsz0 & Hfree).
  eexists. rewrite deinit_boot_short by done. split; [apply init_words; try done|split; [done|split; [done|]]].
  - destruct Hroot as [->|]; [by vm_compute|lia].
  - lia.
  - eapply Forall_impl; [exact Hfree|]. simpl. lia.
  - intros steps os Hst. exact (rep_ops_level steps os _ _ m (rep_reopen buffers t m Hl Hs Hrep) (same_level 0 _) Hst).
Qed.

(** ** Outside the contracts *)

(** The blocks of a tree, found by a walk from the root. *)
Definition tree_blocks (t : bplus_tree) : list Z :=
  if t_level t =? 0 then [] else subtree (Z.to_nat (t_level t) - 1) (t_fd t) (t_root t).

(** A free block of a tree is in a later state of the same file either free or
    a block of the tree. *)
Lemma block_kept `{Hcfg : ConfigOk} t1 t2 m1 m2 o :
  tree_rep t1 m1 -> tree_rep t2 m2 -> t_file_size t1 <= t_file_size t2 -> o ∈ t_free_blocks t1 -> o ∉ t_free_blocks t2 -> o ∈ tree_blocks t2.
Proof.
  intros H1 H2 Hle Ho Hn. assert (o ∈ tree_blocks t2 ++ t_free_blocks t2) as Hin; [|rewrite elem_of_app in Hin; tauto].
  unfold tree_blocks. rewrite (rep_space t2 m2 H2). assert (o ∈ tree_blocks t1 ++ t_free_blocks t1) as Hin by (rewrite elem_of_app; tauto).
  unfold tree_blocks in Hin. rewrite (rep_space t1 m1 H1) in Hin. apply list_elem_of_fmap in Hin as (i & -> & Hi). apply list_elem_of_fmap. exists i. split; [done|].
  rewrite elem_of_seq in *. pose proof cfg_block. pose proof (Z.div_le_mono (t_file_size t1) (t_file_size t2) _block_size). lia.
Qed.

(** Taking a new block for the node in buffer [p] and writing it. *)
Lemma append_flush `{cfg : Config} t p n o free :
  t_free_blocks t = o :: free -> t_caches t !! p = Some n ->
  exists t', (new_node_append p ;;; node_flush (Some p)) t = Ok (tt, t') /\ t_fd t' = <[o := set_self o n]> (t_fd t).
Proof.
  intros Hf Hp. unfold new_node_append, node_flush, upd, get_node, put_node, pwrite, cache_defer, bind, gets, modify, ret. rewrite Hf.
  cbn [set_free_blocks t_caches]. rewrite Hp. cbn [set_caches t_caches]. rewrite list_lookup_insert_eq by by eapply lookup_lt_Some. by eexists.
Qed.

(** C15. [bplus_tree_deinit] does not truncate the boot file of an earlier
    session.  If that session ended with more free blocks than the present
    one, the surplus is free again after reopening.  The last free block of the
    earlier session is the first to be handed out: if it has come into use
    since, it is a block of the tree, and the next node that is written
    replaces its contents. *)
Theorem bplus_tree_stale_boot fuel junk buffers namelen b b' t1 t2 m1 m2 d :
  length junk = ADDR_STR_WIDTH -> 0 <= namelen <= 1018 -> valid_block_size b -> valid_block_size b' ->
  tree_rep (cfg := config_of b) t1 m1 -> tree_rep (cfg := config_of b) t2 m2 ->
  t_file_size t1 <= t_file_size t2 <= 2 ^ 31 -> (length (t_free_blocks t1) < fuel)%nat ->
  (length (default [] (d_boot d)) <= 16 * (3 + length (t_free_blocks t1)))%nat -> (length (t_free_blocks t2) < length (t_free_blocks t1))%nat ->
  exists t3, bplus_tree_init fuel junk buffers namelen b' (bplus_tree_deinit (config_of b) t2 (bplus_tree_deinit (config_of b) t1 d)) =
      Ok (Some (config_of b, t3)) /\
    (t_fd t3, t_root t3) = (t_fd t2, t_root t2) /\
    t_free_blocks t3 = reverse (t_free_blocks t2 ++ drop (length (t_free_blocks t2)) (t_free_blocks t1)) /\
    (forall o, last (t_free_blocks t1) = Some o ->
       (o ∉ t_free_blocks t2 -> o ∈ tree_blocks t2) /\
       forall p n, buffers !! p = Some n ->
         exists t4, (new_node_append (cfg := config_of b) p ;;; node_flush (Some p)) t3 = Ok (tt, t4) /\
           t_fd t4 = <[o := set_self o n]> (t_fd t2)).
Proof.
  intros Hj Hn Hb Hb' Hr1 Hr2 Hsz Hf Hold Hlt. pose proof (config_of_ok b Hb) as Hok.
  destruct (rep_offsets t1 m1 Hr1) as (_ & _ & Hfree1). destruct (rep_offsets t2 m2 Hr2) as (Hroot & Hsz0 & Hfree2).
  rewrite (deinit_boot_short _ t1 d Hold), deinit_boot. cbn [drop app]. change (@_block_size (config_of b)) with b.
  assert (Forall (fun o => 0 <= o < 2 ^ 31) (t_free_blocks t2 ++ drop (length (t_free_blocks t2)) (t_free_blocks t1))) as Hall.
  { apply Forall_app. split; [|apply Forall_drop]; (eapply Forall_impl; [eassumption|simpl; lia]). }
  set (free := t_free_blocks t2 ++ drop (length (t_free_blocks t2)) (t_free_blocks t1)) in *.
  set (t3 := mkTree buffers (replicate MIN_CACHE_NUM false) (t_fd t2) 0 (t_root t2) (t_file_size t2) (reverse free)).
  exists t3. split; [apply (init_words junk buffers namelen Hn Hj fuel b b' (t_root t2) (t_file_size t2) free); try done|split; [done|split; [done|]]].
  - destruct Hroot as [->|]; [by vm_compute|lia].
  - lia.
  - unfold free. rewrite length_app, length_drop. lia.
  - intros o Ho. split.
    + intros Hno. apply (block_kept (cfg := config_of b) t1 t2 m1 m2); [done|done|lia|by apply last_Some_elem_of|done].
    + intros p n Hp. apply last_Some in Ho as [l1 Ho]. assert (t_free_blocks t3 = o :: reverse (t_free_blocks t2 ++ drop (length (t_free_blocks t2)) l1)) as Hf3.
      { cbn [t3 t_free_blocks]. unfold free. rewrite Ho, drop_app_le, app_assoc, reverse_snoc; [done|]. rewrite Ho, length_app in Hlt. simpl in Hlt. lia. }
      destruct (append_flush (cfg := config_of b) t3 p n o _ Hf3 Hp) as (t4 & Hrun & Hfd). by exists t4.
Qed.

(** A file name of 1019 to 1023 characters passes the length check, but
    [strcat] writes ".boot" behind the end of the field [filename]. *)
Lemma bplus_tree_name_overflow fuel junk buffers namelen b d :
  1019 <= namelen < 1024 -> valid_block_size b -> bplus_tree_init fuel junk buffers namelen b d = Err EBounds.
Proof.
  intros Hn Hb. pose proof (valid_bounds b Hb). destruct (proj2 (block_size_checks b ltac:(lia)) Hb) as (H1 & H2 & H3).
  unfold bplus_tree_init. rewrite (proj2 (Z.leb_gt _ _)), H1, H2, H3, (proj2 (Z.ltb_lt _ _)) by lia. done.
Qed.

(** ** The theorems at a concrete index *)

Lemma valid_128 : valid_block_size 128.
Proof. exists 7. split; [lia|reflexivity]. Qed.

Lemma hex_roundtrip_witness : str_to_hex (hex_to_str 3735928559 ADDR_STR_WIDTH) = 3735928559.
Proof. apply (hex_roundtrip 3735928559). lia. Defined.


Lemma bplus_tree_reopen_witness :
  exists t', bplus_tree_init 10 (replicate 16 0) (replicate MIN_CACHE_NUM blank) 8 128 (bplus_tree_deinit (config_of 128) split_tree (mkDisk None ∅)) =
      Ok (Some (config_of 128, t')) /\
    t_free_blocks t' = reverse (t_free_blocks split_tree) /\
    exists t1, run_ops (cfg := config_of 128) 20 [OpGet 30; OpPut 90 9; OpGet 90] t' = Ok ([3; 0; 9], t1).
Proof.
  destruct (bplus_tree_reopen 10 (replicate 16 0) (replicate MIN_CACHE_NUM blank) 8 128 128 split_tree split_map (mkDisk None ∅)) as (t' & Hi & _ & Hf & Hops);
    [reflexivity|lia|apply valid_128|apply valid_128|reflexivity|by repeat constructor|exact split_rep|vm_compute; congruence|vm_compute; lia|vm_compute; lia|].
  exists t'. split; [exact Hi|]. split; [exact Hf|].
  destruct (Hops 20%nat [OpGet 30; OpPut 90 9; OpGet 90]) as (t1 & l & Hrun & _); [vm_compute; lia|]. by exists t1.
Defined.

(** Three sessions: the first stores and deletes a key and leaves a free block,
    the second stores it again in that block, and the third opens the index. *)
Definition first_tree : bplus_tree :=
  match run_ops (cfg := cfg128) 20 [OpPut 1 10; OpPut 1 0] tree128 with Ok (_, t) => t | Err _ => tree128 end.
Definition second_start : bplus_tree :=
  mkTree (replicate MIN_CACHE_NUM blank) (replicate MIN_CACHE_NUM false) (t_fd first_tree) (t_level first_tree) (t_root first_tree) (t_file_size first_tree)
    (reverse (t_free_blocks first_tree)).
Definition second_tree : bplus_tree :=
  match run_ops (cfg := cfg128) 20 [OpPut 1 10] second_start with Ok (_, t) => t | Err _ => tree128 end.

Lemma first_rep : tree_rep (cfg := cfg128) first_tree ∅.
Proof.
  destruct (rep_ops (cfg := cfg128) 20 [OpPut 1 10; OpPut 1 0] tree128 ∅ tree128_rep) as (t' & Hr & Ht); [vm_compute; lia|].
  unfold first_tree. by rewrite Hr.
Qed.

Lemma second_rep : tree_rep (cfg := cfg128) second_tree {[1 := 10]}.
Proof.
  assert (tree_rep (cfg := cfg128) second_start ∅) as Hs by (apply rep_reopen; [done|by repeat constructor|apply first_rep]).
  destruct (rep_ops (cfg := cfg128) 20 [OpPut 1 10] second_start ∅ Hs) as (t' & Hr & Ht); [vm_compute; lia|].
  unfold second_tree. by rewrite Hr.
Qed.

(** The second session starts with what [bplus_tree_init] reads. *)
Lemma second_opened :
  bplus_tree_init 10 (replicate 16 0) (replicate MIN_CACHE_NUM blank) 8 128 (bplus_tree_deinit cfg128 first_tree (mkDisk None ∅)) = Ok (Some (cfg128, second_start)).
Proof. vm_compute. reflexivity. Qed.

(** The third finds block 0 both as the root of the tree and in the free list. *)
Lemma bplus_tree_stale_boot_witness :
  exists t3, bplus_tree_init 10 (replicate 16 0) (replicate MIN_CACHE_NUM blank) 8 128
      (bplus_tree_deinit (config_of 128) second_tree (bplus_tree_deinit (config_of 128) first_tree (mkDisk None ∅))) = Ok (Some (config_of 128, t3)) /\
    t_root t3 = 0 /\ t_free_blocks t3 = [0] /\ 0 ∈ tree_blocks second_tree.
Proof.
  destruct (bplus_tree_stale_boot 10 (replicate 16 0) (replicate MIN_CACHE_NUM blank) 8 128 128 first_tree second_tree ∅ {[1 := 10]} (mkDisk None ∅)) as (t3 & Hi & Hr & Hf & Hlast);
    [reflexivity|lia|apply valid_128|apply valid_128|exact first_rep|exact second_rep|vm_compute; intuition congruence|vm_compute; lia|vm_compute; lia|vm_compute; lia|].
  exists t3. split; [exact Hi|]. split; [|split].
  - injection Hr as _ ->. vm_compute. reflexivity.
  - rewrite Hf. vm_compute. reflexivity.
  - apply (Hlast 0); [reflexivity|]. vm_compute. intros H. by apply elem_of_nil in H.
Defined.
